(* ===== verification/_CoqProject ===== *)
-Q . S2P
Prelude.v
Json.v
Types.v
Samples.v
Text.v
Pipeline.v
Graph.v
Yaml.v
Access.v
Db.v
Coordination.v
Codec.v
Worker.v
Store.v
Rows.v
Sessions.v
SessionInv.v
SessionClaims.v
Isolation.v
Effects.v
Clock.v
Cron.v
Schedule.v
Scheduler.v
SchedulerClaims.v
Sha256.v
Files.v
Workspace.v
Artifacts.v
Runtime.v
Execution.v
RunRows.v
Lifecycle.v
Threads.v
Manager.v
Submission.v
Interactions.v
Quiet.v
Calm.v
Tickets.v
Dispatch.v
Retries.v
ManagerClaims.v
Decisions.v
Reducer.v
Reduction.v
Ingress.v
IngressClaims.v
Steps.v
Walk.v
Branches.v
Stepper.v
Following.v
Holding.v
Stepping.v
StepperClaims.v
Recovery.v
Registration.v
RegistrationClaims.v
Maintenance.v
MaintenanceClaims.v
Pool.v
LeaseRows.v
Claiming.v
ClusterClaims.v
