(* ===== verification/Prelude.v ===== *)
(** * LASO

    LASO runs pipelines of agents, tools and workers.  A client registers a pipeline, starts a run of it
    (directly, through a schedule, an event trigger, or a turn of an agent session), and the runtime moves
    the run from node to node, checkpointing every step in a record store that several instances may
    share.  This development models the program's core in C++ ([src/src], [src/include]) as executable
    functions and proves what makes it correct.

    ** Parts of the program and their files

    The bottom layer holds data.  [Json] is the document type ([laso::Json]); [Types] and [Codec] are
    [include/laso/core/types.hpp] and [src/core/types.cpp] with their JSON forms; [Worker] is
    [include/laso/workers/worker.hpp] and [src/workers/worker.cpp]; [Text] holds string routines; [Samples]
    the concrete values at which theorems are instantiated.

    Pipelines: [Pipeline] (identifiers, validation) and [Yaml] (documents) are [src/pipeline/parser.cpp];
    [Graph] is the run cursor [src/runtime/graph.cpp].  [Access] holds the registries, the policy engine,
    permissions and the trusted gateway.

    Storage: [Db] is the PostgreSQL schema as a state with transactions; [Coordination] is the lease table
    and the instance registry ([src/storage/coordination.cpp]); [Store] the record operations and the audit
    journal and [Sessions] the session operations of [src/storage/postgres.cpp]. [SessionInv] and
    [SessionClaims] hold the invariant of the sessions and its consequences; [Isolation] has transactions
    that overlap under READ COMMITTED and what they leave of finished work; [Rows], [RunRows] and
    [LeaseRows] say which rows an operation can change.  [Pool] is the pool of connections,
    [src/storage/postgres_pool.cpp].  [Reducer] is [src/context/reducer.cpp] and [Reduction] the automatic
    reduction of a session's history before a turn, in [src/runtime/runtime.cpp].

    Activity: [Effects] is the monad of operations that act on an object's state through the store and other
    components; [Threads] the interleaving of several threads over one state.  [Clock], [Cron], [Schedule],
    [Scheduler] and [SchedulerClaims] are [src/scheduler/scheduler.cpp]; [Runtime], [Execution] and
    [Lifecycle] are [src/runtime/runtime.cpp] and the locked start of an execution; [Steps], [Branches] and
    [Stepper] are the coroutines of [src/runtime/execution.cpp], [Walk] the walks over its branches,
    [Following], [Holding] and [Stepping] what their steps may change, and [StepperClaims] the conclusions;
    [Claiming] and [ClusterClaims] are the passes of the claim and lease loops that share runs and branches
    between instances; [Sha256], [Files], [Workspace] and [Artifacts] are [src/core/artifacts.cpp] and
    [src/runtime/workspace.cpp] over a file system; [Manager], [Submission] and [Interactions] are
    [src/workers/manager.cpp]; [Quiet], [Calm], [Tickets] and [Dispatch] say what its blocks and threads may
    change, [Retries] when they submit a job again, and [ManagerClaims] and [Decisions] draw the
    conclusions; [Ingress] and [IngressClaims] are [src/application/event_ingress.cpp].

    The service over them is [src/application/service.cpp]: [Registration] and [RegistrationClaims] are its
    registry of pipelines, [Recovery] the recovery of the history an earlier process left, [Maintenance] and
    [MaintenanceClaims] the draining and maintenance of an instance with its state file and the journal of
    operator actions; its session operations are in [Sessions].

    ** How state and operations correspond to the code

    A C++ struct is a record with the same fields (prefixed where Rocq needs unique names), an enum an
    inductive type.  An object's fields form a record ([DB], [World], [RT], [Mgr], [Ingress], [SV]); an
    operation is a function from that state to a state and either a result or the exception thrown ([tres]),
    so that effects made before a throw are kept and [catch] clauses are modelled case by case ([io_catch],
    [io_catch_all], [task_handle]).  A transaction keeps nothing when it throws, except the identity
    columns.  Transactions of [Db] run one after the other; the checks of [write_records] take no row lock,
    and [Isolation] models what commits that overlap make of them.  An operation that holds its object's
    mutex throughout is one atomic step; the operations of the worker manager, which release it around calls
    of a worker, and those of the event ingress, which hold it for their counters only, are programs of
    atomic blocks and calls that a pool interleaves; so are the passes of the distributed loops, over the
    processes and the database of a [Cluster].  Integers have their width written out ([u64], [ns64], 32-bit
    words).  Clocks, identifiers, the JSON printer, the YAML library, callbacks, file system failures and
    worker transports are parameters; every reading of a clock or an identifier gets the number of the call,
    so that successive readings are independent.

    ** What the theorems show

    Pipelines: acceptance is equivalent to a declarative specification; in an accepted pipeline routing
    selects exactly one edge, never exceeds a budget and terminates; joins do not depend on the order of
    arrival.  Storage: the lease table refines an abstract lock service with fencing tokens and a stale
    holder is refused by every write; claims are won once; finished work, once no open transaction has
    checked it before, finished turns and terminal states never change; journals are numbered without gaps
    and paged completely; a connection of the pool belongs to one lease, and no wake-up is lost unless a
    thread gives up although it could take a connection. Runs: in every interleaving of the operations and
    executions of one instance the stored state of a run follows the transition table and an ended run stays
    ended, unless the start of its execution threw; the coroutines of executions, with their retries,
    approvals, sub-pipelines and concurrent branches, do nothing else to the stored runs unless a start or
    the write of a resting state throws, and their loops end within the step limit of the pipeline, the wait
    for a child with the deadline or the stop.  A branch is given to other instances exactly when its nodes
    allow it.  Instances: whatever the interleaving of claims, renewals, ends and restarts, a current lease
    is held at one place, and the slots bound the branches executed in the cluster and for a
    run.  Scheduling: cron searches return the first match, due times move forward, an occurrence is
    launched once.  Files: the hash is SHA-256, staging is confined to its directory and yields the
    manifest's content, uploads are content-addressed and collection keeps what is referenced.  Workers:
    with one manager on the database a job is first handed to a transport at most once, and once more for
    every dispatch that ended without a recorded handle, and retried only where the transport recovers
    submissions, a decided interaction is final, and identifiers of jobs are well-formed.  Events: an
    external event is accepted once, and the capacity of the ingress is respected and given back. Context: a
    reduction covers the whole earlier history, in order, within the budget, and writes nothing but one
    generation; the reference reducer keeps as much as fits.  Service: the registry of pipelines is closed
    under its pinned references and free of cycles, its search for recursion decides, and a registered
    document is found again as it was parsed; recovery leaves no run executing and only moves runs along
    their table; the modes of the runtime, of the service and in the state file agree whatever fails,
    survive a restart, and an instance that is safe to stop is idle and refuses work.  Access: the policy
    engine and the gateway decide as their specifications say.

    ** Bounds and fuel

    Recursion that is not structural takes fuel.  [visit] and [reach] get [graph_fuel], one more than the
    number of nodes ([visit_total], [reach_total]).  [hex_digits] gets 16, the digits of 64 bits.  The paged
    listings get one page more than the offset limit of the store allows ([max_queue_pages],
    [max_artifact_pages]).  [cron_search] gets the code's own search limit, the skipping of missed
    occurrences its [max_skips].  [cancel_fuel] is the number of stored runs: a cancelled tree visits each
    once.  The SHA-256 update loop gets the length of its input.  [cancel] of the worker manager recurses
    over child jobs without a bound in the code; its theorems hold for every depth.  [gather] gets the
    number of turns it has to read ([gather_fuel]).  The loop of an execution gets [run_fuel], 257 passes
    for each step its pipeline has left, and the loop of a branch [branch_fuel]; [execution_terminates]
    proves that neither runs out.  [walk_fuel] is one more than the number of edges ([walk_correct]).  The
    loops of the code that wait for a child run or for local branches poll without a bound; here a thread
    looks [polls] times and then stays as it is ([Polling]); the theorems hold for every number, and a wait
    for a child gets there only if [context.check] has succeeded more than [polls] times ([ends]).
    [visit_fuel] is two names for each record and the candidate ([visit_decides]); [max_run_pages] pages of
    runs are more than the offset limit of the store allows.

    ** One instance, and what is atomic

    Several instances may share a schema.  [Coordination], [Isolation], [Claiming] and [ClusterClaims] are
    about any number of them; so are the operations of the sessions, which lock the row of the session, the
    claims and the fenced commits. The worker manager, the scheduler and the life of runs are modelled for
    one instance: no other process writes their records ([other_components], [sched_step], [coordinated
    config = false]).  Three operations of the code run without a lock from end to end and are one step
    here: [register_pipeline] (one registration at a time), [collect_garbage] (no upload beside it) and
    [operator_maintenance] (the mode is not changed while it is reported).  A run has one coroutine at a
    time ([enter_run]), as [schedule] refuses an active run.

    ** Not modelled

    Network and terminal I/O (API, server, command line, providers, S3 and remote artifact stores, opening a
    connection to the database), processes and pipes ([process_transport]), dynamic loading of plugins, the
    schema validator (a wrapper of a library), configuration files, the thread pool, aggregated diagnostics
    and views of the service, its operations that only forward to another component, the nodes that call
    functions, agents, tools and workers (calls with arbitrary answers), the execution of a branch that
    another instance claimed ([execute_distributed_work]) and the lookup of provider continuations, the
    session loop of the runtime and the supervision that restarts its loops, the brokered browser tool call
    of the worker manager ([handle_tool_call]), its per-worker submission mutex and the failure of an
    allocation between a reservation and its thread. *)

From stdpp Require Export base tactics list gmap strings fin_maps sorting.
From Stdlib Require Export ZArith Lia.

#[global] Set Default Goal Selector "!".

(** ** Errors

    [laso::ErrorCode] and [laso::Error] of [include/laso/core/types.hpp].  The
    diagnostic [details] document of an error is not modelled. *)

Inductive ErrorCode :=
  | Configuration | Validation | Plugin | StorageError | Provider | ToolError | PolicyError
  | Execution | Timeout | Cancellation | NotFound | Conflict | Capacity | Unavailable.

#[global] Instance ErrorCode_eq_dec : EqDecision ErrorCode.
Proof. solve_decision. Defined.

Record Error := mkError { code : ErrorCode; what : string }.

#[global] Instance Error_eq_dec : EqDecision Error.
Proof. solve_decision. Defined.

(** Pure fallible code: a value, or a thrown [Error]. *)
Inductive res (A : Type) :=
  | Ok (a : A)
  | Throw (e : Error).
Arguments Ok {A} _.
Arguments Throw {A} _.

#[global] Instance res_ret : MRet res := fun A => Ok.
#[global] Instance res_bind : MBind res := fun A B f m =>
  match m with Ok a => f a | Throw e => Throw e end.
#[global] Instance res_fmap : FMap res := fun A B f m =>
  match m with Ok a => Ok (f a) | Throw e => Throw e end.

Definition err (c : ErrorCode) (msg : string) : Error := mkError c msg.

(** [if (cond) throw Error(code, msg);] *)
Definition throw_if (cond : bool) (c : ErrorCode) (msg : string) : res unit :=
  if cond then Throw (err c msg) else Ok tt.

Definition is_ok {A} (r : res A) : bool :=
  match r with Ok _ => true | Throw _ => false end.

(** [for (x : l) f(x);] where the body may throw. *)
Fixpoint res_iter {A} (f : A -> res unit) (l : list A) : res unit :=
  match l with
  | [] => Ok tt
  | x :: l => f x ≫= fun _ => res_iter f l
  end.

(** Effectful code: state passing in which a throw keeps the mutations made before it,
    as a C++ exception does. *)
Definition M (S A : Type) : Type := S -> S * res A.

Definition m_ret {S A} (a : A) : M S A := fun s => (s, Ok a).
Definition m_throw {S A} (c : ErrorCode) (msg : string) : M S A :=
  fun s => (s, Throw (err c msg)).
Definition m_bind {S A B} (m : M S A) (f : A -> M S B) : M S B := fun s =>
  match m s with
  | (s', Ok a) => f a s'
  | (s', Throw e) => (s', Throw e)
  end.
Definition m_get {S} : M S S := fun s => (s, Ok s).
Definition m_put {S} (s' : S) : M S unit := fun _ => (s', Ok tt).
Definition m_modify {S} (f : S -> S) : M S unit := fun s => (f s, Ok tt).
Definition m_lift {S A} (r : res A) : M S A := fun s => (s, r).
Definition m_guard {S} (cond : bool) (c : ErrorCode) (msg : string) : M S unit :=
  if cond then m_throw c msg else m_ret tt.
(** [try { m } catch (const Error &e) { h(e) }] *)
Definition m_catch {S A} (m : M S A) (h : Error -> M S A) : M S A := fun s =>
  match m s with
  | (s', Ok a) => (s', Ok a)
  | (s', Throw e) => h e s'
  end.

Declare Scope laso_scope.
Delimit Scope laso_scope with laso.
Notation "'do' x <- m ; k" := (m_bind m (fun x => k))
  (at level 100, x name, m at next level, right associativity) : laso_scope.
Notation "'do' ' p <- m ; k" := (m_bind m (fun x => match x with p => k end))
  (at level 100, p pattern, m at next level, right associativity) : laso_scope.
Notation "m ;;; k" := (m_bind m (fun _ => k))
  (at level 100, right associativity) : laso_scope.
Open Scope laso_scope.

(** [for (x : l) body(x);] over effectful bodies. *)
Fixpoint m_iter {S A} (f : A -> M S unit) (l : list A) : M S unit :=
  match l with
  | [] => m_ret tt
  | x :: l => f x ;;; m_iter f l
  end.

(** ** Record update

    [r <| f := v |>] is the record [r] with field [f] replaced.  A record type gives its
    eta expansion once, as an instance of [Eta]; the setter of a field is computed from it. *)

Class Eta (R : Type) := eta : R -> R.
#[global] Hint Mode Eta ! : typeclass_instances.

Class Setter {R T : Type} (proj : R -> T) := setter : (T -> T) -> R -> R.

Ltac term_head t := lazymatch t with ?f _ => term_head f | _ => t end.

Ltac solve_setter :=
  lazymatch goal with
  | |- @Setter ?R ?T ?proj =>
      let inst := lazymatch constr:(@eta R _) with @eta _ ?i => i end in
      let h := term_head inst in
      let f := fresh "f" in
      let r := fresh "r" in
      unfold Setter; intros f r;
      let e := eval cbv beta delta [eta h] in (@eta R inst r) in
      let e' := eval pattern (proj r) in e in
      lazymatch e' with
      | ?g _ => let body := eval cbv beta in (g (f (proj r))) in exact body
      end
  end.

#[global] Hint Extern 1 (Setter _) => solve_setter : typeclass_instances.

Notation "r <| f := v |>" := (setter (proj := f) (fun _ => v) r)
  (at level 1, left associativity, format "r  <| f  :=  v |>") : laso_scope.


(** ** [std::string] and [std::map]

    A [std::map<std::string, V>] is a [gmap string V]; iterating over it visits the keys in
    increasing [std::string] order, which is the byte order of [String.leb]. *)

Definition size_of (s : string) : Z := Z.of_nat (String.length s).
Definition empty_str (s : string) : bool := String.eqb s "".

Definition str_le (a b : string) : Prop := String.leb a b = true.
#[global] Instance str_le_dec : RelDecision str_le.
Proof. intros a b. unfold str_le. apply _. Defined.

Definition key_le {V} (a b : string * V) : Prop := str_le a.1 b.1.
#[global] Instance key_le_dec {V} : RelDecision (@key_le V).
Proof. intros a b. unfold key_le. apply _. Defined.

Definition map_items {V} (m : gmap string V) : list (string * V) :=
  merge_sort key_le (map_to_list m).

(** ** Unsigned machine integers *)

Definition u32_max : Z := 4294967295.
Definition u64_max : Z := 18446744073709551615.
Definition i64_max : Z := 9223372036854775807.
Definition u32 (z : Z) : Z := z mod 4294967296.
Definition u64 (z : Z) : Z := z mod 18446744073709551616.

(** ** Lemmas shared by the components *)

Lemma map_items_perm {V} (m : gmap string V) : map_items m ≡ₚ map_to_list m.
Proof. apply merge_sort_Permutation. Qed.

Lemma elem_of_map_items {V} (m : gmap string V) k v :
  (k, v) ∈ map_items m <-> m !! k = Some v.
Proof. rewrite map_items_perm. apply elem_of_map_to_list. Qed.

Lemma length_map_items {V} (m : gmap string V) : length (map_items m) = size m.
Proof. by rewrite map_items_perm, length_map_to_list. Qed.

Lemma filter_none {A} (P : A -> Prop) `{forall x, Decision (P x)} l :
  Forall (fun x => ~ P x) l -> filter P l = [].
Proof. induction 1 as [|x l Hx Hl IH]; [done|]. by rewrite filter_cons, decide_False. Qed.

Lemma u64_small z : (0 <= z <= u64_max)%Z -> u64 z = z.
Proof. unfold u64, u64_max. intros Hz. apply Z.mod_small. lia. Qed.

Lemma throw_if_ok c code msg : throw_if c code msg = Ok tt <-> c = false.
Proof. by destruct c. Qed.

Lemma res_bind_ok {A B} (m : res A) (f : A -> res B) b :
  (m ≫= f) = Ok b <-> exists a, m = Ok a /\ f a = Ok b.
Proof. destruct m; naive_solver. Qed.

Lemma res_iter_ok {A} (f : A -> res unit) l :
  res_iter f l = Ok tt <-> Forall (fun x => f x = Ok tt) l.
Proof.
  induction l as [|x l IH]; simpl; [by split|].
  rewrite Forall_cons, <- IH. destruct (f x) as [[]|]; simpl; naive_solver.
Qed.

Lemma seq_ok {A B} (m : res A) (k : res B) b :
  (m ;; k) = Ok b <-> (exists a, m = Ok a) /\ k = Ok b.
Proof. destruct m; naive_solver. Qed.

Lemma seq_unit_ok {B} (m : res unit) (k : res B) b :
  (m ;; k) = Ok b <-> m = Ok tt /\ k = Ok b.
Proof. destruct m as [[]|]; naive_solver. Qed.

Lemma m_bind_ok {S A B} (m : M S A) (f : A -> M S B) s s' b :
  m_bind m f s = (s', Ok b) <-> exists s1 a, m s = (s1, Ok a) /\ f a s1 = (s', Ok b).
Proof.
  unfold m_bind. destruct (m s) as [s1 [a|e]]; split; intros H; [eauto| |done|];
    destruct H as (? & ? & ? & ?); by simplify_eq.
Qed.

Lemma m_bind_throw {S A B} (m : M S A) (f : A -> M S B) s s' e :
  m_bind m f s = (s', Throw e) <->
  m s = (s', Throw e) \/ exists s1 a, m s = (s1, Ok a) /\ f a s1 = (s', Throw e).
Proof.
  unfold m_bind. destruct (m s) as [s1 [a|e']]; split; intros H.
  - right; eauto.
  - destruct H as [|(? & ? & ? & ?)]; by simplify_eq.
  - left; congruence.
  - destruct H as [|(? & ? & ? & ?)]; by simplify_eq.
Qed.

Lemma m_bind_assoc {S A B C} (m : M S A) (f : A -> M S B) (g : B -> M S C) s :
  m_bind (m_bind m f) g s = m_bind m (fun a => m_bind (f a) g) s.
Proof. unfold m_bind. by destruct (m s) as [? [?|?]]. Qed.

(** ** Automation

    [simplify_res] injects equations between results, [case_run] splits on the next test of a
    monadic run in a hypothesis. *)

Ltac simplify_res :=
  repeat (match goal with
  | H : Ok _ = Ok _ |- _ => injection H as H
  | H : Throw _ = Throw _ |- _ => injection H as H
  | H : Ok _ = Throw _ |- _ => discriminate H
  | H : Throw _ = Ok _ |- _ => discriminate H
  | H : (_, _) = (_, _) |- _ => injection H as H
  | H : throw_if _ _ _ = Ok _ |- _ =>
      let u := fresh in
      match type of H with throw_if ?c _ _ = Ok ?x => destruct x; apply throw_if_ok in H end
  end; simplify_eq).

(** Case analysis on the next test of a monadic run. *)
Ltac case_run H :=
  match type of H with
  | context [match ?x with _ => _ end] =>
      lazymatch x with
      | context [match _ with _ => _ end] => fail
      | _ => destruct x eqn:?
      end
  end.

Create HintDb laso discriminated.
#[global] Hint Resolve <- throw_if_ok : laso.

Open Scope Z_scope.
