(* ===== verification/Json.v ===== *)
(** * JSON values

    The value type [laso::Json] (an alias of [nlohmann::json] in
    [include/laso/core/types.hpp]) as data: null, booleans, signed and unsigned integers,
    doubles, strings, arrays and objects.  An object is its list of members in key order,
    as the default [std::map]-backed object of the library keeps it.  Printing and parsing
    ([dump], [parse]) belong to the library and are parameters where the code uses them. *)

From S2P Require Import Prelude.
From Corelib Require Import SpecFloat.

#[local] Set Warnings "-register-all".

Definition double : Type := spec_float.

#[global] Instance double_eq_dec : EqDecision double.
Proof. solve_decision. Defined.

(** The double nearest to an integer (53-bit mantissa). *)
Definition double_of_Z (z : Z) : double := binary_normalize 53 1024 z 0 false.

Inductive Json :=
  | JNull
  | JBool (b : bool)
  | JInt (z : Z)
  | JUnsigned (z : Z)
  | JFloat (d : double)
  | JString (s : string)
  | JArray (items : list Json)
  | JObject (fields : list (string * Json)).

(** Induction that reaches inside arrays and objects. *)
Section JsonInd.
Context (P : Json -> Prop).
Context (Hnull : P JNull) (Hbool : forall b, P (JBool b)) (Hint : forall z, P (JInt z))
  (Huns : forall z, P (JUnsigned z)) (Hflt : forall d, P (JFloat d))
  (Hstr : forall s, P (JString s))
  (Harr : forall l, Forall P l -> P (JArray l))
  (Hobj : forall l, Forall (fun kv => P kv.2) l -> P (JObject l)).

Fixpoint json_ind' (j : Json) : P j :=
  match j with
  | JNull => Hnull
  | JBool b => Hbool b
  | JInt z => Hint z
  | JUnsigned z => Huns z
  | JFloat d => Hflt d
  | JString s => Hstr s
  | JArray l =>
      Harr l ((fix go l : Forall P l :=
        match l with
        | [] => List.Forall_nil _
        | x :: l => List.Forall_cons _ _ _ (json_ind' x) (go l)
        end) l)
  | JObject l =>
      Hobj l ((fix go l : Forall (fun kv => P kv.2) l :=
        match l with
        | [] => List.Forall_nil _
        | x :: l => List.Forall_cons _ _ _ (json_ind' x.2) (go l)
        end) l)
  end.
End JsonInd.

(** Equality of values: numbers compare by value across their representations. *)
Definition number_eqb (a b : Json) : option bool :=
  match a, b with
  | (JInt x | JUnsigned x), (JInt y | JUnsigned y) => Some (Z.eqb x y)
  | (JInt x | JUnsigned x), JFloat f => Some (SFeqb (double_of_Z x) f)
  | JFloat f, (JInt x | JUnsigned x) => Some (SFeqb f (double_of_Z x))
  | JFloat f, JFloat g => Some (SFeqb f g)
  | _, _ => None
  end.

Fixpoint json_eqb (a b : Json) {struct a} : bool :=
  match a, b with
  | JNull, JNull => true
  | JBool x, JBool y => Bool.eqb x y
  | JString x, JString y => String.eqb x y
  | JArray l, JArray m =>
      (fix go (l m : list Json) : bool :=
         match l, m with
         | [], [] => true
         | x :: l, y :: m => json_eqb x y && go l m
         | _, _ => false
         end) l m
  | JObject l, JObject m =>
      (fix go (l m : list (string * Json)) : bool :=
         match l, m with
         | [], [] => true
         | (k, x) :: l, (k', y) :: m => String.eqb k k' && json_eqb x y && go l m
         | _, _ => false
         end) l m
  | _, _ => default false (number_eqb a b)
  end.

Definition is_object (j : Json) : bool := match j with JObject _ => true | _ => false end.
Definition is_array (j : Json) : bool := match j with JArray _ => true | _ => false end.
Definition is_null (j : Json) : bool := match j with JNull => true | _ => false end.
Definition is_string (j : Json) : bool := match j with JString _ => true | _ => false end.
Definition is_boolean (j : Json) : bool := match j with JBool _ => true | _ => false end.
Definition is_number (j : Json) : bool :=
  match j with JInt _ | JUnsigned _ | JFloat _ => true | _ => false end.

(** Member access of an object. *)
Fixpoint assoc (k : string) (l : list (string * Json)) : option Json :=
  match l with
  | [] => None
  | (k', v) :: l => if String.eqb k k' then Some v else assoc k l
  end.

Definition member (j : Json) (k : string) : option Json :=
  match j with JObject l => assoc k l | _ => None end.

Definition contains (j : Json) (k : string) : bool :=
  match member j k with Some _ => true | None => false end.

(** [j[k] = v] on a member list kept in key order. *)
Fixpoint assoc_set (k : string) (v : Json) (l : list (string * Json)) : list (string * Json) :=
  match l with
  | [] => [(k, v)]
  | (k', v') :: l =>
      if String.eqb k k' then (k, v) :: l
      else if String.ltb k k' then (k, v) :: (k', v') :: l
      else (k', v') :: assoc_set k v l
  end.

Definition set_member (k : string) (v : Json) (j : Json) : Json :=
  match j with
  | JObject l => JObject (assoc_set k v l)
  | JNull => JObject [(k, v)]
  | _ => j
  end.

(** [j.erase(k)] *)
Definition erase_member (k : string) (j : Json) : Json :=
  match j with JObject l => JObject (filter (fun kv => kv.1 ≠ k) l) | _ => j end.

(** [Json{{k, v}, ...}] *)
Definition mk_object (l : list (string * Json)) : Json :=
  JObject (foldl (fun acc kv => assoc_set kv.1 kv.2 acc) [] l).

(** ** Typed access

    The conversions and the printer of the library are parameters: [None] stands for the
    exception ([Json::exception]) they throw.  [JsonLaws] states what the program relies on: a
    value converts back to the C++ value it was built from, and an [unsigned] is in range. *)
Class JsonLib := {
  get_string : Json -> option string;
  get_unsigned : Json -> option Z;
  get_u64 : Json -> option Z;
  get_bool : Json -> option bool;
  get_double : Json -> option double;
  dump : Json -> option string }.

Class JsonLaws (L : JsonLib) := {
  get_string_of : forall s, get_string (JString s) = Some s;
  get_unsigned_of : forall z, 0 <= z <= u32_max -> get_unsigned (JUnsigned z) = Some z;
  get_unsigned_range : forall j z, get_unsigned j = Some z -> 0 <= z <= u32_max;
  get_u64_of : forall z, 0 <= z <= u64_max -> get_u64 (JUnsigned z) = Some z;
  get_bool_of : forall b, get_bool (JBool b) = Some b;
  get_double_of : forall d, get_double (JFloat d) = Some d }.

(** [j.value(key, fallback)]: the member when it is present, the fallback when it is not; a
    value of the wrong type, or [j] not being an object, is an exception. *)
Definition value_with {A} (get : Json -> option A) (j : Json) (key : string) (fallback : A)
    : option A :=
  match j with
  | JObject _ => match member j key with Some v => get v | None => Some fallback end
  | _ => None
  end.
(** [j.at(key)] followed by a conversion. *)
Definition at_with {A} (get : Json -> option A) (j : Json) (key : string) : option A :=
  member j key ≫= get.

(** A library that converts exactly the representations the program writes. *)
Definition strict_json : JsonLib := {|
  get_string := fun j => match j with JString s => Some s | _ => None end;
  get_unsigned := fun j => match j with
    | JUnsigned z => if (0 <=? z) && (z <=? u32_max) then Some z else None | _ => None end;
  get_u64 := fun j => match j with
    | JUnsigned z => if (0 <=? z) && (z <=? u64_max) then Some z else None | _ => None end;
  get_bool := fun j => match j with JBool b => Some b | _ => None end;
  get_double := fun j => match j with JFloat d => Some d | _ => None end;
  dump := fun _ => Some "" |}.

#[global] Instance strict_json_laws : JsonLaws strict_json.
Proof.
  split; try done.
  - intros z Hz. simpl. by rewrite (proj2 (Z.leb_le 0 z)), (proj2 (Z.leb_le z _)) by lia.
  - intros j z Hz. destruct j; try done. simpl in Hz.
    destruct (Z.leb_spec 0 z0), (Z.leb_spec z0 u32_max); try done. injection Hz as <-. lia.
  - intros z Hz. simpl. by rewrite (proj2 (Z.leb_le 0 z)), (proj2 (Z.leb_le z _)) by lia.
Qed.

(** ** Lemmas *)

Lemma assoc_set_eq k v l : assoc k (assoc_set k v l) = Some v.
Proof.
  induction l as [|[k' v'] l IH]; simpl; [by rewrite String.eqb_refl|].
  destruct (String.eqb_spec k k') as [->|Hne]; simpl; [by rewrite String.eqb_refl|].
  destruct (String.ltb k k'); simpl; [by rewrite String.eqb_refl|].
  by apply String.eqb_neq in Hne as ->.
Qed.

Lemma assoc_set_ne k k' v l : k <> k' -> assoc k' (assoc_set k v l) = assoc k' l.
Proof.
  intros Hne. assert (E : String.eqb k' k = false) by (apply String.eqb_neq; congruence).
  induction l as [|[k2 v2] l IH]; simpl; [by rewrite E|].
  destruct (String.eqb_spec k k2) as [->|]; simpl.
  - by rewrite E.
  - destruct (String.ltb k k2); simpl; [by rewrite E|]. by rewrite IH.
Qed.

Lemma assoc_filter_ne k k' (l : list (string * Json)) :
  k <> k' -> assoc k' (filter (fun kv => kv.1 ≠ k) l) = assoc k' l.
Proof.
  intros Hne. induction l as [|[k2 v2] l IH]; [done|]. rewrite filter_cons. simpl.
  destruct (String.eqb_spec k' k2) as [->|Hk2]; case_decide; simpl in *.
  - by rewrite String.eqb_refl.
  - exfalso. naive_solver.
  - apply String.eqb_neq in Hk2. by rewrite Hk2.
  - done.
Qed.

Lemma assoc_filter_eq k (l : list (string * Json)) :
  assoc k (filter (fun kv => kv.1 ≠ k) l) = None.
Proof.
  induction l as [|[k2 v2] l IH]; [done|]. rewrite filter_cons. simpl.
  case_decide as Hd; simpl in *; [|done].
  destruct (String.eqb_spec k k2) as [->|]; [by destruct Hd|done].
Qed.

Lemma member_set_eq k v l : member (set_member k v (JObject l)) k = Some v.
Proof. apply assoc_set_eq. Qed.
Lemma member_set_ne k k' v j : k <> k' -> is_object j = true ->
  member (set_member k v j) k' = member j k'.
Proof. intros Hne Hj. destruct j; try done. by apply assoc_set_ne. Qed.
Lemma member_erase_eq k j : member (erase_member k j) k = None.
Proof. destruct j; try done. apply assoc_filter_eq. Qed.
Lemma member_erase_ne k k' j : k <> k' -> member (erase_member k j) k' = member j k'.
Proof. intros Hne. destruct j; try done. by apply assoc_filter_ne. Qed.
Lemma is_object_set k v j : is_object j = true -> is_object (set_member k v j) = true.
Proof. by destruct j. Qed.
Lemma is_object_erase k j : is_object (erase_member k j) = is_object j.
Proof. by destruct j. Qed.
