(* ===== verification/Types.v ===== *)
(** * Domain types

    The value types of [include/laso/core/types.hpp]: run, node and node-work states with
    their transition tables, pipeline definitions, messages, runs, attempts, approvals,
    events and agent sessions.  Timestamps and identifiers are strings, as in the code;
    [unsigned] and [std::uint64_t] fields are integers kept in range by the operations. *)

From S2P Require Import Prelude Json.

(** ** State enumerations *)

Inductive RunState :=
  | Queued | Starting | Running | WaitingTool | WaitingModel | WaitingWorker | WaitingApproval
  | Retrying | Paused | Completed | Failed | Cancelled | TimedOut.
#[global] Instance RunState_eq_dec : EqDecision RunState.
Proof. solve_decision. Defined.

Definition rs_eqb (a b : RunState) : bool := bool_decide (a = b).

Definition terminal (state : RunState) : bool :=
  rs_eqb state Completed || rs_eqb state Failed || rs_eqb state Cancelled
  || rs_eqb state TimedOut.

Definition valid_transition (from to : RunState) : bool :=
  if terminal from then false
  else match from with
  | Queued => rs_eqb to Starting || rs_eqb to Cancelled || rs_eqb to Failed
  | Starting =>
      rs_eqb to Running || rs_eqb to Failed || rs_eqb to Cancelled || rs_eqb to TimedOut
  | Running =>
      rs_eqb to Completed || rs_eqb to WaitingModel || rs_eqb to WaitingTool
      || rs_eqb to WaitingWorker || rs_eqb to WaitingApproval || rs_eqb to Retrying
      || rs_eqb to Paused || rs_eqb to Failed || rs_eqb to Cancelled || rs_eqb to TimedOut
  | WaitingApproval | Paused => rs_eqb to Queued || rs_eqb to Failed || rs_eqb to Cancelled
  | WaitingTool | WaitingModel | WaitingWorker | Retrying =>
      rs_eqb to Running || rs_eqb to Failed || rs_eqb to Cancelled || rs_eqb to TimedOut
  | _ => false
  end.

Inductive NodeState :=
  | NRunning | NCompleted | NFailed | NWaitingApproval | NCancelled | NTimedOut.
#[global] Instance NodeState_eq_dec : EqDecision NodeState.
Proof. solve_decision. Defined.

Inductive NodeWorkState := WQueued | WRunning | WCompleted | WFailed | WCancelled.
#[global] Instance NodeWorkState_eq_dec : EqDecision NodeWorkState.
Proof. solve_decision. Defined.

Definition ws_eqb (a b : NodeWorkState) : bool := bool_decide (a = b).

Definition work_terminal (state : NodeWorkState) : bool :=
  ws_eqb state WCompleted || ws_eqb state WFailed || ws_eqb state WCancelled.

Definition valid_node_work_transition (from to : NodeWorkState) : bool :=
  if ws_eqb from to then true
  else if ws_eqb from WQueued && ws_eqb to WRunning then true
  else if ws_eqb from WQueued && ws_eqb to WCancelled then true
  else if ws_eqb from WRunning && ws_eqb to WQueued then true
  else if ws_eqb from WRunning
          && (ws_eqb to WCompleted || ws_eqb to WFailed || ws_eqb to WCancelled) then true
  else false.

(** ** Records *)

(** [struct ProvenanceRecord] *)
Record ProvenanceRecord := mkProvenance {
  p_node : string;
  p_tool : string;
  p_model : string;
  p_provider : string;
  p_artifact : string;
  p_parent_message : string;
  p_validation : string;
  p_time : string;
  p_worker : string }.
#[global] Instance eta_ProvenanceRecord : Eta ProvenanceRecord := fun r => mkProvenance
    (p_node r) (p_tool r) (p_model r) (p_provider r) (p_artifact r)
    (p_parent_message r) (p_validation r) (p_time r) (p_worker r).

(** [struct Message] *)
Record Message := mkMessage {
  m_id : string;
  m_run_id : string;
  m_pipeline_id : string;
  m_node_id : string;
  m_type : string;
  m_time : string;
  payload : Json;
  metadata : Json;
  provenance : list ProvenanceRecord;
  confidence : option double }.
#[global] Instance eta_Message : Eta Message := fun r => mkMessage
    (m_id r) (m_run_id r) (m_pipeline_id r) (m_node_id r) (m_type r)
    (m_time r) (payload r) (metadata r) (provenance r) (confidence r).

(** [struct RetryPolicy]; the delay is in milliseconds *)
Record RetryPolicy := mkRetry {
  max_attempts : Z;
  retry_delay : Z }.
#[global] Instance eta_RetryPolicy : Eta RetryPolicy := fun r => mkRetry
    (max_attempts r) (retry_delay r).

(** [struct NodeDefinition] *)
Record NodeDefinition := mkNode {
  n_id : string;
  n_type : string;
  binding : string;
  prompt : string;
  field : string;
  n_condition : string;
  reason : string;
  n_join : string;
  n_input_schema : string;
  n_output_schema : string;
  schema : string;
  task_type : string;
  capability : string;
  instructions : string;
  required_tool : string;
  n_value : Json;
  retry : RetryPolicy;
  n_timeout : Z;
  n_max_iterations : Z }.
#[global] Instance eta_NodeDefinition : Eta NodeDefinition := fun r => mkNode
    (n_id r) (n_type r) (binding r) (prompt r) (field r) (n_condition r)
    (reason r) (n_join r) (n_input_schema r) (n_output_schema r) (schema r)
    (task_type r) (capability r) (instructions r) (required_tool r)
    (n_value r) (retry r) (n_timeout r) (n_max_iterations r).

(** [struct EdgeDefinition] *)
Record EdgeDefinition := mkEdge {
  e_from : string;
  e_to : string;
  e_condition : string;
  e_max_iterations : Z }.
#[global] Instance eta_EdgeDefinition : Eta EdgeDefinition := fun r => mkEdge
    (e_from r) (e_to r) (e_condition r) (e_max_iterations r).

(** [struct PipelineDefinition] *)
Record PipelineDefinition := mkPipeline {
  pl_name : string;
  pl_source : string;
  pl_input_schema : string;
  pl_output_schema : string;
  pl_resolved_subpipelines : gmap string string;
  schema_version : Z;
  pl_version : Z;
  max_steps : Z;
  pl_timeout : Z;
  nodes : gmap string NodeDefinition;
  edges : list EdgeDefinition }.
#[global] Instance eta_PipelineDefinition : Eta PipelineDefinition := fun r => mkPipeline
    (pl_name r) (pl_source r) (pl_input_schema r) (pl_output_schema r)
    (pl_resolved_subpipelines r) (schema_version r) (pl_version r)
    (max_steps r) (pl_timeout r) (nodes r) (edges r).

(** [struct BranchFrame] *)
Record BranchFrame := mkFrame {
  group : string;
  f_join : string;
  width : Z;
  f_index : Z }.
#[global] Instance eta_BranchFrame : Eta BranchFrame := fun r => mkFrame
    (group r) (f_join r) (width r) (f_index r).

(** [struct ExecutionToken] *)
Record ExecutionToken := mkToken {
  t_node_id : string;
  t_message : Message;
  t_frames : list BranchFrame }.
#[global] Instance eta_ExecutionToken : Eta ExecutionToken := fun r => mkToken
    (t_node_id r) (t_message r) (t_frames r).

(** [struct Run]; the value of [joins] is the message map of [struct JoinCheckpoint] *)
Record Run := mkRun {
  id : string;
  pipeline_id : string;
  definition : string;
  active_node : string;
  created_at : string;
  updated_at : string;
  actor : string;
  error : string;
  parent_id : string;
  parent_node_id : string;
  parent_message_id : string;
  child_id : string;
  child_pipeline_id : string;
  initiation_type : string;
  session_id : string;
  session_turn_id : string;
  schedule_id : string;
  schedule_occurrence_id : string;
  due_at : string;
  trigger_id : string;
  event_id : string;
  root_event_id : string;
  owner_instance_id : string;
  lease_expires_at : string;
  claimed_at : string;
  last_renewed_at : string;
  pending_parallel_group : string;
  pending_parallel_join : string;
  pipeline_version : Z;
  child_pipeline_version : Z;
  subpipeline_depth : Z;
  trigger_depth : Z;
  fencing_token : Z;
  state : RunState;
  cancellation_requested : bool;
  message : Message;
  edge_visits : gmap string Z;
  node_visits : gmap string Z;
  frames : list BranchFrame;
  ready : list ExecutionToken;
  joins : gmap string (gmap Z Message);
  child_runs : list string;
  resolved_subpipelines : gmap string string;
  prepared_join : string;
  provider : string;
  model : string;
  tool : string;
  plugin : string;
  worker : string;
  worker_job_id : string;
  steps : Z }.
#[global] Instance eta_Run : Eta Run := fun r => mkRun
    (id r) (pipeline_id r) (definition r) (active_node r) (created_at r)
    (updated_at r) (actor r) (error r) (parent_id r) (parent_node_id r)
    (parent_message_id r) (child_id r) (child_pipeline_id r)
    (initiation_type r) (session_id r) (session_turn_id r) (schedule_id r)
    (schedule_occurrence_id r) (due_at r) (trigger_id r) (event_id r)
    (root_event_id r) (owner_instance_id r) (lease_expires_at r)
    (claimed_at r) (last_renewed_at r) (pending_parallel_group r)
    (pending_parallel_join r) (pipeline_version r) (child_pipeline_version r)
    (subpipeline_depth r) (trigger_depth r) (fencing_token r) (state r)
    (cancellation_requested r) (message r) (edge_visits r) (node_visits r)
    (frames r) (ready r) (joins r) (child_runs r) (resolved_subpipelines r)
    (prepared_join r) (provider r) (model r) (tool r) (plugin r) (worker r)
    (worker_job_id r) (steps r).

(** [struct NodeExecution] *)
Record NodeExecution := mkAttempt {
  a_id : string;
  a_run_id : string;
  a_node_id : string;
  a_started_at : string;
  a_finished_at : string;
  a_error : string;
  a_child_run_id : string;
  a_child_pipeline_id : string;
  a_worker_job_id : string;
  a_worker_id : string;
  a_external_job_id : string;
  a_child_pipeline_version : Z;
  attempt : Z;
  a_state : NodeState;
  duration_ms : double }.
#[global] Instance eta_NodeExecution : Eta NodeExecution := fun r => mkAttempt
    (a_id r) (a_run_id r) (a_node_id r) (a_started_at r) (a_finished_at r)
    (a_error r) (a_child_run_id r) (a_child_pipeline_id r) (a_worker_job_id r)
    (a_worker_id r) (a_external_job_id r) (a_child_pipeline_version r)
    (attempt r) (a_state r) (duration_ms r).

(** [struct NodeWork] *)
Record NodeWork := mkWork {
  w_id : string;
  w_run_id : string;
  group_id : string;
  w_node_id : string;
  w_join : string;
  w_created_at : string;
  w_updated_at : string;
  w_owner_instance_id : string;
  w_lease_expires_at : string;
  w_claimed_at : string;
  w_last_renewed_at : string;
  attempt_id : string;
  w_error : string;
  required_worker_id : string;
  required_capability : string;
  w_index : Z;
  w_attempt : Z;
  w_steps : Z;
  w_fencing_token : Z;
  w_state : NodeWorkState;
  token : ExecutionToken;
  result : option Message }.
#[global] Instance eta_NodeWork : Eta NodeWork := fun r => mkWork
    (w_id r) (w_run_id r) (group_id r) (w_node_id r) (w_join r)
    (w_created_at r) (w_updated_at r) (w_owner_instance_id r)
    (w_lease_expires_at r) (w_claimed_at r) (w_last_renewed_at r)
    (attempt_id r) (w_error r) (required_worker_id r) (required_capability r)
    (w_index r) (w_attempt r) (w_steps r) (w_fencing_token r) (w_state r)
    (token r) (result r).

(** [struct Approval] *)
Record Approval := mkApproval {
  ap_id : string;
  ap_run_id : string;
  ap_node_id : string;
  ap_reason : string;
  ap_action : string;
  ap_created_at : string;
  decision : string;
  decided_at : string;
  ap_actor : string;
  ap_comment : string;
  visit : Z }.
#[global] Instance eta_Approval : Eta Approval := fun r => mkApproval
    (ap_id r) (ap_run_id r) (ap_node_id r) (ap_reason r) (ap_action r)
    (ap_created_at r) (decision r) (decided_at r) (ap_actor r) (ap_comment r)
    (visit r).

(** [struct Event] *)
Record Event := mkEvent {
  ev_id : string;
  ev_run_id : string;
  ev_pipeline_id : string;
  ev_node_id : string;
  ev_type : string;
  ev_time : string;
  causation_id : string;
  ev_root_event_id : string;
  ev_trigger_depth : Z;
  source_id : string;
  source_plugin : string;
  source_component : string;
  external_event_id : string;
  occurred_at : string;
  ingested_at : string;
  ev_payload : Json;
  ev_metadata : Json }.
#[global] Instance eta_Event : Eta Event := fun r => mkEvent
    (ev_id r) (ev_run_id r) (ev_pipeline_id r) (ev_node_id r) (ev_type r)
    (ev_time r) (causation_id r) (ev_root_event_id r) (ev_trigger_depth r)
    (source_id r) (source_plugin r) (source_component r) (external_event_id r)
    (occurred_at r) (ingested_at r) (ev_payload r) (ev_metadata r).

(** [struct AgentSession] *)
Record AgentSession := mkSession {
  s_id : string;
  s_pipeline_id : string;
  s_state : string;
  s_created_at : string;
  s_updated_at : string;
  active_turn_id : string;
  active_run_id : string;
  dispatch_generation : Z;
  next_sequence : Z }.
#[global] Instance eta_AgentSession : Eta AgentSession := fun r => mkSession
    (s_id r) (s_pipeline_id r) (s_state r) (s_created_at r) (s_updated_at r)
    (active_turn_id r) (active_run_id r) (dispatch_generation r)
    (next_sequence r).

(** [struct SessionContextGeneration] *)
Record SessionContextGeneration := mkGeneration {
  g_id : string;
  g_session_id : string;
  predecessor_id : string;
  g_created_at : string;
  generation : Z;
  through_turn_sequence : Z;
  representation_kind : string;
  representation_version : string;
  idempotency_key : string;
  g_payload : Json }.
#[global] Instance eta_SessionContextGeneration : Eta SessionContextGeneration := fun r => mkGeneration
    (g_id r) (g_session_id r) (predecessor_id r) (g_created_at r)
    (generation r) (through_turn_sequence r) (representation_kind r)
    (representation_version r) (idempotency_key r) (g_payload r).

(** [struct SessionContext] *)
Record SessionContext := mkSessionContext {
  sx_generation_id : string; sx_representation_kind : string; sx_representation_version : string;
  sx_generation : Z; sx_through_turn_sequence : Z; sx_payload : Json; sx_recent_turns : Json }.

(** [struct RunContextSnapshot] *)
Record RunContextSnapshot := mkSnapshot {
  sn_run_id : string;
  sn_session_id : string;
  sn_session_turn_id : string;
  sn_created_at : string;
  context_generation_id : string;
  context_generation_predecessor_id : string;
  turn_sequence : Z;
  history_through_turn_sequence : Z;
  context_generation : Z;
  context_through_turn_sequence : Z;
  sn_representation_kind : string;
  sn_representation_version : string;
  provider_continuations : Json }.
#[global] Instance eta_RunContextSnapshot : Eta RunContextSnapshot := fun r => mkSnapshot
    (sn_run_id r) (sn_session_id r) (sn_session_turn_id r) (sn_created_at r)
    (context_generation_id r) (context_generation_predecessor_id r)
    (turn_sequence r) (history_through_turn_sequence r) (context_generation r)
    (context_through_turn_sequence r) (sn_representation_kind r)
    (sn_representation_version r) (provider_continuations r).

(** ** Default construction

    [Message{}], [Run{}], [Event{}] and the like: [fresh] is the identifier [uuid()] returns and [now] the string
    [timestamp()] returns while the object is constructed. *)

Definition new_message (fresh now : string) : Message := {|
  m_id := fresh; m_run_id := ""; m_pipeline_id := ""; m_node_id := ""; m_type := "laso.data";
  m_time := now; payload := JObject []; metadata := JObject []; provenance := [];
  confidence := None |}.

Definition new_run (fresh now : string) (m : Message) : Run := {|
  id := fresh; pipeline_id := ""; definition := ""; active_node := "input"; created_at := now;
  updated_at := now; actor := "local"; error := ""; parent_id := ""; parent_node_id := "";
  parent_message_id := ""; child_id := ""; child_pipeline_id := ""; initiation_type := "manual";
  session_id := ""; session_turn_id := ""; schedule_id := ""; schedule_occurrence_id := "";
  due_at := ""; trigger_id := ""; event_id := ""; root_event_id := ""; owner_instance_id := "";
  lease_expires_at := ""; claimed_at := ""; last_renewed_at := ""; pending_parallel_group := "";
  pending_parallel_join := ""; pipeline_version := 1; child_pipeline_version := 0;
  subpipeline_depth := 0; trigger_depth := 0; fencing_token := 0; state := Queued;
  cancellation_requested := false; message := m; edge_visits := ∅; node_visits := ∅;
  frames := []; ready := []; joins := ∅; child_runs := []; resolved_subpipelines := ∅;
  prepared_join := ""; provider := ""; model := ""; tool := ""; plugin := ""; worker := "";
  worker_job_id := ""; steps := 0 |}.

Definition new_attempt (fresh now : string) : NodeExecution := {|
  a_id := fresh; a_run_id := ""; a_node_id := ""; a_started_at := now; a_finished_at := "";
  a_error := ""; a_child_run_id := ""; a_child_pipeline_id := ""; a_worker_job_id := "";
  a_worker_id := ""; a_external_job_id := ""; a_child_pipeline_version := 0; attempt := 1;
  a_state := NRunning; duration_ms := double_of_Z 0 |}.

Definition new_work (fresh now : string) (t : ExecutionToken) : NodeWork := {|
  w_id := fresh; w_run_id := ""; group_id := ""; w_node_id := ""; w_join := ""; w_created_at := now;
  w_updated_at := now; w_owner_instance_id := ""; w_lease_expires_at := ""; w_claimed_at := "";
  w_last_renewed_at := ""; attempt_id := ""; w_error := ""; required_worker_id := "";
  required_capability := ""; w_index := 0; w_attempt := 0; w_steps := 0; w_fencing_token := 0;
  w_state := WQueued; token := t; result := None |}.

Definition new_approval (fresh now : string) : Approval := {|
  ap_id := fresh; ap_run_id := ""; ap_node_id := ""; ap_reason := ""; ap_action := "";
  ap_created_at := now; decision := "pending"; decided_at := ""; ap_actor := ""; ap_comment := "";
  visit := 0 |}.

Definition new_event (fresh now : string) : Event := {|
  ev_id := fresh; ev_run_id := ""; ev_pipeline_id := ""; ev_node_id := ""; ev_type := "";
  ev_time := now; causation_id := ""; ev_root_event_id := ""; ev_trigger_depth := 0;
  source_id := ""; source_plugin := ""; source_component := ""; external_event_id := "";
  occurred_at := ""; ingested_at := ""; ev_payload := JObject []; ev_metadata := JObject [] |}.
