(* ===== verification/Samples.v ===== *)
(** * Concrete definitions

    Small pipelines, messages and runs at which the theorems of the components are
    instantiated: [sample_loop] has an unbounded cycle, [sample_retry] sends rejected output
    back along an edge with an iteration budget, [sample_fan] runs two branches in parallel. *)

From S2P Require Import Prelude Json Types.

Definition sample_node (id ty bind fld jn : string) : string * NodeDefinition :=
  (id, mkNode id ty bind "" fld "" "" jn "" "" "" "" "" "" "" JNull (mkRetry 1 0) 30000 0).

Definition sample_pipeline (name : string) (ns : list (string * NodeDefinition))
    (es : list EdgeDefinition) : PipelineDefinition :=
  mkPipeline name "" "" "" ∅ 1 1 1000 300000
    (list_to_map (sample_node "input" "input" "" "" "" :: sample_node "output" "output" "" "" ""
                  :: ns)) es.

Definition sample_loop : PipelineDefinition :=
  sample_pipeline "loop" [sample_node "a" "function" "f" "" ""]
    [mkEdge "input" "a" "" 0; mkEdge "a" "a" "" 0].

Definition sample_retry : PipelineDefinition :=
  sample_pipeline "retry"
    [sample_node "work" "function" "f" "" ""; sample_node "check" "validator" "" "ok" ""]
    [mkEdge "input" "work" "" 0; mkEdge "work" "check" "" 0;
     mkEdge "check" "output" "accepted" 0; mkEdge "check" "work" "rejected" 2].

Definition sample_fan : PipelineDefinition :=
  sample_pipeline "fan"
    [sample_node "split" "parallel" "" "" "meet"; sample_node "a" "function" "f" "" "";
     sample_node "b" "function" "g" "" ""; sample_node "meet" "join" "" "" ""]
    [mkEdge "input" "split" "" 0; mkEdge "split" "a" "" 0; mkEdge "split" "b" "" 0;
     mkEdge "a" "meet" "" 0; mkEdge "b" "meet" "" 0; mkEdge "meet" "output" "" 0].

Definition sample_message (id : string) (v : Json) : Message :=
  (new_message id "2026-01-01T00:00:00Z") <| payload := v |>.

Definition sample_run (id : string) : Run :=
  (new_run id "2026-01-01T00:00:00Z" (sample_message "m0" JNull)).
