(* ===== verification/Text.v ===== *)
(** * Text utilities

    The string routines the parsers use: character classes, decimal conversion as
    [std::to_string], [std::stoul] and [std::stoll] perform it, and the [split] helper of
    [src/scheduler/scheduler.cpp].  Strings are handled as their list of characters. *)

From S2P Require Import Prelude.
From Stdlib Require Import Ascii.

Definition chars : Type := list ascii.
Definition chars_of (s : string) : chars := String.list_ascii_of_string s.
Definition of_chars (l : chars) : string := String.string_of_list_ascii l.

(** ** Character classes (the "C" locale) *)

Definition code_of (c : ascii) : Z := Z.of_N (N_of_ascii c).
Definition in_range (lo hi : Z) (c : ascii) : bool := (lo <=? code_of c) && (code_of c <=? hi).
Definition is_digit (c : ascii) : bool := in_range 48 57 c.
Definition is_upper (c : ascii) : bool := in_range 65 90 c.
Definition is_lower (c : ascii) : bool := in_range 97 122 c.
Definition is_alpha (c : ascii) : bool := is_upper c || is_lower c.
Definition is_alnum (c : ascii) : bool := is_alpha c || is_digit c.
Definition is_space (c : ascii) : bool := (code_of c =? 32) || in_range 9 13 c.
Definition is_xdigit (c : ascii) : bool :=
  is_digit c || in_range 65 70 c || in_range 97 102 c.
Definition one_of (l : list ascii) (c : ascii) : bool := existsb (Ascii.eqb c) l.

(** ** Hexadecimal digits and the FNV-1a hash *)

Definition hex_char (z : Z) : ascii :=
  default "0"%char ((chars_of "0123456789abcdef") !! Z.to_nat z).
(** [std::hex] of an unsigned value: a 64-bit one has at most sixteen digits. *)
Fixpoint hex_digits (fuel : nat) (z : Z) (acc : chars) : chars :=
  match fuel with
  | O => acc
  | S fuel =>
      let acc := hex_char (z mod 16) :: acc in
      if z / 16 =? 0 then acc else hex_digits fuel (z / 16) acc
  end.
Definition fnv_step (hash : Z) (byte : ascii) : Z :=
  u64 (Z.lxor hash (Z.of_N (N_of_ascii byte)) * 1099511628211).
Definition fnv_hash (text : string) : Z := foldl fnv_step 1469598103934665603 (chars_of text).

(** ** Decimal conversion *)

Definition digit_char (d : Z) : ascii := ascii_of_N (Z.to_N (48 + d)).
Definition digit_val (c : ascii) : Z := code_of c - 48.

(** Value of a run of digits, most significant first. *)
Definition digits_val (l : chars) : Z := foldl (fun acc c => 10 * acc + digit_val c) 0 l.

(** [std::to_string] of a non-negative number below [10 ^ fuel]. *)
Fixpoint to_dec_aux (fuel : nat) (n : Z) (acc : chars) : chars :=
  match fuel with
  | O => acc
  | S fuel =>
      if n <? 10 then digit_char n :: acc
      else to_dec_aux fuel (n / 10) (digit_char (n mod 10) :: acc)
  end.
Definition to_dec (n : Z) : chars := to_dec_aux 20 n [].
Definition to_string (n : Z) : string := of_chars (to_dec n).

(** Longest prefix of characters satisfying [p], and the rest. *)
Fixpoint span (p : ascii -> bool) (l : chars) : chars * chars :=
  match l with
  | [] => ([], [])
  | c :: l' => if p c then let '(a, b) := span p l' in (c :: a, b) else ([], l)
  end.

(** The scanning part of [strtoul]/[strtoll]: white space, an optional sign, digits.  The
    result is the sign, the digits and the number of characters consumed. *)
Definition scan_int (l : chars) : option (bool * chars * nat) :=
  let '(ws, l1) := span is_space l in
  let '(neg, sgn, l2) :=
    match l1 with
    | c :: l' => if Ascii.eqb c "-"%char then (true, 1%nat, l')
                 else if Ascii.eqb c "+"%char then (false, 1%nat, l') else (false, 0%nat, l1)
    | [] => (false, 0%nat, l1)
    end in
  let '(ds, _) := span is_digit l2 in
  match ds with
  | [] => None
  | _ => Some (neg, ds, length ws + sgn + length ds)%nat
  end.

(** [std::stoul(text, &end)]: [None] is [std::invalid_argument] or [std::out_of_range]; a
    minus sign negates modulo 2^64, as [strtoul] does. *)
Definition stoul (l : chars) : option (Z * nat) :=
  '(neg, ds, stop) ← scan_int l;
  let v := digits_val ds in
  if u64_max <? v then None else Some (if (neg : bool) then u64 (- v) else v, stop).

(** [std::stoll(text, &end)] *)
Definition stoll (l : chars) : option (Z * nat) :=
  '(neg, ds, stop) ← scan_int l;
  let v := if (neg : bool) then - digits_val ds else digits_val ds in
  if (v <? - i64_max - 1) || (i64_max <? v) then None else Some (v, stop).

(** ** Splitting at a delimiter

    [std::vector<std::string> split(const std::string &value, char delimiter)] *)
Fixpoint split_chars (d : ascii) (l : chars) : list chars :=
  match l with
  | [] => [[]]
  | c :: l =>
      if Ascii.eqb c d then [] :: split_chars d l
      else match split_chars d l with
           | piece :: rest => (c :: piece) :: rest
           | [] => [[c]]
           end
  end.
Definition split (value : string) (delimiter : ascii) : list string :=
  map of_chars (split_chars delimiter (chars_of value)).

(** ** Lemmas *)

Lemma chars_of_of_chars l : chars_of (of_chars l) = l.
Proof. apply String.list_ascii_of_string_of_list_ascii. Qed.
Lemma of_chars_chars_of s : of_chars (chars_of s) = s.
Proof. apply String.string_of_list_ascii_of_string. Qed.
Lemma length_chars_of s : length (chars_of s) = String.length s.
Proof. unfold chars_of. induction s as [|c s IH]; simpl; [done|]. f_equal. exact IH. Qed.
Lemma chars_of_app s t : chars_of (String.append s t) = chars_of s ++ chars_of t.
Proof. unfold chars_of. induction s as [|c s IH]; [done|]. cbn. by rewrite <- IH. Qed.
Lemma chars_of_inj s t : chars_of s = chars_of t -> s = t.
Proof. intros H. by rewrite <- (of_chars_chars_of s), H, of_chars_chars_of. Qed.

Lemma code_of_digit_char d : 0 <= d <= 9 -> code_of (digit_char d) = 48 + d.
Proof.
  intros H. unfold code_of, digit_char. rewrite N_ascii_embedding by lia. lia.
Qed.
Lemma digit_val_digit_char d : 0 <= d <= 9 -> digit_val (digit_char d) = d.
Proof. intros H. unfold digit_val. rewrite code_of_digit_char by done. lia. Qed.
Lemma is_digit_digit_char d : 0 <= d <= 9 -> is_digit (digit_char d) = true.
Proof. intros H. unfold is_digit, in_range. rewrite code_of_digit_char by done. lia. Qed.

Lemma code_of_range c : 0 <= code_of c <= 255.
Proof.
  unfold code_of. pose proof (N_ascii_bounded c). lia.
Qed.

Lemma digits_val_app l m :
  digits_val (l ++ m) = digits_val l * 10 ^ Z.of_nat (length m) + digits_val m.
Proof.
  unfold digits_val. rewrite foldl_app.
  generalize (foldl (fun acc c => 10 * acc + digit_val c) 0 l) as a. intros a.
  assert (H : forall a b, foldl (fun acc c => 10 * acc + digit_val c) (a + b) m
    = a * 10 ^ Z.of_nat (length m) + foldl (fun acc c => 10 * acc + digit_val c) b m).
  { clear a l. induction m as [|c m IH]; intros a b; cbn [foldl length]; [lia|].
    replace (10 * (a + b) + digit_val c) with (10 * a + (10 * b + digit_val c)) by lia.
    rewrite IH, Nat2Z.inj_succ, Z.pow_succ_r by lia. lia. }
  rewrite <- (Z.add_0_r a) at 1. by rewrite H.
Qed.

Lemma to_dec_aux_app fuel : forall n acc, to_dec_aux fuel n acc = to_dec_aux fuel n [] ++ acc.
Proof.
  induction fuel as [|fuel IH]; intros n acc; simpl; [done|].
  destruct (n <? 10); [done|]. rewrite IH, (IH (n / 10) [_]), <- app_assoc. done.
Qed.

Lemma to_dec_aux_val fuel : forall n,
  0 <= n < 10 ^ Z.of_nat fuel -> digits_val (to_dec_aux fuel n []) = n.
Proof.
  induction fuel as [|fuel IH]; intros n Hn; simpl; [simpl in Hn; change (digits_val []) with 0; lia|].
  destruct (Z.ltb_spec n 10).
  - unfold digits_val. simpl. rewrite digit_val_digit_char by lia. lia.
  - rewrite Nat2Z.inj_succ, Z.pow_succ_r in Hn by lia.
    rewrite to_dec_aux_app, digits_val_app, IH.
    + unfold digits_val. simpl. rewrite digit_val_digit_char by (pose proof (Z.mod_pos_bound n 10); lia).
      pose proof (Z.div_mod n 10). lia.
    + split; [apply Z.div_pos; lia | apply Z.div_lt_upper_bound; lia].
Qed.

Lemma to_dec_aux_digits fuel : forall n,
  0 <= n -> Forall (fun c => is_digit c = true) (to_dec_aux fuel n []).
Proof.
  induction fuel as [|fuel IH]; intros n Hn; simpl; [constructor|].
  destruct (Z.ltb_spec n 10).
  - constructor; [|constructor]. apply is_digit_digit_char. lia.
  - rewrite to_dec_aux_app. apply Forall_app. split.
    + apply IH, Z.div_pos; lia.
    + constructor; [|constructor]. apply is_digit_digit_char.
      pose proof (Z.mod_pos_bound n 10). lia.
Qed.

Lemma to_dec_val n : 0 <= n <= u64_max -> digits_val (to_dec n) = n.
Proof. intros H. apply to_dec_aux_val. unfold u64_max in H. simpl. lia. Qed.
Lemma to_dec_digits n : 0 <= n -> Forall (fun c => is_digit c = true) (to_dec n).
Proof. apply to_dec_aux_digits. Qed.
(** What precedes the first colon after digits. *)
Lemma digits_then_colon a b x y : Forall (fun c => is_digit c = true) a -> Forall (fun c => is_digit c = true) b ->
  a ++ ":"%char :: x = b ++ ":"%char :: y -> a = b /\ x = y.
Proof.
  intros Ha. revert b. induction Ha as [|c a Hc Ha IH]; intros b Hb He; destruct Hb as [|d b Hd Hb]; simpl in He.
  - by injection He as ->.
  - injection He as <- _. discriminate Hd.
  - injection He as -> _. discriminate Hc.
  - injection He as -> He. by destruct (IH b Hb He) as [-> ->].
Qed.
Lemma to_dec_aux_nonempty fuel n : to_dec_aux (S fuel) n [] <> [].
Proof.
  simpl. destruct (n <? 10); [done|]. rewrite to_dec_aux_app. by intros [? ?]%app_eq_nil.
Qed.
Lemma to_dec_nonempty n : to_dec n <> [].
Proof. apply to_dec_aux_nonempty. Qed.

Lemma span_all p l : Forall (fun c => p c = true) l -> span p l = (l, []).
Proof. induction 1 as [|c l Hc Hl IH]; simpl; [done|]. by rewrite Hc, IH. Qed.

Lemma is_digit_not_space c : is_digit c = true -> is_space c = false.
Proof. unfold is_digit, is_space, in_range. lia. Qed.

Lemma is_digit_not_char c d : is_digit c = true -> is_digit d = false -> Ascii.eqb c d = false.
Proof. intros Hc Hd. apply Ascii.eqb_neq. intros ->. congruence. Qed.

Lemma scan_int_digits l :
  l <> [] -> Forall (fun c => is_digit c = true) l -> scan_int l = Some (false, l, length l).
Proof.
  intros Hne Hl. unfold scan_int. destruct l as [|c l]; [done|]. inversion Hl as [|? ? Hc Hl']; subst.
  simpl. rewrite (is_digit_not_space _ Hc).
  rewrite (is_digit_not_char c "-"%char), (is_digit_not_char c "+"%char) by done.
  change (span is_digit (c :: l)) with (if is_digit c then let '(a, b) := span is_digit l in (c :: a, b) else ([], c :: l)).
  rewrite Hc, (span_all _ l) by done. done.
Qed.

Lemma stoul_to_dec n : 0 <= n <= u64_max -> stoul (to_dec n) = Some (n, length (to_dec n)).
Proof.
  intros Hn. unfold stoul. rewrite scan_int_digits by (apply to_dec_nonempty || apply to_dec_digits; lia).
  simpl. rewrite to_dec_val by done. destruct (Z.ltb_spec u64_max n); [lia|done].
Qed.

Lemma split_chars_cons d l : exists piece rest, split_chars d l = piece :: rest.
Proof.
  induction l as [|c l (p & r & IH)]; simpl; [eauto|]. rewrite IH.
  destruct (Ascii.eqb c d); eauto.
Qed.

(** No piece contains the delimiter, and joining the pieces gives the text back. *)
Fixpoint join_chars (d : ascii) (l : list chars) : chars :=
  match l with
  | [] => []
  | [piece] => piece
  | piece :: rest => piece ++ d :: join_chars d rest
  end.

Lemma split_chars_join d l : join_chars d (split_chars d l) = l.
Proof.
  induction l as [|c l IH]; simpl; [done|].
  destruct (split_chars_cons d l) as (p & r & E). rewrite E in *.
  destruct (Ascii.eqb_spec c d) as [->|]; simpl.
  - f_equal. exact IH.
  - destruct r; simpl in *; f_equal; exact IH.
Qed.

Lemma split_chars_no_delim d l : Forall (fun piece => d ∉ piece) (split_chars d l).
Proof.
  induction l as [|c l IH]; simpl; [constructor; [set_solver|constructor]|].
  destruct (split_chars_cons d l) as (p & r & E). rewrite E in *. inversion IH; subst.
  destruct (Ascii.eqb_spec c d) as [->|]; constructor; [set_solver|by constructor| |done].
  intros [->|?]%elem_of_cons; done.
Qed.

Lemma digit_val_nonneg c : is_digit c = true -> 0 <= digit_val c.
Proof. unfold is_digit, in_range, digit_val. lia. Qed.

Lemma digits_val_nonneg l : Forall (fun c => is_digit c = true) l -> 0 <= digits_val l.
Proof.
  unfold digits_val. intros H. assert (Hg : forall a, 0 <= a ->
    0 <= foldl (fun acc c => 10 * acc + digit_val c) a l); [|by apply Hg].
  induction H as [|c l Hc Hl IH]; intros a Ha; cbn [foldl]; [done|].
  apply IH. apply digit_val_nonneg in Hc. lia.
Qed.

Lemma span_prefix p l a b : span p l = (a, b) -> Forall (fun c => p c = true) a /\ l = a ++ b.
Proof.
  revert a b. induction l as [|c l IH]; intros a b H; simpl in H.
  - simplify_eq. split; [constructor|done].
  - destruct (p c) eqn:Hc; [|simplify_eq; split; [constructor|done]].
    destruct (span p l) as [a' b'] eqn:E. simplify_eq.
    destruct (IH a' b eq_refl) as [? ->]. split; [by constructor|done].
Qed.

Lemma scan_int_all_digits l neg ds stop :
  scan_int l = Some (neg, ds, stop) -> Forall (fun c => is_digit c = true) ds.
Proof.
  unfold scan_int. destruct (span is_space l) as [ws l1].
  destruct (match l1 with [] => _ | _ :: _ => _ end) as [[ng sg] l2].
  destruct (span is_digit l2) as [d rest] eqn:E. apply span_prefix in E as [Hd _].
  destruct d; [done|]. by intros [= _ <- _].
Qed.

Lemma hex_char_alnum z : 0 <= z < 16 -> is_alnum (hex_char z) = true.
Proof.
  intros Hz. assert (Hin : In z (map Z.of_nat (seq 0 16))).
  { apply in_map_iff. exists (Z.to_nat z). split; [lia|]. apply in_seq. lia. }
  assert (Hall : forallb (fun z => is_alnum (hex_char z)) (map Z.of_nat (seq 0 16)) = true) by done.
  rewrite forallb_forall in Hall. by apply Hall.
Qed.
Lemma hex_digits_alnum fuel : forall z acc, forallb is_alnum acc = true -> forallb is_alnum (hex_digits fuel z acc) = true.
Proof.
  induction fuel as [|fuel IH]; intros z acc Hacc; simpl; [done|].
  assert (Hcons : forallb is_alnum (hex_char (z mod 16) :: acc) = true).
  { simpl. rewrite Hacc, hex_char_alnum; [done|]. by apply Z.mod_pos_bound. }
  case_match; [done|by apply IH].
Qed.
Lemma hex_digits_length fuel : forall z acc, (length (hex_digits fuel z acc) <= fuel + length acc)%nat.
Proof.
  induction fuel as [|fuel IH]; intros z acc; simpl; [lia|]. case_match; simpl; [lia|].
  specialize (IH (z / 16) (hex_char (z mod 16) :: acc)). simpl in IH. lia.
Qed.
