(* ===== verification/Pipeline.v ===== *)
(** * Pipeline definitions

    [src/pipeline/parser.cpp]: identifiers and pipeline references, and the validation a
    definition passes before it is registered or run.  The graph checks are the recursive
    searches [visit] and [reach] of [validate_pipeline]; both take fuel for the recursion
    depth, and [visit_total] and [reach_total] show that one more than the number of nodes is
    enough. *)

From S2P Require Import Prelude Json Types Samples Text.
From Stdlib Require Import Ascii.
From Stdlib Require Import Relations.

Definition max_document_bytes : Z := 1024 * 1024.

(** ** Identifiers and references *)

(** [std::regex_match(s, "[A-Za-z0-9][A-Za-z0-9_.-]{0,127}")] *)
Definition ident_char (c : ascii) : bool :=
  is_alnum c || one_of ["_"; "."; "-"]%char c.
Definition identifier (s : string) : bool :=
  match chars_of s with
  | [] => false
  | c :: l => is_alnum c && forallb ident_char l && (Z.of_nat (length l) <=? 127)
  end.

Record PipelineReference := mkRef { r_name : string; r_version : Z; explicit_version : bool }.

(** [text.find('@')]: the text before the first ['@'] and the text after it. *)
Fixpoint break_at (l : chars) : option (chars * chars) :=
  match l with
  | [] => None
  | c :: l => if Ascii.eqb c "@"%char then Some ([], l)
              else '(a, b) ← break_at l; Some (c :: a, b)
  end.

Definition parse_pipeline_reference (text : string) : res PipelineReference :=
  match break_at (chars_of text) with
  | None =>
      if negb (identifier text) then Throw (err Validation "Invalid pipeline reference")
      else Ok (mkRef text 0 false)
  | Some (name, digits) =>
      if bool_decide (name = []) || bool_decide (digits = [])
         || bool_decide (is_Some (break_at digits)) || negb (identifier (of_chars name))
      then Throw (err Validation "Invalid versioned pipeline reference")
      else match stoul digits with
           | Some (parsed, stop) =>
               if negb (Nat.eqb stop (length digits)) || (parsed =? 0) || (1000000 <? parsed)
               then Throw (err Validation "Invalid pipeline reference version")
               else Ok (mkRef (of_chars name) parsed true)
           | None => Throw (err Validation "Invalid pipeline reference version")
           end
  end.

Definition pipeline_reference (name : string) (version : Z) : string :=
  String.append name (String.append "@" (to_string version)).

(** ** Validation *)

Definition node_types : list string :=
  ["input"; "output"; "function"; "agent"; "tool"; "router"; "validator"; "approval";
   "parallel"; "join"; "loop"; "subpipeline"; "worker"]%string.

Definition str_in (s : string) (l : list string) : bool := existsb (String.eqb s) l.

Definition has_node (p : PipelineDefinition) (id : string) : bool :=
  match nodes p !! id with Some _ => true | None => false end.
Definition node_type_is (p : PipelineDefinition) (id ty : string) : bool :=
  match nodes p !! id with Some n => String.eqb (n_type n) ty | None => false end.

(** The body of the loop over [p.nodes]. *)
Definition validate_node (p : PipelineDefinition) (extensions : gset string)
    (id : string) (n : NodeDefinition) : res unit :=
  let ty := n_type n in
  throw_if ((String.eqb ty "input" && negb (String.eqb id "input"))
            || (String.eqb ty "output" && negb (String.eqb id "output")))
    Validation "Input/output types are reserved for boundary nodes" ;;
  throw_if (negb (identifier id)
            || (negb (str_in ty node_types) && negb (bool_decide (ty ∈ extensions))))
    Validation "Invalid node ID or unknown type" ;;
  throw_if ((String.eqb ty "tool" || String.eqb ty "function" || String.eqb ty "agent")
            && negb (identifier (binding n)))
    Validation "A logical binding is required" ;;
  throw_if (String.eqb ty "worker" && empty_str (binding n) && empty_str (capability n))
    Validation "Worker requires a binding or capability" ;;
  throw_if (String.eqb ty "worker" && (negb (empty_str (binding n)) && negb (identifier (binding n))))
    Validation "Invalid worker binding" ;;
  throw_if (String.eqb ty "worker" && (128 <? size_of (capability n)))
    Validation "Invalid worker capability" ;;
  throw_if (negb (empty_str (required_tool n))
            && (negb (String.eqb (required_tool n) "laso.browser_status")
                || negb (String.eqb ty "worker")
                || negb (String.eqb (capability n) "coding-agent")))
    Validation "Unsupported required worker tool" ;;
  (if String.eqb ty "subpipeline"
   then parse_pipeline_reference (binding n) ≫= fun _ => Ok tt else Ok tt) ;;
  throw_if (String.eqb ty "loop" && (n_max_iterations n =? 0))
    Validation "Loop requires max_iterations" ;;
  throw_if (String.eqb ty "parallel"
            && (negb (has_node p (n_join n)) || negb (node_type_is p (n_join n) "join")))
    Validation "Parallel node requires an existing join node" ;;
  throw_if ((String.eqb ty "router" || String.eqb ty "validator") && empty_str (field n)
            && (negb (String.eqb ty "validator") || empty_str (schema n)))
    Validation "Router/validator requires a top-level field".

(** The acceptance rule of the shipped full-system pipeline. *)
Definition validate_full_system (p : PipelineDefinition) : res unit :=
  if String.eqb (pl_name p) "codex-full-system" && (2 <=? pl_version p) then
    match nodes p !! "agent_three"%string with
    | None => Throw (err Validation "Full-system acceptance requires agent_three browser status evidence")
    | Some n =>
        throw_if (negb (String.eqb (n_type n) "worker")
                  || negb (String.eqb (binding n) "codex_agent_three")
                  || negb (String.eqb (required_tool n) "laso.browser_status"))
          Validation "Full-system acceptance requires agent_three browser status evidence"
    end
  else Ok tt.

Definition edge_conditions : list string := [""; "accepted"; "rejected"; "repeat"; "done"]%string.

(** The loop over [p.edges]; [paths] is the set of (from, to) pairs seen so far. *)
Fixpoint validate_edges (p : PipelineDefinition) (paths : gset (string * string))
    (es : list EdgeDefinition) : res unit :=
  match es with
  | [] => Ok tt
  | e :: es =>
      throw_if (negb (identifier (e_from e)) || negb (identifier (e_to e))
                || negb (has_node p (e_from e)) || negb (has_node p (e_to e))
                || String.eqb (e_to e) "input" || String.eqb (e_from e) "output")
        Validation "Invalid edge reference" ;;
      throw_if (negb (str_in (e_condition e) edge_conditions))
        Validation "Unsupported edge condition" ;;
      throw_if (bool_decide ((e_from e, e_to e) ∈ paths)) Validation "Duplicate edge" ;;
      validate_edges p ({[(e_from e, e_to e)]} ∪ paths) es
  end.

(** [outgoing[id]]: the edges leaving [id], in declaration order. *)
Definition outgoing (p : PipelineDefinition) (id : string) : list EdgeDefinition :=
  filter (fun e => e_from e = id) (edges p).

Definition conditions_of (es : list EdgeDefinition) : gset string :=
  list_to_set (map e_condition es).

Definition expected_conditions (ty : string) : gset string :=
  if String.eqb ty "loop" then {[ "repeat"; "done" ]}%string
  else {[ "accepted"; "rejected" ]}%string.

Definition conditional_type (ty : string) : bool :=
  String.eqb ty "router" || String.eqb ty "validator" || String.eqb ty "loop".

(** The second loop over [p.nodes]: out-degree and conditions. *)
Definition validate_outgoing (p : PipelineDefinition) (id : string) (n : NodeDefinition) : res unit :=
  if String.eqb id "output" then Ok tt
  else
    let es := outgoing p id in
    throw_if (bool_decide (es = [])) Validation "Every non-output node needs an edge" ;;
    if String.eqb (n_type n) "parallel" then
      throw_if ((Nat.ltb (length es) 2) || (Nat.ltb 16 (length es)))
        Validation "Parallel requires 2..16 branches" ;;
      throw_if (existsb (fun e => negb (empty_str (e_condition e))) es)
        Validation "Parallel edges must be unconditional"
    else if conditional_type (n_type n) then
      throw_if (negb (bool_decide (conditions_of es = expected_conditions (n_type n)))
                || negb (Nat.eqb (length es) 2))
        Validation "Conditional nodes require exactly two named branches"
    else
      throw_if (negb (Nat.eqb (length es) 1)
                || existsb (fun e => negb (empty_str (e_condition e))) es)
        Validation "Ambiguous outgoing edges".

(** ** Cycle search

    [colors[id]]: absent or 0 is unvisited, 1 is on the current path, 2 is finished. *)
Definition color (c : gmap string Z) (id : string) : Z := default 0 (c !! id).

Definition unbounded (p : PipelineDefinition) (id : string) : list string :=
  map e_to (filter (fun e => e_max_iterations e = 0) (outgoing p id)).

(** Visit the targets of the unbounded edges of a node, then the next one. *)
Section Visit.
Context (p : PipelineDefinition).

Fixpoint visit (fuel : nat) (id : string) (c : gmap string Z)
    : option (res (gmap string Z)) :=
  match fuel with
  | O => None
  | S fuel =>
      if color c id =? 1 then Some (Throw (err Validation "Cycle has no bounded edge"))
      else if color c id =? 2 then Some (Ok c)
      else
        match (fix go (l : list string) (c : gmap string Z) : option (res (gmap string Z)) :=
                 match l with
                 | [] => Some (Ok c)
                 | y :: l =>
                     match visit fuel y c with
                     | Some (Ok c') => go l c'
                     | r => r
                     end
                 end) (unbounded p id) (<[id := 1]> c)
        with
        | Some (Ok c') => Some (Ok (<[id := 2]> c'))
        | r => r
        end
  end.

Fixpoint visit_list (fuel : nat) (l : list string) (c : gmap string Z)
    : option (res (gmap string Z)) :=
  match l with
  | [] => Some (Ok c)
  | y :: l =>
      match visit fuel y c with
      | Some (Ok c') => visit_list fuel l c'
      | r => r
      end
  end.
End Visit.

(** ** Reachability *)
Section Reach.
Context (p : PipelineDefinition).

Fixpoint reach (fuel : nat) (id : string) (seen : gset string) : option (gset string) :=
  match fuel with
  | O => None
  | S fuel =>
      if bool_decide (id ∈ seen) then Some seen
      else (fix go (l : list string) (seen : gset string) : option (gset string) :=
              match l with
              | [] => Some seen
              | y :: l => reach fuel y seen ≫= go l
              end) (map e_to (outgoing p id)) ({[id]} ∪ seen)
  end.

Fixpoint reach_list (fuel : nat) (l : list string) (seen : gset string) : option (gset string) :=
  match l with
  | [] => Some seen
  | y :: l => reach fuel y seen ≫= reach_list fuel l
  end.
End Reach.

Definition graph_fuel (p : PipelineDefinition) : nat := S (size (nodes p)).

(** Running out of fuel is reported as an [Execution] error, which [validate_pipeline_code]
    excludes. *)
Definition check_cycles (p : PipelineDefinition) : res unit :=
  match visit_list p (graph_fuel p) (map fst (map_items (nodes p))) ∅ with
  | Some (Ok _) => Ok tt
  | Some (Throw e) => Throw e
  | None => Throw (err Execution "recursion depth")
  end.

Definition check_reachable (p : PipelineDefinition) : res unit :=
  match reach p (graph_fuel p) "input" ∅ with
  | Some seen =>
      throw_if (negb (Nat.eqb (size seen) (size (nodes p)))) Validation "Unreachable node"
  | None => Throw (err Execution "recursion depth")
  end.

Definition validate_pipeline (p : PipelineDefinition) (extensions : gset string) : res unit :=
  throw_if (negb (schema_version p =? 1) || (pl_version p =? 0) || (max_steps p =? 0)
            || (100000 <? max_steps p) || negb (has_node p "input") || negb (has_node p "output")
            || negb (identifier (pl_name p)) || (256 <? Z.of_nat (size (nodes p)))
            || (1024 <? Z.of_nat (length (edges p))))
    Validation "Invalid pipeline name or graph size" ;;
  throw_if (negb (node_type_is p "input" "input") || negb (node_type_is p "output" "output"))
    Validation "Reserved boundary nodes have incorrect types" ;;
  res_iter (fun '(id, n) => validate_node p extensions id n) (map_items (nodes p)) ;;
  validate_full_system p ;;
  validate_edges p ∅ (edges p) ;;
  res_iter (fun '(id, n) => validate_outgoing p id n) (map_items (nodes p)) ;;
  check_cycles p ;;
  check_reachable p.

(** ** The two graphs of a definition *)

(** An edge without an iteration bound, and any edge. *)
Definition step_unbounded (p : PipelineDefinition) (x y : string) : Prop := y ∈ unbounded p x.
Definition step_any (p : PipelineDefinition) (x y : string) : Prop := y ∈ map e_to (outgoing p x).

(** All edges join declared nodes. *)
Definition closed_graph (p : PipelineDefinition) : Prop :=
  forall e, e ∈ edges p -> e_from e ∈ dom (nodes p) /\ e_to e ∈ dom (nodes p).

Lemma elem_of_outgoing p id e : e ∈ outgoing p id <-> e ∈ edges p /\ e_from e = id.
Proof. unfold outgoing. rewrite list_elem_of_filter. tauto. Qed.

Lemma step_unbounded_edge p x y :
  step_unbounded p x y <->
  exists e, e ∈ edges p /\ e_from e = x /\ e_to e = y /\ e_max_iterations e = 0.
Proof.
  unfold step_unbounded, unbounded. rewrite list_elem_of_fmap.
  setoid_rewrite list_elem_of_filter. setoid_rewrite elem_of_outgoing. naive_solver.
Qed.

Lemma step_any_edge p x y :
  step_any p x y <-> exists e, e ∈ edges p /\ e_from e = x /\ e_to e = y.
Proof.
  unfold step_any. rewrite list_elem_of_fmap. setoid_rewrite elem_of_outgoing. naive_solver.
Qed.

Lemma closed_step p x y : closed_graph p -> step_any p x y -> y ∈ dom (nodes p).
Proof. intros Hc (e & He & _ & <-)%step_any_edge. by apply Hc. Qed.
Lemma closed_unbounded p x y : closed_graph p -> step_unbounded p x y -> y ∈ dom (nodes p).
Proof. intros Hc (e & He & _ & <- & _)%step_unbounded_edge. by apply Hc. Qed.

(** *** The cycle search *)

Section VisitProofs.
Context (p : PipelineDefinition).
Implicit Types c : gmap string Z.

Lemma visit_unfold fuel id c :
  visit p (S fuel) id c =
  if color c id =? 1 then Some (Throw (err Validation "Cycle has no bounded edge"))
  else if color c id =? 2 then Some (Ok c)
  else match visit_list p fuel (unbounded p id) (<[id := 1]> c) with
       | Some (Ok c') => Some (Ok (<[id := 2]> c'))
       | r => r
       end.
Proof.
  simpl. destruct (color c id =? 1); [done|]. destruct (color c id =? 2); [done|].
  match goal with |- match ?f _ _ with _ => _ end = _ =>
    assert (H : forall l c, f l c = visit_list p fuel l c) end.
  { induction l as [|y l IH]; intros c'; simpl; [done|].
    destruct (visit p fuel y c') as [[]|]; auto. }
  by rewrite H.
Qed.

Lemma color_insert c x y v : color (<[x := v]> c) y = if decide (x = y) then v else color c y.
Proof. unfold color. rewrite lookup_insert. by case_decide. Qed.

(** What a finished search keeps: the path is unchanged, finished nodes stay finished. *)
Definition well_colored c : Prop := forall x, color c x = 0 \/ color c x = 1 \/ color c x = 2.
Definition extends c c' : Prop :=
  (forall x, color c x = 2 -> color c' x = 2) /\
  (forall x, color c' x = 1 <-> color c x = 1) /\ well_colored c'.

Lemma extends_trans c1 c2 c3 : extends c1 c2 -> extends c2 c3 -> extends c1 c3.
Proof.
  intros (A1 & A2 & A3) (B1 & B2 & B3). split; [auto|split; [|done]].
  intros x. by rewrite B2.
Qed.

Lemma well_colored_gray c id : well_colored c -> well_colored (<[id := 1]> c).
Proof. intros Hw x. rewrite color_insert. case_decide; auto. Qed.
Hint Resolve well_colored_gray : laso.

(** Lifting a property of [visit] to the loop over the targets. *)
Lemma visit_list_frame fuel :
  (forall id c c', well_colored c -> visit p fuel id c = Some (Ok c') ->
     extends c c' /\ color c' id = 2) ->
  forall l c c', well_colored c -> visit_list p fuel l c = Some (Ok c') ->
  extends c c' /\ forall y, y ∈ l -> color c' y = 2.
Proof.
  intros IH. induction l as [|y l IHl]; intros c c' Hw Hv; simpl in Hv.
  - simplify_eq. split; [split_and!; done|set_solver].
  - destruct (visit p fuel y c) as [[c1|]|] eqn:E; simplify_eq.
    destruct (IH _ _ _ Hw E) as [He Hy]. pose proof He as (_ & _ & Hw1).
    destruct (IHl _ _ Hw1 Hv) as [He' Hl]. split; [by eapply extends_trans|].
    intros z [->|?]%elem_of_cons; [|auto]. by apply He'.
Qed.

Lemma visit_frame fuel : forall id c c',
  well_colored c -> visit p fuel id c = Some (Ok c') -> extends c c' /\ color c' id = 2.
Proof.
  induction fuel as [|fuel IH]; [done|]. intros id c c' Hw Hv.
  rewrite visit_unfold in Hv. destruct (Z.eqb_spec (color c id) 1); [done|].
  destruct (Z.eqb_spec (color c id) 2); [simplify_eq; split; [split_and!|]; done|].
  destruct (visit_list p fuel (unbounded p id) (<[id:=1]> c)) as [[c1|]|] eqn:E; simplify_eq.
  apply (visit_list_frame _ IH) in E as [(H2 & H1 & Hw2) _]; [|by apply well_colored_gray].
  split; [split; [|split]|].
  - intros x Hx. rewrite color_insert. case_decide; [done|]. apply H2.
    rewrite color_insert. by rewrite decide_False.
  - intros x. rewrite color_insert. specialize (H1 x). rewrite color_insert in H1.
    case_decide; subst; [lia|]. done.
  - intros x. rewrite color_insert. case_decide; auto.
  - rewrite color_insert. by rewrite decide_True.
Qed.

(** Every finished node has no infinite walk along unbounded edges. *)
Definition sound c : Prop :=
  forall x, color c x = 2 -> Acc (fun y x => step_unbounded p x y) x.

Lemma visit_list_sound fuel :
  (forall id c c', well_colored c -> visit p fuel id c = Some (Ok c') -> sound c -> sound c') ->
  forall l c c', well_colored c -> visit_list p fuel l c = Some (Ok c') -> sound c -> sound c'.
Proof.
  intros IH. induction l as [|y l IHl]; intros c c' Hw Hv Hs; simpl in Hv; [by simplify_eq|].
  destruct (visit p fuel y c) as [[c1|]|] eqn:E; simplify_eq.
  destruct (visit_frame _ _ _ _ Hw E) as [(_ & _ & Hw1) _]. eauto.
Qed.

Lemma visit_sound fuel : forall id c c',
  well_colored c -> visit p fuel id c = Some (Ok c') -> sound c -> sound c'.
Proof.
  induction fuel as [|fuel IH]; [done|]. intros id c c' Hw Hv Hs.
  rewrite visit_unfold in Hv. destruct (Z.eqb_spec (color c id) 1); [done|].
  destruct (Z.eqb_spec (color c id) 2); [by simplify_eq|].
  destruct (visit_list p fuel (unbounded p id) (<[id:=1]> c)) as [[c1|]|] eqn:E; simplify_eq.
  assert (Hs1 : sound (<[id:=1]> c)).
  { intros x. rewrite color_insert. case_decide; [lia|apply Hs]. }
  destruct (visit_list_frame _ (visit_frame fuel) _ _ _ (well_colored_gray _ id Hw) E) as [_ Hl].
  pose proof (visit_list_sound _ IH _ _ _ (well_colored_gray _ id Hw) E Hs1) as Hs2.
  intros x. rewrite color_insert. case_decide as Hx; [|apply Hs2]. intros _. subst x.
  constructor. intros y Hy. by apply Hs2, Hl.
Qed.

(** A rejection exhibits a cycle: the nodes on the path lead to the visited node. *)
Definition on_path c id : Prop :=
  forall g, color c g = 1 -> clos_trans _ (step_unbounded p) g id.
Definition cycle_found (e : Error) : Prop :=
  e = err Validation "Cycle has no bounded edge" /\
  exists x, clos_trans _ (step_unbounded p) x x.

Lemma on_path_extends c c' id : extends c c' -> on_path c id -> on_path c' id.
Proof. intros (_ & H1 & _) Hp g Hg. by apply Hp, H1. Qed.

Lemma visit_list_throw fuel :
  (forall id c e, well_colored c -> visit p fuel id c = Some (Throw e) -> on_path c id ->
     cycle_found e) ->
  forall l c e, well_colored c -> visit_list p fuel l c = Some (Throw e) ->
  (forall y, y ∈ l -> on_path c y) -> cycle_found e.
Proof.
  intros IH. induction l as [|y l IHl]; intros c e Hw Hv Hp; simpl in Hv; [done|].
  destruct (visit p fuel y c) as [[c1|]|] eqn:E; simplify_eq.
  - destruct (visit_frame _ _ _ _ Hw E) as [He _]. eapply IHl; [apply He|done|].
    intros z Hz. eapply on_path_extends; [done|]. apply Hp. set_solver.
  - eapply IH; [done..|]. apply Hp. set_solver.
Qed.

Lemma visit_throw fuel : forall id c e,
  well_colored c -> visit p fuel id c = Some (Throw e) -> on_path c id -> cycle_found e.
Proof.
  induction fuel as [|fuel IH]; [done|]. intros id c e Hw Hv Hp.
  rewrite visit_unfold in Hv. destruct (Z.eqb_spec (color c id) 1).
  { simplify_eq. split; [done|]. exists id. by apply Hp. }
  destruct (Z.eqb_spec (color c id) 2); [done|].
  destruct (visit_list p fuel (unbounded p id) (<[id:=1]> c)) as [[c1|]|] eqn:E; simplify_eq.
  eapply (visit_list_throw _ IH); [by apply well_colored_gray|done|].
  intros y Hy g. rewrite color_insert. case_decide; subst; [by constructor|].
  intros Hg. eapply t_trans; [by apply Hp|by constructor].
Qed.

(** Recursion depth: the unvisited declared nodes bound it. *)
Definition whites c : gset string := filter (fun x => color c x = 0) (dom (nodes p)).

Lemma whites_mono c c' : extends c c' -> well_colored c -> whites c' ⊆ whites c.
Proof.
  intros (H2 & H1 & _) Hw x. unfold whites. rewrite !elem_of_filter. intros [Hx ?].
  split; [|done]. specialize (H2 x). specialize (H1 x).
  destruct (Hw x) as [|[|]]; [done|..]; intuition congruence.
Qed.

Lemma whites_gray c id :
  id ∈ dom (nodes p) -> color c id = 0 -> (size (whites (<[id := 1%Z]> c)) < size (whites c))%nat.
Proof.
  intros Hd Hc. apply subset_size. split.
  - intros x. unfold whites. rewrite !elem_of_filter, color_insert.
    case_decide; [by intros [? ?]|done].
  - intros Hsub. specialize (Hsub id). unfold whites in Hsub.
    rewrite !elem_of_filter, color_insert, decide_True in Hsub by done. naive_solver lia.
Qed.

Context (Hclosed : closed_graph p).

Lemma visit_list_fuel fuel :
  (forall id c, well_colored c -> id ∈ dom (nodes p) -> (size (whites c) < fuel)%nat ->
     visit p fuel id c <> None) ->
  forall l c, well_colored c -> (forall y, y ∈ l -> y ∈ dom (nodes p)) ->
  (size (whites c) < fuel)%nat -> visit_list p fuel l c <> None.
Proof.
  intros IH. induction l as [|y l IHl]; intros c Hw Hl Hf; simpl; [done|].
  destruct (visit p fuel y c) as [[c1|]|] eqn:E; [|done|].
  - destruct (visit_frame _ _ _ _ Hw E) as [He _]. apply IHl; [apply He|set_solver|].
    eapply Nat.le_lt_trans; [|done]. by apply subseteq_size, whites_mono.
  - exfalso. eapply IH; [done| |done|done]. apply Hl. set_solver.
Qed.

Lemma visit_total fuel : forall id c,
  well_colored c -> id ∈ dom (nodes p) -> (size (whites c) < fuel)%nat ->
  visit p fuel id c <> None.
Proof.
  induction fuel as [|fuel IH]; [lia|]. intros id c Hw Hd Hf.
  rewrite visit_unfold. destruct (Z.eqb_spec (color c id) 1); [done|].
  destruct (Z.eqb_spec (color c id) 2); [done|].
  assert (Hc : color c id = 0) by (destruct (Hw id) as [|[|]]; done).
  assert (E : visit_list p fuel (unbounded p id) (<[id:=1]> c) <> None).
  { apply (visit_list_fuel _ IH); [by apply well_colored_gray| |].
    - intros y Hy. by eapply closed_unbounded.
    - pose proof (whites_gray c id Hd Hc). lia. }
  by destruct (visit_list p fuel (unbounded p id) (<[id:=1]> c)) as [[]|].
Qed.
End VisitProofs.

Lemma color_empty x : color ∅ x = 0.
Proof. unfold color. by rewrite lookup_empty. Qed.

Lemma well_colored_empty : well_colored ∅.
Proof. intros x. rewrite color_empty. auto. Qed.

Lemma elem_of_node_ids p x : x ∈ map fst (map_items (nodes p)) <-> x ∈ dom (nodes p).
Proof.
  rewrite list_elem_of_fmap, elem_of_dom. split.
  - intros ([k n] & -> & H%elem_of_map_items). eauto.
  - intros [n Hn]. exists (x, n). by rewrite elem_of_map_items.
Qed.

(** No cycle of the declared graph consists of unbounded edges only. *)
Definition cycles_bounded (p : PipelineDefinition) : Prop :=
  forall x, ~ clos_trans _ (step_unbounded p) x x.

Lemma acc_no_cycle {A} (R : A -> A -> Prop) x :
  Acc (fun y x => R x y) x -> ~ clos_trans _ R x x.
Proof.
  induction 1 as [x _ IH]. intros Hx. pose proof Hx as Hx1. apply clos_trans_t1n in Hx1.
  inversion Hx1 as [? Hy|y ? Hy Hyx]; subst; [by apply (IH x)|].
  apply (IH y Hy), (t_trans _ _ _ x); [by apply clos_t1n_trans|by constructor].
Qed.

(** The search accepts exactly the graphs whose cycles all spend a budget. *)
Lemma check_cycles_spec p :
  closed_graph p ->
  (check_cycles p = Ok tt /\ cycles_bounded p) \/
  (check_cycles p = Throw (err Validation "Cycle has no bounded edge") /\ ~ cycles_bounded p).
Proof.
  intros Hc. unfold check_cycles.
  pose proof (visit_list_fuel p Hc (graph_fuel p) (visit_total p Hc _) (map fst (map_items (nodes p))) ∅
    well_colored_empty) as Hf.
  destruct (visit_list p (graph_fuel p) _ ∅) as [[c|e]|] eqn:E.
  - left. split; [done|]. intros x Hx.
    assert (Hd : x ∈ dom (nodes p)).
    { apply clos_trans_tn1 in Hx. inversion Hx; subst; by eapply closed_unbounded. }
    destruct (visit_list_frame p _ (visit_frame p _) _ _ _ well_colored_empty E) as [_ Hl].
    apply (acc_no_cycle (step_unbounded p) x); [|done].
    eapply (visit_list_sound p _ (visit_sound p _) _ _ _ well_colored_empty E).
    + intros y. rewrite color_empty. lia.
    + by apply Hl, elem_of_node_ids.
  - right. eapply (visit_list_throw p _ (visit_throw p _)) in E as [-> (x & Hx)];
      [|apply well_colored_empty|].
    + split; [done|]. intros Hcb. by apply (Hcb x).
    + intros y _ g. rewrite color_empty. lia.
  - exfalso. apply Hf; [|unfold graph_fuel|done].
    + intros y. by rewrite elem_of_node_ids.
    + assert (size (whites p ∅) <= size (nodes p))%nat; [|lia].
      rewrite <- size_dom. apply subseteq_size. intros x. unfold whites. rewrite elem_of_filter. tauto.
Qed.

(** *** The reachability search *)

Section ReachProofs.
Context (p : PipelineDefinition).
Implicit Types seen : gset string.

Abbreviation succs id := (map e_to (outgoing p id)).

Lemma reach_unfold fuel id seen :
  reach p (S fuel) id seen =
  if bool_decide (id ∈ seen) then Some seen
  else reach_list p fuel (succs id) ({[id]} ∪ seen).
Proof.
  simpl. case_bool_decide; [done|].
  generalize (succs id) as l. generalize ({[id]} ∪ seen) as s0.
  intros s0 l. revert s0. induction l as [|y l IH]; intros s0; simpl; [done|].
  destruct (reach p fuel y s0); simpl; auto.
Qed.

(** The nodes a call adds have all their successors in the result. *)
Definition explored seen seen' : Prop :=
  seen ⊆ seen' /\ forall x y, x ∈ seen' -> x ∉ seen -> step_any p x y -> y ∈ seen'.

Lemma explored_trans s1 s2 s3 : explored s1 s2 -> explored s2 s3 -> explored s1 s3.
Proof.
  intros [A B] [C D]. split; [set_solver|]. intros x y Hx Hn Hxy.
  destruct (decide (x ∈ s2)); [|by eapply D]. by eapply C, B.
Qed.

Lemma reach_list_explored fuel :
  (forall id s s', reach p fuel id s = Some s' -> explored s s' /\ id ∈ s') ->
  forall l s s', reach_list p fuel l s = Some s' ->
  explored s s' /\ forall y, y ∈ l -> y ∈ s'.
Proof.
  intros IH. induction l as [|y l IHl]; intros s s' H; simpl in H.
  - simplify_eq. split; [split; [done|]; set_solver|set_solver].
  - destruct (reach p fuel y s) as [s1|] eqn:E; simplify_eq/=.
    destruct (IH _ _ _ E) as [He Hy]. destruct (IHl _ _ H) as [He' Hl].
    split; [by eapply explored_trans|]. intros z [->|?]%elem_of_cons; [|auto]. by apply He'.
Qed.

Lemma reach_explored fuel : forall id s s',
  reach p fuel id s = Some s' -> explored s s' /\ id ∈ s'.
Proof.
  induction fuel as [|fuel IH]; [done|]. intros id s s'. rewrite reach_unfold.
  case_bool_decide; [intros; simplify_eq; split; [split; [done|]|]; set_solver|].
  intros [[Hsub Hex] Hl]%(reach_list_explored _ IH). split; [split|]; [set_solver| |set_solver].
  intros x y Hx Hn Hxy. destruct (decide (x = id)) as [->|]; [by apply Hl|].
  eapply Hex; [done|set_solver|done].
Qed.

Lemma reach_list_sound fuel (P : string -> Prop) :
  (forall id s s', reach p fuel id s = Some s' -> P id -> (forall x, x ∈ s -> P x) ->
     forall x, x ∈ s' -> P x) ->
  forall l s s', reach_list p fuel l s = Some s' ->
  (forall y, y ∈ l -> P y) -> (forall x, x ∈ s -> P x) -> forall x, x ∈ s' -> P x.
Proof.
  intros IH. induction l as [|y l IHl]; intros s s' H Hl Hs; simpl in H; [by simplify_eq|].
  destruct (reach p fuel y s) as [s1|] eqn:E; simplify_eq/=.
  eapply IHl; [done|set_solver|]. eapply IH; [done|set_solver|done].
Qed.

Lemma reach_sound (P : string -> Prop) :
  (forall x y, P x -> step_any p x y -> P y) ->
  forall fuel id s s', reach p fuel id s = Some s' -> P id -> (forall x, x ∈ s -> P x) ->
  forall x, x ∈ s' -> P x.
Proof.
  intros HP. induction fuel as [|fuel IH]; [done|]. intros id s s'. rewrite reach_unfold.
  case_bool_decide; [by intros; simplify_eq; auto|].
  intros E Hid Hs. eapply (reach_list_sound _ P IH); [done| |set_solver].
  intros y Hy. by apply (HP id).
Qed.

Context (Hclosed : closed_graph p).

Lemma reach_list_fuel fuel :
  (forall id s, id ∈ dom (nodes p) -> (size (dom (nodes p) ∖ s) < fuel)%nat ->
     reach p fuel id s <> None) ->
  forall l s, (forall y, y ∈ l -> y ∈ dom (nodes p)) ->
  (size (dom (nodes p) ∖ s) < fuel)%nat -> reach_list p fuel l s <> None.
Proof.
  intros IH. induction l as [|y l IHl]; intros s Hl Hf; simpl; [done|].
  destruct (reach p fuel y s) as [s1|] eqn:E; simpl.
  - apply IHl; [set_solver|]. eapply Nat.le_lt_trans; [|done]. apply subseteq_size.
    apply reach_explored in E as [[? _] _]. set_solver.
  - exfalso. eapply IH; [|done|done]. apply Hl. set_solver.
Qed.

Lemma reach_total fuel : forall id s,
  id ∈ dom (nodes p) -> (size (dom (nodes p) ∖ s) < fuel)%nat -> reach p fuel id s <> None.
Proof.
  induction fuel as [|fuel IH]; [lia|]. intros id s Hd Hf. rewrite reach_unfold.
  case_bool_decide; [done|]. apply (reach_list_fuel _ IH).
  - intros y Hy. by eapply closed_step.
  - eapply Nat.lt_le_trans; [|apply Nat.lt_succ_r, Hf]. apply subset_size. set_solver.
Qed.
End ReachProofs.

Definition all_reachable (p : PipelineDefinition) : Prop :=
  forall x, x ∈ dom (nodes p) -> clos_refl_trans _ (step_any p) "input"%string x.

Lemma check_reachable_spec p :
  closed_graph p -> "input"%string ∈ dom (nodes p) ->
  (check_reachable p = Ok tt /\ all_reachable p) \/
  (check_reachable p = Throw (err Validation "Unreachable node") /\ ~ all_reachable p).
Proof.
  intros Hc Hin. unfold check_reachable.
  destruct (reach p (graph_fuel p) "input" ∅) as [s|] eqn:E.
  2: { exfalso. eapply reach_total; [done|done| |done]. unfold graph_fuel.
       rewrite difference_empty_L, size_dom. lia. }
  assert (Hreach : forall x, x ∈ s -> clos_refl_trans _ (step_any p) "input"%string x).
  { refine (reach_sound p _ _ _ _ _ _ E _ _); [| |set_solver].
    - intros x y Hx Hxy. eapply rt_trans; [done|by constructor].
    - apply rt_refl. }
  assert (Hdom : s ⊆ dom (nodes p)).
  { refine (reach_sound p (fun x => x ∈ dom (nodes p)) _ _ _ _ _ E Hin _); [|set_solver].
    intros x y _ Hxy. by eapply closed_step. }
  assert (Hcl : forall x, clos_refl_trans _ (step_any p) "input"%string x -> x ∈ s).
  { apply reach_explored in E as [[_ Hex] Hi]. intros x Hx%clos_rt_rtn1.
    induction Hx as [|y z Hyz _ IH]; [done|]. eapply Hex; [done|set_solver|done]. }
  destruct (Nat.eqb_spec (size s) (size (nodes p))) as [Hs|Hs]; simpl; [left|right];
    (split; [done|]).
  - intros x Hx. apply Hreach. rewrite <- size_dom in Hs.
    by rewrite (set_subseteq_size_eq _ _ Hdom) by lia.
  - intros Hall. apply Hs. rewrite <- size_dom. f_equal. apply set_eq. intros x. split.
    + apply Hdom.
    + intros Hx. by apply Hcl, Hall.
Qed.

(** *** Edges and out-degrees *)

Lemma has_node_dom p id : has_node p id = true <-> id ∈ dom (nodes p).
Proof. unfold has_node. rewrite elem_of_dom. destruct (nodes p !! id); naive_solver. Qed.

(** What the edge loop establishes for each edge. *)
Definition edge_ok (p : PipelineDefinition) (e : EdgeDefinition) : Prop :=
  identifier (e_from e) = true /\ identifier (e_to e) = true /\
  e_from e ∈ dom (nodes p) /\ e_to e ∈ dom (nodes p) /\
  e_to e <> "input"%string /\ e_from e <> "output"%string /\
  str_in (e_condition e) edge_conditions = true.

Definition edge_path (e : EdgeDefinition) : string * string := (e_from e, e_to e).

Lemma validate_edges_ok p es : forall paths,
  validate_edges p paths es = Ok tt <->
  Forall (edge_ok p) es /\ NoDup (map edge_path es) /\ Forall (fun e => edge_path e ∉ paths) es.
Proof.
  induction es as [|e es IH]; intros paths; simpl.
  { split; [|done]. intros _. split_and!; constructor. }
  rewrite !Forall_cons, NoDup_cons, !seq_unit_ok, !throw_if_ok, IH.
  rewrite !orb_false_iff, !negb_false_iff, !String.eqb_neq, !has_node_dom, bool_decide_eq_false.
  unfold edge_ok. split.
  - intros (? & ? & ? & Ho & Hn & Hp). split_and!; try tauto.
    + rewrite list_elem_of_fmap. intros (e' & He & Hin). rewrite Forall_forall in Hp.
      apply (Hp e'); [done|]. rewrite <- He. unfold edge_path. set_solver.
    + eapply Forall_impl; [done|]. set_solver.
  - intros ((? & Ho) & (Hni & Hn) & (Hp & Hps)). split_and!; try tauto.
    rewrite Forall_forall in Hps |- *. intros e' He'. rewrite elem_of_union, elem_of_singleton.
    intros [Heq|?]; [|by eapply Hps]. apply Hni. apply list_elem_of_fmap. exists e'. auto.
Qed.

Lemma edges_ok_closed p : Forall (edge_ok p) (edges p) -> closed_graph p.
Proof. rewrite Forall_forall. intros H e He. destruct (H e He) as (_ & _ & ? & ? & _). done. Qed.

(** The checks that do not look at paths through the graph. *)
Definition local_checks (p : PipelineDefinition) (ext : gset string) : Prop :=
  (schema_version p = 1 /\ pl_version p <> 0 /\ max_steps p <> 0 /\ max_steps p <= 100000 /\
   identifier (pl_name p) = true /\
   Z.of_nat (size (nodes p)) <= 256 /\ Z.of_nat (length (edges p)) <= 1024) /\
  node_type_is p "input" "input" = true /\ node_type_is p "output" "output" = true /\
  (forall id n, nodes p !! id = Some n -> validate_node p ext id n = Ok tt) /\
  validate_full_system p = Ok tt /\
  Forall (edge_ok p) (edges p) /\ NoDup (map edge_path (edges p)) /\
  (forall id n, nodes p !! id = Some n -> validate_outgoing p id n = Ok tt).

Lemma node_type_is_dom p id ty : node_type_is p id ty = true -> id ∈ dom (nodes p).
Proof. unfold node_type_is. rewrite elem_of_dom. destruct (nodes p !! id); naive_solver. Qed.

Lemma res_iter_items {V} (m : gmap string V) (f : string -> V -> res unit) :
  res_iter (fun '(k, v) => f k v) (map_items m) = Ok tt <->
  forall k v, m !! k = Some v -> f k v = Ok tt.
Proof.
  rewrite res_iter_ok, Forall_forall. split.
  - intros H k v Hk. by apply (H (k, v)), elem_of_map_items.
  - intros H [k v] Hk. by apply H, elem_of_map_items.
Qed.

(** A definition is accepted exactly when the local checks hold, every cycle contains a bounded
    edge, and every node can be reached from the input. *)
Lemma validate_pipeline_accepts p ext :
  validate_pipeline p ext = Ok tt <->
  local_checks p ext /\ cycles_bounded p /\ all_reachable p.
Proof.
  unfold validate_pipeline, local_checks. rewrite !seq_unit_ok, !throw_if_ok, !res_iter_items.
  rewrite validate_edges_ok. rewrite !orb_false_iff, !negb_false_iff.
  rewrite Z.eqb_eq, !Z.eqb_neq, !Z.ltb_ge, !has_node_dom.
  split.
  - intros (? & (Hi & Ho) & ? & ? & (He & ? & ?) & ? & Hcy & Hre).
    pose proof (edges_ok_closed _ He) as Hc. pose proof (node_type_is_dom _ _ _ Hi) as Hin.
    destruct (check_cycles_spec p Hc) as [[_ ?]|[Hx _]]; [|congruence].
    destruct (check_reachable_spec p Hc Hin) as [[_ ?]|[Hx _]]; [|congruence]. tauto.
  - intros ((? & Hi & Ho & ? & ? & He & ? & ?) & Hcy & Hre).
    pose proof (edges_ok_closed _ He) as Hc. pose proof (node_type_is_dom _ _ _ Hi) as Hin.
    pose proof (node_type_is_dom _ _ _ Ho) as Hout.
    destruct (check_cycles_spec p Hc) as [[? _]|[_ Hx]]; [|tauto].
    destruct (check_reachable_spec p Hc Hin) as [[? _]|[_ Hx]]; [|tauto].
    split_and!; try tauto. by apply Forall_true.
Qed.

(** *** Errors are validation errors *)

(** [only c m]: if [m] throws, it throws an error of code [c]. *)
Definition only (c : ErrorCode) {A} (m : res A) : Prop := forall e, m = Throw e -> code e = c.

Lemma only_ok c {A} (a : A) : only c (Ok a).
Proof. by intros e. Qed.
Lemma only_throw_if c b msg : only c (throw_if b c msg).
Proof. intros e. destruct b; simpl; [|done]. by intros [= <-]. Qed.
Lemma only_throw c {A} msg : only c (@Throw A (err c msg)).
Proof. by intros e [= <-]. Qed.
Lemma only_bind c {A B} (m : res A) (k : A -> res B) :
  only c m -> (forall a, m = Ok a -> only c (k a)) -> only c (m ≫= k).
Proof. intros Hm Hk e. destruct m as [a|e']; simpl; [by apply Hk|]. intros [= <-]. by apply Hm. Qed.
Lemma only_seq c {A B} (m : res A) (k : res B) :
  only c m -> (forall a, m = Ok a -> only c k) -> only c (m ;; k).
Proof. intros Hm Hk. apply only_bind; eauto. Qed.
Lemma only_iter c {A} (f : A -> res unit) l : (forall x, only c (f x)) -> only c (res_iter f l).
Proof.
  intros Hf. induction l as [|x l IH]; simpl; [apply only_ok|]. apply only_bind; auto.
Qed.
#[export] Hint Resolve only_ok only_throw_if only_throw : laso.

(** Walks through a chain of checks. *)
Ltac only_step :=
  first [ apply only_ok | apply only_throw_if | apply only_throw
        | apply only_seq; [|intros ? _] | apply only_bind; [|intros ? _] | case_match ].

Lemma parse_reference_only text : only Validation (parse_pipeline_reference text).
Proof. unfold parse_pipeline_reference. repeat only_step. Qed.

Lemma validate_node_only p ext id n : only Validation (validate_node p ext id n).
Proof. unfold validate_node. repeat (apply parse_reference_only || only_step). Qed.

Lemma validate_edges_only p es : forall paths, only Validation (validate_edges p paths es).
Proof. induction es as [|e es IH]; intros paths; simpl; repeat (apply IH || only_step). Qed.

Lemma validate_outgoing_only p id n : only Validation (validate_outgoing p id n).
Proof. unfold validate_outgoing. repeat only_step. Qed.

(** The fuel of the two searches suffices, so that a rejection is always a validation error. *)
Lemma validate_pipeline_code p ext : only Validation (validate_pipeline p ext).
Proof.
  unfold validate_pipeline. apply only_seq; [apply only_throw_if|intros ? _].
  apply only_seq; [apply only_throw_if|intros [] Hb].
  apply only_seq; [apply only_iter; intros []; apply validate_node_only|intros ? _].
  apply only_seq; [unfold validate_full_system; repeat only_step|intros ? _].
  apply only_seq; [apply validate_edges_only|intros [] He].
  apply only_seq; [apply only_iter; intros []; apply validate_outgoing_only|intros ? _].
  apply validate_edges_ok in He as (He%edges_ok_closed & _).
  rewrite throw_if_ok, orb_false_iff, !negb_false_iff in Hb. destruct Hb as [Hb%node_type_is_dom _].
  apply only_seq; [|intros ? _].
  - destruct (check_cycles_spec p He) as [[-> _]|[-> _]]; auto with laso.
  - destruct (check_reachable_spec p He Hb) as [[-> _]|[-> _]]; auto with laso.
Qed.

(** *** References *)

Lemma ident_no_at s : identifier s = true -> "@"%char ∉ chars_of s.
Proof.
  unfold identifier. destruct (chars_of s) as [|c l]; [done|].
  rewrite !andb_true_iff, forallb_forall. intros [[Hc Hl] _].
  intros [<-|H]%elem_of_cons; [done|]. apply list_elem_of_In in H. by apply Hl in H.
Qed.

Lemma break_at_none l : "@"%char ∉ l -> break_at l = None.
Proof.
  induction l as [|c l IH]; intros H; simpl; [done|].
  destruct (Ascii.eqb_spec c "@"%char) as [->|]; [set_solver|]. by rewrite IH by set_solver.
Qed.

Lemma break_at_app l m : "@"%char ∉ l -> break_at (l ++ "@"%char :: m) = Some (l, m).
Proof.
  induction l as [|c l IH]; intros H; simpl; [done|].
  destruct (Ascii.eqb_spec c "@"%char) as [->|]; [set_solver|]. by rewrite IH by set_solver.
Qed.

Lemma digits_no_at l : Forall (fun c => is_digit c = true) l -> "@"%char ∉ l.
Proof. intros H Hin. rewrite Forall_forall in H. by apply H in Hin. Qed.

Lemma parse_reference_inv text r :
  parse_pipeline_reference text = Ok r ->
  identifier (r_name r) = true
  /\ ((explicit_version r = true /\ 1 <= r_version r <= 1000000)
      \/ (explicit_version r = false /\ r_version r = 0 /\ r_name r = text)).
Proof.
  unfold parse_pipeline_reference. intros H. destruct (break_at _) as [[name ds]|].
  - destruct (_ || _) eqn:Hc in H; [done|].
    rewrite !orb_false_iff, negb_false_iff in Hc. destruct Hc as [_ Hid].
    destruct (stoul ds) as [[v stop]|] eqn:Hst; [|done].
    destruct (_ || _) eqn:Hc in H; [done|]. rewrite !orb_false_iff, Z.eqb_neq, Z.ltb_ge in Hc.
    injection H as <-. simpl. split; [done|]. left. split; [done|].
    assert (0 <= v); [|lia]. unfold stoul in Hst.
    destruct (scan_int ds) as [[[neg dd] sp]|] eqn:Hsc; [|done]. simpl in Hst.
    destruct (u64_max <? digits_val dd); [done|]. injection Hst as <- _.
    destruct neg; [apply Z.mod_pos_bound; lia|].
    apply scan_int_all_digits in Hsc. by apply digits_val_nonneg.
  - destruct (identifier text) eqn:Hid; simpl in H; [|done]. injection H as <-. simpl. auto.
Qed.

(** ** Properties *)

(** C1: A pipeline definition is accepted if and only if its local checks hold, no cycle runs
    through unbounded edges only, and every node is reachable from the input: the depth-first
    searches decide exactly these two graph properties, and they terminate. *)
Theorem validate_pipeline_correct p ext :
  validate_pipeline p ext = Ok tt <->
  local_checks p ext /\ cycles_bounded p /\ all_reachable p.
Proof. apply validate_pipeline_accepts. Qed.

(** Validation always returns, and a rejected definition is rejected with a validation
    error: neither search exhausts its depth bound, whatever the definition. *)
Theorem validate_pipeline_error p ext e :
  validate_pipeline p ext = Throw e -> code e = Validation.
Proof. apply validate_pipeline_code. Qed.

Lemma validate_pipeline_error_witness : code (err Validation "Cycle has no bounded edge") = Validation.
Proof.
  apply (validate_pipeline_error sample_loop ∅). vm_compute. reflexivity.
Defined.

(** Writing a pipeline reference and reading it back gives the same name and version, for
    every valid pipeline name and every version the parser admits. *)
Theorem pipeline_reference_roundtrip name version :
  identifier name = true -> 1 <= version <= 1000000 ->
  parse_pipeline_reference (pipeline_reference name version) = Ok (mkRef name version true).
Proof.
  intros Hid Hv. unfold parse_pipeline_reference, pipeline_reference.
  rewrite !chars_of_app. change (chars_of "@") with ["@"%char]. simpl.
  rewrite break_at_app by (by apply ident_no_at).
  unfold to_string. rewrite chars_of_of_chars.
  rewrite (break_at_none (to_dec version)) by (apply digits_no_at, to_dec_digits; lia).
  rewrite of_chars_chars_of, Hid.
  rewrite (bool_decide_eq_false_2 (chars_of name = [])).
  2: { intros H. unfold identifier in Hid. by rewrite H in Hid. }
  rewrite (bool_decide_eq_false_2 (to_dec version = [])) by apply to_dec_nonempty.
  rewrite (bool_decide_eq_false_2 (is_Some None)) by (by intros [? ?]). simpl.
  rewrite stoul_to_dec by (unfold u64_max; lia).
  rewrite Nat.eqb_refl. simpl.
  destruct (Z.eqb_spec version 0); [lia|]. destruct (Z.ltb_spec 1000000 version); [lia|]. done.
Qed.

Lemma pipeline_reference_roundtrip_witness :
  parse_pipeline_reference (pipeline_reference "review" 12) = Ok (mkRef "review" 12 true).
Proof. apply (pipeline_reference_roundtrip "review" 12); [reflexivity|lia]. Defined.

(** A pipeline reference that parses names a valid identifier; its version is between 1 and
    1,000,000 when it is explicit and 0 otherwise, so that the narrowing to [unsigned] is
    exact. *)
Theorem parse_pipeline_reference_bounds text r :
  parse_pipeline_reference text = Ok r ->
  identifier (r_name r) = true
  /\ ((explicit_version r = true /\ 1 <= r_version r <= 1000000)
      \/ (explicit_version r = false /\ r_version r = 0 /\ r_name r = text)).
Proof. apply parse_reference_inv. Qed.

Lemma parse_pipeline_reference_bounds_witness :
  let r := mkRef "review" 7 true in
  identifier (r_name r) = true
  /\ ((explicit_version r = true /\ 1 <= r_version r <= 1000000)
      \/ (explicit_version r = false /\ r_version r = 0 /\ r_name r = "review@7"%string)).
Proof. apply (parse_pipeline_reference_bounds "review@7"). vm_compute. reflexivity. Defined.

(** The version digits are read by [std::stoul], which negates modulo 2^64: the reference
    [name@-18446744073709551615] is accepted as version 1 of [name]. *)
Theorem negative_version_accepted :
  parse_pipeline_reference "p@-18446744073709551615" = Ok (mkRef "p" 1 true).
Proof. vm_compute. reflexivity. Qed.
