(* ===== verification/Graph.v ===== *)
(** * The run cursor

    [src/runtime/graph.cpp]: how a run moves through its pipeline.  [next_ready] takes the next
    branch token, [prepare_join] collects the branches of a parallel group, [advance] follows the
    edges that match a node's result.  The functions mutate the run and may throw after having
    changed it, as in the code. *)

From S2P Require Import Prelude Json Types Samples Text Pipeline.
From Stdlib Require Import Ascii Relations.

(** [std::map<unsigned, Message>] in index order. *)
Definition index_le {V} (a b : Z * V) : Prop := a.1 <= b.1.
#[global] Instance index_le_dec {V} : RelDecision (@index_le V).
Proof. intros a b. unfold index_le. apply _. Defined.
Definition index_items {V} (m : gmap Z V) : list (Z * V) := merge_sort index_le (map_to_list m).

Definition next_ready : M Run bool := fun r =>
  match ready r with
  | [] => (r, Ok false)
  | t :: rest =>
      (((((r <| ready := rest |>) <| active_node := t_node_id t |>) <| message := t_message t |>)
         <| frames := t_frames t |>) <| prepared_join := ""%string |>, Ok true)
  end.

Definition join_payload (arrived : gmap Z Message) : Json :=
  JArray (map (fun im => payload im.2) (index_items arrived)).

Section PrepareJoin.
(** [Runtime::checkpoint] on the run, with its event type. *)
Context (checkpoint : string -> M Run unit).

Definition prepare_join (n : NodeDefinition) : M Run bool := fun r =>
  if negb (String.eqb (n_type n) "join") then (r, Ok true)
  else if String.eqb (prepared_join r) (n_id n) then (r, Ok true)
  else match last (frames r) with
  | None => (r, Throw (err Execution "Join reached outside its matching parallel group"))
  | Some frame =>
      if negb (String.eqb (f_join frame) (n_id n))
      then (r, Throw (err Execution "Join reached outside its matching parallel group"))
      else
        let arrived := default ∅ (joins r !! group frame) in
        match arrived !! f_index frame with
        | Some _ =>
            (r <| joins := <[group frame := arrived]> (joins r) |>,
             Throw (err Execution "Parallel branch arrived twice"))
        | None =>
            let arrived' := <[f_index frame := message r]> arrived in
            let r1 := r <| joins := <[group frame := arrived']> (joins r) |> in
            if Z.of_nat (size arrived') =? width frame then
              ((((r1 <| message := (message r) <| payload := join_payload arrived' |> |>)
                  <| frames := removelast (frames r) |>)
                  <| joins := delete (group frame) (joins r1) |>)
                  <| prepared_join := n_id n |>, Ok true)
            else
              (do more <- next_ready;
               if (more : bool) then checkpoint "join.waiting" ;;; m_ret false
               else m_throw Execution "Join has missing branches") r1
        end
  end.
End PrepareJoin.

Definition edge_matches (n : NodeDefinition) (condition : string) (e : EdgeDefinition) : Prop :=
  e_from e = n_id n /\ (e_condition e = ""%string \/ e_condition e = condition).
#[global] Instance edge_matches_dec n c e : Decision (edge_matches n c e).
Proof. unfold edge_matches. apply _. Defined.

Definition edge_key (e : EdgeDefinition) : string :=
  String.append (e_from e) (String.append "->" (e_to e)).

(** One edge of the loop of [advance]: spend its budget, then queue the target. *)
Definition take_edge (parallel : bool) (n : NodeDefinition) (grp : string) (total : nat)
    (ie : nat * EdgeDefinition) : M Run unit := fun r =>
  let '(i, e) := ie in
  let visits := u32 (default 0 (edge_visits r !! edge_key e) + 1) in
  let r1 := if e_max_iterations e =? 0 then r
            else r <| edge_visits := <[edge_key e := visits]> (edge_visits r) |> in
  if negb (e_max_iterations e =? 0) && (e_max_iterations e <? visits)
  then (r1, Throw (err Execution "Edge iteration limit exceeded"))
  else
    let fr := if parallel
              then frames r1 ++ [mkFrame grp (n_join n) (Z.of_nat total) (Z.of_nat i)]
              else frames r1 in
    (r1 <| ready := ready r1 ++ [mkToken (e_to e) (message r1) fr] |>, Ok tt).

(** [grp] is the fresh [uuid()] naming the parallel group. *)
Definition advance (p : PipelineDefinition) (n : NodeDefinition) (condition : string)
    (grp : string) : M Run bool := fun r =>
  if String.eqb (n_type n) "output" then
    if negb (bool_decide (frames r = [])) || negb (bool_decide (length (ready r) = 0%nat))
       || negb (bool_decide (size (joins r) = 0%nat))
    then (r, Throw (err Execution "Parallel branches must converge before output"))
    else (r, Ok false)
  else
    let out := filter (edge_matches n condition) (edges p) in
    let parallel := String.eqb (n_type n) "parallel" in
    (m_guard (bool_decide (length out = 0%nat)) Execution "No matching outgoing edge" ;;;
     m_guard (negb parallel && negb (Nat.eqb (length out) 1)) Execution "Ambiguous routing result" ;;;
     m_iter (take_edge parallel n grp (length out)) (imap pair out) ;;;
     do r' <- m_get;
     m_guard (256 <? Z.of_nat (length (ready r'))) Execution "Ready branch limit exceeded" ;;;
     if parallel then m_ret true else next_ready) r.

(** ** Node results

    [src/nodes/nodes.cpp] and [include/laso/nodes/node.hpp]: the nodes that are computed by the
    runtime itself, with the branch condition each returns.  Values compare
    by [json_eqb]; [validate] is [SchemaValidator::validate]. *)

Record NodeResult := mkResult { nr_message : Message; nr_condition : string }.

Definition push_provenance (m : Message) (pr : ProvenanceRecord) : Message :=
  m <| provenance := provenance m ++ [pr] |>.

Section NodeExecution.
Context (validate : string -> Json -> res unit).

(** [PassthroughNode::execute]: input, output, approval, parallel, join, subpipeline. *)
Definition passthrough_execute (m : Message) : NodeResult := mkResult m "".

(** [RouterNode::execute]; a validator without a schema also records its verdict. *)
Definition router_accepts (n : NodeDefinition) (m : Message) : bool :=
  match member (payload m) (field n) with
  | Some v => json_eqb v (n_value n)
  | None => false
  end.
Definition router_execute (n : NodeDefinition) (now : string) (m : Message) : NodeResult :=
  let verdict := if router_accepts n m then "accepted"%string else "rejected"%string in
  let m' := if String.eqb (n_type n) "validator"
            then push_provenance m (mkProvenance (n_id n) "" "" "" "" (m_id m) verdict now "")
            else m in
  mkResult m' verdict.

(** [ValidatorNode::execute] *)
Definition validator_execute (n : NodeDefinition) (now : string) (m : Message) : res NodeResult :=
  if empty_str (schema n) then Ok (router_execute n now m)
  else validate (schema n) (payload m) ≫= fun _ =>
       Ok (mkResult (push_provenance m
             (mkProvenance (n_id n) "" "" "" "" (m_id m) "validated" now "")) "accepted").

(** [LoopNode::execute]; [visit] is one more than the completed visits of the node. *)
Definition loop_execute (maximum visit : Z) (m : Message) : NodeResult :=
  mkResult m (if visit <=? maximum then "repeat" else "done").
End NodeExecution.

(** ** Lemmas *)

(** *** Edge keys name one edge *)

Lemma app_split_first {A} (x : A) l l' m m' :
  x ∉ l -> x ∉ l' -> l ++ x :: m = l' ++ x :: m' -> l = l' /\ m = m'.
Proof.
  revert l'. induction l as [|a l IH]; intros [|a' l'] Hl Hl' H; simplify_eq/=.
  - done.
  - set_solver.
  - set_solver.
  - destruct (IH l') as [-> ->]; [set_solver..|done|done].
Qed.

Lemma ident_no_arrow s : identifier s = true -> ">"%char ∉ chars_of s.
Proof.
  unfold identifier. destruct (chars_of s) as [|c l]; [done|].
  rewrite !andb_true_iff, forallb_forall. intros [[Hc Hl] _].
  intros [<-|H]%elem_of_cons; [done|]. apply list_elem_of_In in H.
  by apply Hl in H.
Qed.

Lemma edge_key_inj p e e' :
  edge_ok p e -> edge_ok p e' -> edge_key e = edge_key e' -> edge_path e = edge_path e'.
Proof.
  intros (Hf & Ht & _) (Hf' & Ht' & _) H. unfold edge_key in H.
  apply (f_equal chars_of) in H. rewrite !chars_of_app in H.
  change (chars_of "->") with (["-"; ">"]%char) in H.
  assert (Hr : forall (a b : chars), a ++ ["-"; ">"]%char ++ b = (a ++ ["-"%char]) ++ ">"%char :: b).
  { intros a b. by rewrite <- app_assoc. }
  rewrite !Hr in H. apply app_split_first in H as [H1 H2].
  - apply app_inj_tail in H1 as [H1 _].
    unfold edge_path. by rewrite (chars_of_inj _ _ H1), (chars_of_inj _ _ H2).
  - apply ident_no_arrow in Hf. set_solver.
  - apply ident_no_arrow in Hf'. set_solver.
Qed.

Lemma nodup_path_inj (es : list EdgeDefinition) e e' :
  NoDup (map edge_path es) -> e ∈ es -> e' ∈ es -> edge_path e = edge_path e' -> e = e'.
Proof.
  induction es as [|x es IH]; [set_solver|]. simpl. intros [Hx Hn]%NoDup_cons He He' Heq.
  assert (Hin : forall y, y ∈ es -> edge_path y ∈ map edge_path es).
  { intros y Hy. apply list_elem_of_fmap. eauto. }
  apply elem_of_cons in He as [->|He]; apply elem_of_cons in He' as [->|He']; [done|..|by apply IH];
    exfalso; apply Hx; [rewrite Heq|rewrite <- Heq]; by apply Hin.
Qed.

(** *** Routing in an accepted pipeline *)

(** Definitions are keyed by their own identifier, as [parse_pipeline] builds them. *)
Definition ids_match (p : PipelineDefinition) : Prop :=
  forall id n, nodes p !! id = Some n -> n_id n = id.

(** The conditions a node of a built-in conditional type can return. *)
Definition result_allowed (ty cond : string) : Prop :=
  conditional_type ty = true -> cond ∈ expected_conditions ty.

Lemma matching_outgoing p n cond :
  filter (edge_matches n cond) (edges p) =
  filter (fun e => e_condition e = ""%string \/ e_condition e = cond) (outgoing p (n_id n)).
Proof. unfold outgoing, edge_matches. rewrite list_filter_filter. apply list_filter_iff. tauto. Qed.

Lemma two_conditions (es : list EdgeDefinition) (a b : string) :
  a <> b -> length es = 2%nat -> conditions_of es = {[a; b]} ->
  exists e1 e2, es = [e1; e2] /\
    ((e_condition e1 = a /\ e_condition e2 = b) \/ (e_condition e1 = b /\ e_condition e2 = a)).
Proof.
  intros Hab Hl Hc. destruct es as [|e1 [|e2 [|]]]; try done. exists e1, e2. split; [done|].
  assert (Hx : forall x, x = e_condition e1 \/ x = e_condition e2 <-> x = a \/ x = b).
  { intros x. transitivity (x ∈ conditions_of [e1; e2]).
    - unfold conditions_of. rewrite elem_of_list_to_set. simpl.
      rewrite !elem_of_cons, elem_of_nil. tauto.
    - rewrite Hc. by rewrite elem_of_union, !elem_of_singleton. }
  pose proof (proj2 (Hx a)). pose proof (proj2 (Hx b)). pose proof (proj1 (Hx (e_condition e1))).
  pose proof (proj1 (Hx (e_condition e2))). intuition congruence.
Qed.

Lemma routing_unique_edge p ext n cond :
  validate_pipeline p ext = Ok tt -> nodes p !! n_id n = Some n ->
  n_id n <> "output"%string -> n_type n <> "parallel"%string -> result_allowed (n_type n) cond ->
  exists e, filter (edge_matches n cond) (edges p) = [e] /\ e ∈ outgoing p (n_id n).
Proof.
  intros ((_ & _ & _ & _ & _ & _ & _ & Hout) & _)%validate_pipeline_accepts Hn Hid Hty Hcond.
  apply Hout in Hn. clear Hout. unfold validate_outgoing in Hn.
  apply String.eqb_neq in Hid, Hty. rewrite Hid, seq_unit_ok, Hty in Hn.
  destruct Hn as [_ Hn]. rewrite matching_outgoing. set (es := outgoing p (n_id n)) in *.
  destruct (conditional_type (n_type n)) eqn:Hct.
  - specialize (Hcond Hct). rewrite throw_if_ok, orb_false_iff, !negb_false_iff in Hn.
    destruct Hn as [Hc Hl]. apply bool_decide_eq_true in Hc. apply Nat.eqb_eq in Hl.
    unfold expected_conditions in *.
    assert (H : exists a b, a <> b /\ a <> ""%string /\ b <> ""%string /\
      conditions_of es = {[a; b]} /\ cond ∈ ({[a; b]} : gset string)).
    { destruct (String.eqb (n_type n) "loop"); rewrite Hc in *;
        do 2 eexists; (split_and!; [| | |reflexivity|done]); done. }
    destruct H as (a & b & Hab & Ha & Hb & Hc' & Hin).
    destruct (two_conditions es a b Hab Hl Hc') as (e1 & e2 & E & H12). rewrite E.
    assert (cond = a \/ cond = b) by set_solver.
    rewrite !filter_cons, filter_nil.
    repeat case_decide; try (exists e1; split; [done|set_solver]);
      try (exists e2; split; [done|set_solver]); exfalso; intuition congruence.
  - rewrite throw_if_ok, orb_false_iff, negb_false_iff in Hn. destruct Hn as [Hl He].
    apply Nat.eqb_eq in Hl. destruct es as [|e [|]]; try done. exists e. split; [|set_solver].
    simpl in He. rewrite orb_false_r, negb_false_iff in He. apply String.eqb_eq in He.
    rewrite filter_cons, filter_nil, decide_True; auto.
Qed.

(** *** Sequential routing *)

Definition edge_visits_of (r : Run) (e : EdgeDefinition) : Z :=
  default 0 (edge_visits r !! edge_key e).

Definition spend_edge (e : EdgeDefinition) (r : Run) : Run :=
  if e_max_iterations e =? 0 then r
  else r <| edge_visits := <[edge_key e := u32 (edge_visits_of r e + 1)]> (edge_visits r) |>.

Definition enter (e : EdgeDefinition) (r : Run) : Run :=
  (((r <| ready := [] |>) <| active_node := e_to e |>) <| prepared_join := ""%string |>).

Lemma advance_sequential p n cond grp r e :
  n_type n <> "output"%string -> n_type n <> "parallel"%string ->
  filter (edge_matches n cond) (edges p) = [e] -> ready r = [] ->
  advance p n cond grp r =
  if negb (e_max_iterations e =? 0) && (e_max_iterations e <? u32 (edge_visits_of r e + 1))
  then (spend_edge e r, Throw (err Execution "Edge iteration limit exceeded"))
  else (enter e (spend_edge e r), Ok true).
Proof.
  intros Ho Hp E Hr. apply String.eqb_neq in Ho, Hp. unfold advance. rewrite Ho, Hp, E. simpl.
  unfold m_bind, m_guard, m_ret, take_edge, edge_visits_of, spend_edge. simpl.
  destruct (e_max_iterations e =? 0) eqn:Hz; simpl.
  - rewrite Hr. simpl. by destruct r.
  - destruct (e_max_iterations e <? _); simpl; [done|]. rewrite Hr. simpl. by destruct r.
Qed.

(** One successful sequential move of a run along an edge. *)
Inductive route_step (p : PipelineDefinition) (r : Run) (e : EdgeDefinition) : Run -> Prop :=
  | route_step_intro n cond grp r' :
      nodes p !! active_node r = Some n -> n_id n = active_node r ->
      n_type n <> "output"%string -> n_type n <> "parallel"%string ->
      filter (edge_matches n cond) (edges p) = [e] -> ready r = [] ->
      advance p n cond grp r = (r', Ok true) ->
      route_step p r e r'.

Inductive route (p : PipelineDefinition) : Run -> list EdgeDefinition -> Run -> Prop :=
  | route_nil r : route p r [] r
  | route_cons r e r1 es r2 : route_step p r e r1 -> route p r1 es r2 -> route p r (e :: es) r2.

Definition budgets_in_range (p : PipelineDefinition) : Prop :=
  Forall (fun e => 0 <= e_max_iterations e <= 10000) (edges p).

(** Times [e] occurs in a route. *)
Definition uses (e : EdgeDefinition) (es : list EdgeDefinition) : Z :=
  Z.of_nat (length (filter (fun x => edge_path x = edge_path e) es)).

Lemma uses_cons e x es :
  uses e (x :: es) = (if decide (edge_path x = edge_path e) then 1 else 0) + uses e es.
Proof. unfold uses. rewrite filter_cons. case_decide; simpl; lia. Qed.

Lemma route_step_facts p r e r' :
  route_step p r e r' ->
  e ∈ edges p /\ e_from e = active_node r /\ e_to e = active_node r' /\
  (e_max_iterations e = 0 -> edge_visits r' = edge_visits r) /\
  (e_max_iterations e <> 0 ->
     edge_visits r' = <[edge_key e := u32 (edge_visits_of r e + 1)]> (edge_visits r) /\
     u32 (edge_visits_of r e + 1) <= e_max_iterations e).
Proof.
  intros [n cond grp r1 Hn Hid Ho Hp E Hr Ha]. rewrite (advance_sequential _ _ _ _ _ e) in Ha by done.
  assert (He : e ∈ filter (edge_matches n cond) (edges p)) by (rewrite E; set_solver).
  apply list_elem_of_filter in He as [[Hf _] He]. unfold spend_edge in Ha.
  destruct (Z.eqb_spec (e_max_iterations e) 0) as [Hz|Hz]; simpl in Ha.
  - simplify_eq. split_and!; [done|congruence|done|done|done].
  - destruct (Z.ltb_spec (e_max_iterations e) (u32 (edge_visits_of r e + 1))); simplify_eq.
    split_and!; [done|congruence|done|done|]. intros _. split; [done|lia].
Qed.

(** The recorded visits count the uses of a bounded edge, and stay within its budget. *)
Lemma route_budget p ext r es r' :
  validate_pipeline p ext = Ok tt -> budgets_in_range p -> route p r es r' ->
  forall e, e ∈ edges p -> e_max_iterations e <> 0 ->
  0 <= edge_visits_of r e <= e_max_iterations e ->
  edge_visits_of r' e = edge_visits_of r e + uses e es /\ edge_visits_of r' e <= e_max_iterations e.
Proof.
  intros ((_ & _ & _ & _ & _ & Hok & Hnd & _) & _)%validate_pipeline_accepts Hb Hr e He Hz.
  induction Hr as [r|r x r1 es r2 Hs Hr IH]; intros Hv; [unfold uses; simpl; lia|].
  apply route_step_facts in Hs as (Hx & _ & _ & Hx0 & Hx1).
  rewrite uses_cons. unfold budgets_in_range in Hb. rewrite Forall_forall in Hok, Hb.
  assert (Hkey : edge_key x = edge_key e -> x = e).
  { intros Hk. eapply nodup_path_inj; [done..|]. by eapply edge_key_inj; eauto. }
  assert (H1 : edge_visits_of r1 e
    = (if decide (edge_path x = edge_path e) then 1 else 0) + edge_visits_of r e
    /\ edge_visits_of r1 e <= e_max_iterations e).
  { case_decide as Hd.
    - assert (x = e) as -> by (by eapply nodup_path_inj). destruct (Hx1 Hz) as [Hev Hle].
      specialize (Hb e He). unfold edge_visits_of in *. rewrite Hev, lookup_insert_eq. simpl.
      unfold u32 in *. rewrite Z.mod_small in * by lia. lia.
    - assert (Hne : edge_key x <> edge_key e) by (intros Hk; apply Hd; by rewrite (Hkey Hk)).
      unfold edge_visits_of in *. destruct (decide (e_max_iterations x = 0)) as [E0|E0].
      + rewrite (Hx0 E0). lia.
      + destruct (Hx1 E0) as [-> _]. rewrite lookup_insert_ne by done. lia. }
  destruct H1 as [H1 H1']. destruct IH as [IH1 IH2]; [|lia].
  case_decide; lia.
Qed.

(** *** Every route is finite *)

(** Consecutive edges, from one node to another. *)
Inductive walk : string -> list EdgeDefinition -> string -> Prop :=
  | walk_nil x : walk x [] x
  | walk_cons e es y : walk (e_to e) es y -> walk (e_from e) (e :: es) y.

Lemma route_walk p r es r' : route p r es r' -> walk (active_node r) es (active_node r').
Proof.
  induction 1 as [|r e r1 es r2 Hs Hr IH]; [constructor|].
  apply route_step_facts in Hs as (_ & <- & Ht & _). constructor. by rewrite Ht.
Qed.

Lemma route_edges p r es r' : route p r es r' -> Forall (fun e => e ∈ edges p) es.
Proof.
  induction 1 as [|r e r1 es r2 Hs Hr IH]; constructor; [|done].
  by apply route_step_facts in Hs as [? _].
Qed.

(** A walk along unbounded edges of an accepted pipeline never returns to a node. *)
Lemma walk_clos p x es y :
  walk x es y -> Forall (fun e => e ∈ edges p /\ e_max_iterations e = 0) es -> es <> [] ->
  clos_trans _ (step_unbounded p) x y.
Proof.
  induction 1 as [|e es y Hw IH]; [done|]. intros [[He Hz] Hes]%Forall_cons _.
  assert (Hstep : step_unbounded p (e_from e) (e_to e)) by (apply step_unbounded_edge; eauto).
  destruct es as [|e' es]; [inversion Hw; subst; by constructor|].
  eapply t_trans; [by constructor|]. by apply IH.
Qed.

Lemma walk_nodup p x es y :
  cycles_bounded p -> walk x es y ->
  Forall (fun e => e ∈ edges p /\ e_max_iterations e = 0) es -> NoDup (x :: map e_to es).
Proof.
  intros Hc Hw. induction Hw as [x|e es y Hw IH]; intros Hes; [apply NoDup_singleton|].
  pose proof Hes as [_ Hes']%Forall_cons. simpl. apply NoDup_cons. split; [|by apply IH].
  intros Hin. apply (Hc (e_from e)).
  assert (Hpre : forall z es0 y0, walk z es0 y0 ->
    Forall (fun e => e ∈ edges p /\ e_max_iterations e = 0) es0 ->
    forall w, w ∈ z :: map e_to es0 -> w = z \/ clos_trans _ (step_unbounded p) z w).
  { clear. induction 1 as [z|e es y Hw IH]; intros Hes w Hin; [set_solver|].
    apply Forall_cons in Hes as [[He Hz] Hes]. simpl in Hin.
    assert (Hst : clos_trans _ (step_unbounded p) (e_from e) (e_to e))
      by (constructor; apply step_unbounded_edge; eauto).
    apply elem_of_cons in Hin as [->|Hin]; [by left|]. right.
    destruct (IH Hes w Hin) as [->|H]; [done|]. by eapply t_trans. }
  apply Forall_cons in Hes as [[He Hz] _].
  assert (Hst : clos_trans _ (step_unbounded p) (e_from e) (e_to e))
    by (constructor; apply step_unbounded_edge; eauto).
  destruct (Hpre _ _ _ Hw Hes' _ Hin) as [Heq|H]; [by rewrite <- Heq in Hst|].
  by eapply t_trans.
Qed.

Lemma unbounded_walk_short p x es y :
  closed_graph p -> cycles_bounded p -> walk x es y -> x ∈ dom (nodes p) ->
  Forall (fun e => e ∈ edges p /\ e_max_iterations e = 0) es ->
  (length es < size (nodes p))%nat.
Proof.
  intros Hcl Hcb Hw Hx Hu. pose proof (walk_nodup p x es y Hcb Hw Hu) as Hnd.
  assert (Hsub : (list_to_set (x :: map e_to es) : gset string) ⊆ dom (nodes p)).
  { intros z. rewrite elem_of_list_to_set. intros [->|Hz]%elem_of_cons; [done|].
    apply list_elem_of_fmap in Hz as (e & -> & He). rewrite Forall_forall in Hu.
    by apply Hcl, Hu. }
  apply subseteq_size in Hsub. rewrite size_list_to_set, size_dom in Hsub by done.
  cbn [length] in Hsub. rewrite length_map in Hsub. lia.
Qed.

Lemma walk_snoc x es e : walk x es (e_from e) -> walk x (es ++ [e]) (e_to e).
Proof.
  remember (e_from e) as y eqn:Hy. induction 1 as [|e' es y Hw IH]; subst; simpl.
  - constructor. constructor.
  - constructor. by apply IH.
Qed.

Definition bounded_edges (es : list EdgeDefinition) : list EdgeDefinition :=
  filter (fun e => e_max_iterations e <> 0) es.

(** Splitting a walk at its bounded edges, fewer than [N] moves lead up to each of them; [pre] is
    the unbounded stretch already walked. *)
Lemma walk_length_from p x es y :
  closed_graph p -> cycles_bounded p -> walk x es y -> Forall (fun e => e ∈ edges p) es ->
  forall pre x0, walk x0 pre x -> x0 ∈ dom (nodes p) ->
  Forall (fun e => e ∈ edges p /\ e_max_iterations e = 0) pre ->
  (length pre + length es < size (nodes p) * S (length (bounded_edges es)))%nat.
Proof.
  intros Hcl Hcb Hw. induction Hw as [x|e es y Hw IH]; intros Hes pre x0 Hpre Hx0 Hu;
    pose proof (unbounded_walk_short p _ _ _ Hcl Hcb Hpre Hx0 Hu) as Hl.
  - simpl. lia.
  - apply Forall_cons in Hes as [He Hes]. unfold bounded_edges in *. rewrite filter_cons.
    case_decide as Hz; cbn [length].
    + assert (Hd : e_to e ∈ dom (nodes p)) by by apply Hcl.
      specialize (IH Hes [] (e_to e) (walk_nil _) Hd (List.Forall_nil _)). simpl in IH. lia.
    + assert (Hz0 : e_max_iterations e = 0) by (destruct (decide (e_max_iterations e = 0)); tauto).
      specialize (IH Hes (pre ++ [e]) x0 (walk_snoc _ _ _ Hpre) Hx0).
      rewrite length_app in IH. cbn [length] in IH.
      assert (Forall (fun e => e ∈ edges p /\ e_max_iterations e = 0) (pre ++ [e])) as Hu'.
      { apply Forall_app. split; [done|]. by constructor. }
      specialize (IH Hu'). lia.
Qed.

(** Sums over the declared edges. *)
Definition sum_over {A} (f : A -> Z) (l : list A) : Z := foldr (fun x acc => f x + acc) 0 l.

Lemma sum_over_add {A} (f g : A -> Z) l :
  sum_over (fun x => f x + g x) l = sum_over f l + sum_over g l.
Proof. induction l; simpl; lia. Qed.
Lemma sum_over_le {A} (f g : A -> Z) l :
  (forall x, x ∈ l -> f x <= g x) -> sum_over f l <= sum_over g l.
Proof.
  induction l as [|x l IH]; intros H; simpl; [lia|].
  pose proof (H x ltac:(set_solver)). specialize (IH ltac:(set_solver)). lia.
Qed.
Lemma sum_over_ext {A} (f g : A -> Z) l :
  (forall x, x ∈ l -> f x = g x) -> sum_over f l = sum_over g l.
Proof. intros H. apply Z.le_antisymm; apply sum_over_le; intros x Hx; rewrite (H x Hx); lia. Qed.
Lemma sum_over_zero {A} (f : A -> Z) l : (forall x, x ∈ l -> f x = 0) -> sum_over f l = 0.
Proof. intros H. rewrite (sum_over_ext f (fun _ => 0)) by done. clear. induction l; simpl; lia. Qed.

Definition same_path (x e : EdgeDefinition) : Z :=
  if decide (edge_path x = edge_path e) then 1 else 0.

Lemma sum_same_path x l :
  NoDup (map edge_path l) -> x ∈ l -> sum_over (same_path x) l = 1.
Proof.
  induction l as [|e l IH]; [set_solver|]. simpl. intros [Hni Hnd]%NoDup_cons Hx.
  unfold same_path at 1. case_decide as Hd.
  - rewrite sum_over_zero; [lia|]. intros y Hy. unfold same_path. rewrite decide_False; [done|].
    intros Heq. apply Hni. rewrite <- Hd, Heq. apply list_elem_of_fmap. eauto.
  - apply elem_of_cons in Hx as [->|Hx]; [done|]. rewrite IH by done. lia.
Qed.

Lemma NoDup_bounded l : NoDup (map edge_path l) -> NoDup (map edge_path (bounded_edges l)).
Proof.
  induction l as [|x l IH]; [done|]. simpl. intros [Hni Hnd]%NoDup_cons.
  unfold bounded_edges in *. rewrite filter_cons. case_decide; [|by apply IH].
  simpl. apply NoDup_cons. split; [|by apply IH].
  intros (y & Hy & [_ Hin]%list_elem_of_filter)%list_elem_of_fmap. apply Hni.
  rewrite Hy. apply list_elem_of_fmap. eauto.
Qed.

Lemma uses_total p es :
  NoDup (map edge_path (edges p)) -> Forall (fun e => e ∈ edges p) es ->
  Z.of_nat (length (bounded_edges es)) = sum_over (fun e => uses e es) (bounded_edges (edges p)).
Proof.
  intros Hnd. induction es as [|x es IH]; intros Hes.
  { simpl. by rewrite sum_over_zero. }
  apply Forall_cons in Hes as [Hx Hes]. specialize (IH Hes).
  rewrite (sum_over_ext _ (fun e => same_path x e + uses e es)) by (intros; apply uses_cons).
  rewrite sum_over_add, <- IH. unfold bounded_edges at 1. rewrite filter_cons. case_decide as Hz.
  - rewrite sum_same_path; [|by apply NoDup_bounded|by apply list_elem_of_filter].
    change (filter (fun e => e_max_iterations e <> 0) es) with (bounded_edges es). simpl. lia.
  - rewrite sum_over_zero; [done|]. intros e [Hez He]%list_elem_of_filter. unfold same_path.
    rewrite decide_False; [done|]. intros Heq. apply Hez. by rewrite <- (nodup_path_inj _ _ _ Hnd Hx He Heq).
Qed.

(** The sum of the budgets of a definition. *)
Definition total_budget (p : PipelineDefinition) : Z :=
  sum_over e_max_iterations (bounded_edges (edges p)).

Lemma route_length p ext r es r' :
  validate_pipeline p ext = Ok tt -> budgets_in_range p -> active_node r ∈ dom (nodes p) ->
  edge_visits r = ∅ -> route p r es r' ->
  Z.of_nat (length es) < Z.of_nat (size (nodes p)) * (total_budget p + 1).
Proof.
  intros Hv Hb Ha Hev Hr.
  pose proof Hv as ((_ & _ & _ & _ & _ & Hok & Hnd & _) & Hcb & _)%validate_pipeline_accepts.
  pose proof (route_edges _ _ _ _ Hr) as Hes.
  assert (Hlen : Z.of_nat (length (bounded_edges es)) <= total_budget p).
  { rewrite (uses_total p es Hnd Hes). apply sum_over_le.
    intros e [Hz He]%list_elem_of_filter. assert (Hv0 : edge_visits_of r e = 0).
    { unfold edge_visits_of. by rewrite Hev, lookup_empty. }
    pose proof Hb as Hb'. unfold budgets_in_range in Hb'. rewrite Forall_forall in Hb'.
    specialize (Hb' e He).
    destruct (route_budget p ext r es r' Hv Hb Hr e He Hz) as [Hu Hle]; [lia|].
    unfold total_budget in *. lia. }
  pose proof (walk_length_from p _ _ _ (edges_ok_closed _ Hok) Hcb (route_walk _ _ _ _ Hr) Hes
    [] _ (walk_nil _) Ha (List.Forall_nil _)) as H. simpl in H. nia.
Qed.

(** *** Collecting the branches of a parallel group *)

#[global] Instance index_le_total {V} : Total (@index_le V).
Proof. intros a b. unfold index_le. lia. Qed.
#[global] Instance index_le_trans {V} : Transitive (@index_le V).
Proof. intros a b c. unfold index_le. lia. Qed.

(** A map whose indices are those of [l], in increasing order, lists as [l]. *)
Lemma index_items_eq {V} (m : gmap Z V) (l : list (Z * V)) :
  StronglySorted (fun a b => a.1 < b.1) l -> (forall k v, (k, v) ∈ l <-> m !! k = Some v) ->
  index_items m = l.
Proof.
  intros Hs Hm.
  assert (Hnd : NoDup l).
  { clear Hm. induction Hs as [|a l Hs IH Ha]; constructor; [|done].
    intros Hin. rewrite Forall_forall in Ha. specialize (Ha a Hin). lia. }
  apply (StronglySorted_unique_strong index_le).
  - intros [k1 v1] [k2 v2] H1 H2. unfold index_le. simpl. intros Ha Hb. assert (k1 = k2) as -> by lia.
    unfold index_items in H1. rewrite merge_sort_Permutation, elem_of_map_to_list in H1.
    apply Hm in H2. congruence.
  - apply Sorted_StronglySorted; [apply _|]. apply Sorted_merge_sort. apply _.
  - clear -Hs. induction Hs as [|a l Hs IH Ha]; constructor; [done|].
    eapply Forall_impl; [done|]. unfold index_le. intros; simpl in *; lia.
  - unfold index_items. rewrite merge_sort_Permutation. apply NoDup_Permutation.
    + apply NoDup_map_to_list.
    + done.
    + intros [k v]. by rewrite elem_of_map_to_list, Hm.
Qed.


Section Collecting.
Context (checkpoint : string -> M Run unit).
(** The checkpoint writes the run to the store; it does not touch the collected branches. *)
Hypothesis checkpoint_joins :
  forall ev r r' x, checkpoint ev r = (r', x) -> joins r' = joins r.
Variables (n : NodeDefinition) (g : string) (w : Z).

(** Branch [im.1] reaches the join in state [r] with message [im.2]. *)
Definition arriving (r : Run) (im : Z * Message) : Prop :=
  message r = im.2 /\ last (frames r) = Some (mkFrame g (n_id n) w im.1)
  /\ prepared_join r <> n_id n.

(** [collected arr m]: the branches [arr] arrived in this order, each call of [prepare_join]
    parked its branch, whatever else the run did in between, and [m] is the group's map. *)
Inductive collected : list (Z * Message) -> gmap Z Message -> Prop :=
  | collected_nil : collected [] ∅
  | collected_snoc arr m r r' im :
      collected arr m -> default ∅ (joins r !! g) = m -> arriving r im ->
      prepare_join checkpoint n r = (r', Ok false) ->
      collected (arr ++ [im]) (default ∅ (joins r' !! g)).

Lemma next_ready_joins r r' x : next_ready r = (r', x) -> joins r' = joins r.
Proof. unfold next_ready. destruct (ready r); intros; simplify_eq/=; done. Qed.

Lemma prepare_join_at r im :
  n_type n = "join"%string -> arriving r im ->
  let m := default ∅ (joins r !! g) in
  m !! im.1 = None ->
  prepare_join checkpoint n r =
    let m' := <[im.1 := im.2]> m in
    let r1 := r <| joins := <[g := m']> (joins r) |> in
    if Z.of_nat (size m') =? w then
      ((((r1 <| message := (message r) <| payload := join_payload m' |> |>)
          <| frames := removelast (frames r) |>)
          <| joins := delete g (joins r1) |>)
          <| prepared_join := n_id n |>, Ok true)
    else
      (do more <- next_ready;
       if (more : bool) then checkpoint "join.waiting" ;;; m_ret false
       else m_throw Execution "Join has missing branches") r1.
Proof.
  intros Ht (Hm & Hl & Hp) m Hnone. unfold prepare_join. rewrite Ht. simpl.
  apply String.eqb_neq in Hp. rewrite Hp, Hl. simpl. rewrite String.eqb_refl. simpl.
  subst m. rewrite Hnone, Hm. done.
Qed.

(** A parked branch is recorded under its index, which was free. *)
Lemma prepare_join_parks r r' im :
  n_type n = "join"%string -> arriving r im -> prepare_join checkpoint n r = (r', Ok false) ->
  let m := default ∅ (joins r !! g) in
  m !! im.1 = None /\ default ∅ (joins r' !! g) = <[im.1 := im.2]> m.
Proof.
  intros Ht Ha H m. destruct (m !! im.1) as [m0|] eqn:Hm.
  { destruct Ha as (H1 & Hl & Hp). unfold prepare_join in H. rewrite Ht in H. simpl in H.
    apply String.eqb_neq in Hp. rewrite Hp, Hl in H. simpl in H.
    rewrite String.eqb_refl in H. simpl in H. subst m. by rewrite Hm in H. }
  split; [done|]. rewrite (prepare_join_at r im Ht Ha Hm) in H. simpl in H. fold m in H.
  destruct (_ =? w); [done|]. apply m_bind_ok in H as (r2 & more & H1 & H).
  destruct more; [|done]. apply m_bind_ok in H as (r3 & [] & H2 & H). injection H as <-.
  apply checkpoint_joins in H2. apply next_ready_joins in H1. rewrite H2, H1. simpl.
  by rewrite lookup_insert_eq.
Qed.

Lemma collected_map arr m :
  n_type n = "join"%string -> collected arr m -> NoDup arr.*1 /\ m = list_to_map (reverse arr).
Proof.
  intros Ht. induction 1 as [|arr m r r' im Hc [Hnd Hm] Hj Ha Hp].
  { split; [constructor|done]. }
  destruct (prepare_join_parks r r' im Ht Ha Hp) as [Hn ->].
  rewrite Hj in Hn |- *. rewrite reverse_snoc. simpl. rewrite Hm. destruct im as [i x]. split; [|done].
  rewrite fmap_app. apply NoDup_app. simpl in *. split; [done|]. split; [|apply NoDup_singleton].
  intros k Hk [->|[]%elem_of_nil]%elem_of_cons. rewrite Hm in Hn.
  apply not_elem_of_list_to_map in Hn. apply Hn. by rewrite fmap_reverse, elem_of_reverse.
Qed.

(** The message map of all the branches lists their messages by branch index. *)
Lemma join_payload_indexed (m : gmap Z Message) (msgs : list Message) arr :
  arr ≡ₚ imap (fun i x => (Z.of_nat i, x)) msgs -> m = list_to_map (reverse arr) ->
  size m = length msgs /\ join_payload m = JArray (map payload msgs).
Proof.
  intros Hp ->. set (im := imap (fun i x => (Z.of_nat i, x)) msgs) in *.
  assert (Hl : forall k x, (k, x) ∈ im <-> exists i, k = Z.of_nat i /\ msgs !! i = Some x).
  { intros k x. unfold im. rewrite elem_of_lookup_imap. naive_solver. }
  assert (Hnd : NoDup im.*1).
  { unfold im. rewrite fmap_imap.
    apply NoDup_alt. intros i j x. rewrite !list_lookup_imap.
    destruct (msgs !! i), (msgs !! j); simpl; intros; simplify_eq; lia. }
  assert (Hpr : reverse arr ≡ₚ im) by (by rewrite reverse_Permutation).
  assert (Hnd' : NoDup (reverse arr).*1) by (by rewrite Hpr).
  assert (Hix : index_items (list_to_map (reverse arr) : gmap Z Message) = im).
  { apply index_items_eq.
    - unfold im. clear. assert (H : forall k (l : list Message),
        StronglySorted (fun a b : Z * Message => a.1 < b.1)
          (imap (fun i x => (Z.of_nat (k + i), x)) l)).
      { intros k l. revert k. induction l as [|x l IH]; intros k; simpl; constructor.
        - rewrite (imap_ext _ (fun i x => (Z.of_nat (S k + i), x))); [apply IH|].
          intros; simpl; do 2 f_equal; lia.
        - apply Forall_forall. intros [j y]. rewrite elem_of_lookup_imap.
          intros (i & z & Heq & Hi). simpl in *. injection Heq. intros. lia. }
      apply (H 0%nat).
    - intros k x. rewrite <- Hpr. symmetry. split; [apply elem_of_list_to_map_2|].
      by apply elem_of_list_to_map_1. }
  split.
  - rewrite <- length_map_to_list. unfold index_items in Hix.
    rewrite <- (merge_sort_Permutation index_le), Hix. unfold im. by rewrite length_imap.
  - unfold join_payload. rewrite Hix. f_equal. unfold im.
    change ((fun x : Z * Message => payload x.2) <$> imap (fun i x => (Z.of_nat i, x)) msgs
      = payload <$> msgs).
    rewrite fmap_imap. trans (imap (const payload) msgs); [done|]. by rewrite imap_const.
Qed.
End Collecting.

(** ** Fan-out *)

(** The token queued for the [i]-th of [total] outgoing edges of a parallel node. *)
Definition branch_token (n : NodeDefinition) (grp : string) (total : nat) (m : Message)
    (fr : list BranchFrame) (ie : nat * EdgeDefinition) : ExecutionToken :=
  mkToken (e_to ie.2) m (fr ++ [mkFrame grp (n_join n) (Z.of_nat total) (Z.of_nat ie.1)]).

Lemma take_edges_ok n grp total l : forall r r',
  m_iter (take_edge true n grp total) l r = (r', Ok tt) ->
  ready r' = ready r ++ map (branch_token n grp total (message r) (frames r)) l
  /\ message r' = message r /\ frames r' = frames r /\ joins r' = joins r
  /\ active_node r' = active_node r.
Proof.
  induction l as [|[i e] l IH]; intros r r' H; simpl in H.
  { injection H as <-. by rewrite app_nil_r. }
  apply m_bind_ok in H as (r1 & [] & H1 & H). apply IH in H as (Hr & Hm & Hf & Hj & Ha).
  unfold take_edge in H1. destruct (_ && _); [done|]. injection H1 as <-.
  destruct (e_max_iterations e =? 0); simpl in *;
    (split_and!; [by rewrite Hr, <- app_assoc|done..]).
Qed.

Lemma advance_parallel p n cond grp r r' b :
  n_type n = "parallel"%string -> advance p n cond grp r = (r', Ok b) ->
  let out := filter (edge_matches n cond) (edges p) in
  b = true
  /\ ready r' = ready r
       ++ map (branch_token n grp (length out) (message r) (frames r)) (imap pair out)
  /\ message r' = message r /\ frames r' = frames r /\ joins r' = joins r
  /\ active_node r' = active_node r.
Proof.
  intros Ht H out. unfold advance in H. rewrite Ht in H. simpl in H. fold out in H.
  apply m_bind_ok in H as (r1 & [] & H1 & H). apply m_bind_ok in H as (r2 & [] & H2 & H).
  apply m_bind_ok in H as (r3 & [] & H3 & H). apply m_bind_ok in H as (r4 & r5 & H4 & H).
  apply m_bind_ok in H as (r6 & [] & H6 & H).
  unfold m_guard, m_ret, m_throw, m_get in *. simpl in H2.
  destruct (bool_decide _) in H1; simplify_eq. destruct (256 <? _) in H6; simplify_eq.
  apply take_edges_ok in H3. tauto.
Qed.

(** ** Properties of routing *)

(** Routing an accepted pipeline never fails to find an edge and never finds two.  When a
    node that is neither parallel nor an output finishes with a result its type allows, and no
    branch is waiting, [advance] follows the one matching edge: either the run enters its target
    (with the edge's counter spent), or the edge's iteration budget is exhausted, which is the
    only error. *)
Theorem advance_unique_route p ext n cond grp r :
  validate_pipeline p ext = Ok tt -> nodes p !! n_id n = Some n ->
  n_id n <> "output"%string -> n_type n <> "output"%string -> n_type n <> "parallel"%string ->
  result_allowed (n_type n) cond -> ready r = [] ->
  exists e, e ∈ outgoing p (n_id n) /\ (e_condition e = ""%string \/ e_condition e = cond) /\
  advance p n cond grp r =
    if negb (e_max_iterations e =? 0) && (e_max_iterations e <? u32 (edge_visits_of r e + 1))
    then (spend_edge e r, Throw (err Execution "Edge iteration limit exceeded"))
    else (enter e (spend_edge e r), Ok true).
Proof.
  intros Hv Hn Hid Ho Hp Hc Hr.
  destruct (routing_unique_edge p ext n cond Hv Hn Hid Hp Hc) as (e & He & Hin).
  exists e. split; [done|].
  assert (Hm : e ∈ filter (edge_matches n cond) (edges p)) by (rewrite He; set_solver).
  apply list_elem_of_filter in Hm as [[_ Hm] _]. split; [done|]. by apply advance_sequential.
Qed.

Definition sample_checked : NodeDefinition := (sample_node "check" "validator" "" "ok" "").2.
Definition sample_at_check : Run := (sample_run "r1") <| active_node := "check"%string |>.

Lemma advance_unique_route_witness :
  exists e, e ∈ outgoing sample_retry "check" /\
  (e_condition e = ""%string \/ e_condition e = "rejected"%string) /\
  advance sample_retry sample_checked "rejected" "g" sample_at_check =
    if negb (e_max_iterations e =? 0)
       && (e_max_iterations e <? u32 (edge_visits_of sample_at_check e + 1))
    then (spend_edge e sample_at_check, Throw (err Execution "Edge iteration limit exceeded"))
    else (enter e (spend_edge e sample_at_check), Ok true).
Proof.
  apply (advance_unique_route sample_retry ∅ sample_checked "rejected" "g" sample_at_check);
    try (vm_compute; reflexivity); try done.
Defined.

(** A bounded edge is followed at most [max_iterations] times: along any sequential route
    through an accepted pipeline, the counter kept in the run equals its value at the start plus
    the number of times the route used the edge, and never exceeds the edge's budget. *)
Theorem edge_budget_respected p ext r es r' :
  validate_pipeline p ext = Ok tt -> budgets_in_range p -> route p r es r' ->
  forall e, e ∈ edges p -> e_max_iterations e <> 0 ->
  0 <= edge_visits_of r e <= e_max_iterations e ->
  edge_visits_of r' e = edge_visits_of r e + uses e es /\ edge_visits_of r' e <= e_max_iterations e.
Proof. apply route_budget. Qed.

Lemma sample_budgets : budgets_in_range sample_retry.
Proof. repeat constructor; simpl; lia. Qed.

Definition sample_back : EdgeDefinition := mkEdge "check" "work" "rejected" 2.

Lemma sample_route : route sample_retry sample_at_check [sample_back]
    (enter sample_back (spend_edge sample_back sample_at_check)).
Proof.
  econstructor; [|constructor].
  apply (route_step_intro _ _ _ sample_checked "rejected" "g"); vm_compute; done.
Qed.

Lemma edge_budget_respected_witness :
  let r' := enter sample_back (spend_edge sample_back sample_at_check) in
  edge_visits_of r' sample_back = edge_visits_of sample_at_check sample_back
    + uses sample_back [sample_back]
  /\ edge_visits_of r' sample_back <= e_max_iterations sample_back.
Proof.
  apply (edge_budget_respected sample_retry ∅ sample_at_check [sample_back]).
  - vm_compute. reflexivity.
  - apply sample_budgets.
  - apply sample_route.
  - unfold sample_retry. simpl. set_solver.
  - done.
  - vm_compute. split; intros; discriminate.
Defined.

(** C30: Sequential execution of an accepted pipeline terminates: a route that starts with fresh
    edge counters makes fewer moves than the number of nodes times one more than the sum of the
    iteration budgets of the bounded edges, because every cycle contains a bounded edge. *)
Theorem sequential_route_terminates p ext r es r' :
  validate_pipeline p ext = Ok tt -> budgets_in_range p -> active_node r ∈ dom (nodes p) ->
  edge_visits r = ∅ -> route p r es r' ->
  Z.of_nat (length es) < Z.of_nat (size (nodes p)) * (total_budget p + 1).
Proof. apply route_length. Qed.

Lemma sequential_route_terminates_witness :
  Z.of_nat (length [sample_back])
    < Z.of_nat (size (nodes sample_retry)) * (total_budget sample_retry + 1).
Proof.
  apply (sequential_route_terminates sample_retry ∅ sample_at_check [sample_back]
    (enter sample_back (spend_edge sample_back sample_at_check))).
  - vm_compute. reflexivity.
  - apply sample_budgets.
  - apply has_node_dom. vm_compute. reflexivity.
  - reflexivity.
  - apply sample_route.
Defined.

(** A join delivers the branch results in branch order, whatever the order in which the
    branches arrive.  After all branches but one have been parked, in any order and with any
    other work of the run in between, the arrival of the last one completes the join: the payload
    becomes the array of the branch payloads by branch index, the group's collection is dropped,
    the branch frame is popped and the join is marked as prepared. *)
Theorem join_order_independent checkpoint n g msgs arr m r im :
  (forall ev s s' x, checkpoint ev s = (s', x) -> joins s' = joins s) ->
  n_type n = "join"%string ->
  collected checkpoint n g (Z.of_nat (length msgs)) arr m ->
  arr ++ [im] ≡ₚ imap (fun i x => (Z.of_nat i, x)) msgs ->
  default ∅ (joins r !! g) = m -> arriving n g (Z.of_nat (length msgs)) r im ->
  exists r', prepare_join checkpoint n r = (r', Ok true)
    /\ payload (message r') = JArray (map payload msgs)
    /\ joins r' = delete g (joins r)
    /\ frames r' = removelast (frames r)
    /\ prepared_join r' = n_id n
    /\ ready r' = ready r.
Proof.
  intros Hck Ht Hc Hperm Hj Ha. destruct (collected_map _ Hck _ _ _ _ _ Ht Hc) as [Hnd Hm].
  assert (Hnd' : NoDup (arr ++ [im]).*1).
  { rewrite Hperm, fmap_imap. apply NoDup_alt. intros i j x. rewrite !list_lookup_imap.
    destruct (msgs !! i), (msgs !! j); simpl; intros; simplify_eq; lia. }
  assert (Hfree : m !! im.1 = None).
  { rewrite Hm. apply not_elem_of_list_to_map. rewrite fmap_reverse, elem_of_reverse.
    rewrite fmap_app, NoDup_app in Hnd'. intros Hin. destruct Hnd' as (_ & H & _).
    apply (H _ Hin). set_solver. }
  rewrite (prepare_join_at checkpoint n g _ r im Ht Ha) by (by rewrite Hj). rewrite Hj.
  destruct (join_payload_indexed (<[im.1 := im.2]> m) msgs _ Hperm) as [Hs Hp].
  { rewrite reverse_snoc, Hm. by destruct im. }
  simpl. rewrite Hs, Z.eqb_refl. eexists. split; [done|]. simpl. split_and!; try done.
  by rewrite delete_insert_eq.
Qed.

(** Two branches; the second arrives first. *)
Definition sample_join : NodeDefinition := (sample_node "meet" "join" "" "" "").2.
Definition sample_arrival (i : Z) (js : gmap string (gmap Z Message)) : Run :=
  (((((sample_run "r1") <| message := sample_message "m" (JInt i) |>)
     <| frames := [mkFrame "g" "meet" 2 i] |>) <| joins := js |>)
     <| ready := [mkToken "meet" (sample_message "m" JNull) []] |>).
Definition sample_parked : gmap string (gmap Z Message) :=
  {[ "g"%string := {[ 1 := sample_message "m" (JInt 1) ]} ]}.

Lemma join_order_independent_witness :
  exists r', prepare_join (fun _ => m_ret tt) sample_join (sample_arrival 0 sample_parked) = (r', Ok true)
    /\ payload (message r')
       = JArray (map payload [sample_message "m" (JInt 0); sample_message "m" (JInt 1)])
    /\ joins r' = delete "g"%string (joins (sample_arrival 0 sample_parked))
    /\ frames r' = removelast (frames (sample_arrival 0 sample_parked))
    /\ prepared_join r' = n_id sample_join
    /\ ready r' = ready (sample_arrival 0 sample_parked).
Proof.
  apply (join_order_independent (fun _ => m_ret tt) sample_join "g"
    [sample_message "m" (JInt 0); sample_message "m" (JInt 1)]
    ([] ++ [(1, sample_message "m" (JInt 1))]) {[ 1 := sample_message "m" (JInt 1) ]}
    (sample_arrival 0 sample_parked) (0, sample_message "m" (JInt 0))).
  - intros ev s s' x [= <- _]. done.
  - reflexivity.
  - refine (collected_snoc (fun _ => m_ret tt) sample_join "g" 2 [] ∅ (sample_arrival 1 ∅)
      ((((((sample_arrival 1 ∅) <| joins := sample_parked |>) <| ready := [] |>)
        <| active_node := "meet"%string |>) <| message := sample_message "m" JNull |>)
        <| frames := [] |>) _ (collected_nil _ _ _ _) _ _ _).
    + reflexivity.
    + split_and!; [reflexivity|reflexivity|discriminate].
    + vm_compute. reflexivity.
  - simpl. apply perm_swap.
  - reflexivity.
  - split_and!; [reflexivity|reflexivity|discriminate].
Defined.

(** A parallel node queues exactly one token per outgoing edge, in the order of the
    definition, each carrying the run's message and a new innermost frame that names the group,
    the join, the number of branches and the branch's own index; nothing else of the run's
    position changes. *)
Theorem parallel_fan_out p n cond grp r r' b :
  n_type n = "parallel"%string -> advance p n cond grp r = (r', Ok b) ->
  let out := filter (edge_matches n cond) (edges p) in
  b = true
  /\ ready r' = ready r
       ++ map (branch_token n grp (length out) (message r) (frames r)) (imap pair out)
  /\ message r' = message r /\ frames r' = frames r /\ joins r' = joins r
  /\ active_node r' = active_node r.
Proof. apply advance_parallel. Qed.

Definition sample_split : NodeDefinition := (sample_node "split" "parallel" "" "" "meet").2.
Definition sample_branches : list ExecutionToken :=
  [mkToken "a" (message (sample_run "r1")) [mkFrame "g" "meet" 2 0];
   mkToken "b" (message (sample_run "r1")) [mkFrame "g" "meet" 2 1]].

Lemma parallel_fan_out_witness :
  let out := filter (edge_matches sample_split "") (edges sample_fan) in
  let r := sample_run "r1" in
  let r' := r <| ready := sample_branches |> in
  true = true
  /\ ready r' = ready r
       ++ map (branch_token sample_split "g" (length out) (message r) (frames r)) (imap pair out)
  /\ message r' = message r /\ frames r' = frames r /\ joins r' = joins r
  /\ active_node r' = active_node r.
Proof.
  apply (parallel_fan_out sample_fan sample_split "" "g" (sample_run "r1")
    ((sample_run "r1") <| ready := sample_branches |>) true); vm_compute; reflexivity.
Defined.
