(* ===== verification/Yaml.v ===== *)
(** * Reading pipeline documents

    [src/pipeline/parser.cpp]: the structural limits put on a YAML document, the typed field
    accessors, and [parse_pipeline], which builds a definition and validates it.  The YAML
    library is not part of the program: a loaded document is a tree [YNode], and the library
    functions the code calls are the fields of [YamlLib].  Anchors are expanded in the tree, as
    iterating over the library's nodes expands them. *)

From S2P Require Import Prelude Json Types Samples Text Pipeline Graph.

(** A loaded node: its tag and its content. *)
Inductive YNode :=
  | YNull (tag : string)
  | YScalar (tag : string) (text : string)
  | YSequence (tag : string) (items : list YNode)
  | YMap (tag : string) (pairs : list (YNode * YNode)).

Definition Tag (n : YNode) : string :=
  match n with YNull t | YScalar t _ | YSequence t _ | YMap t _ => t end.
Definition IsMap (n : YNode) : bool := match n with YMap _ _ => true | _ => false end.
Definition IsSequence (n : YNode) : bool := match n with YSequence _ _ => true | _ => false end.
Definition IsScalar (n : YNode) : bool := match n with YScalar _ _ => true | _ => false end.

(** The library: [LoadAll] and the conversions fail with [YAML::Exception] ([None]);
    [json_parse] is [Json::parse(s, nullptr, false)], [None] when the result is discarded. *)
Class YamlLib := {
  LoadAll : string -> option (list YNode);
  as_string : YNode -> option string;
  as_longlong : YNode -> option Z;
  json_parse : string -> option Json }.

(** ** Exceptions

    The code throws its own [Error]s and lets [YAML::Exception] through. *)
Inductive exc := LasoError (e : Error) | YamlException.
Inductive eres (A : Type) := EOk (a : A) | EThrow (x : exc).
Arguments EOk {A} _.
Arguments EThrow {A} _.
#[global] Instance eres_ret : MRet eres := fun A => EOk.
#[global] Instance eres_bind : MBind eres := fun A B f m =>
  match m with EOk a => f a | EThrow x => EThrow x end.

Definition lib {A} (o : option A) : eres A :=
  match o with Some a => EOk a | None => EThrow YamlException end.
Definition reject_if (cond : bool) (msg : string) : eres unit :=
  if cond then EThrow (LasoError (err Validation msg)) else EOk tt.
Fixpoint e_iter {A} (f : A -> eres unit) (l : list A) : eres unit :=
  match l with [] => EOk tt | x :: l => f x ≫= fun _ => e_iter f l end.
Fixpoint e_map {A B} (f : A -> eres B) (l : list A) : eres (list B) :=
  match l with [] => EOk [] | x :: l => y ← f x; ys ← e_map f l; EOk (y :: ys) end.
Fixpoint e_fold {A S} (f : S -> A -> eres S) (s : S) (l : list A) : eres S :=
  match l with [] => EOk s | x :: l => s' ← f s x; e_fold f s' l end.

Definition allowed_tags : list string :=
  [""; "?"; "!"; "tag:yaml.org,2002:map"; "tag:yaml.org,2002:seq"; "tag:yaml.org,2002:str";
   "tag:yaml.org,2002:int"; "tag:yaml.org,2002:float"; "tag:yaml.org,2002:bool";
   "tag:yaml.org,2002:null"]%string.

Section Documents.
Context `{YamlLib}.

(** ** Structural limits

    [inspect(node, depth, count)] threads [count]; the loop over a map also threads the set of
    keys seen. *)
Fixpoint inspect (n : YNode) (depth : Z) (count : Z) {struct n} : eres Z :=
  if (32 <? depth) || (20000 <? count + 1)
  then EThrow (LasoError (err Validation "YAML structure limit exceeded"))
  else
    _ ← reject_if (negb (str_in (Tag n) allowed_tags)) "Custom YAML tags are forbidden";
    match n with
    | YMap _ pairs =>
        (fix go (l : list (YNode * YNode)) (keys : gset string) (count : Z) : eres Z :=
           match l with
           | [] => EOk count
           | (k, v) :: l =>
               if negb (IsScalar k)
               then EThrow (LasoError (err Validation "Duplicate or non-scalar YAML key"))
               else
                 key ← lib (as_string k);
                 _ ← reject_if (bool_decide (key ∈ keys)) "Duplicate or non-scalar YAML key";
                 count ← inspect v (depth + 1) count;
                 go l ({[key]} ∪ keys) count
           end) pairs ∅ (count + 1)
    | YSequence _ items =>
        (fix go (l : list YNode) (count : Z) : eres Z :=
           match l with
           | [] => EOk count
           | v :: l => count ← inspect v (depth + 1) count; go l count
           end) items (count + 1)
    | _ => EOk (count + 1)
    end.

Definition load_safe_yaml (text : string) : eres YNode :=
  _ ← reject_if (max_document_bytes <? size_of text) "Configuration exceeds 1 MiB";
  documents ← lib (LoadAll text);
  match documents with
  | [doc] => _ ← inspect doc 0 0; EOk doc
  | _ => EThrow (LasoError (err Validation "Exactly one YAML document is required"))
  end.

(** ** Field access *)

(** [n[key]] on a mapping: the value of the first pair whose key converts to [key]. *)
Fixpoint find_pair (key : string) (l : list (YNode * YNode)) : option YNode :=
  match l with
  | [] => None
  | (k, v) :: l =>
      if bool_decide (as_string k = Some key) then Some v else find_pair key l
  end.
Definition subscript (n : YNode) (key : string) : option YNode :=
  match n with YMap _ pairs => find_pair key pairs | _ => None end.
Definition present (n : YNode) (key : string) : bool :=
  match subscript n key with Some _ => true | None => false end.

Definition keys (n : YNode) (allowed : list string) : eres unit :=
  match n with
  | YMap _ pairs =>
      e_iter (fun kv => key ← lib (as_string kv.1);
                        reject_if (negb (str_in key allowed)) "Unknown configuration field") pairs
  | _ => EThrow (LasoError (err Validation "Expected a mapping"))
  end.

Definition str (n : YNode) (key fallback : string) : eres string :=
  match subscript n key with Some v => lib (as_string v) | None => EOk fallback end.

Definition number (n : YNode) (key : string) (fallback min max : Z) : eres Z :=
  value ← (match subscript n key with Some v => lib (as_longlong v) | None => EOk fallback end);
  _ ← reject_if ((value <? min) || (max <? value)) "Numeric configuration out of bounds";
  EOk value.

Fixpoint yaml_value (n : YNode) : eres Json :=
  match n with
  | YNull _ => EOk JNull
  | YSequence _ items =>
      l ← (fix go (l : list YNode) : eres (list Json) :=
             match l with
             | [] => EOk []
             | v :: l => j ← yaml_value v; js ← go l; EOk (j :: js)
             end) items;
      EOk (JArray l)
  | YMap _ pairs =>
      o ← (fix go (l : list (YNode * YNode)) (acc : list (string * Json)) :=
             match l with
             | [] => EOk acc
             | (k, v) :: l =>
                 key ← lib (as_string k); j ← yaml_value v; go l (assoc_set key j acc)
             end) pairs [];
      EOk (JObject o)
  | YScalar tag _ =>
      s ← lib (as_string n);
      if String.eqb tag "!" then EOk (JString s)
      else EOk (default (JString s) (json_parse s))
  end.
Definition yaml_value_opt (n : option YNode) : eres Json :=
  match n with None => EOk JNull | Some n => yaml_value n end.

(** ** Pipelines *)

Definition root_keys : list string :=
  ["laso"; "name"; "version"; "nodes"; "edges"; "max_steps"; "timeout_ms"; "input_schema";
   "output_schema"]%string.
Definition node_keys : list string :=
  ["type"; "function"; "tool"; "model"; "pipeline"; "prompt"; "field"; "value"; "condition";
   "reason"; "join"; "max_attempts"; "retry_delay_ms"; "timeout_ms"; "max_iterations";
   "input_schema"; "output_schema"; "schema"; "worker"; "task_type"; "capability";
   "instructions"; "required_tool"]%string.
Definition edge_keys : list string := ["from"; "to"; "condition"; "max_iterations"]%string.
Definition binding_keys : list string := ["function"; "tool"; "model"; "pipeline"; "worker"]%string.

Definition expected_binding (ty : string) : string :=
  if String.eqb ty "agent" then "model"
  else if String.eqb ty "subpipeline" then "pipeline"
  else if String.eqb ty "worker" then "worker" else ty.

(** The loop over the binding keys: the binding of the last one present, and their number. *)
Definition node_binding (n : YNode) : eres (string * Z) :=
  e_fold (fun '(b, k) key =>
            if present n key then v ← str n key ""; EOk (v, k + 1) else EOk (b, k))
         (""%string, 0) binding_keys.

(** The body of the loop over [root["nodes"]]. *)
Definition parse_node (key n : YNode) : eres NodeDefinition :=
  _ ← keys n node_keys;
  id ← lib (as_string key);
  type ← str n "type" "";
  '(bind, bindings) ← node_binding n;
  _ ← reject_if (1 <? bindings) "Only one node binding is permitted";
  _ ← reject_if (negb (bindings =? 0) && negb (present n (expected_binding type)))
        "Binding field does not match node type";
  prompt ← str n "prompt" "";
  field ← str n "field" "";
  condition ← str n "condition" "";
  reason ← str n "reason" "Human review requested";
  join ← str n "join" "";
  input_schema ← str n "input_schema" "";
  output_schema ← str n "output_schema" "";
  schema ← str n "schema" "";
  task_type ← str n "task_type" "";
  capability ← str n "capability" "";
  instructions ← str n "instructions" prompt;
  required_tool ← str n "required_tool" "";
  value ← yaml_value_opt (subscript n "value");
  attempts ← number n "max_attempts" 1 1 10;
  delay ← number n "retry_delay_ms" 0 0 60000;
  timeout ← number n "timeout_ms" 30000 1 3600000;
  iterations ← number n "max_iterations" 0 0 10000;
  EOk (mkNode id type bind prompt field condition reason join input_schema output_schema schema
         task_type capability instructions required_tool value (mkRetry attempts delay) timeout
         iterations).

Definition parse_edge (e : YNode) : eres EdgeDefinition :=
  _ ← keys e edge_keys;
  from ← str e "from" "";
  to ← str e "to" "";
  condition ← str e "condition" "";
  iterations ← number e "max_iterations" 0 0 10000;
  EOk (mkEdge from to condition iterations).

(** [map::emplace] and [map::try_emplace] keep an existing entry. *)
Definition emplace (k : string) (d : NodeDefinition) (m : gmap string NodeDefinition) :=
  match m !! k with Some _ => m | None => <[k := d]> m end.

Definition boundary_node (id : string) : NodeDefinition :=
  mkNode id id "" "" "" "" "" "" "" "" "" "" "" "" "" JNull (mkRetry 1 0) 30000 0.

Definition map_pairs (n : option YNode) : option (list (YNode * YNode)) :=
  match n with Some (YMap _ l) => Some l | _ => None end.
Definition sequence_items (n : option YNode) : option (list YNode) :=
  match n with Some (YSequence _ l) => Some l | _ => None end.

Definition parse_pipeline_body (text : string) (extensions : gset string) : eres PipelineDefinition :=
  root ← load_safe_yaml text;
  _ ← keys root root_keys;
  _ ← reject_if (negb (present root "laso") || negb (present root "version")
                 || negb (present root "name") || negb (present root "nodes")
                 || negb (present root "edges")) "Required pipeline fields missing";
  name ← str root "name" "";
  schema_version ← number root "laso" 1 1 1;
  version ← number root "version" 1 1 1000000;
  input_schema ← str root "input_schema" "";
  output_schema ← str root "output_schema" "";
  max_steps ← number root "max_steps" 1000 1 100000;
  timeout ← number root "timeout_ms" 300000 1 86400000;
  match map_pairs (subscript root "nodes"), sequence_items (subscript root "edges") with
  | Some node_items, Some edge_items =>
      ns ← e_fold (fun m kv => d ← parse_node kv.1 kv.2; EOk (emplace (n_id d) d m)) ∅ node_items;
      es ← e_map parse_edge edge_items;
      let p := mkPipeline name text input_schema output_schema ∅ schema_version version max_steps
                 timeout (emplace "output" (boundary_node "output")
                            (emplace "input" (boundary_node "input") ns)) es in
      match validate_pipeline p extensions with
      | Ok _ => EOk p
      | Throw e => EThrow (LasoError e)
      end
  | _, _ => EThrow (LasoError (err Validation "Nodes must be a map and edges a sequence"))
  end.

Definition parse_pipeline (text : string) (extensions : gset string) : res PipelineDefinition :=
  if max_document_bytes <? size_of text
  then Throw (err Validation "Configuration exceeds 1 MiB")
  else match parse_pipeline_body text extensions with
       | EOk p => Ok p
       | EThrow (LasoError e) => Throw e
       | EThrow YamlException => Throw (err Validation "Malformed YAML or field type")
       end.
End Documents.

(** ** Lemmas *)

Lemma e_bind_ok {A B} (m : eres A) (k : A -> eres B) b :
  (m ≫= k) = EOk b <-> exists a, m = EOk a /\ k a = EOk b.
Proof. destruct m; naive_solver. Qed.

Lemma reject_if_ok b msg u : reject_if b msg = EOk u <-> b = false.
Proof. destruct b, u; simpl; naive_solver. Qed.

(** Inverts the steps of a successful parse. *)
Ltac e_inv :=
  repeat match goal with
  | H : (_ ≫= _) = EOk _ |- _ => apply e_bind_ok in H as (? & ? & H)
  | H : reject_if _ _ = EOk _ |- _ => apply reject_if_ok in H
  | H : EOk _ = EOk _ |- _ => injection H as H
  | H : EThrow _ = EOk _ |- _ => discriminate H
  | H : match ?x with (_, _) => _ end = EOk _ |- _ => destruct x eqn:?
  end.

Section YInd.
Context (P : YNode -> Prop).
Hypothesis Hnull : forall t, P (YNull t).
Hypothesis Hscalar : forall t s, P (YScalar t s).
Hypothesis Hseq : forall t l, Forall P l -> P (YSequence t l).
Hypothesis Hmap : forall t l, Forall (fun kv => P kv.2) l -> P (YMap t l).
Fixpoint ynode_ind' (n : YNode) : P n :=
  match n with
  | YNull t => Hnull t
  | YScalar t s => Hscalar t s
  | YSequence t l =>
      Hseq t l ((fix go l : Forall P l :=
        match l with [] => List.Forall_nil _ | v :: l => List.Forall_cons _ v l (ynode_ind' v) (go l) end) l)
  | YMap t l =>
      Hmap t l ((fix go l : Forall (fun kv => P kv.2) l :=
        match l with
        | [] => List.Forall_nil _
        | kv :: l => List.Forall_cons _ kv l (ynode_ind' kv.2) (go l) end) l)
  end.
End YInd.

(** The values of a document (keys are not counted) and their nesting. *)
Fixpoint value_count (n : YNode) : Z :=
  1 + match n with
      | YSequence _ l => (fix go l := match l with [] => 0 | v :: l => value_count v + go l end) l
      | YMap _ l => (fix go l := match l with [] => 0 | kv :: l => value_count kv.2 + go l end) l
      | _ => 0
      end.
Fixpoint nesting (n : YNode) : Z :=
  match n with
  | YSequence _ l =>
      (fix go l := match l with [] => 0 | v :: l => Z.max (1 + nesting v) (go l) end) l
  | YMap _ l =>
      (fix go l := match l with [] => 0 | kv :: l => Z.max (1 + nesting kv.2) (go l) end) l
  | _ => 0
  end.

Section DocumentProofs.
Context `{YamlLib}.

(** Every mapping of the document has scalar keys, all different, and every tag is a standard
    one. *)
Definition distinct_keys (seen : gset string) (l : list (YNode * YNode)) : Prop :=
  exists ks, mapM as_string l.*1 = Some ks /\ NoDup ks /\ Forall (fun k => k ∉ seen) ks.
Inductive plain : YNode -> Prop :=
  | plain_null t : str_in t allowed_tags = true -> plain (YNull t)
  | plain_scalar t s : str_in t allowed_tags = true -> plain (YScalar t s)
  | plain_seq t l : str_in t allowed_tags = true -> Forall plain l -> plain (YSequence t l)
  | plain_map t l :
      str_in t allowed_tags = true -> Forall (fun kv => IsScalar kv.1 = true) l ->
      distinct_keys ∅ l -> Forall (fun kv => plain kv.2) l -> plain (YMap t l).

(** What a successful visit of [n] at [depth] establishes. *)
Definition within (n : YNode) (depth count count' : Z) : Prop :=
  plain n /\ count' = count + value_count n /\ count' <= 20000 /\ depth + nesting n <= 32.
Definition inspected (n : YNode) : Prop := forall depth count count',
  inspect n depth count = EOk count' -> within n depth count count'.

Lemma inspect_items t l : Forall inspected l -> forall depth count count',
  depth <= 32 -> count + 1 <= 20000 -> str_in t allowed_tags = true ->
  (fix go (l : list YNode) (count : Z) : eres Z :=
     match l with
     | [] => EOk count
     | v :: l => count ← inspect v (depth + 1) count; go l count
     end) l (count + 1) = EOk count' ->
  within (YSequence t l) depth count count'.
Proof.
  intros Hl depth count count' Hd Hc Ht. unfold within. cbn [value_count nesting].
  enough (forall c, c <= 20000 -> (fix go (l : list YNode) (count : Z) : eres Z :=
     match l with
     | [] => EOk count
     | v :: l => count ← inspect v (depth + 1) count; go l count
     end) l c = EOk count' -> Forall plain l /\
     count' = c + (fix go l := match l with [] => 0 | v :: l => value_count v + go l end) l /\
     count' <= 20000 /\
     depth + (fix go l := match l with [] => 0 | v :: l => Z.max (1 + nesting v) (go l) end) l <= 32)
    as Hgo.
  { intros Hi. destruct (Hgo _ Hc Hi) as (Hp & He & Hle & Hn).
    split_and!; [by constructor|lia..]. }
  clear Hc. induction Hl as [|v l Hv Hl IH]; intros c Hc Hi.
  { injection Hi as <-. split_and!; [constructor|lia..]. }
  apply e_bind_ok in Hi as (c1 & Hv1 & Hi). apply Hv in Hv1 as (Hp & He & Hle & Hn).
  destruct (IH _ Hle Hi) as (Hp' & He' & Hle' & Hn'). split_and!; [by constructor|lia..].
Qed.

Lemma inspect_pairs t l : Forall (fun kv => inspected kv.2) l -> forall depth count count',
  depth <= 32 -> count + 1 <= 20000 -> str_in t allowed_tags = true ->
  (fix go (l : list (YNode * YNode)) (keys : gset string) (count : Z) : eres Z :=
     match l with
     | [] => EOk count
     | (k, v) :: l =>
         if negb (IsScalar k)
         then EThrow (LasoError (err Validation "Duplicate or non-scalar YAML key"))
         else
           key ← lib (as_string k);
           _ ← reject_if (bool_decide (key ∈ keys)) "Duplicate or non-scalar YAML key";
           count ← inspect v (depth + 1) count;
           go l ({[key]} ∪ keys) count
     end) l ∅ (count + 1) = EOk count' ->
  within (YMap t l) depth count count'.
Proof.
  intros Hl depth count count' Hd Hc Ht. unfold within. cbn [value_count nesting].
  match goal with |- ?F l ∅ _ = _ -> _ =>
    enough (forall seen c, c <= 20000 -> F l seen c = EOk count' ->
      Forall (fun kv => IsScalar kv.1 = true) l /\ distinct_keys seen l /\
      Forall (fun kv => plain kv.2) l /\
      count' = c + (fix go l := match l with [] => 0 | kv :: l => value_count kv.2 + go l end) l /\
      count' <= 20000 /\
      depth + (fix go l := match l with [] => 0 | kv :: l => Z.max (1 + nesting kv.2) (go l) end) l
        <= 32) as Hgo
  end.
  { intros Hi. destruct (Hgo _ _ Hc Hi) as (Hs & Hk & Hp & He & Hle & Hn).
    split_and!; [by constructor|lia..]. }
  clear Hc. induction Hl as [|[k v] l Hv Hl IH]; intros seen c Hc Hi.
  { injection Hi as <-. split_and!; [constructor| |constructor|lia..]. exists []. split_and!; [done|constructor..]. }
  destruct (IsScalar k) eqn:Hk; [|done]. simpl in Hi.
  apply e_bind_ok in Hi as (key & Hkey & Hi). apply e_bind_ok in Hi as ([] & Hdup & Hi).
  apply reject_if_ok, bool_decide_eq_false in Hdup.
  apply e_bind_ok in Hi as (c1 & Hv1 & Hi). apply Hv in Hv1 as (Hp & He & Hle & Hn).
  destruct (IH _ _ Hle Hi) as (Hs & (ks & Hks & Hnd & Hout) & Hp' & He' & Hle' & Hn'). simpl in *.
  split_and!; [by constructor| |by constructor|lia..].
  exists (key :: ks). destruct (as_string k) eqn:Hak; [|done]. injection Hkey as ->. split_and!.
  - cbn. rewrite Hak. cbn. by rewrite Hks.
  - constructor; [|done]. intros Hin. rewrite Forall_forall in Hout. by apply (Hout key Hin); set_solver.
  - constructor; [done|]. eapply Forall_impl; [done|]. set_solver.
Qed.

Lemma inspect_ok n : inspected n.
Proof.
  induction n as [t|t s|t l IH|t l IH] using ynode_ind'; intros depth count count' Hi;
    cbn [inspect] in Hi; destruct (_ || _) eqn:Hlim in Hi; try discriminate;
    apply orb_false_iff in Hlim as [Hd%Z.ltb_ge Hc%Z.ltb_ge];
    apply e_bind_ok in Hi as (u & Ht & Hi); apply reject_if_ok in Ht; simpl in Ht;
    apply negb_false_iff in Ht.
  - injection Hi as <-. unfold within. split_and!; simpl; [by constructor|lia..].
  - injection Hi as <-. unfold within. split_and!; simpl; [by constructor|lia..].
  - by apply inspect_items.
  - by apply inspect_pairs.
Qed.

(** Numbers are in the range their accessor asks for. *)
Lemma number_bounds n key fallback lo hi v :
  number n key fallback lo hi = EOk v -> lo <= v <= hi.
Proof. unfold number. intros Hn. e_inv. subst. lia. Qed.

Definition node_in_bounds (d : NodeDefinition) : Prop :=
  1 <= max_attempts (retry d) <= 10 /\ 0 <= retry_delay (retry d) <= 60000 /\
  1 <= n_timeout d <= 3600000 /\ 0 <= n_max_iterations d <= 10000.

Lemma parse_node_bounds key n d :
  parse_node key n = EOk d -> as_string key = Some (n_id d) /\ node_in_bounds d.
Proof.
  unfold parse_node. intros Hp. e_inv. subst d. unfold node_in_bounds. simpl.
  repeat match goal with H : number _ _ _ _ _ = EOk _ |- _ => apply number_bounds in H end.
  split; [|lia]. destruct (as_string key); naive_solver.
Qed.

Definition nodes_good (m : gmap string NodeDefinition) : Prop :=
  map_Forall (fun id d => n_id d = id /\ node_in_bounds d) m.

Lemma emplace_good d m : node_in_bounds d -> nodes_good m -> nodes_good (emplace (n_id d) d m).
Proof.
  intros Hd Hm. unfold emplace. destruct (m !! n_id d) eqn:E; [done|].
  by apply map_Forall_insert_2.
Qed.

Lemma boundary_good id : node_in_bounds (boundary_node id).
Proof. unfold node_in_bounds. simpl. lia. Qed.

Lemma parse_nodes_good l : forall m m',
  e_fold (fun m kv => d ← parse_node kv.1 kv.2; EOk (emplace (n_id d) d m)) m l = EOk m' ->
  nodes_good m -> nodes_good m'.
Proof.
  induction l as [|kv l IH]; intros m m' Hf Hm; simpl in Hf; [by injection Hf as <-|].
  e_inv. subst. eapply IH; [done|]. apply emplace_good; [|done].
  by match goal with H : parse_node _ _ = _ |- _ => apply parse_node_bounds in H as [_ ?] end.
Qed.

Lemma parse_edges_good l es :
  e_map parse_edge l = EOk es -> Forall (fun e => 0 <= e_max_iterations e <= 10000) es.
Proof.
  revert es. induction l as [|x l IH]; intros es He; simpl in He; e_inv; subst; constructor.
  - match goal with H : parse_edge _ = _ |- _ => unfold parse_edge in H end. e_inv. subst. simpl.
    match goal with H : number _ _ _ _ _ = EOk _ |- _ => apply number_bounds in H end. lia.
  - by apply IH.
Qed.

Lemma parse_pipeline_body_ok text ext p :
  parse_pipeline_body text ext = EOk p ->
  validate_pipeline p ext = Ok tt /\ pl_source p = text /\ nodes_good (nodes p) /\
  budgets_in_range p /\ 1 <= pl_version p <= 1000000 /\ 1 <= max_steps p <= 100000 /\
  1 <= pl_timeout p <= 86400000.
Proof.
  unfold parse_pipeline_body. intros Hp. e_inv.
  destruct (map_pairs _) as [ns|]; [|done]. destruct (sequence_items _) as [es|]; [|done]. e_inv.
  match type of Hp with context [validate_pipeline ?q ext] => set (q0 := q) in * end.
  destruct (validate_pipeline q0 ext) as [[]|] eqn:Hv; [|done]. injection Hp as <-.
  repeat match goal with H : number _ _ _ _ _ = EOk _ |- _ => apply number_bounds in H end.
  split_and!; try (simpl; lia); [done|done| |].
  - simpl. apply (emplace_good (boundary_node "output")), (emplace_good (boundary_node "input"));
      try apply boundary_good. eapply parse_nodes_good; [done|]. by intros ??; rewrite lookup_empty.
  - by eapply parse_edges_good.
Qed.

Lemma parse_pipeline_ok text ext p :
  parse_pipeline text ext = Ok p -> parse_pipeline_body text ext = EOk p.
Proof.
  unfold parse_pipeline. destruct (_ <? _); [done|].
  destruct (parse_pipeline_body text ext) as [?|[?|]]; naive_solver.
Qed.
End DocumentProofs.

(** *** Rejections *)

Section Rejections.
Context `{YamlLib}.

(** [e_only m]: an [Error] thrown by [m] is a validation error. *)
Definition e_only {A} (m : eres A) : Prop :=
  forall e, m = EThrow (LasoError e) -> code e = Validation.

Lemma e_only_ok {A} (a : A) : e_only (EOk a).
Proof. by intros e. Qed.
Lemma e_only_lib {A} (o : option A) : e_only (lib o).
Proof. by destruct o; intros e. Qed.
Lemma e_only_reject b msg : e_only (reject_if b msg).
Proof. destruct b; intros e; simpl; [by intros [= <-]|done]. Qed.
Lemma e_only_throw {A} msg : e_only (@EThrow A (LasoError (err Validation msg))).
Proof. by intros e [= <-]. Qed.
Lemma e_only_bind {A B} (m : eres A) (k : A -> eres B) :
  e_only m -> (forall a, e_only (k a)) -> e_only (m ≫= k).
Proof. intros Hm Hk e. destruct m as [a|x]; simpl; [by apply Hk|]. intros [= ->]. by apply Hm. Qed.

Ltac e_only_step :=
  first [ apply e_only_ok | apply e_only_reject | apply e_only_lib | apply e_only_throw
        | apply e_only_bind; [|intros ?] | case_match ].

Lemma e_only_iter {A} (f : A -> eres unit) l : (forall x, e_only (f x)) -> e_only (e_iter f l).
Proof. intros Hf. induction l; simpl; repeat (apply Hf || done || e_only_step). Qed.
Lemma e_only_map {A B} (f : A -> eres B) l : (forall x, e_only (f x)) -> e_only (e_map f l).
Proof. intros Hf. induction l; simpl; repeat (apply Hf || done || e_only_step). Qed.
Lemma e_only_fold {A S} (f : S -> A -> eres S) l : (forall s x, e_only (f s x)) ->
  forall s, e_only (e_fold f s l).
Proof.
  intros Hf. induction l as [|x l IH]; intros s; simpl; repeat (apply Hf || apply IH || e_only_step).
Qed.

Lemma inspect_only n : forall depth count, e_only (inspect n depth count).
Proof.
  induction n as [t|t s|t l IH|t l IH] using ynode_ind'; intros depth count; cbn [inspect];
    (case_match; [apply e_only_throw|]); (apply e_only_bind; [apply e_only_reject|intros _]);
    [apply e_only_ok..| |].
  - generalize (count + 1). induction IH as [|v l Hv Hl IHl]; intros c; [apply e_only_ok|].
    apply e_only_bind; [apply Hv|intros c']. apply IHl.
  - generalize (count + 1), (∅ : gset string).
    induction IH as [|[k v] l Hv Hl IHl]; intros c ks; [apply e_only_ok|].
    repeat (apply Hv || apply IHl || e_only_step).
Qed.

Lemma str_only n k f : e_only (str n k f).
Proof. unfold str. repeat e_only_step. Qed.
Lemma number_only n k f lo hi : e_only (number n k f lo hi).
Proof. unfold number. repeat e_only_step. Qed.
Lemma keys_only n l : e_only (keys n l).
Proof. unfold keys. case_match; try apply e_only_throw. apply e_only_iter. intros. repeat e_only_step. Qed.
Lemma yaml_value_only n : e_only (yaml_value n).
Proof.
  induction n as [t|t s|t l IH|t l IH] using ynode_ind'; cbn [yaml_value].
  - apply e_only_ok.
  - repeat e_only_step.
  - apply e_only_bind; [|intros; apply e_only_ok].
    induction IH as [|v l Hv Hl IHl]; repeat (apply Hv || apply IHl || e_only_step).
  - apply e_only_bind; [|intros; apply e_only_ok]. generalize (@nil (string * Json)).
    induction IH as [|[k v] l Hv Hl IHl]; intros acc; repeat (apply Hv || apply IHl || e_only_step).
Qed.

Ltac field_only :=
  first [ apply keys_only | apply str_only | apply number_only | apply e_only_lib
        | apply e_only_reject | apply e_only_ok | apply e_only_throw
        | apply e_only_bind; [|intros ?] | case_match ].

Lemma parse_node_only k n : e_only (parse_node k n).
Proof.
  unfold parse_node, yaml_value_opt.
  repeat (apply yaml_value_only || (unfold node_binding; apply e_only_fold; intros) || field_only).
Qed.
Lemma parse_edge_only n : e_only (parse_edge n).
Proof. unfold parse_edge. repeat field_only. Qed.

Lemma parse_pipeline_body_only text ext : e_only (parse_pipeline_body text ext).
Proof.
  unfold parse_pipeline_body, load_safe_yaml.
  repeat first [ apply inspect_only | apply e_only_fold; intros ? ? | apply parse_node_only
               | apply e_only_map; apply parse_edge_only | field_only ].
  intros e0 [= <-]. by eapply validate_pipeline_code.
Qed.
End Rejections.

(** ** A concrete document *)

Definition sample_scalar (s : string) : YNode := YScalar "?" s.
Definition sample_map (l : list (string * YNode)) : YNode :=
  YMap "?" (map (fun kv => (sample_scalar kv.1, kv.2)) l).
Definition sample_document : YNode :=
  sample_map [("laso", sample_scalar "1"); ("version", sample_scalar "3");
    ("name", sample_scalar "hello");
    ("nodes", sample_map [("greet", sample_map [("type", sample_scalar "function");
                                                ("function", sample_scalar "echo")])]);
    ("edges", YSequence "?" [sample_map [("from", sample_scalar "input"); ("to", sample_scalar "greet")];
                             sample_map [("from", sample_scalar "greet"); ("to", sample_scalar "output")]])]%string.
(** A library that loads [sample_document] and converts scalars only. *)
Definition sample_yaml : YamlLib := {|
  LoadAll := fun _ => Some [sample_document];
  as_string := fun n => match n with YScalar _ s => Some s | _ => None end;
  as_longlong := fun n => match n with
    | YScalar _ s => '(v, stop) ← stoll (chars_of s);
                     if Nat.eqb stop (String.length s) then Some v else None
    | _ => None end;
  json_parse := fun _ => None |}.
Definition sample_parsed : PipelineDefinition :=
  match @parse_pipeline sample_yaml "hello" ∅ with Ok p => p | Throw _ => sample_loop end.

(** ** Properties *)

(** C37: A document that parses yields a definition that passes validation, keeps its source, and
    whose numbers are within the documented ranges: retries between 1 and 10, retry delays of at
    most a minute, node timeouts of at most an hour, iteration budgets of at most 10,000,
    versions between 1 and 1,000,000, step budgets between 1 and 100,000 and a run timeout of at
    most a day; every node is stored under its own identifier. *)
Theorem parse_pipeline_sound `{YamlLib} text ext p :
  parse_pipeline text ext = Ok p ->
  validate_pipeline p ext = Ok tt /\ pl_source p = text /\ nodes_good (nodes p) /\
  budgets_in_range p /\ 1 <= pl_version p <= 1000000 /\ 1 <= max_steps p <= 100000 /\
  1 <= pl_timeout p <= 86400000.
Proof. intros Hp%parse_pipeline_ok. by apply parse_pipeline_body_ok. Qed.

Lemma parse_pipeline_sound_witness :
  let p := sample_parsed in
  validate_pipeline p ∅ = Ok tt /\ pl_source p = "hello"%string /\ nodes_good (nodes p) /\
  budgets_in_range p /\ 1 <= pl_version p <= 1000000 /\ 1 <= max_steps p <= 100000 /\
  1 <= pl_timeout p <= 86400000.
Proof. apply (@parse_pipeline_sound sample_yaml "hello" ∅). vm_compute. reflexivity. Defined.

(** Every rejection of a pipeline document is a validation error, a malformed document or a
    field of the wrong type included. *)
Theorem parse_pipeline_error `{YamlLib} text ext e :
  parse_pipeline text ext = Throw e -> code e = Validation.
Proof.
  unfold parse_pipeline. destruct (_ <? _); [by intros [= <-]|].
  pose proof (parse_pipeline_body_only text ext) as Ho.
  destruct (parse_pipeline_body text ext) as [?|[e'|]]; intros [= <-]; [by apply Ho|done].
Qed.

Lemma parse_pipeline_error_witness :
  code (err Validation "Invalid node ID or unknown type") = Validation.
Proof.
  apply (@parse_pipeline_error {| LoadAll := fun _ => Some [sample_map [
      ("laso", sample_scalar "1"); ("version", sample_scalar "3"); ("name", sample_scalar "hello");
      ("nodes", sample_map [("greet", sample_map [])]); ("edges", YSequence "?" [])]%string];
    as_string := @as_string sample_yaml; as_longlong := @as_longlong sample_yaml;
    json_parse := fun _ => None |} "hello" ∅). vm_compute. reflexivity.
Defined.

(** A document admitted by [load_safe_yaml] has at most 20,000 values nested at most 32 deep
    (with anchors expanded), only standard tags, and mappings whose keys are scalars and
    pairwise different. *)
Theorem load_safe_yaml_limits `{YamlLib} text doc :
  load_safe_yaml text = EOk doc ->
  plain doc /\ value_count doc <= 20000 /\ nesting doc <= 32 /\ size_of text <= max_document_bytes.
Proof.
  unfold load_safe_yaml. intros Hl. e_inv. destruct x0 as [|d [|]]; try done. e_inv. subst.
  match goal with H : inspect _ _ _ = _ |- _ => apply inspect_ok in H as (Hp & Hc & Hle & Hn) end.
  split_and!; [done|lia..].
Qed.

Lemma load_safe_yaml_limits_witness :
  @plain sample_yaml sample_document /\ value_count sample_document <= 20000 /\
  nesting sample_document <= 32 /\ size_of "hello" <= max_document_bytes.
Proof. apply (@load_safe_yaml_limits sample_yaml "hello" sample_document). vm_compute. reflexivity. Defined.
