(* ===== verification/Access.v ===== *)
(** * Registries, deployment policy and gateway identity

    [include/laso/core/registry.hpp], [include/laso/policies/policy.hpp], [Runtime::permission]
    of [src/runtime/graph.cpp], and [include/laso/security/security.hpp]. *)

From S2P Require Import Prelude Json Types Samples Text.
From Stdlib Require Import Ascii.

(** ** [Registry<T>]

    [None] is a null [shared_ptr]; the mutex makes each operation atomic. *)
Abbreviation Registry T := (gmap string T).

Section RegistryOps.
Context {T : Type}.

(** One iteration of the loop of [add_batch] on the candidate map. *)
Definition batch_step (candidate : Registry T) (kv : string * option T) : res (Registry T) :=
  match kv.2 with
  | Some v =>
      if empty_str kv.1 || bool_decide (is_Some (candidate !! kv.1))
      then Throw (err Conflict "Invalid or duplicate registration")
      else Ok (<[kv.1 := v]> candidate)
  | None => Throw (err Conflict "Invalid or duplicate registration")
  end.
Fixpoint batch_loop (candidate : Registry T) (l : list (string * option T)) : res (Registry T) :=
  match l with
  | [] => Ok candidate
  | kv :: l => batch_step candidate kv ≫= fun c => batch_loop c l
  end.
Definition add_batch (batch : gmap string (option T)) : M (Registry T) unit := fun entries =>
  match batch_loop entries (map_items batch) with
  | Ok candidate => (candidate, Ok tt)
  | Throw e => (entries, Throw e)
  end.

Definition add (name : string) (value : option T) : M (Registry T) unit := fun entries =>
  match value with
  | Some v =>
      if empty_str name then (entries, Throw (err Configuration "Invalid registration"))
      else match entries !! name with
           | Some _ => (entries, Throw (err Conflict "Duplicate registration"))
           | None => (<[name := v]> entries, Ok tt)
           end
  | None => (entries, Throw (err Configuration "Invalid registration"))
  end.

Definition reg_get (entries : Registry T) (name : string) : res T :=
  match entries !! name with
  | Some v => Ok v
  | None => Throw (err NotFound "Registration not found")
  end.

Definition names (entries : Registry T) : list string := map fst (map_items entries).
End RegistryOps.

(** ** Policy *)

Inductive PolicyDecision := Allow | Deny | RequireApproval.
#[global] Instance PolicyDecision_eq_dec : EqDecision PolicyDecision.
Proof. solve_decision. Defined.

Record PolicyContext := mkPolicyContext {
  pc_pipeline_id : string; pc_node_id : string; resource : string; classification : string;
  network : bool; remote : bool; worker_node : bool; approval_required : bool }.
Record PolicyResult := mkPolicyResult { pr_decision : PolicyDecision; pr_reason : string }.
Record PolicyRule := mkRule { ru_resource : string; ru_decision : PolicyDecision }.
Record PolicyEngine := mkEngine {
  rules_ : list PolicyRule; allow_network_ : bool; allow_remote_workers_ : list string }.

(** The loop over the rules: [inr] is the early return of a denial. *)
Fixpoint rule_loop (c : PolicyContext) (decision : PolicyDecision) (l : list PolicyRule)
    : PolicyDecision + PolicyResult :=
  match l with
  | [] => inl decision
  | r :: l =>
      if String.eqb (ru_resource r) (resource c) || String.eqb (ru_resource r) "*" then
        match ru_decision r with
        | Deny => inr (mkPolicyResult Deny "Denied by deployment policy")
        | RequireApproval => rule_loop c RequireApproval l
        | Allow => rule_loop c decision l
        end
      else rule_loop c decision l
  end.

Definition trusted_remote_worker (e : PolicyEngine) (c : PolicyContext) : bool :=
  remote c && worker_node c && existsb (String.eqb (resource c)) (allow_remote_workers_ e).

Definition evaluate (e : PolicyEngine) (c : PolicyContext) : PolicyResult :=
  if (network c || remote c) && negb (allow_network_ e) && negb (trusted_remote_worker e c)
  then mkPolicyResult Deny "Network access is disabled"
  else if remote c && negb (worker_node c) && negb (String.eqb (classification c) "public")
  then mkPolicyResult Deny "Non-public data cannot leave the process through remote models"
  else
    match rule_loop c (if approval_required c then RequireApproval else Allow) (rules_ e) with
    | inr r => r
    | inl decision =>
        mkPolicyResult decision
          (match decision with
           | RequireApproval => "Human approval required"
           | _ => "Allowed local operation"
           end)
    end.

(** ** [Runtime::permission]

    The registries hold the metadata of the tools and providers; [models] maps a logical model
    to its provider; [resolve_worker] and [worker_remote] are the worker manager, absent when
    the deployment has none. *)
Record ToolMetadata := mkToolMeta { tm_network : bool; tm_approval_required : bool }.
Record ProviderMetadata := mkProviderMeta { pm_remote : bool; pm_network : bool }.

Record WorkerDirectory := mkWorkers {
  resolve_worker : string -> string -> res string;
  worker_remote : string -> res bool }.

Section Permission.
Context `{JsonLib}.
Context (tools : Registry ToolMetadata) (providers : Registry ProviderMetadata)
  (models : gmap string string) (workers : option WorkerDirectory) (policy : PolicyEngine).

(** A [metadata] whose classification is not a string makes [value] throw. *)
Definition classification_of (m : Message) : res string :=
  match value_with get_string (metadata m) "classification" "public"%string with
  | Some s => Ok s
  | None => Throw (err Execution "json")
  end.

Definition permission (n : NodeDefinition) (r : Run) : res PolicyResult :=
  cls ← classification_of (message r);
  let c := mkPolicyContext (pipeline_id r) (n_id n) (binding n) cls false false false false in
  c' ← (if String.eqb (n_type n) "tool" then
          m ← reg_get tools (binding n);
          Ok (mkPolicyContext (pipeline_id r) (n_id n) (binding n) cls (tm_network m) false false
                (tm_approval_required m))
        else if String.eqb (n_type n) "agent" then
          match models !! binding n with
          | None => Throw (err Provider "Logical model not configured")
          | Some pv =>
              m ← reg_get providers pv;
              Ok (mkPolicyContext (pipeline_id r) (n_id n) (binding n) cls
                    (pm_network m || pm_remote m) (pm_remote m) false false)
          end
        else if String.eqb (n_type n) "worker" then
          match workers with
          | None => Throw (err Execution "Worker manager is unavailable")
          | Some w =>
              worker_id ← resolve_worker w (binding n) (capability n);
              rem ← worker_remote w worker_id;
              Ok (mkPolicyContext (pipeline_id r) (n_id n) worker_id cls rem rem true false)
          end
        else Ok c);
  Ok (evaluate policy c').
End Permission.

(** ** Gateway identity *)

Record Actor := mkActor { act_id : string; authenticated : bool; role : string }.
Definition anonymous : Actor := mkActor "local" false "user".

Definition gateway_token (token : string) : res string :=
  if (size_of token <? 32) || (8192 <? size_of token)
  then Throw (err Configuration "Invalid gateway identity token configuration")
  else Ok token.

Definition valid_principal (value : string) : bool :=
  match chars_of value with
  | [] => false
  | c :: l =>
      (Z.of_nat (length (c :: l)) <=? 128) && is_alnum c
      && forallb (fun c => is_alnum c || one_of ["."; "_"; "@"; ":"; "-"]%char c) (c :: l)
  end.

(** [std::uint8_t difference |= supplied[i] ^ token[i]] over all the bytes. *)
Definition byte_difference (supplied token : chars) : Z :=
  foldl (fun d ab => Z.lor d (Z.lxor (code_of ab.1) (code_of ab.2))) 0 (zip supplied token).

Fixpoint drop_prefix (p l : chars) : option chars :=
  match p, l with
  | [], l => Some l
  | a :: p, b :: l => if Ascii.eqb a b then drop_prefix p l else None
  | _ :: _, [] => None
  end.

Definition authenticate_request (token credential principal role : string) : Actor :=
  match drop_prefix (chars_of "Bearer ") (chars_of credential) with
  | None => anonymous
  | Some supplied =>
      if negb (Nat.eqb (length supplied) (String.length token)) then anonymous
      else if negb (byte_difference supplied (chars_of token) =? 0)
              || negb (valid_principal principal)
              || (negb (String.eqb role "user") && negb (String.eqb role "operator")
                  && negb (String.eqb role "admin"))
      then anonymous
      else mkActor principal true role
  end.

Definition starts_with (s prefix : string) : bool :=
  match drop_prefix (chars_of prefix) (chars_of s) with Some _ => true | None => false end.

Definition authorize (a : Actor) (action res : string) : bool :=
  if negb (authenticated a)
  then String.eqb action "GET"
       && (String.eqb res "/api/v1/health" || String.eqb res "/api/v1/health/live"
           || String.eqb res "/api/v1/health/ready" || String.eqb res "/api/v1/version")
  else if starts_with res "/api/v1/operator/"
  then String.eqb (role a) "operator" || String.eqb (role a) "admin"
  else true.

(** [EnvironmentSecretProvider::resolve]; [getenv] is the process environment. *)
Definition secret_reference (s : string) : bool :=
  match chars_of s with
  | [] => false
  | c :: l => (is_upper c || Ascii.eqb c "_"%char)
              && forallb (fun c => is_upper c || is_digit c || Ascii.eqb c "_"%char) l
              && (Z.of_nat (length l) <=? 127)
  end.
Definition resolve (getenv : string -> option string) (reference : string) : res string :=
  if negb (secret_reference reference) then Throw (err Configuration "Invalid secret reference")
  else match getenv reference with
       | None => Throw (err Configuration "Required secret unavailable")
       | Some v => Ok v
       end.

(** ** Lemmas *)

(** *** Batches *)

Section RegistryProofs.
Context {T : Type}.
Implicit Types (m : Registry T) (l : list (string * option T)).

(** A registration the loop accepts against the entries [m]. *)
Definition addable m (kv : string * option T) : Prop :=
  kv.1 <> ""%string /\ is_Some kv.2 /\ m !! kv.1 = None.

Lemma batch_step_ok m k o m' :
  batch_step m (k, o) = Ok m' <-> addable m (k, o) /\ exists v, o = Some v /\ m' = <[k := v]> m.
Proof.
  unfold batch_step, addable, empty_str. simpl. destruct o as [v|]; [|naive_solver].
  destruct (String.eqb_spec k "") as [->|Hk]; simpl; [naive_solver|].
  destruct (m !! k) eqn:E; case_bool_decide as Hb; try (exfalso; naive_solver);
    (split; [intros H; simplify_res; naive_solver|naive_solver]).
Qed.

Lemma batch_loop_ok l : forall m m', NoDup l.*1 ->
  batch_loop m l = Ok m' ->
  Forall (addable m) l /\ m' = list_to_map (omap (fun kv => pair kv.1 <$> kv.2) l) ∪ m.
Proof.
  induction l as [|[k o] l IH]; intros m m' Hnd H; simpl in H.
  { injection H as <-. split; [constructor|]. simpl. by rewrite (left_id_L ∅ (∪)). }
  apply res_bind_ok in H as (m1 & H1 & H). apply batch_step_ok in H1 as [Hadd (v & -> & ->)].
  inversion Hnd as [|? ? Hk Hnd']; subst. destruct (IH _ _ Hnd' H) as [Hall ->]. split.
  - constructor; [done|]. rewrite Forall_forall in Hall |- *. intros [k' o'] Hin.
    destruct (Hall _ Hin) as (Hne & Hs & Hn). split_and!; [done..|]. simpl in *.
    apply lookup_insert_None in Hn. tauto.
  - cbn. rewrite <- insert_union_l. symmetry. apply insert_union_r.
    apply not_elem_of_list_to_map. intros Hin. apply Hk.
    apply list_elem_of_fmap in Hin as ([k' v'] & -> & Hin).
    apply list_elem_of_omap in Hin as ([k2 o2] & Hin & Ho). simpl in *.
    destruct o2; simplify_eq/=. apply list_elem_of_fmap. by exists (k', Some v').
Qed.

Lemma batch_loop_accepts l : forall m, NoDup l.*1 -> Forall (addable m) l ->
  exists m', batch_loop m l = Ok m'.
Proof.
  induction l as [|[k o] l IH]; intros m Hnd Hall; simpl; [eauto|].
  inversion Hnd as [|? ? Hk Hnd']; inversion Hall as [|? ? Ha Hall']; subst.
  pose proof Ha as (_ & [v Ho] & _). simpl in Ho. subst o.
  rewrite (proj2 (batch_step_ok m k (Some v) (<[k:=v]> m))) by eauto. simpl. apply IH; [done|].
  rewrite Forall_forall in Hall' |- *. intros [k' o'] Hin.
  destruct (Hall' _ Hin) as (Hne & Hs & Hn). split_and!; [done..|]. simpl in *.
  apply lookup_insert_None. split; [done|]. intros ->. apply Hk.
  apply list_elem_of_fmap. by exists (k', o').
Qed.

Lemma batch_loop_error l : forall m e, batch_loop m l = Throw e ->
  e = err Conflict "Invalid or duplicate registration".
Proof.
  induction l as [|[k o] l IH]; intros m e H; simpl in H; [done|].
  destruct (batch_step m (k, o)) as [m1|e1] eqn:E; simpl in H; [by eapply IH|].
  unfold batch_step in E. simpl in E. destruct o; [destruct (_ || _) in E|]; naive_solver.
Qed.

Lemma nodup_map_items {V} (b : gmap string V) : NoDup (map_items b).*1.
Proof. rewrite map_items_perm. apply NoDup_fst_map_to_list. Qed.

Lemma values_map_items (b : gmap string (option T)) :
  list_to_map (omap (fun kv => pair kv.1 <$> kv.2) (map_items b)) = omap (M:=gmap string) (fun o : option T => o) b.
Proof.
  apply map_eq. intros k. apply option_eq. intros v.
  rewrite lookup_omap. rewrite <- elem_of_list_to_map.
  - rewrite list_elem_of_omap. split.
    + intros ([k' o] & Hin & Ho). simpl in Ho. apply elem_of_map_items in Hin.
      destruct o; simplify_eq/=. by rewrite Hin.
    + destruct (b !! k) as [[v'|]|] eqn:E; simpl; intros Hv; simplify_eq.
      exists (k, Some v). split; [by apply elem_of_map_items|done].
  - pose proof (nodup_map_items b) as Hnd. revert Hnd. generalize (map_items b). clear.
    induction l as [|[k o] l IH]; intros Hnd; simpl; [constructor|].
    inversion Hnd as [|? ? Hk Hnd']; subst. specialize (IH Hnd').
    destruct o as [v|]; simpl; [|done]. constructor; [|done].
    intros ([k' v'] & -> & Hin)%list_elem_of_fmap. apply Hk.
    apply list_elem_of_omap in Hin as ([k2 o2] & Hin & Ho). simpl in *.
    destruct o2; simplify_eq/=. apply list_elem_of_fmap. by exists (k', Some v').
Qed.
End RegistryProofs.

(** *** Policy *)

Definition rule_applies (c : PolicyContext) (r : PolicyRule) : bool :=
  String.eqb (ru_resource r) (resource c) || String.eqb (ru_resource r) "*".
Definition rule_says (c : PolicyContext) (d : PolicyDecision) (l : list PolicyRule) : bool :=
  existsb (fun r => rule_applies c r && bool_decide (ru_decision r = d)) l.

Lemma rule_loop_spec c l : forall d,
  rule_loop c d l =
  if rule_says c Deny l then inr (mkPolicyResult Deny "Denied by deployment policy")
  else inl (if rule_says c RequireApproval l then RequireApproval else d).
Proof.
  induction l as [|r l IH]; intros d; simpl; [done|].
  unfold rule_says. simpl. fold (rule_says c Deny l) (rule_says c RequireApproval l).
  unfold rule_applies at 1 2. destruct (_ || _) eqn:Ha; simpl; [|apply IH].
  destruct (ru_decision r); simpl; rewrite ?IH; try done. by destruct (rule_says c RequireApproval l).
Qed.

Definition network_blocked (e : PolicyEngine) (c : PolicyContext) : bool :=
  (network c || remote c) && negb (allow_network_ e) && negb (trusted_remote_worker e c).
Definition exfiltrates (c : PolicyContext) : bool :=
  remote c && negb (worker_node c) && negb (String.eqb (classification c) "public").

Lemma evaluate_decision e c :
  pr_decision (evaluate e c) =
  if network_blocked e c || exfiltrates c || rule_says c Deny (rules_ e) then Deny
  else if approval_required c || rule_says c RequireApproval (rules_ e) then RequireApproval
  else Allow.
Proof.
  unfold evaluate. fold (network_blocked e c) (exfiltrates c).
  destruct (network_blocked e c); [done|]. destruct (exfiltrates c); [done|]. simpl.
  rewrite rule_loop_spec. destruct (rule_says c Deny _); [done|].
  destruct (rule_says c RequireApproval _), (approval_required c); done.
Qed.

(** *** Constant-time comparison *)

Lemma lor_zero a b : 0 <= a -> 0 <= b -> Z.lor a b = 0 <-> a = 0 /\ b = 0.
Proof. intros _ _. apply Z.lor_eq_0_iff. Qed.

Lemma code_of_inj a b : code_of a = code_of b -> a = b.
Proof.
  unfold code_of. intros H. apply N2Z.inj in H.
  by rewrite <- (ascii_N_embedding a), <- (ascii_N_embedding b), H.
Qed.

Lemma byte_difference_zero (l m : chars) :
  length l = length m -> byte_difference l m = 0 <-> l = m.
Proof.
  unfold byte_difference. intros Hlen.
  assert (H : forall d, foldl (fun d ab => Z.lor d (Z.lxor (code_of ab.1) (code_of ab.2))) d (zip l m) = 0
    <-> d = 0 /\ l = m); [|rewrite H; naive_solver].
  revert m Hlen. induction l as [|a l IH]; intros [|b m] Hlen d; simpl in *; try done; [naive_solver|].
  rewrite IH by lia. rewrite Z.lor_eq_0_iff, Z.lxor_eq_0_iff. split.
  - intros [[? Hc] ->]. apply code_of_inj in Hc. naive_solver.
  - intros [? [= -> ->]]. done.
Qed.

Lemma drop_prefix_some p l r : drop_prefix p l = Some r <-> l = p ++ r.
Proof.
  revert l. induction p as [|a p IH]; intros [|b l]; simpl; [naive_solver..|].
  destruct (Ascii.eqb_spec a b) as [->|]; [rewrite IH; naive_solver|naive_solver].
Qed.

Lemma authenticate_request_some token credential principal rl :
  authenticated (authenticate_request token credential principal rl) = true <->
  credential = String.append "Bearer " token /\ valid_principal principal = true /\
  (rl = "user" \/ rl = "operator" \/ rl = "admin")%string.
Proof.
  unfold authenticate_request. destruct (drop_prefix _ _) as [sup|] eqn:E.
  - apply drop_prefix_some in E. split.
    + destruct (Nat.eqb_spec (length sup) (String.length token)) as [Hl|]; simpl; [|done].
      destruct (_ || _) eqn:Hc; [done|].
      rewrite !orb_false_iff, !negb_false_iff, !andb_false_iff, !negb_false_iff, !String.eqb_eq in Hc.
      destruct Hc as [[Hd Hp] Hr]. intros _. split_and!; [|done|tauto].
      apply Z.eqb_eq, byte_difference_zero in Hd; [|by rewrite length_chars_of].
      apply chars_of_inj. rewrite E, chars_of_app, Hd. done.
    + intros (-> & Hp & Hr). rewrite chars_of_app in E. apply app_inv_head in E. subst sup.
      rewrite length_chars_of, Nat.eqb_refl, Hp. simpl.
      rewrite (proj2 (Z.eqb_eq _ 0)) by (by apply byte_difference_zero). simpl.
      destruct Hr as [->|[->| ->]]; done.
  - split; [done|]. intros (-> & _). rewrite chars_of_app in E.
    by rewrite (proj2 (drop_prefix_some _ _ _) eq_refl) in E.
Qed.

(** ** Properties *)

(** Batch registration is all or nothing.  It succeeds exactly when every name is non-empty,
    every value is present and no name is registered yet, and then adds precisely the batch;
    otherwise it throws [Conflict] and the registry is unchanged. *)
Theorem add_batch_atomic {T} (batch : gmap string (option T)) (m m' : Registry T) x :
  add_batch batch m = (m', x) ->
  (x = Ok tt /\ map_Forall (fun k o => addable m (k, o)) batch
     /\ m' = omap (fun o : option T => o) batch ∪ m)
  \/ (x = Throw (err Conflict "Invalid or duplicate registration") /\ m' = m
      /\ ~ map_Forall (fun k o => addable m (k, o)) batch).
Proof.
  unfold add_batch. destruct (batch_loop m (map_items batch)) as [c|e] eqn:E; intros H; simplify_res.
  - left. apply batch_loop_ok in E as [Hall ->]; [|apply nodup_map_items]. split_and!; [done| |].
    + intros k o Hk. rewrite Forall_forall in Hall. by apply (Hall (k, o)), elem_of_map_items.
    + by rewrite values_map_items.
  - right. pose proof (batch_loop_error _ _ _ E) as ->. split_and!; [done..|]. intros Hall.
    destruct (batch_loop_accepts (map_items batch) m' (nodup_map_items batch)) as [c Hc];
      [|congruence].
    apply Forall_forall. intros [k o] Hin. by apply Hall, elem_of_map_items.
Qed.

Definition sample_registry : Registry Z := {[ "a"%string := 1%Z ]}.
Definition sample_batch : gmap string (option Z) := {[ "b"%string := Some 2%Z ]}.

Lemma add_batch_atomic_witness :
  let m' := <[ "b"%string := 2%Z ]> sample_registry in
  (Ok tt = Ok tt /\ map_Forall (fun k o => addable sample_registry (k, o)) sample_batch
     /\ m' = omap (fun o : option Z => o) sample_batch ∪ sample_registry)
  \/ (Ok tt = Throw (err Conflict "Invalid or duplicate registration") /\ m' = sample_registry
      /\ ~ map_Forall (fun k o => addable sample_registry (k, o)) sample_batch).
Proof. apply (add_batch_atomic sample_batch sample_registry). vm_compute. reflexivity. Defined.

(** The decision of the policy engine.  An operation is denied exactly when it needs the
    network while the deployment forbids it (and it is not a worker on the allow list), or when
    it would send non-public data to a remote model, or when some matching rule denies it;
    otherwise it needs approval exactly when its tool or some matching rule requires it.  No
    order of the rules can weaken a denial or an approval requirement. *)
Theorem evaluate_characterised e c :
  pr_decision (evaluate e c) =
  if network_blocked e c || exfiltrates c || rule_says c Deny (rules_ e) then Deny
  else if approval_required c || rule_says c RequireApproval (rules_ e) then RequireApproval
  else Allow.
Proof. apply evaluate_decision. Qed.

(** Non-public data is never sent to a remote model: whatever the deployment's rules and
    network setting, an agent node bound to a remote provider is denied when the message is
    classified as anything but public. *)
Theorem remote_agent_denied `{JsonLib} tools providers models workers policy n r pv meta cls :
  n_type n = "agent"%string -> models !! binding n = Some pv -> providers !! pv = Some meta ->
  pm_remote meta = true -> classification_of (message r) = Ok cls -> cls <> "public"%string ->
  exists reason, permission tools providers models workers policy n r
    = Ok (mkPolicyResult Deny reason).
Proof.
  intros Ht Hm Hp Hr Hc Hcls. unfold permission. rewrite Hc, Ht. simpl. rewrite Hm.
  unfold reg_get. rewrite Hp. simpl. rewrite Hr, orb_true_r.
  match goal with |- context [evaluate policy ?c0] => set (c := c0) end.
  assert (Hd : pr_decision (evaluate policy c) = Deny).
  { rewrite evaluate_decision. assert (exfiltrates c = true) as ->.
    - unfold exfiltrates. simpl. by apply String.eqb_neq in Hcls as ->.
    - by rewrite orb_true_r. }
  destruct (evaluate policy c) as [d reason]. simpl in Hd. subst d. by exists reason.
Qed.

Definition sample_agent : NodeDefinition := (sample_node "think" "agent" "planner" "" "").2.
Definition sample_secret_run : Run :=
  (sample_run "r1") <| message := (sample_message "m" JNull)
    <| metadata := JObject [("classification"%string, JString "restricted")] |> |>.

Lemma remote_agent_denied_witness :
  exists reason, @permission strict_json ∅ {[ "openai"%string := mkProviderMeta true true ]}
    {[ "planner"%string := "openai"%string ]} None (mkEngine [mkRule "*" Allow] true [])
    sample_agent sample_secret_run = Ok (mkPolicyResult Deny reason).
Proof.
  apply (@remote_agent_denied strict_json ∅ {[ "openai"%string := mkProviderMeta true true ]}
    {[ "planner"%string := "openai"%string ]} None (mkEngine [mkRule "*" Allow] true [])
    sample_agent sample_secret_run "openai" (mkProviderMeta true true) "restricted");
    try (vm_compute; reflexivity). discriminate.
Defined.

(** A gateway request is authenticated exactly when its credential is [Bearer] followed by
    the configured token, its principal is well formed and its role is one of the three known
    roles; the accumulated byte difference is zero only for equal tokens. *)
Theorem gateway_authentication token credential principal rl :
  authenticated (authenticate_request token credential principal rl) = true <->
  credential = String.append "Bearer " token /\ valid_principal principal = true /\
  (rl = "user" \/ rl = "operator" \/ rl = "admin")%string.
Proof. apply authenticate_request_some. Qed.
