(* ===== verification/Db.v ===== *)
(** * The shared database

    The PostgreSQL schema the storage and coordination backends share
    ([src/storage/postgres.cpp], [src/storage/coordination.cpp]): one table of documents per
    [RecordKind], each row with its run, its body and its sequence number, the lease table, the
    registry of service instances and the operator audit journal.  A transaction runs on a copy
    and is installed as a whole when it commits.  Where the code locks the rows it reads ([FOR UPDATE],
    [FOR SHARE]: leases, runs whose cancellation is requested, sessions and turns) or decides within one
    statement ([INSERT ... ON CONFLICT]) this is how concurrent transactions behave.  The reads of
    [write_records] take no lock and the isolation level is READ COMMITTED: what this means for commits
    that overlap is the subject of [Isolation].  Identity columns are not rolled back.  Timestamps of
    the database clock are microseconds. *)

From S2P Require Import Prelude Json.

Inductive RecordKind :=
  | KPipeline | KRun | KAttempt | KMessage | KApproval | KArtifact | KEvent | KSchedule | KTrigger
  | KScheduleOccurrence | KTriggerDelivery | KEventSource | KExternalEventClaim | KWorkerJob
  | KWorkerInteraction | KNodeWork | KAgentSession | KSessionTurn | KSessionEvent
  | KSessionContinuation | KSessionContextGeneration | KRunContextSnapshot.
#[global] Instance RecordKind_eq_dec : EqDecision RecordKind.
Proof. solve_decision. Defined.

(** [static_cast<std::size_t>(kind)], the index into [table_names]. *)
Definition kind_index (k : RecordKind) : nat :=
  match k with
  | KPipeline => 0 | KRun => 1 | KAttempt => 2 | KMessage => 3 | KApproval => 4 | KArtifact => 5
  | KEvent => 6 | KSchedule => 7 | KTrigger => 8 | KScheduleOccurrence => 9
  | KTriggerDelivery => 10 | KEventSource => 11 | KExternalEventClaim => 12 | KWorkerJob => 13
  | KWorkerInteraction => 14 | KNodeWork => 15 | KAgentSession => 16 | KSessionTurn => 17
  | KSessionEvent => 18 | KSessionContinuation => 19 | KSessionContextGeneration => 20
  | KRunContextSnapshot => 21
  end.
Definition all_kinds : list RecordKind :=
  [KPipeline; KRun; KAttempt; KMessage; KApproval; KArtifact; KEvent; KSchedule; KTrigger;
   KScheduleOccurrence; KTriggerDelivery; KEventSource; KExternalEventClaim; KWorkerJob;
   KWorkerInteraction; KNodeWork; KAgentSession; KSessionTurn; KSessionEvent;
   KSessionContinuation; KSessionContextGeneration; KRunContextSnapshot].
#[global, program] Instance RecordKind_countable : Countable RecordKind :=
  inj_countable kind_index (fun n => all_kinds !! n) _.
Next Obligation. by intros []. Qed.

(** A record handed to the store. *)
Record StoreRecord := mkRecord {
  rc_kind : RecordKind; rc_id : string; rc_run_id : string; rc_value : Json }.

Record Row := mkRow { row_run_id : string; row_body : Json; row_sequence : Z }.
#[global] Instance eta_Row : Eta Row := fun r => mkRow (row_run_id r) (row_body r) (row_sequence r).

(** A row of [laso_coordination_leases]. *)
Record LeaseRow := mkLease {
  l_owner : string; l_token : Z; l_acquired : Z; l_heartbeat : Z; l_expires : Z }.
#[global] Instance eta_LeaseRow : Eta LeaseRow := fun r =>
  mkLease (l_owner r) (l_token r) (l_acquired r) (l_heartbeat r) (l_expires r).

(** A row of [laso_instances]. *)
Record InstanceRow := mkInstance {
  i_started : Z; i_heartbeat : Z; i_version : string; i_capabilities : string; i_state : string }.
#[global] Instance eta_InstanceRow : Eta InstanceRow := fun r =>
  mkInstance (i_started r) (i_heartbeat r) (i_version r) (i_capabilities r) (i_state r).

(** A row of [laso_operator_audit]. *)
Record AuditRow := mkAudit {
  au_sequence : Z; au_event_id : string; au_operation_id : string; au_actor : string;
  au_role : string; au_action : string; au_target_type : string; au_target_id : string;
  au_outcome : string; au_http_status : Z; au_occurred : Z }.

Record DB := mkDB {
  tables : gmap (RecordKind * string) Row;
  identity : gmap RecordKind Z;
  leases : gmap string LeaseRow;
  instances : gmap string InstanceRow;
  audit : list AuditRow;
  audit_identity : Z }.
#[global] Instance eta_DB : Eta DB := fun r =>
  mkDB (tables r) (identity r) (leases r) (instances r) (audit r) (audit_identity r).

Definition empty_db : DB := mkDB ∅ ∅ ∅ ∅ [] 0.

(** ** Transactions

    What a statement or a check inside a transaction can throw: an [Error] of the program, an
    SQL error with its state, or another standard exception (a JSON one).  Outside the store, the
    worker transports also throw [WorkerTransportError] and [WorkerSubmissionCancelled], which
    are [Error]s with the code [Plugin]. *)
Inductive texn := TError (e : Error) | TSql (sqlstate : string) | TStd
  | TTransport (cancelled timed_out : bool) (msg : string).
Inductive tres (A : Type) := TOk (a : A) | TThrow (x : texn).
Arguments TOk {A} _.
Arguments TThrow {A} _.
Definition T (A : Type) : Type := DB -> DB * tres A.

#[global] Instance t_ret : MRet T := fun A a db => (db, TOk a).
#[global] Instance t_bind : MBind T := fun A B f m db =>
  match m db with
  | (db', TOk a) => f a db'
  | (db', TThrow x) => (db', TThrow x)
  end.
Definition t_throw {A} (x : texn) : T A := fun db => (db, TThrow x).
Definition t_error {A} (c : ErrorCode) (msg : string) : T A := t_throw (TError (err c msg)).
Definition t_guard (cond : bool) (c : ErrorCode) (msg : string) : T unit :=
  if cond then t_error c msg else mret tt.
Definition t_get : T DB := fun db => (db, TOk db).
Definition t_put (db' : DB) : T unit := fun _ => (db', TOk tt).
Definition t_modify (f : DB -> DB) : T unit := fun db => (f db, TOk tt).
(** A JSON conversion: [None] is [Json::exception]. *)
Definition t_json {A} (o : option A) : T A :=
  match o with Some a => mret a | None => t_throw TStd end.
Fixpoint t_iter {A} (f : A -> T unit) (l : list A) : T unit :=
  match l with [] => mret tt | x :: l => f x ≫= fun _ => t_iter f l end.

(** The [catch] clauses every operation ends with; [failed] is the message of the last one. *)
Definition translate (unique failed operation : string) (x : texn) : Error :=
  match x with
  | TError e => e
  | TSql s => if String.eqb s "23505" then err Conflict unique else err StorageError operation
  | TStd => err StorageError failed
  | TTransport _ _ msg => err Plugin msg
  end.

(** A transaction: its effects are installed when the body returns; when it throws, only the
    identity columns have moved. *)
Definition rollback (old new : DB) : DB :=
  (old <| identity := identity new |>) <| audit_identity := audit_identity new |>.
Definition transaction {A} (unique failed operation : string) (body : T A) : M DB A := fun db =>
  match body db with
  | (db', TOk a) => (db', Ok a)
  | (db', TThrow x) => (rollback db db', Throw (translate unique failed operation x))
  end.

(** ** Statements *)

(** [nextval] of an identity column. *)
Definition next_identity (k : RecordKind) : T Z := fun db =>
  let n := default 0 (identity db !! k) + 1 in
  (db <| identity := <[k := n]> (identity db) |>, TOk n).

Definition select_row (k : RecordKind) (id : string) : T (option Row) := fun db =>
  (db, TOk (tables db !! (k, id))).

(** [INSERT ... ON CONFLICT (id) DO UPDATE SET body, run_id]: an existing row keeps its
    sequence number; the identity advances in both cases. *)
Definition upsert (k : RecordKind) (id run_id : string) (body : Json) : T unit :=
  n ← next_identity k;
  t_modify (fun db =>
    let seq := match tables db !! (k, id) with Some r => row_sequence r | None => n end in
    db <| tables := <[(k, id) := mkRow run_id body seq]> (tables db) |>).

(** [INSERT ... ON CONFLICT (id) DO NOTHING]: whether a row was inserted. *)
Definition insert_if_absent (k : RecordKind) (id run_id : string) (body : Json) : T bool :=
  n ← next_identity k;
  db ← t_get;
  match tables db !! (k, id) with
  | Some _ => mret false
  | None =>
      t_put (db <| tables := <[(k, id) := mkRow run_id body n]> (tables db) |>) ≫= fun _ =>
      mret true
  end.

(** [INSERT ...] with an explicit sequence number, or with the identity's; a taken id is the
    unique violation 23505. *)
Definition insert_row (k : RecordKind) (id run_id : string) (body : Json) (seq : option Z) : T unit :=
  n ← (match seq with Some n => mret n | None => next_identity k end);
  db ← t_get;
  match tables db !! (k, id) with
  | Some _ => t_throw (TSql "23505")
  | None => t_put (db <| tables := <[(k, id) := mkRow run_id body n]> (tables db) |>)
  end.

(** [UPDATE ... SET body WHERE id] *)
Definition update_body (k : RecordKind) (id : string) (body : Json) : T unit :=
  t_modify (fun db =>
    db <| tables := alter (fun r => r <| row_body := body |>) (k, id) (tables db) |>).

(** [SELECT ... ORDER BY sequence]: the rows of a kind, of one run unless [run_id] is empty. *)
Definition row_le (a b : string * Row) : Prop := row_sequence a.2 <= row_sequence b.2.
#[global] Instance row_le_dec : RelDecision row_le.
Proof. intros a b. unfold row_le. apply _. Defined.
Definition rows_of (db : DB) (k : RecordKind) : list (string * Row) :=
  omap (fun kv => if decide (kv.1.1 = k) then Some (kv.1.2, kv.2) else None) (map_to_list (tables db)).
Definition select_rows (db : DB) (k : RecordKind) (run_id : string) : list (string * Row) :=
  merge_sort row_le
    (filter (fun kv => run_id = ""%string \/ row_run_id kv.2 = run_id) (rows_of db k)).

(** The lease predicate of an owned write: the row is locked and must be current. *)
Definition lease_current (db : DB) (resource owner : string) (token now : Z) : bool :=
  match leases db !! resource with
  | Some l => String.eqb (l_owner l) owner && (l_token l =? token) && (now <? l_expires l)
  | None => false
  end.

(** ** Lemmas *)

Lemma t_bind_ok {A B} (m : T A) (f : A -> T B) db db' b :
  (m ≫= f) db = (db', TOk b) <-> exists db1 a, m db = (db1, TOk a) /\ f a db1 = (db', TOk b).
Proof.
  unfold mbind, t_bind. destruct (m db) as [db1 [a|x]]; split; intros H; [eauto| |done|];
    destruct H as (? & ? & ? & ?); by simplify_eq.
Qed.

Lemma t_bind_throw {A B} (m : T A) (f : A -> T B) db db' x :
  (m ≫= f) db = (db', TThrow x) <->
  m db = (db', TThrow x) \/ exists db1 a, m db = (db1, TOk a) /\ f a db1 = (db', TThrow x).
Proof.
  unfold mbind, t_bind. destruct (m db) as [db1 [a|x']]; split; intros H.
  - right; eauto.
  - destruct H as [|(? & ? & ? & ?)]; by simplify_eq.
  - left; congruence.
  - destruct H as [|(? & ? & ? & ?)]; by simplify_eq.
Qed.

Lemma t_guard_ok c code msg db db' u :
  t_guard c code msg db = (db', TOk u) <-> c = false /\ db' = db.
Proof.
  unfold t_guard. destruct c, u; split.
  - by intros [=].
  - by intros [[=] _].
  - by intros [= ->].
  - by intros [_ ->].
Qed.

Lemma transaction_ok {A} u f o (body : T A) db db' a :
  transaction u f o body db = (db', Ok a) <-> body db = (db', TOk a).
Proof. unfold transaction. destruct (body db) as [? [?|?]]; naive_solver. Qed.

Lemma transaction_throw {A} u f o (body : T A) db db' e :
  transaction u f o body db = (db', Throw e) ->
  tables db' = tables db /\ leases db' = leases db /\ instances db' = instances db
  /\ audit db' = audit db.
Proof. unfold transaction. destruct (body db) as [? [?|?]]; naive_solver. Qed.

Lemma upsert_spec k id run_id body db :
  upsert k id run_id body db =
  (let n := default 0 (identity db !! k) + 1 in
   (db <| identity := <[k := n]> (identity db) |>)
     <| tables := <[(k, id) := mkRow run_id body
          (match tables db !! (k, id) with Some r => row_sequence r | None => n end)]> (tables db) |>,
   TOk tt).
Proof. done. Qed.

Lemma elem_of_rows_of db k id r : (id, r) ∈ rows_of db k <-> tables db !! (k, id) = Some r.
Proof.
  unfold rows_of. rewrite list_elem_of_omap. split.
  - intros ([[k' id'] r'] & Hin & H). simpl in H. case_decide; simplify_eq.
    by apply elem_of_map_to_list in Hin.
  - intros H. exists ((k, id), r). split; [by apply elem_of_map_to_list|]. simpl. by rewrite decide_True.
Qed.

Lemma elem_of_select_rows db k run_id id r :
  (id, r) ∈ select_rows db k run_id <->
  tables db !! (k, id) = Some r /\ (run_id = ""%string \/ row_run_id r = run_id).
Proof.
  unfold select_rows. rewrite merge_sort_Permutation, list_elem_of_filter, elem_of_rows_of.
  simpl. tauto.
Qed.

#[global] Instance row_le_total : Total row_le.
Proof. intros a b. unfold row_le. lia. Qed.
#[global] Instance row_le_trans : Transitive row_le.
Proof. intros a b c. unfold row_le. lia. Qed.

Lemma select_rows_sorted db k run_id : StronglySorted row_le (select_rows db k run_id).
Proof. apply Sorted_StronglySorted; [apply _|]. apply Sorted_merge_sort. apply _. Qed.

Lemma lease_current_iff db resource owner token now :
  lease_current db resource owner token now = true <->
  exists l, leases db !! resource = Some l /\ l_owner l = owner /\ l_token l = token /\ now < l_expires l.
Proof.
  unfold lease_current. destruct (leases db !! resource) as [l|]; [|naive_solver].
  rewrite !andb_true_iff, String.eqb_eq, Z.eqb_eq, Z.ltb_lt. naive_solver.
Qed.
