(* ===== verification/Coordination.v ===== *)
(** * Coordination between service instances

    [src/storage/coordination.cpp]: leases with fencing tokens and the instance registry, on the
    shared database.  [clk] gives the successive readings of [clock_timestamp()] made by one
    operation, in the order in which its statement evaluates them; theorems assume only that the
    readings do not go backwards.  [LockSpec] is the contract: the history of grants of one
    resource, in which a token is the position of a grant. *)

From S2P Require Import Prelude Json Db.

(** [struct LeaseRecord]; timestamps are database microseconds. *)
Record LeaseRecord := mkLeaseRecord {
  resource_key : string; owner_instance : string; lr_token : Z;
  lr_acquired : Z; lr_heartbeat : Z; lr_expires : Z; lr_active : bool }.

(** [PostgresCoordination]: the database and the counters of this instance. *)
Record Coord := mkCoord {
  c_db : DB; acquisition_failures : Z; renewal_failures : Z; fencing_rejections : Z }.
#[global] Instance eta_Coord : Eta Coord := fun r =>
  mkCoord (c_db r) (acquisition_failures r) (renewal_failures r) (fencing_rejections r).

Definition validate_resource {S} (resource : string) : M S unit :=
  m_guard (empty_str resource || (256 <? size_of resource)) Validation
    "Invalid coordination resource key".
Definition validate_ttl {S} (ttl_ms : Z) : M S unit :=
  m_guard ((ttl_ms =? 0) || (86400000 <? ttl_ms)) Validation "Invalid coordination lease duration".
Definition instance_states : list string :=
  ["STARTING"; "ACTIVE"; "DRAINING"; "DRAINED"; "MAINTENANCE"; "STOPPED"; "STALE"]%string.
Definition validate_instance_state {S} (state : string) : M S unit :=
  m_guard (negb (existsb (String.eqb state) instance_states)) Validation "Invalid LASO instance state".

(** [ttl_ms * interval '1 millisecond'] *)
Definition interval_us (ttl_ms : Z) : Z := ttl_ms * 1000.

Definition read_lease (resource : string) (l : LeaseRow) (now : Z) : LeaseRecord :=
  mkLeaseRecord resource (l_owner l) (l_token l) (l_acquired l) (l_heartbeat l) (l_expires l)
    (now <? l_expires l).

(** A database transaction of the coordination backend. *)
Definition on_db {A} (failed : string) (body : T A) : M Coord A := fun c =>
  let '(db', r) := transaction "Coordination uniqueness conflict" failed
                     "Coordination database operation failed" body (c_db c) in
  (c <| c_db := db' |>, r).
(** A 64-bit token used as a BIGINT parameter. *)
Definition bigint_parameter (z : Z) : T unit := if i64_max <? z then t_throw (TSql "22003") else mret tt.

Section Operations.
Context (owner_ : string).

(** The statement of [acquire]: insert the first lease of the resource, or take over an expired
    one under the next token. *)
Definition upsert_lease (resource : string) (ttl_ms : Z) (clk : nat -> Z) : T (option LeaseRecord) :=
  fun db =>
  let expires := clk 2%nat + interval_us ttl_ms in
  match leases db !! resource with
  | None =>
      let l := mkLease owner_ 1 (clk 0%nat) (clk 1%nat) expires in
      (db <| leases := <[resource := l]> (leases db) |>,
       TOk (Some (read_lease resource l (clk 4%nat))))
  | Some old =>
      if l_expires old <=? clk 3%nat then
        if i64_max <=? l_token old then (db, TThrow (TSql "22003"))
        else
          let l := mkLease owner_ (l_token old + 1) (clk 0%nat) (clk 1%nat) expires in
          (db <| leases := <[resource := l]> (leases db) |>,
           TOk (Some (read_lease resource l (clk 4%nat))))
      else (db, TOk None)
  end.

(** The first statement of [acquire]: this instance must be registered and active. *)
Definition instance_active (db : DB) : bool :=
  match instances db !! owner_ with Some i => String.eqb (i_state i) "ACTIVE" | None => false end.

Definition acquire (resource : string) (ttl_ms : Z) (clk : nat -> Z) : M Coord (option LeaseRecord) :=
  validate_resource resource ;;;
  validate_ttl ttl_ms ;;;
  do out <- on_db "Coordination acquisition failed"
              (db ← t_get; if instance_active db then upsert_lease resource ttl_ms clk else mret None);
  match out with
  | Some l => m_ret (Some l)
  | None => m_modify (fun c => c <| acquisition_failures := acquisition_failures c + 1 |>) ;;;
            m_ret None
  end.

(** The row an operation on [rec] matches: same owner, same token, not expired. *)
Definition matching_lease (db : DB) (rec : LeaseRecord) (now : Z) : option LeaseRow :=
  match leases db !! resource_key rec with
  | Some l => if String.eqb (l_owner l) (owner_instance rec) && (l_token l =? lr_token rec)
                 && (now <? l_expires l) then Some l else None
  | None => None
  end.

(** [renew] returns the lease record as it updates its argument. *)
Definition renew (rec : LeaseRecord) (ttl_ms : Z) (clk : nat -> Z) : M Coord (option LeaseRecord) :=
  validate_resource (resource_key rec) ;;;
  validate_ttl ttl_ms ;;;
  if negb (String.eqb (owner_instance rec) owner_) then
    m_modify (fun c => c <| renewal_failures := renewal_failures c + 1 |>) ;;; m_ret None
  else
    do out <- on_db "Coordination renewal failed"
                (_ ← bigint_parameter (lr_token rec);
                 db ← t_get;
                 match matching_lease db rec (clk 0%nat) with
                 | Some l =>
                     let l' := (l <| l_heartbeat := clk 1%nat |>)
                                 <| l_expires := clk 2%nat + interval_us ttl_ms |> in
                     t_put (db <| leases := <[resource_key rec := l']> (leases db) |>) ≫= fun _ =>
                     mret (Some (read_lease (resource_key rec) l' (clk 3%nat)))
                 | None => mret None
                 end);
    match out with
    | Some l => m_ret (Some l)
    | None => m_modify (fun c => c <| renewal_failures := renewal_failures c + 1 |>) ;;; m_ret None
    end.

Definition release (rec : LeaseRecord) (clk : nat -> Z) : M Coord bool :=
  validate_resource (resource_key rec) ;;;
  if negb (String.eqb (owner_instance rec) owner_) then m_ret false
  else
    on_db "Coordination release failed"
      (_ ← bigint_parameter (lr_token rec);
       db ← t_get;
       match matching_lease db rec (clk 0%nat) with
       | Some l =>
           t_put (db <| leases := <[resource_key rec := l <| l_expires := clk 1%nat |>]> (leases db) |>)
             ≫= fun _ => mret true
       | None => mret false
       end).

Definition inspect_lease (resource : string) (clk : nat -> Z) : M Coord (option LeaseRecord) :=
  validate_resource resource ;;;
  on_db "Coordination inspection failed"
    (db ← t_get; mret ((fun l => read_lease resource l (clk 0%nat)) <$> leases db !! resource)).

Definition require_current (rec : LeaseRecord) (clk : nat -> Z) : M Coord unit :=
  validate_resource (resource_key rec) ;;;
  if negb (String.eqb (owner_instance rec) owner_) then
    m_modify (fun c => c <| fencing_rejections := fencing_rejections c + 1 |>) ;;;
    m_throw Conflict "Coordination fencing token belongs to another owner"
  else
    do found <- on_db "Coordination fencing check failed"
                  (_ ← bigint_parameter (lr_token rec);
                   db ← t_get; mret (matching_lease db rec (clk 0%nat)));
    match found with
    | Some _ => m_ret tt
    | None =>
        m_modify (fun c => c <| fencing_rejections := fencing_rejections c + 1 |>) ;;;
        m_throw Conflict "Stale coordination fencing token"
    end.

(** ** The instance registry *)

Definition register_instance (software_version capabilities state : string) (clk : nat -> Z)
    : M Coord unit :=
  validate_instance_state state ;;;
  m_guard ((128 <? size_of software_version) || (4096 <? size_of capabilities)) Validation
    "LASO instance metadata exceeds limits" ;;;
  on_db "Instance registration failed"
    (t_modify (fun db => db <| instances := <[owner_ :=
       mkInstance (clk 0%nat) (clk 1%nat) software_version capabilities state]> (instances db) |>)).

(** [UPDATE laso_instances ... RETURNING]: whether the instance is registered. *)
Definition update_instance (state : string) (clk : nat -> Z) : T bool := fun db =>
  match instances db !! owner_ with
  | Some i =>
      (db <| instances := <[owner_ := (i <| i_heartbeat := clk 0%nat |>) <| i_state := state |>]>
                            (instances db) |>, TOk true)
  | None => (db, TOk false)
  end.
Definition heartbeat_instance (state : string) (clk : nat -> Z) : M Coord bool :=
  validate_instance_state state ;;;
  on_db "Instance heartbeat failed" (update_instance state clk).
Definition set_instance_state (state : string) (clk : nat -> Z) : M Coord unit :=
  validate_instance_state state ;;;
  on_db "Instance state update failed"
    (found ← update_instance state clk;
     if (found : bool) then mret tt else t_error NotFound "LASO instance is not registered").

(** The state a reader sees: an instance without a recent heartbeat is stale. *)
Definition observed_state (stale_after_ms now : Z) (i : InstanceRow) : string :=
  if (0 <? stale_after_ms) && (i_heartbeat i + interval_us stale_after_ms <=? now)
  then "STALE" else i_state i.
Definition list_instances (stale_after_ms limit offset : Z) (now : Z)
    : M Coord (list (string * InstanceRow)) :=
  m_guard ((86400000 <? stale_after_ms) || (100 <? limit) || (100000000 <? offset)) Validation
    "Invalid instance stale interval" ;;;
  on_db "Instance listing failed"
    (db ← t_get;
     mret (map (fun kv => (kv.1, kv.2 <| i_state := observed_state stale_after_ms now kv.2 |>))
             (take (Z.to_nat limit) (drop (Z.to_nat offset) (map_items (instances db)))))).
Definition current_instance (stale_after_ms now : Z) : M Coord (option InstanceRow) :=
  m_guard (86400000 <? stale_after_ms) Validation "Invalid instance stale interval" ;;;
  on_db "Instance status query failed"
    (db ← t_get;
     mret ((fun i => i <| i_state := observed_state stale_after_ms now i |>)
           <$> instances db !! owner_)).
Definition list_leases (limit offset : Z) (now : Z) : M Coord (list LeaseRecord) :=
  m_guard ((100 <? limit) || (100000000 <? offset)) Validation "Lease listing limit exceeded" ;;;
  on_db "Lease listing failed"
    (db ← t_get;
     mret (map (fun kv => read_lease kv.1 kv.2 now)
             (take (Z.to_nat limit) (drop (Z.to_nat offset) (map_items (leases db)))))).
End Operations.

(** ** The contract

    One resource: its grants, the latest first.  The token of a grant is its position counted
    from the first one. *)
Module LockSpec.
Record grant := mkGrant { g_owner : string; g_until : Z }.
Definition history : Type := list grant.
Definition last_token (h : history) : Z := Z.of_nat (length h).

Inductive label :=
  | LGrant (owner : string) (token until : Z)
  | LRenew (owner : string) (token until : Z)
  | LRelease (owner : string) (token : Z)
  | LConfirm (owner : string) (token : Z)
  | LRefuse
  | LTau.

(** [holds h owner token t]: the latest grant is [owner]'s under [token] and lasts beyond [t]. *)
Definition holds (h : history) (owner : string) (token t : Z) : Prop :=
  exists g rest, h = g :: rest /\ g_owner g = owner /\ last_token h = token /\ t < g_until g.

(** The steps between the times [t0] and [t1]. *)
Inductive step (t0 t1 : Z) : history -> label -> history -> Prop :=
  | step_grant h owner until :
      (forall g rest, h = g :: rest -> g_until g <= t1) -> t0 < until ->
      step t0 t1 h (LGrant owner (last_token h + 1) until) (mkGrant owner until :: h)
  | step_renew g rest t until :
      t0 <= t <= t1 -> t < g_until g -> t0 < until ->
      step t0 t1 (g :: rest) (LRenew (g_owner g) (last_token (g :: rest)) until)
        (mkGrant (g_owner g) until :: rest)
  | step_release g rest t at_ :
      t0 <= t <= t1 -> t < g_until g -> t <= at_ <= t1 ->
      step t0 t1 (g :: rest) (LRelease (g_owner g) (last_token (g :: rest)))
        (mkGrant (g_owner g) at_ :: rest)
  | step_confirm h owner token t :
      t0 <= t <= t1 -> holds h owner token t -> step t0 t1 h (LConfirm owner token) h
  | step_refuse h : step t0 t1 h LRefuse h
  | step_tau h : step t0 t1 h LTau h.

(** A step keeps the earlier grants, and the number of grants grows by one or not at all. *)
Lemma step_length t0 t1 h l h' : step t0 t1 h l h' ->
  (last_token h' = last_token h + 1 /\ exists owner until, l = LGrant owner (last_token h') until)
  \/ last_token h' = last_token h.
Proof.
  unfold last_token. destruct 1; try (by right). left.
  cbn [length]. rewrite Nat2Z.inj_succ. split; [done|]. by exists owner, until.
Qed.
End LockSpec.

(** ** The system: any number of instances on one database *)

(** The readings of one operation, taken between [now] and [now']. *)
Definition readings (now : Z) (clk : nat -> Z) (now' : Z) : Prop :=
  (forall i j, (i <= j)%nat -> clk i <= clk j) /\ now <= clk 0%nat /\ forall i, clk i <= now'.

Inductive action :=
  | AAcquire (owner resource : string) (out : option LeaseRecord)
  | ARenew (owner : string) (rec : LeaseRecord) (out : option LeaseRecord)
  | ARelease (owner : string) (rec : LeaseRecord) (done : bool)
  | AConfirm (owner : string) (rec : LeaseRecord)
  | AFailed
  | AOther.

(** Steps of any instance; an operation that throws leaves the leases alone, and [AOther] stands
    for everything that does not touch the lease table. *)
Inductive sys_step : DB * Z -> action -> DB * Z -> Prop :=
  | sys_acquire owner resource ttl clk c c' out now now' :
      readings now clk now' -> 0 <= ttl -> acquire owner resource ttl clk c = (c', Ok out) ->
      sys_step (c_db c, now) (AAcquire owner resource out) (c_db c', now')
  | sys_renew owner rec ttl clk c c' out now now' :
      readings now clk now' -> 0 <= ttl -> renew owner rec ttl clk c = (c', Ok out) ->
      sys_step (c_db c, now) (ARenew owner rec out) (c_db c', now')
  | sys_release owner rec clk c c' b now now' :
      readings now clk now' -> release owner rec clk c = (c', Ok b) ->
      sys_step (c_db c, now) (ARelease owner rec b) (c_db c', now')
  | sys_confirm owner rec clk c c' now now' :
      readings now clk now' -> require_current owner rec clk c = (c', Ok tt) ->
      sys_step (c_db c, now) (AConfirm owner rec) (c_db c', now')
  | sys_rejected owner rec clk c c' e now now' :
      readings now clk now' -> require_current owner rec clk c = (c', Throw e) ->
      sys_step (c_db c, now) AFailed (c_db c', now')
  | sys_other db db' now now' :
      now <= now' -> leases db' = leases db -> sys_step (db, now) AOther (db', now').

Inductive sys_steps : DB * Z -> list action -> DB * Z -> Prop :=
  | sys_nil s : sys_steps s [] s
  | sys_cons s a s1 acts s2 : sys_step s a s1 -> sys_steps s1 acts s2 -> sys_steps s (a :: acts) s2.

(** *** Inversion of the operations *)

Lemma on_db_ok {A} failed (body : T A) c c' a :
  on_db failed body c = (c', Ok a) ->
  exists db', body (c_db c) = (db', TOk a) /\ c' = c <| c_db := db' |>.
Proof.
  unfold on_db. destruct (transaction _ _ _ body (c_db c)) as [db' r] eqn:E. intros H.
  injection H as <- ->. apply transaction_ok in E. eauto.
Qed.

Lemma on_db_throw {A} failed (body : T A) c c' e :
  on_db failed body c = (c', Throw e) -> leases (c_db c') = leases (c_db c).
Proof.
  unfold on_db. destruct (transaction _ _ _ body (c_db c)) as [db' r] eqn:E. intros H.
  injection H as <- ->. apply transaction_throw in E. simpl. tauto.
Qed.

Lemma m_guard_ok {S} c code msg (s s' : S) u :
  m_guard c code msg s = (s', Ok u) <-> c = false /\ s' = s.
Proof.
  unfold m_guard. destruct c, u; split; [by intros [=]|by intros [[=] _]|by intros [= ->]|by intros [_ ->]].
Qed.

(** Peels the checks in front of an operation. *)
Ltac peel_guards H :=
  repeat (let s := fresh "s" in let Hg := fresh "Hg" in
          apply m_bind_ok in H as (s & [] & Hg & H);
          unfold validate_resource, validate_ttl, validate_instance_state in Hg;
          apply m_guard_ok in Hg as [Hg ->]).

Lemma bigint_parameter_ok z db db' u : bigint_parameter z db = (db', TOk u) -> db' = db.
Proof. unfold bigint_parameter. destruct (i64_max <? z); [done|]. by intros [= ->]. Qed.

(** A successful [acquire]: the resource had no lease, or one that had expired, and now has the
    next token; a refused one changes nothing. *)
Lemma acquire_ok owner resource ttl clk c c' out :
  acquire owner resource ttl clk c = (c', Ok out) ->
  ttl <> 0 /\
  match out with
  | None => leases (c_db c') = leases (c_db c)
  | Some rec =>
      instance_active owner (c_db c) = true /\
      resource_key rec = resource /\ owner_instance rec = owner /\
      lr_token rec = default 0 (l_token <$> leases (c_db c) !! resource) + 1 /\
      (forall l, leases (c_db c) !! resource = Some l -> l_expires l <= clk 3%nat) /\
      lr_expires rec = clk 2%nat + interval_us ttl /\
      leases (c_db c') = <[resource := mkLease owner (lr_token rec) (clk 0%nat) (clk 1%nat)
                                         (lr_expires rec)]> (leases (c_db c))
  end.
Proof.
  intros H. unfold acquire in H. peel_guards H.
  apply m_bind_ok in H as (c1 & o & H1 & H). apply on_db_ok in H1 as (db1 & H1 & ->).
  apply orb_false_iff in Hg0 as [Ht%Z.eqb_neq _]. split; [done|].
  unfold mbind, t_bind, t_get in H1. cbn in H1.
  destruct (instance_active owner (c_db c)) eqn:Ha; cbn in H1.
  2: { injection H1 as <- <-. apply m_bind_ok in H as (c2 & [] & H2 & H).
       unfold m_modify, m_ret in *. by simplify_res. }
  unfold upsert_lease in H1. destruct (leases (c_db c) !! resource) as [l|] eqn:El.
  - destruct (Z.leb_spec (l_expires l) (clk 3%nat)).
    + destruct (i64_max <=? l_token l); [done|]. injection H1 as <- <-. unfold m_ret in H.
      simplify_res. simpl. split_and!; try done. intros l' [= <-]. done.
    + injection H1 as <- <-. apply m_bind_ok in H as (c2 & [] & H2 & H).
      unfold m_modify, m_ret in *. simplify_res. done.
  - injection H1 as <- <-. unfold m_ret in H. simplify_res. simpl. split_and!; done.
Qed.

Lemma matching_lease_some db rec now l :
  matching_lease db rec now = Some l <->
  leases db !! resource_key rec = Some l /\ l_owner l = owner_instance rec
  /\ l_token l = lr_token rec /\ now < l_expires l.
Proof.
  unfold matching_lease. destruct (leases db !! resource_key rec) as [l'|]; [|naive_solver].
  destruct (_ && _) eqn:E.
  - rewrite !andb_true_iff, String.eqb_eq, Z.eqb_eq, Z.ltb_lt in E. naive_solver.
  - split; [done|]. intros ([= <-] & Ho & Ht & He). apply String.eqb_eq in Ho. apply Z.eqb_eq in Ht.
    apply Z.ltb_lt in He. by rewrite Ho, Ht, He in E.
Qed.

Lemma renew_ok owner rec ttl clk c c' out :
  renew owner rec ttl clk c = (c', Ok out) ->
  ttl <> 0 /\
  match out with
  | None => leases (c_db c') = leases (c_db c)
  | Some rec' =>
      exists l, matching_lease (c_db c) rec (clk 0%nat) = Some l /\ owner_instance rec = owner /\
      resource_key rec' = resource_key rec /\ owner_instance rec' = owner /\
      lr_token rec' = lr_token rec /\ lr_expires rec' = clk 2%nat + interval_us ttl /\
      leases (c_db c') = <[resource_key rec := mkLease (l_owner l) (l_token l) (l_acquired l)
                             (clk 1%nat) (clk 2%nat + interval_us ttl)]> (leases (c_db c))
  end.
Proof.
  intros H. unfold renew in H. peel_guards H.
  apply orb_false_iff in Hg0 as [Ht%Z.eqb_neq _]. split; [done|].
  destruct (String.eqb_spec (owner_instance rec) owner) as [Ho|]; simpl in H.
  2: { apply m_bind_ok in H as (c2 & [] & H2 & H). unfold m_modify, m_ret in *. by simplify_res. }
  apply m_bind_ok in H as (c1 & o & H1 & H). apply on_db_ok in H1 as (db1 & H1 & ->).
  apply t_bind_ok in H1 as (db2 & [] & Hb & H1). apply bigint_parameter_ok in Hb as ->.
  unfold mbind at 1, t_bind at 1, t_get in H1. cbn in H1.
  destruct (matching_lease (c_db c) rec (clk 0%nat)) as [l|] eqn:Em.
  - injection H1 as <- <-. unfold m_ret in H. simplify_res. simpl. exists l.
    apply matching_lease_some in Em as (_ & Hlo & Hlt & _). split_and!; done || congruence.
  - injection H1 as <- <-. apply m_bind_ok in H as (c2 & [] & H2 & H).
    unfold m_modify, m_ret in *. by simplify_res.
Qed.

Lemma release_ok owner rec clk c c' b :
  release owner rec clk c = (c', Ok b) ->
  if b then
    exists l, matching_lease (c_db c) rec (clk 0%nat) = Some l /\ owner_instance rec = owner /\
    leases (c_db c') = <[resource_key rec := l <| l_expires := clk 1%nat |>]> (leases (c_db c))
  else leases (c_db c') = leases (c_db c).
Proof.
  intros H. unfold release in H. peel_guards H.
  destruct (String.eqb_spec (owner_instance rec) owner) as [Ho|]; simpl in H.
  2: { unfold m_ret in H. by simplify_res. }
  apply on_db_ok in H as (db1 & H1 & ->).
  apply t_bind_ok in H1 as (db2 & [] & Hb & H1). apply bigint_parameter_ok in Hb as ->.
  unfold mbind at 1, t_bind at 1, t_get in H1. cbn in H1.
  destruct (matching_lease (c_db c) rec (clk 0%nat)) as [l|]; injection H1 as <- <-; simpl; eauto.
Qed.

Lemma require_current_run owner rec clk c c' r :
  require_current owner rec clk c = (c', r) ->
  leases (c_db c') = leases (c_db c) /\
  (r = Ok tt -> owner_instance rec = owner /\ is_Some (matching_lease (c_db c) rec (clk 0%nat))).
Proof.
  unfold require_current, validate_resource, m_guard, m_throw. destruct (_ || _); cbn.
  { intros H. by injection H as <- <-. }
  destruct (String.eqb_spec (owner_instance rec) owner) as [Ho|]; cbn.
  2: { intros H. by injection H as <- <-. }
  unfold m_bind at 1. destruct (on_db _ _ c) as [c1 [o|e]] eqn:E.
  - apply on_db_ok in E as (db1 & H1 & ->).
    apply t_bind_ok in H1 as (db2 & [] & Hb & H1). apply bigint_parameter_ok in Hb as ->.
    cbn in H1. injection H1 as <- <-.
    destruct (matching_lease (c_db c) rec (clk 0%nat)); cbn; intros H;
      injection H as <- <-; (split; [done|]); [eauto|done].
  - apply on_db_throw in E. intros H. by injection H as <- <-.
Qed.

(** *** Refinement *)

(** The lease row of a resource summarises its history. *)
Definition represents (db : DB) (resource : string) (h : LockSpec.history) : Prop :=
  match leases db !! resource, h with
  | None, [] => True
  | Some l, g :: rest =>
      LockSpec.g_owner g = l_owner l /\ LockSpec.g_until g = l_expires l
      /\ LockSpec.last_token (g :: rest) = l_token l
  | _, _ => False
  end.

(** What an action is, seen from one resource. *)
Definition observe (resource : string) (a : action) : LockSpec.label :=
  match a with
  | AAcquire owner res (Some rec) =>
      if String.eqb res resource then LockSpec.LGrant owner (lr_token rec) (lr_expires rec)
      else LockSpec.LTau
  | AAcquire _ _ None => LockSpec.LRefuse
  | ARenew owner rec (Some rec') =>
      if String.eqb (resource_key rec) resource
      then LockSpec.LRenew owner (lr_token rec) (lr_expires rec') else LockSpec.LTau
  | ARenew _ _ None => LockSpec.LRefuse
  | ARelease owner rec true =>
      if String.eqb (resource_key rec) resource
      then LockSpec.LRelease owner (lr_token rec) else LockSpec.LTau
  | ARelease _ _ false => LockSpec.LRefuse
  | AConfirm owner rec =>
      if String.eqb (resource_key rec) resource
      then LockSpec.LConfirm owner (lr_token rec) else LockSpec.LTau
  | AFailed => LockSpec.LRefuse
  | AOther => LockSpec.LTau
  end.

Lemma represents_leases db db' resource h :
  leases db' !! resource = leases db !! resource -> represents db resource h -> represents db' resource h.
Proof. unfold represents. by intros ->. Qed.

Lemma represents_matching db rec t l h :
  matching_lease db rec t = Some l -> represents db (resource_key rec) h ->
  exists g rest, h = g :: rest /\ LockSpec.g_owner g = owner_instance rec
    /\ LockSpec.last_token (g :: rest) = lr_token rec /\ t < LockSpec.g_until g
    /\ LockSpec.g_until g = l_expires l /\ l_token l = lr_token rec /\ l_owner l = owner_instance rec.
Proof.
  intros (Hl & Ho & Ht & He)%matching_lease_some. unfold represents. rewrite Hl.
  destruct h as [|g rest]; [done|]. intros (Hgo & Hgu & Hgt). exists g, rest.
  split_and!; congruence || lia.
Qed.

Lemma grant_simulated t0 t1 owner resource ttl clk c c' rec h :
  readings t0 clk t1 -> 0 <= ttl -> acquire owner resource ttl clk c = (c', Ok (Some rec)) ->
  represents (c_db c) resource h ->
  exists h', LockSpec.step t0 t1 h (LockSpec.LGrant owner (lr_token rec) (lr_expires rec)) h'
    /\ represents (c_db c') resource h'.
Proof.
  intros (Hmono & Hlo & Hhi) Httl (Hnz & _ & _ & _ & Htok & Hold & Hexp & Hls)%acquire_ok Hr.
  exists (LockSpec.mkGrant owner (lr_expires rec) :: h).
  assert (Hlen : lr_token rec = LockSpec.last_token h + 1).
  { unfold represents in Hr. rewrite Htok. destruct (leases (c_db c) !! resource), h; simpl in *;
      try done. by destruct Hr as (_ & _ & ->). }
  split.
  - rewrite Hlen. constructor.
    + intros g rest ->. unfold represents in Hr. destruct (leases (c_db c) !! resource) as [l|]; [|done].
      destruct Hr as (_ & -> & _). specialize (Hold _ eq_refl). specialize (Hhi 3%nat). lia.
    + rewrite Hexp. unfold interval_us. specialize (Hmono 0%nat 2%nat). lia.
  - unfold represents. rewrite Hls, lookup_insert_eq. simpl. split_and!; [done..|].
    unfold LockSpec.last_token in *. cbn [length]. lia.
Qed.

Lemma renew_simulated t0 t1 owner rec rec' ttl clk c c' h :
  readings t0 clk t1 -> 0 <= ttl -> renew owner rec ttl clk c = (c', Ok (Some rec')) ->
  represents (c_db c) (resource_key rec) h ->
  exists h', LockSpec.step t0 t1 h (LockSpec.LRenew owner (lr_token rec) (lr_expires rec')) h'
    /\ represents (c_db c') (resource_key rec) h'.
Proof.
  intros (Hmono & Hlo & Hhi) Httl (Hnz & l & Hm & Ho & Hk & Hr1 & Ht & He & Hls)%renew_ok Hr.
  destruct (represents_matching _ _ _ _ _ Hm Hr) as (g & rest & -> & Hgo & Hgt & Hu & Hgu & Hlt & Hlo').
  exists (LockSpec.mkGrant owner (lr_expires rec') :: rest). split.
  - rewrite <- Hgt, <- Ho, <- Hgo. apply (LockSpec.step_renew _ _ _ _ (clk 0%nat)); [split; [done|apply Hhi]|done|].
    rewrite He. unfold interval_us. specialize (Hmono 0%nat 2%nat). lia.
  - unfold represents. rewrite Hls, lookup_insert_eq. simpl. split_and!; [congruence|done|].
    unfold LockSpec.last_token in *. cbn [length] in *. congruence.
Qed.

Lemma release_simulated t0 t1 owner rec clk c c' h :
  readings t0 clk t1 -> release owner rec clk c = (c', Ok true) ->
  represents (c_db c) (resource_key rec) h ->
  exists h', LockSpec.step t0 t1 h (LockSpec.LRelease owner (lr_token rec)) h'
    /\ represents (c_db c') (resource_key rec) h'.
Proof.
  intros (Hmono & Hlo & Hhi) (l & Hm & Ho & Hls)%release_ok Hr.
  destruct (represents_matching _ _ _ _ _ Hm Hr) as (g & rest & -> & Hgo & Hgt & Hu & Hgu & Hlt & Hlo').
  exists (LockSpec.mkGrant owner (clk 1%nat) :: rest). split.
  - rewrite <- Hgt, <- Ho, <- Hgo. apply (LockSpec.step_release _ _ _ _ (clk 0%nat)); [split; [done|apply Hhi]|done|].
    split; [apply Hmono; lia|apply Hhi].
  - unfold represents. rewrite Hls, lookup_insert_eq. simpl. split_and!; [congruence|done|].
    unfold LockSpec.last_token in *. cbn [length] in *. congruence.
Qed.

Lemma represents_insert_ne db db' res k v h :
  leases db' = <[k := v]> (leases db) -> k <> res -> represents db res h -> represents db' res h.
Proof. intros Hl Hne. apply represents_leases. by rewrite Hl, lookup_insert_ne. Qed.

Lemma lease_simulation res t0 t1 db db' a h :
  sys_step (db, t0) a (db', t1) -> represents db res h ->
  exists h', LockSpec.step t0 t1 h (observe res a) h' /\ represents db' res h'.
Proof.
  inversion 1 as [owner r ttl clk c c' out ? ? Hrd Httl Hop|owner rec ttl clk c c' out ? ? Hrd Httl Hop
    |owner rec clk c c' b ? ? Hrd Hop|owner rec clk c c' ? ? Hrd Hop
    |owner rec clk c c' e ? ? Hrd Hop|? ? ? ? Hle Hls]; subst; intros Hr; simpl.
  - destruct out as [rec|].
    + destruct (String.eqb_spec r res) as [->|Hne]; [by eapply grant_simulated|].
      exists h. split; [constructor|]. apply acquire_ok in Hop as (_ & _ & _ & _ & _ & _ & _ & Hls).
      by eapply represents_insert_ne.
    + exists h. split; [constructor|]. apply acquire_ok in Hop as [_ Hls].
      by eapply represents_leases; [rewrite Hls|].
  - destruct out as [rec'|].
    + destruct (String.eqb_spec (resource_key rec) res) as [<-|Hne]; [by eapply renew_simulated|].
      exists h. split; [constructor|]. apply renew_ok in Hop as (_ & l & _ & _ & _ & _ & _ & _ & Hls).
      by eapply represents_insert_ne.
    + exists h. split; [constructor|]. apply renew_ok in Hop as [_ Hls].
      by eapply represents_leases; [rewrite Hls|].
  - destruct b.
    + destruct (String.eqb_spec (resource_key rec) res) as [<-|Hne]; [by eapply release_simulated|].
      exists h. split; [constructor|]. apply release_ok in Hop as (l & _ & _ & Hls).
      by eapply represents_insert_ne.
    + exists h. split; [constructor|]. apply release_ok in Hop.
      by eapply represents_leases; [rewrite Hop|].
  - apply require_current_run in Hop as [Hls Hcur]. exists h.
    split; [|by eapply represents_leases; [rewrite Hls|]].
    destruct (Hcur eq_refl) as [Ho [l Hm]].
    destruct (String.eqb_spec (resource_key rec) res) as [<-|Hne]; [|constructor].
    destruct (represents_matching _ _ _ _ _ Hm Hr) as (g & rest & -> & Hgo & Hgt & Hu & _).
    destruct Hrd as (_ & Hlo & Hhi).
    apply (LockSpec.step_confirm _ _ _ _ _ (clk 0%nat)); [split; [done|apply Hhi]|].
    exists g, rest. split_and!; congruence || done.
  - apply require_current_run in Hop as [Hls _]. exists h. split; [constructor|].
    by eapply represents_leases; [rewrite Hls|].
  - exists h. split; [constructor|]. by eapply represents_leases; [rewrite Hls|].
Qed.

(** *** Tokens along executions *)

Definition token_of (db : DB) (resource : string) : Z :=
  default 0 (l_token <$> leases db !! resource).

Lemma token_insert db db' k l res :
  leases db' = <[k := l]> (leases db) ->
  token_of db' res = if decide (k = res) then l_token l else token_of db res.
Proof.
  unfold token_of. intros ->. destruct (decide (k = res)) as [->|Hne].
  - by rewrite lookup_insert_eq.
  - by rewrite lookup_insert_ne.
Qed.

(** The token of a resource moves only by a grant of that resource, to the next number. *)
Lemma token_step res s a s' : sys_step s a s' ->
  (exists owner rec, a = AAcquire owner res (Some rec) /\ lr_token rec = token_of s'.1 res
     /\ token_of s'.1 res = token_of s.1 res + 1)
  \/ (token_of s'.1 res = token_of s.1 res
      /\ forall owner rec, a <> AAcquire owner res (Some rec)).
Proof.
  destruct 1 as [owner r ttl clk c c' out now now' Hrd Httl Hop
    |owner rec ttl clk c c' out now now' Hrd Httl Hop
    |owner rec clk c c' b now now' Hrd Hop|owner rec clk c c' now now' Hrd Hop
    |owner rec clk c c' e now now' Hrd Hop|db db' now now' Hle Hls]; simpl.
  - destruct out as [rec|]; apply acquire_ok in Hop as [_ Hop].
    + destruct Hop as (_ & _ & _ & Ht & _ & _ & Hls). pose proof (token_insert _ _ _ _ res Hls) as Hi.
      destruct (decide (r = res)) as [->|Hne].
      * left. exists owner, rec. simpl in Hi. split_and!; [done|congruence|].
        rewrite Hi, Ht. done.
      * right. split; [done|]. intros o rc [= _ ? _]. done.
    + right. split; [unfold token_of; by rewrite Hop|done].
  - right. split; [|done]. destruct out as [rec'|]; apply renew_ok in Hop as [_ Hop].
    + destruct Hop as (l & (Hl & _ & _ & _)%matching_lease_some & _ & _ & _ & _ & _ & Hls).
      rewrite (token_insert _ _ _ _ res Hls). case_decide as Hd; [|done]. subst res.
      unfold token_of. by rewrite Hl.
    + unfold token_of. by rewrite Hop.
  - right. split; [|done]. apply release_ok in Hop. destruct b.
    + destruct Hop as (l & (Hl & _ & _ & _)%matching_lease_some & _ & Hls).
      rewrite (token_insert _ _ _ _ res Hls). case_decide as Hd; [|done]. subst res.
      unfold token_of. by rewrite Hl.
    + unfold token_of. by rewrite Hop.
  - right. apply require_current_run in Hop as [Hls _]. unfold token_of. by rewrite Hls.
  - right. apply require_current_run in Hop as [Hls _]. unfold token_of. by rewrite Hls.
  - right. unfold token_of. by rewrite Hls.
Qed.

Lemma token_steps res s acts s' : sys_steps s acts s' ->
  token_of s.1 res <= token_of s'.1 res /\
  (forall owner rec, AAcquire owner res (Some rec) ∈ acts ->
     token_of s.1 res < lr_token rec <= token_of s'.1 res).
Proof.
  induction 1 as [s|s a s1 acts s2 Hs Hss [IH1 IH2]]; [split; [lia|set_solver]|].
  destruct (token_step res _ _ _ Hs) as [(o & rc & -> & Ht & Hn)|[He Hno]].
  - split; [lia|]. intros owner rec [[= -> ->]|Hin]%elem_of_cons; [lia|].
    specialize (IH2 _ _ Hin). lia.
  - split; [lia|]. intros owner rec [Heq|Hin]%elem_of_cons; [by destruct (Hno owner rec)|].
    specialize (IH2 _ _ Hin). lia.
Qed.

Lemma stale_not_matching db rec t :
  lr_token rec < token_of db (resource_key rec) -> matching_lease db rec t = None.
Proof.
  intros Hlt. destruct (matching_lease db rec t) as [l|] eqn:E; [|done].
  apply matching_lease_some in E as (Hl & _ & Ht & _). unfold token_of in Hlt. rewrite Hl in Hlt.
  simpl in Hlt. lia.
Qed.

Lemma stale_not_current db resource owner token t :
  token < token_of db resource -> lease_current db resource owner token t = false.
Proof.
  intros Hlt. apply not_true_iff_false. rewrite lease_current_iff.
  intros (l & Hl & _ & Ht & _). unfold token_of in Hlt. rewrite Hl in Hlt. simpl in Hlt. lia.
Qed.

(** ** A concrete execution

    Instance [a] takes the lease of [run:1] for one millisecond; [b] takes it over later. *)
Definition sample_instances : DB :=
  empty_db <| instances := <["a"%string := mkInstance 0 0 "v" "" "ACTIVE"]>
                           {[ "b"%string := mkInstance 0 0 "v" "" "ACTIVE" ]} |>.
Definition sample_coord (db : DB) : Coord := mkCoord db 0 0 0.
Definition first_grant : LeaseRecord := mkLeaseRecord "run:1" "a" 1 10 10 1010 true.
Definition second_grant : LeaseRecord := mkLeaseRecord "run:1" "b" 2 5000 5000 6000 true.
Definition sample_granted : DB :=
  sample_instances <| leases := {[ "run:1"%string := mkLease "a" 1 10 10 1010 ]} |>.
Definition sample_taken : DB :=
  sample_instances <| leases := {[ "run:1"%string := mkLease "b" 2 5000 5000 6000 ]} |>.

Lemma const_readings t0 t t1 : t0 <= t <= t1 -> readings t0 (fun _ => t) t1.
Proof. unfold readings. intros H. split_and!; lia || (intros; lia). Qed.

Lemma sample_first : sys_step (sample_instances, 0) (AAcquire "a" "run:1" (Some first_grant)) (sample_granted, 100).
Proof.
  apply (sys_acquire "a" "run:1" 1 (fun _ => 10) (sample_coord sample_instances) (sample_coord sample_granted));
    [apply const_readings; lia|lia|]. vm_compute. reflexivity.
Qed.
Lemma sample_second : sys_step (sample_granted, 100) (AAcquire "b" "run:1" (Some second_grant)) (sample_taken, 5100).
Proof.
  apply (sys_acquire "b" "run:1" 1 (fun _ => 5000) (sample_coord sample_granted) (sample_coord sample_taken));
    [apply const_readings; lia|lia|]. vm_compute. reflexivity.
Qed.

(** ** Properties *)

(** C2: The lease table implements the lock contract.  Seen from any one resource, every
    operation of every instance is a step of [LockSpec]: a lease is granted only when the latest
    grant has expired and under the next token, renewed, released and confirmed only by its
    current holder while it lasts, and refused operations change nothing.  The lease row is at
    all times the summary of the history of grants. *)
Theorem lease_refinement res t0 t1 db db' a h :
  sys_step (db, t0) a (db', t1) -> represents db res h ->
  exists h', LockSpec.step t0 t1 h (observe res a) h' /\ represents db' res h'.
Proof. apply lease_simulation. Qed.

Lemma lease_refinement_witness :
  exists h', LockSpec.step 0 100 [] (observe "run:1" (AAcquire "a" "run:1" (Some first_grant))) h'
    /\ represents sample_granted "run:1" h'.
Proof. apply (lease_refinement "run:1" 0 100 sample_instances sample_granted); [apply sample_first|exact I]. Defined.

(** C3: Fencing.  Once a resource has been granted again, the earlier holder is locked out for
    good: the later grant has a strictly larger token, and after any further activity of any
    instances the earlier lease can be neither renewed nor released nor confirmed, and it does
    not satisfy the predicate that guards owned writes. *)
Theorem stale_holder_fenced s0 s1 s2 acts res ownerA ownerB ra rb :
  sys_step s0 (AAcquire ownerA res (Some ra)) s1 -> sys_steps s1 acts s2 ->
  AAcquire ownerB res (Some rb) ∈ acts ->
  lr_token ra < lr_token rb /\
  forall rec, resource_key rec = res -> lr_token rec = lr_token ra ->
  forall owner ttl clk c c' x, c_db c = s2.1 ->
  (renew owner rec ttl clk c = (c', Ok x) -> x = None) /\
  (forall b, release owner rec clk c = (c', Ok b) -> b = false) /\
  require_current owner rec clk c <> (c', Ok tt) /\
  lease_current s2.1 res owner (lr_token rec) (clk 0%nat) = false.
Proof.
  intros H1 Hss Hin.
  destruct (token_step res _ _ _ H1) as [(o & rc & [= <- <-] & Ht & Hn)|[_ Hno]];
    [|by destruct (Hno ownerA ra)].
  destruct (token_steps res _ _ _ Hss) as [Hle Hacq]. specialize (Hacq _ _ Hin).
  split; [lia|]. intros rec Hk Htok owner ttl clk c c' x Hc.
  assert (Hst : matching_lease (c_db c) rec (clk 0%nat) = None).
  { apply stale_not_matching. rewrite Hc, Hk. lia. }
  split_and!.
  - intros Hop. apply renew_ok in Hop as [_ Hop]. destruct x as [rx|]; [|done].
    destruct Hop as (l & Hm & _). congruence.
  - intros b Hop. apply release_ok in Hop. destruct b; [|done].
    destruct Hop as (l & Hm & _). congruence.
  - intros Hop. apply require_current_run in Hop as [_ Hcur].
    destruct (Hcur eq_refl) as [_ [l Hm]]. congruence.
  - apply stale_not_current. lia.
Qed.

Lemma stale_holder_fenced_witness :
  lr_token first_grant < lr_token second_grant /\
  forall rec, resource_key rec = "run:1"%string -> lr_token rec = lr_token first_grant ->
  forall owner ttl clk c c' x, c_db c = sample_taken ->
  (renew owner rec ttl clk c = (c', Ok x) -> x = None) /\
  (forall b, release owner rec clk c = (c', Ok b) -> b = false) /\
  require_current owner rec clk c <> (c', Ok tt) /\
  lease_current sample_taken "run:1" owner (lr_token rec) (clk 0%nat) = false.
Proof.
  apply (stale_holder_fenced (sample_instances, 0) (sample_granted, 100) (sample_taken, 5100)
    [AAcquire "b" "run:1" (Some second_grant)] "run:1" "a" "b" first_grant second_grant).
  - apply sample_first.
  - econstructor; [apply sample_second|constructor].
  - set_solver.
Defined.

(** An instance that is draining, in maintenance, stopped or not registered acquires no
    lease: once the registry row says anything but ACTIVE, [acquire] is refused, the leases are
    unchanged and the failure is counted. *)
Theorem inactive_instance_refused owner resource ttl clk c :
  resource <> ""%string -> size_of resource <= 256 -> 0 < ttl <= 86400000 ->
  instance_active owner (c_db c) = false ->
  acquire owner resource ttl clk c
    = (c <| acquisition_failures := acquisition_failures c + 1 |>, Ok None).
Proof.
  intros Hne Hsz Httl Ha. unfold acquire, validate_resource, validate_ttl, m_guard.
  unfold empty_str. apply String.eqb_neq in Hne. rewrite Hne. simpl.
  destruct (Z.ltb_spec 256 (size_of resource)); [lia|].
  destruct (Z.eqb_spec ttl 0); [lia|]. destruct (Z.ltb_spec 86400000 ttl); [lia|].
  unfold orb, m_bind, m_ret, on_db, transaction, mbind, t_bind, t_get. rewrite Ha. by destruct c.
Qed.

Lemma inactive_instance_refused_witness :
  acquire "c" "run:1" 1000 (fun _ => 7) (sample_coord sample_granted)
    = ((sample_coord sample_granted) <| acquisition_failures := 0 + 1 |>, Ok None).
Proof.
  apply (inactive_instance_refused "c" "run:1" 1000 (fun _ => 7) (sample_coord sample_granted));
    [discriminate|vm_compute; discriminate|lia|vm_compute; reflexivity].
Defined.
