(* ===== verification/Codec.v ===== *)
(** * JSON codecs of the stored records

    The [to_json] and [from_json] functions of [include/laso/core/types.hpp] and
    [src/core/types.cpp]: what a run, its attempts, parallel work, approvals, events and sessions
    look like in the store, and that reading a stored record gives back the record.  Decoding
    throws [Json::exception] ([TStd]) on a missing or wrongly typed member, and an [Error] where
    the code does.  [fresh] and [now] stand for the [uuid()] and [timestamp()] used as
    defaults. *)

From S2P Require Import Prelude Json Types Samples Graph Db.
From Stdlib Require Import SpecFloat.

#[global] Instance tres_ret : MRet tres := fun A => TOk.
#[global] Instance tres_bind : MBind tres := fun A B f m =>
  match m with TOk a => f a | TThrow x => TThrow x end.

(** ** Combinators *)

Definition dec_of {A} (o : option A) : tres A :=
  match o with Some a => TOk a | None => TThrow TStd end.

(** [j.at(key).get_to(x)] *)
Definition at_ {A} (dec : Json -> tres A) (j : Json) (key : string) : tres A :=
  match member j key with Some v => dec v | None => TThrow TStd end.

(** [x = j.value(key, fallback)] *)
Definition value_ {A} (dec : Json -> tres A) (j : Json) (key : string) (fallback : A) : tres A :=
  match j with
  | JObject _ => match member j key with Some v => dec v | None => TOk fallback end
  | _ => TThrow TStd
  end.

(** [std::vector<T>], [std::map<std::string, T>] and [std::map<unsigned, T>]. *)
Definition enc_vector {A} (enc : A -> Json) (l : list A) : Json := JArray (map enc l).
Definition enc_map {A} (enc : A -> Json) (m : gmap string A) : Json :=
  JObject (map (fun kv => (kv.1, enc kv.2)) (map_items m)).
Definition enc_index_map {A} (enc : A -> Json) (m : gmap Z A) : Json :=
  JArray (map (fun kv => JArray [JUnsigned kv.1; enc kv.2]) (index_items m)).

Fixpoint dec_list {A} (dec : Json -> tres A) (l : list Json) : tres (list A) :=
  match l with
  | [] => TOk []
  | x :: l => a ← dec x; rest ← dec_list dec l; TOk (a :: rest)
  end.
Definition dec_vector {A} (dec : Json -> tres A) (j : Json) : tres (list A) :=
  match j with JArray l => dec_list dec l | _ => TThrow TStd end.
Fixpoint dec_pairs {A} (dec : Json -> tres A) (l : list (string * Json)) : tres (list (string * A)) :=
  match l with
  | [] => TOk []
  | (k, x) :: l => a ← dec x; rest ← dec_pairs dec l; TOk ((k, a) :: rest)
  end.
Definition dec_map {A} (dec : Json -> tres A) (j : Json) : tres (gmap string A) :=
  match j with JObject l => kvs ← dec_pairs dec l; TOk (list_to_map kvs) | _ => TThrow TStd end.

(** An enumeration is its name; an unknown name reads as the first enumerator. *)
Definition enc_enum {A} `{EqDecision A} (table : list (A * string)) (a : A) : Json :=
  match list_find (fun p => p.1 = a) table with
  | Some (_, (_, n)) => JString n
  | None => JNull
  end.
Definition dec_enum {A} (first : A) (table : list (A * string)) (j : Json) : tres A :=
  match list_find (fun p => json_eqb (JString p.2) j = true) table with
  | Some (_, (a, _)) => TOk a
  | None => TOk first
  end.

Definition run_state_names : list (RunState * string) :=
  [(Queued, "Queued"); (Starting, "Starting"); (Running, "Running"); (WaitingTool, "WaitingTool");
   (WaitingModel, "WaitingModel"); (WaitingWorker, "WaitingWorker");
   (WaitingApproval, "WaitingApproval"); (Retrying, "Retrying"); (Paused, "Paused");
   (Completed, "Completed"); (Failed, "Failed"); (Cancelled, "Cancelled");
   (TimedOut, "TimedOut")]%string.
Definition run_state_to_json : RunState -> Json := enc_enum run_state_names.
Definition run_state_of_json : Json -> tres RunState := dec_enum Queued run_state_names.

Definition node_state_names : list (NodeState * string) :=
  [(NRunning, "Running"); (NCompleted, "Completed"); (NFailed, "Failed");
   (NWaitingApproval, "WaitingApproval"); (NCancelled, "Cancelled"); (NTimedOut, "TimedOut")]%string.
Definition node_state_to_json : NodeState -> Json := enc_enum node_state_names.
Definition node_state_of_json : Json -> tres NodeState := dec_enum NRunning node_state_names.

Definition work_state_names : list (NodeWorkState * string) :=
  [(WQueued, "Queued"); (WRunning, "Running"); (WCompleted, "Completed"); (WFailed, "Failed");
   (WCancelled, "Cancelled")]%string.
Definition work_state_to_json : NodeWorkState -> Json := enc_enum work_state_names.
Definition work_state_of_json : Json -> tres NodeWorkState := dec_enum WQueued work_state_names.

Section Codecs.
Context `{JsonLib}.

Definition dec_string (j : Json) : tres string := dec_of (get_string j).
Definition dec_unsigned (j : Json) : tres Z := dec_of (get_unsigned j).
Definition dec_u64 (j : Json) : tres Z := dec_of (get_u64 j).
Definition dec_bool (j : Json) : tres bool := dec_of (get_bool j).
Definition dec_double (j : Json) : tres double := dec_of (get_double j).
Definition dec_json (j : Json) : tres Json := TOk j.

(** The pairs of an integer-keyed map. *)
Definition dec_index_pair {A} (dec : Json -> tres A) (j : Json) : tres (Z * A) :=
  match j with
  | JArray (k :: v :: _) => i ← dec_unsigned k; a ← dec v; TOk (i, a)
  | _ => TThrow TStd
  end.
Definition dec_index_map {A} (dec : Json -> tres A) (j : Json) : tres (gmap Z A) :=
  kvs ← dec_vector (dec_index_pair dec) j; TOk (list_to_map kvs).

(** ** The records *)

(** [to_json(Json &, const ProvenanceRecord &)] *)
Definition provenance_to_json (p : ProvenanceRecord) : Json := mk_object [
  ("node", JString (p_node p));
  ("tool", JString (p_tool p));
  ("model", JString (p_model p));
  ("provider", JString (p_provider p));
  ("artifact", JString (p_artifact p));
  ("parent_message", JString (p_parent_message p));
  ("validation", JString (p_validation p));
  ("time", JString (p_time p));
  ("worker", JString (p_worker p))]%string.

(** [from_json(const Json &, ProvenanceRecord &)] *)
Definition provenance_of_json (j : Json) : tres ProvenanceRecord :=
  x_p_node ← value_ dec_string j "node" ""%string;
  x_p_tool ← value_ dec_string j "tool" ""%string;
  x_p_model ← value_ dec_string j "model" ""%string;
  x_p_provider ← value_ dec_string j "provider" ""%string;
  x_p_artifact ← value_ dec_string j "artifact" ""%string;
  x_p_parent_message ← value_ dec_string j "parent_message" ""%string;
  x_p_validation ← value_ dec_string j "validation" ""%string;
  x_p_time ← value_ dec_string j "time" ""%string;
  x_p_worker ← value_ dec_string j "worker" ""%string;
  TOk {| p_node := x_p_node; p_tool := x_p_tool; p_model := x_p_model; p_provider := x_p_provider;
         p_artifact := x_p_artifact; p_parent_message := x_p_parent_message;
         p_validation := x_p_validation; p_time := x_p_time; p_worker := x_p_worker |}.

(** [to_json(Json &, const Message &)] of [src/core/types.cpp]; a missing confidence is null. *)
Definition message_to_json (m : Message) : Json := mk_object [
  ("id", JString (m_id m));
  ("run_id", JString (m_run_id m));
  ("pipeline_id", JString (m_pipeline_id m));
  ("node_id", JString (m_node_id m));
  ("type", JString (m_type m));
  ("timestamp", JString (m_time m));
  ("payload", payload m);
  ("metadata", metadata m);
  ("provenance", enc_vector provenance_to_json (provenance m));
  ("confidence", match confidence m with Some d => JFloat d | None => JNull end)]%string.

(** [!std::isfinite(d) || d < 0 || d > 1] *)
Definition is_finite (d : double) : bool :=
  match d with S754_nan | S754_infinity _ => false | _ => true end.
Definition confidence_rejected (d : double) : bool :=
  negb (is_finite d) || SFltb d (S754_zero false) || SFltb (double_of_Z 1) d.
Definition confidence_of_json (j : Json) : tres (option double) :=
  if is_null j then TOk None
  else d ← dec_double j;
       if confidence_rejected d
       then TThrow (TError (err Validation "Confidence outside [0,1]")) else TOk (Some d).

(** [from_json(const Json &, Message &)] *)
Definition message_of_json (j : Json) : tres Message :=
  x_id ← at_ dec_string j "id";
  x_run_id ← at_ dec_string j "run_id";
  x_pipeline_id ← at_ dec_string j "pipeline_id";
  x_node_id ← at_ dec_string j "node_id";
  x_type ← at_ dec_string j "type";
  x_time ← at_ dec_string j "timestamp";
  x_payload ← at_ dec_json j "payload";
  x_metadata ← at_ dec_json j "metadata";
  x_provenance ← at_ (dec_vector provenance_of_json) j "provenance";
  x_confidence ← at_ confidence_of_json j "confidence";
  TOk {| m_id := x_id; m_run_id := x_run_id; m_pipeline_id := x_pipeline_id;
         m_node_id := x_node_id; m_type := x_type; m_time := x_time; payload := x_payload;
         metadata := x_metadata; provenance := x_provenance; confidence := x_confidence |}.

(** [NLOHMANN_DEFINE_TYPE_NON_INTRUSIVE(BranchFrame, ...)] *)
Definition frame_to_json (f : BranchFrame) : Json := mk_object [
  ("group", JString (group f));
  ("join", JString (f_join f));
  ("width", JUnsigned (width f));
  ("index", JUnsigned (f_index f))]%string.

(** Reading back requires every field. *)
Definition frame_of_json (j : Json) : tres BranchFrame :=
  x_group ← at_ dec_string j "group";
  x_f_join ← at_ dec_string j "join";
  x_width ← at_ dec_unsigned j "width";
  x_f_index ← at_ dec_unsigned j "index";
  TOk {| group := x_group; f_join := x_f_join; width := x_width; f_index := x_f_index |}.

(** [NLOHMANN_DEFINE_TYPE_NON_INTRUSIVE(ExecutionToken, ...)] *)
Definition token_to_json (t : ExecutionToken) : Json := mk_object [
  ("node_id", JString (t_node_id t));
  ("message", message_to_json (t_message t));
  ("frames", enc_vector frame_to_json (t_frames t))]%string.

(** Reading back requires every field. *)
Definition token_of_json (j : Json) : tres ExecutionToken :=
  x_t_node_id ← at_ dec_string j "node_id";
  x_t_message ← at_ message_of_json j "message";
  x_t_frames ← at_ (dec_vector frame_of_json) j "frames";
  TOk {| t_node_id := x_t_node_id; t_message := x_t_message; t_frames := x_t_frames |}.

(** [NLOHMANN_DEFINE_TYPE_NON_INTRUSIVE(JoinCheckpoint, messages)]: a map with integer keys is
    an array of pairs. *)
Definition join_to_json (m : gmap Z Message) : Json :=
  mk_object [("messages"%string, enc_index_map message_to_json m)].
Definition join_of_json (j : Json) : tres (gmap Z Message) :=
  at_ (dec_index_map message_of_json) j "messages".

(** [to_json(Json &, const Run &)] *)
Definition run_to_json (r : Run) : Json := mk_object [
  ("id", JString (id r));
  ("pipeline_id", JString (pipeline_id r));
  ("pipeline_version", JUnsigned (pipeline_version r));
  ("definition", JString (definition r));
  ("active_node", JString (active_node r));
  ("created_at", JString (created_at r));
  ("updated_at", JString (updated_at r));
  ("actor", JString (actor r));
  ("error", JString (error r));
  ("parent_id", JString (parent_id r));
  ("parent_node_id", JString (parent_node_id r));
  ("parent_message_id", JString (parent_message_id r));
  ("session_id", JString (session_id r));
  ("session_turn_id", JString (session_turn_id r));
  ("child_id", JString (child_id r));
  ("child_pipeline_id", JString (child_pipeline_id r));
  ("child_pipeline_version", JUnsigned (child_pipeline_version r));
  ("subpipeline_depth", JUnsigned (subpipeline_depth r));
  ("initiation_type", JString (initiation_type r));
  ("schedule_id", JString (schedule_id r));
  ("schedule_occurrence_id", JString (schedule_occurrence_id r));
  ("due_at", JString (due_at r));
  ("trigger_id", JString (trigger_id r));
  ("event_id", JString (event_id r));
  ("root_event_id", JString (root_event_id r));
  ("owner_instance_id", JString (owner_instance_id r));
  ("fencing_token", JUnsigned (fencing_token r));
  ("lease_expires_at", JString (lease_expires_at r));
  ("claimed_at", JString (claimed_at r));
  ("last_renewed_at", JString (last_renewed_at r));
  ("pending_parallel_group", JString (pending_parallel_group r));
  ("pending_parallel_join", JString (pending_parallel_join r));
  ("trigger_depth", JUnsigned (trigger_depth r));
  ("child_runs", enc_vector JString (child_runs r));
  ("resolved_subpipelines", enc_map JString (resolved_subpipelines r));
  ("state", run_state_to_json (state r));
  ("cancellation_requested", JBool (cancellation_requested r));
  ("message", message_to_json (message r));
  ("edge_visits", enc_map JUnsigned (edge_visits r));
  ("node_visits", enc_map JUnsigned (node_visits r));
  ("frames", enc_vector frame_to_json (frames r));
  ("ready", enc_vector token_to_json (ready r));
  ("joins", enc_map join_to_json (joins r));
  ("prepared_join", JString (prepared_join r));
  ("provider", JString (provider r));
  ("model", JString (model r));
  ("tool", JString (tool r));
  ("plugin", JString (plugin r));
  ("worker", JString (worker r));
  ("worker_job_id", JString (worker_job_id r));
  ("steps", JUnsigned (steps r))]%string.

(** [from_json(const Json &, Run &)] *)
Definition run_of_json (j : Json) : tres Run :=
  x_id ← at_ dec_string j "id";
  x_pipeline_id ← at_ dec_string j "pipeline_id";
  x_pipeline_version ← value_ dec_unsigned j "pipeline_version" 1;
  x_definition ← at_ dec_string j "definition";
  x_active_node ← at_ dec_string j "active_node";
  x_created_at ← at_ dec_string j "created_at";
  x_updated_at ← at_ dec_string j "updated_at";
  x_actor ← at_ dec_string j "actor";
  x_error ← at_ dec_string j "error";
  x_parent_id ← at_ dec_string j "parent_id";
  x_parent_node_id ← value_ dec_string j "parent_node_id" ""%string;
  x_parent_message_id ← value_ dec_string j "parent_message_id" ""%string;
  x_session_id ← value_ dec_string j "session_id" ""%string;
  x_session_turn_id ← value_ dec_string j "session_turn_id" ""%string;
  x_child_id ← at_ dec_string j "child_id";
  x_child_pipeline_id ← value_ dec_string j "child_pipeline_id" ""%string;
  x_child_pipeline_version ← value_ dec_unsigned j "child_pipeline_version" 0;
  x_subpipeline_depth ← value_ dec_unsigned j "subpipeline_depth" 0;
  x_initiation_type ← value_ dec_string j "initiation_type" ("manual"%string);
  x_schedule_id ← value_ dec_string j "schedule_id" ""%string;
  x_schedule_occurrence_id ← value_ dec_string j "schedule_occurrence_id" ""%string;
  x_due_at ← value_ dec_string j "due_at" ""%string;
  x_trigger_id ← value_ dec_string j "trigger_id" ""%string;
  x_event_id ← value_ dec_string j "event_id" ""%string;
  x_root_event_id ← value_ dec_string j "root_event_id" ""%string;
  x_owner_instance_id ← value_ dec_string j "owner_instance_id" ""%string;
  x_fencing_token ← value_ dec_u64 j "fencing_token" 0;
  x_lease_expires_at ← value_ dec_string j "lease_expires_at" ""%string;
  x_claimed_at ← value_ dec_string j "claimed_at" ""%string;
  x_last_renewed_at ← value_ dec_string j "last_renewed_at" ""%string;
  x_pending_parallel_group ← value_ dec_string j "pending_parallel_group" ""%string;
  x_pending_parallel_join ← value_ dec_string j "pending_parallel_join" ""%string;
  x_trigger_depth ← value_ dec_unsigned j "trigger_depth" 0;
  x_child_runs ← value_ (dec_vector dec_string) j "child_runs" [];
  x_resolved_subpipelines ← value_ (dec_map dec_string) j "resolved_subpipelines" ∅;
  x_state ← at_ run_state_of_json j "state";
  x_cancellation_requested ← at_ dec_bool j "cancellation_requested";
  x_message ← at_ message_of_json j "message";
  x_edge_visits ← at_ (dec_map dec_unsigned) j "edge_visits";
  x_node_visits ← at_ (dec_map dec_unsigned) j "node_visits";
  x_frames ← at_ (dec_vector frame_of_json) j "frames";
  x_ready ← at_ (dec_vector token_of_json) j "ready";
  x_joins ← at_ (dec_map join_of_json) j "joins";
  x_prepared_join ← at_ dec_string j "prepared_join";
  x_provider ← at_ dec_string j "provider";
  x_model ← at_ dec_string j "model";
  x_tool ← at_ dec_string j "tool";
  x_plugin ← at_ dec_string j "plugin";
  x_worker ← value_ dec_string j "worker" ""%string;
  x_worker_job_id ← value_ dec_string j "worker_job_id" ""%string;
  x_steps ← at_ dec_unsigned j "steps";
  TOk {| id := x_id; pipeline_id := x_pipeline_id; pipeline_version := x_pipeline_version;
         definition := x_definition; active_node := x_active_node; created_at := x_created_at;
         updated_at := x_updated_at; actor := x_actor; error := x_error; parent_id := x_parent_id;
         parent_node_id := x_parent_node_id; parent_message_id := x_parent_message_id;
         session_id := x_session_id; session_turn_id := x_session_turn_id; child_id := x_child_id;
         child_pipeline_id := x_child_pipeline_id;
         child_pipeline_version := x_child_pipeline_version;
         subpipeline_depth := x_subpipeline_depth; initiation_type := x_initiation_type;
         schedule_id := x_schedule_id; schedule_occurrence_id := x_schedule_occurrence_id;
         due_at := x_due_at; trigger_id := x_trigger_id; event_id := x_event_id;
         root_event_id := x_root_event_id; owner_instance_id := x_owner_instance_id;
         fencing_token := x_fencing_token; lease_expires_at := x_lease_expires_at;
         claimed_at := x_claimed_at; last_renewed_at := x_last_renewed_at;
         pending_parallel_group := x_pending_parallel_group;
         pending_parallel_join := x_pending_parallel_join; trigger_depth := x_trigger_depth;
         child_runs := x_child_runs; resolved_subpipelines := x_resolved_subpipelines;
         state := x_state; cancellation_requested := x_cancellation_requested;
         message := x_message; edge_visits := x_edge_visits; node_visits := x_node_visits;
         frames := x_frames; ready := x_ready; joins := x_joins; prepared_join := x_prepared_join;
         provider := x_provider; model := x_model; tool := x_tool; plugin := x_plugin;
         worker := x_worker; worker_job_id := x_worker_job_id; steps := x_steps |}.

(** [to_json(Json &, const NodeExecution &)] *)
Definition attempt_to_json (a : NodeExecution) : Json := mk_object [
  ("id", JString (a_id a));
  ("run_id", JString (a_run_id a));
  ("node_id", JString (a_node_id a));
  ("started_at", JString (a_started_at a));
  ("finished_at", JString (a_finished_at a));
  ("error", JString (a_error a));
  ("child_run_id", JString (a_child_run_id a));
  ("child_pipeline_id", JString (a_child_pipeline_id a));
  ("child_pipeline_version", JUnsigned (a_child_pipeline_version a));
  ("worker_job_id", JString (a_worker_job_id a));
  ("worker_id", JString (a_worker_id a));
  ("external_job_id", JString (a_external_job_id a));
  ("attempt", JUnsigned (attempt a));
  ("state", node_state_to_json (a_state a));
  ("duration_ms", JFloat (duration_ms a))]%string.

(** [from_json(const Json &, NodeExecution &)] *)
Definition attempt_of_json (j : Json) : tres NodeExecution :=
  x_a_id ← at_ dec_string j "id";
  x_a_run_id ← at_ dec_string j "run_id";
  x_a_node_id ← at_ dec_string j "node_id";
  x_a_started_at ← at_ dec_string j "started_at";
  x_a_finished_at ← at_ dec_string j "finished_at";
  x_a_error ← at_ dec_string j "error";
  x_a_child_run_id ← value_ dec_string j "child_run_id" ""%string;
  x_a_child_pipeline_id ← value_ dec_string j "child_pipeline_id" ""%string;
  x_a_child_pipeline_version ← value_ dec_unsigned j "child_pipeline_version" 0;
  x_a_worker_job_id ← value_ dec_string j "worker_job_id" ""%string;
  x_a_worker_id ← value_ dec_string j "worker_id" ""%string;
  x_a_external_job_id ← value_ dec_string j "external_job_id" ""%string;
  x_attempt ← at_ dec_unsigned j "attempt";
  x_a_state ← at_ node_state_of_json j "state";
  x_duration_ms ← at_ dec_double j "duration_ms";
  TOk {| a_id := x_a_id; a_run_id := x_a_run_id; a_node_id := x_a_node_id;
         a_started_at := x_a_started_at; a_finished_at := x_a_finished_at; a_error := x_a_error;
         a_child_run_id := x_a_child_run_id; a_child_pipeline_id := x_a_child_pipeline_id;
         a_child_pipeline_version := x_a_child_pipeline_version;
         a_worker_job_id := x_a_worker_job_id; a_worker_id := x_a_worker_id;
         a_external_job_id := x_a_external_job_id; attempt := x_attempt; a_state := x_a_state;
         duration_ms := x_duration_ms |}.

(** [to_json(Json &, const NodeWork &)]; the result is a member only when there is one *)
Definition work_to_json (w : NodeWork) : Json :=
  let j := mk_object [
  ("id", JString (w_id w));
  ("run_id", JString (w_run_id w));
  ("group_id", JString (group_id w));
  ("node_id", JString (w_node_id w));
  ("join", JString (w_join w));
  ("created_at", JString (w_created_at w));
  ("updated_at", JString (w_updated_at w));
  ("owner_instance_id", JString (w_owner_instance_id w));
  ("lease_expires_at", JString (w_lease_expires_at w));
  ("claimed_at", JString (w_claimed_at w));
  ("last_renewed_at", JString (w_last_renewed_at w));
  ("attempt_id", JString (attempt_id w));
  ("error", JString (w_error w));
  ("index", JUnsigned (w_index w));
  ("attempt", JUnsigned (w_attempt w));
  ("steps", JUnsigned (w_steps w));
  ("fencing_token", JUnsigned (w_fencing_token w));
  ("state", work_state_to_json (w_state w));
  ("token", token_to_json (token w));
  ("required_worker_id", JString (required_worker_id w));
  ("required_capability", JString (required_capability w))]%string in
  match result w with
  | Some m => set_member "result" (message_to_json m) j
  | None => j
  end.

(** [from_json(const Json &, NodeWork &)] *)
Definition work_of_json (fresh now : string) (j : Json) : tres NodeWork :=
  x_w_id ← value_ dec_string j "id" fresh;
  x_w_run_id ← value_ dec_string j "run_id" ""%string;
  x_group_id ← value_ dec_string j "group_id" ""%string;
  x_w_node_id ← value_ dec_string j "node_id" ""%string;
  x_w_join ← value_ dec_string j "join" ""%string;
  x_w_created_at ← value_ dec_string j "created_at" now;
  x_w_updated_at ← value_ dec_string j "updated_at" now;
  x_w_owner_instance_id ← value_ dec_string j "owner_instance_id" ""%string;
  x_w_lease_expires_at ← value_ dec_string j "lease_expires_at" ""%string;
  x_w_claimed_at ← value_ dec_string j "claimed_at" ""%string;
  x_w_last_renewed_at ← value_ dec_string j "last_renewed_at" ""%string;
  x_attempt_id ← value_ dec_string j "attempt_id" ""%string;
  x_w_error ← value_ dec_string j "error" ""%string;
  x_w_index ← value_ dec_unsigned j "index" 0;
  x_w_attempt ← value_ dec_unsigned j "attempt" 0;
  x_w_steps ← value_ dec_unsigned j "steps" 0;
  x_w_fencing_token ← value_ dec_u64 j "fencing_token" 0;
  x_w_state ← value_ work_state_of_json j "state" WQueued;
  x_required_worker_id ← value_ dec_string j "required_worker_id" ""%string;
  x_required_capability ← value_ dec_string j "required_capability" ""%string;
  x_token ← at_ token_of_json j "token";
  x_result ← (match member j "result" with
    | Some v => if is_null v then TOk None else m ← message_of_json v; TOk (Some m)
    | None => TOk None
    end);
  TOk {| w_id := x_w_id; w_run_id := x_w_run_id; group_id := x_group_id; w_node_id := x_w_node_id;
         w_join := x_w_join; w_created_at := x_w_created_at; w_updated_at := x_w_updated_at;
         w_owner_instance_id := x_w_owner_instance_id; w_lease_expires_at := x_w_lease_expires_at;
         w_claimed_at := x_w_claimed_at; w_last_renewed_at := x_w_last_renewed_at;
         attempt_id := x_attempt_id; w_error := x_w_error; w_index := x_w_index;
         w_attempt := x_w_attempt; w_steps := x_w_steps; w_fencing_token := x_w_fencing_token;
         w_state := x_w_state; token := x_token; required_worker_id := x_required_worker_id;
         required_capability := x_required_capability;
         result := x_result |}.

(** [NLOHMANN_DEFINE_TYPE_NON_INTRUSIVE(Approval, ...)] *)
Definition approval_to_json (a : Approval) : Json := mk_object [
  ("id", JString (ap_id a));
  ("run_id", JString (ap_run_id a));
  ("node_id", JString (ap_node_id a));
  ("reason", JString (ap_reason a));
  ("action", JString (ap_action a));
  ("created_at", JString (ap_created_at a));
  ("decision", JString (decision a));
  ("decided_at", JString (decided_at a));
  ("actor", JString (ap_actor a));
  ("comment", JString (ap_comment a));
  ("visit", JUnsigned (visit a))]%string.

(** Reading back requires every field. *)
Definition approval_of_json (j : Json) : tres Approval :=
  x_ap_id ← at_ dec_string j "id";
  x_ap_run_id ← at_ dec_string j "run_id";
  x_ap_node_id ← at_ dec_string j "node_id";
  x_ap_reason ← at_ dec_string j "reason";
  x_ap_action ← at_ dec_string j "action";
  x_ap_created_at ← at_ dec_string j "created_at";
  x_decision ← at_ dec_string j "decision";
  x_decided_at ← at_ dec_string j "decided_at";
  x_ap_actor ← at_ dec_string j "actor";
  x_ap_comment ← at_ dec_string j "comment";
  x_visit ← at_ dec_unsigned j "visit";
  TOk {| ap_id := x_ap_id; ap_run_id := x_ap_run_id; ap_node_id := x_ap_node_id;
         ap_reason := x_ap_reason; ap_action := x_ap_action; ap_created_at := x_ap_created_at;
         decision := x_decision; decided_at := x_decided_at; ap_actor := x_ap_actor;
         ap_comment := x_ap_comment; visit := x_visit |}.

(** [to_json(Json &, const Event &)] *)
Definition event_to_json (e : Event) : Json := mk_object [
  ("id", JString (ev_id e));
  ("run_id", JString (ev_run_id e));
  ("pipeline_id", JString (ev_pipeline_id e));
  ("node_id", JString (ev_node_id e));
  ("type", JString (ev_type e));
  ("time", JString (ev_time e));
  ("causation_id", JString (causation_id e));
  ("root_event_id", JString (ev_root_event_id e));
  ("trigger_depth", JUnsigned (ev_trigger_depth e));
  ("source_id", JString (source_id e));
  ("source_plugin", JString (source_plugin e));
  ("source_component", JString (source_component e));
  ("external_event_id", JString (external_event_id e));
  ("occurred_at", JString (occurred_at e));
  ("ingested_at", JString (ingested_at e));
  ("payload", ev_payload e);
  ("metadata", ev_metadata e)]%string.

(** [from_json(const Json &, Event &)] *)
Definition event_of_json (fresh now : string) (j : Json) : tres Event :=
  x_ev_id ← value_ dec_string j "id" fresh;
  x_ev_run_id ← value_ dec_string j "run_id" ""%string;
  x_ev_pipeline_id ← value_ dec_string j "pipeline_id" ""%string;
  x_ev_node_id ← value_ dec_string j "node_id" ""%string;
  x_ev_type ← value_ dec_string j "type" ""%string;
  x_ev_time ← value_ dec_string j "time" now;
  x_causation_id ← value_ dec_string j "causation_id" ""%string;
  x_ev_root_event_id ← value_ dec_string j "root_event_id" ""%string;
  x_ev_trigger_depth ← value_ dec_unsigned j "trigger_depth" 0;
  x_source_id ← value_ dec_string j "source_id" ""%string;
  x_source_plugin ← value_ dec_string j "source_plugin" ""%string;
  x_source_component ← value_ dec_string j "source_component" ""%string;
  x_external_event_id ← value_ dec_string j "external_event_id" ""%string;
  x_occurred_at ← value_ dec_string j "occurred_at" ""%string;
  x_ingested_at ← value_ dec_string j "ingested_at" ""%string;
  x_ev_payload ← value_ dec_json j "payload" (JObject []);
  x_ev_metadata ← value_ dec_json j "metadata" (JObject []);
  TOk {| ev_id := x_ev_id; ev_run_id := x_ev_run_id; ev_pipeline_id := x_ev_pipeline_id;
         ev_node_id := x_ev_node_id; ev_type := x_ev_type; ev_time := x_ev_time;
         causation_id := x_causation_id; ev_root_event_id := x_ev_root_event_id;
         ev_trigger_depth := x_ev_trigger_depth; source_id := x_source_id;
         source_plugin := x_source_plugin; source_component := x_source_component;
         external_event_id := x_external_event_id; occurred_at := x_occurred_at;
         ingested_at := x_ingested_at; ev_payload := x_ev_payload;
         ev_metadata := x_ev_metadata |}.

(** [to_json(Json &, const AgentSession &)] *)
Definition session_to_json (s : AgentSession) : Json := mk_object [
  ("id", JString (s_id s));
  ("pipeline_id", JString (s_pipeline_id s));
  ("state", JString (s_state s));
  ("created_at", JString (s_created_at s));
  ("updated_at", JString (s_updated_at s));
  ("next_sequence", JUnsigned (next_sequence s));
  ("active_turn_id", JString (active_turn_id s));
  ("active_run_id", JString (active_run_id s));
  ("dispatch_generation", JUnsigned (dispatch_generation s))]%string.

(** [from_json(const Json &, AgentSession &)] *)
Definition session_of_json (fresh now : string) (j : Json) : tres AgentSession :=
  x_s_id ← value_ dec_string j "id" fresh;
  x_s_pipeline_id ← value_ dec_string j "pipeline_id" ""%string;
  x_s_state ← value_ dec_string j "state" ("open"%string);
  x_s_created_at ← value_ dec_string j "created_at" now;
  x_s_updated_at ← value_ dec_string j "updated_at" (x_s_created_at);
  x_next_sequence ← value_ dec_u64 j "next_sequence" 1;
  x_active_turn_id ← value_ dec_string j "active_turn_id" ""%string;
  x_active_run_id ← value_ dec_string j "active_run_id" ""%string;
  x_dispatch_generation ← value_ dec_u64 j "dispatch_generation" 0;
  TOk {| s_id := x_s_id; s_pipeline_id := x_s_pipeline_id; s_state := x_s_state;
         s_created_at := x_s_created_at; s_updated_at := x_s_updated_at;
         next_sequence := x_next_sequence; active_turn_id := x_active_turn_id;
         active_run_id := x_active_run_id; dispatch_generation := x_dispatch_generation |}.

(** [to_json(Json &, const SessionContextGeneration &)] *)
Definition generation_to_json (g : SessionContextGeneration) : Json := mk_object [
  ("id", JString (g_id g));
  ("session_id", JString (g_session_id g));
  ("generation", JUnsigned (generation g));
  ("predecessor_id", JString (predecessor_id g));
  ("through_turn_sequence", JUnsigned (through_turn_sequence g));
  ("created_at", JString (g_created_at g));
  ("representation_kind", JString (representation_kind g));
  ("representation_version", JString (representation_version g));
  ("idempotency_key", JString (idempotency_key g));
  ("payload", g_payload g)]%string.

(** [from_json(const Json &, SessionContextGeneration &)] *)
Definition generation_of_json (fresh now : string) (j : Json) : tres SessionContextGeneration :=
  x_g_id ← value_ dec_string j "id" fresh;
  x_g_session_id ← value_ dec_string j "session_id" ""%string;
  x_generation ← value_ dec_u64 j "generation" 0;
  x_predecessor_id ← value_ dec_string j "predecessor_id" ""%string;
  x_through_turn_sequence ← value_ dec_u64 j "through_turn_sequence" 0;
  x_g_created_at ← value_ dec_string j "created_at" now;
  x_representation_kind ← value_ dec_string j "representation_kind" ""%string;
  x_representation_version ← value_ dec_string j "representation_version" ""%string;
  x_idempotency_key ← value_ dec_string j "idempotency_key" ""%string;
  x_g_payload ← value_ dec_json j "payload" (JObject []);
  TOk {| g_id := x_g_id; g_session_id := x_g_session_id; generation := x_generation;
         predecessor_id := x_predecessor_id; through_turn_sequence := x_through_turn_sequence;
         g_created_at := x_g_created_at; representation_kind := x_representation_kind;
         representation_version := x_representation_version; idempotency_key := x_idempotency_key;
         g_payload := x_g_payload |}.

(** [to_json(Json &, const RunContextSnapshot &)] *)
Definition snapshot_to_json (s : RunContextSnapshot) : Json := mk_object [
  ("run_id", JString (sn_run_id s));
  ("session_id", JString (sn_session_id s));
  ("session_turn_id", JString (sn_session_turn_id s));
  ("turn_sequence", JUnsigned (turn_sequence s));
  ("history_through_turn_sequence", JUnsigned (history_through_turn_sequence s));
  ("context_generation_id", JString (context_generation_id s));
  ("context_generation", JUnsigned (context_generation s));
  ("context_generation_predecessor_id", JString (context_generation_predecessor_id s));
  ("context_through_turn_sequence", JUnsigned (context_through_turn_sequence s));
  ("representation_kind", JString (sn_representation_kind s));
  ("representation_version", JString (sn_representation_version s));
  ("created_at", JString (sn_created_at s));
  ("provider_continuations", provider_continuations s)]%string.

(** [from_json(const Json &, RunContextSnapshot &)] *)
Definition snapshot_of_json (now : string) (j : Json) : tres RunContextSnapshot :=
  x_sn_run_id ← value_ dec_string j "run_id" ""%string;
  x_sn_session_id ← value_ dec_string j "session_id" ""%string;
  x_sn_session_turn_id ← value_ dec_string j "session_turn_id" ""%string;
  x_turn_sequence ← value_ dec_u64 j "turn_sequence" 0;
  x_history_through_turn_sequence ← value_ dec_u64 j "history_through_turn_sequence" 0;
  x_context_generation_id ← value_ dec_string j "context_generation_id" ""%string;
  x_context_generation ← value_ dec_u64 j "context_generation" 0;
  x_context_generation_predecessor_id ← value_ dec_string j "context_generation_predecessor_id" ""%string;
  x_context_through_turn_sequence ← value_ dec_u64 j "context_through_turn_sequence" 0;
  x_sn_representation_kind ← value_ dec_string j "representation_kind" ""%string;
  x_sn_representation_version ← value_ dec_string j "representation_version" ""%string;
  x_sn_created_at ← value_ dec_string j "created_at" now;
  x_provider_continuations ← value_ dec_json j "provider_continuations" (JArray []);
  TOk {| sn_run_id := x_sn_run_id; sn_session_id := x_sn_session_id;
         sn_session_turn_id := x_sn_session_turn_id; turn_sequence := x_turn_sequence;
         history_through_turn_sequence := x_history_through_turn_sequence;
         context_generation_id := x_context_generation_id;
         context_generation := x_context_generation;
         context_generation_predecessor_id := x_context_generation_predecessor_id;
         context_through_turn_sequence := x_context_through_turn_sequence;
         sn_representation_kind := x_sn_representation_kind;
         sn_representation_version := x_sn_representation_version;
         sn_created_at := x_sn_created_at; provider_continuations := x_provider_continuations |}.

End Codecs.

(** ** Round trips *)

Section CodecProofs.
Context `{L : JsonLib} `{!JsonLaws L}.

Lemma tres_bind_ok {A B} (m : tres A) (k : A -> tres B) b :
  (m ≫= k) = TOk b <-> exists a, m = TOk a /\ k a = TOk b.
Proof. destruct m; naive_solver. Qed.
Lemma dec_string_of s : dec_string (JString s) = TOk s.
Proof. unfold dec_string. by rewrite get_string_of. Qed.
Lemma dec_bool_of b : dec_bool (JBool b) = TOk b.
Proof. unfold dec_bool. by rewrite get_bool_of. Qed.
Lemma dec_double_of d : dec_double (JFloat d) = TOk d.
Proof. unfold dec_double. by rewrite get_double_of. Qed.
Definition fits32 (z : Z) : Prop := 0 <= z <= u32_max.
Definition fits64 (z : Z) : Prop := 0 <= z <= u64_max.
Lemma dec_unsigned_of z : fits32 z -> dec_unsigned (JUnsigned z) = TOk z.
Proof. intros. unfold dec_unsigned. by rewrite get_unsigned_of. Qed.
Lemma dec_u64_of z : fits64 z -> dec_u64 (JUnsigned z) = TOk z.
Proof. intros. unfold dec_u64. by rewrite get_u64_of. Qed.

Lemma dec_vector_of {A} (enc : A -> Json) dec (l : list A) :
  Forall (fun a => dec (enc a) = TOk a) l -> dec_vector dec (enc_vector enc l) = TOk l.
Proof.
  unfold dec_vector, enc_vector. induction 1 as [|a l Ha Hl IH]; simpl; [done|].
  rewrite Ha. simpl. by rewrite IH.
Qed.

Lemma dec_pairs_of {A} (enc : A -> Json) dec (l : list (string * A)) :
  Forall (fun kv => dec (enc kv.2) = TOk kv.2) l ->
  dec_pairs dec (map (fun kv => (kv.1, enc kv.2)) l) = TOk l.
Proof.
  induction 1 as [|[k a] l Ha Hl IH]; simpl in *; [done|]. rewrite Ha. simpl. by rewrite IH.
Qed.

Lemma list_to_map_items {K A} `{Countable K} (m : gmap K A) (l : list (K * A)) :
  l ≡ₚ map_to_list m -> list_to_map l = m.
Proof.
  intros Hp. rewrite (list_to_map_proper l (map_to_list m)); [apply list_to_map_to_list| |done].
  rewrite Hp. apply NoDup_fst_map_to_list.
Qed.

Lemma dec_map_of {A} (enc : A -> Json) dec (m : gmap string A) :
  map_Forall (fun _ a => dec (enc a) = TOk a) m -> dec_map dec (enc_map enc m) = TOk m.
Proof.
  intros Hm. unfold dec_map, enc_map. rewrite dec_pairs_of.
  - simpl. f_equal. apply list_to_map_items, map_items_perm.
  - apply Forall_forall. intros [k a] Hin%elem_of_map_items. by apply (Hm k).
Qed.

Lemma dec_index_map_of {A} (enc : A -> Json) dec (m : gmap Z A) :
  map_Forall (fun i a => fits32 i /\ dec (enc a) = TOk a) m ->
  dec_index_map dec (enc_index_map enc m) = TOk m.
Proof.
  intros Hm. unfold dec_index_map, enc_index_map.
  assert (Hl : forall l, Forall (fun kv => fits32 kv.1 /\ dec (enc kv.2) = TOk kv.2) l ->
    dec_list (dec_index_pair dec) (map (fun kv => JArray [JUnsigned kv.1; enc kv.2]) l) = TOk l).
  { induction 1 as [|[k a] l [Hk Ha] Hl IH]; simpl in *; [done|].
    rewrite dec_unsigned_of by done. simpl. rewrite Ha. simpl. by rewrite IH. }
  simpl. rewrite Hl.
  - simpl. f_equal. apply list_to_map_items. apply merge_sort_Permutation.
  - apply Forall_forall. intros [k a] Hin. unfold index_items in Hin.
    rewrite merge_sort_Permutation, elem_of_map_to_list in Hin. by apply (Hm k).
Qed.

Lemma dec_map_strings m : dec_map dec_string (enc_map JString m) = TOk m.
Proof. apply dec_map_of. intros k s _. apply dec_string_of. Qed.
Lemma dec_map_unsigned m : map_Forall (fun _ z => fits32 z) m ->
  dec_map dec_unsigned (enc_map JUnsigned m) = TOk m.
Proof. intros Hm. apply dec_map_of. intros k z Hz. apply dec_unsigned_of. by apply (Hm k). Qed.
Lemma dec_vector_strings l : dec_vector dec_string (enc_vector JString l) = TOk l.
Proof. apply dec_vector_of, Forall_forall. intros; apply dec_string_of. Qed.

Lemma run_state_roundtrip s : run_state_of_json (run_state_to_json s) = TOk s.
Proof. by destruct s. Qed.
Lemma node_state_roundtrip s : node_state_of_json (node_state_to_json s) = TOk s.
Proof. by destruct s. Qed.
Lemma work_state_roundtrip s : work_state_of_json (work_state_to_json s) = TOk s.
Proof. by destruct s. Qed.

(** Computes the members of an object literal and reads them back with the given lemmas. *)
Ltac read_members enc :=
  let x := eval lazy -[enc_vector enc_map enc_index_map provenance_to_json message_to_json
    frame_to_json token_to_json join_to_json run_state_to_json node_state_to_json
    work_state_to_json] in enc in
  change enc with x;
  cbv [at_ value_ member assoc String.eqb Ascii.eqb Bool.eqb dec_json].
Ltac field_fits := assumption.
Ltac read_fields :=
  rewrite ?dec_string_of, ?dec_bool_of, ?dec_double_of, ?run_state_roundtrip,
    ?node_state_roundtrip, ?work_state_roundtrip, ?dec_map_strings, ?dec_vector_strings;
  repeat first [ rewrite dec_unsigned_of by field_fits | rewrite dec_u64_of by field_fits
    | rewrite dec_map_unsigned by field_fits ];
  cbv [mbind tres_bind].

Lemma provenance_roundtrip p : provenance_of_json (provenance_to_json p) = TOk p.
Proof.
  destruct p. unfold provenance_of_json, provenance_to_json.
  match goal with |- context [mk_object ?l] => read_members (mk_object l) end. read_fields. reflexivity.
Qed.

Definition message_fits (m : Message) : Prop :=
  forall d, confidence m = Some d -> confidence_rejected d = false.

Lemma message_roundtrip m : message_fits m -> message_of_json (message_to_json m) = TOk m.
Proof.
  intros Hf. destruct m as [a b c d e f g h p cf]. unfold message_of_json, message_to_json.
  match goal with |- context [mk_object ?l] => read_members (mk_object l) end. read_fields.
  rewrite dec_vector_of by (apply Forall_forall; intros; apply provenance_roundtrip).
  destruct cf as [x|]; cbv [confidence_of_json is_null]; [|done].
  rewrite dec_double_of. cbv [mbind tres_bind]. by rewrite (Hf x eq_refl).
Qed.
Definition frame_fits (f : BranchFrame) : Prop := fits32 (width f) /\ fits32 (f_index f).
Lemma frame_roundtrip f : frame_fits f -> frame_of_json (frame_to_json f) = TOk f.
Proof.
  intros [? ?]. destruct f. unfold frame_of_json, frame_to_json.
  match goal with |- context [mk_object ?l] => read_members (mk_object l) end. read_fields. reflexivity.
Qed.
Lemma frames_roundtrip l : Forall frame_fits l ->
  dec_vector frame_of_json (enc_vector frame_to_json l) = TOk l.
Proof. intros Hl. apply dec_vector_of. eapply Forall_impl; [done|]. apply frame_roundtrip. Qed.

Definition token_fits (t : ExecutionToken) : Prop :=
  message_fits (t_message t) /\ Forall frame_fits (t_frames t).
Lemma token_roundtrip t : token_fits t -> token_of_json (token_to_json t) = TOk t.
Proof.
  intros [? ?]. destruct t. unfold token_of_json, token_to_json.
  match goal with |- context [mk_object ?l] => read_members (mk_object l) end. read_fields.
  rewrite message_roundtrip, frames_roundtrip by assumption. reflexivity.
Qed.
Lemma tokens_roundtrip l : Forall token_fits l ->
  dec_vector token_of_json (enc_vector token_to_json l) = TOk l.
Proof. intros Hl. apply dec_vector_of. eapply Forall_impl; [done|]. apply token_roundtrip. Qed.

Definition join_fits (m : gmap Z Message) : Prop :=
  map_Forall (fun i x => fits32 i /\ message_fits x) m.
Lemma join_roundtrip m : join_fits m -> join_of_json (join_to_json m) = TOk m.
Proof.
  intros Hm. unfold join_of_json, join_to_json. cbv [at_]. simpl. apply dec_index_map_of.
  intros i x Hx. destruct (Hm i x Hx). split; [done|]. by apply message_roundtrip.
Qed.

(** Every [unsigned] and [std::uint64_t] field of a run holds a value of its type, and every
    confidence is in range: what the C++ types and the message invariant guarantee. *)
Definition run_fits (r : Run) : Prop :=
  fits32 (pipeline_version r) /\ fits32 (child_pipeline_version r) /\ fits32 (subpipeline_depth r)
  /\ fits32 (trigger_depth r) /\ fits64 (fencing_token r) /\ fits32 (steps r)
  /\ map_Forall (fun _ z => fits32 z) (edge_visits r) /\ map_Forall (fun _ z => fits32 z) (node_visits r)
  /\ message_fits (message r) /\ Forall frame_fits (frames r) /\ Forall token_fits (ready r)
  /\ map_Forall (fun _ m => join_fits m) (joins r).

Lemma run_json_roundtrip r : run_fits r -> run_of_json (run_to_json r) = TOk r.
Proof.
  intros (? & ? & ? & ? & ? & ? & ? & ? & ? & ? & ? & Hj). destruct r.
  unfold run_of_json, run_to_json.
  match goal with |- context [mk_object ?l] => read_members (mk_object l) end. read_fields.
  rewrite message_roundtrip, frames_roundtrip, tokens_roundtrip by assumption.
  rewrite dec_map_of; [reflexivity|]. intros k m Hm. apply join_roundtrip. by apply (Hj k).
Qed.

Lemma attempt_roundtrip a :
  fits32 (a_child_pipeline_version a) -> fits32 (attempt a) ->
  attempt_of_json (attempt_to_json a) = TOk a.
Proof.
  intros ? ?. destruct a. unfold attempt_of_json, attempt_to_json.
  match goal with |- context [mk_object ?l] => read_members (mk_object l) end. read_fields. reflexivity.
Qed.

Definition work_fits (w : NodeWork) : Prop :=
  fits32 (w_index w) /\ fits32 (w_attempt w) /\ fits32 (w_steps w) /\ fits64 (w_fencing_token w)
  /\ token_fits (token w) /\ (forall m, result w = Some m -> message_fits m).

Lemma message_json_object m : is_null (message_to_json m) = false.
Proof. done. Qed.

Lemma work_json_roundtrip fresh now w : work_fits w ->
  work_of_json fresh now (work_to_json w) = TOk w.
Proof.
  intros (? & ? & ? & ? & ? & Hr). destruct w as [? ? ? ? ? ? ? ? ? ? ? ? ? ? ? ? ? ? ? ? ? rs].
  unfold work_of_json, work_to_json. cbn [result] in *. destruct rs as [m|].
  - match goal with |- context [set_member ?k ?v ?j] => read_members (set_member k v j) end. read_fields.
    rewrite token_roundtrip by assumption. rewrite message_json_object.
    rewrite message_roundtrip by (by apply Hr). reflexivity.
  - match goal with |- context [mk_object ?l] => read_members (mk_object l) end. read_fields.
    rewrite token_roundtrip by assumption. reflexivity.
Qed.

Lemma approval_roundtrip a : fits32 (visit a) -> approval_of_json (approval_to_json a) = TOk a.
Proof.
  intros ?. destruct a. unfold approval_of_json, approval_to_json.
  match goal with |- context [mk_object ?l] => read_members (mk_object l) end. read_fields. reflexivity.
Qed.

Lemma event_roundtrip fresh now e : fits32 (ev_trigger_depth e) ->
  event_of_json fresh now (event_to_json e) = TOk e.
Proof.
  intros ?. destruct e. unfold event_of_json, event_to_json.
  match goal with |- context [mk_object ?l] => read_members (mk_object l) end. read_fields. reflexivity.
Qed.

Lemma session_roundtrip fresh now s : fits64 (next_sequence s) -> fits64 (dispatch_generation s) ->
  session_of_json fresh now (session_to_json s) = TOk s.
Proof.
  intros ? ?. destruct s. unfold session_of_json, session_to_json.
  match goal with |- context [mk_object ?l] => read_members (mk_object l) end. read_fields. reflexivity.
Qed.

Lemma generation_roundtrip fresh now g : fits64 (generation g) -> fits64 (through_turn_sequence g) ->
  generation_of_json fresh now (generation_to_json g) = TOk g.
Proof.
  intros ? ?. destruct g. unfold generation_of_json, generation_to_json.
  match goal with |- context [mk_object ?l] => read_members (mk_object l) end. read_fields. reflexivity.
Qed.

Lemma snapshot_roundtrip now s :
  fits64 (turn_sequence s) -> fits64 (history_through_turn_sequence s) ->
  fits64 (context_generation s) -> fits64 (context_through_turn_sequence s) ->
  snapshot_of_json now (snapshot_to_json s) = TOk s.
Proof.
  intros ? ? ? ?. destruct s. unfold snapshot_of_json, snapshot_to_json.
  match goal with |- context [mk_object ?l] => read_members (mk_object l) end. read_fields. reflexivity.
Qed.
End CodecProofs.

(** [equivalent_terminal_node_work]; [Json(a) == Json(b)] compares the serialised values. *)
Definition equivalent_terminal_node_work (left right : NodeWork) : bool :=
  let same_result :=
    match result left, result right with
    | None, None => true
    | Some a, Some b => json_eqb (message_to_json a) (message_to_json b)
    | _, _ => false
    end in
  if negb (String.eqb (w_id left) (w_id right)) || negb (String.eqb (w_run_id left) (w_run_id right))
     || negb (String.eqb (group_id left) (group_id right))
     || negb (String.eqb (w_node_id left) (w_node_id right))
     || negb (String.eqb (w_join left) (w_join right))
     || negb (String.eqb (required_worker_id left) (required_worker_id right))
     || negb (String.eqb (required_capability left) (required_capability right))
     || negb (String.eqb (w_owner_instance_id left) (w_owner_instance_id right))
     || negb (ws_eqb (w_state left) (w_state right)) || negb (w_attempt left =? w_attempt right)
     || negb (String.eqb (attempt_id left) (attempt_id right))
     || negb (w_fencing_token left =? w_fencing_token right)
     || negb (String.eqb (w_error left) (w_error right)) || negb (w_steps left =? w_steps right)
     || negb (json_eqb (token_to_json (token left)) (token_to_json (token right)))
     || negb same_result
  then false
  else ws_eqb (w_state left) WCompleted || ws_eqb (w_state left) WFailed
       || ws_eqb (w_state left) WCancelled.

(** ** Properties *)

(** C38: A run survives the store: reading the stored form of a run gives back exactly the run,
    with its cursor, its branch frames, its waiting branches, the branches collected by joins,
    its counters and its ownership, whenever its fields hold values of their C++ types. *)
Theorem run_roundtrip {L : JsonLib} {HL : JsonLaws L} r :
  run_fits r -> run_of_json (run_to_json r) = TOk r.
Proof. apply run_json_roundtrip. Qed.

Definition sample_forked_run : Run :=
  (((sample_run "r1") <| frames := [mkFrame "g" "meet" 2 1] |>)
     <| ready := [mkToken "b" (sample_message "m" (JInt 4)) [mkFrame "g" "meet" 2 0]] |>)
     <| edge_visits := {[ "a->b"%string := 3 ]} |>.

Lemma run_roundtrip_witness :
  @run_of_json strict_json (run_to_json sample_forked_run) = TOk sample_forked_run.
Proof.
  apply (@run_roundtrip strict_json _ sample_forked_run).
  unfold run_fits, fits32, fits64, u32_max, u64_max. simpl. split_and!; try lia.
  - by intros k z [<- <-]%lookup_singleton_Some.
  - by intros k z.
  - by intros d.
  - repeat constructor; unfold fits32, u32_max; simpl; lia.
  - repeat constructor; unfold message_fits, fits32, u32_max; simpl; done || lia.
  - by intros k m.
Defined.

(** Queued parallel work survives the store: reading the stored form of a work item gives
    back exactly the item, with or without a result, whatever defaults the reader would use. *)
Theorem node_work_roundtrip {L : JsonLib} {HL : JsonLaws L} fresh now w :
  work_fits w -> work_of_json fresh now (work_to_json w) = TOk w.
Proof. apply work_json_roundtrip. Qed.

Definition sample_work (st : NodeWorkState) (res : option Message) : NodeWork := {|
  w_id := "w1"; w_run_id := "r1"; group_id := "g"; w_node_id := "b"; w_join := "meet";
  w_created_at := "t"; w_updated_at := "t"; w_owner_instance_id := "a"; w_lease_expires_at := "";
  w_claimed_at := ""; w_last_renewed_at := ""; attempt_id := "x"; w_error := "";
  required_worker_id := ""; required_capability := ""; w_index := 1; w_attempt := 1; w_steps := 2;
  w_fencing_token := 3; w_state := st; token := mkToken "b" (sample_message "m" JNull) [];
  result := res |}.

Lemma node_work_roundtrip_witness :
  @work_of_json strict_json "f" "n" (work_to_json (sample_work WCompleted (Some (sample_message "m2" JNull))))
    = TOk (sample_work WCompleted (Some (sample_message "m2" JNull))).
Proof.
  apply (@node_work_roundtrip strict_json _ "f" "n").
  unfold work_fits, token_fits, message_fits, fits32, fits64, u32_max, u64_max. simpl.
  split_and!; try lia; try done. intros m [= <-]. done.
Defined.
