(* ===== verification/Worker.v ===== *)
(** * Workers: job states, interactions and their JSON forms

    [include/laso/workers/worker.hpp] and [src/workers/worker.cpp]. *)

From S2P Require Import Prelude Json Types Samples Db Codec.
From Stdlib Require Import SpecFloat.

(** ** Job states *)

Inductive WorkerJobState :=
  | JCreated | JSubmitting | JQueued | JRunning | JWaiting | JCompleted | JFailed | JCancelled
  | JTimedOut | JUnknown.
#[global] Instance WorkerJobState_eq_dec : EqDecision WorkerJobState.
Proof. solve_decision. Defined.
Definition js_eqb (a b : WorkerJobState) : bool := bool_decide (a = b).

Definition worker_job_terminal (s : WorkerJobState) : bool :=
  js_eqb s JCompleted || js_eqb s JFailed || js_eqb s JCancelled || js_eqb s JTimedOut.

Definition valid_worker_job_transition (from to : WorkerJobState) : bool :=
  if worker_job_terminal from then false
  else match from with
  | JCreated => js_eqb to JSubmitting || js_eqb to JFailed || js_eqb to JCancelled || js_eqb to JUnknown
  | JSubmitting =>
      js_eqb to JQueued || js_eqb to JRunning || js_eqb to JCompleted || js_eqb to JFailed
      || js_eqb to JCancelled || js_eqb to JTimedOut || js_eqb to JUnknown
  | JQueued | JRunning | JWaiting | JUnknown =>
      js_eqb to JRunning || js_eqb to JWaiting || js_eqb to JCompleted || js_eqb to JFailed
      || js_eqb to JCancelled || js_eqb to JTimedOut || js_eqb to JUnknown
  | _ => false
  end.

Definition job_state_names : list (WorkerJobState * string) :=
  [(JCreated, "Created"); (JSubmitting, "Submitting"); (JQueued, "Queued"); (JRunning, "Running");
   (JWaiting, "Waiting"); (JCompleted, "Completed"); (JFailed, "Failed"); (JCancelled, "Cancelled");
   (JTimedOut, "TimedOut"); (JUnknown, "Unknown")]%string.
Definition job_state_to_json : WorkerJobState -> Json := enc_enum job_state_names.
Definition job_state_of_json : Json -> tres WorkerJobState := dec_enum JCreated job_state_names.

Inductive WorkerFailureKind := FNone | FJob | FTransport | FBudget.
#[global] Instance WorkerFailureKind_eq_dec : EqDecision WorkerFailureKind.
Proof. solve_decision. Defined.
Definition failure_kind_names : list (WorkerFailureKind * string) :=
  [(FNone, "none"); (FJob, "job"); (FTransport, "transport"); (FBudget, "budget")]%string.
Definition failure_kind_to_json : WorkerFailureKind -> Json := enc_enum failure_kind_names.
Definition failure_kind_of_json : Json -> tres WorkerFailureKind := dec_enum FNone failure_kind_names.

(** ** Interactions *)

Inductive WorkerInteractionType := IApproval | IPermission | IQuestion.
#[global] Instance WorkerInteractionType_eq_dec : EqDecision WorkerInteractionType.
Proof. solve_decision. Defined.
Inductive WorkerInteractionState := IPending | IApproved | IDenied | IAnswered | ICancelled | IExpired.
#[global] Instance WorkerInteractionState_eq_dec : EqDecision WorkerInteractionState.
Proof. solve_decision. Defined.
Definition interaction_type_names : list (WorkerInteractionType * string) :=
  [(IApproval, "approval"); (IPermission, "permission"); (IQuestion, "question")]%string.
Definition interaction_state_names : list (WorkerInteractionState * string) :=
  [(IPending, "pending"); (IApproved, "approved"); (IDenied, "denied"); (IAnswered, "answered");
   (ICancelled, "cancelled"); (IExpired, "expired")]%string.
Definition interaction_type_to_json : WorkerInteractionType -> Json := enc_enum interaction_type_names.
Definition interaction_state_to_json : WorkerInteractionState -> Json := enc_enum interaction_state_names.

(** ** Records *)

(** [struct WorkerUsage] *)
Record WorkerUsage := mkUsage {
  queue_duration_ms : option Z; wall_duration_ms : option Z; input_tokens : option Z;
  output_tokens : option Z; total_tokens : option Z; tool_calls : option Z; action_count : option Z;
  cost_units : option double; u_provider : string; u_model : string; u_executor : string;
  u_metadata : Json }.
Definition empty_usage : WorkerUsage :=
  mkUsage None None None None None None None None "" "" "" (JObject []).

(** [struct WorkerMetadata] *)
Record WorkerMetadata := mkWorkerMetadata {
  wm_id : string; wm_name : string; wm_version : string; wm_description : string;
  wm_plugin : string; event_schema : string; event_source_id : string; wm_status : string;
  capabilities : list string; wm_local : bool; wm_remote : bool; healthy : bool; enabled : bool;
  supports_status : bool; supports_recovery : bool; supports_cancellation : bool }.

(** [struct OpaqueProviderContinuation] *)
Record Continuation := mkContinuation {
  provider_id : string; provider_version : string; c_state : string }.

(** [struct WorkerJob] *)
Record WorkerJob := mkJob {
  wj_id : string; wj_worker_id : string; wj_run_id : string; wj_node_id : string;
  wj_idempotency_key : string; wj_external_job_id : string; wj_submitted_at : string;
  wj_started_at : string; wj_completed_at : string; wj_error : string; cancellation_error : string;
  wj_attempt : Z; wj_state : WorkerJobState; cancellation_target_state : WorkerJobState;
  failure_kind : WorkerFailureKind; wj_cancellation_requested : bool;
  cancellation_acknowledged : bool; request_metadata : Json; wj_result : Json;
  result_metadata : Json; wj_artifacts : list Json; wj_usage : WorkerUsage;
  wj_continuation : option Continuation }.

(** [struct WorkerInteractionRequest], [WorkerInteractionResponse] and [WorkerInteraction] *)
Record WorkerInteractionRequest := mkInteractionRequest {
  rq_request_id : string; rq_worker_job_id : string; rq_worker_id : string;
  rq_external_job_id : string; rq_session_id : string; rq_type : WorkerInteractionType;
  rq_title : string; rq_summary : string; rq_created_at : string; rq_deadline : string;
  rq_risk : string; rq_category : string; rq_payload : Json }.
Record WorkerInteractionResponse := mkInteractionResponse {
  rp_request_id : string; rp_state : WorkerInteractionState; rp_payload : Json; rp_reason : string }.
Record WorkerInteraction := mkInteraction {
  in_id : string; in_worker_job_id : string; in_worker_id : string; in_run_id : string;
  in_external_job_id : string; in_session_id : string; in_type : WorkerInteractionType;
  in_state : WorkerInteractionState; in_title : string; in_summary : string;
  in_created_at : string; in_deadline : string; in_risk : string; in_category : string;
  in_payload : Json; in_response : Json; in_reason : string; in_actor : string;
  in_decided_at : string }.

(** [struct WorkerToolCallRequest] and [WorkerToolCallResponse] *)
Record WorkerToolCallRequest := mkToolCall {
  tc_request_id : string; tc_worker_job_id : string; tc_worker_id : string;
  tc_external_job_id : string; tc_session_id : string; tc_turn_id : string; tc_deadline : string;
  namespace_name : string; tc_tool : string; arguments : Json }.
Record WorkerToolCallResponse := mkToolCallResponse {
  tr_request_id : string; success : bool; tr_result : Json; tr_error : string }.

(** [process_protocol::version] *)
Definition protocol_version : Z := 1.

Section WorkerCodecs.
Context `{JsonLib}.

(** [to_json(Json &, const WorkerUsage &)]: only what was reported becomes a member. *)
Definition set_some {A} (enc : A -> Json) (key : string) (o : option A) (j : Json) : Json :=
  match o with Some a => set_member key (enc a) j | None => j end.
Definition set_nonempty (key value : string) (j : Json) : Json :=
  if empty_str value then j else set_member key (JString value) j.
(** [Json::empty()] *)
Definition json_empty (j : Json) : bool :=
  match j with JNull | JArray [] | JObject [] => true | _ => false end.
Definition usage_to_json (u : WorkerUsage) : Json :=
  let j := JObject [] in
  let j := set_some JUnsigned "queue_duration_ms" (queue_duration_ms u) j in
  let j := set_some JUnsigned "wall_duration_ms" (wall_duration_ms u) j in
  let j := set_some JUnsigned "input_tokens" (input_tokens u) j in
  let j := set_some JUnsigned "output_tokens" (output_tokens u) j in
  let j := set_some JUnsigned "total_tokens" (total_tokens u) j in
  let j := set_some JUnsigned "tool_calls" (tool_calls u) j in
  let j := set_some JUnsigned "action_count" (action_count u) j in
  let j := set_some JFloat "cost_units" (cost_units u) j in
  let j := set_nonempty "provider" (u_provider u) j in
  let j := set_nonempty "model" (u_model u) j in
  let j := set_nonempty "executor" (u_executor u) j in
  if json_empty (u_metadata u) then j else set_member "metadata" (u_metadata u) j.

(** [from_json(const Json &, WorkerUsage &)] *)
Definition optional_ {A} (dec : Json -> tres A) (j : Json) (key : string) : tres (option A) :=
  match member j key with
  | None => TOk None
  | Some v => if is_null v then TOk None else a ← dec v; TOk (Some a)
  end.
Definition cost_of_json (j : Json) : tres (option double) :=
  c ← optional_ dec_double j "cost_units";
  match c with
  | Some d => if negb (is_finite d) || SFltb d (S754_zero false)
              then TThrow (TError (err Validation "Worker cost_units must be finite and non-negative"))
              else TOk (Some d)
  | None => TOk None
  end.
Definition usage_of_json (j : Json) : tres WorkerUsage :=
  if negb (is_object j) then TThrow (TError (err Validation "Worker usage must be an object"))
  else
    x_queue ← optional_ dec_u64 j "queue_duration_ms";
    x_wall ← optional_ dec_u64 j "wall_duration_ms";
    x_input ← optional_ dec_u64 j "input_tokens";
    x_output ← optional_ dec_u64 j "output_tokens";
    x_total ← optional_ dec_u64 j "total_tokens";
    x_tools ← optional_ dec_u64 j "tool_calls";
    x_actions ← optional_ dec_u64 j "action_count";
    x_cost ← cost_of_json j;
    x_provider ← value_ dec_string j "provider" ""%string;
    x_model ← value_ dec_string j "model" ""%string;
    x_executor ← value_ dec_string j "executor" ""%string;
    x_metadata ← value_ dec_json j "metadata" (JObject []);
    if negb (is_object x_metadata)
    then TThrow (TError (err Validation "Worker usage metadata must be an object"))
    else TOk (mkUsage x_queue x_wall x_input x_output x_total x_tools x_actions x_cost x_provider
                x_model x_executor x_metadata).

(** [to_json(Json &, const WorkerMetadata &)] *)
Definition worker_metadata_to_json (m : WorkerMetadata) : Json := mk_object [
  ("id", JString (wm_id m));
  ("name", JString (wm_name m));
  ("version", JString (wm_version m));
  ("description", JString (wm_description m));
  ("plugin", JString (wm_plugin m));
  ("event_schema", JString (event_schema m));
  ("event_source_id", JString (event_source_id m));
  ("status", JString (wm_status m));
  ("capabilities", enc_vector JString (capabilities m));
  ("local", JBool (wm_local m));
  ("remote", JBool (wm_remote m));
  ("healthy", JBool (healthy m));
  ("enabled", JBool (enabled m));
  ("supports_recovery", JBool (supports_recovery m));
  ("supports_status", JBool (supports_status m));
  ("supports_cancellation", JBool (supports_cancellation m))]%string.

(** [from_json(const Json &, WorkerMetadata &)] *)
Definition worker_metadata_of_json (j : Json) : tres WorkerMetadata :=
  x_wm_id ← value_ dec_string j "id" ""%string;
  x_wm_name ← value_ dec_string j "name" ""%string;
  x_wm_version ← value_ dec_string j "version" ""%string;
  x_wm_description ← value_ dec_string j "description" ""%string;
  x_wm_plugin ← value_ dec_string j "plugin" ""%string;
  x_event_schema ← value_ dec_string j "event_schema" ""%string;
  x_event_source_id ← value_ dec_string j "event_source_id" ""%string;
  x_wm_status ← value_ dec_string j "status" ("disabled"%string);
  x_capabilities ← value_ (dec_vector dec_string) j "capabilities" [];
  x_wm_local ← value_ dec_bool j "local" (true);
  x_wm_remote ← value_ dec_bool j "remote" false;
  x_healthy ← value_ dec_bool j "healthy" false;
  x_enabled ← value_ dec_bool j "enabled" false;
  x_supports_recovery ← value_ dec_bool j "supports_recovery" false;
  x_supports_status ← value_ dec_bool j "supports_status" (x_supports_recovery);
  x_supports_cancellation ← value_ dec_bool j "supports_cancellation" false;
  TOk {| wm_id := x_wm_id; wm_name := x_wm_name; wm_version := x_wm_version;
         wm_description := x_wm_description; wm_plugin := x_wm_plugin;
         event_schema := x_event_schema; event_source_id := x_event_source_id;
         wm_status := x_wm_status; capabilities := x_capabilities; wm_local := x_wm_local;
         wm_remote := x_wm_remote; healthy := x_healthy; enabled := x_enabled;
         supports_recovery := x_supports_recovery; supports_status := x_supports_status;
         supports_cancellation := x_supports_cancellation |}.

(** The staged continuation of a job. *)
Definition continuation_to_json (c : Continuation) : Json := mk_object [
  ("provider_id", JString (provider_id c)); ("provider_version", JString (provider_version c));
  ("state", JString (c_state c))]%string.
Definition continuation_of_json (c : Json) : tres (option Continuation) :=
  let invalid := TThrow (TError (err StorageError "Stored worker continuation candidate is invalid")) in
  if negb (is_object c) then invalid
  else
    x_id ← value_ dec_string c "provider_id" ""%string;
    x_version ← value_ dec_string c "provider_version" ""%string;
    x_state ← value_ dec_string c "state" ""%string;
    if empty_str x_id || (256 <? size_of x_id) || empty_str x_version || (128 <? size_of x_version)
       || empty_str x_state || (64 * 1024 <? size_of x_state)
    then invalid else TOk (Some (mkContinuation x_id x_version x_state)).

(** [to_json(Json &, const WorkerJob &)]; a staged continuation is a private member *)
Definition worker_job_to_json (job : WorkerJob) : Json :=
  let j := mk_object [
  ("id", JString (wj_id job));
  ("worker_id", JString (wj_worker_id job));
  ("run_id", JString (wj_run_id job));
  ("node_id", JString (wj_node_id job));
  ("idempotency_key", JString (wj_idempotency_key job));
  ("external_job_id", JString (wj_external_job_id job));
  ("attempt", JUnsigned (wj_attempt job));
  ("status", job_state_to_json (wj_state job));
  ("cancellation_target_state", job_state_to_json (cancellation_target_state job));
  ("failure_kind", failure_kind_to_json (failure_kind job));
  ("submitted_at", JString (wj_submitted_at job));
  ("started_at", JString (wj_started_at job));
  ("completed_at", JString (wj_completed_at job));
  ("error", JString (wj_error job));
  ("cancellation_error", JString (cancellation_error job));
  ("cancellation_requested", JBool (wj_cancellation_requested job));
  ("cancellation_acknowledged", JBool (cancellation_acknowledged job));
  ("request_metadata", request_metadata job);
  ("result", wj_result job);
  ("result_metadata", result_metadata job);
  ("artifacts", enc_vector (fun x => x) (wj_artifacts job));
  ("usage", usage_to_json (wj_usage job))]%string in
  match wj_continuation job with
  | Some c => set_member "_continuation_candidate" (continuation_to_json c) j
  | None => j
  end.

(** [from_json(const Json &, WorkerJob &)] *)
Definition worker_job_of_json (j : Json) : tres WorkerJob :=
  x_wj_id ← at_ dec_string j "id";
  x_wj_worker_id ← at_ dec_string j "worker_id";
  x_wj_run_id ← at_ dec_string j "run_id";
  x_wj_node_id ← at_ dec_string j "node_id";
  x_wj_idempotency_key ← value_ dec_string j "idempotency_key" ""%string;
  x_wj_external_job_id ← value_ dec_string j "external_job_id" ""%string;
  x_wj_attempt ← value_ dec_unsigned j "attempt" 1;
  x_wj_state ← at_ job_state_of_json j "status";
  x_cancellation_target_state ← value_ job_state_of_json j "cancellation_target_state" (JCancelled);
  x_failure_kind ← value_ failure_kind_of_json j "failure_kind" (FNone);
  x_wj_submitted_at ← value_ dec_string j "submitted_at" ""%string;
  x_wj_started_at ← value_ dec_string j "started_at" ""%string;
  x_wj_completed_at ← value_ dec_string j "completed_at" ""%string;
  x_wj_error ← value_ dec_string j "error" ""%string;
  x_cancellation_error ← value_ dec_string j "cancellation_error" ""%string;
  x_wj_cancellation_requested ← value_ dec_bool j "cancellation_requested" false;
  x_cancellation_acknowledged ← value_ dec_bool j "cancellation_acknowledged" false;
  x_request_metadata ← value_ dec_json j "request_metadata" (JObject []);
  x_wj_result ← value_ dec_json j "result" (JObject []);
  x_result_metadata ← value_ dec_json j "result_metadata" (JObject []);
  x_wj_artifacts ← value_ (dec_vector dec_json) j "artifacts" [];
  x_wj_continuation ← (match member j "_continuation_candidate" with
    | Some c => if is_null c then TOk None else continuation_of_json c
    | None => TOk None
    end);
  x_wj_usage ← (match member j "usage" with Some v => usage_of_json v | None => TOk empty_usage end);
  TOk {| wj_id := x_wj_id; wj_worker_id := x_wj_worker_id; wj_run_id := x_wj_run_id;
         wj_node_id := x_wj_node_id; wj_idempotency_key := x_wj_idempotency_key;
         wj_external_job_id := x_wj_external_job_id; wj_attempt := x_wj_attempt;
         wj_state := x_wj_state; cancellation_target_state := x_cancellation_target_state;
         failure_kind := x_failure_kind; wj_submitted_at := x_wj_submitted_at;
         wj_started_at := x_wj_started_at; wj_completed_at := x_wj_completed_at;
         wj_error := x_wj_error; cancellation_error := x_cancellation_error;
         wj_cancellation_requested := x_wj_cancellation_requested;
         cancellation_acknowledged := x_cancellation_acknowledged;
         request_metadata := x_request_metadata; wj_result := x_wj_result;
         result_metadata := x_result_metadata; wj_artifacts := x_wj_artifacts;
         wj_usage := x_wj_usage; wj_continuation := x_wj_continuation |}.

(** Interaction types, states and decisions are read by name; an unknown name is a standard
    exception. *)
Definition named {A} (table : list (A * string)) (name : string) : tres A :=
  match list_find (fun p => p.2 = name) table with Some (_, (a, _)) => TOk a | None => TThrow TStd end.
Definition interaction_type_of_json (j : Json) : tres WorkerInteractionType :=
  s ← dec_string j; named interaction_type_names s.
Definition interaction_state_of_json (j : Json) : tres WorkerInteractionState :=
  s ← dec_string j; named interaction_state_names s.
(** A decision cannot be [pending]. *)
Definition decision_names : list (WorkerInteractionState * string) :=
  [(IApproved, "approved"); (IDenied, "denied"); (IAnswered, "answered"); (ICancelled, "cancelled");
   (IExpired, "expired")]%string.
Definition decision_of_json (j : Json) : tres WorkerInteractionState :=
  s ← dec_string j; named decision_names s.

(** [to_json(Json &, const WorkerInteractionRequest &)] *)
Definition interaction_request_to_json (r : WorkerInteractionRequest) : Json := mk_object [
  ("protocol_version", JUnsigned protocol_version);
  ("request_id", JString (rq_request_id r));
  ("worker_job_id", JString (rq_worker_job_id r));
  ("worker_id", JString (rq_worker_id r));
  ("external_job_id", JString (rq_external_job_id r));
  ("session_id", JString (rq_session_id r));
  ("request_type", interaction_type_to_json (rq_type r));
  ("title", JString (rq_title r));
  ("summary", JString (rq_summary r));
  ("payload", rq_payload r);
  ("created_at", JString (rq_created_at r));
  ("deadline", JString (rq_deadline r));
  ("risk", JString (rq_risk r));
  ("category", JString (rq_category r))]%string.

(** [from_json(const Json &, WorkerInteractionRequest &)] *)
Definition interaction_request_of_json (j : Json) : tres WorkerInteractionRequest :=
  x_rq_request_id ← value_ dec_string j "request_id" ""%string;
  x_rq_worker_job_id ← value_ dec_string j "worker_job_id" ""%string;
  x_rq_worker_id ← value_ dec_string j "worker_id" ""%string;
  x_rq_external_job_id ← value_ dec_string j "external_job_id" ""%string;
  x_rq_session_id ← value_ dec_string j "session_id" ""%string;
  x_rq_type ← value_ interaction_type_of_json j "request_type" (IQuestion);
  x_rq_title ← value_ dec_string j "title" ""%string;
  x_rq_summary ← value_ dec_string j "summary" ""%string;
  x_rq_payload ← value_ dec_json j "payload" (JObject []);
  x_rq_created_at ← value_ dec_string j "created_at" ""%string;
  x_rq_deadline ← value_ dec_string j "deadline" ""%string;
  x_rq_risk ← value_ dec_string j "risk" ""%string;
  x_rq_category ← value_ dec_string j "category" ""%string;
  TOk {| rq_request_id := x_rq_request_id; rq_worker_job_id := x_rq_worker_job_id;
         rq_worker_id := x_rq_worker_id; rq_external_job_id := x_rq_external_job_id;
         rq_session_id := x_rq_session_id; rq_type := x_rq_type; rq_title := x_rq_title;
         rq_summary := x_rq_summary; rq_payload := x_rq_payload; rq_created_at := x_rq_created_at;
         rq_deadline := x_rq_deadline; rq_risk := x_rq_risk; rq_category := x_rq_category |}.

(** [to_json(Json &, const WorkerInteractionResponse &)] *)
Definition interaction_response_to_json (r : WorkerInteractionResponse) : Json := mk_object [
  ("request_id", JString (rp_request_id r));
  ("decision", interaction_state_to_json (rp_state r));
  ("payload", rp_payload r);
  ("reason", JString (rp_reason r))]%string.

(** [from_json(const Json &, WorkerInteractionResponse &)] *)
Definition interaction_response_of_json (j : Json) : tres WorkerInteractionResponse :=
  x_rp_request_id ← value_ dec_string j "request_id" ""%string;
  x_rp_state ← value_ decision_of_json j "decision" (IDenied);
  x_rp_payload ← value_ dec_json j "payload" (JObject []);
  x_rp_reason ← value_ dec_string j "reason" ""%string;
  TOk {| rp_request_id := x_rp_request_id; rp_state := x_rp_state; rp_payload := x_rp_payload;
         rp_reason := x_rp_reason |}.

(** [to_json(Json &, const WorkerToolCallRequest &)] *)
Definition tool_call_request_to_json (r : WorkerToolCallRequest) : Json := mk_object [
  ("request_id", JString (tc_request_id r));
  ("worker_job_id", JString (tc_worker_job_id r));
  ("worker_id", JString (tc_worker_id r));
  ("external_job_id", JString (tc_external_job_id r));
  ("session_id", JString (tc_session_id r));
  ("turn_id", JString (tc_turn_id r));
  ("deadline", JString (tc_deadline r));
  ("namespace", JString (namespace_name r));
  ("tool", JString (tc_tool r));
  ("arguments", arguments r)]%string.

(** [from_json(const Json &, WorkerToolCallRequest &)] *)
Definition tool_call_request_of_json (j : Json) : tres WorkerToolCallRequest :=
  x_tc_request_id ← value_ dec_string j "request_id" ""%string;
  x_tc_worker_job_id ← value_ dec_string j "worker_job_id" ""%string;
  x_tc_worker_id ← value_ dec_string j "worker_id" ""%string;
  x_tc_external_job_id ← value_ dec_string j "external_job_id" ""%string;
  x_tc_session_id ← value_ dec_string j "session_id" ""%string;
  x_tc_turn_id ← value_ dec_string j "turn_id" ""%string;
  x_tc_deadline ← value_ dec_string j "deadline" ""%string;
  x_namespace_name ← value_ dec_string j "namespace" ""%string;
  x_tc_tool ← value_ dec_string j "tool" ""%string;
  x_arguments ← value_ dec_json j "arguments" (JObject []);
  TOk {| tc_request_id := x_tc_request_id; tc_worker_job_id := x_tc_worker_job_id;
         tc_worker_id := x_tc_worker_id; tc_external_job_id := x_tc_external_job_id;
         tc_session_id := x_tc_session_id; tc_turn_id := x_tc_turn_id;
         tc_deadline := x_tc_deadline; namespace_name := x_namespace_name; tc_tool := x_tc_tool;
         arguments := x_arguments |}.

(** [to_json(Json &, const WorkerToolCallResponse &)] *)
Definition tool_call_response_to_json (r : WorkerToolCallResponse) : Json := mk_object [
  ("request_id", JString (tr_request_id r));
  ("success", JBool (success r));
  ("result", tr_result r);
  ("error", JString (tr_error r))]%string.

(** [from_json(const Json &, WorkerToolCallResponse &)] *)
Definition tool_call_response_of_json (j : Json) : tres WorkerToolCallResponse :=
  x_tr_request_id ← value_ dec_string j "request_id" ""%string;
  x_success ← value_ dec_bool j "success" false;
  x_tr_result ← value_ dec_json j "result" (JObject []);
  x_tr_error ← value_ dec_string j "error" ""%string;
  TOk {| tr_request_id := x_tr_request_id; success := x_success; tr_result := x_tr_result;
         tr_error := x_tr_error |}.

(** [to_json(Json &, const WorkerInteraction &)] *)
Definition interaction_to_json (i : WorkerInteraction) : Json := mk_object [
  ("id", JString (in_id i));
  ("worker_job_id", JString (in_worker_job_id i));
  ("worker_id", JString (in_worker_id i));
  ("run_id", JString (in_run_id i));
  ("external_job_id", JString (in_external_job_id i));
  ("session_id", JString (in_session_id i));
  ("request_type", interaction_type_to_json (in_type i));
  ("state", interaction_state_to_json (in_state i));
  ("title", JString (in_title i));
  ("summary", JString (in_summary i));
  ("payload", in_payload i);
  ("response", in_response i);
  ("created_at", JString (in_created_at i));
  ("deadline", JString (in_deadline i));
  ("risk", JString (in_risk i));
  ("category", JString (in_category i));
  ("reason", JString (in_reason i));
  ("actor", JString (in_actor i));
  ("decided_at", JString (in_decided_at i))]%string.

(** [from_json(const Json &, WorkerInteraction &)] *)
Definition interaction_of_json (j : Json) : tres WorkerInteraction :=
  x_in_id ← at_ dec_string j "id";
  x_in_worker_job_id ← value_ dec_string j "worker_job_id" ""%string;
  x_in_worker_id ← value_ dec_string j "worker_id" ""%string;
  x_in_run_id ← value_ dec_string j "run_id" ""%string;
  x_in_external_job_id ← value_ dec_string j "external_job_id" ""%string;
  x_in_session_id ← value_ dec_string j "session_id" ""%string;
  x_in_type ← value_ interaction_type_of_json j "request_type" (IQuestion);
  x_in_state ← value_ interaction_state_of_json j "state" (IPending);
  x_in_title ← value_ dec_string j "title" ""%string;
  x_in_summary ← value_ dec_string j "summary" ""%string;
  x_in_payload ← value_ dec_json j "payload" (JObject []);
  x_in_response ← value_ dec_json j "response" (JObject []);
  x_in_created_at ← value_ dec_string j "created_at" ""%string;
  x_in_deadline ← value_ dec_string j "deadline" ""%string;
  x_in_risk ← value_ dec_string j "risk" ""%string;
  x_in_category ← value_ dec_string j "category" ""%string;
  x_in_reason ← value_ dec_string j "reason" ""%string;
  x_in_actor ← value_ dec_string j "actor" ""%string;
  x_in_decided_at ← value_ dec_string j "decided_at" ""%string;
  TOk {| in_id := x_in_id; in_worker_job_id := x_in_worker_job_id; in_worker_id := x_in_worker_id;
         in_run_id := x_in_run_id; in_external_job_id := x_in_external_job_id;
         in_session_id := x_in_session_id; in_type := x_in_type; in_state := x_in_state;
         in_title := x_in_title; in_summary := x_in_summary; in_payload := x_in_payload;
         in_response := x_in_response; in_created_at := x_in_created_at;
         in_deadline := x_in_deadline; in_risk := x_in_risk; in_category := x_in_category;
         in_reason := x_in_reason; in_actor := x_in_actor; in_decided_at := x_in_decided_at |}.
End WorkerCodecs.

(** ** Round trips *)

Section WorkerCodecProofs.
Context `{L : JsonLib} `{!JsonLaws L}.

Lemma job_state_roundtrip s : job_state_of_json (job_state_to_json s) = TOk s.
Proof. by destruct s. Qed.
Lemma failure_kind_roundtrip s : failure_kind_of_json (failure_kind_to_json s) = TOk s.
Proof. by destruct s. Qed.
Lemma interaction_type_roundtrip s : interaction_type_of_json (interaction_type_to_json s) = TOk s.
Proof.
  unfold interaction_type_of_json.
  assert (Hs : exists n, interaction_type_to_json s = JString n /\ named interaction_type_names n = TOk s)
    by (destruct s; by eexists).
  destruct Hs as (n & -> & Hn). by rewrite dec_string_of.
Qed.
Lemma interaction_state_roundtrip s : interaction_state_of_json (interaction_state_to_json s) = TOk s.
Proof.
  unfold interaction_state_of_json.
  assert (Hs : exists n, interaction_state_to_json s = JString n /\ named interaction_state_names n = TOk s)
    by (destruct s; by eexists).
  destruct Hs as (n & -> & Hn). by rewrite dec_string_of.
Qed.

Ltac read_members enc :=
  let x := eval lazy -[enc_vector enc_map enc_index_map job_state_to_json failure_kind_to_json
    interaction_type_to_json interaction_state_to_json usage_to_json continuation_to_json
    protocol_version] in enc in
  change enc with x;
  cbv [at_ value_ member assoc String.eqb Ascii.eqb Bool.eqb dec_json].
Ltac read_fields :=
  rewrite ?dec_string_of, ?dec_bool_of, ?dec_double_of, ?job_state_roundtrip,
    ?failure_kind_roundtrip, ?interaction_type_roundtrip, ?interaction_state_roundtrip,
    ?dec_vector_strings;
  repeat rewrite dec_unsigned_of by assumption;
  cbv [mbind tres_bind].

Lemma worker_metadata_roundtrip m : worker_metadata_of_json (worker_metadata_to_json m) = TOk m.
Proof.
  destruct m. unfold worker_metadata_of_json, worker_metadata_to_json.
  match goal with |- context [mk_object ?l] => read_members (mk_object l) end.
  read_fields. reflexivity.
Qed.

(** *** Usage: optional members *)

(** An object built by setting the members that are present. *)
Definition set_opt (j : Json) (kv : string * option Json) : Json :=
  match kv.2 with Some v => set_member kv.1 v j | None => j end.
Definition build (l : list (string * option Json)) : Json := foldl set_opt (JObject []) l.
Definition text (s : string) : option Json := if empty_str s then None else Some (JString s).

Lemma member_set_opt j kv k : is_object j = true ->
  is_object (set_opt j kv) = true /\
  member (set_opt j kv) k =
    if String.eqb kv.1 k then match kv.2 with Some v => Some v | None => member j k end
    else member j k.
Proof.
  intros Hj. destruct kv as [k' [v|]]; unfold set_opt; simpl.
  - split; [by apply is_object_set|]. destruct (String.eqb_spec k' k) as [->|Hne].
    + destruct j; try done. apply member_set_eq.
    + by apply member_set_ne.
  - by destruct (String.eqb k' k).
Qed.

Lemma member_build l k :
  is_object (build l) = true /\
  member (build l) k =
    foldl (fun acc kv => if String.eqb kv.1 k
                         then match kv.2 with Some v => Some v | None => acc end else acc) None l.
Proof.
  unfold build. change (@None Json) with (member (JObject []) k).
  assert (Hb : is_object (JObject []) = true) by done. revert Hb. generalize (JObject []) as j.
  induction l as [|kv l IH]; intros j Hj; [done|]. cbn [foldl].
  destruct (member_set_opt j kv k Hj) as [Ho Hm].
  destruct (IH _ Ho) as [H1 H2]. split; [done|]. by rewrite H2, Hm.
Qed.

Definition usage_fits (u : WorkerUsage) : Prop :=
  Forall (fun o => forall z, o = Some z -> fits64 z)
    [queue_duration_ms u; wall_duration_ms u; input_tokens u; output_tokens u; total_tokens u;
     tool_calls u; action_count u]
  /\ (forall d, cost_units u = Some d -> is_finite d = true /\ SFltb d (S754_zero false) = false)
  /\ is_object (u_metadata u) = true.

(** The members of a serialised usage, but for its metadata. *)
Definition usage_fields (u : WorkerUsage) : list (string * option Json) :=
  [("queue_duration_ms", JUnsigned <$> queue_duration_ms u);
   ("wall_duration_ms", JUnsigned <$> wall_duration_ms u);
   ("input_tokens", JUnsigned <$> input_tokens u); ("output_tokens", JUnsigned <$> output_tokens u);
   ("total_tokens", JUnsigned <$> total_tokens u); ("tool_calls", JUnsigned <$> tool_calls u);
   ("action_count", JUnsigned <$> action_count u); ("cost_units", JFloat <$> cost_units u);
   ("provider", text (u_provider u)); ("model", text (u_model u)); ("executor", text (u_executor u))]%string.
Definition usage_base (u : WorkerUsage) : Json := build (usage_fields u).
Lemma usage_base_object u : is_object (usage_base u) = true.
Proof. apply (member_build (usage_fields u) ""). Qed.

Lemma set_some_opt {A} (enc : A -> Json) k o j : set_some enc k o j = set_opt j (k, enc <$> o).
Proof. by destruct o. Qed.
Lemma set_nonempty_opt k v j : set_nonempty k v j = set_opt j (k, text v).
Proof. unfold set_nonempty, text. by destruct (empty_str v). Qed.

Lemma usage_to_json_base u :
  usage_to_json u =
  if json_empty (u_metadata u) then usage_base u
  else set_member "metadata" (u_metadata u) (usage_base u).
Proof. unfold usage_to_json. by rewrite !set_some_opt, !set_nonempty_opt. Qed.

Lemma usage_member u k : k <> "metadata"%string ->
  member (usage_to_json u) k = member (usage_base u) k.
Proof.
  intros Hk. rewrite usage_to_json_base. destruct (json_empty (u_metadata u)); [done|].
  apply member_set_ne; [congruence|]. apply usage_base_object.
Qed.

Lemma optional_u64 (o : option Z) j key : (forall z, o = Some z -> fits64 z) ->
  member j key = JUnsigned <$> o -> optional_ dec_u64 j key = TOk o.
Proof.
  intros Ho Hm. unfold optional_. rewrite Hm. destruct o as [z|]; simpl; [|done].
  by rewrite dec_u64_of by (by apply Ho).
Qed.
Lemma value_text s j key : is_object j = true ->
  member j key = text s ->
  value_ dec_string j key ""%string = TOk s.
Proof.
  intros Hj Hm. unfold value_. destruct j; try done. rewrite Hm. unfold text, empty_str.
  destruct (String.eqb_spec s "") as [->|]; [done|]. apply dec_string_of.
Qed.

Lemma usage_members_of u :
  let m := member (usage_base u) in
  m "queue_duration_ms"%string = JUnsigned <$> queue_duration_ms u /\
  m "wall_duration_ms"%string = JUnsigned <$> wall_duration_ms u /\
  m "input_tokens"%string = JUnsigned <$> input_tokens u /\
  m "output_tokens"%string = JUnsigned <$> output_tokens u /\
  m "total_tokens"%string = JUnsigned <$> total_tokens u /\
  m "tool_calls"%string = JUnsigned <$> tool_calls u /\
  m "action_count"%string = JUnsigned <$> action_count u /\
  m "cost_units"%string = JFloat <$> cost_units u /\
  m "provider"%string = text (u_provider u) /\
  m "model"%string = text (u_model u) /\
  m "executor"%string = text (u_executor u) /\
  m "metadata"%string = None.
Proof.
  cbv zeta. unfold usage_base. split_and!; rewrite (proj2 (member_build _ _)); cbn; done || by case_match.
Qed.

Lemma usage_object u : is_object (usage_to_json u) = true.
Proof.
  rewrite usage_to_json_base. destruct (json_empty _); [|apply is_object_set]; apply usage_base_object.
Qed.

Lemma usage_metadata u : is_object (u_metadata u) = true ->
  value_ dec_json (usage_to_json u) "metadata" (JObject []) = TOk (u_metadata u).
Proof.
  intros Hm. rewrite usage_to_json_base.
  pose proof (usage_base_object u) as Hb. destruct (usage_members_of u) as (_ & _ & _ & _ & _ & _ & _ & _ & _ & _ & _ & Hn).
  unfold value_. destruct (json_empty (u_metadata u)) eqn:He.
  - destruct (usage_base u); try done. rewrite Hn. by destruct (u_metadata u) as [| | | | | | |[|]].
  - destruct (usage_base u); try done. by rewrite member_set_eq.
Qed.

Lemma usage_roundtrip u : usage_fits u -> usage_of_json (usage_to_json u) = TOk u.
Proof.
  intros (Hn & Hc & Hm). unfold usage_of_json. rewrite usage_object. cbn [negb].
  destruct (usage_members_of u) as (H1 & H2 & H3 & H4 & H5 & H6 & H7 & H8 & H9 & H10 & H11 & _).
  repeat match goal with H : Forall _ (_ :: _) |- _ => inversion H; clear H; subst end.
  rewrite (optional_u64 (queue_duration_ms u) _ "queue_duration_ms") by (done || by rewrite usage_member).
  rewrite (optional_u64 (wall_duration_ms u) _ "wall_duration_ms") by (done || by rewrite usage_member).
  rewrite (optional_u64 (input_tokens u) _ "input_tokens") by (done || by rewrite usage_member).
  rewrite (optional_u64 (output_tokens u) _ "output_tokens") by (done || by rewrite usage_member).
  rewrite (optional_u64 (total_tokens u) _ "total_tokens") by (done || by rewrite usage_member).
  rewrite (optional_u64 (tool_calls u) _ "tool_calls") by (done || by rewrite usage_member).
  rewrite (optional_u64 (action_count u) _ "action_count") by (done || by rewrite usage_member).
  assert (Hcost : cost_of_json (usage_to_json u) = TOk (cost_units u)).
  { unfold cost_of_json, optional_. rewrite usage_member, H8 by done.
    destruct (cost_units u) as [d|]; simpl; [|done]. rewrite dec_double_of. cbn.
    destruct (Hc d eq_refl) as [-> ->]. done. }
  rewrite Hcost.
  rewrite (value_text (u_provider u) _ "provider"), (value_text (u_model u) _ "model"),
    (value_text (u_executor u) _ "executor") by (apply usage_object || by rewrite usage_member).
  rewrite usage_metadata by done. cbn. rewrite Hm. cbn. by destruct u.
Qed.

(** *** Jobs *)

Definition continuation_fits (c : Continuation) : Prop :=
  provider_id c <> ""%string /\ size_of (provider_id c) <= 256 /\ provider_version c <> ""%string /\
  size_of (provider_version c) <= 128 /\ c_state c <> ""%string /\ size_of (c_state c) <= 64 * 1024.

Lemma continuation_roundtrip c : continuation_fits c ->
  continuation_of_json (continuation_to_json c) = TOk (Some c).
Proof.
  intros (Hi & Hil & Hv & Hvl & Hs & Hsl). destruct c as [i v s]. simpl in *.
  unfold continuation_of_json, continuation_to_json.
  match goal with |- context [mk_object ?l] => read_members (mk_object l) end.
  cbn [is_object negb]. read_fields. unfold empty_str. apply String.eqb_neq in Hi, Hv, Hs.
  rewrite Hi, Hv, Hs.
  rewrite (proj2 (Z.ltb_ge _ _) Hil), (proj2 (Z.ltb_ge _ _) Hvl), (proj2 (Z.ltb_ge _ _) Hsl). done.
Qed.

Definition job_fits (j : WorkerJob) : Prop :=
  fits32 (wj_attempt j) /\ usage_fits (wj_usage j)
  /\ (forall c, wj_continuation j = Some c -> continuation_fits c).

Lemma continuation_not_null c : is_null (continuation_to_json c) = false.
Proof. done. Qed.

Lemma json_vector_roundtrip l : dec_vector dec_json (enc_vector (fun x => x) l) = TOk l.
Proof. apply dec_vector_of, Forall_forall. by intros. Qed.

Lemma worker_job_json_roundtrip j : job_fits j -> worker_job_of_json (worker_job_to_json j) = TOk j.
Proof.
  intros (Ha & Hu & Hc). destruct j as [? ? ? ? ? ? ? ? ? ? ? ? ? ? ? ? ? ? ? ? ? ? ct].
  unfold worker_job_of_json, worker_job_to_json. cbn [wj_continuation] in *. destruct ct as [c|].
  - match goal with |- context [set_member ?k ?v ?j] => read_members (set_member k v j) end.
    read_fields. rewrite json_vector_roundtrip, continuation_not_null.
    rewrite continuation_roundtrip by (by apply Hc). rewrite usage_roundtrip by assumption. reflexivity.
  - match goal with |- context [mk_object ?l] => read_members (mk_object l) end.
    read_fields. rewrite json_vector_roundtrip, usage_roundtrip by assumption. reflexivity.
Qed.

Lemma interaction_json_roundtrip i : interaction_of_json (interaction_to_json i) = TOk i.
Proof.
  destruct i. unfold interaction_of_json, interaction_to_json.
  match goal with |- context [mk_object ?l] => read_members (mk_object l) end.
  read_fields. reflexivity.
Qed.
Lemma interaction_request_roundtrip r : interaction_request_of_json (interaction_request_to_json r) = TOk r.
Proof.
  destruct r. unfold interaction_request_of_json, interaction_request_to_json.
  match goal with |- context [mk_object ?l] => read_members (mk_object l) end.
  read_fields. reflexivity.
Qed.
Lemma tool_call_request_roundtrip r : tool_call_request_of_json (tool_call_request_to_json r) = TOk r.
Proof.
  destruct r. unfold tool_call_request_of_json, tool_call_request_to_json.
  match goal with |- context [mk_object ?l] => read_members (mk_object l) end.
  read_fields. reflexivity.
Qed.
Lemma tool_call_response_roundtrip r : tool_call_response_of_json (tool_call_response_to_json r) = TOk r.
Proof.
  destruct r. unfold tool_call_response_of_json, tool_call_response_to_json.
  match goal with |- context [mk_object ?l] => read_members (mk_object l) end.
  read_fields. reflexivity.
Qed.
End WorkerCodecProofs.

(** ** Properties *)

(** A worker job survives the store: reading the stored form of a job gives back exactly the
    job, with its usage report (absent metrics stay absent) and its staged continuation. *)
Theorem worker_job_roundtrip {L : JsonLib} {HL : JsonLaws L} j :
  job_fits j -> worker_job_of_json (worker_job_to_json j) = TOk j.
Proof. apply worker_job_json_roundtrip. Qed.

Definition sample_job (st : WorkerJobState) : WorkerJob := {|
  wj_id := "j1"; wj_worker_id := "w"; wj_run_id := "r1"; wj_node_id := "n"; wj_idempotency_key := "k";
  wj_external_job_id := "x"; wj_submitted_at := "t"; wj_started_at := ""; wj_completed_at := "";
  wj_error := ""; cancellation_error := ""; wj_attempt := 1; wj_state := st;
  cancellation_target_state := JCancelled; failure_kind := FNone; wj_cancellation_requested := false;
  cancellation_acknowledged := false; request_metadata := JObject []; wj_result := JNull;
  result_metadata := JObject []; wj_artifacts := [JString "a"];
  wj_usage := mkUsage (Some 5) None None None None None None None "p" "" "" (JObject []);
  wj_continuation := Some (mkContinuation "p" "1" "s") |}.

Lemma worker_job_roundtrip_witness :
  @worker_job_of_json strict_json (worker_job_to_json (sample_job JRunning)) = TOk (sample_job JRunning).
Proof.
  apply (@worker_job_roundtrip strict_json _ (sample_job JRunning)).
  unfold job_fits, usage_fits, fits32, fits64, u32_max, u64_max. simpl. split_and!; try lia; try done.
  - repeat (apply List.Forall_cons; [intros z Hz; simplify_eq; lia|]). constructor.
  - intros c [= <-]. unfold continuation_fits. simpl. split_and!; done.
Defined.

(** The operator diagnostics group the stored worker jobs by their member [state], but a
    stored job has no such member: its state is written under [status], so that the state counts
    of the worker jobs are always empty. *)
Theorem worker_job_state_member j :
  member (worker_job_to_json j) "state" = None /\
  member (worker_job_to_json j) "status" = Some (job_state_to_json (wj_state j)).
Proof.
  destruct j as [? ? ? ? ? ? ? ? ? ? ? ? ? ? ? ? ? ? ? ? ? ? ct]. unfold worker_job_to_json.
  cbn [wj_continuation wj_state]. destruct ct as [c|]; split; reflexivity.
Qed.
