(* ===== verification/Store.v ===== *)
(** * The record store

    [src/storage/postgres.cpp]: checkpoint commits, owned commits guarded by a lease, durable
    claims, cancellation requests, reads, and the operator audit journal, as transactions on the
    shared database of [Db].  Bodies are the JSON documents the code serialises; [dump] is the
    library's printer, used for the size limit and for comparing pipeline revisions. *)

From S2P Require Import Prelude Json Types Samples Text Db Coordination Codec Worker.
From Stdlib Require Import Ascii.

(** [validate_schema] *)
Definition validate_schema (schema : string) : res unit :=
  match chars_of schema with
  | [] => Throw (err Configuration "Invalid PostgreSQL schema")
  | c :: l =>
      if (63 <? size_of schema) || negb (is_alpha c)
         || negb (forallb (fun c => is_alnum c || Ascii.eqb c "_"%char) (c :: l))
      then Throw (err Configuration "Invalid PostgreSQL schema") else Ok tt
  end.

Definition max_record_bytes : Z := 4 * 1024 * 1024.

Section Store.
Context `{JsonLib}.

(** [serialize]; the text itself is not kept. *)
Definition serialize (value : Json) : T unit :=
  match dump value with
  | None => t_error Validation "Record contains invalid JSON"
  | Some text => t_guard (max_record_bytes <? size_of text) StorageError "Stored record exceeds limit"
  end.

Definition t_lift {A} (r : tres A) : T A := fun db => (db, r).

(** A pipeline revision, once stored, keeps its text. *)
Definition check_pipeline (id : string) (value : Json) : T unit :=
  existing ← select_row KPipeline id;
  match existing with
  | Some row => t_guard (negb (bool_decide (dump (row_body row) = dump value))) Conflict
                  "Pipeline revision is immutable"
  | None => mret tt
  end.

(** A worker job moves along its transition table. *)
Definition check_worker_job (id : string) (value : Json) : T unit :=
  existing ← select_row KWorkerJob id;
  match existing with
  | Some row =>
      old ← t_lift (worker_job_of_json (row_body row));
      new ← t_lift (worker_job_of_json value);
      t_guard (negb (js_eqb (wj_state old) (wj_state new))
               && negb (valid_worker_job_transition (wj_state old) (wj_state new)))
        Conflict "Invalid worker job state transition"
  | None => mret tt
  end.

(** Parallel work moves along its transition table, and a finished item is immutable; [true]
    means the record is a repetition of the finished item and is skipped.  [fresh] and [now] are
    the defaults of the reader. *)
Definition check_node_work (fresh now : string) (id : string) (value : Json) : T bool :=
  existing ← select_row KNodeWork id;
  match existing with
  | Some row =>
      old ← t_lift (work_of_json fresh now (row_body row));
      new ← t_lift (work_of_json fresh now value);
      if work_terminal (w_state old) then
        if equivalent_terminal_node_work old new then mret true
        else t_error Conflict "Terminal node work is immutable"
      else
        t_guard (negb (valid_node_work_transition (w_state old) (w_state new))) Conflict
          "Invalid node work state transition" ≫= fun _ => mret false
  | None => mret false
  end.

Definition kind_eqb (a b : RecordKind) : bool := bool_decide (a = b).

(** The body of the loop of [write_records]. *)
Definition write_record (fresh now : string) (r : StoreRecord) : T unit :=
  _ ← t_guard (empty_str (rc_id r)) Validation "Record id is empty";
  _ ← t_guard (kind_eqb (rc_kind r) KSessionContextGeneration || kind_eqb (rc_kind r) KRunContextSnapshot)
        Conflict "Session context records are immutable";
  _ ← serialize (rc_value r);
  _ ← (if kind_eqb (rc_kind r) KPipeline then check_pipeline (rc_id r) (rc_value r) else mret tt);
  _ ← (if kind_eqb (rc_kind r) KWorkerJob then check_worker_job (rc_id r) (rc_value r) else mret tt);
  skip ← (if kind_eqb (rc_kind r) KNodeWork then check_node_work fresh now (rc_id r) (rc_value r)
          else mret false);
  if (skip : bool) then mret tt
  else upsert (rc_kind r) (rc_id r) (rc_run_id r) (rc_value r).
Definition write_records (fresh now : string) (records : list StoreRecord) : T unit :=
  t_iter (write_record fresh now) records.

(** ** Operations *)

Definition store_tx {A} (failed : string) (body : T A) : M DB A :=
  transaction "PostgreSQL uniqueness conflict" failed "PostgreSQL operation failed" body.

Definition commit (fresh now : string) (records : list StoreRecord) : M DB unit :=
  store_tx "PostgreSQL write failed" (write_records fresh now records).

(** [clock] is the reading of [clock_timestamp()] of the lease predicate. *)
Definition commit_owned (fresh now : string) (clock : Z) (records : list StoreRecord)
    (resource owner : string) (token : Z) : M DB unit :=
  m_guard (empty_str resource || empty_str owner || (token =? 0)) Validation
    "Invalid run ownership proof" ;;;
  store_tx "PostgreSQL owned write failed"
    (_ ← bigint_parameter token;
     db ← t_get;
     _ ← t_guard (negb (lease_current db resource owner token clock)) Conflict
           "Run ownership is no longer valid";
     write_records fresh now records).

Definition request_cancellation (now : string) (run_id : string) : M DB unit :=
  m_guard (empty_str run_id) Validation "Run id is empty" ;;;
  store_tx "PostgreSQL cancellation write failed"
    (found ← select_row KRun run_id;
     match found with
     | None => t_error NotFound "Run not found"
     | Some row =>
         run ← t_lift (run_of_json (row_body row));
         if terminal (state run) then mret tt
         else
           let value := run_to_json ((run <| cancellation_requested := true |>) <| updated_at := now |>) in
           _ ← serialize value;
           update_body KRun run_id value
     end).

Definition claimable (k : RecordKind) : bool :=
  kind_eqb k KScheduleOccurrence || kind_eqb k KTriggerDelivery || kind_eqb k KExternalEventClaim
  || kind_eqb k KWorkerJob || kind_eqb k KNodeWork || kind_eqb k KSessionTurn.

(** The insertion of one record that accompanies a new claim. *)
Definition insert_related (r : StoreRecord) : T unit :=
  _ ← t_guard (empty_str (rc_id r)) Validation "Associated record id is empty";
  _ ← serialize (rc_value r);
  insert_row (rc_kind r) (rc_id r) (rc_run_id r) (rc_value r) None.

Definition claim (r : StoreRecord) (associated : list StoreRecord) : M DB bool :=
  m_guard (empty_str (rc_id r)) Validation "Record id is empty" ;;;
  m_guard (negb (claimable (rc_kind r))) Validation "Record kind cannot be claimed" ;;;
  store_tx "PostgreSQL claim failed"
    (_ ← serialize (rc_value r);
     inserted ← insert_if_absent (rc_kind r) (rc_id r) (rc_run_id r) (rc_value r);
     _ ← (if (inserted : bool) then t_iter insert_related associated else mret tt);
     mret inserted).

Definition get_record (k : RecordKind) (id : string) : M DB Json :=
  store_tx "PostgreSQL read failed"
    (found ← select_row k id;
     match found with
     | None => t_error NotFound "Record not found"
     | Some row => mret (row_body row)
     end).

Definition list_records (k : RecordKind) (run_id : string) (limit offset : Z) : M DB (list Json) :=
  m_guard ((10000 <? limit) || (100000000 <? offset)) Validation "Pagination limit exceeded" ;;;
  store_tx "PostgreSQL list failed"
    (db ← t_get;
     mret (map (fun kv => row_body kv.2)
             (take (Z.to_nat limit) (drop (Z.to_nat offset) (select_rows db k run_id))))).

(** ** The operator audit journal *)

Record OperatorAuditEvent := mkAuditEvent {
  oa_event_id : string; oa_operation_id : string; oa_actor_id : string; oa_role : string;
  oa_action : string; oa_target_type : string; oa_target_id : string; oa_outcome : string;
  oa_http_status : Z }.

Definition valid_uuid (value : string) : bool :=
  Nat.eqb (String.length value) 36
  && forallb (fun ic => if existsb (Nat.eqb ic.1) [8; 13; 18; 23]%nat
                        then Ascii.eqb ic.2 "-"%char else is_xdigit ic.2)
       (imap pair (chars_of value)).
Definition valid_token (value : string) (max_size : Z) (allowed : ascii -> bool) : bool :=
  negb (empty_str value) && (size_of value <=? max_size) && forallb allowed (chars_of value).
Definition actor_character (c : ascii) : bool :=
  is_alnum c || one_of ["."; "_"; "@"; ":"; "-"]%char c.
Definition action_character (c : ascii) : bool :=
  is_lower c || is_digit c || one_of ["."; "_"; "-"]%char c.
Definition target_type_character (c : ascii) : bool :=
  is_lower c || is_digit c || one_of ["_"; "-"]%char c.
Definition first_is (p : ascii -> bool) (s : string) : bool :=
  match chars_of s with c :: _ => p c | [] => false end.
Definition str_one_of (s : string) (l : list string) : bool := existsb (String.eqb s) l.

Definition valid_audit_event (e : OperatorAuditEvent) : bool :=
  valid_uuid (oa_event_id e) && valid_uuid (oa_operation_id e)
  && valid_token (oa_actor_id e) 128 actor_character && first_is is_alnum (oa_actor_id e)
  && str_one_of (oa_role e) ["operator"; "admin"]%string
  && valid_token (oa_action e) 64 action_character && first_is is_alpha (oa_action e)
  && valid_token (oa_target_type e) 32 target_type_character && first_is is_alpha (oa_target_type e)
  && (size_of (oa_target_id e) <=? 128)
  && (empty_str (oa_target_id e)
      || (valid_token (oa_target_id e) 128 actor_character && first_is is_alnum (oa_target_id e)))
  && str_one_of (oa_outcome e) ["requested"; "succeeded"; "failed"; "rejected"]%string
  && ((oa_http_status e =? 0) || ((100 <=? oa_http_status e) && (oa_http_status e <=? 599))).

(** [clock] is the default of [occurred_at]; the row is returned as it was stored. *)
Definition append_operator_audit_event (clock : Z) (e : OperatorAuditEvent) : M DB AuditRow :=
  m_guard (negb (valid_audit_event e)) Validation "Invalid operator audit event" ;;;
  store_tx "PostgreSQL operator audit append failed"
    (db ← t_get;
     let n := audit_identity db + 1 in
     _ ← t_put (db <| audit_identity := n |>);
     if existsb (fun a => String.eqb (au_event_id a) (oa_event_id e)) (audit db)
     then t_throw (TSql "23505")
     else
       let row := mkAudit n (oa_event_id e) (oa_operation_id e) (oa_actor_id e) (oa_role e)
                    (oa_action e) (oa_target_type e) (oa_target_id e) (oa_outcome e)
                    (oa_http_status e) clock in
       _ ← t_modify (fun db => db <| audit := row :: audit db |>);
       mret row).

Record AuditPage := mkPage { page_events : list AuditRow; next_before : option Z; has_more : bool }.

Definition audit_le (a b : AuditRow) : Prop := au_sequence b <= au_sequence a.
#[global] Instance audit_le_dec : RelDecision audit_le.
Proof. intros a b. unfold audit_le. apply _. Defined.
(** [ORDER BY sequence DESC], below the cursor when there is one. *)
Definition below (before : option Z) (a : AuditRow) : bool :=
  match before with Some b => au_sequence a <? b | None => true end.
Definition audit_below (before : option Z) (l : list AuditRow) : list AuditRow :=
  merge_sort audit_le (filter (fun a => below before a = true) l).

Definition operator_audit_page (limit : Z) (before : option Z) : M DB AuditPage :=
  m_guard ((limit =? 0) || (100 <? limit)
           || match before with Some b => (b =? 0) || (i64_max <? b) | None => false end)
    Validation "Invalid operator audit pagination" ;;;
  store_tx "PostgreSQL operator audit read failed"
    (db ← t_get;
     let result := take (Z.to_nat (limit + 1)) (audit_below before (audit db)) in
     let events := take (Z.to_nat limit) result in
     let more := limit <? Z.of_nat (length result) in
     mret (mkPage events (if more then au_sequence <$> last events else None) more)).
End Store.

(** ** Lemmas *)

(** The parts of the database a record write does not touch. *)
Definition same_rest (db db' : DB) : Prop :=
  leases db' = leases db /\ instances db' = instances db /\ audit db' = audit db
  /\ audit_identity db' = audit_identity db.

#[global] Instance same_rest_preorder : PreOrder same_rest.
Proof.
  split; [by intros db|]. intros a b c (? & ? & ? & ?) (? & ? & ? & ?). unfold same_rest.
  split_and!; congruence.
Qed.

Section StoreProofs.
Context `{L : JsonLib}.

(** Checks do not change the database. *)
Definition pure_t {A} (m : T A) : Prop := forall db db' r, m db = (db', r) -> db' = db.
Lemma pure_ret {A} (a : A) : pure_t (mret a).
Proof. by intros db db' r [= -> _]. Qed.
Lemma pure_throw {A} x : pure_t (@t_throw A x).
Proof. by intros db db' r [= -> _]. Qed.
Lemma pure_guard c code msg : pure_t (t_guard c code msg).
Proof. unfold t_guard. destruct c; [apply pure_throw|apply pure_ret]. Qed.
Lemma pure_lift {A} (r : tres A) : pure_t (t_lift r).
Proof. by intros db db' x [= -> _]. Qed.
Lemma pure_select k id : pure_t (select_row k id).
Proof. by intros db db' x [= -> _]. Qed.
Lemma pure_bind {A B} (m : T A) (f : A -> T B) :
  pure_t m -> (forall a, pure_t (f a)) -> pure_t (m ≫= f).
Proof.
  intros Hm Hf db db' r. unfold mbind, t_bind. destruct (m db) as [db1 [a|x]] eqn:E.
  - apply Hm in E as ->. apply Hf.
  - apply Hm in E as ->. by intros [= -> _].
Qed.
Ltac pure_steps :=
  repeat first [ apply pure_ret | apply pure_throw | apply pure_guard | apply pure_lift
    | apply pure_select | apply pure_bind; [|intros ?] | case_match ].

Lemma pure_serialize v : pure_t (serialize v).
Proof. unfold serialize. destruct (dump v); [apply pure_guard|apply pure_throw]. Qed.
Lemma pure_check_pipeline id v : pure_t (check_pipeline id v).
Proof. unfold check_pipeline. pure_steps. Qed.
Lemma pure_check_job id v : pure_t (check_worker_job id v).
Proof. unfold check_worker_job. pure_steps. Qed.
Lemma pure_check_work f n id v : pure_t (check_node_work f n id v).
Proof. unfold check_node_work. pure_steps. Qed.

Lemma kind_eqb_true a b : kind_eqb a b = true <-> a = b.
Proof. unfold kind_eqb. apply bool_decide_eq_true. Qed.

(** A successful record write: the checks passed on the database as it was, and the row was
    replaced, unless the record repeats a finished work item. *)
Lemma write_record_ok fresh now r db db' u :
  write_record fresh now r db = (db', TOk u) ->
  rc_id r <> ""%string /\ rc_kind r <> KSessionContextGeneration /\ rc_kind r <> KRunContextSnapshot
  /\ (rc_kind r = KPipeline -> check_pipeline (rc_id r) (rc_value r) db = (db, TOk tt))
  /\ (rc_kind r = KWorkerJob -> check_worker_job (rc_id r) (rc_value r) db = (db, TOk tt))
  /\ same_rest db db'
  /\ ((rc_kind r = KNodeWork /\ db' = db
       /\ check_node_work fresh now (rc_id r) (rc_value r) db = (db, TOk true))
      \/ ((rc_kind r = KNodeWork -> check_node_work fresh now (rc_id r) (rc_value r) db = (db, TOk false))
          /\ exists seq, tables db' =
               <[(rc_kind r, rc_id r) := mkRow (rc_run_id r) (rc_value r) seq]> (tables db)
             /\ (forall old, tables db !! (rc_kind r, rc_id r) = Some old -> seq = row_sequence old))).
Proof.
  unfold write_record. intros Hw.
  apply t_bind_ok in Hw as (d1 & [] & H1 & Hw). apply t_guard_ok in H1 as [H1 ->].
  apply t_bind_ok in Hw as (d2 & [] & H2 & Hw). apply t_guard_ok in H2 as [H2 ->].
  apply t_bind_ok in Hw as (d3 & [] & H3 & Hw). apply pure_serialize in H3 as ->.
  apply t_bind_ok in Hw as (d4 & [] & H4 & Hw). apply t_bind_ok in Hw as (d5 & [] & H5 & Hw).
  apply t_bind_ok in Hw as (d6 & skip & H6 & Hw).
  assert (d4 = db) as ->.
  { destruct (kind_eqb (rc_kind r) KPipeline); [by apply pure_check_pipeline in H4|by injection H4]. }
  assert (d5 = db) as ->.
  { destruct (kind_eqb (rc_kind r) KWorkerJob); [by apply pure_check_job in H5|by injection H5]. }
  assert (d6 = db) as ->.
  { destruct (kind_eqb (rc_kind r) KNodeWork); [by apply pure_check_work in H6|by injection H6]. }
  apply orb_false_iff in H2 as [Hk1 Hk2]. unfold empty_str in H1. apply String.eqb_neq in H1.
  assert (Hne : forall k, kind_eqb (rc_kind r) k = false -> rc_kind r <> k).
  { intros k Hk. intros Heq. apply kind_eqb_true in Heq. congruence. }
  split_and!; [done|by apply Hne|by apply Hne| | | |].
  - intros Hk. by rewrite (proj2 (kind_eqb_true _ _) Hk) in H4.
  - intros Hk. by rewrite (proj2 (kind_eqb_true _ _) Hk) in H5.
  - destruct skip; [by injection Hw as <-|]. rewrite upsert_spec in Hw. by injection Hw as <-.
  - destruct skip.
    + left. injection Hw as <-. destruct (kind_eqb (rc_kind r) KNodeWork) eqn:Hk; [|by injection H6].
      apply kind_eqb_true in Hk. done.
    + right. split.
      { intros Hk. by rewrite (proj2 (kind_eqb_true _ _) Hk) in H6. }
      rewrite upsert_spec in Hw. injection Hw as <-. eexists. split; [done|].
      intros old Hold. by rewrite Hold.
Qed.

(** Rows change one record at a time. *)
Lemma write_records_ind fresh now (P : DB -> Prop) rs :
  (forall r db db', r ∈ rs -> P db -> write_record fresh now r db = (db', TOk tt) -> P db') ->
  forall db db', P db -> write_records fresh now rs db = (db', TOk tt) -> P db'.
Proof.
  unfold write_records. intros Hs. induction rs as [|r rs IH]; intros db db' HP Hw; simpl in Hw.
  { by injection Hw as <-. }
  apply t_bind_ok in Hw as (d1 & [] & H1 & Hw). eapply IH; [|by eapply Hs; [left| |]|done].
  intros. eapply Hs; [by right|done..].
Qed.

Lemma write_records_rest fresh now rs db db' :
  write_records fresh now rs db = (db', TOk tt) -> same_rest db db'.
Proof.
  intros Hw. eapply (write_records_ind fresh now (same_rest db)); [|done|done].
  intros r d d' _ HP Hr. apply write_record_ok in Hr as (_ & _ & _ & _ & _ & Hs & _).
  by etransitivity.
Qed.

(** *** Finished work *)

(** The stored state of a work item, as every reader decodes it. *)
Definition stored_work_state (body : Json) : tres NodeWorkState :=
  value_ work_state_of_json body "state" WQueued.

Lemma work_of_json_state fresh now j w :
  work_of_json fresh now j = TOk w -> stored_work_state j = TOk (w_state w).
Proof.
  unfold work_of_json, stored_work_state. intros Hw.
  do 17 (apply tres_bind_ok in Hw as (? & _ & Hw)).
  apply tres_bind_ok in Hw as (st & Hst & Hw). rewrite Hst.
  do 4 (apply tres_bind_ok in Hw as (? & _ & Hw)). by injection Hw as <-.
Qed.

Definition finished_row (db : DB) (id : string) (row : Row) : Prop :=
  tables db !! (KNodeWork, id) = Some row /\
  exists st, stored_work_state (row_body row) = TOk st /\ work_terminal st = true.

Lemma check_node_work_existing fresh now id v db row b :
  tables db !! (KNodeWork, id) = Some row -> check_node_work fresh now id v db = (db, TOk b) ->
  exists old new, work_of_json fresh now (row_body row) = TOk old
    /\ work_of_json fresh now v = TOk new
    /\ (if work_terminal (w_state old) then b = true /\ equivalent_terminal_node_work old new = true
        else b = false /\ valid_node_work_transition (w_state old) (w_state new) = true).
Proof.
  intros Hrow Hc. unfold check_node_work in Hc.
  apply t_bind_ok in Hc as (d1 & o & H1 & Hc). injection H1 as <- <-. rewrite Hrow in Hc.
  apply t_bind_ok in Hc as (d2 & old & H2 & Hc). injection H2 as <- H2.
  apply t_bind_ok in Hc as (d3 & new & H3 & Hc). injection H3 as <- H3.
  exists old, new. split; [done|]. split; [done|]. destruct (work_terminal (w_state old)).
  - destruct (equivalent_terminal_node_work old new); [|done]. by injection Hc as <-.
  - apply t_bind_ok in Hc as (d4 & [] & H4 & Hc). apply t_guard_ok in H4 as [H4 _].
    apply negb_false_iff in H4. by injection Hc as <-.
Qed.

Lemma write_record_keeps_finished fresh now r db db' id row :
  finished_row db id row -> write_record fresh now r db = (db', TOk tt) -> finished_row db' id row.
Proof.
  intros [Hrow Hfin] Hw. split; [|done].
  apply write_record_ok in Hw as (_ & _ & _ & _ & _ & _ & [(_ & -> & _)|(Hchk & seq & Ht & _)]); [done|].
  rewrite Ht. destruct (decide ((rc_kind r, rc_id r) = (KNodeWork, id))) as [[= Hk Hid]|Hne].
  - exfalso. specialize (Hchk Hk). rewrite Hid in Hchk.
    destruct (check_node_work_existing _ _ _ _ _ _ _ Hrow Hchk) as (old & new & Hold & _ & Hb).
    apply work_of_json_state in Hold. destruct Hfin as (st & Hst & Hterm). rewrite Hold in Hst.
    injection Hst as Hst. rewrite Hst, Hterm in Hb. by destruct Hb.
  - by rewrite lookup_insert_ne.
Qed.

(** *** Claims only insert *)

Definition grows (db db' : DB) : Prop :=
  forall key row, tables db !! key = Some row -> tables db' !! key = Some row.
#[global] Instance grows_preorder : PreOrder grows.
Proof. split; [by intros db key row|]. intros a b c Hab Hbc key row Hr. by apply Hbc, Hab. Qed.

Lemma insert_row_ok k id run_id body seq db db' u :
  insert_row k id run_id body seq db = (db', TOk u) ->
  tables db !! (k, id) = None /\ exists n, tables db' = <[(k, id) := mkRow run_id body n]> (tables db).
Proof.
  unfold insert_row. intros Hi. apply t_bind_ok in Hi as (d1 & n & H1 & Hi).
  assert (tables d1 = tables db) as Hd1.
  { destruct seq; [by injection H1 as <- _|]. unfold next_identity in H1. by injection H1 as <- _. }
  apply t_bind_ok in Hi as (d2 & d3 & H2 & Hi). unfold t_get in H2. injection H2 as <- <-.
  rewrite Hd1 in Hi. destruct (tables db !! (k, id)) eqn:E; [done|].
  unfold t_put in Hi. injection Hi as <-. split; [done|]. exists n. simpl. by rewrite ?Hd1.
Qed.

Lemma insert_related_ok r db db' u :
  insert_related r db = (db', TOk u) ->
  grows db db' /\ exists n, tables db' !! (rc_kind r, rc_id r) = Some (mkRow (rc_run_id r) (rc_value r) n).
Proof.
  unfold insert_related. intros Hi. apply t_bind_ok in Hi as (d1 & [] & H1 & Hi).
  apply t_guard_ok in H1 as [_ ->]. apply t_bind_ok in Hi as (d2 & [] & H2 & Hi).
  apply pure_serialize in H2 as ->. apply insert_row_ok in Hi as (Hn & n & Ht). split.
  - intros key row Hk. rewrite Ht, lookup_insert_ne; [done|]. intros <-. congruence.
  - exists n. by rewrite Ht, lookup_insert_eq.
Qed.

Lemma insert_all_ok rs : forall db db' u,
  t_iter insert_related rs db = (db', TOk u) ->
  grows db db' /\ Forall (fun r => exists n,
    tables db' !! (rc_kind r, rc_id r) = Some (mkRow (rc_run_id r) (rc_value r) n)) rs.
Proof.
  induction rs as [|r rs IH]; intros db db' u Hi; simpl in Hi.
  { injection Hi as <- _. split; [done|constructor]. }
  apply t_bind_ok in Hi as (d1 & [] & H1 & Hi). apply insert_related_ok in H1 as [Hg (n & Hn)].
  apply IH in Hi as [Hg' Hall]. split; [by etransitivity|]. constructor; [|done].
  exists n. by apply Hg'.
Qed.

Lemma insert_if_absent_spec k id run_id body db :
  insert_if_absent k id run_id body db =
  (let n := default 0 (identity db !! k) + 1 in
   let db1 := db <| identity := <[k := n]> (identity db) |> in
   match tables db !! (k, id) with
   | Some _ => (db1, TOk false)
   | None => (db1 <| tables := <[(k, id) := mkRow run_id body n]> (tables db) |>, TOk true)
   end).
Proof.
  unfold insert_if_absent, next_identity, mbind, t_bind, t_get. cbn [tables identity].
  change (tables (db <| identity := <[k := default 0 (identity db !! k) + 1]> (identity db) |>))
    with (tables db). by destruct (tables db !! (k, id)).
Qed.

Lemma claim_ok r assoc db db' b :
  claim r assoc db = (db', Ok b) ->
  grows db db' /\
  if b then
    tables db !! (rc_kind r, rc_id r) = None /\
    Forall (fun x => exists n,
      tables db' !! (rc_kind x, rc_id x) = Some (mkRow (rc_run_id x) (rc_value x) n)) (r :: assoc)
  else is_Some (tables db !! (rc_kind r, rc_id r)) /\ tables db' = tables db.
Proof.
  unfold claim. intros Hc. apply m_bind_ok in Hc as (d1 & [] & H1 & Hc). apply m_guard_ok in H1 as [_ ->].
  apply m_bind_ok in Hc as (d2 & [] & H2 & Hc). apply m_guard_ok in H2 as [_ ->].
  apply transaction_ok in Hc. apply t_bind_ok in Hc as (d3 & [] & H3 & Hc).
  apply pure_serialize in H3 as ->. apply t_bind_ok in Hc as (d4 & ins & H4 & Hc).
  apply t_bind_ok in Hc as (d5 & [] & H5 & Hc). injection Hc as <- <-.
  rewrite insert_if_absent_spec in H4. cbv zeta in H4.
  destruct (tables db !! (rc_kind r, rc_id r)) as [row|] eqn:E.
  - injection H4 as <- <-. cbv [mret t_ret] in H5. injection H5 as <-. split; [by intros ? ?|]. simpl. eauto.
  - injection H4 as <- <-. apply insert_all_ok in H5 as [Hg Hall].
    assert (Hg0 : forall key row, tables db !! key = Some row -> tables d5 !! key = Some row).
    { intros key row Hk. apply Hg. simpl. rewrite lookup_insert_ne; [done|]. intros <-. congruence. }
    split; [done|]. split; [done|]. constructor; [|done]. eexists. apply Hg. simpl.
    by rewrite lookup_insert_eq.
Qed.

Lemma m_guard_run {S} c code msg (s s' : S) r :
  m_guard c code msg s = (s', r) -> s' = s.
Proof. unfold m_guard. destruct c; by intros [= -> _]. Qed.

(** *** Sequences of operations *)

(** An operation of the store or of the coordination backend, by any instance, that no other one overlaps;
    [Isolation] has transactions that overlap, and the completion of a session turn. *)
Inductive store_step (db : DB) : DB -> Prop :=
  | ss_commit f n rs db' x : commit f n rs db = (db', x) -> store_step db db'
  | ss_owned f n c rs res o t db' x : commit_owned f n c rs res o t db = (db', x) -> store_step db db'
  | ss_cancel n id db' x : request_cancellation n id db = (db', x) -> store_step db db'
  | ss_claim r assoc db' x : claim r assoc db = (db', x) -> store_step db db'
  | ss_audit c e db' x : append_operator_audit_event c e db = (db', x) -> store_step db db'
  | ss_other db' : tables db' = tables db -> store_step db db'.

(** A property of rows that every record write keeps, for kinds other than runs, is kept by
    every operation. *)
Lemma store_step_keeps (P : gmap (RecordKind * string) Row -> Prop) db db' :
  (forall f n r d d', P (tables d) -> write_record f n r d = (d', TOk tt) -> P (tables d')) ->
  (forall d d', grows d d' -> P (tables d) -> P (tables d')) ->
  (forall d id v, P (tables d) -> P (alter (fun r => r <| row_body := v |>) (KRun, id) (tables d))) ->
  store_step db db' -> P (tables db) -> P (tables db').
Proof.
  intros Hw Hg Hr Hs HP.
  assert (Htx : forall {A} failed (body : T A) d d' x, P (tables d) ->
    (forall d2 a, body d = (d2, TOk a) -> P (tables d2)) ->
    store_tx failed body d = (d', x) -> P (tables d')).
  { intros A failed body d d' x HPd Hb Hx. unfold store_tx, transaction in Hx.
    destruct (body d) as [d2 [a|e]] eqn:E; injection Hx as <- _; [by eapply Hb|done]. }
  assert (Hrs : forall f n rs d d', P (tables d) -> write_records f n rs d = (d', TOk tt) -> P (tables d')).
  { intros f n rs d d' HPd Hx. eapply (write_records_ind f n (fun d => P (tables d))); [|done|done].
    intros r0 d0 d1 _. apply Hw. }
  destruct Hs as [f n rs db' x Hs|f n c rs res o t db' x Hs|n id db' x Hs|r assoc db' x Hs|c e db' x Hs|db' Ht].
  - eapply Htx; [done| |done]. intros d2 [] Hb. by eapply Hrs.
  - unfold commit_owned, m_bind in Hs. destruct (m_guard _ _ _ db) as [d1 [u|e]] eqn:E;
      apply m_guard_run in E as ->; [|by injection Hs as <- _].
    eapply Htx; [done| |done]. intros d2 [] Hb. apply t_bind_ok in Hb as (d3 & [] & H3 & Hb).
    apply bigint_parameter_ok in H3 as ->. apply t_bind_ok in Hb as (d4 & d5 & H4 & Hb).
    injection H4 as <- <-. apply t_bind_ok in Hb as (d6 & [] & H6 & Hb). apply t_guard_ok in H6 as [_ ->].
    by eapply Hrs.
  - unfold request_cancellation, m_bind in Hs. destruct (m_guard _ _ _ db) as [d1 [u|e]] eqn:E;
      apply m_guard_run in E as ->; [|by injection Hs as <- _].
    eapply Htx; [done| |done]. intros d2 [] Hb. apply t_bind_ok in Hb as (d3 & o & H3 & Hb).
    injection H3 as <- <-. destruct (tables db !! (KRun, id)) as [row|]; [|done].
    apply t_bind_ok in Hb as (d4 & run & H4 & Hb). injection H4 as <- _.
    destruct (terminal (state run)); [by injection Hb as <-|].
    apply t_bind_ok in Hb as (d5 & [] & H5 & Hb). apply pure_serialize in H5 as ->.
    unfold update_body, t_modify in Hb. injection Hb as <-. simpl. by apply Hr.
  - destruct x as [b|e].
    + apply claim_ok in Hs as [Hgr _]. by eapply Hg.
    + unfold claim, m_bind in Hs. destruct (m_guard _ _ _ db) as [d1 [u|e1]] eqn:E;
        apply m_guard_run in E as ->; [|by injection Hs as <- _].
      destruct (m_guard _ _ _ db) as [d1 [u2|e2]] eqn:E; apply m_guard_run in E as ->;
        [|by injection Hs as <- _].
      apply transaction_throw in Hs as [-> _]. done.
  - unfold append_operator_audit_event, m_bind in Hs. destruct (m_guard _ _ _ db) as [d1 [u|e1]] eqn:E;
      apply m_guard_run in E as ->; [|by injection Hs as <- _].
    eapply Htx; [done| |done]. intros d2 row Hb. apply t_bind_ok in Hb as (d3 & d4 & H3 & Hb).
    injection H3 as <- <-. apply t_bind_ok in Hb as (d5 & [] & H5 & Hb). injection H5 as <-.
    destruct (existsb _ _); [done|]. apply t_bind_ok in Hb as (d6 & [] & H6 & Hb). injection H6 as <-.
    injection Hb as <- _. done.
  - by rewrite Ht.
Qed.
End StoreProofs.

(** *** The audit journal *)

Definition newer (a b : AuditRow) : Prop := au_sequence b < au_sequence a.
(** The journal is kept newest first, with sequence numbers the identity has handed out. *)
Definition audit_ok (db : DB) : Prop :=
  StronglySorted newer (audit db) /\
  Forall (fun a => 1 <= au_sequence a <= audit_identity db) (audit db).

Lemma newer_nodup l : StronglySorted newer l -> NoDup l.
Proof.
  induction 1 as [|a l Hs IH Ha]; constructor; [|done].
  intros Hin. rewrite Forall_forall in Ha. specialize (Ha a Hin). unfold newer in Ha. lia.
Qed.

Lemma sort_newer l : StronglySorted newer l -> merge_sort audit_le l = l.
Proof.
  intros Hs.
  assert (Total audit_le) by (intros a b; unfold audit_le; lia).
  assert (Transitive audit_le) by (intros a b c; unfold audit_le; lia).
  apply (StronglySorted_unique_strong audit_le).
  - intros x1 x2 H1 H2 H12 H21. rewrite merge_sort_Permutation in H1.
    assert (Heq : au_sequence x1 = au_sequence x2) by (unfold audit_le in *; lia).
    clear -Hs H1 H2 Heq. induction Hs as [|a l Hs IH Ha]; [set_solver|].
    rewrite Forall_forall in Ha. apply elem_of_cons in H1 as [->|H1], H2 as [->|H2]; [done| | |by apply IH].
    + specialize (Ha _ H2). unfold newer in Ha. lia.
    + specialize (Ha _ H1). unfold newer in Ha. lia.
  - apply Sorted_StronglySorted; [done|]. apply Sorted_merge_sort. done.
  - clear -Hs. induction Hs as [|a l Hs IH Ha]; constructor; [done|].
    eapply Forall_impl; [done|]. unfold newer, audit_le. intros; lia.
  - apply merge_sort_Permutation.
Qed.

(** What lies below the cursor of a row is the rest of the journal. *)
Lemma filter_all {A} (P : A -> Prop) `{forall x, Decision (P x)} l : Forall P l -> filter P l = l.
Proof. induction 1 as [|x l Hx Hl IH]; [done|]. rewrite filter_cons, decide_True by done. by f_equal. Qed.
Lemma audit_below_after pre x rest :
  StronglySorted newer (pre ++ x :: rest) -> audit_below (Some (au_sequence x)) (pre ++ x :: rest) = rest.
Proof.
  intros Hs. unfold audit_below. rewrite filter_app, filter_none.
  - simpl. rewrite filter_cons, decide_False by (simpl; lia).
    assert (Hr : StronglySorted newer (x :: rest)) by (clear -Hs; induction pre; inversion Hs; auto).
    inversion Hr as [|? ? Hs' Hx]; subst. rewrite filter_all; [by apply sort_newer|].
    eapply Forall_impl; [done|]. intros y Hy. unfold newer in Hy. simpl. lia.
  - apply Forall_forall. intros y Hy. simpl.
    assert (newer y x); [|unfold newer in *; lia]. clear -Hs Hy.
    induction pre as [|z pre IH]; [set_solver|]. simpl in Hs. inversion Hs as [|? ? Hs' Hz]; subst.
    apply elem_of_cons in Hy as [->|Hy]; [|by apply IH]. rewrite Forall_forall in Hz.
    apply Hz. set_solver.
Qed.

Lemma append_audit_ok clock e db db' row :
  audit_ok db -> 0 <= audit_identity db -> append_operator_audit_event clock e db = (db', Ok row) ->
  audit_ok db' /\ audit db' = row :: audit db /\ audit_identity db' = audit_identity db + 1.
Proof.
  intros [Hs Hb] Hpos Ha. unfold append_operator_audit_event in Ha.
  apply m_bind_ok in Ha as (d1 & [] & H1 & Ha). apply m_guard_ok in H1 as [_ ->].
  apply transaction_ok in Ha. apply t_bind_ok in Ha as (d2 & d3 & H2 & Ha). injection H2 as <- <-.
  apply t_bind_ok in Ha as (d4 & [] & H4 & Ha). injection H4 as <-.
  destruct (existsb _ _); [done|]. apply t_bind_ok in Ha as (d5 & [] & H5 & Ha). injection H5 as <-.
  injection Ha as <- <-. unfold audit_ok. simpl. split; [|done]. split.
  - constructor; [done|]. eapply Forall_impl; [done|]. unfold newer. simpl. intros; lia.
  - constructor; [simpl; lia|]. eapply Forall_impl; [done|]. simpl. intros; lia.
Qed.

(** Reading the journal page by page, following the cursor. *)
Fixpoint read_pages (fuel : nat) (limit : Z) (before : option Z) (db : DB) : list AuditRow :=
  match fuel with
  | O => []
  | S fuel =>
      match operator_audit_page limit before db with
      | (_, Ok page) =>
          page_events page ++
          match next_before page with
          | Some b => read_pages fuel limit (Some b) db
          | None => []
          end
      | (_, Throw _) => []
      end
  end.

Lemma audit_page_ok limit before db :
  1 <= limit <= 100 -> (forall b, before = Some b -> 1 <= b <= i64_max) ->
  let l := audit_below before (audit db) in
  let events := take (Z.to_nat limit) l in
  let more := limit <? Z.of_nat (length l) in
  operator_audit_page limit before db =
    (db, Ok (mkPage events (if more then au_sequence <$> last events else None) more)).
Proof.
  intros Hl Hb l events more. unfold operator_audit_page, m_guard, m_bind.
  destruct (Z.eqb_spec limit 0); [lia|]. destruct (Z.ltb_spec 100 limit); [lia|]. simpl.
  assert (Hc : match before with Some b => (b =? 0) || (i64_max <? b) | None => false end = false).
  { destruct before as [b|]; [|done]. specialize (Hb b eq_refl). lia. }
  rewrite Hc. unfold m_ret, store_tx, transaction, mbind, t_bind, t_get, mret, t_ret.
  cbv beta iota zeta. fold l. rewrite take_take. replace (Z.to_nat limit `min` Z.to_nat (limit + 1))%nat with (Z.to_nat limit) by lia.
  fold events. rewrite length_take.
  assert (Hm : (limit <? Z.of_nat (Z.to_nat (limit + 1) `min` length l)) = more).
  { unfold more. destruct (Z.ltb_spec limit (Z.of_nat (length l))), (Z.ltb_spec limit (Z.of_nat (Z.to_nat (limit + 1) `min` length l)));
      lia || done. }
  by rewrite Hm.
Qed.

Lemma read_pages_rest limit db fuel : audit_ok db -> audit_identity db <= i64_max -> 1 <= limit <= 100 ->
  forall pre rest before, audit db = pre ++ rest -> audit_below before (audit db) = rest ->
  (forall b, before = Some b -> 1 <= b <= i64_max) -> (length rest < fuel)%nat ->
  read_pages fuel limit before db = rest.
Proof.
  intros [Hs Hb] Hi Hl. induction fuel as [|fuel IH]; intros pre rest before Hd Hbel Hbr Hf; [lia|].
  cbn [read_pages]. rewrite (audit_page_ok limit before db Hl Hbr). rewrite Hbel. cbn [page_events next_before].
  destruct (Z.ltb_spec limit (Z.of_nat (length rest))) as [Hlt|Hge].
  - assert (Ht : exists ev x, take (Z.to_nat limit) rest = ev ++ [x]).
    { destruct (take (Z.to_nat limit) rest) as [|y ys] eqn:E.
      - apply (f_equal length) in E. rewrite length_take in E. simpl in E. lia.
      - destruct (exists_last (l := y :: ys)) as (ev & x & Hx); [done|]. by exists ev, x. }
    destruct Ht as (ev & x & Ht). rewrite Ht, last_snoc. cbn [fmap option_fmap option_map].
    assert (Hrest : rest = ev ++ x :: drop (Z.to_nat limit) rest).
    { rewrite <- (take_drop (Z.to_nat limit) rest) at 1. rewrite Ht, <- app_assoc. done. }
    assert (Hall : audit db = (pre ++ ev) ++ x :: drop (Z.to_nat limit) rest).
    { rewrite Hd, Hrest at 1. by rewrite <- app_assoc. }
    rewrite (IH (pre ++ ev ++ [x]) (drop (Z.to_nat limit) rest)).
    + rewrite <- Ht. apply take_drop.
    + rewrite Hall. by rewrite <- !app_assoc.
    + rewrite Hall. apply audit_below_after. by rewrite <- Hall.
    + intros b [= <-]. rewrite Forall_forall in Hb. assert (Hx : x ∈ audit db) by (rewrite Hall; set_solver).
      specialize (Hb x Hx). lia.
    + rewrite length_drop. lia.
  - rewrite app_nil_r. apply take_ge. lia.
Qed.

(** *** Consequences for rows *)

Section RowProofs.
Context `{L : JsonLib}.

Lemma write_record_pipeline f n r d d' id row :
  tables d !! (KPipeline, id) = Some row -> write_record f n r d = (d', TOk tt) ->
  exists row', tables d' !! (KPipeline, id) = Some row' /\ dump (row_body row') = dump (row_body row).
Proof.
  intros Hrow Hw.
  apply write_record_ok in Hw as (_ & _ & _ & Hp & _ & _ & [(_ & -> & _)|(_ & seq & Ht & _)]); [eauto|].
  rewrite Ht. destruct (decide ((rc_kind r, rc_id r) = (KPipeline, id))) as [[= Hk Hid]|Hne].
  - rewrite Hk, Hid, lookup_insert_eq. eexists. split; [done|]. simpl. specialize (Hp Hk).
    unfold check_pipeline in Hp. apply t_bind_ok in Hp as (d1 & o & H1 & Hp). injection H1 as <- <-.
    rewrite Hid, Hrow in Hp. apply t_guard_ok in Hp as [Hp _].
    apply negb_false_iff, bool_decide_eq_true in Hp. done.
  - rewrite lookup_insert_ne by done. eauto.
Qed.

(** The stored state of a worker job. *)
Definition stored_job_state (db : DB) (id : string) (st : WorkerJobState) : Prop :=
  exists row job, tables db !! (KWorkerJob, id) = Some row
    /\ worker_job_of_json (row_body row) = TOk job /\ wj_state job = st.

Lemma write_record_job f n r d d' id st :
  stored_job_state d id st -> write_record f n r d = (d', TOk tt) ->
  exists st', stored_job_state d' id st' /\ (st' = st \/ valid_worker_job_transition st st' = true).
Proof.
  intros (row & job & Hrow & Hjob & Hst) Hw.
  apply write_record_ok in Hw as (_ & _ & _ & _ & Hp & _ & [(_ & -> & _)|(_ & seq & Ht & _)]).
  { exists st. split; [by exists row, job|by left]. }
  destruct (decide ((rc_kind r, rc_id r) = (KWorkerJob, id))) as [[= Hk Hid]|Hne].
  - specialize (Hp Hk). unfold check_worker_job in Hp. apply t_bind_ok in Hp as (d1 & o & H1 & Hp).
    injection H1 as <- <-. rewrite Hid, Hrow in Hp.
    apply t_bind_ok in Hp as (d2 & old & H2 & Hp). injection H2 as <- H2.
    apply t_bind_ok in Hp as (d3 & new & H3 & Hp). injection H3 as <- H3.
    apply t_guard_ok in Hp as [Hp _]. rewrite Hjob in H2. injection H2 as <-.
    exists (wj_state new). split.
    + exists (mkRow (rc_run_id r) (rc_value r) seq), new. by rewrite Ht, Hk, Hid, lookup_insert_eq.
    + apply andb_false_iff in Hp as [Hp|Hp]; apply negb_false_iff in Hp.
      * left. apply bool_decide_eq_true in Hp. congruence.
      * right. congruence.
  - exists st. split; [|by left]. exists row, job. by rewrite Ht, lookup_insert_ne.
Qed.

Lemma finished_step db db' id row :
  store_step db db' -> finished_row db id row -> finished_row db' id row.
Proof.
  intros Hs [Hrow Hfin]. split; [|done]. revert Hs Hrow.
  apply (store_step_keeps (fun t => t !! (KNodeWork, id) = Some row)).
  - intros f n r d d' Hd Hw.
    by destruct (write_record_keeps_finished f n r d d' id row (conj Hd Hfin) Hw).
  - intros d d' Hg Hd. by apply Hg.
  - intros d i v Hd. by rewrite lookup_alter_ne.
Qed.

Lemma pipeline_step db db' id row :
  store_step db db' -> tables db !! (KPipeline, id) = Some row ->
  exists row', tables db' !! (KPipeline, id) = Some row' /\ dump (row_body row') = dump (row_body row).
Proof.
  intros Hs Hrow.
  apply (store_step_keeps (fun t => exists row', t !! (KPipeline, id) = Some row'
    /\ dump (row_body row') = dump (row_body row)) db db'); [| | |done|eauto].
  - intros f n r d d' (row1 & H1 & H2) Hw.
    destruct (write_record_pipeline f n r d d' id row1 H1 Hw) as (row2 & H3 & H4).
    exists row2. split; [done|congruence].
  - intros d d' Hg (row1 & H1 & H2). eauto.
  - intros d i v (row1 & H1 & H2). exists row1. by rewrite lookup_alter_ne.
Qed.

Lemma job_terminal_step db db' id st :
  store_step db db' -> worker_job_terminal st = true -> stored_job_state db id st ->
  stored_job_state db' id st.
Proof.
  intros Hs Hterm Hj. unfold stored_job_state in *.
  apply (store_step_keeps (fun t => exists row job, t !! (KWorkerJob, id) = Some row
    /\ worker_job_of_json (row_body row) = TOk job /\ wj_state job = st) db db'); [| | |done|done].
  - intros f n r d d' Hd Hw.
    destruct (write_record_job f n r d d' id st Hd Hw) as (st' & Hst' & [->|Hv]); [done|].
    unfold valid_worker_job_transition in Hv. by rewrite Hterm in Hv.
  - intros d d' Hg (row & job & Hr & H2). exists row, job. split; [by apply Hg|done].
  - intros d i v (row & job & Hr & H2). exists row, job. by rewrite lookup_alter_ne.
Qed.
End RowProofs.

(** ** Properties *)

(** A stored pipeline revision keeps its text, and a worker job that has reached a terminal
    state stays in that state, whatever store operations follow one after the other. *)
Theorem stored_revisions_final `{L : JsonLib} db db' id :
  rtc store_step db db' ->
  (forall row, tables db !! (KPipeline, id) = Some row ->
     exists row', tables db' !! (KPipeline, id) = Some row' /\ dump (row_body row') = dump (row_body row))
  /\ (forall st, worker_job_terminal st = true -> stored_job_state db id st -> stored_job_state db' id st).
Proof.
  induction 1 as [|a b c Hab _ [IH1 IH2]]; [split; eauto|]. split.
  - intros row Hr. destruct (pipeline_step _ _ _ _ Hab Hr) as (r1 & H1 & H2).
    destruct (IH1 _ H1) as (r2 & H3 & H4). exists r2. split; [done|congruence].
  - intros st Hst Hj. apply IH2; [done|]. by eapply job_terminal_step.
Qed.

Lemma stored_revisions_final_witness :
  let db := empty_db in
  let db' := (@commit strict_json "f" "n" [mkRecord KPipeline "p@1" "" (JString "text")] empty_db).1 in
  (forall row, tables db !! (KPipeline, "x"%string) = Some row ->
     exists row', tables db' !! (KPipeline, "x"%string) = Some row'
       /\ @dump strict_json (row_body row') = @dump strict_json (row_body row))
  /\ (forall st, worker_job_terminal st = true -> @stored_job_state strict_json db "x" st ->
        @stored_job_state strict_json db' "x" st).
Proof.
  apply (@stored_revisions_final strict_json empty_db).
  eapply rtc_once, (@ss_commit strict_json _ "f" "n" [mkRecord KPipeline "p@1" "" (JString "text")]).
  apply surjective_pairing.
Defined.

(** C32: Owned writes are fenced.  A commit that presents a token older than the current one of
    the resource throws, whatever the records and the time, and leaves every table as it was: a
    checkpoint of an instance that lost its lease never reaches the store. *)
Theorem stale_commit_rejected `{L : JsonLib} fresh now clock rs resource owner tok db db' x :
  tok < token_of db resource ->
  commit_owned fresh now clock rs resource owner tok db = (db', x) ->
  tables db' = tables db /\ exists e, x = Throw e
    /\ (code e = Conflict \/ code e = Validation \/ code e = StorageError).
Proof.
  intros Hst Hc. unfold commit_owned, m_bind in Hc. destruct (m_guard _ _ _ db) as [d [u|e]] eqn:E.
  - apply m_guard_run in E as ->. unfold store_tx, transaction, bigint_parameter in Hc.
    destruct (i64_max <? tok).
    + cbn in Hc. injection Hc as <- <-. split; [done|]. eexists. split; [done|]. by right; right.
    + unfold mbind, t_bind, t_get, mret, t_ret in Hc. cbv beta iota in Hc.
      rewrite (stale_not_current _ _ _ _ _ Hst) in Hc. cbn in Hc. injection Hc as <- <-.
      split; [done|]. eexists. split; [done|]. by left.
  - unfold m_guard in E. destruct (_ || _) in E; [|done]. injection E as <- <-. injection Hc as <- <-.
    split; [done|]. eexists. split; [done|]. by right; left.
Qed.

Lemma stale_commit_rejected_witness :
  let r := @commit_owned strict_json "f" "n" 5500 [mkRecord KRun "r1" "r1" JNull] "run:1" "a" 1 sample_taken in
  tables r.1 = tables sample_taken /\ exists e, r.2 = Throw e
    /\ (code e = Conflict \/ code e = Validation \/ code e = StorageError).
Proof.
  apply (@stale_commit_rejected strict_json "f" "n" 5500 [mkRecord KRun "r1" "r1" JNull] "run:1" "a" 1 sample_taken).
  - vm_compute. reflexivity.
  - apply surjective_pairing.
Defined.

(** C31: A durable claim is won exactly once.  [claim] returns true exactly when no row had the
    identifier; it then has stored the claim together with all its associated records.  When it
    returns false no table has changed, and in no case is an existing row overwritten. *)
Theorem claim_exactly_once `{L : JsonLib} r assoc db db' b :
  claim r assoc db = (db', Ok b) ->
  grows db db' /\
  if b then
    tables db !! (rc_kind r, rc_id r) = None /\
    Forall (fun x => exists n,
      tables db' !! (rc_kind x, rc_id x) = Some (mkRow (rc_run_id x) (rc_value x) n)) (r :: assoc)
  else is_Some (tables db !! (rc_kind r, rc_id r)) /\ tables db' = tables db.
Proof. apply claim_ok. Qed.

Definition sample_claim : StoreRecord := mkRecord KScheduleOccurrence "s:1" "s" (JString "due").
Definition sample_claimed : DB := (@claim strict_json sample_claim [mkRecord KRun "r9" "r9" JNull] empty_db).1.

Lemma claim_exactly_once_witness :
  grows empty_db sample_claimed /\
  (tables empty_db !! (rc_kind sample_claim, rc_id sample_claim) = None /\
   Forall (fun x => exists n,
     tables sample_claimed !! (rc_kind x, rc_id x) = Some (mkRow (rc_run_id x) (rc_value x) n))
     [sample_claim; mkRecord KRun "r9" "r9" JNull]).
Proof.
  apply (@claim_exactly_once strict_json sample_claim [mkRecord KRun "r9" "r9" JNull] empty_db sample_claimed true).
  vm_compute. reflexivity.
Defined.

(** Paging through the operator audit journal is complete: following the cursor from the
    newest page, with any page size the API admits, returns every event exactly once, newest
    first; the reader needs at most one page more than there are events. *)
Theorem audit_pages_complete limit db fuel :
  audit_ok db -> audit_identity db <= i64_max -> 1 <= limit <= 100 ->
  (length (audit db) < fuel)%nat -> read_pages fuel limit None db = audit db.
Proof.
  intros Hok Hi Hl Hf. apply (read_pages_rest limit db fuel Hok Hi Hl [] (audit db) None); try done.
  unfold audit_below. rewrite filter_all by (by apply Forall_true). apply sort_newer, Hok.
Qed.

Definition sample_event (s : Z) : AuditRow := mkAudit s "e" "o" "a" "admin" "x" "run" "" "failed" 0 0.
Definition sample_journal : DB :=
  (empty_db <| audit := [sample_event 5; sample_event 3; sample_event 2] |>) <| audit_identity := 5 |>.

Lemma audit_pages_complete_witness : read_pages 4 2 None sample_journal = audit sample_journal.
Proof.
  apply (audit_pages_complete 2 sample_journal 4); [|vm_compute; discriminate|lia|simpl; lia].
  split; repeat constructor; unfold newer; simpl; lia.
Defined.
