(* ===== verification/Rows.v ===== *)
(** * Writes of rows

    Which rows of one table the transactions of the store change, and to what: an operation that
    does not write records of the kind leaves the table alone, and a commit writes the records it is
    given. *)

From S2P Require Import Prelude Json Types Text Db Coordination Codec Worker Store.

(** Statements that only read. *)
Ltac pure_read :=
  repeat first [ apply pure_ret | apply pure_throw | apply pure_guard | apply pure_lift
    | apply pure_select | apply pure_bind; [|intros ?] | case_match | by intros ? ? ? [= -> _] ].

Section Rows.
Context (K : RecordKind).

Definition kind_row (db : DB) (i : string) : option Row := tables db !! (K, i).

(** The rows of the kind that differ were written with an allowed document. *)
Definition row_steps (A : string -> Json -> Prop) (db db' : DB) : Prop :=
  forall i, kind_row db' i = kind_row db i \/
    exists rid body seq, kind_row db' i = Some (mkRow rid body seq) /\ A i body.
#[export] Instance row_steps_preorder A : PreOrder (row_steps A).
Proof.
  split; [by left|]. intros a b c Hab Hbc i. destruct (Hbc i) as [->|H]; [apply Hab|by right].
Qed.
Lemma row_steps_same A db db' : (forall i, kind_row db' i = kind_row db i) -> row_steps A db db'.
Proof. intros Heq i. by left. Qed.
Lemma row_steps_tables A db db' : tables db' = tables db -> row_steps A db db'.
Proof. intros Ht. apply row_steps_same. intros i. unfold kind_row. by rewrite Ht. Qed.

(** *** In transactions *)
Section InTransactions.
Context `{L : JsonLib} (A : string -> Json -> Prop).

Definition TRows {X} (m : T X) : Prop := forall db, row_steps A db (m db).1.
Lemma trows_bind {X Y} (m : T X) (f : X -> T Y) : TRows m -> (forall x, TRows (f x)) -> TRows (m ≫= f).
Proof.
  intros Hm Hf db. unfold mbind, t_bind. specialize (Hm db). destruct (m db) as [db1 [x|e]]; [|exact Hm].
  etransitivity; [exact Hm|apply Hf].
Qed.
Lemma trows_bind_lift {X Y} (r : tres X) (f : X -> T Y) :
  (forall x, r = TOk x -> TRows (f x)) -> TRows (t_lift r ≫= f).
Proof. intros Hf db. unfold mbind, t_bind, t_lift. destruct r as [x|e]; simpl; [by apply Hf|reflexivity]. Qed.
Lemma trows_pure {X} (m : T X) : pure_t m -> TRows m.
Proof. intros Hp db. destruct (m db) as [db' r] eqn:E. simpl. by rewrite (Hp _ _ _ E). Qed.
Lemma trows_update k i body : k <> K -> TRows (update_body k i body).
Proof.
  intros Hk db. apply row_steps_same. intros j. unfold kind_row. simpl.
  rewrite lookup_alter_ne; [done|]. by intros [= ->].
Qed.
Lemma trows_insert_new k i run_id body seq : (k = K -> A i body) -> TRows (insert_row k i run_id body seq).
Proof.
  intros HA db j. destruct (insert_row k i run_id body seq db) as [db' [u|x]] eqn:Hi.
  - apply insert_row_ok in Hi as (_ & n & Ht). unfold kind_row. simpl. rewrite Ht.
    destruct (decide ((k, i) = (K, j))) as [[= -> ->]|Hne]; [|left; by rewrite lookup_insert_ne].
    right. rewrite lookup_insert_eq. eexists _, _, _. split; [done|]. by apply HA.
  - left. unfold insert_row, next_identity, mbind, t_bind, t_get in Hi. destruct seq; simpl in Hi;
      case_match; unfold t_throw, t_put in Hi; by simplify_eq.
Qed.
Lemma trows_insert k i run_id body seq : k <> K -> TRows (insert_row k i run_id body seq).
Proof. intros Hk. by apply trows_insert_new. Qed.
Lemma trows_upsert k i run_id body : (k = K -> A i body) -> TRows (upsert k i run_id body).
Proof.
  intros HA db j. rewrite upsert_spec. unfold kind_row. simpl.
  destruct (decide ((k, i) = (K, j))) as [[= -> ->]|Hne].
  - right. rewrite lookup_insert_eq. eexists _, _, _. split; [done|]. by apply HA.
  - left. by rewrite lookup_insert_ne.
Qed.
Lemma trows_iter {X} (f : X -> T unit) l : (forall x, x ∈ l -> TRows (f x)) -> TRows (t_iter f l).
Proof.
  intros Hf. induction l as [|x l IH]; simpl; [apply trows_pure, pure_ret|].
  apply trows_bind; [apply Hf; by left|]. intros _. apply IH. intros y Hy. apply Hf. by right.
Qed.
Lemma trows_write f n r : (rc_kind r = K -> A (rc_id r) (rc_value r)) -> TRows (write_record f n r).
Proof.
  intros HA. unfold write_record. do 3 (apply trows_bind; [apply trows_pure; first [apply pure_guard|apply pure_serialize]|]; intros _).
  apply trows_bind; [apply trows_pure; case_match; [apply pure_check_pipeline|apply pure_ret]|]. intros _.
  apply trows_bind; [apply trows_pure; case_match; [apply pure_check_job|apply pure_ret]|]. intros _.
  apply trows_bind; [apply trows_pure; case_match; [apply pure_check_work|apply pure_ret]|]. intros skip.
  case_match; [apply trows_pure, pure_ret|by apply trows_upsert].
Qed.

(** The records of a commit: the rows of the kind among them are allowed. *)
Definition allowed (rs : list StoreRecord) : Prop :=
  forall r, r ∈ rs -> rc_kind r = K -> A (rc_id r) (rc_value r).
Lemma trows_writes f n rs : allowed rs -> TRows (write_records f n rs).
Proof. intros HA. apply trows_iter. intros r Hr. apply trows_write. by apply HA. Qed.

(** The whole operation. *)
Definition MRows {X} (m : M DB X) : Prop := forall db, row_steps A db (m db).1.
Lemma mrows_tx {X} failed (body : T X) : TRows body -> MRows (store_tx failed body).
Proof.
  intros Hb db. unfold store_tx, transaction. specialize (Hb db).
  destruct (body db) as [db' [x|e]]; [exact Hb|by apply row_steps_tables].
Qed.
Lemma mrows_bind {X Y} (m : M DB X) (f : X -> M DB Y) : MRows m -> (forall x, MRows (f x)) -> MRows (m_bind m f).
Proof.
  intros Hm Hf db. unfold m_bind. specialize (Hm db). destruct (m db) as [db1 [x|e]]; [|exact Hm].
  etransitivity; [exact Hm|apply Hf].
Qed.
Lemma mrows_guard c code msg : MRows (m_guard c code msg).
Proof. intros db. unfold m_guard. case_match; simpl; reflexivity. Qed.
Lemma mrows_lift {X} (r : res X) : MRows (m_lift r).
Proof. intros db. simpl. reflexivity. Qed.
Lemma mrows_commit f n rs : allowed rs -> MRows (commit f n rs).
Proof. intros HA. apply mrows_tx. by apply trows_writes. Qed.
Lemma mrows_get k i : MRows (get_record k i).
Proof. apply mrows_tx, trows_pure. pure_read. Qed.
Lemma mrows_list k run_id limit offset : MRows (list_records k run_id limit offset).
Proof.
  apply mrows_bind; [apply mrows_guard|]. intros _. apply mrows_tx, trows_pure. pure_read.
Qed.
Lemma trows_insert_if k i run_id body : (k = K -> A i body) -> TRows (insert_if_absent k i run_id body).
Proof.
  intros HA db j. rewrite insert_if_absent_spec. cbv zeta. case_match; [by left|]. unfold kind_row. simpl.
  destruct (decide ((k, i) = (K, j))) as [[= -> ->]|Hne].
  - right. rewrite lookup_insert_eq. eexists _, _, _. split; [done|]. by apply HA.
  - left. by rewrite lookup_insert_ne.
Qed.
Lemma mrows_claim r : (rc_kind r = K -> A (rc_id r) (rc_value r)) -> MRows (claim r []).
Proof.
  intros HA. unfold claim. do 2 (apply mrows_bind; [apply mrows_guard|]; intros _). apply mrows_tx.
  apply trows_bind; [apply trows_pure, pure_serialize|]. intros _.
  apply trows_bind; [by apply trows_insert_if|]. intros b.
  apply trows_pure. pure_read.
Qed.
End InTransactions.
End Rows.

(** ** Reading *)

(** The rows a query returns have distinct keys. *)
Lemma omap_nodup {A B} (f : A -> option B) l : NoDup l ->
  (forall x y b, f x = Some b -> f y = Some b -> x = y) -> NoDup (omap f l).
Proof.
  intros Hl Hinj. induction Hl as [|x l Hx Hl IH]; simpl; [constructor|].
  destruct (f x) as [b|] eqn:E; [|done]. constructor; [|done].
  intros (y & Hy & Hb)%list_elem_of_omap. by rewrite (Hinj _ _ _ E Hb) in Hx.
Qed.
Lemma select_rows_nodup d k sid : NoDup ((select_rows d k sid).*1).
Proof.
  apply NoDup_fmap_fst.
  - intros x r1 r2 [H1 _]%elem_of_select_rows [H2 _]%elem_of_select_rows. congruence.
  - unfold select_rows. rewrite merge_sort_Permutation. apply NoDup_filter, omap_nodup; [apply NoDup_map_to_list|].
    intros [[k1 i1] r1] [[k2 i2] r2] b H1 H2. simpl in *. case_decide; [|done]. case_decide; [|done].
    subst. congruence.
Qed.

Section Reading.
Context `{L : JsonLib}.

Lemma get_record_ok k i db db' j : get_record k i db = (db', Ok j) ->
  db' = db /\ exists row, tables db !! (k, i) = Some row /\ j = row_body row.
Proof.
  unfold get_record, store_tx. intros Hg. apply transaction_ok in Hg.
  apply t_bind_ok in Hg as (d1 & found & [= <- <-] & Hg). destruct (tables db !! (k, i)) as [row|]; [|discriminate Hg].
  injection Hg as <- <-. eauto.
Qed.
Lemma list_records_ok k run_id limit offset db db' page : list_records k run_id limit offset db = (db', Ok page) ->
  db' = db /\ page = map (fun kv => row_body kv.2) (take (Z.to_nat limit) (drop (Z.to_nat offset) (select_rows db k run_id))).
Proof.
  unfold list_records. intros Hl. apply m_bind_ok in Hl as (db1 & ? & Hg & Hl).
  apply m_guard_ok in Hg as [_ ->]. unfold store_tx in Hl. apply transaction_ok in Hl.
  apply t_bind_ok in Hl as (d1 & db2 & [= <- <-] & [= <- <-]). done.
Qed.
(** The rows behind a listing. *)
Lemma list_records_rows k run_id limit offset db db' page : list_records k run_id limit offset db = (db', Ok page) ->
  exists kvs, NoDup kvs.*1 /\ page = map (fun kv => row_body kv.2) kvs
  /\ forall i row, (i, row) ∈ kvs -> tables db !! (k, i) = Some row.
Proof.
  intros [_ ->]%list_records_ok. set (l := select_rows db k run_id).
  exists (take (Z.to_nat limit) (drop (Z.to_nat offset) l)).
  assert (Hsub : sublist (take (Z.to_nat limit) (drop (Z.to_nat offset) l)) l)
    by (etransitivity; [apply sublist_take|apply sublist_drop]). split_and!; [|done|].
  - rewrite fmap_take, fmap_drop. eapply sublist_NoDup; [|apply sublist_take].
    eapply sublist_NoDup; [|apply sublist_drop]. apply select_rows_nodup.
  - intros i row Hin. assert (Hl : (i, row) ∈ l) by (eapply elem_of_submseteq; [exact Hin|by apply sublist_submseteq]).
    by apply elem_of_select_rows in Hl as [? _].
Qed.
(** Every listed document is the body of a stored row. *)
Lemma list_records_elem k run_id limit offset db db' page j : list_records k run_id limit offset db = (db', Ok page) ->
  j ∈ page -> exists i row, tables db !! (k, i) = Some row /\ j = row_body row.
Proof.
  intros (kvs & _ & -> & Hk)%list_records_rows Hj. apply list_elem_of_In, in_map_iff in Hj as ([i row] & <- & Hin).
  apply list_elem_of_In in Hin. exists i, row. auto.
Qed.
(** A commit of one record writes it. *)
Lemma commit_one f n rc db db' u : commit f n [rc] db = (db', Ok u) -> rc_kind rc <> KNodeWork ->
  exists seq, tables db' !! (rc_kind rc, rc_id rc) = Some (mkRow (rc_run_id rc) (rc_value rc) seq).
Proof.
  unfold commit, store_tx. rewrite transaction_ok. intros Hc Hk. cbn [write_records t_iter] in Hc.
  apply t_bind_ok in Hc as (d1 & [] & H1 & Hc). injection Hc as <- _.
  apply write_record_ok in H1 as (_ & _ & _ & _ & _ & _ & [(? & _)|(_ & seq & Ht & _)]); [done|].
  exists seq. by rewrite Ht, lookup_insert_eq.
Qed.
End Reading.
