(* ===== verification/Sessions.v ===== *)
(** * Agent sessions

    The session operations of [src/storage/postgres.cpp]: submitting a turn, claiming the next
    one, binding it to a run, publishing context generations, completing the run of a turn and
    closing the session.  Each is one transaction that locks the session row; turns and events
    are JSON documents, sessions are stored in the form of [session_to_json].  [fresh] is the
    [uuid()] an operation draws for its event, [now] its [timestamp()], [clock] the database
    clock of the lease predicate.  A JSON exception raised before the transaction starts leaves
    the operation as it is; it is represented by [json_exception]. *)

From S2P Require Import Prelude Json Types Samples Text Db Coordination Codec Worker Store.
From Stdlib Require Import Ascii.

Definition json_exception : Error := err Execution "Json::exception".
Definition mib : Z := 1024 * 1024.

Section SessionOps.
Context `{JsonLib}.

(** [j.value(key, fallback)] inside a transaction. *)
Definition value_str (j : Json) (key : string) : T string := t_lift (value_ dec_string j key ""%string).
Definition value_u64 (j : Json) (key : string) : T Z := t_lift (value_ dec_u64 j key 0).

(** Short-circuit tests that may throw. *)
Definition t_or (a b : T bool) : T bool := x ← a; if (x : bool) then mret true else b.
Definition t_and (a b : T bool) : T bool := x ← a; if (x : bool) then b else mret false.
Definition str_is (j : Json) (key v : string) : T bool := s ← value_str j key; mret (String.eqb s v).
Definition str_not (j : Json) (key v : string) : T bool := s ← value_str j key; mret (negb (String.eqb s v)).
Definition t_guard_t (cond : T bool) (c : ErrorCode) (msg : string) : T unit :=
  b ← cond; t_guard b c msg.

(** [x.dump().size()], outside and inside a transaction. *)
Definition m_dump_size (j : Json) : M DB Z := fun db =>
  (db, match dump j with Some t => Ok (size_of t) | None => Throw json_exception end).
Definition t_dump_size (j : Json) : T Z := t_json (size_of <$> dump j).

(** [SELECT body FROM agent_sessions WHERE id = $1 FOR UPDATE] *)
Definition lock_session (fresh now : string) (session_id : string) : T AgentSession :=
  found ← select_row KAgentSession session_id;
  match found with
  | None => t_error NotFound "Agent session not found"
  | Some row => t_lift (session_of_json fresh now (row_body row))
  end.

Definition save_session (session_id : string) (s : AgentSession) : T unit :=
  let body := session_to_json s in
  _ ← serialize body; update_body KAgentSession session_id body.
Definition save_turn (turn_id : string) (turn : Json) : T unit :=
  _ ← serialize turn; update_body KSessionTurn turn_id turn.

(** Insertion of an event document under its own id. *)
Definition insert_event (session_id : string) (event : Json) (seq : Z) : T unit :=
  id ← t_lift (at_ dec_string event "id");
  _ ← serialize event;
  _ ← bigint_parameter seq;
  insert_row KSessionEvent id session_id event (Some seq).

Definition set_fields (l : list (string * Json)) (j : Json) : Json :=
  foldl (fun j kv => set_member kv.1 kv.2 j) j l.
Definition erase_fields (l : list string) (j : Json) : Json := foldl (fun j k => erase_member k j) j l.

(** [event["id"] = event.value("id", uuid())] *)
Definition with_id (fresh : string) (event : Json) : T Json :=
  id ← t_lift (value_ dec_string event "id" fresh); mret (set_member "id" (JString id) event).

(** [SELECT COALESCE(MAX(sequence),0) ... WHERE run_id=$1] *)
Definition max_sequence (rows : list (string * Row)) : Z :=
  foldr (fun kv m => Z.max (row_sequence kv.2) m) 0 rows.

Definition u64_succ (z : Z) : Z := u64 (z + 1).

(** ** Submitting a turn *)

(** The comparison with an earlier turn of the same id: whether it differs. *)
Definition other_turn (session_id : string) (prior turn : Json) : T bool :=
  t_or (str_not prior "session_id" session_id)
 (t_or (k ← value_str turn "idempotency_key"; str_not prior "idempotency_key" k)
       (pin ← t_lift (value_ dec_json prior "input" JNull);
        tin ← t_lift (value_ dec_json turn "input" JNull);
        mret (negb (json_eqb pin tin)))).

Definition submit_session_turn (fresh now : string) (session_id turn_id : string) (turn event : Json)
    : M DB bool :=
  m_guard (empty_str session_id || (128 <? size_of session_id) || empty_str turn_id
           || (256 <? size_of turn_id) || negb (is_object turn) || negb (contains turn "input")
           || negb (contains turn "idempotency_key")) Validation "Invalid session turn" ;;;
  do tsize <- m_dump_size turn;
  m_guard (mib <? tsize) Validation "Invalid session turn" ;;;
  do esize <- m_dump_size event;
  m_guard (2 * mib <? esize) Validation "Invalid session turn" ;;;
  store_tx "PostgreSQL session turn failed"
    (session ← lock_session fresh now session_id;
     prior ← select_row KSessionTurn turn_id;
     match prior with
     | Some row =>
         _ ← t_guard_t (other_turn session_id (row_body row) turn) Conflict
               "Session turn idempotency key was reused";
         mret false
     | None =>
         _ ← t_guard (negb (String.eqb (s_state session) "open")) Conflict "Agent session is closed";
         let event_sequence := next_sequence session in
         let session := session <| next_sequence := u64_succ (next_sequence session) |> in
         _ ← t_guard (i64_max <? event_sequence) Capacity "Agent session sequence is exhausted";
         db ← t_get;
         let last_turn_sequence := max_sequence (select_rows db KSessionTurn session_id) in
         _ ← t_guard (i64_max <=? last_turn_sequence) Capacity "Agent session turn sequence is exhausted";
         let turn_sequence := last_turn_sequence + 1 in
         let session := session <| s_updated_at := now |> in
         event ← with_id fresh event;
         input ← t_lift (at_ dec_json turn "input");
         let event := set_fields [("session_id", JString session_id);
                                  ("sequence", JUnsigned event_sequence);
                                  ("type", JString "input.accepted"); ("turn_id", JString turn_id);
                                  ("payload", mk_object [("input", input)])]%string event in
         esize ← t_dump_size event;
         _ ← t_guard (2 * mib <? esize) Validation "Session event exceeds limit";
         let stored_turn := set_fields [("id", JString turn_id); ("session_id", JString session_id);
                                        ("sequence", JUnsigned turn_sequence)]%string turn in
         _ ← serialize stored_turn;
         _ ← insert_row KSessionTurn turn_id session_id stored_turn (Some turn_sequence);
         _ ← insert_event session_id event event_sequence;
         _ ← save_session session_id session;
         mret true
     end).

(** ** Claiming the next turn *)

(** The lease predicate of a dispatch, when the deployment is coordinated. *)
Definition require_lease (clock : Z) (resource owner : string) (token : Z) (msg : string) : T unit :=
  if 0 <? token then
    _ ← bigint_parameter token;
    db ← t_get;
    t_guard (negb (lease_current db resource owner token clock)) Conflict msg
  else mret tt.

(** [SELECT body ... AND body::jsonb->>'state'='queued' ORDER BY sequence LIMIT 1] *)
Definition is_queued (body : Json) : bool :=
  match member body "state" with Some (JString s) => String.eqb s "queued" | _ => false end.
Definition queued_turn (db : DB) (session_id : string) : option Json :=
  match filter (fun kv => is_queued (row_body kv.2) = true) (select_rows db KSessionTurn session_id) with
  | kv :: _ => Some (row_body kv.2)
  | [] => None
  end.

(** The turn to claim: [None] ends the operation without one, [inl] returns a turn this owner
    already holds, [inr] is a turn to claim with the session that names it. *)
Definition pick_turn (session_id owner : string) (token : Z) (session : AgentSession)
    : T (option (Json + Json * AgentSession)) :=
  if negb (empty_str (active_turn_id session)) then
    active ← select_row KSessionTurn (active_turn_id session);
    match active with
    | None => t_error StorageError "Active session turn is missing"
    | Some row =>
        let turn := row_body row in
        prior_owner ← value_str turn "dispatch_owner";
        prior_fence ← value_u64 turn "dispatch_fencing_token";
        bound ← t_or (str_not turn "state" "claimed") (str_not turn "run_id" "");
        if (bound : bool) then mret None
        else if String.eqb prior_owner owner
                && (prior_fence =? (if 0 <? token then token else dispatch_generation session))
        then mret (Some (inl turn))
        else if (0 <? token) && (token <=? prior_fence) then mret None
        else mret (Some (inr (turn, session)))
    end
  else
    db ← t_get;
    match queued_turn db session_id with
    | None => mret None
    | Some turn =>
        id ← t_lift (at_ dec_string turn "id");
        mret (Some (inr (turn, session <| active_turn_id := id |>)))
    end.

Definition claim_next_session_turn (fresh now : string) (clock : Z) (session_id owner : string)
    (token : Z) (lease_expires_at : string) (event : Json) : M DB (option Json) :=
  m_guard (empty_str session_id || empty_str owner || (negb (token =? 0) && empty_str lease_expires_at))
    Validation "Invalid session dispatch ownership" ;;;
  store_tx "PostgreSQL session claim failed"
    (_ ← require_lease clock (String.append "session:" session_id) owner token
           "Session dispatch lease is stale";
     session ← lock_session fresh now session_id;
     let claim_fence := if 0 <? token then token else u64_succ (dispatch_generation session) in
     if negb (String.eqb (s_state session) "open") then mret None
     else
       picked ← pick_turn session_id owner token session;
       match picked with
       | None => mret None
       | Some (inl turn) => mret (Some turn)
       | Some (inr (turn, session)) =>
           turn_id ← t_lift (at_ dec_string turn "id");
           attempts ← t_lift (value_ dec_unsigned turn "dispatch_attempt" 0);
           let attempt := JUnsigned (u32 (attempts + 1)) in
           let turn := set_fields [("state", JString "claimed"); ("dispatch_owner", JString owner);
                                   ("dispatch_fencing_token", JUnsigned claim_fence);
                                   ("dispatch_expires_at", JString lease_expires_at);
                                   ("dispatch_attempt", attempt)]%string turn in
           let sequence := next_sequence session in
           let session := ((session <| dispatch_generation := u64_succ (dispatch_generation session) |>)
                             <| s_updated_at := now |>)
                             <| next_sequence := u64_succ (next_sequence session) |> in
           event ← with_id fresh event;
           let event := set_fields [("session_id", JString session_id); ("sequence", JUnsigned sequence);
                                    ("turn_id", JString turn_id);
                                    ("type", JString "turn.execution.claimed");
                                    ("payload", mk_object [("state", JString "claimed");
                                                           ("dispatch_attempt", attempt)])]%string event in
           _ ← save_turn turn_id turn;
           _ ← insert_event session_id event sequence;
           _ ← save_session session_id session;
           mret (Some turn)
       end).

(** ** Binding a turn to a run *)

Definition dispatch_fields : list string :=
  ["dispatch_owner"; "dispatch_fencing_token"; "dispatch_expires_at"]%string.

(** [SELECT body FROM session_turns WHERE id=$1 FOR UPDATE] *)
Definition lock_turn (turn_id : string) : T Json :=
  found ← select_row KSessionTurn turn_id;
  match found with
  | None => t_error NotFound "Session turn not found"
  | Some row => mret (row_body row)
  end.

(** [SELECT ... ORDER BY sequence DESC LIMIT 1] *)
Definition latest_generation (db : DB) (session_id : string) : option Json :=
  row_body ∘ snd <$> last (select_rows db KSessionContextGeneration session_id).

(** The snapshot of the context a run starts from. *)
Definition context_snapshot (fresh now : string) (run_id session_id turn_id : string) (turn_seq : Z)
    : T RunContextSnapshot :=
  let base := {| sn_run_id := run_id; sn_session_id := session_id; sn_session_turn_id := turn_id;
                 sn_created_at := now; context_generation_id := "";
                 context_generation_predecessor_id := ""; turn_sequence := turn_seq;
                 history_through_turn_sequence := turn_seq; context_generation := 0;
                 context_through_turn_sequence := 0; sn_representation_kind := "";
                 sn_representation_version := ""; provider_continuations := JArray [] |} in
  db ← t_get;
  match latest_generation db session_id with
  | None => mret base
  | Some body =>
      g ← t_lift (generation_of_json fresh now body);
      _ ← t_guard (negb (String.eqb (g_session_id g) session_id) || (turn_seq <=? through_turn_sequence g))
            Conflict "Session context generation is ahead of this turn";
      mret ((((((base <| context_generation_id := g_id g |>)
              <| context_generation := generation g |>)
              <| context_generation_predecessor_id := predecessor_id g |>)
              <| context_through_turn_sequence := through_turn_sequence g |>)
              <| sn_representation_kind := representation_kind g |>)
              <| sn_representation_version := representation_version g |>)
  end.

(** The loop over the continuations: the current ones of this session are captured. *)
Definition capture_continuation (session_id : string) (acc : list Json) (body : Json) : T (list Json) :=
  wanted ← t_and (str_is body "scope" "current")
          (t_and (str_is body "session_id" session_id)
          (t_and (str_not body "provider_id" "")
          (t_and (str_not body "provider_version" "") (str_not body "state" ""))));
  if (wanted : bool) then
    pid ← t_lift (at_ dec_json body "provider_id");
    pv ← t_lift (at_ dec_json body "provider_version");
    st ← t_lift (at_ dec_json body "state");
    mret (acc ++ [mk_object [("provider_id", pid); ("provider_version", pv); ("state", st)]%string])
  else mret acc.
Fixpoint capture_all (session_id : string) (acc : list Json) (l : list (string * Row)) : T (list Json) :=
  match l with
  | [] => mret acc
  | kv :: l => acc ← capture_continuation session_id acc (row_body kv.2); capture_all session_id acc l
  end.

Definition bind_session_turn_run (fresh fresh' now : string) (clock : Z) (session_id turn_id : string)
    (run run_event : Json) (owner : string) (token : Z) (session_event : Json) : M DB bool :=
  m_guard (empty_str session_id || empty_str turn_id || empty_str owner || negb (is_object run)
           || negb (is_object run_event)) Validation "Invalid session run binding" ;;;
  do rs <- m_lift (match value_ dec_string run "session_id" ""%string with TOk s => Ok s | _ => Throw json_exception end);
  m_guard (negb (String.eqb rs session_id)) Validation "Invalid session run binding" ;;;
  do rt <- m_lift (match value_ dec_string run "session_turn_id" ""%string with TOk s => Ok s | _ => Throw json_exception end);
  m_guard (negb (String.eqb rt turn_id)) Validation "Invalid session run binding" ;;;
  store_tx "PostgreSQL session run binding failed"
    (_ ← require_lease clock (String.append "session:" session_id) owner token
           "Session dispatch lease is stale";
     session ← lock_session fresh now session_id;
     turn ← lock_turn turn_id;
     let expected := if 0 <? token then token else dispatch_generation session in
     tsid ← value_str turn "session_id";
     _ ← t_guard (negb (String.eqb tsid session_id)) Conflict "Session turn belongs to another session";
     already ← t_and (str_is turn "state" "running")
                     (id ← t_lift (at_ dec_string run "id"); str_is turn "run_id" id);
     if (already : bool) then mret false
     else
       _ ← t_guard_t
             (t_or (mret (negb (String.eqb (s_state session) "open")
                          || negb (String.eqb (active_turn_id session) turn_id)))
             (t_or (str_not turn "state" "claimed")
             (t_or (str_not turn "dispatch_owner" owner)
             (t_or (f ← value_u64 turn "dispatch_fencing_token"; mret (negb (f =? expected)))
                   (str_not turn "run_id" "")))))
             Conflict "Session turn claim is no longer current";
       run_id ← t_lift (at_ dec_string run "id");
       let turn := erase_fields dispatch_fields
                     (set_fields [("state", JString "running"); ("run_id", JString run_id);
                                  ("started_at", JString now)]%string turn) in
       let sequence := next_sequence session in
       let session := ((session <| active_run_id := run_id |>) <| s_updated_at := now |>)
                         <| next_sequence := u64_succ (next_sequence session) |> in
       event ← with_id fresh session_event;
       let event := set_fields [("session_id", JString session_id); ("sequence", JUnsigned sequence);
                                ("turn_id", JString turn_id); ("run_id", JString run_id);
                                ("type", JString "turn.execution.started");
                                ("payload", mk_object [("state", JString "running");
                                                       ("run_id", JString run_id)])]%string event in
       run_event_id ← t_lift (value_ dec_string run_event "id" fresh');
       let run_event := set_fields [("id", JString run_event_id); ("run_id", JString run_id)]%string run_event in
       let run := set_member "id" (JString run_id) run in
       _ ← write_records fresh now [mkRecord KRun run_id run_id run;
                                    mkRecord KEvent run_event_id run_id run_event];
       turn_seq ← value_u64 turn "sequence";
       snapshot ← context_snapshot fresh now run_id session_id turn_id turn_seq;
       db ← t_get;
       captured ← capture_all session_id [] (select_rows db KSessionContinuation session_id);
       let body := snapshot_to_json (snapshot <| provider_continuations := JArray captured |>) in
       _ ← serialize body;
       _ ← insert_row KRunContextSnapshot run_id run_id body None;
       _ ← save_turn turn_id turn;
       _ ← insert_event session_id event sequence;
       _ ← save_session session_id session;
       mret true).

(** ** Context generations *)

(** The loop over the turns up to the boundary: all finished, numbered without gaps. *)
Definition finished_turn (body : Json) : T bool :=
  st ← value_str body "state";
  mret (String.eqb st "succeeded" || String.eqb st "failed" || String.eqb st "cancelled").
Fixpoint check_history (seen : Z) (l : list (string * Row)) : T Z :=
  match l with
  | [] => mret seen
  | kv :: l =>
      fin ← finished_turn (row_body kv.2);
      _ ← t_guard (negb (row_sequence kv.2 =? seen + 1) || negb fin) Conflict
            "Context generation boundary includes unfinished history";
      check_history (seen + 1) l
  end.

(** [... WHERE run_id=$1 AND body::jsonb->>'idempotency_key'=$2] *)
Definition has_key (key : string) (body : Json) : bool :=
  match member body "idempotency_key" with Some (JString s) => String.eqb s key | _ => false end.

Definition create_session_context_generation (fresh now : string) (session_id : string)
    (expected through : Z) (key kind vers : string) (payload : Json) : M DB Json :=
  m_guard (empty_str session_id || (128 <? size_of session_id) || empty_str key || (256 <? size_of key)
           || empty_str kind || (128 <? size_of kind) || empty_str vers || (128 <? size_of vers))
    Validation "Invalid session context generation" ;;;
  do psize <- m_dump_size payload;
  m_guard ((mib <? psize) || (i64_max <? through)) Validation "Invalid session context generation" ;;;
  store_tx "PostgreSQL context generation write failed"
    (found ← select_row KAgentSession session_id;
     match found with
     | None => t_error NotFound "Agent session not found"
     | Some _ =>
         db ← t_get;
         let all := select_rows db KSessionContextGeneration session_id in
         match filter (fun kv => has_key key (row_body kv.2) = true) all with
         | kv :: _ =>
             prior ← t_lift (generation_of_json fresh now (row_body kv.2));
             _ ← t_guard (negb (through_turn_sequence prior =? through)
                          || negb (String.eqb (representation_kind prior) kind)
                          || negb (String.eqb (representation_version prior) vers)
                          || negb (json_eqb (g_payload prior) payload))
                   Conflict "Context generation idempotency key was reused";
             mret (generation_to_json prior)
         | [] =>
             '(current, boundary, pred) ←
               (match last all with
                | None => mret (0, 0, ""%string)
                | Some kv =>
                    prior ← t_lift (generation_of_json fresh now (row_body kv.2));
                    mret (generation prior, through_turn_sequence prior, g_id prior)
                end);
             _ ← t_guard (negb (expected =? current)) Conflict
                   "Session context generation revision is stale";
             _ ← t_guard (through <? boundary) Conflict
                   "Context generation boundary cannot move backward";
             _ ← t_guard (i64_max <=? current) Capacity
                   "Session context generation number is exhausted";
             seen ← check_history 0
                      (filter (fun kv => row_sequence kv.2 <= through)
                         (select_rows db KSessionTurn session_id));
             _ ← t_guard (negb (seen =? through)) Validation
                   "Context generation boundary is outside session history";
             let g := {| g_id := fresh; g_session_id := session_id; predecessor_id := pred;
                         g_created_at := now; generation := current + 1;
                         through_turn_sequence := through; representation_kind := kind;
                         representation_version := vers; idempotency_key := key;
                         g_payload := payload |} in
             _ ← serialize (generation_to_json g);
             _ ← insert_row KSessionContextGeneration (g_id g) session_id (generation_to_json g) None;
             mret (generation_to_json g)
         end
     end).

(** ** Completing the run of a turn *)

Definition terminal_name (st : RunState) : string :=
  match st with Completed => "succeeded" | Cancelled => "cancelled" | _ => "failed" end.

Definition closed_event (fresh session_id : string) (seq : Z) : Json :=
  mk_object [("id", JString fresh); ("session_id", JString session_id); ("sequence", JUnsigned seq);
             ("type", JString "session.closed");
             ("payload", mk_object [("state", JString "closed")])]%string.

(** The event of a finished turn; an oversized result is left in the run. *)
Definition completion_event (run : Run) (final : string) (turn_error : option Json) (sequence : Z)
    (event : Json) : T Json :=
  let payload := mk_object [("state", JString final); ("run_id", JString (id run))]%string in
  let payload := match turn_error with
                 | None => set_member "result" (Types.payload (message run)) payload
                 | Some e => set_member "error" e payload
                 end in
  let event := set_fields [("session_id", JString (session_id run)); ("sequence", JUnsigned sequence);
                           ("turn_id", JString (session_turn_id run)); ("run_id", JString (id run));
                           ("type", JString (String.append "turn.execution."
                              (match turn_error with
                               | None => "completed"
                               | Some _ => if String.eqb final "cancelled" then "cancelled" else "failed"
                               end)));
                           ("payload", payload)]%string event in
  size ← t_dump_size event;
  if 2 * mib <? size
  then mret (set_member "payload"
               (set_member "result_in_run" (JBool true) (erase_member "result" payload)) event)
  else mret event.

Definition find_run (records : list StoreRecord) : option StoreRecord :=
  snd <$> list_find (fun r => rc_kind r = KRun) records.

Definition commit_session_run (fresh fresh' now : string) (clock : Z) (records : list StoreRecord)
    (owner : string) (token : Z) (session_event : Json) : M DB unit :=
  m_guard (((token =? 0) && negb (empty_str owner)) || ((0 <? token) && empty_str owner)) Validation
    "Invalid session run ownership proof" ;;;
  match find_run records with
  | None => m_throw Validation "Session completion has no run record"
  | Some rc =>
      do run <- m_lift (match run_of_json (rc_value rc) with
                        | TOk r => Ok r
                        | TThrow (TError e) => Throw e
                        | TThrow _ => Throw json_exception
                        end);
      m_guard (empty_str (session_id run) || empty_str (session_turn_id run)
               || negb (terminal (state run))) Validation "Invalid session completion" ;;;
      let final := terminal_name (state run) in
      store_tx "PostgreSQL session completion failed"
        (_ ← require_lease clock (String.append "run:" (id run)) owner token
               "Run ownership is no longer valid";
         session ← lock_session fresh now (session_id run);
         turn ← lock_turn (session_turn_id run);
         prior ← value_str turn "state";
         repeated ← t_and (mret (String.eqb prior final)) (str_is turn "run_id" (id run));
         if (repeated : bool) then mret tt
         else
           _ ← t_guard_t
                 (t_or (mret (negb (String.eqb (active_run_id session) (id run))
                              || negb (String.eqb (active_turn_id session) (session_turn_id run))))
                 (t_or (str_not turn "session_id" (session_id run))
                 (t_or (str_not turn "run_id" (id run)) (mret (negb (String.eqb prior "running"))))))
                 Conflict "Session completion is no longer current";
           let turn := set_fields [("state", JString final); ("completed_at", JString now);
                                   ("result", Types.payload (message run))]%string turn in
           let turn_error := if String.eqb final "failed" then Some (JString "execution_failed")
                             else if String.eqb final "cancelled" then Some (JString "execution_cancelled")
                             else None in
           let turn := match turn_error with Some e => set_member "error" e turn | None => turn end in
           let turn := erase_fields dispatch_fields turn in
           let sequence := next_sequence session in
           let session := (((session <| active_turn_id := ""%string |>) <| active_run_id := ""%string |>)
                             <| s_updated_at := now |>)
                             <| next_sequence := u64_succ (next_sequence session) |> in
           event ← with_id fresh session_event;
           event ← completion_event run final turn_error sequence event;
           _ ← write_records fresh now records;
           _ ← save_turn (session_turn_id run) turn;
           _ ← insert_event (session_id run) event sequence;
           session ←
             (if String.eqb (s_state session) "closing" then
                let closed_sequence := next_sequence session in
                let session := ((session <| s_state := "closed"%string |>) <| s_updated_at := now |>)
                                 <| next_sequence := u64_succ (next_sequence session) |> in
                _ ← t_guard (i64_max <? closed_sequence) Capacity "Agent session sequence is exhausted";
                _ ← insert_event (session_id run) (closed_event fresh' (session_id run) closed_sequence)
                      closed_sequence;
                mret session
              else mret session);
           save_session (session_id run) session)
  end.

(** ** Closing a session

    The session is threaded through the events it appends; [ids] are the fresh identifiers of
    the events, in the order in which they are drawn. *)
Definition append_event (ids : nat -> string) (session_id type turn_id run_id : string)
    (payload : Json) (nk : nat) (session : AgentSession) : T AgentSession :=
  _ ← t_guard (i64_max <? next_sequence session) Capacity "Agent session sequence is exhausted";
  let sequence := next_sequence session in
  let record := mk_object [("id", JString (ids nk)); ("session_id", JString session_id);
                           ("sequence", JUnsigned sequence); ("type", JString type);
                           ("payload", payload)]%string in
  let record := if empty_str turn_id then record else set_member "turn_id" (JString turn_id) record in
  let record := if empty_str run_id then record else set_member "run_id" (JString run_id) record in
  _ ← insert_event session_id record sequence;
  mret (session <| next_sequence := u64_succ (next_sequence session) |>).

Definition persist_turn (ids : nat -> string) (now session_id : string) (turn : Json) (nk : nat)
    (session : AgentSession) : T AgentSession :=
  turn_id ← t_lift (at_ dec_string turn "id");
  let turn := erase_fields dispatch_fields
                (set_fields [("state", JString "cancelled"); ("error", JString "session_closed");
                             ("completed_at", JString now)]%string turn) in
  _ ← save_turn turn_id turn;
  append_event ids session_id "turn.execution.cancelled" turn_id ""
    (mk_object [("state", JString "cancelled"); ("reason", JString "session_closed")]%string) nk session.

(** The loop over the turns of the session; each turn is one event at most. *)
Fixpoint cancel_turns (ids : nat -> string) (now session_id : string) (has_active_run : bool) (nk : nat)
    (l : list (string * Row)) (session : AgentSession) : T (nat * AgentSession) :=
  match l with
  | [] => mret (nk, session)
  | kv :: l =>
      st ← value_str (row_body kv.2) "state";
      if String.eqb st "queued" || (negb has_active_run && String.eqb st "claimed") then
        session ← persist_turn ids now session_id (row_body kv.2) nk session;
        cancel_turns ids now session_id has_active_run (S nk) l session
      else cancel_turns ids now session_id has_active_run nk l session
  end.

(** The active turn of a session that is being closed: a running one is asked to cancel, a
    claimed or queued one is cancelled and the session forgets it. *)
Definition close_active (ids : nat -> string) (now session_id : string) (has_active_run : bool)
    (nk : nat) (session : AgentSession) : T (nat * AgentSession) :=
  if empty_str (active_turn_id session) then mret (nk, session)
  else
    active ← select_row KSessionTurn (active_turn_id session);
    if has_active_run then
      match active with
      | None => t_error StorageError "Active session turn is missing"
      | Some row =>
          _ ← (if is_object (row_body row) || is_null (row_body row) then mret tt else t_throw TStd);
          _ ← save_turn (active_turn_id session)
                (set_member "cancellation_requested" (JBool true) (row_body row));
          session ← append_event ids session_id "turn.execution.cancel_requested"
                      (active_turn_id session) (active_run_id session)
                      (mk_object [("state", JString "cancellation_requested")]%string) nk session;
          mret (S nk, session)
      end
    else
      '(nk, session) ←
        (match active with
         | None => mret (nk, session)
         | Some row =>
             st ← value_str (row_body row) "state";
             if String.eqb st "claimed" || String.eqb st "queued" then
               session ← persist_turn ids now session_id (row_body row) nk session;
               mret (S nk, session)
             else mret (nk, session)
         end);
      mret (nk, session <| active_turn_id := ""%string |>).

(** The work of the first close. *)
Definition first_close (ids : nat -> string) (now session_id : string) (session : AgentSession)
    : T AgentSession :=
  let has_active_run := negb (empty_str (active_run_id session)) in
  let session := (session <| s_state := if has_active_run then "closing"%string else "closed"%string |>)
                   <| s_updated_at := now |> in
  session ← append_event ids session_id "session.closing" "" ""
              (mk_object [("state", JString "closing")]%string) 0 session;
  '(nk, session) ← close_active ids now session_id has_active_run 1 session;
  db ← t_get;
  '(nk, session) ← cancel_turns ids now session_id has_active_run nk
                     (select_rows db KSessionTurn session_id) session;
  if has_active_run then mret session
  else append_event ids session_id "session.closed" "" "" (mk_object [("state", JString "closed")]%string)
         nk (session <| active_run_id := ""%string |>).

Definition close_agent_session (ids : nat -> string) (now session_id : string) : M DB bool :=
  m_guard (empty_str session_id || (128 <? size_of session_id)) Validation "Invalid agent session id" ;;;
  store_tx "PostgreSQL session close failed"
    (session ← lock_session (ids 0%nat) now session_id;
     if String.eqb (s_state session) "closed" then mret false
     else
       session ← (if negb (String.eqb (s_state session) "closing")
                  then first_close ids now session_id session else mret session);
       _ ← save_session session_id (session <| s_updated_at := now |>);
       mret true).

(** ** Reads *)

Definition session_events (session_id : string) (after limit : Z) : M DB (list Json) :=
  m_guard (empty_str session_id || (128 <? size_of session_id) || (limit =? 0) || (1000 <? limit)
           || (i64_max <? after)) Validation "Invalid session event page" ;;;
  store_tx "PostgreSQL session event read failed"
    (db ← t_get;
     mret (map (fun kv => row_body kv.2)
             (take (Z.to_nat limit)
                (filter (fun kv => after < row_sequence kv.2) (select_rows db KSessionEvent session_id))))).

Definition latest_session_context_generation (session_id : string) : M DB (option Json) :=
  m_guard (empty_str session_id || (128 <? size_of session_id)) Validation "Invalid agent session ID" ;;;
  store_tx "PostgreSQL context generation read failed"
    (db ← t_get; mret (latest_generation db session_id)).

Definition session_turns_between (session_id : string) (after through limit : Z) : M DB (list Json) :=
  m_guard (empty_str session_id || (128 <? size_of session_id) || (through <? after) || (limit =? 0)
           || (1000 <? limit) || (i64_max <? through)) Validation "Invalid session turn range" ;;;
  store_tx "PostgreSQL session turn read failed"
    (db ← t_get;
     mret (map (fun kv => row_body kv.2)
             (take (Z.to_nat limit)
                (filter (fun kv => after < row_sequence kv.2 <= through)
                   (select_rows db KSessionTurn session_id))))).

(** ** The service's use of it *)

(** The session [Service::create_session] stores, once the pipeline has been found. *)
Definition new_session (fresh now pipeline : string) : AgentSession := {|
  s_id := fresh; s_pipeline_id := pipeline; s_state := "open"; s_created_at := now;
  s_updated_at := now; active_turn_id := ""; active_run_id := ""; dispatch_generation := 0;
  next_sequence := 1 |}.
Definition create_session (fresh now pipeline : string) : M DB AgentSession :=
  let session := new_session fresh now pipeline in
  commit fresh now [mkRecord KAgentSession (s_id session) (s_id session) (session_to_json session)] ;;;
  m_ret session.

(** A turn is named after the FNV-1a hash of its idempotency key. *)
Definition turn_name (session_id key : string) : string :=
  String.append session_id (String.append "-turn-" (of_chars (hex_digits 16 (fnv_hash key) []))).

(** The turn document [Service::submit_session_turn] builds. *)
Definition service_turn (now key pipeline : string) (input : Json) : Json :=
  mk_object [("idempotency_key", JString key); ("input", input); ("state", JString "queued");
             ("accepted_at", JString now); ("pipeline_id", JString pipeline)]%string.

(** [Service::submit_session_turn] up to the dispatch: the turn as it is stored is returned,
    whether this call or an earlier one stored it.  [event] is the [Event] it passes on. *)
Definition service_submit (fresh now session_id key : string) (input event : Json) : M DB Json :=
  m_guard (empty_str key || (512 <? size_of key)) Validation "Invalid session input" ;;;
  do isize <- m_dump_size input;
  m_guard (mib <? isize) Validation "Invalid session input" ;;;
  do body <- get_record KAgentSession session_id;
  do session <- m_lift (match session_of_json fresh now body with
                        | TOk s => Ok s | TThrow (TError e) => Throw e | TThrow _ => Throw json_exception
                        end);
  do accepted <- submit_session_turn fresh now session_id (turn_name session_id key)
                   (service_turn now key (s_pipeline_id session) input) event;
  get_record KSessionTurn (turn_name session_id key).
End SessionOps.
