(* ===== verification/SessionInv.v ===== *)
(** * Sessions: the invariant and what it gives

    The session tables satisfy one invariant, kept by every operation of [Sessions] and by every
    other store operation that leaves those tables alone: the journal and the turns of a session
    are numbered without gaps, at most one turn of a session is claimed or running and the
    session names it, a session that is closing or closed has no open work, and a context
    generation covers finished turns only.  While an operation runs, the session it has locked is
    in memory and differs from its row; [InvP] is the invariant with that session in place of the
    stored one. *)

From S2P Require Import Prelude Json Types Samples Text Db Coordination Codec Worker Store Sessions.

(** The kinds of record the invariant is about. *)
Definition session_kind (k : RecordKind) : bool :=
  match k with
  | KAgentSession | KSessionTurn | KSessionEvent | KSessionContextGeneration => true
  | _ => false
  end.

(** ** The invariant *)

(** The rows of a kind that belong to [sid] are numbered 1 to [n]. *)
Definition numbered (d : DB) (k : RecordKind) (sid : string) (n : Z) : Prop :=
  (forall i, 1 <= i <= n -> exists id row,
     tables d !! (k, id) = Some row /\ row_run_id row = sid /\ row_sequence row = i)
  /\ (forall id row, tables d !! (k, id) = Some row -> row_run_id row = sid -> 1 <= row_sequence row <= n)
  /\ (forall id id' row row', tables d !! (k, id) = Some row -> tables d !! (k, id') = Some row' ->
      row_run_id row = sid -> row_run_id row' = sid -> row_sequence row = row_sequence row' -> id = id').

Definition finished_name (st : string) : bool :=
  String.eqb st "succeeded" || String.eqb st "failed" || String.eqb st "cancelled".
Definition turn_state (row : Row) : string :=
  match member (row_body row) "state" with Some (JString s) => s | _ => ""%string end.
Definition finished (row : Row) : Prop := finished_name (turn_state row) = true.

(** A turn as it is stored. *)
Record turn_ok (tid : string) (row : Row) : Prop := {
  to_object : is_object (row_body row) = true;
  to_id : member (row_body row) "id" = Some (JString tid);
  to_session : member (row_body row) "session_id" = Some (JString (row_run_id row));
  to_sequence : member (row_body row) "sequence" = Some (JUnsigned (row_sequence row));
  to_state : member (row_body row) "state" = Some (JString (turn_state row));
  to_known : turn_state row ∈ ["queued"; "claimed"; "running"; "succeeded"; "failed"; "cancelled"]%string;
  to_key : exists key, member (row_body row) "idempotency_key" = Some (JString key);
  to_input : exists v, member (row_body row) "input" = Some v;
  to_tid : tid <> ""%string }.

(** The request a turn was submitted with. *)
Definition same_request (a b : Row) : Prop :=
  member (row_body a) "idempotency_key" = member (row_body b) "idempotency_key"
  /\ member (row_body a) "input" = member (row_body b) "input".

(** What the state of a turn says about its session. *)
Record turn_rel (s : AgentSession) (tid : string) (st : string) : Prop := {
  tr_claimed : st = "claimed"%string ->
    s_state s = "open"%string /\ active_turn_id s = tid /\ active_run_id s = ""%string;
  tr_running : st = "running"%string ->
    s_state s <> "closed"%string /\ active_turn_id s = tid /\ active_run_id s <> ""%string;
  tr_queued : st = "queued"%string -> s_state s = "open"%string }.

Record session_wf (s : AgentSession) : Prop := {
  sw_state : s_state s ∈ ["open"; "closing"; "closed"]%string;
  sw_next : 1 <= next_sequence s <= i64_max + 1;
  sw_gen : fits64 (dispatch_generation s);
  sw_run : active_run_id s <> ""%string -> active_turn_id s <> ""%string }.

(** The rows of session [sid], against the session [s]. *)
Record sess_ok (d : DB) (sid : string) (s : AgentSession) : Prop := {
  so_wf : session_wf s;
  so_turns : forall tid row, tables d !! (KSessionTurn, tid) = Some row -> row_run_id row = sid ->
    turn_rel s tid (turn_state row);
  so_active : active_turn_id s <> ""%string -> exists row,
    tables d !! (KSessionTurn, active_turn_id s) = Some row /\ row_run_id row = sid
    /\ (active_run_id s <> ""%string -> turn_state row = "running"%string);
  so_events : numbered d KSessionEvent sid (next_sequence s - 1);
  so_numbered : exists k, 0 <= k /\ numbered d KSessionTurn sid k
    /\ forall gid row g, tables d !! (KSessionContextGeneration, gid) = Some row -> row_run_id row = sid ->
         row_body row = generation_to_json g ->
         through_turn_sequence g <= k
         /\ forall tid trow, tables d !! (KSessionTurn, tid) = Some trow -> row_run_id trow = sid ->
              row_sequence trow <= through_turn_sequence g -> finished trow }.

Definition has_session (d : DB) (sid : string) : Prop := is_Some (tables d !! (KAgentSession, sid)).

(** What the invariant is asked to keep an eye on: finished turns, which must stay what they were,
    and requests, which must stay what was submitted. *)
Record Watch := mkWatch {
  w_finished : string -> Row -> Prop;
  w_request : string -> Row -> Prop }.

Section Invariant.
Context (F : Watch).

Record rows_ok (d : DB) : Prop := {
  ro_turn : forall tid row, tables d !! (KSessionTurn, tid) = Some row ->
    turn_ok tid row /\ has_session d (row_run_id row);
  ro_event : forall id row, tables d !! (KSessionEvent, id) = Some row -> has_session d (row_run_id row);
  ro_gen : forall id row, tables d !! (KSessionContextGeneration, id) = Some row ->
    has_session d (row_run_id row) /\ exists g, row_body row = generation_to_json g
      /\ fits64 (generation g) /\ fits64 (through_turn_sequence g) /\ g_session_id g = row_run_id row;
  ro_kept : forall tid row, w_finished F tid row -> tables d !! (KSessionTurn, tid) = Some row /\ finished row;
  ro_request : forall tid row, w_request F tid row -> exists row', tables d !! (KSessionTurn, tid) = Some row'
    /\ row_run_id row' = row_run_id row /\ same_request row' row }.

Definition stored_ok (d : DB) (sid : string) (row : Row) : Prop :=
  exists s, row_body row = session_to_json s /\ sess_ok d sid s.

Record Inv (d : DB) : Prop := {
  inv_rows : rows_ok d;
  inv_sessions : forall sid row, tables d !! (KAgentSession, sid) = Some row -> stored_ok d sid row }.

(** The invariant while [sid] is locked and in memory as [s]. *)
Record InvP (sid : string) (s : AgentSession) (d : DB) : Prop := {
  ip_rows : rows_ok d;
  ip_has : has_session d sid;
  ip_this : sess_ok d sid s;
  ip_others : forall sid' row, sid' <> sid -> tables d !! (KAgentSession, sid') = Some row ->
    stored_ok d sid' row }.

(** ** Frame lemmas *)

(** The rows that belong to [sid] are the same. *)
Definition same_for (sid : string) (d d' : DB) : Prop :=
  forall k id row, session_kind k = true -> k <> KAgentSession -> row_run_id row = sid ->
    tables d' !! (k, id) = Some row <-> tables d !! (k, id) = Some row.

Lemma numbered_frame d d' k sid n :
  session_kind k = true -> k <> KAgentSession -> same_for sid d d' ->
  numbered d k sid n -> numbered d' k sid n.
Proof.
  intros Hk Hne Hs (H1 & H2 & H3). split_and!.
  - intros i Hi. destruct (H1 i Hi) as (id & row & Hr & Hrun & Hseq). exists id, row.
    split; [by apply Hs|done].
  - intros id row Hr Hrun. apply (H2 id); [by apply Hs|done].
  - intros id id' row row' Hr Hr' Hrun Hrun' Hseq. apply (H3 id id' row row'); try done; by apply Hs.
Qed.

Lemma sess_ok_frame d d' sid s : same_for sid d d' -> sess_ok d sid s -> sess_ok d' sid s.
Proof.
  intros Hs [Hwf Ht Ha He (k & Hk0 & Hk & Hg)]. split; [done| | | |].
  - intros tid row Hr Hrun. apply Ht; [by apply Hs|done].
  - intros Hne. destruct (Ha Hne) as (row & Hr & Hrun & Hst). exists row. split; [by apply Hs|done].
  - by eapply numbered_frame.
  - exists k. split; [done|]. split; [by eapply numbered_frame|]. intros gid row g Hr Hrun Hb.
    destruct (Hg gid row g) as [Hle Hcov]; [by apply Hs|done..|]. split; [done|].
    intros tid trow Htr Hrun'. apply (Hcov tid); [by apply Hs|done].
Qed.

(** The session tables are the same. *)
Definition agree (d d' : DB) : Prop :=
  forall k id, session_kind k = true -> tables d' !! (k, id) = tables d !! (k, id).

Lemma agree_same_for d d' sid : agree d d' -> same_for sid d d'.
Proof. intros Ha k id row Hk _ _. by rewrite Ha. Qed.
Lemma agree_tables d d' : tables d' = tables d -> agree d d'.
Proof. intros H k id _. by rewrite H. Qed.
Lemma agree_trans d1 d2 d3 : agree d1 d2 -> agree d2 d3 -> agree d1 d3.
Proof. intros H1 H2 k id Hk. by rewrite H2, H1. Qed.

Lemma rows_ok_agree d d' : agree d d' -> rows_ok d -> rows_ok d'.
Proof.
  intros Ha [H1 H2 H3 H4 H5]. unfold has_session in *. split; unfold has_session; intros id row; rewrite ?Ha by done.
  - apply H1.
  - apply H2.
  - apply H3.
  - apply H4.
  - apply H5.
Qed.
Lemma stored_ok_agree d d' sid row : agree d d' -> stored_ok d sid row -> stored_ok d' sid row.
Proof.
  intros Ha (s & Hb & Hok). exists s. split; [done|]. eapply sess_ok_frame; [by apply agree_same_for|done].
Qed.
Lemma Inv_agree d d' : agree d d' -> Inv d -> Inv d'.
Proof.
  intros Ha [Hr Hs]. split; [by eapply rows_ok_agree|]. intros sid row. rewrite Ha by done.
  intros H. eapply stored_ok_agree; [done|by apply Hs].
Qed.
Lemma InvP_agree sid s d d' : agree d d' -> InvP sid s d -> InvP sid s d'.
Proof.
  intros Ha [Hr Hh Ht Ho]. split.
  - by eapply rows_ok_agree.
  - unfold has_session. by rewrite Ha.
  - eapply sess_ok_frame; [by apply agree_same_for|done].
  - intros sid' row Hne. rewrite Ha by done. intros H. eapply stored_ok_agree; [done|by apply Ho].
Qed.

(** A change of one row that belongs to [sid] leaves the other sessions alone. *)
Lemma insert_same_for d d' k0 id0 sid sid' row0 :
  sid' <> sid -> row_run_id row0 = sid -> tables d' = <[(k0, id0) := row0]> (tables d) ->
  (forall old, tables d !! (k0, id0) = Some old -> row_run_id old = sid) -> same_for sid' d d'.
Proof.
  intros Hne Hrun Ht Hold k id row Hk Hka Hrow. rewrite Ht.
  destruct (decide ((k, id) = (k0, id0))) as [[= -> ->]|Hd].
  - rewrite lookup_insert_eq. split; intros H.
    + injection H as <-. congruence.
    + apply Hold in H. congruence.
  - by rewrite lookup_insert_ne.
Qed.

(** ** Steps of an operation *)

Definition bump (s : AgentSession) : AgentSession := s <| next_sequence := next_sequence s + 1 |>.

Lemma next_bump s : next_sequence (bump s) = next_sequence s + 1.
Proof. done. Qed.
Lemma u64_succ_small z : 0 <= z <= i64_max -> u64_succ z = z + 1.
Proof. intros Hz. unfold u64_succ, u64, i64_max in *. rewrite Z.mod_small; lia. Qed.

Lemma numbered_fun d k sid n n' : 0 <= n -> 0 <= n' -> numbered d k sid n -> numbered d k sid n' -> n = n'.
Proof.
  intros Hn Hn' (H1 & H2 & _) (H1' & H2' & _).
  destruct (Z.lt_trichotomy n n') as [Hlt|[->|Hlt]]; [|done|].
  - destruct (H1' n') as (id & row & Hr & Hrun & Hs); [lia|]. specialize (H2 _ _ Hr Hrun). lia.
  - destruct (H1 n) as (id & row & Hr & Hrun & Hs); [lia|]. specialize (H2' _ _ Hr Hrun). lia.
Qed.

(** One more row, numbered next. *)
Lemma numbered_insert d d' k sid n id0 row0 :
  0 <= n -> numbered d k sid n -> tables d !! (k, id0) = None -> row_run_id row0 = sid ->
  row_sequence row0 = n + 1 -> tables d' = <[(k, id0) := row0]> (tables d) -> numbered d' k sid (n + 1).
Proof.
  intros Hn (H1 & H2 & H3) Hfresh Hrun Hseq Ht. rewrite <- Hseq. split_and!; rewrite Ht.
  - intros i Hi. destruct (decide (i = n + 1)) as [->|Hne].
    + exists id0, row0. by rewrite lookup_insert_eq.
    + destruct (H1 i) as (id & row & Hr & ?); [lia|]. exists id, row. rewrite lookup_insert_ne; [done|].
      intros [= <-]. congruence.
  - intros id row Hr Hrow. apply lookup_insert_Some in Hr as [[[= <-] <-]|[_ Hr]]; [lia|].
    specialize (H2 _ _ Hr Hrow). lia.
  - intros id id' row row' Hr Hr' Ha Hb Hs.
    apply lookup_insert_Some in Hr as [[Hi Hi']|[Hi Hr]];
      apply lookup_insert_Some in Hr' as [[Hj Hj']|[Hj Hr']].
    + congruence.
    + specialize (H2 _ _ Hr' Hb). subst row. lia.
    + specialize (H2 _ _ Hr Ha). subst row'. lia.
    + by eapply (H3 id id' row row').
Qed.

(** A row keeps its owner and its number. *)
Lemma numbered_replace d d' k sid n id0 row row' :
  numbered d k sid n -> tables d !! (k, id0) = Some row -> row_run_id row' = row_run_id row ->
  row_sequence row' = row_sequence row -> tables d' = <[(k, id0) := row']> (tables d) ->
  numbered d' k sid n.
Proof.
  intros (H1 & H2 & H3) Hrow Hrun Hseq Ht.
  assert (Hback : forall id r, tables d' !! (k, id) = Some r -> exists r0, tables d !! (k, id) = Some r0
    /\ row_run_id r = row_run_id r0 /\ row_sequence r = row_sequence r0).
  { intros id r Hr. rewrite Ht in Hr. apply lookup_insert_Some in Hr as [[[= <-] <-]|[_ Hr]]; eauto. }
  split_and!.
  - intros i Hi. destruct (H1 i Hi) as (id & r & Hr & Hrr & Hs). rewrite Ht.
    destruct (decide (id = id0)) as [->|Hne].
    + exists id0, row'. rewrite lookup_insert_eq. split; [done|]. split; congruence.
    + exists id, r. rewrite lookup_insert_ne by congruence. done.
  - intros id r Hr Hrr. destruct (Hback _ _ Hr) as (r0 & Hr0 & Ha & ->). apply (H2 id); [done|congruence].
  - intros id id' r r' Hr Hr' Ha Hb Hs. destruct (Hback _ _ Hr) as (r0 & Hr0 & Hx & Hy).
    destruct (Hback _ _ Hr') as (r0' & Hr0' & Hx' & Hy').
    apply (H3 id id' r0 r0'); [done|done|congruence..].
Qed.

Lemma has_session_insert d d' k0 id0 row0 sid :
  k0 <> KAgentSession -> tables d' = <[(k0, id0) := row0]> (tables d) -> has_session d sid <-> has_session d' sid.
Proof. intros Hk Ht. unfold has_session. rewrite Ht, lookup_insert_ne; [done|]. by intros [= ->]. Qed.

Lemma others_insert d d' k0 id0 row0 sid :
  k0 <> KAgentSession -> row_run_id row0 = sid -> tables d' = <[(k0, id0) := row0]> (tables d) ->
  (forall old, tables d !! (k0, id0) = Some old -> row_run_id old = sid) ->
  (forall sid' row, sid' <> sid -> tables d !! (KAgentSession, sid') = Some row -> stored_ok d sid' row) ->
  forall sid' row, sid' <> sid -> tables d' !! (KAgentSession, sid') = Some row -> stored_ok d' sid' row.
Proof.
  intros Hk Hrun Ht Hold Ho sid' row Hne Hr. rewrite Ht, lookup_insert_ne in Hr by (by intros [= ->]).
  destruct (Ho _ _ Hne Hr) as (s & Hb & Hok). exists s. split; [done|].
  eapply sess_ok_frame; [|done]. by eapply insert_same_for.
Qed.

Lemma InvP_event sid s d d' id0 body :
  InvP sid s d -> next_sequence s <= i64_max -> tables d !! (KSessionEvent, id0) = None ->
  tables d' = <[(KSessionEvent, id0) := mkRow sid body (next_sequence s)]> (tables d) ->
  InvP sid (bump s) d'.
Proof.
  intros [[R1 R2 R3 R4 R5] Hh [Hwf Ht Ha He Hn] Ho] Hle Hfresh Hd'.
  assert (HS : forall x, has_session d x <-> has_session d' x)
    by (intros x; eapply has_session_insert; [|exact Hd']; done).
  assert (HT : forall k id, k <> KSessionEvent -> tables d' !! (k, id) = tables d !! (k, id)).
  { intros k id Hk. rewrite Hd', lookup_insert_ne; [done|]. congruence. }
  destruct Hwf as [W1 W2 W3 W4]. split.
  - split.
    + intros tid row. rewrite HT by done. intros Hr. destruct (R1 _ _ Hr). by rewrite <- HS.
    + intros id row Hr. rewrite <- HS. rewrite Hd' in Hr.
      apply lookup_insert_Some in Hr as [[_ <-]|[_ Hr]]; [done|by eapply R2].
    + intros id row. rewrite HT by done. rewrite <- HS. apply R3.
    + intros tid row Hf. rewrite HT by done. by apply R4.
    + intros tid row Hf. destruct (R5 _ _ Hf) as (row2 & ?). exists row2. by rewrite HT.
  - by apply HS.
  - split.
    + split; [done|rewrite next_bump; lia|done..].
    + intros tid row. rewrite HT by done. intros Hr Hrun. destruct (Ht _ _ Hr Hrun). by split.
    + rewrite HT by done. exact Ha.
    + rewrite next_bump. replace (next_sequence s + 1 - 1) with (next_sequence s - 1 + 1) by lia.
      eapply numbered_insert; [|done|done| | |done]; simpl; lia || done.
    + destruct Hn as (k & Hk0 & (K1 & K2 & K3) & Hg). exists k. split; [done|]. split.
      * split_and!.
        -- intros i Hi. destruct (K1 i Hi) as (id & row & Hr). exists id, row. by rewrite HT.
        -- intros id row. rewrite HT by done. apply K2.
        -- intros id id' row row'. rewrite !HT by done. apply K3.
      * intros gid row g. rewrite HT by done. intros Hr Hrun Hb. destruct (Hg _ _ _ Hr Hrun Hb) as [Hg1 Hg2].
        split; [done|]. intros tid trow. rewrite HT by done. apply Hg2.
  - eapply others_insert; [| |exact Hd'| |exact Ho]; [done..|]. intros old. by rewrite Hfresh.
Qed.

(** A new turn, numbered after the others. *)
Lemma InvP_new_turn sid s d d' tid body k :
  InvP sid s d -> numbered d KSessionTurn sid k -> 0 <= k -> tables d !! (KSessionTurn, tid) = None ->
  turn_ok tid (mkRow sid body (k + 1)) -> turn_state (mkRow sid body (k + 1)) = "queued"%string ->
  s_state s = "open"%string ->
  tables d' = <[(KSessionTurn, tid) := mkRow sid body (k + 1)]> (tables d) -> InvP sid s d'.
Proof.
  intros [[R1 R2 R3 R4 R5] Hh [Hwf Ht Ha He Hn] Ho] Hk Hk0 Hfresh Htok Hq Hopen Hd'.
  assert (HS : forall x, has_session d x <-> has_session d' x)
    by (intros x; eapply has_session_insert; [|exact Hd']; done).
  assert (HT : forall k id, k <> KSessionTurn -> tables d' !! (k, id) = tables d !! (k, id)).
  { intros k' id Hk'. rewrite Hd', lookup_insert_ne; [done|]. congruence. }
  split.
  - split.
    + intros id row Hr. rewrite <- HS. rewrite Hd' in Hr.
      apply lookup_insert_Some in Hr as [[[= <-] <-]|[_ Hr]]; [done|by apply R1].
    + intros id row. rewrite HT by done. rewrite <- HS. apply R2.
    + intros id row. rewrite HT by done. rewrite <- HS. apply R3.
    + intros id row Hf. destruct (R4 _ _ Hf) as [Hr Hfin]. split; [|done].
      rewrite Hd', lookup_insert_ne; [done|]. intros [= ->]. congruence.
    + intros id row Hf. destruct (R5 _ _ Hf) as (row2 & Hr & ?). exists row2. split; [|done].
      rewrite Hd', lookup_insert_ne; [done|]. intros [= ->]. congruence.
  - by apply HS.
  - split; [done| | | |].
    + intros id row Hr Hrun. rewrite Hd' in Hr.
      apply lookup_insert_Some in Hr as [[_ <-]|[_ Hr]]; [|by apply Ht].
      rewrite Hq. split; [done|done|by intros _].
    + intros Hne. destruct (Ha Hne) as (row & Hr & Hrun). exists row. split; [|done].
      rewrite Hd', lookup_insert_ne; [done|]. congruence.
    + destruct He as (E1 & E2 & E3). split_and!.
      * intros i Hi. destruct (E1 i Hi) as (id & row & Hr). exists id, row. by rewrite HT.
      * intros id row. rewrite HT by done. apply E2.
      * intros id id' row row'. rewrite !HT by done. apply E3.
    + exists (k + 1). split; [lia|]. split; [eapply (numbered_insert d d' KSessionTurn sid k tid); try exact Hd'; done|].
      destruct Hn as (k' & Hk0' & Hk' & Hg). intros gid row g. rewrite HT by done. intros Hr Hrun Hb.
      destruct (Hg _ _ _ Hr Hrun Hb) as [Hg1 Hg2].
      assert (k' = k) as -> by (by eapply numbered_fun). split; [lia|].
      intros id trow Htr. rewrite Hd' in Htr. apply lookup_insert_Some in Htr as [[_ <-]|[_ Htr]]; [|by eapply Hg2].
      simpl. lia.
  - eapply others_insert; [| |exact Hd'| |exact Ho]; [done..|]. intros old. by rewrite Hfresh.
Qed.

(** The body of an unfinished turn is replaced, together with the session in memory. *)
Lemma InvP_update sid s s' d d' tid row body :
  InvP sid s d -> tables d !! (KSessionTurn, tid) = Some row -> row_run_id row = sid -> ~ finished row ->
  let row' := row <| row_body := body |> in
  turn_ok tid row' -> same_request row' row -> session_wf s' -> next_sequence s' = next_sequence s ->
  turn_rel s' tid (turn_state row') ->
  (forall tid2 row2, tid2 <> tid -> tables d !! (KSessionTurn, tid2) = Some row2 -> row_run_id row2 = sid ->
     turn_rel s tid2 (turn_state row2) -> turn_rel s' tid2 (turn_state row2)) ->
  active_turn_id s' ∈ [""%string; active_turn_id s; tid] ->
  (active_run_id s' <> ""%string -> (active_turn_id s' = tid -> turn_state row' = "running"%string)
     /\ (active_turn_id s' <> tid -> active_run_id s <> ""%string)) ->
  tables d' = <[(KSessionTurn, tid) := row']> (tables d) -> InvP sid s' d'.
Proof.
  intros [[R1 R2 R3 R4 R5] Hh [Hwf Ht Ha He Hn] Ho] Hrow Hrun Hnf row' Htok Hreq Hwf' Hnext Hrel Hothers Hact Hact2 Hd'.
  assert (HS : forall x, has_session d x <-> has_session d' x)
    by (intros x; eapply has_session_insert; [|exact Hd']; done).
  assert (HT : forall k id, k <> KSessionTurn -> tables d' !! (k, id) = tables d !! (k, id)).
  { intros k' id Hk'. rewrite Hd', lookup_insert_ne; [done|]. congruence. }
  split.
  - split.
    + intros id row2 Hr. rewrite <- HS. rewrite Hd' in Hr.
      apply lookup_insert_Some in Hr as [[[= <-] <-]|[_ Hr]]; [|by apply R1].
      split; [done|]. destruct (R1 _ _ Hrow) as [_ H]. done.
    + intros id row2. rewrite HT by done. rewrite <- HS. apply R2.
    + intros id row2. rewrite HT by done. rewrite <- HS. apply R3.
    + intros id row2 Hf. destruct (R4 _ _ Hf) as [Hr Hfin]. split; [|done].
      rewrite Hd', lookup_insert_ne; [done|]. intros [= ->]. congruence.
    + intros id row2 Hf. destruct (R5 _ _ Hf) as (row3 & Hr & Hrr & Hq1 & Hq2). rewrite Hd'.
      destruct (decide (id = tid)) as [->|Hne].
      * exists row'. rewrite lookup_insert_eq. rewrite Hrow in Hr. injection Hr as <-. destruct Hreq.
        split; [done|]. split; [done|]. split; congruence.
      * exists row3. by rewrite lookup_insert_ne by congruence.
  - by apply HS.
  - split; [done| | | |].
    + intros id row2 Hr Hrun2. rewrite Hd' in Hr.
      apply lookup_insert_Some in Hr as [[[= <-] <-]|[Hne Hr]]; [done|].
      apply Hothers; [congruence|done..|]. by apply Ht.
    + intros Hne. rewrite Hd'. destruct (decide (active_turn_id s' = tid)) as [Heq|Hnt].
      { exists row'. rewrite Heq, lookup_insert_eq. split; [done|]. split; [done|]. intros Hne2. by apply Hact2. }
      rewrite lookup_insert_ne by congruence.
      assert (active_turn_id s' = active_turn_id s) as Heq by set_solver. rewrite Heq in *.
      destruct (Ha Hne) as (row2 & Hr2 & Hrun2 & Hst2). exists row2. split; [done|]. split; [done|].
      intros Hne2. by apply Hst2, Hact2.
    + rewrite Hnext. destruct He as (E1 & E2 & E3). split_and!.
      * intros i Hi. destruct (E1 i Hi) as (id & row2 & Hr). exists id, row2. by rewrite HT.
      * intros id row2. rewrite HT by done. apply E2.
      * intros id id' row2 row3. rewrite !HT by done. apply E3.
    + destruct Hn as (k & Hk0 & Hk & Hg). exists k. split; [done|].
      split; [by eapply (numbered_replace d d' KSessionTurn sid k tid row row')|].
      intros gid row2 g. rewrite HT by done. intros Hr Hrun2 Hb.
      destruct (Hg _ _ _ Hr Hrun2 Hb) as [Hg1 Hg2]. split; [done|].
      intros id trow Htr. rewrite Hd' in Htr. apply lookup_insert_Some in Htr as [[_ <-]|[_ Htr]]; [|by eapply Hg2].
      intros _ Hle. destruct Hnf. by eapply Hg2.
  - eapply others_insert; [| |exact Hd'| |exact Ho]; [done..|]. intros old. rewrite Hrow. congruence.
Qed.

(** The session in memory changes. *)
Lemma InvP_session sid s s' d :
  InvP sid s d -> session_wf s' -> next_sequence s' = next_sequence s ->
  (forall tid row, tables d !! (KSessionTurn, tid) = Some row -> row_run_id row = sid ->
     turn_rel s tid (turn_state row) -> turn_rel s' tid (turn_state row)) ->
  active_turn_id s' ∈ [""%string; active_turn_id s] ->
  (active_run_id s' <> ""%string -> active_run_id s <> ""%string) -> InvP sid s' d.
Proof.
  intros [R Hh [Hwf Ht Ha He Hn] Ho] Hwf' Hnext Hrel Hact Hact2. split; [done|done| |done].
  split; [done| | | |done].
  - intros tid row Hr Hrun. apply Hrel; [done..|]. by apply Ht.
  - intros Hne. assert (active_turn_id s' = active_turn_id s) as Heq by set_solver.
    rewrite Heq in *. destruct (Ha Hne) as (row & Hr & Hrun & Hst). exists row. auto.
  - by rewrite Hnext.
Qed.

(** A new context generation. *)
Lemma InvP_generation sid s d d' gid g n :
  InvP sid s d -> tables d !! (KSessionContextGeneration, gid) = None ->
  fits64 (generation g) -> fits64 (through_turn_sequence g) -> g_session_id g = sid ->
  (exists k, numbered d KSessionTurn sid k /\ 0 <= through_turn_sequence g <= k) ->
  (forall tid trow, tables d !! (KSessionTurn, tid) = Some trow -> row_run_id trow = sid ->
     row_sequence trow <= through_turn_sequence g -> finished trow) ->
  (forall g', generation_to_json g' = generation_to_json g ->
     through_turn_sequence g' = through_turn_sequence g) ->
  tables d' = <[(KSessionContextGeneration, gid) := mkRow sid (generation_to_json g) n]> (tables d) ->
  InvP sid s d'.
Proof.
  intros [[R1 R2 R3 R4 R5] Hh [Hwf Ht Ha He Hn] Ho] Hfresh Hfg Hft Hgs (k0 & Hk0 & Hthru) Hcov Hinj Hd'.
  assert (HS : forall x, has_session d x <-> has_session d' x)
    by (intros x; eapply has_session_insert; [|exact Hd']; done).
  assert (HT : forall k id, k <> KSessionContextGeneration -> tables d' !! (k, id) = tables d !! (k, id)).
  { intros k' id Hk'. rewrite Hd', lookup_insert_ne; [done|]. congruence. }
  assert (HN : forall k m, k <> KSessionContextGeneration -> numbered d k sid m -> numbered d' k sid m).
  { intros k m Hk (E1 & E2 & E3). split_and!.
    - intros i Hi. destruct (E1 i Hi) as (id & row2 & Hr). exists id, row2. by rewrite HT.
    - intros id row2. rewrite HT by done. apply E2.
    - intros id id' row2 row3. rewrite !HT by done. apply E3. }
  split.
  - split.
    + intros id row. rewrite HT by done. rewrite <- HS. apply R1.
    + intros id row. rewrite HT by done. rewrite <- HS. apply R2.
    + intros id row Hr. rewrite <- HS. rewrite Hd' in Hr.
      apply lookup_insert_Some in Hr as [[[= <-] <-]|[_ Hr]]; [|exact (R3 _ _ Hr)]. split; [done|]. by exists g.
    + intros id row Hf. rewrite HT by done. by apply R4.
    + intros id row Hf. destruct (R5 _ _ Hf) as (row2 & ?). exists row2. by rewrite HT.
  - by apply HS.
  - split; [done| | |by apply HN|].
    + intros id row. rewrite HT by done. apply Ht.
    + rewrite HT by done. exact Ha.
    + destruct Hn as (k & Hkp & Hk & Hg). exists k. split; [done|]. split; [by apply HN|].
      intros gid2 row g2 Hr Hrun2 Hb. rewrite Hd' in Hr.
      apply lookup_insert_Some in Hr as [[_ <-]|[_ Hr]].
      * simpl in Hb. symmetry in Hb. rewrite (Hinj _ Hb).
        assert (k0 = k) as <-; [eapply numbered_fun; [| |exact Hk0|exact Hk]; lia|].
        split; [lia|]. intros tid trow. rewrite HT by done. apply Hcov.
      * destruct (Hg _ _ _ Hr Hrun2 Hb) as [Hg1 Hg2]. split; [done|].
        intros tid trow. rewrite HT by done. apply Hg2.
  - eapply others_insert; [| |exact Hd'| |exact Ho]; [done..|]. intros old. by rewrite Hfresh.
Qed.

(** The session in memory is written back. *)
Lemma InvP_save sid s d d' row :
  InvP sid s d -> tables d !! (KAgentSession, sid) = Some row ->
  tables d' = <[(KAgentSession, sid) := row <| row_body := session_to_json s |>]> (tables d) -> Inv d'.
Proof.
  intros [[R1 R2 R3 R4 R5] Hh Hok Ho] Hrow Hd'.
  assert (HS : forall x, has_session d x -> has_session d' x).
  { intros x Hx. unfold has_session. rewrite Hd', lookup_insert_is_Some.
    destruct (decide (x = sid)) as [->|]; [by left|right]. split; [congruence|done]. }
  assert (HT : forall k id, k <> KAgentSession -> tables d' !! (k, id) = tables d !! (k, id)).
  { intros k' id Hk'. rewrite Hd', lookup_insert_ne; [done|]. congruence. }
  assert (HF : forall x, same_for x d d') by (intros x k id r _ Hk _; by rewrite HT).
  split.
  - split.
    + intros id r. rewrite HT by done. intros Hr. destruct (R1 _ _ Hr). auto.
    + intros id r. rewrite HT by done. intros Hr. eauto.
    + intros id r. rewrite HT by done. intros Hr. destruct (R3 _ _ Hr). auto.
    + intros id r Hf. rewrite HT by done. by apply R4.
    + intros id r Hf. destruct (R5 _ _ Hf) as (row2 & ?). exists row2. by rewrite HT.
  - intros sid' r Hr. rewrite Hd' in Hr. apply lookup_insert_Some in Hr as [[[= <-] <-]|[Hne Hr]].
    + exists s. split; [done|]. eapply sess_ok_frame; [apply HF|done].
    + destruct (Ho sid' r) as (s2 & Hb & Hok2); [congruence|done|].
      exists s2. split; [done|]. eapply sess_ok_frame; [apply HF|done].
Qed.
End Invariant.

(** ** JSON documents *)

Lemma member_set k v j k' : is_object j = true ->
  member (set_member k v j) k' = if String.eqb k k' then Some v else member j k'.
Proof.
  intros Hj. destruct (String.eqb_spec k k') as [->|Hne]; [|by apply member_set_ne].
  destruct j; try done. apply member_set_eq.
Qed.
Lemma member_erase k j k' :
  member (erase_member k j) k' = if String.eqb k k' then None else member j k'.
Proof.
  destruct (String.eqb_spec k k') as [->|Hne]; [apply member_erase_eq|by apply member_erase_ne].
Qed.
Lemma is_object_set_fields l : forall j, is_object j = true -> is_object (set_fields l j) = true.
Proof. induction l as [|kv l IH]; intros j Hj; [done|]. apply IH. by apply is_object_set. Qed.
Lemma member_set_fields l : forall j k, is_object j = true -> Forall (fun kv => kv.1 <> k) l ->
  member (set_fields l j) k = member j k.
Proof.
  induction l as [|kv l IH]; intros j k Hj Hl; [done|]. apply Forall_cons in Hl as [Hk Hl]. simpl.
  rewrite IH; [|by apply is_object_set|done]. by apply member_set_ne.
Qed.
Lemma is_object_erase_fields l : forall j, is_object (erase_fields l j) = is_object j.
Proof. induction l as [|k l IH]; intros j; [done|]. simpl. rewrite IH. apply is_object_erase. Qed.

(** Members of a document with a few fields assigned and erased. *)
Ltac members :=
  unfold set_fields, erase_fields, dispatch_fields; cbn [foldl fst snd];
  repeat (rewrite member_erase; cbn [String.eqb Ascii.eqb Bool.eqb]);
  repeat (rewrite member_set by (repeat apply is_object_set; done); cbn [String.eqb Ascii.eqb Bool.eqb]);
  try done.

(** A computation that only reads. *)
Ltac pure :=
  repeat first
    [ apply pure_ret | apply pure_throw | apply pure_guard | apply pure_lift | apply pure_select
    | apply pure_serialize | apply pure_bind; [|intros ?] | case_match
    | progress unfold value_str, value_u64, str_is, str_not, t_or, t_and, t_guard_t, t_json, t_dump_size,
        with_id, require_lease, bigint_parameter, other_turn, t_error, completion_event, lock_turn
    | by intros ? ? ? [= -> _] ].
(** The next statement of an operation; the second form is for one that only reads. *)
Ltac next H d a Ha := apply t_bind_ok in H as (d & a & Ha & H).
Ltac next_pure H a Ha :=
  let d := fresh "d" in
  apply t_bind_ok in H as (d & a & Ha & H);
  let E := fresh in
  lazymatch type of Ha with ?m ?d0 = _ =>
    assert (E : d = d0) by (refine ((_ : pure_t m) _ _ _ Ha); pure); subst d
  end.

Section Ops.
Context `{L : JsonLib} {HL : JsonLaws L}.

Lemma value_str_member j k v d : is_object j = true -> member j k = Some (JString v) ->
  value_str j k d = (d, TOk v).
Proof.
  intros Hj Hm. unfold value_str, t_lift, value_. destruct j as [| | | | | | |l]; try done.
  rewrite Hm. by rewrite dec_string_of.
Qed.
Lemma at_id_ok j v (d : DB) : member j "id" = Some (JString v) ->
  t_lift (at_ dec_string j "id") d = (d, TOk v).
Proof. intros Hm. unfold t_lift, at_. rewrite Hm. by rewrite dec_string_of. Qed.

Lemma turn_value_state tid row d : turn_ok tid row ->
  value_str (row_body row) "state" d = (d, TOk (turn_state row)).
Proof. intros [Ho _ _ _ Hs _ _ _ _]. by apply value_str_member. Qed.

(** *** Statements *)

Lemma insert_row_some k id run_id body n d d' u :
  insert_row k id run_id body (Some n) d = (d', TOk u) ->
  tables d !! (k, id) = None /\ tables d' = <[(k, id) := mkRow run_id body n]> (tables d).
Proof.
  unfold insert_row, mbind, t_bind, t_get, mret, t_ret. cbv beta iota.
  destruct (tables d !! (k, id)); [done|]. by intros [= <- _].
Qed.

Lemma alter_some k id row d (f : Row -> Row) :
  tables d !! (k, id) = Some row -> alter f (k, id) (tables d) = <[(k, id) := f row]> (tables d).
Proof.
  intros Hr. apply map_eq. intros x. destruct (decide (x = (k, id))) as [->|Hne].
  - by rewrite lookup_alter_eq, Hr, lookup_insert_eq.
  - by rewrite lookup_alter_ne, lookup_insert_ne by done.
Qed.

Lemma save_turn_ok tid body d d' u row :
  tables d !! (KSessionTurn, tid) = Some row -> save_turn tid body d = (d', TOk u) ->
  tables d' = <[(KSessionTurn, tid) := row <| row_body := body |>]> (tables d).
Proof.
  intros Hr Hs. unfold save_turn in Hs. next_pure Hs x Hx. unfold update_body, t_modify in Hs.
  injection Hs as <- _. simpl. by apply (alter_some KSessionTurn tid row d).
Qed.

Lemma insert_event_ok sid ev seq d d' u :
  insert_event sid ev seq d = (d', TOk u) ->
  seq <= i64_max /\ exists id, tables d !! (KSessionEvent, id) = None
    /\ tables d' = <[(KSessionEvent, id) := mkRow sid ev seq]> (tables d).
Proof.
  intros Hi. unfold insert_event in Hi. next_pure Hi eid Hid. next_pure Hi x Hx. next Hi d1 y Hy.
  apply bigint_parameter_ok in Hy as Hd. subst d1. apply insert_row_some in Hi as [Hn Ht].
  split; [|eauto]. unfold bigint_parameter in Hy. destruct (Z.ltb_spec i64_max seq); [done|lia].
Qed.

Section WithF.
Context (F : Watch).

Lemma event_step sid s d d' ev u :
  InvP F sid s d -> insert_event sid ev (next_sequence s) d = (d', TOk u) ->
  next_sequence s <= i64_max /\ InvP F sid (bump s) d'.
Proof.
  intros HI Hi. apply insert_event_ok in Hi as (Hle & id & Hn & Ht). split; [done|].
  by eapply InvP_event.
Qed.

Lemma save_session_step sid s d d' u :
  InvP F sid s d -> save_session sid s d = (d', TOk u) -> Inv F d'.
Proof.
  intros HI Hs. destruct (ip_has _ _ _ _ HI) as [row Hrow]. unfold save_session in Hs. next_pure Hs x Hx.
  unfold update_body, t_modify in Hs. injection Hs as <- _.
  eapply InvP_save; [done|exact Hrow|]. simpl. by apply (alter_some KAgentSession sid row d).
Qed.

Lemma session_decode sid s d fresh now : sess_ok d sid s ->
  session_of_json fresh now (session_to_json s) = TOk s.
Proof.
  intros [[_ Hn Hg _] _ _ _ _]. apply session_roundtrip; [|done]. unfold fits64, u64_max, i64_max in *. lia.
Qed.

Lemma lock_session_step fresh now sid d d' s :
  Inv F d -> lock_session fresh now sid d = (d', TOk s) -> d' = d /\ InvP F sid s d.
Proof.
  intros HI Hl. unfold lock_session in Hl. next_pure Hl o Ho.
  injection Ho as Ho. subst o. destruct (tables d !! (KAgentSession, sid)) as [row|] eqn:Hrow; [|done].
  destruct HI as [HR HS]. destruct (HS _ _ Hrow) as (s0 & Hb & Hok). rewrite Hb in Hl.
  unfold t_lift in Hl. rewrite (session_decode _ _ _ _ _ Hok) in Hl. injection Hl as <- <-.
  split; [done|]. split; [done| |done|]. { unfold has_session. by rewrite Hrow. }
  intros sid' row' _ Hr. by apply HS.
Qed.

(** *** Submitting a turn *)

Lemma max_sequence_spec l : 0 <= max_sequence l /\ (forall kv, kv ∈ l -> row_sequence kv.2 <= max_sequence l)
  /\ (max_sequence l = 0 \/ exists kv, kv ∈ l /\ row_sequence kv.2 = max_sequence l).
Proof.
  induction l as [|kv l (H1 & H2 & H3)]; simpl; [split_and!; [done|by intros ? ?%elem_of_nil|by left]|].
  split_and!; [lia| |].
  - intros kv' [->|Hin]%elem_of_cons; [lia|]. specialize (H2 _ Hin). lia.
  - destruct (Z.max_spec (row_sequence kv.2) (max_sequence l)) as [[_ ->]|[Hge ->]].
    + destruct H3 as [?|(kv' & Hin & ?)]; [by left|right]. exists kv'. split; [by right|done].
    + right. exists kv. split; [by left|done].
Qed.

Lemma max_numbered d k sid n : sid <> ""%string -> 0 <= n -> numbered d k sid n ->
  max_sequence (select_rows d k sid) = n.
Proof.
  intros Hsid Hn (H1 & H2 & _).
  destruct (max_sequence_spec (select_rows d k sid)) as (M1 & M2 & M3).
  assert (Hup : max_sequence (select_rows d k sid) <= n).
  { destruct M3 as [->|([x row] & Hin & Hs)]; [done|]. apply elem_of_select_rows in Hin as [Hr [?|Hrun]]; [done|].
    specialize (H2 _ _ Hr Hrun). simpl in Hs. lia. }
  destruct (decide (n = 0)); [lia|]. destruct (H1 n) as (x & row & Hr & Hrun & Hs); [lia|].
  assert (Hin : (x, row) ∈ select_rows d k sid) by (apply elem_of_select_rows; auto).
  specialize (M2 _ Hin). simpl in M2. lia.
Qed.

Lemma submitted_turn_ok tid sid n turn :
  is_object turn = true -> member turn "state" = Some (JString "queued") -> tid <> ""%string ->
  (exists key, member turn "idempotency_key" = Some (JString key)) -> (exists v, member turn "input" = Some v) ->
  let row := mkRow sid (set_fields [("id", JString tid); ("session_id", JString sid);
                                    ("sequence", JUnsigned n)]%string turn) n in
  turn_ok tid row /\ turn_state row = "queued"%string.
Proof.
  intros Ho Hs Ht (key & Hkey) (v & Hv) row.
  assert (Hst : member (row_body row) "state" = Some (JString "queued")) by (unfold row; simpl row_body; members).
  assert (Hq : turn_state row = "queued"%string) by (unfold turn_state; by rewrite Hst).
  split; [|done]. split; rewrite ?Hq; try done.
  - by apply is_object_set_fields.
  - unfold row; simpl row_body; members.
  - unfold row; simpl row_body; members.
  - unfold row; simpl row_body; members.
  - set_solver.
  - exists key. unfold row; simpl row_body; members.
  - exists v. unfold row; simpl row_body; members.
Qed.

(** A transaction either runs its body or leaves the tables alone. *)
Lemma store_tx_inv {A} failed (body : T A) d d' x :
  Inv F d -> (forall d2 a, body d = (d2, TOk a) -> Inv F d2) -> store_tx failed body d = (d', x) -> Inv F d'.
Proof.
  intros HI Hb Hx. unfold store_tx, transaction in Hx. destruct (body d) as [d2 [a|e]] eqn:E.
  - injection Hx as <- _. by eapply Hb.
  - injection Hx as <- _. eapply Inv_agree; [|done]. by apply agree_tables.
Qed.

(** The checks before the transaction. *)
Lemma m_bind_inv {A B} (m : M DB A) (f : A -> M DB B) d d' x :
  Inv F d -> (forall d1 r, m d = (d1, r) -> d1 = d) ->
  (forall a, m d = (d, Ok a) -> f a d = (d', x) -> Inv F d') -> m_bind m f d = (d', x) -> Inv F d'.
Proof.
  intros HI Hm Hf Hx. unfold m_bind in Hx. destruct (m d) as [d1 [a|e]] eqn:E;
    rewrite (Hm _ _ eq_refl) in *; [by eapply Hf|by injection Hx as <- _].
Qed.

Lemma m_lift_run {A} (v : res A) (d d1 : DB) r : m_lift v d = (d1, r) -> d1 = d.
Proof. unfold m_lift. congruence. Qed.
Lemma m_dump_size_run j d d1 r : m_dump_size j d = (d1, r) -> d1 = d.
Proof. unfold m_dump_size. congruence. Qed.

Lemma empty_str_false s : empty_str s = false -> s <> ""%string.
Proof. apply String.eqb_neq. Qed.
Lemma next_range sid s d : InvP F sid s d -> next_sequence s <= i64_max -> 0 <= next_sequence s <= i64_max.
Proof. intros HI Hle. destruct (sw_next _ (so_wf _ _ _ (ip_this _ _ _ _ HI))). lia. Qed.

Lemma touch_session sid s d now :
  InvP F sid s d -> InvP F sid (s <| s_updated_at := now |>) d.
Proof.
  intros HI. destruct (so_wf _ _ _ (ip_this _ _ _ _ HI)) as [W1 W2 W3 W4].
  eapply InvP_session; [done|by split|done| |set_solver|done]. intros tid row _ _ [T1 T2 T3]. by split.
Qed.

Lemma submit_inv fresh now sid tid turn event d d' x :
  Inv F d -> member turn "state" = Some (JString "queued") ->
  (exists key, member turn "idempotency_key" = Some (JString key)) ->
  submit_session_turn fresh now sid tid turn event d = (d', x) -> Inv F d'.
Proof.
  intros HI Hq Hkey Hs. unfold submit_session_turn in Hs.
  eapply m_bind_inv; [exact HI|apply m_guard_run| |exact Hs]. clear Hs. intros [] Hg Hs.
  apply m_guard_ok in Hg as [Hg _].
  rewrite !orb_false_iff in Hg. destruct Hg as ((((((Hsid & _) & Htid) & _) & Hobj) & Hin) & _).
  apply empty_str_false in Hsid, Htid. apply negb_false_iff in Hobj, Hin.
  assert (Hinput : exists v, member turn "input" = Some v)
    by (unfold contains in Hin; destruct (member turn "input"); [eauto|done]).
  eapply m_bind_inv; [exact HI|apply m_dump_size_run| |exact Hs]. clear Hs. intros ts _ Hs.
  eapply m_bind_inv; [exact HI|apply m_guard_run| |exact Hs]. clear Hs. intros [] _ Hs.
  eapply m_bind_inv; [exact HI|apply m_dump_size_run| |exact Hs]. clear Hs. intros es _ Hs.
  eapply m_bind_inv; [exact HI|apply m_guard_run| |exact Hs]. clear Hs. intros [] _ Hs.
  eapply store_tx_inv; [exact HI| |exact Hs]. clear Hs. intros d2 b Hb.
  next Hb d1 s Hl. apply lock_session_step in Hl as [-> HP]; [|done].
  next_pure Hb prior Hprior. injection Hprior as Hprior. subst prior.
  destruct (tables d !! (KSessionTurn, tid)) as [row|] eqn:Hrow.
  { next_pure Hb y Hy. by injection Hb as <- _. }
  next_pure Hb y Hy. apply t_guard_ok in Hy as [Hopen _]. apply negb_false_iff, String.eqb_eq in Hopen.
  next_pure Hb y2 Hy2. apply t_guard_ok in Hy2 as [Hle _]. apply Z.ltb_ge in Hle.
  next_pure Hb db Hdb. injection Hdb as <-.
  next_pure Hb y3 Hy3. next_pure Hb ev Hev. next_pure Hb inp Hinp. next_pure Hb esz Hesz.
  next_pure Hb y4 Hy4. next_pure Hb y5 Hy5. next Hb d3 y6 Hins. next Hb d4 y7 Hevt. next Hb d5 y8 Hsave.
  injection Hb as <- _. apply insert_row_some in Hins as [_ Hins].
  destruct (so_numbered _ _ _ (ip_this _ _ _ _ HP)) as (k & Hk0 & Hk & _).
  rewrite (max_numbered d KSessionTurn sid k) in Hins by done.
  destruct (submitted_turn_ok tid sid (k + 1) turn) as [Hok Hst]; [done..|].
  assert (HP3 : InvP F sid s d3) by (by eapply (InvP_new_turn F sid s d d3 tid _ k)).
  destruct (event_step sid s d3 d4 _ _ HP3 Hevt) as [_ HP4].
  eapply save_session_step; [|exact Hsave]. rewrite u64_succ_small by (by eapply next_range).
  apply (touch_session sid (bump s)). exact HP4.
Qed.

(** *** Claiming a turn *)

Definition known_state (st : string) : Prop :=
  st ∈ ["queued"; "claimed"; "running"; "succeeded"; "failed"; "cancelled"]%string.

(** A turn whose state is replaced and whose identity is kept. *)
Lemma turn_ok_update tid row body st :
  turn_ok tid row -> is_object body = true -> known_state st ->
  member body "id" = member (row_body row) "id" ->
  member body "session_id" = member (row_body row) "session_id" ->
  member body "sequence" = member (row_body row) "sequence" ->
  member body "idempotency_key" = member (row_body row) "idempotency_key" ->
  member body "input" = member (row_body row) "input" ->
  member body "state" = Some (JString st) ->
  turn_ok tid (row <| row_body := body |>) /\ turn_state (row <| row_body := body |>) = st
  /\ same_request (row <| row_body := body |>) row.
Proof.
  intros [O1 O2 O3 O4 O5 O6 O7 O8 O9] Ho Hk H1 H2 H3 H5 H6 H4.
  assert (Hst : turn_state (row <| row_body := body |>) = st) by (unfold turn_state; simpl; by rewrite H4).
  split; [|by split]. split; rewrite ?Hst; simpl; rewrite ?H5, ?H6; congruence || done.
Qed.

Lemma queued_turn_spec d sid body : sid <> ""%string -> queued_turn d sid = Some body ->
  exists tid row, tables d !! (KSessionTurn, tid) = Some row /\ row_run_id row = sid
    /\ row_body row = body /\ turn_state row = "queued"%string.
Proof.
  intros Hsid Hq. unfold queued_turn in Hq.
  destruct (filter _ _) as [|[tid row] l] eqn:Hf; [done|]. injection Hq as <-.
  assert (Hin : (tid, row) ∈ filter (fun kv => is_queued (row_body kv.2) = true) (select_rows d KSessionTurn sid))
    by (rewrite Hf; by left).
  apply list_elem_of_filter in Hin as [Hiq Hin]. apply elem_of_select_rows in Hin as [Hr [?|Hrun]]; [done|].
  exists tid, row. split_and!; try done. unfold is_queued in Hiq. unfold turn_state. simpl in Hiq.
  destruct (member (row_body row) "state") as [[]|]; try done. by apply String.eqb_eq in Hiq.
Qed.

Lemma str_not_state tid row v d d' b : turn_ok tid row ->
  str_not (row_body row) "state" v d = (d', TOk b) -> b = negb (String.eqb (turn_state row) v).
Proof.
  intros Hok Hs. unfold str_not in Hs. next Hs d1 a Ha. rewrite (turn_value_state tid) in Ha by done.
  injection Ha as <- <-. by injection Hs as <- <-.
Qed.

Lemma t_or_ok (a b : T bool) d d' r : t_or a b d = (d', TOk r) ->
  exists d1 x, a d = (d1, TOk x) /\ if x then r = true /\ d' = d1 else b d1 = (d', TOk r).
Proof.
  intros Ho. unfold t_or in Ho. next Ho d1 x Hx. exists d1, x. split; [done|].
  destruct x; [by injection Ho as <- <-|done].
Qed.

Lemma pick_turn_ok sid owner token s d d' o :
  InvP F sid s d -> sid <> ""%string -> pick_turn sid owner token s d = (d', TOk o) ->
  d' = d /\ match o with
            | Some (inr (turn, s')) => exists tid row, tables d !! (KSessionTurn, tid) = Some row
                /\ row_run_id row = sid /\ row_body row = turn /\ turn_ok tid row
                /\ ((turn_state row = "queued"%string /\ active_turn_id s = ""%string
                     /\ s' = s <| active_turn_id := tid |>)
                    \/ (turn_state row = "claimed"%string /\ active_turn_id s = tid /\ s' = s))
            | _ => True
            end.
Proof.
  intros HP Hsid Hp. unfold pick_turn in Hp. destruct (empty_str (active_turn_id s)) eqn:Hact; simpl in Hp.
  - next_pure Hp db Hdb. injection Hdb as <-.
    destruct (queued_turn d sid) as [turn|] eqn:Hq; [|by injection Hp as <- <-].
    destruct (queued_turn_spec _ _ _ Hsid Hq) as (tid & row & Hr & Hrun & Hb & Hst).
    destruct (ro_turn _ _ (ip_rows _ _ _ _ HP) _ _ Hr) as [Hok _].
    next_pure Hp i Hi. rewrite (at_id_ok turn tid) in Hi by (rewrite <- Hb; apply Hok). injection Hi as <-.
    injection Hp as <- <-. split; [done|]. exists tid, row. split_and!; try done.
    left. apply String.eqb_eq in Hact. done.
  - apply empty_str_false in Hact. destruct (so_active _ _ _ (ip_this _ _ _ _ HP) Hact) as (row & Hr & Hrun & _).
    destruct (ro_turn _ _ (ip_rows _ _ _ _ HP) _ _ Hr) as [Hok _].
    next_pure Hp o2 Ho2. injection Ho2 as <-. rewrite Hr in Hp. next_pure Hp po Hpo. next_pure Hp pf Hpf.
    next_pure Hp bound Hbound. destruct bound; [by injection Hp as <- <-|].
    destruct (_ && _) in Hp; [by injection Hp as <- <-|]. destruct (_ && _) in Hp; [by injection Hp as <- <-|].
    injection Hp as <- <-. split; [done|]. exists (active_turn_id s), row. split_and!; try done. right.
    apply t_or_ok in Hbound as (d1 & x & Hx & Hif). apply (str_not_state _ _ _ _ _ _ Hok) in Hx.
    destruct x; [by destruct Hif|]. symmetry in Hx. apply negb_false_iff, String.eqb_eq in Hx. done.
Qed.

(** No other turn of the session is claimed or running when the named one is the active one, or
    there is none. *)
Lemma others_idle sid s s' d tid tid2 row2 :
  InvP F sid s d -> active_turn_id s = tid \/ active_turn_id s = ""%string -> s_state s' = s_state s ->
  tid2 <> tid -> tables d !! (KSessionTurn, tid2) = Some row2 ->
  turn_rel s tid2 (turn_state row2) -> turn_rel s' tid2 (turn_state row2).
Proof.
  intros HP Hact Hst Hne Hr [T1 T2 T3].
  destruct (ro_turn _ _ (ip_rows _ _ _ _ HP) _ _ Hr) as [[_ _ _ _ _ _ _ _ Ht] _].
  split; intros Hs.
  - destruct (T1 Hs) as (_ & Ha & _). exfalso. naive_solver.
  - destruct (T2 Hs) as (_ & Ha & _). exfalso. naive_solver.
  - rewrite Hst. by apply T3.
Qed.

Lemma unfinished_state row st : turn_state row = st -> finished_name st = false -> ~ finished row.
Proof. intros <- Hf. unfold finished. congruence. Qed.

Lemma claim_turn_inv fresh now clock sid owner token expires event d d' x :
  Inv F d -> claim_next_session_turn fresh now clock sid owner token expires event d = (d', x) -> Inv F d'.
Proof.
  intros HI Hc. unfold claim_next_session_turn in Hc.
  eapply m_bind_inv; [exact HI|apply m_guard_run| |exact Hc]. clear Hc. intros [] Hg Hc.
  apply m_guard_ok in Hg as [Hg _]. rewrite !orb_false_iff in Hg. destruct Hg as ((Hsid & _) & _).
  apply empty_str_false in Hsid. eapply store_tx_inv; [exact HI| |exact Hc]. clear Hc. intros d2 r Hb.
  next_pure Hb y1 Hy1. next Hb d1 s Hl. apply lock_session_step in Hl as [-> HP]; [|done].
  destruct (String.eqb_spec (s_state s) "open") as [Hopen|]; simpl in Hb; [|by injection Hb as <- _].
  next Hb d1 picked Hpick. apply (pick_turn_ok sid) in Hpick as [-> Hpick]; [|done|done].
  destruct picked as [[turn|[turn s']]|]; [by injection Hb as <- _| |by injection Hb as <- _].
  destruct Hpick as (tid & row & Hr & Hrun & <- & Hok & Hcase). assert (Hob := to_object _ _ Hok).
  next_pure Hb i Hi. rewrite (at_id_ok _ tid) in Hi by apply Hok. injection Hi as <-.
  next_pure Hb att Hatt. next_pure Hb ev Hev. next Hb d3 y3 Hsave. next Hb d4 y4 Hevt. next Hb d5 y5 Hss.
  injection Hb as <- _. apply (save_turn_ok _ _ _ _ _ row) in Hsave; [|done].
  match type of Hsave with _ = <[_ := row <| row_body := ?b |>]> _ =>
    destruct (turn_ok_update tid row b "claimed") as (Hok' & Hst' & Hreq'); [done| | | | | | | | |] end.
  1: by repeat apply is_object_set.
  1: unfold known_state; set_solver.
  1-6: members.
  destruct (so_wf _ _ _ (ip_this _ _ _ _ HP)) as [W1 W2 W3 W4].
  destruct (so_turns _ _ _ (ip_this _ _ _ _ HP) _ _ Hr Hrun) as [T1 _ _].
  assert (Hnorun : active_run_id s = ""%string).
  { destruct Hcase as [(_ & Ha & _)|(Hc & _)]; [|by apply T1].
    destruct (decide (active_run_id s = ""%string)) as [|Hn]; [done|]. by apply W4 in Hn. }
  assert (Hs' : s' = s <| active_turn_id := tid |>).
  { destruct Hcase as [(_ & _ & ->)|(_ & <- & ->)]; [done|by destruct s]. }
  set (sA := s' <| dispatch_generation := u64_succ (dispatch_generation s') |>).
  assert (HPA : InvP F sid sA d3).
  { eapply (InvP_update F sid s sA d d3 tid row); try done.
    - destruct Hcase as [(Hc & _)|(Hc & _)]; by eapply unfinished_state.
    - subst sA s'. split; simpl; [done|done| |by intros ?].
      pose proof (Z.mod_pos_bound (dispatch_generation s + 1) 18446744073709551616).
      unfold u64_succ, u64, fits64, u64_max. lia.
    - by subst sA s'.
    - rewrite Hst'. subst sA s'. split; simpl; [|done..]. done.
    - intros tid2 row2 Hne Hr2 _. eapply others_idle; [done| |by subst sA s'|exact Hne|done].
      destruct Hcase as [(_ & ? & _)|(_ & ? & _)]; auto.
    - subst sA s'. simpl. set_solver.
    - by subst sA s'. }
  destruct (event_step sid sA d3 d4 _ _ HPA Hevt) as [Hle HPB].
  eapply save_session_step; [|exact Hss]. rewrite u64_succ_small by (by apply (next_range _ _ _ HPA)).
  exact (touch_session sid (bump sA) d4 now HPB).
Qed.

(** *** Binding a turn to a run *)

Lemma write_record_agree f n r d d' : session_kind (rc_kind r) = false ->
  write_record f n r d = (d', TOk tt) -> agree d d'.
Proof.
  intros Hk Hw. apply write_record_ok in Hw as (_ & _ & _ & _ & _ & _ & [(_ & -> & _)|(_ & seq & Ht & _)]); [done|].
  intros k id Hs. rewrite Ht, lookup_insert_ne; [done|]. intros [= <- _]. congruence.
Qed.
Lemma write_records_agree f n rs d d' :
  Forall (fun r => session_kind (rc_kind r) = false) rs -> write_records f n rs d = (d', TOk tt) -> agree d d'.
Proof.
  intros Hrs Hw. apply (write_records_ind f n (agree d) rs) with (db := d); [|done|done].
  intros r d1 d2 Hin Ha Hr. eapply agree_trans; [done|]. eapply write_record_agree; [|done].
  rewrite Forall_forall in Hrs. by apply Hrs.
Qed.
Lemma insert_row_agree k i run_id body seq d d' u : session_kind k = false ->
  insert_row k i run_id body seq d = (d', TOk u) -> agree d d'.
Proof.
  intros Hk Hi. apply insert_row_ok in Hi as (_ & n & Ht). intros k' id' Hs.
  rewrite Ht, lookup_insert_ne; [done|]. intros [= <- _]. congruence.
Qed.

Lemma pure_capture_all sid l : forall acc, pure_t (capture_all sid acc l).
Proof.
  induction l as [|kv l IH]; intros acc; simpl; [apply pure_ret|].
  apply pure_bind; [unfold capture_continuation; pure|]. intros a. apply IH.
Qed.
Lemma pure_context_snapshot fresh now run_id sid tid n : pure_t (context_snapshot fresh now run_id sid tid n).
Proof. unfold context_snapshot. pure. Qed.

(** What a test on the state of the turn has established. *)
Lemma guard_claimed tid row (s : AgentSession) (rest : T bool) d d' u msg :
  turn_ok tid row ->
  t_guard_t (t_or (mret (negb (String.eqb (s_state s) "open") || negb (String.eqb (active_turn_id s) tid)))
             (t_or (str_not (row_body row) "state" "claimed") rest)) Conflict msg d = (d', TOk u) ->
  s_state s = "open"%string /\ active_turn_id s = tid /\ turn_state row = "claimed"%string.
Proof.
  intros Hok Hg. unfold t_guard_t in Hg. next Hg d1 b Hb. apply t_guard_ok in Hg as [-> ->].
  apply t_or_ok in Hb as (d2 & x & Hx & Hif). injection Hx as <- <-.
  destruct (String.eqb_spec (s_state s) "open") as [Ho|]; simpl in Hif; [|by destruct Hif].
  destruct (String.eqb_spec (active_turn_id s) tid) as [Ha|]; simpl in Hif; [|by destruct Hif].
  apply t_or_ok in Hif as (d3 & x & Hx & Hif). apply (str_not_state _ _ _ _ _ _ Hok) in Hx.
  destruct x; [by destruct Hif|]. symmetry in Hx. by apply negb_false_iff, String.eqb_eq in Hx.
Qed.

Lemma lock_turn_ok tid d d' body : lock_turn tid d = (d', TOk body) ->
  d' = d /\ exists row, tables d !! (KSessionTurn, tid) = Some row /\ row_body row = body.
Proof.
  intros Hl. unfold lock_turn in Hl. next_pure Hl o Ho. injection Ho as <-.
  destruct (tables d !! (KSessionTurn, tid)) as [row|]; [|done]. injection Hl as <- <-. eauto.
Qed.

Lemma bind_turn_inv fresh fresh' now clock sid tid run run_event owner token event d d' x :
  Inv F d ->
  bind_session_turn_run fresh fresh' now clock sid tid run run_event owner token event d = (d', x) -> Inv F d'.
Proof.
  intros HI Hc. unfold bind_session_turn_run in Hc.
  eapply m_bind_inv; [exact HI|apply m_guard_run| |exact Hc]. clear Hc. intros [] _ Hc.
  eapply m_bind_inv; [exact HI|apply m_lift_run| |exact Hc]. clear Hc. intros rs _ Hc.
  eapply m_bind_inv; [exact HI|apply m_guard_run| |exact Hc]. clear Hc. intros [] _ Hc.
  eapply m_bind_inv; [exact HI|apply m_lift_run| |exact Hc]. clear Hc. intros rt _ Hc.
  eapply m_bind_inv; [exact HI|apply m_guard_run| |exact Hc]. clear Hc. intros [] _ Hc.
  eapply store_tx_inv; [exact HI| |exact Hc]. clear Hc. intros d2 r Hb.
  next_pure Hb y1 Hy1. next Hb d1 s Hl. apply lock_session_step in Hl as [-> HP]; [|done].
  next Hb d1 turn Hlt. apply lock_turn_ok in Hlt as (-> & row & Hr & <-).
  next_pure Hb tsid Htsid. next_pure Hb y2 Hy2. next_pure Hb already Halr.
  destruct already; [by injection Hb as <- _|].
  destruct (ro_turn _ _ (ip_rows _ _ _ _ HP) _ _ Hr) as [Hok _]. assert (Hob := to_object _ _ Hok).
  next_pure Hb y3 Hy3. apply (guard_claimed tid row) in Hy3 as (Hopen & Hact & Hst); [|done].
  rewrite (value_str_member _ _ (row_run_id row)) in Htsid by apply Hok. injection Htsid as <-.
  apply t_guard_ok in Hy2 as [Hrun _]. apply negb_false_iff, String.eqb_eq in Hrun.
  next_pure Hb rid Hrid. next_pure Hb ev Hev. next_pure Hb reid Hreid. next Hb d3 y4 Hw. destruct y4.
  assert (Hridne : rid <> ""%string).
  { unfold write_records in Hw. simpl in Hw. next Hw dx yx Hx. by apply write_record_ok in Hx as [? _]. }
  apply write_records_agree in Hw as Hag; [|by repeat constructor].
  next_pure Hb tseq Htseq. next Hb d4 snap Hsnap. apply pure_context_snapshot in Hsnap as ->.
  next_pure Hb db Hdb. injection Hdb as <-. next Hb d4 cap Hcap. apply pure_capture_all in Hcap as ->.
  next_pure Hb y5 Hy5. next Hb d5 y6 Hins. apply insert_row_agree in Hins as Hag2; [|done].
  next Hb d6 y7 Hsave. next Hb d7 y8 Hevt. next Hb d8 y9 Hss. injection Hb as <- _.
  assert (Hag5 : agree d d5) by (by eapply agree_trans).
  apply (InvP_agree F _ _ _ _ Hag5) in HP as HP5.
  assert (Hr5 : tables d5 !! (KSessionTurn, tid) = Some row) by (by rewrite Hag5).
  apply (save_turn_ok _ _ _ _ _ row) in Hsave; [|done].
  match type of Hsave with _ = <[_ := row <| row_body := ?b |>]> _ =>
    destruct (turn_ok_update tid row b "running") as (Hok' & Hst' & Hreq'); [done| | | | | | | | |] end.
  1: rewrite is_object_erase_fields; by repeat apply is_object_set.
  1: unfold known_state; set_solver.
  1-6: members.
  destruct (so_wf _ _ _ (ip_this _ _ _ _ HP)) as [W1 W2 W3 W4].
  set (sA := s <| active_run_id := rid |>).
  assert (HPA : InvP F sid sA d6).
  { eapply (InvP_update F sid s sA d5 d6 tid row); try done.
    - by eapply unfinished_state.
    - subst sA. split; simpl; [done..|]. intros _. rewrite Hact. apply Hok.
    - rewrite Hst'. subst sA. split; simpl; [done| |done]. intros _. rewrite Hopen. done.
    - intros tid2 row2 Hne Hr2 _. eapply others_idle; [exact HP5| |by subst sA|exact Hne|done]. by left.
    - subst sA. simpl. set_solver. }
  destruct (event_step sid sA d6 d7 _ _ HPA Hevt) as [Hle HPB].
  eapply save_session_step; [|exact Hss]. rewrite u64_succ_small by (by apply (next_range _ _ _ HPA)).
  exact (touch_session sid (bump sA) d7 now HPB).
Qed.

(** *** Context generations *)

Lemma InvP_back sid s d row :
  InvP F sid s d -> tables d !! (KAgentSession, sid) = Some row -> row_body row = session_to_json s -> Inv F d.
Proof.
  intros [R _ Ht Ho] Hr Hb. split; [done|]. intros sid' row' Hr'.
  destruct (decide (sid' = sid)) as [->|Hne]; [|by apply Ho]. rewrite Hr in Hr'. injection Hr' as <-.
  by exists s.
Qed.
Lemma InvP_of sid d row : Inv F d -> tables d !! (KAgentSession, sid) = Some row ->
  exists s, InvP F sid s d /\ row_body row = session_to_json s.
Proof.
  intros [R HS] Hr. destruct (HS _ _ Hr) as (s & Hb & Hok). exists s. split; [|done].
  split; [done|by eexists|done|]. intros sid' row' _. apply HS.
Qed.

Lemma check_history_ok l : forall seen d d' n,
  Forall (fun kv => turn_ok kv.1 kv.2) l -> check_history seen l d = (d', TOk n) ->
  n = seen + Z.of_nat (length l) /\ Forall (fun kv => finished kv.2) l
  /\ (l <> [] -> exists kv, kv ∈ l /\ row_sequence kv.2 = n).
Proof.
  induction l as [|kv l IH]; intros seen d d' n Hl Hc; simpl in Hc.
  { injection Hc as <- <-. split_and!; [simpl; lia|constructor|done]. }
  apply Forall_cons in Hl as [Hkv Hl]. next_pure Hc fi Hfin. unfold finished_turn in Hfin.
  next_pure Hfin st Hst. rewrite (turn_value_state kv.1) in Hst by done. injection Hst as <-.
  injection Hfin as Hfin. next_pure Hc y Hy. apply t_guard_ok in Hy as [Hy _].
  apply orb_false_iff in Hy as [Hseq Hf]. apply negb_false_iff in Hseq, Hf. apply Z.eqb_eq in Hseq. subst fi.
  destruct (IH _ _ _ _ Hl Hc) as (-> & Hall & Hlast). split_and!; [simpl length; lia|by constructor|].
  intros _. destruct l as [|kv2 l2].
  - exists kv. split; [by left|]. simpl. lia.
  - destruct Hlast as (x & Hin & Hx); [done|]. exists x. split; [by right|done].
Qed.

Lemma pure_check_history l : forall seen, pure_t (check_history seen l).
Proof.
  induction l as [|kv l IH]; intros seen; simpl; [apply pure_ret|].
  apply pure_bind; [unfold finished_turn; pure|]. intros fi. apply pure_bind; [apply pure_guard|].
  intros _. apply IH.
Qed.

Lemma generation_through g g' : generation_to_json g' = generation_to_json g ->
  through_turn_sequence g' = through_turn_sequence g.
Proof. intros Hg. apply (f_equal (fun j => member j "through_turn_sequence")) in Hg. by injection Hg. Qed.

(** The boundary that [check_history] accepts lies inside the history and covers finished turns. *)
Lemma history_covered sid s d through :
  InvP F sid s d -> sid <> ""%string ->
  check_history 0 (filter (fun kv => row_sequence kv.2 <= through) (select_rows d KSessionTurn sid)) d
    = (d, TOk through) ->
  (exists k, numbered d KSessionTurn sid k /\ 0 <= through <= k)
  /\ (forall tid trow, tables d !! (KSessionTurn, tid) = Some trow -> row_run_id trow = sid ->
        row_sequence trow <= through -> finished trow).
Proof.
  intros HP Hsid Hc.
  set (l := filter (fun kv => row_sequence kv.2 <= through) (select_rows d KSessionTurn sid)) in *.
  assert (Hin : forall tid row, (tid, row) ∈ l <->
    tables d !! (KSessionTurn, tid) = Some row /\ row_run_id row = sid /\ row_sequence row <= through).
  { intros tid row. unfold l. rewrite list_elem_of_filter, elem_of_select_rows. simpl. tauto. }
  assert (Hok : Forall (fun kv => turn_ok kv.1 kv.2) l).
  { apply Forall_forall. intros [tid row] Hx. apply Hin in Hx as (Hr & _).
    by apply (ro_turn _ _ (ip_rows _ _ _ _ HP)) in Hr as [? _]. }
  destruct (check_history_ok _ _ _ _ _ Hok Hc) as (Hn & Hfin & Hlast). split.
  - destruct (so_numbered _ _ _ (ip_this _ _ _ _ HP)) as (k & Hk0 & Hk & _). exists k. split; [done|].
    split; [lia|]. destruct (decide (l = [])) as [->|Hne]; [simpl in Hn; lia|].
    destruct (Hlast Hne) as ([tid row] & Hx & <-). apply Hin in Hx as (Hr & Hrun & _).
    destruct Hk as (_ & Hk & _). specialize (Hk _ _ Hr Hrun). simpl. lia.
  - intros tid trow Hr Hrun Hle. rewrite Forall_forall in Hfin.
    apply (Hfin (tid, trow)). by apply Hin.
Qed.

Lemma generation_inv fresh now sid expected through key kind vers payload d d' x :
  Inv F d -> create_session_context_generation fresh now sid expected through key kind vers payload d = (d', x) ->
  Inv F d'.
Proof.
  intros HI Hc. unfold create_session_context_generation in Hc.
  eapply m_bind_inv; [exact HI|apply m_guard_run| |exact Hc]. clear Hc. intros [] Hg Hc.
  apply m_guard_ok in Hg as [Hg _]. rewrite !orb_false_iff in Hg.
  destruct Hg as (((((((Hsid & _) & _) & _) & _) & _) & _) & _). apply empty_str_false in Hsid.
  eapply m_bind_inv; [exact HI|apply m_dump_size_run| |exact Hc]. clear Hc. intros psize _ Hc.
  eapply m_bind_inv; [exact HI|apply m_guard_run| |exact Hc]. clear Hc. intros [] Hg Hc.
  apply m_guard_ok in Hg as [Hg _]. apply orb_false_iff in Hg as [_ Hth]. apply Z.ltb_ge in Hth.
  eapply store_tx_inv; [exact HI| |exact Hc]. clear Hc. intros d2 r Hb.
  next_pure Hb o Ho. injection Ho as <-. destruct (tables d !! (KAgentSession, sid)) as [srow|] eqn:Hrow; [|done].
  destruct (InvP_of _ _ _ HI Hrow) as (s & HP & Hbody). next_pure Hb db Hdb. injection Hdb as <-.
  destruct (filter _ _) as [|kv l] eqn:Hflt.
  2: { next_pure Hb pr Hpr. next_pure Hb y Hy. by injection Hb as <- _. }
  next_pure Hb cbp Hcbp. destruct cbp as [[current boundary] pred]. next_pure Hb y1 Hy1. next_pure Hb y2 Hy2.
  next_pure Hb y3 Hy3. apply t_guard_ok in Hy3 as [Hy3 _]. apply Z.leb_gt in Hy3.
  assert (Hcur : 0 <= current).
  { destruct (last _) as [[gid grow]|] eqn:Hlast; [|by injection Hcbp as <- <- <-].
    next_pure Hcbp pr Hpr. injection Hcbp as <- <- <-. apply last_Some in Hlast as [l' Hl'].
    assert (Hin : (gid, grow) ∈ select_rows d KSessionContextGeneration sid) by (rewrite Hl'; set_solver).
    apply elem_of_select_rows in Hin as [Hgr _].
    destruct (ro_gen _ _ (inv_rows _ _ HI) _ _ Hgr) as (_ & g & Hg & Hf1 & Hf2 & _). simpl in Hpr.
    rewrite Hg in Hpr. unfold t_lift in Hpr. rewrite generation_roundtrip in Hpr by done.
    injection Hpr as <-. apply Hf1. }
  next Hb d3 seen Hseen. apply pure_check_history in Hseen as Hd3. subst d3.
  next_pure Hb y4 Hy4. apply t_guard_ok in Hy4 as [Hy4 _]. apply negb_false_iff, Z.eqb_eq in Hy4. subst seen.
  next_pure Hb y5 Hy5. next Hb d4 y6 Hins. injection Hb as <- _.
  destruct (history_covered sid s d through HP Hsid Hseen) as [Hk Hcov].
  assert (Hthr : 0 <= through) by (destruct Hk as (k & _ & ?); lia).
  apply insert_row_ok in Hins as (Hfresh & n & Ht).
  eapply (InvP_back sid s d4 srow); [|by rewrite Ht, lookup_insert_ne|done].
  refine (InvP_generation F sid s d d4 _ _ n HP Hfresh _ _ _ _ _ _ Ht); [| |done|exact Hk|exact Hcov|].
  - simpl. unfold fits64, u64_max, i64_max in *. lia.
  - simpl. unfold fits64, u64_max, i64_max in *. lia.
  - intros g'. apply generation_through.
Qed.

(** *** Completing the run of a turn *)

Lemma terminal_name_known st : known_state (terminal_name st) /\ finished_name (terminal_name st) = true.
Proof. unfold known_state. destruct st; simpl; split; set_solver || done. Qed.

Lemma guard_running tid row (s : AgentSession) rid sid st d d' u msg :
  turn_ok tid row ->
  t_guard_t (t_or (mret (negb (String.eqb (active_run_id s) rid) || negb (String.eqb (active_turn_id s) tid)))
            (t_or (str_not (row_body row) "session_id" sid)
            (t_or (str_not (row_body row) "run_id" rid) (mret (negb (String.eqb st "running")))))) Conflict msg d
    = (d', TOk u) ->
  active_turn_id s = tid /\ row_run_id row = sid /\ st = "running"%string.
Proof.
  intros Hok Hg. unfold t_guard_t in Hg. next Hg d1 b Hb. apply t_guard_ok in Hg as [-> ->].
  apply t_or_ok in Hb as (d2 & x & Hx & Hif). injection Hx as <- <-.
  destruct (String.eqb_spec (active_run_id s) rid) as [_|]; simpl in Hif; [|by destruct Hif].
  destruct (String.eqb_spec (active_turn_id s) tid) as [Ha|]; simpl in Hif; [|by destruct Hif].
  apply t_or_ok in Hif as (d3 & x & Hx & Hif). unfold str_not in Hx. next_pure Hx v Hv.
  rewrite (value_str_member _ _ (row_run_id row)) in Hv by apply Hok. injection Hv as <-. injection Hx as <- <-.
  destruct (String.eqb_spec (row_run_id row) sid) as [Hr|]; simpl in Hif; [|by destruct Hif].
  apply t_or_ok in Hif as (d4 & x & Hx & Hif). destruct x; [by destruct Hif|].
  injection Hif as _ Hs. by apply negb_false_iff, String.eqb_eq in Hs.
Qed.

(** A session without an active turn whose turns are all settled may close. *)
Lemma InvP_close sid s d :
  InvP F sid s d -> active_run_id s = ""%string ->
  (forall tid row, tables d !! (KSessionTurn, tid) = Some row -> row_run_id row = sid -> finished row) ->
  InvP F sid (s <| s_state := "closed"%string |>) d.
Proof.
  intros HP Hrun Hall. destruct (so_wf _ _ _ (ip_this _ _ _ _ HP)) as [W1 W2 W3 W4].
  eapply InvP_session; [done|split; simpl; try done; set_solver|done| |simpl; set_solver|done].
  intros tid row Hr Hsid _. specialize (Hall _ _ Hr Hsid). unfold finished in Hall.
  split; intros Hst; by rewrite Hst in Hall.
Qed.

Lemma settled sid s d tid row :
  InvP F sid s d -> s_state s <> "open"%string -> active_turn_id s = ""%string ->
  tables d !! (KSessionTurn, tid) = Some row -> row_run_id row = sid -> finished row.
Proof.
  intros HP Hst Hact Hr Hrun. destruct (so_turns _ _ _ (ip_this _ _ _ _ HP) _ _ Hr Hrun) as [T1 T2 T3].
  destruct (ro_turn _ _ (ip_rows _ _ _ _ HP) _ _ Hr) as [[_ _ _ _ _ Hk _ _ Ht] _]. unfold finished.
  repeat (apply elem_of_cons in Hk as [Hk|Hk]; [rewrite Hk in *|]); try done; exfalso.
  - by destruct Hst; apply T3.
  - destruct (T1 eq_refl) as (_ & Ha & _). congruence.
  - destruct (T2 eq_refl) as (_ & Ha & _). congruence.
  - by apply elem_of_nil in Hk.
Qed.

Lemma commit_run_inv fresh fresh' now clock records owner token event d d' x :
  Inv F d -> Forall (fun r => session_kind (rc_kind r) = false) records ->
  commit_session_run fresh fresh' now clock records owner token event d = (d', x) -> Inv F d'.
Proof.
  intros HI Hrecs Hc. unfold commit_session_run in Hc.
  eapply m_bind_inv; [exact HI|apply m_guard_run| |exact Hc]. clear Hc. intros [] _ Hc.
  destruct (find_run records) as [rc|]; [|by injection Hc as <- _].
  eapply m_bind_inv; [exact HI|apply m_lift_run| |exact Hc]. clear Hc. intros run _ Hc.
  eapply m_bind_inv; [exact HI|apply m_guard_run| |exact Hc]. clear Hc. intros [] _ Hc.
  eapply store_tx_inv; [exact HI| |exact Hc]. clear Hc. intros d2 r Hb.
  destruct (terminal_name_known (state run)) as [Hkn Hfn].
  remember (terminal_name (state run)) as final eqn:Hfinal. clear Hfinal.
  remember (session_id run) as sid. remember (session_turn_id run) as tid. remember (id run) as rid.
  next_pure Hb y1 Hy1. next Hb d1 s Hl. apply lock_session_step in Hl as [-> HP]; [|done].
  next Hb d1 turn Hlt. apply lock_turn_ok in Hlt as (-> & row & Hr & <-).
  destruct (ro_turn _ _ (ip_rows _ _ _ _ HP) _ _ Hr) as [Hok _]. assert (Hob := to_object _ _ Hok).
  next_pure Hb pst Hpst. rewrite (turn_value_state tid) in Hpst by done. injection Hpst as <-.
  next_pure Hb rep Hrep. destruct rep; [by injection Hb as <- _|].
  next_pure Hb y2 Hy2. apply (guard_running tid row) in Hy2 as (Hact & Hrun & Hst); [|done].
  next_pure Hb ev Hev. next_pure Hb ev2 Hev2. next Hb d3 y3 Hw. destruct y3.
  apply write_records_agree in Hw as Hag; [|done]. apply (InvP_agree F _ _ _ _ Hag) in HP as HP3.
  assert (Hr3 : tables d3 !! (KSessionTurn, tid) = Some row) by (by rewrite Hag).
  next Hb d4 y4 Hsave. next Hb d5 y5 Hevt. next Hb d6 s2 Hs2.
  remember (if String.eqb final "failed" then _ else _) as te eqn:Hte in Hsave. clear Hte.
  apply (save_turn_ok _ _ _ _ _ row) in Hsave; [|done].
  match type of Hsave with _ = <[_ := row <| row_body := ?b |>]> _ =>
    destruct (turn_ok_update tid row b final) as (Hok' & Hst' & Hreq'); [done| |done| | | | | | |] end.
  1: rewrite is_object_erase_fields; destruct te; by repeat apply is_object_set.
  1-6: destruct te; members.
  destruct (so_turns _ _ _ (ip_this _ _ _ _ HP) _ _ Hr Hrun) as [_ T2 _]. destruct (T2 Hst) as (Hncl & _ & _).
  destruct (so_wf _ _ _ (ip_this _ _ _ _ HP)) as [W1 W2 W3 W4].
  set (sA := (s <| active_turn_id := ""%string |>) <| active_run_id := ""%string |>).
  assert (HPA : InvP F sid sA d4).
  { eapply (InvP_update F sid s sA d3 d4 tid row); try done.
    - by eapply unfinished_state.
    - rewrite Hst'. split; intros ->; done.
    - intros tid2 row2 Hne Hr2 _. eapply others_idle; [exact HP3| |by subst sA|exact Hne|done]. by left.
    - subst sA. simpl. set_solver. }
  destruct (event_step sid sA d4 d5 _ _ HPA Hevt) as [Hle HPB].
  rewrite u64_succ_small in Hs2 by (by apply (next_range _ _ _ HPA)).
  assert (HPC := touch_session sid (bump sA) d5 now HPB). set (sC := (bump sA) <| s_updated_at := now |>) in *.
  change (String.eqb (s_state sC) "closing") with (String.eqb (s_state s) "closing") in *.
  match type of Hs2 with context [String.eqb ?a "closing"] => change a with (s_state s) in Hs2 end.
  destruct (String.eqb_spec (s_state s) "closing") as [Hcl|Hcl].
  - next_pure Hs2 y6 Hy6. next Hs2 d7 y7 Hevt2. injection Hs2 as <- <-.
    destruct (event_step sid sC d5 d7 _ _ HPC Hevt2) as [Hle2 HPD].
    eapply save_session_step; [|exact Hb].
    match goal with |- context [u64_succ ?z] => change z with (next_sequence sC) end.
    rewrite u64_succ_small by (by apply (next_range _ _ _ HPC)).
    refine (touch_session sid ((bump sC) <| s_state := "closed"%string |>) d7 now _).
    apply InvP_close; [done|done|]. intros tid2 row2 Hr2 Hrun2.
    eapply (settled sid (bump sC)); [done| |done|done|done]. subst sC sA. simpl. rewrite Hcl. done.
  - injection Hs2 as <- <-. eapply save_session_step; [exact HPC|exact Hb].
Qed.
End WithF.
End Ops.
