(* ===== verification/SessionClaims.v ===== *)
(** * Sessions: closing, reachability and the properties

    The last operation of the invariant of [SessionInv], [close_agent_session]; the step relation
    of the session store, in which any instance may run any operation; and the properties that
    follow for every database the program can reach. *)

From S2P Require Import Prelude Json Types Samples Text Db Coordination Codec Worker Store Rows Sessions SessionInv.

(** Closing assigns the final state of the session first and settles its turns afterwards: until
    they are settled the invariant holds of the session with its state still open. *)
Definition reopened (s : AgentSession) : AgentSession := s <| s_state := "open"%string |>.

Section Close.
Context `{L : JsonLib} {HL : JsonLaws L} (F : Watch).

Lemma append_event_step ids sid type tid rid payload nk s d d' s' :
  InvP F sid (reopened s) d -> append_event ids sid type tid rid payload nk s d = (d', TOk s') ->
  s' = bump s /\ InvP F sid (reopened s') d' /\
  forall x, tables d' !! (KSessionTurn, x) = tables d !! (KSessionTurn, x).
Proof.
  intros HP Ha. unfold append_event in Ha. next Ha d1 y Hy. apply t_guard_ok in Hy as [Hle ->].
  apply Z.ltb_ge in Hle. next Ha d2 y2 Hev. injection Ha as <- <-.
  rewrite u64_succ_small by (by apply (next_range F sid (reopened s) d)).
  split; [done|]. split.
  - by destruct (event_step F sid (reopened s) d d2 _ _ HP Hev) as [_ HB].
  - intros x. apply insert_event_ok in Hev as (_ & eid & _ & Ht). rewrite Ht, lookup_insert_ne; done.
Qed.

(** A queued or claimed turn is cancelled. *)
Lemma persist_turn_step ids now sid tid row nk s d d' s' :
  InvP F sid (reopened s) d -> tables d !! (KSessionTurn, tid) = Some row -> row_run_id row = sid ->
  turn_state row = "queued"%string \/ turn_state row = "claimed"%string ->
  persist_turn ids now sid (row_body row) nk s d = (d', TOk s') ->
  s' = bump s /\ InvP F sid (reopened s') d' /\ exists row', finished row' /\
  forall x, tables d' !! (KSessionTurn, x) = if decide (x = tid) then Some row' else tables d !! (KSessionTurn, x).
Proof.
  intros HP Hr Hrun Hst Hp. destruct (ro_turn _ _ (ip_rows _ _ _ _ HP) _ _ Hr) as [Hok _].
  assert (Hob := to_object _ _ Hok). unfold persist_turn in Hp. next Hp d1 i Hi.
  rewrite (at_id_ok _ tid) in Hi by apply Hok. injection Hi as <- <-. next Hp d2 y Hsave.
  apply (save_turn_ok _ _ _ _ _ row) in Hsave; [|done].
  match type of Hsave with _ = <[_ := row <| row_body := ?b |>]> _ =>
    destruct (turn_ok_update tid row b "cancelled") as (Hok' & Hst' & Hreq'); [done| | | | | | | | |] end.
  1: rewrite is_object_erase_fields; by repeat apply is_object_set.
  1: unfold known_state; set_solver.
  1-6: members.
  assert (HP2 : InvP F sid (reopened s) d2).
  { eapply (InvP_update F sid (reopened s) (reopened s) d d2 tid row); try done.
    - destruct Hst as [Hst|Hst]; by eapply unfinished_state.
    - by apply (so_wf _ _ _ (ip_this _ _ _ _ HP)).
    - rewrite Hst'. split; done.
    - set_solver.
    - intros Hne. split; [|done]. intros Ha. exfalso.
      destruct (so_active _ _ _ (ip_this _ _ _ _ HP)) as (row2 & Hr2 & _ & Hs2).
      { rewrite Ha. apply Hok. }
      rewrite Ha, Hr in Hr2. injection Hr2 as <-. specialize (Hs2 Hne). destruct Hst; congruence. }
  destruct (append_event_step _ _ _ _ _ _ _ _ _ _ _ HP2 Hp) as (Hs' & HP' & Ht). split; [done|]. split; [done|].
  eexists. split; [unfold finished; by rewrite Hst'|]. intros x. rewrite Ht, Hsave. case_decide as Hx.
  - subst x. by rewrite lookup_insert_eq.
  - rewrite lookup_insert_ne by congruence. done.
Qed.

(** Open work of a session that is being closed. *)
Definition to_cancel (har : bool) (row : Row) : bool :=
  String.eqb (turn_state row) "queued" || (negb har && String.eqb (turn_state row) "claimed").

Lemma to_cancel_state har row : to_cancel har row = true ->
  turn_state row = "queued"%string \/ turn_state row = "claimed"%string.
Proof.
  unfold to_cancel. rewrite orb_true_iff, andb_true_iff, !String.eqb_eq. tauto.
Qed.
Lemma finished_not_cancel har row : finished row -> to_cancel har row = false.
Proof.
  unfold finished, to_cancel. intros Hf. destruct (String.eqb_spec (turn_state row) "queued") as [Hq|];
    [by rewrite Hq in Hf|]. destruct (String.eqb_spec (turn_state row) "claimed") as [Hq|];
    [by rewrite Hq in Hf|]. by rewrite andb_false_r.
Qed.

Lemma cancel_turns_step ids now sid har l : forall nk s d d' nk' s',
  InvP F sid (reopened s) d -> NoDup (l.*1) ->
  (forall tid row, (tid, row) ∈ l -> tables d !! (KSessionTurn, tid) = Some row /\ row_run_id row = sid) ->
  cancel_turns ids now sid har nk l s d = (d', TOk (nk', s')) ->
  InvP F sid (reopened s') d' /\ (exists n, s' = s <| next_sequence := n |>)
  /\ (forall tid row, tables d' !! (KSessionTurn, tid) = Some row -> tid ∈ l.*1 -> to_cancel har row = false)
  /\ (forall tid row, tables d' !! (KSessionTurn, tid) = Some row -> tid ∉ l.*1 ->
        tables d !! (KSessionTurn, tid) = Some row).
Proof.
  induction l as [|[tid row] l IH]; intros nk s d d' nk' s' HP Hnd Hl Hc; simpl in Hc.
  { injection Hc as <- <- <-. split; [done|]. split; [exists (next_sequence s); by destruct s|].
    split; [|done]. by intros ? ? _ ?%elem_of_nil. }
  rewrite fmap_cons in Hnd. apply NoDup_cons in Hnd as [Hnin Hnd]. destruct (Hl tid row) as [Hr Hrun]; [by left|].
  destruct (ro_turn _ _ (ip_rows _ _ _ _ HP) _ _ Hr) as [Hok _].
  next Hc d1 st Hst. rewrite (turn_value_state tid) in Hst by done. injection Hst as <- <-.
  fold (to_cancel har row) in Hc.
  assert (Hrest : forall t r, (t, r) ∈ l -> t <> tid).
  { intros t r Hin ->. apply Hnin, list_elem_of_fmap. by exists (tid, r). }
  destruct (to_cancel har row) eqn:Htc.
  - next Hc d1 s1 Hp.
    destruct (persist_turn_step _ _ _ tid _ _ _ _ _ _ HP Hr Hrun (to_cancel_state _ _ Htc) Hp)
      as (-> & HP1 & row' & Hfin & Ht).
    assert (Hl1 : forall t r, (t, r) ∈ l -> tables d1 !! (KSessionTurn, t) = Some r /\ row_run_id r = sid).
    { intros t r Hin. rewrite Ht, decide_False by (by eapply Hrest). apply Hl. by right. }
    destruct (IH _ _ _ _ _ _ HP1 Hnd Hl1 Hc) as (HP' & (n & ->) & Hdone & Hkeep).
    split; [done|]. split; [by exists n|]. split.
    + intros t r Htr [->|Hin]%elem_of_cons; [|by eapply Hdone]. simpl in *.
      apply Hkeep in Htr; [|done]. rewrite Ht, decide_True in Htr by done. injection Htr as <-.
      by apply finished_not_cancel.
    + intros t r Htr Hni. rewrite fmap_cons, not_elem_of_cons in Hni. destruct Hni as [Hne Hni].
      apply Hkeep in Htr; [|done]. by rewrite Ht, decide_False in Htr.
  - destruct (IH _ _ _ _ _ _ HP Hnd (fun t r Hin => Hl t r (list_elem_of_further _ _ _ Hin)) Hc)
      as (HP' & Hn & Hdone & Hkeep).
    split; [done|]. split; [done|]. split.
    + intros t r Htr [->|Hin]%elem_of_cons; [|by eapply Hdone]. simpl in *.
      apply Hkeep in Htr; [|done]. congruence.
    + intros t r Htr Hni. rewrite fmap_cons, not_elem_of_cons in Hni. destruct Hni. by apply Hkeep.
Qed.

Lemma close_active_step ids now sid har nk s d d' nk' s' :
  InvP F sid (reopened s) d -> har = negb (empty_str (active_run_id s)) ->
  close_active ids now sid har nk s d = (d', TOk (nk', s')) ->
  InvP F sid (reopened s') d' /\ s_state s' = s_state s /\ active_run_id s' = active_run_id s.
Proof.
  intros HP Hhar Hc. unfold close_active in Hc.
  destruct (empty_str (active_turn_id s)) eqn:Hact; [by injection Hc as <- <- <-|].
  apply empty_str_false in Hact.
  destruct (so_active _ _ _ (ip_this _ _ _ _ HP) Hact) as (row & Hr & Hrun & Hrunning). simpl in Hr.
  destruct (ro_turn _ _ (ip_rows _ _ _ _ HP) _ _ Hr) as [Hok _]. assert (Hob := to_object _ _ Hok).
  next_pure Hc o Ho. injection Ho as <-. rewrite Hr in Hc. destruct har.
  - symmetry in Hhar. apply negb_true_iff, empty_str_false in Hhar. specialize (Hrunning Hhar).
    next_pure Hc y Hy. next Hc d2 y2 Hsave. next Hc d3 s3 Hev. injection Hc as <- <- <-.
    apply (save_turn_ok _ _ _ _ _ row) in Hsave; [|done].
    destruct (turn_ok_update (active_turn_id s) row
      (set_member "cancellation_requested" (JBool true) (row_body row)) "running") as (Hok' & Hst' & Hreq'); [done| | | | | | | | |].
    1: by apply is_object_set.
    1: unfold known_state; set_solver.
    1-5: members.
    1: rewrite member_set by done; simpl; rewrite <- Hrunning; apply Hok.
    assert (HP2 : InvP F sid (reopened s) d2).
    { eapply (InvP_update F sid (reopened s) (reopened s) d d2 (active_turn_id s) row); try done.
      - by eapply unfinished_state.
      - by apply (so_wf _ _ _ (ip_this _ _ _ _ HP)).
      - rewrite Hst'. split; done.
      - set_solver. }
    destruct (append_event_step _ _ _ _ _ _ _ _ _ _ _ HP2 Hev) as (-> & HP' & _). done.
  - symmetry in Hhar. apply negb_false_iff, String.eqb_eq in Hhar. next Hc d2 p Hin. destruct p as [nk2 s2].
    injection Hc as <- <- <-.
    assert (H2 : InvP F sid (reopened s2) d2 /\ s_state s2 = s_state s /\ active_run_id s2 = active_run_id s
                 /\ forall t r, tables d2 !! (KSessionTurn, t) = Some r -> row_run_id r = sid ->
                      turn_state r <> "claimed"%string /\ turn_state r <> "running"%string).
    { next Hin d3 st Hst. rewrite (turn_value_state (active_turn_id s)) in Hst by done. injection Hst as <- <-.
      assert (Hothers : forall t r, tables d !! (KSessionTurn, t) = Some r -> row_run_id r = sid ->
        (turn_state r = "claimed"%string -> t = active_turn_id s) /\ turn_state r <> "running"%string).
      { intros t r Htr Hrr. destruct (so_turns _ _ _ (ip_this _ _ _ _ HP) _ _ Htr Hrr) as [T1 T2 _].
        split; [intros Hc; by destruct (T1 Hc) as (_ & <- & _)|]. intros Hc. by destruct (T2 Hc) as (_ & _ & []). }
      destruct (String.eqb_spec (turn_state row) "claimed") as [Hc|Hc]; simpl in Hin.
      - next Hin d3 s3 Hp. injection Hin as <- <- <-.
        destruct (persist_turn_step _ _ _ _ _ _ _ _ _ _ HP Hr Hrun (or_intror Hc) Hp) as (-> & HP1 & row' & Hfin & Ht).
        split; [done|]. split; [done|]. split; [done|]. intros t r. rewrite Ht. case_decide as Hd.
        + intros [= <-] _. unfold finished in Hfin. split; intros E; by rewrite E in Hfin.
        + intros Htr Hrr. destruct (Hothers _ _ Htr Hrr). split; auto.
      - assert (Hno : forall t r, tables d !! (KSessionTurn, t) = Some r -> row_run_id r = sid ->
                      turn_state r <> "claimed"%string /\ turn_state r <> "running"%string).
        { intros t r Htr Hrr. destruct (Hothers _ _ Htr Hrr) as [Ha Hb]. split; [|done]. intros E.
          specialize (Ha E). subst t. congruence. }
        destruct (String.eqb_spec (turn_state row) "queued") as [Hq|Hq]; simpl in Hin.
        + next Hin d3 s3 Hp. injection Hin as <- <- <-.
          destruct (persist_turn_step _ _ _ _ _ _ _ _ _ _ HP Hr Hrun (or_introl Hq) Hp) as (-> & HP1 & row' & Hfin & Ht).
          split; [done|]. split; [done|]. split; [done|]. intros t r. rewrite Ht. case_decide as Hd; [|apply Hno].
          intros [= <-] _. unfold finished in Hfin. split; intros E; by rewrite E in Hfin.
        + by injection Hin as <- <- <-. }
    destruct H2 as (HP2 & Hs2 & Hr2 & Hno). split; [|done].
    destruct (so_wf _ _ _ (ip_this _ _ _ _ HP2)) as [W1 W2 W3 W4].
    eapply InvP_session; [exact HP2| |done| |simpl; set_solver|done].
    + split; simpl; try done. simpl in W4. intros Hne. by rewrite Hr2 in Hne.
    + intros t r Htr Hrr [T1 T2 T3]. destruct (Hno _ _ Htr Hrr). by split.
Qed.

Lemma first_close_step ids now sid s d d' s' :
  InvP F sid s d -> sid <> ""%string -> s_state s = "open"%string ->
  first_close ids now sid s d = (d', TOk s') -> InvP F sid s' d'.
Proof.
  intros HP Hsid Hopen Hf. unfold first_close in Hf. cbv zeta in Hf.
  set (har := negb (empty_str (active_run_id s))) in *.
  set (s1 := (s <| s_state := _ |>) <| s_updated_at := now |>) in *.
  assert (HP1 : InvP F sid (reopened s1) d).
  { replace (reopened s1) with (s <| s_updated_at := now |>); [exact (touch_session F sid s d now HP)|].
    unfold reopened, s1. rewrite <- Hopen. by destruct s. }
  next Hf d2 s2 Hev. destruct (append_event_step _ _ _ _ _ _ _ _ _ _ _ HP1 Hev) as (-> & HP2 & _).
  next Hf d3 p Hact. destruct p as [nk3 s3].
  destruct (close_active_step _ _ _ _ _ _ _ _ _ _ HP2 eq_refl Hact) as (HP3 & Hst3 & Hrun3).
  next_pure Hf db Hdb. injection Hdb as <-. next Hf d4 p Hct. destruct p as [nk4 s4].
  apply cancel_turns_step in Hct as (HP4 & (n & Hs4) & Hdone & Hkeep); [|done|apply select_rows_nodup|].
  2: { intros tid row Hin. apply elem_of_select_rows in Hin as [Hr [?|Hrr]]; done. }
  assert (Hall : forall tid row, tables d4 !! (KSessionTurn, tid) = Some row -> row_run_id row = sid ->
    to_cancel har row = false /\ turn_rel (reopened s4) tid (turn_state row)).
  { intros tid row Hr Hrr. split; [|by apply (so_turns _ _ _ (ip_this _ _ _ _ HP4))].
    destruct (decide (tid ∈ (select_rows d3 KSessionTurn sid).*1)) as [Hin|Hni]; [by eapply Hdone|].
    exfalso. apply Hni, list_elem_of_fmap. exists (tid, row). split; [done|].
    apply elem_of_select_rows. split; [by apply Hkeep|by right]. }
  assert (Hstate : s_state s4 = if har then "closing"%string else "closed"%string) by (subst s4; exact Hst3).
  assert (Hrun4 : active_run_id s4 = active_run_id s) by (subst s4; exact Hrun3).
  destruct (so_wf _ _ _ (ip_this _ _ _ _ HP4)) as [W1 W2 W3 W4].
  destruct har eqn:Hhar.
  - injection Hf as <- <-. apply negb_true_iff, empty_str_false in Hhar.
    eapply InvP_session; [exact HP4| |done| |simpl; set_solver|done].
    + split; [rewrite Hstate; set_solver|done..].
    + intros tid row Hr Hrr [T1 T2 T3]. destruct (Hall _ _ Hr Hrr) as [Hc _].
      split; intros Hst; rewrite Hst in *.
      * destruct (T1 eq_refl) as (_ & _ & E). by rewrite <- Hrun4 in Hhar.
      * rewrite Hstate. by destruct (T2 eq_refl) as (_ & ?).
      * unfold to_cancel in Hc. by rewrite Hst in Hc.
  - apply negb_false_iff, String.eqb_eq in Hhar.
    assert (Hsame : s4 <| active_run_id := ""%string |> = s4) by (rewrite <- Hhar, <- Hrun4; by destruct s4).
    rewrite Hsame in Hf. destruct (append_event_step _ _ _ _ _ _ _ _ _ _ _ HP4 Hf) as (-> & HP5 & Ht).
    replace (bump s4) with ((reopened (bump s4)) <| s_state := "closed"%string |>)
      by (cbv iota in Hstate; rewrite <- Hstate; by destruct s4).
    apply InvP_close; [done|by rewrite <- Hhar, <- Hrun4|].
    intros tid row Hr Hrr. rewrite Ht in Hr. destruct (Hall _ _ Hr Hrr) as [Hc [_ T2 _]].
    destruct (ro_turn _ _ (ip_rows _ _ _ _ HP4) _ _ Hr) as [[_ _ _ _ _ Hk _ _ _] _].
    unfold to_cancel in Hc. unfold finished.
    repeat (apply elem_of_cons in Hk as [Hk|Hk]; [rewrite Hk in *|]); try done; exfalso.
    + destruct (T2 eq_refl) as (_ & _ & Hne). apply Hne. simpl. by rewrite Hrun4.
    + by apply elem_of_nil in Hk.
Qed.

Lemma close_inv ids now sid d d' x :
  Inv F d -> close_agent_session ids now sid d = (d', x) -> Inv F d'.
Proof.
  intros HI Hc. unfold close_agent_session in Hc.
  eapply m_bind_inv; [exact HI|apply m_guard_run| |exact Hc]. clear Hc. intros [] Hg Hc.
  apply m_guard_ok in Hg as [Hg _]. apply orb_false_iff in Hg as [Hsid _]. apply empty_str_false in Hsid.
  eapply store_tx_inv; [exact HI| |exact Hc]. clear Hc. intros d2 r Hb.
  next Hb d1 s Hl. apply (lock_session_step F) in Hl as [-> HP]; [|done].
  destruct (String.eqb_spec (s_state s) "closed") as [|Hncl]; [by injection Hb as <- _|].
  next Hb d3 s3 Hf. next Hb d4 y Hss. injection Hb as <- _. eapply save_session_step; [|exact Hss].
  refine (touch_session F sid s3 d3 now _). destruct (String.eqb_spec (s_state s) "closing") as [Hcl|Hncl2]; simpl in Hf.
  - by injection Hf as <- <-.
  - eapply first_close_step; [exact HP|done| |exact Hf].
    assert (Hst := sw_state _ (so_wf _ _ _ (ip_this _ _ _ _ HP))). set_solver.
Qed.

(** *** Creating a session, submitting through the service *)

Lemma create_inv fresh now pipeline d d' x :
  Inv F d -> tables d !! (KAgentSession, fresh) = None ->
  create_session fresh now pipeline d = (d', x) -> Inv F d'.
Proof.
  intros HI Hfresh Hc. unfold create_session, m_bind in Hc.
  destruct (commit _ _ _ d) as [d1 [u|e]] eqn:Hcm.
  2: { injection Hc as <- _. unfold commit in Hcm. eapply (store_tx_inv F); [done| |exact Hcm].
       intros d2 a Hd. unfold store_tx, transaction in Hcm. rewrite Hd in Hcm. done. }
  injection Hc as <- _. apply transaction_ok in Hcm. unfold write_records in Hcm. simpl in Hcm.
  next Hcm d2 y Hw. injection Hcm as <- <-. destruct y.
  apply write_record_ok in Hw as (_ & _ & _ & _ & _ & _ & [(Hk & _)|(_ & seq & Ht & _)]); [done|]. simpl in Ht.
  destruct HI as [[R1 R2 R3 R4 R5] HS].
  assert (HT : forall k i, k <> KAgentSession -> tables d2 !! (k, i) = tables d !! (k, i)).
  { intros k i Hk. rewrite Ht, lookup_insert_ne; [done|]. congruence. }
  assert (HH : forall y, has_session d y -> has_session d2 y /\ y <> fresh).
  { intros y Hy. unfold has_session in *. split; [|intros ->; rewrite Hfresh in Hy; by destruct Hy].
    rewrite Ht, lookup_insert_is_Some'. by right. }
  assert (HF : forall y, same_for y d d2) by (intros y k i r _ Hk _; by rewrite HT).
  split; [split|].
  - intros tid row. rewrite HT by done. intros Hr. destruct (R1 _ _ Hr) as [? Hh]. split; [done|]. by apply HH.
  - intros i row. rewrite HT by done. intros Hr. by apply HH, (R2 i).
  - intros i row. rewrite HT by done. intros Hr. destruct (R3 _ _ Hr) as [Hh ?]. split; [by apply HH|done].
  - intros tid row Hf. rewrite HT by done. by apply R4.
  - intros tid row Hf. destruct (R5 _ _ Hf) as (row2 & ?). exists row2. by rewrite HT.
  - intros sid row Hr. rewrite Ht in Hr. apply lookup_insert_Some in Hr as [[[= <-] <-]|[Hne Hr]].
    2: { destruct (HS _ _ Hr) as (s & Hb & Hok). exists s. split; [done|]. by eapply sess_ok_frame. }
    exists (new_session fresh now pipeline). split; [done|].
    assert (Hno : forall k i row, session_kind k = true -> k <> KAgentSession -> tables d2 !! (k, i) = Some row ->
      row_run_id row <> fresh).
    { intros k i row Hk Hka. rewrite HT by done. intros Hr.
      destruct k; try done; [destruct (R1 _ _ Hr) as [_ Hh]|assert (Hh := R2 _ _ Hr)|destruct (R3 _ _ Hr) as [Hh _]];
        by apply HH in Hh as [_ ?]. }
    assert (HN : forall k, session_kind k = true -> k <> KAgentSession -> numbered d2 k fresh 0).
    { intros k Hk Hka. split_and!; [intros; lia| |].
      - intros i row Hr Hrun. by destruct (Hno k i row).
      - intros i i2 row row2 Hr _ Hrun. by destruct (Hno k i row). }
    split; [| | |by apply HN|].
    + split; simpl; [set_solver|unfold i64_max; lia|unfold fits64, u64_max; lia|done].
    + intros tid row Hr Hrun. by destruct (Hno KSessionTurn tid row).
    + done.
    + exists 0. split; [done|]. split; [by apply HN|]. intros gid row g Hr Hrun.
      by destruct (Hno KSessionContextGeneration gid row).
Qed.

Lemma get_record_run k i d d' r : get_record k i d = (d', r) -> d' = d.
Proof.
  unfold get_record, store_tx, transaction, mbind, t_bind, select_row. cbv beta iota.
  destruct (tables d !! (k, i)); intros [= <- _]; [done|]. by destruct d.
Qed.

Lemma service_submit_inv fresh now sid key input event d d' x :
  Inv F d -> service_submit fresh now sid key input event d = (d', x) -> Inv F d'.
Proof.
  intros HI Hs. unfold service_submit in Hs.
  eapply m_bind_inv; [exact HI|apply m_guard_run| |exact Hs]. clear Hs. intros [] _ Hs.
  eapply m_bind_inv; [exact HI|apply m_dump_size_run| |exact Hs]. clear Hs. intros n _ Hs.
  eapply m_bind_inv; [exact HI|apply m_guard_run| |exact Hs]. clear Hs. intros [] _ Hs.
  eapply m_bind_inv; [exact HI|apply get_record_run| |exact Hs]. clear Hs. intros body _ Hs.
  eapply m_bind_inv; [exact HI|apply m_lift_run| |exact Hs]. clear Hs. intros s _ Hs.
  unfold m_bind in Hs. destruct (submit_session_turn _ _ _ _ _ _ d) as [d1 [b|e]] eqn:Hsub;
    apply (submit_inv F) in Hsub; try done; try (by eexists); [|by injection Hs as <- _].
  apply get_record_run in Hs. by subst.
Qed.
End Close.

(** ** Reachability

    One operation of one instance.  Sessions are created under fresh identifiers ([uuid()]) and
    only by [create_session]; turns are submitted by the service; every other write concerns
    records of other kinds. *)
Section Steps.
Context `{L : JsonLib} {HL : JsonLaws L}.

Definition not_session (records : list StoreRecord) : Prop :=
  Forall (fun r => session_kind (rc_kind r) = false) records.

Inductive session_step (db db' : DB) : Prop :=
  | st_create fresh now pipeline x : tables db !! (KAgentSession, fresh) = None ->
      create_session fresh now pipeline db = (db', x) -> session_step db db'
  | st_submit fresh now sid key input event x :
      service_submit fresh now sid key input event db = (db', x) -> session_step db db'
  | st_claim fresh now clock sid owner token expires event x :
      claim_next_session_turn fresh now clock sid owner token expires event db = (db', x) ->
      session_step db db'
  | st_bind fresh fresh' now clock sid tid run run_event owner token event x :
      bind_session_turn_run fresh fresh' now clock sid tid run run_event owner token event db = (db', x) ->
      session_step db db'
  | st_generation fresh now sid expected through key kind vers payload x :
      create_session_context_generation fresh now sid expected through key kind vers payload db = (db', x) ->
      session_step db db'
  | st_complete fresh fresh' now clock records owner token event x : not_session records ->
      commit_session_run fresh fresh' now clock records owner token event db = (db', x) -> session_step db db'
  | st_close ids now sid x : close_agent_session ids now sid db = (db', x) -> session_step db db'
  | st_commit fresh now records x : not_session records ->
      commit fresh now records db = (db', x) -> session_step db db'
  | st_owned fresh now clock records resource owner token x : not_session records ->
      commit_owned fresh now clock records resource owner token db = (db', x) -> session_step db db'
  | st_cancel now run_id x : request_cancellation now run_id db = (db', x) -> session_step db db'
  | st_other : tables db' = tables db -> session_step db db'.

Lemma step_inv F d d' : session_step d d' -> Inv F d -> Inv F d'.
Proof.
  intros Hs HI. destruct Hs as
    [fresh now pipeline x Hn Hs|fresh now sid key input event x Hs
    |fresh now clock sid owner token expires event x Hs
    |fresh fresh' now clock sid tid run run_event owner token event x Hs
    |fresh now sid expected through key kind vers payload x Hs
    |fresh fresh' now clock records owner token event x Hr Hs|ids now sid x Hs
    |fresh now records x Hr Hs|fresh now clock records resource owner token x Hr Hs|now run_id x Hs|Ht].
  - by eapply create_inv.
  - by eapply service_submit_inv.
  - by eapply claim_turn_inv.
  - by eapply bind_turn_inv.
  - by eapply generation_inv.
  - by eapply commit_run_inv.
  - by eapply close_inv.
  - eapply (store_tx_inv F); [done| |exact Hs]. intros d2 [] Hb. eapply Inv_agree; [|done].
    by eapply write_records_agree.
  - unfold commit_owned in Hs.
    eapply (m_bind_inv F); [exact HI|apply m_guard_run| |exact Hs]. clear Hs. intros [] _ Hs.
    eapply (store_tx_inv F); [done| |exact Hs]. clear Hs. intros d2 u Hb. destruct u.
    next_pure Hb y1 Hy1. next_pure Hb db Hdb. next_pure Hb y2 Hy2. eapply Inv_agree; [|done].
    by eapply write_records_agree.
  - unfold request_cancellation in Hs.
    eapply (m_bind_inv F); [exact HI|apply m_guard_run| |exact Hs]. clear Hs. intros [] _ Hs.
    eapply (store_tx_inv F); [done| |exact Hs]. clear Hs. intros d2 u Hb.
    next_pure Hb o Ho. destruct o as [row|]; [|done]. next_pure Hb run Hrun.
    destruct (terminal (state run)); [by injection Hb as <- _|]. next_pure Hb y Hy.
    unfold update_body, t_modify in Hb. injection Hb as <- _. eapply Inv_agree; [|done].
    intros k i Hk. simpl. rewrite lookup_alter_ne; [done|]. by intros [= <- _].
  - eapply Inv_agree; [|done]. by apply agree_tables.
Qed.

Lemma steps_inv F d d' : rtc session_step d d' -> Inv F d -> Inv F d'.
Proof. induction 1 as [|d1 d2 d3 H1 _ IH]; [done|]. intros HI. by eapply IH, step_inv. Qed.

(** Nothing is watched. *)
Definition no_watch : Watch := mkWatch (fun _ _ => False) (fun _ _ => False).

Lemma Inv_empty : Inv no_watch empty_db.
Proof. split; [split|]; done. Qed.

Lemma Inv_watch F d : Inv no_watch d ->
  (forall tid row, w_finished F tid row -> tables d !! (KSessionTurn, tid) = Some row /\ finished row) ->
  (forall tid row, w_request F tid row -> exists row', tables d !! (KSessionTurn, tid) = Some row'
     /\ row_run_id row' = row_run_id row /\ same_request row' row) -> Inv F d.
Proof. intros [[R1 R2 R3 _ _] HS] H1 H2. split; [by split|done]. Qed.

(** A database the program can reach. *)
Definition reachable (db : DB) : Prop := rtc session_step empty_db db.
Lemma reachable_inv db : reachable db -> Inv no_watch db.
Proof. intros Hr. eapply steps_inv; [done|]. apply Inv_empty. Qed.
End Steps.

(** ** What the invariant says *)

Definition stored_session (db : DB) (sid : string) (s : AgentSession) : Prop :=
  exists row, tables db !! (KAgentSession, sid) = Some row /\ row_body row = session_to_json s.

Lemma session_to_json_inj s s' : session_to_json s = session_to_json s' -> s = s'.
Proof.
  intros Hs. assert (Hm : forall k, member (session_to_json s) k = member (session_to_json s') k) by (by rewrite Hs).
  destruct s as [a1 a2 a3 a4 a5 a6 a7 a8 a9], s' as [b1 b2 b3 b4 b5 b6 b7 b8 b9].
  assert (H1 := Hm "id"%string); assert (H2 := Hm "pipeline_id"%string); assert (H3 := Hm "state"%string);
    assert (H4 := Hm "created_at"%string); assert (H5 := Hm "updated_at"%string);
    assert (H6 := Hm "active_turn_id"%string); assert (H7 := Hm "active_run_id"%string);
    assert (H8 := Hm "dispatch_generation"%string); assert (H9 := Hm "next_sequence"%string).
  clear Hm Hs. cbv in H1, H2, H3, H4, H5, H6, H7, H8, H9. congruence.
Qed.

Lemma stored_ok_of F d sid s : Inv F d -> stored_session d sid s -> sess_ok d sid s.
Proof.
  intros [_ HS] (row & Hr & Hb). destruct (HS _ _ Hr) as (s' & Hb' & Hok).
  by rewrite (session_to_json_inj s s') by congruence.
Qed.

Lemma seqZ_sorted m n : StronglySorted Z.le (seqZ m n).
Proof.
  remember (Z.to_nat n) as k eqn:Hk. revert m n Hk. induction k as [|k IH]; intros m n Hk.
  - rewrite seqZ_nil by lia. constructor.
  - rewrite seqZ_cons by lia. constructor; [apply IH; lia|]. apply Forall_forall.
    intros x Hx%elem_of_seqZ. lia.
Qed.

(** Rows numbered 1 to [n], read in order. *)
Lemma numbered_rows d k sid n : sid <> ""%string -> 0 <= n -> numbered d k sid n ->
  map (fun kv => row_sequence kv.2) (select_rows d k sid) = seqZ 1 n.
Proof.
  intros Hsid Hn (H1 & H2 & H3).
  assert (Hin : forall i, i ∈ map (fun kv => row_sequence kv.2) (select_rows d k sid) <-> i ∈ seqZ 1 n).
  { intros i. rewrite elem_of_seqZ. change (map ?f ?l) with (f <$> l). rewrite list_elem_of_fmap. split.
    - intros ([x row] & -> & Hr). apply elem_of_select_rows in Hr as [Hr [?|Hrun]]; [done|].
      specialize (H2 _ _ Hr Hrun). simpl. lia.
    - intros Hi. destruct (H1 i) as (x & row & Hr & Hrun & Hs); [lia|]. exists (x, row). split; [done|].
      apply elem_of_select_rows. auto. }
  apply (StronglySorted_unique Z.le).
  - assert (Hs := select_rows_sorted d k sid). clear Hin. induction Hs as [|kv l Hl IH Hkv]; [constructor|].
    simpl. constructor; [done|]. change (map ?f ?l) with (f <$> l). apply Forall_fmap.
    eapply Forall_impl; [done|]. done.
  - apply seqZ_sorted.
  - apply NoDup_Permutation; [|apply NoDup_seqZ|done]. apply NoDup_fmap_2_strong.
    + intros [x r] [y r'] Hx Hy Hs. apply elem_of_select_rows in Hx as [Hx [?|Hrx]]; [done|].
      apply elem_of_select_rows in Hy as [Hy [?|Hry]]; [done|]. simpl in Hs.
      assert (x = y) as -> by (by apply (H3 x y r r')). congruence.
    + eapply NoDup_fmap_1, select_rows_nodup.
Qed.

Lemma snapshot_ok `{L : JsonLib} {HL : JsonLaws L} fresh now db run_id sid tid row s :
  Inv no_watch db -> sid <> ""%string -> stored_session db sid s ->
  tables db !! (KSessionTurn, tid) = Some row -> row_run_id row = sid -> ~ finished row ->
  exists snap, context_snapshot fresh now run_id sid tid (row_sequence row) db = (db, TOk snap)
    /\ sn_run_id snap = run_id /\ sn_session_turn_id snap = tid
    /\ (context_through_turn_sequence snap < row_sequence row)
    /\ (forall t r, tables db !! (KSessionTurn, t) = Some r -> row_run_id r = sid ->
          row_sequence r <= context_through_turn_sequence snap -> finished r).
Proof.
  intros HI Hsid Hst Hr Hrun Hnf. assert (Hok := stored_ok_of _ _ _ _ HI Hst).
  destruct (so_numbered _ _ _ Hok) as (k & Hk0 & (_ & Hk & _) & Hg). assert (Hseq := Hk _ _ Hr Hrun).
  unfold context_snapshot, mbind, t_bind, t_get. cbv beta iota zeta.
  unfold latest_generation. destruct (last _) as [[gid grow]|] eqn:Hlast; simpl.
  - apply last_Some in Hlast as [l Hl].
    assert (Hin : (gid, grow) ∈ select_rows db KSessionContextGeneration sid) by (rewrite Hl; set_solver).
    apply elem_of_select_rows in Hin as [Hgr [?|Hgrun]]; [done|].
    destruct (ro_gen _ _ (inv_rows _ _ HI) _ _ Hgr) as (_ & g & Hgb & Hf1 & Hf2 & Hgs).
    destruct (Hg _ _ _ Hgr Hgrun Hgb) as [Hle Hcov].
    assert (Hlt : through_turn_sequence g < row_sequence row).
    { destruct (Z.lt_ge_cases (through_turn_sequence g) (row_sequence row)); [done|].
      destruct Hnf. by eapply Hcov. }
    rewrite Hgb. unfold t_lift. rewrite generation_roundtrip by done. rewrite Hgs, Hgrun, String.eqb_refl. simpl.
    destruct (Z.leb_spec (row_sequence row) (through_turn_sequence g)); [lia|]. simpl.
    eexists. split; [done|]. simpl. split; [done|]. split; [done|]. split; [lia|]. exact Hcov.
  - eexists. split; [done|]. simpl. split; [done|]. split; [done|]. split; [lia|].
    intros t r Htr Hrr Hle. specialize (Hk _ _ Htr Hrr). lia.
Qed.

(** ** Resubmission *)

Section Resubmit.
Context `{L : JsonLib} {HL : JsonLaws L}.

(** A document that prints within a limit. *)
Definition within (limit : Z) (j : Json) : Prop := exists t, dump j = Some t /\ size_of t <= limit.

(** Identifiers the operation accepts. *)
Definition good_names (sid key : string) : bool :=
  negb (empty_str key) && (size_of key <=? 512) && negb (empty_str sid) && (size_of sid <=? 128)
  && negb (empty_str (turn_name sid key)) && (size_of (turn_name sid key) <=? 256).

Lemma m_dump_within limit j db : within limit j ->
  exists n, m_dump_size j db = (db, Ok n) /\ (limit <? n) = false.
Proof.
  intros (t & Ht & Hle). unfold m_dump_size. rewrite Ht. exists (size_of t). split; [done|]. by apply Z.ltb_ge.
Qed.
Lemma m_bind_run {S A B} (m : M S A) (f : A -> M S B) s s' a : m s = (s', Ok a) -> m_bind m f s = f a s'.
Proof. intros Hm. unfold m_bind. by rewrite Hm. Qed.
Lemma m_guard_false {S} c code msg (s : S) : c = false -> m_guard c code msg s = (s, Ok tt).
Proof. by intros ->. Qed.
Lemma get_record_some k i row db : tables db !! (k, i) = Some row -> get_record k i db = (db, Ok (row_body row)).
Proof. intros Hr. unfold get_record, store_tx, transaction, mbind, t_bind, select_row. cbv beta iota. by rewrite Hr. Qed.
Lemma rollback_same db : rollback db db = db.
Proof. by destruct db. Qed.

Lemma other_turn_run sid key v tid row now pipeline input db :
  turn_ok tid row -> row_run_id row = sid -> member (row_body row) "idempotency_key" = Some (JString key) ->
  member (row_body row) "input" = Some v ->
  other_turn sid (row_body row) (service_turn now key pipeline input) db = (db, TOk (negb (json_eqb v input))).
Proof.
  intros Hok Hrun Hkey Hv. unfold other_turn, t_or, str_not, mbind, t_bind.
  rewrite (value_str_member _ "session_id" sid) by (rewrite <- ?Hrun; apply Hok). cbv beta iota.
  unfold mret, t_ret. rewrite String.eqb_refl. cbn [negb].
  rewrite (value_str_member (service_turn now key pipeline input) "idempotency_key" key) by done.
  cbv beta iota. rewrite (value_str_member _ "idempotency_key" key) by (done || apply Hok). cbv beta iota.
  rewrite String.eqb_refl. cbn [negb]. unfold t_lift, value_.
  assert (Hob := to_object _ _ Hok). destruct (row_body row) as [| | | | | | |l]; try done. rewrite Hv. done.
Qed.

Lemma resubmit_run f n sid key input ev db s row v :
  Inv no_watch db -> good_names sid key = true -> stored_session db sid s ->
  tables db !! (KSessionTurn, turn_name sid key) = Some row -> row_run_id row = sid ->
  member (row_body row) "idempotency_key" = Some (JString key) -> member (row_body row) "input" = Some v ->
  within mib input -> within mib (service_turn n key (s_pipeline_id s) input) -> within (2 * mib) ev ->
  service_submit f n sid key input ev db =
    (db, if json_eqb v input then Ok (row_body row)
         else Throw (err Conflict "Session turn idempotency key was reused")).
Proof.
  intros HI Hgood Hst Hr Hrun Hkey Hv Hwi Hwt Hwe.
  unfold good_names in Hgood. rewrite !andb_true_iff, !negb_true_iff, !Z.leb_le in Hgood.
  destruct Hgood as (((((Hk1 & Hk2) & Hs1) & Hs2) & Ht1) & Ht2).
  assert (Hok := stored_ok_of _ _ _ _ HI Hst). destruct Hst as (srow & Hsrow & Hsb).
  destruct (ro_turn _ _ (inv_rows _ _ HI) _ _ Hr) as [Htok _]. unfold service_submit.
  erewrite m_bind_run; [|apply m_guard_false; rewrite Hk1; simpl; apply Z.ltb_ge; lia].
  destruct (m_dump_within _ _ db Hwi) as (ni & Hni & Hli). rewrite (m_bind_run _ _ _ _ _ Hni).
  rewrite (m_bind_run _ _ _ _ _ (m_guard_false _ _ _ _ Hli)).
  rewrite (m_bind_run _ _ _ _ _ (get_record_some _ _ _ _ Hsrow)). rewrite Hsb.
  rewrite (session_decode _ _ _ f n Hok). rewrite (m_bind_run _ _ _ db s) by done.
  unfold m_bind at 1. unfold submit_session_turn.
  erewrite m_bind_run.
  2: { apply m_guard_false. rewrite Hs1, Ht1. simpl. rewrite !orb_false_r. apply orb_false_iff. split; apply Z.ltb_ge; lia. }
  destruct (m_dump_within _ _ db Hwt) as (nt & Hnt & Hlt). rewrite (m_bind_run _ _ _ _ _ Hnt).
  rewrite (m_bind_run _ _ _ _ _ (m_guard_false _ _ _ _ Hlt)).
  destruct (m_dump_within _ _ db Hwe) as (ne & Hne & Hle). rewrite (m_bind_run _ _ _ _ _ Hne).
  rewrite (m_bind_run _ _ _ _ _ (m_guard_false _ _ _ _ Hle)).
  unfold store_tx, transaction, lock_session, mbind, t_bind, select_row. cbv beta iota. rewrite Hsrow, Hsb.
  unfold t_lift at 1. rewrite (session_decode _ _ _ f n Hok). cbv beta iota. rewrite Hr.
  unfold t_guard_t, mbind, t_bind.
  rewrite (other_turn_run sid key v _ _ _ _ _ _ Htok Hrun Hkey Hv). cbv beta iota.
  destruct (json_eqb v input); simpl.
  - by apply get_record_some.
  - by rewrite rollback_same.
Qed.

(** What an accepted submission leaves behind. *)
Lemma submit_stored f n sid key input ev db db1 t :
  Inv no_watch db -> service_submit f n sid key input ev db = (db1, Ok t) ->
  good_names sid key = true /\ exists row, tables db1 !! (KSessionTurn, turn_name sid key) = Some row
    /\ row_body row = t /\ row_run_id row = sid /\ member t "idempotency_key" = Some (JString key).
Proof.
  intros HI Hs. assert (HI1 := service_submit_inv _ _ _ _ _ _ _ _ _ _ HI Hs). unfold service_submit in Hs.
  apply m_bind_ok in Hs as (d1 & [] & Hg & Hs). apply m_guard_ok in Hg as [Hg ->].
  apply orb_false_iff in Hg as [Hk1 Hk2]. apply m_bind_ok in Hs as (d2 & ni & Hd & Hs).
  apply m_dump_size_run in Hd as ->. apply m_bind_ok in Hs as (d3 & [] & Hd & Hs). apply m_guard_ok in Hd as [_ ->].
  apply m_bind_ok in Hs as (d4 & body & Hd & Hs). apply get_record_run in Hd as ->.
  apply m_bind_ok in Hs as (d5 & s & Hd & Hs). apply m_lift_run in Hd as ->.
  apply m_bind_ok in Hs as (d6 & b & Hsub & Hs).
  assert (Hrow : exists row, tables d6 !! (KSessionTurn, turn_name sid key) = Some row /\ row_body row = t /\ db1 = d6).
  { assert (Hdb := get_record_run _ _ _ _ _ Hs). subst db1. unfold get_record in Hs. apply transaction_ok in Hs.
    next_pure Hs o Ho. injection Ho as <-. destruct (tables d6 !! _) as [row|]; [|done].
    injection Hs as <-. eauto. }
  destruct Hrow as (row & Hr & Hb & ->). destruct (ro_turn _ _ (inv_rows _ _ HI1) _ _ Hr) as [Hok _].
  unfold submit_session_turn in Hsub. apply m_bind_ok in Hsub as (e1 & [] & Hg & Hsub).
  apply m_guard_ok in Hg as [Hg ->]. rewrite !orb_false_iff in Hg.
  destruct Hg as ((((((Hs1 & Hs2) & Ht1) & Ht2) & _) & _) & _). split.
  { unfold good_names. rewrite Hk1, Hs1, Ht1, !Z.leb_antisym, Hk2, Hs2, Ht2. done. }
  exists row. split; [done|]. split; [done|].
  apply m_bind_ok in Hsub as (e2 & n1 & Hd & Hsub). apply m_dump_size_run in Hd as ->.
  apply m_bind_ok in Hsub as (e3 & [] & Hd & Hsub). apply m_guard_ok in Hd as [_ ->].
  apply m_bind_ok in Hsub as (e4 & n2 & Hd & Hsub). apply m_dump_size_run in Hd as ->.
  apply m_bind_ok in Hsub as (e5 & [] & Hd & Hsub). apply m_guard_ok in Hd as [_ ->].
  apply transaction_ok in Hsub. next Hsub d1 s0 Hl. apply (lock_session_step no_watch) in Hl as [-> HP]; [|done].
  next_pure Hsub prior Hprior. injection Hprior as Hprior. subst prior.
  destruct (tables db !! (KSessionTurn, turn_name sid key)) as [row0|] eqn:Hrow0.
  - next_pure Hsub y Hy. injection Hsub as <- <-. rewrite Hrow0 in Hr. injection Hr as ->.
    unfold t_guard_t in Hy. next_pure Hy b0 Hother. apply t_guard_ok in Hy as [-> _].
    unfold other_turn in Hother. apply t_or_ok in Hother as (d7 & x & Hx & Hif).
    unfold str_not in Hx. next_pure Hx v Hv. rewrite (value_str_member _ _ (row_run_id row)) in Hv by apply Hok.
    injection Hv as <-. injection Hx as <- <-.
    destruct (String.eqb_spec (row_run_id row) sid) as [->|]; simpl in Hif; [|by destruct Hif].
    split; [done|]. apply t_or_ok in Hif as (d7 & x & Hx & Hif). destruct (to_key _ _ Hok) as (key' & Hkey').
    next_pure Hx k1 Hk. rewrite (value_str_member _ _ key) in Hk by done. injection Hk as <-.
    unfold str_not in Hx. next_pure Hx k2 Hk. rewrite (value_str_member _ _ key') in Hk by (done || apply Hok).
    injection Hk as Hk. injection Hx as <- <-.
    destruct (String.eqb_spec k2 key) as [->|]; simpl in Hif; [|by destruct Hif]. by rewrite <- Hb, Hkey', Hk.
  - next_pure Hsub y1 Hy1. next_pure Hsub y2 Hy2. next_pure Hsub d0 Hy3. next_pure Hsub y4 Hy4.
    next_pure Hsub y5 Hy5. next_pure Hsub y6 Hy6. next_pure Hsub y7 Hy7. next_pure Hsub y8 Hy8.
    next_pure Hsub y9 Hy9. next Hsub d8 y10 Hins. next Hsub d9 y11 Hevt. next Hsub d10 y12 Hss.
    injection Hsub as <- _. apply insert_row_some in Hins as [_ Ht8].
    apply insert_event_ok in Hevt as (_ & eid & _ & Ht9). unfold save_session in Hss. next_pure Hss y13 Hy13.
    unfold update_body, t_modify in Hss. injection Hss as <- _. simpl in Hr.
    rewrite lookup_alter_ne, Ht9, lookup_insert_ne, Ht8, lookup_insert_eq in Hr by done.
    injection Hr as <-. split; [done|]. rewrite <- Hb. simpl row_body. members.
Qed.
End Resubmit.

(** ** Properties *)

(** A session with a running turn and a queued one, and the same session after it was closed and
    its run was cancelled. *)
Definition sample_ids (n : nat) : string := match n with O => "x0" | 1%nat => "x1" | 2%nat => "x2" | _ => "x3" end.
Definition sample_created : DB := (@create_session strict_json "s1" "t0" "p" empty_db).1.
Definition sample_submitted : DB :=
  (@service_submit strict_json "e1" "t1" "s1" "key" (JString "hi") (JObject []) sample_created).1.
Definition sample_two : DB :=
  (@service_submit strict_json "e2" "t2" "s1" "key2" (JString "ho") (JObject []) sample_submitted).1.
Definition sample_claim_turn : DB :=
  (@claim_next_session_turn strict_json "e3" "t3" 0 "s1" "o" 0 "" (JObject []) sample_two).1.
Definition sample_turn : string := turn_name "s1" "key".
Definition sample_bound_run : Json :=
  mk_object [("id", JString "r1"); ("session_id", JString "s1"); ("session_turn_id", JString sample_turn)]%string.
Definition sample_bound : DB :=
  (@bind_session_turn_run strict_json "e4" "e5" "t4" 0 "s1" sample_turn sample_bound_run (JObject []) "o" 0
     (JObject []) sample_claim_turn).1.
Definition sample_closed : DB := (@close_agent_session strict_json sample_ids "t5" "s1" sample_claim_turn).1.

(** The session row of a database, decoded. *)
Definition session_at (db : DB) (sid : string) : AgentSession :=
  match tables db !! (KAgentSession, sid) with
  | Some row => match @session_of_json strict_json "" "" (row_body row) with TOk s => s | _ => new_session "" "" "" end
  | None => new_session "" "" ""
  end.
Definition turn_at (db : DB) (tid : string) : Row := default (mkRow "" JNull 0) (tables db !! (KSessionTurn, tid)).

Lemma sample_two_reachable : @reachable strict_json sample_two.
Proof.
  eapply rtc_l; [eapply (@st_create strict_json); [|apply surjective_pairing]; reflexivity|].
  eapply rtc_l; [eapply (@st_submit strict_json), surjective_pairing|].
  eapply rtc_once, (@st_submit strict_json), surjective_pairing.
Qed.
Lemma sample_claim_reachable : @reachable strict_json sample_claim_turn.
Proof.
  eapply rtc_r; [apply sample_two_reachable|]. eapply (@st_claim strict_json), surjective_pairing.
Qed.
Lemma sample_closed_reachable : @reachable strict_json sample_closed.
Proof.
  eapply rtc_r; [apply sample_claim_reachable|]. eapply (@st_close strict_json), surjective_pairing.
Qed.
Lemma sample_bound_reachable : @reachable strict_json sample_bound.
Proof.
  eapply rtc_r; [apply sample_claim_reachable|]. eapply (@st_bind strict_json), surjective_pairing.
Qed.

(** C25: The journal of a session has no gaps.  In every database the program can reach, by any
    interleaving of the operations of any instances and whether they succeed or throw, the events
    of a session carry exactly the sequence numbers 1 to [next_sequence - 1] and its turns exactly
    the numbers 1 to some [k], each once: a reader that pages by sequence number misses nothing. *)
Theorem session_journal_gap_free `{L : JsonLib} {HL : JsonLaws L} db sid s :
  reachable db -> sid <> ""%string -> stored_session db sid s ->
  map (fun kv => row_sequence kv.2) (select_rows db KSessionEvent sid) = seqZ 1 (next_sequence s - 1)
  /\ exists k, map (fun kv => row_sequence kv.2) (select_rows db KSessionTurn sid) = seqZ 1 k.
Proof.
  intros Hr Hsid Hst. destruct (stored_ok_of _ _ _ _ (reachable_inv _ Hr) Hst) as [Hwf _ _ He (k & Hk0 & Hk & _)].
  destruct (sw_next _ Hwf). split; [apply numbered_rows; [done|lia|done]|].
  exists k. by apply numbered_rows.
Qed.

Lemma session_journal_gap_free_witness :
  let db := sample_closed in
  map (fun kv => row_sequence kv.2) (select_rows db KSessionEvent "s1")
    = seqZ 1 (next_sequence (session_at db "s1") - 1)
  /\ exists k, map (fun kv => row_sequence kv.2) (select_rows db KSessionTurn "s1") = seqZ 1 k.
Proof.
  apply (@session_journal_gap_free strict_json _ sample_closed "s1" (session_at sample_closed "s1")).
  - apply sample_closed_reachable.
  - discriminate.
  - eexists. split; vm_compute; reflexivity.
Defined.

(** C24: One turn at a time.  In every reachable database, any two turns of a session that are
    claimed or running are the same turn, the session names it as its active turn, and its run is
    recorded exactly when the turn is running: two instances never execute turns of one session
    concurrently. *)
Theorem one_active_turn `{L : JsonLib} {HL : JsonLaws L} db sid s tid row :
  reachable db -> stored_session db sid s ->
  tables db !! (KSessionTurn, tid) = Some row -> row_run_id row = sid ->
  turn_state row = "claimed"%string \/ turn_state row = "running"%string ->
  active_turn_id s = tid
  /\ (active_run_id s = ""%string <-> turn_state row = "claimed"%string)
  /\ forall tid2 row2, tables db !! (KSessionTurn, tid2) = Some row2 -> row_run_id row2 = sid ->
       turn_state row2 = "claimed"%string \/ turn_state row2 = "running"%string -> tid2 = tid.
Proof.
  intros Hr Hst Hrow Hrun Hact. destruct (stored_ok_of _ _ _ _ (reachable_inv _ Hr) Hst) as [_ Ht _ _ _].
  assert (Hname : forall t r, tables db !! (KSessionTurn, t) = Some r -> row_run_id r = sid ->
    turn_state r = "claimed"%string \/ turn_state r = "running"%string ->
    active_turn_id s = t /\ (active_run_id s = ""%string <-> turn_state r = "claimed"%string)).
  { intros t r Htr Hrr Hs. destruct (Ht _ _ Htr Hrr) as [T1 T2 _]. destruct Hs as [Hs|Hs]; rewrite Hs.
    - destruct (T1 Hs) as (_ & ? & ?). done.
    - destruct (T2 Hs) as (_ & ? & ?). done. }
  destruct (Hname _ _ Hrow Hrun Hact) as [Ha Hb]. split; [done|]. split; [done|].
  intros t2 r2 Hr2 Hrr2 Hs2. destruct (Hname _ _ Hr2 Hrr2 Hs2). congruence.
Qed.

Lemma one_active_turn_witness :
  let s := session_at sample_bound "s1" in
  active_turn_id s = sample_turn
  /\ (active_run_id s = ""%string <-> turn_state (turn_at sample_bound sample_turn) = "claimed"%string)
  /\ forall tid2 row2, tables sample_bound !! (KSessionTurn, tid2) = Some row2 -> row_run_id row2 = "s1"%string ->
       turn_state row2 = "claimed"%string \/ turn_state row2 = "running"%string -> tid2 = sample_turn.
Proof.
  apply (@one_active_turn strict_json _ sample_bound "s1" (session_at sample_bound "s1") sample_turn
           (turn_at sample_bound sample_turn)).
  - apply sample_bound_reachable.
  - eexists. split; vm_compute; reflexivity.
  - vm_compute. reflexivity.
  - vm_compute. reflexivity.
  - right. vm_compute. reflexivity.
Defined.

(** A closed session is settled: in every reachable database every turn of a session whose
    state is [closed] has succeeded, failed or been cancelled, and a session that is [closing] has
    no turn left except the running one it names. *)
Theorem closed_session_settled `{L : JsonLib} {HL : JsonLaws L} db sid s tid row :
  reachable db -> stored_session db sid s -> s_state s <> "open"%string ->
  tables db !! (KSessionTurn, tid) = Some row -> row_run_id row = sid ->
  finished row \/ (s_state s = "closing"%string /\ turn_state row = "running"%string /\ active_turn_id s = tid).
Proof.
  intros Hr Hst Hno Hrow Hrun. assert (HI := reachable_inv _ Hr).
  destruct (stored_ok_of _ _ _ _ HI Hst) as [Hwf Ht _ _ _]. destruct (Ht _ _ Hrow Hrun) as [T1 T2 T3].
  destruct (ro_turn _ _ (inv_rows _ _ HI) _ _ Hrow) as [[_ _ _ _ _ Hk _ _ _] _]. unfold finished.
  repeat (apply elem_of_cons in Hk as [Hk|Hk]; [rewrite Hk in *|]); try (by left).
  - by destruct Hno; apply T3.
  - by destruct (T1 eq_refl).
  - right. destruct (T2 eq_refl) as (Hnc & Ha & _). split; [|done].
    assert (Hs := sw_state _ Hwf). set_solver.
  - by apply elem_of_nil in Hk.
Qed.

Lemma closed_session_settled_witness :
  finished (turn_at sample_closed sample_turn)
  \/ (s_state (session_at sample_closed "s1") = "closing"%string
      /\ turn_state (turn_at sample_closed sample_turn) = "running"%string
      /\ active_turn_id (session_at sample_closed "s1") = sample_turn).
Proof.
  apply (@closed_session_settled strict_json _ sample_closed "s1" (session_at sample_closed "s1") sample_turn
           (turn_at sample_closed sample_turn)).
  - apply sample_closed_reachable.
  - eexists. split; vm_compute; reflexivity.
  - vm_compute. discriminate.
  - vm_compute. reflexivity.
  - vm_compute. reflexivity.
Defined.

(** A finished turn is final: once a turn has succeeded, failed or been cancelled, no further
    sequence of operations changes its row. *)
Theorem finished_turn_final `{L : JsonLib} {HL : JsonLaws L} db db' tid row :
  reachable db -> rtc session_step db db' ->
  tables db !! (KSessionTurn, tid) = Some row -> finished row ->
  tables db' !! (KSessionTurn, tid) = Some row.
Proof.
  intros Hr Hs Hrow Hf.
  set (F := mkWatch (fun t r => t = tid /\ r = row) (fun _ _ => False)).
  assert (HF : Inv F db) by (apply Inv_watch; [by apply reachable_inv| |done]; by intros t r [-> ->]).
  apply (steps_inv F _ _ Hs) in HF. by apply (ro_kept _ _ (inv_rows _ _ HF)).
Qed.

Definition sample_after_close : DB := (@create_session strict_json "s2" "t9" "p" sample_closed).1.

Lemma finished_turn_final_witness :
  tables sample_after_close !! (KSessionTurn, sample_turn) = Some (turn_at sample_closed sample_turn).
Proof.
  apply (@finished_turn_final strict_json _ sample_closed sample_after_close sample_turn).
  - apply sample_closed_reachable.
  - eapply rtc_once, (@st_create strict_json); [|apply surjective_pairing]. vm_compute. reflexivity.
  - vm_compute. reflexivity.
  - vm_compute. reflexivity.
Defined.

(** C33: The context of a turn is its finished past.  For an unfinished turn of a reachable
    database the snapshot that [bind_session_turn_run] takes is always available (the conflict
    "Session context generation is ahead of this turn" never arises), its context generation ends
    strictly before the turn, and every turn it covers has finished. *)
Theorem snapshot_covers_finished_turns `{L : JsonLib} {HL : JsonLaws L} fresh now db run_id sid tid row s :
  reachable db -> sid <> ""%string -> stored_session db sid s ->
  tables db !! (KSessionTurn, tid) = Some row -> row_run_id row = sid -> ~ finished row ->
  exists snap, context_snapshot fresh now run_id sid tid (row_sequence row) db = (db, TOk snap)
    /\ sn_run_id snap = run_id /\ sn_session_turn_id snap = tid
    /\ (context_through_turn_sequence snap < row_sequence row)
    /\ (forall t r, tables db !! (KSessionTurn, t) = Some r -> row_run_id r = sid ->
          row_sequence r <= context_through_turn_sequence snap -> finished r).
Proof. intros Hr. by apply snapshot_ok, reachable_inv. Qed.

Lemma snapshot_covers_finished_turns_witness :
  let row := turn_at sample_claim_turn sample_turn in
  exists snap,
    @context_snapshot strict_json "f" "n" "r1" "s1" sample_turn (row_sequence row) sample_claim_turn
      = (sample_claim_turn, TOk snap)
    /\ sn_run_id snap = "r1"%string /\ sn_session_turn_id snap = sample_turn
    /\ (context_through_turn_sequence snap < row_sequence row)
    /\ (forall t r, tables sample_claim_turn !! (KSessionTurn, t) = Some r -> row_run_id r = "s1"%string ->
          row_sequence r <= context_through_turn_sequence snap -> finished r).
Proof.
  apply (@snapshot_covers_finished_turns strict_json _ "f" "n" sample_claim_turn "r1" "s1" sample_turn
           (turn_at sample_claim_turn sample_turn) (session_at sample_claim_turn "s1")).
  - apply sample_claim_reachable.
  - discriminate.
  - eexists. split; vm_compute; reflexivity.
  - vm_compute. reflexivity.
  - vm_compute. reflexivity.
  - vm_compute. discriminate.
Defined.

(** Submission is idempotent.  After a submission was accepted, at any later time and whatever
    happened in between, a submission under the same key changes nothing: with the same input it
    returns the stored turn, with another input it throws a conflict.  (The documents of the second
    call are within the size limits of the operation.) *)
Theorem resubmission `{L : JsonLib} {HL : JsonLaws L} f n sid key input ev db db1 t db2 f2 n2 input2 ev2 s :
  reachable db -> service_submit f n sid key input ev db = (db1, Ok t) -> rtc session_step db1 db2 ->
  stored_session db2 sid s -> within mib input2 ->
  within mib (service_turn n2 key (s_pipeline_id s) input2) -> within (2 * mib) ev2 ->
  exists v row, member t "input" = Some v /\ tables db2 !! (KSessionTurn, turn_name sid key) = Some row
    /\ service_submit f2 n2 sid key input2 ev2 db2 =
         (db2, if json_eqb v input2 then Ok (row_body row)
               else Throw (err Conflict "Session turn idempotency key was reused")).
Proof.
  intros Hr Hs Hsteps Hst Hw1 Hw2 Hw3. assert (HI := reachable_inv _ Hr).
  destruct (submit_stored _ _ _ _ _ _ _ _ _ HI Hs) as (Hgood & row1 & Hrow1 & Hb & Hrun & Hkey).
  assert (HI1 := service_submit_inv _ _ _ _ _ _ _ _ _ _ HI Hs).
  destruct (ro_turn _ _ (inv_rows _ _ HI1) _ _ Hrow1) as [Hok1 _]. destruct (to_input _ _ Hok1) as (v & Hv).
  set (F := mkWatch (fun _ _ => False) (fun t r => t = turn_name sid key /\ r = row1)).
  assert (HF : Inv F db1) by (apply Inv_watch; [done|done|]; intros t0 r [-> ->]; by exists row1).
  apply (steps_inv F _ _ Hsteps) in HF.
  destruct (ro_request _ _ (inv_rows _ _ HF) (turn_name sid key) row1) as (row & Hrow & Hrr & Hq1 & Hq2); [done|].
  exists v, row. rewrite <- Hb. split; [done|]. split; [done|].
  apply (resubmit_run f2 n2 sid key input2 ev2 db2 s row v); try done.
  - by eapply steps_inv.
  - congruence.
  - rewrite Hq1, Hb. done.
  - by rewrite Hq2.
Qed.

Lemma resubmission_witness :
  exists v row, member (row_body (turn_at sample_submitted sample_turn)) "input" = Some v
    /\ tables sample_bound !! (KSessionTurn, turn_name "s1" "key") = Some row
    /\ @service_submit strict_json "f" "t9" "s1" "key" (JString "hi") JNull sample_bound =
         (sample_bound, if json_eqb v (JString "hi") then Ok (row_body row)
                        else Throw (err Conflict "Session turn idempotency key was reused")).
Proof.
  apply (@resubmission strict_json _ "e1" "t1" "s1" "key" (JString "hi") (JObject []) sample_created sample_submitted
    (row_body (turn_at sample_submitted sample_turn)) sample_bound "f" "t9" (JString "hi") JNull
    (session_at sample_bound "s1")).
  - eapply rtc_once, (@st_create strict_json); [|apply surjective_pairing]. reflexivity.
  - vm_compute. reflexivity.
  - eapply rtc_l; [eapply (@st_submit strict_json), surjective_pairing|].
    eapply rtc_l; [eapply (@st_claim strict_json), surjective_pairing|].
    eapply rtc_once, (@st_bind strict_json), surjective_pairing.
  - eexists. split; vm_compute; reflexivity.
  - eexists. split; [reflexivity|vm_compute; discriminate].
  - eexists. split; [reflexivity|vm_compute; discriminate].
  - eexists. split; [reflexivity|vm_compute; discriminate].
Defined.
