(* ===== verification/Isolation.v ===== *)
(** * Commits that overlap

    The transactions of [src/storage/postgres.cpp] run at the isolation level READ COMMITTED: [write_records]
    reads the row of a record without locking it, decides, and writes later, while other transactions
    commit in between.  Here a transaction is open for a while.  It checks its records one after the other
    against the rows that are committed then and its own writes; the writes take effect when it commits.
    A transaction of [commit_owned] or [commit_session_run] holds the lock of its lease row
    ([SELECT ... FOR UPDATE]) from before its first check to its end. *)

From S2P Require Import Prelude Json Types Text Samples Db Coordination Codec Worker Store Rows Sessions SessionInv.

Section Isolation.
Context `{L : JsonLib}.

(** What [write_records] does with a record before it writes it; [true]: nothing is to be written. *)
Definition check_record (fresh now : string) (r : StoreRecord) : T bool :=
  _ ← t_guard (empty_str (rc_id r)) Validation "Record id is empty";
  _ ← t_guard (kind_eqb (rc_kind r) KSessionContextGeneration || kind_eqb (rc_kind r) KRunContextSnapshot)
        Conflict "Session context records are immutable";
  _ ← serialize (rc_value r);
  _ ← (if kind_eqb (rc_kind r) KPipeline then check_pipeline (rc_id r) (rc_value r) else mret tt);
  _ ← (if kind_eqb (rc_kind r) KWorkerJob then check_worker_job (rc_id r) (rc_value r) else mret tt);
  if kind_eqb (rc_kind r) KNodeWork then check_node_work fresh now (rc_id r) (rc_value r) else mret false.
Definition upsert_record (r : StoreRecord) : T unit := upsert (rc_kind r) (rc_id r) (rc_run_id r) (rc_value r).
Lemma t_bind_assoc {A B C} (m : T A) (f : A -> T B) (g : B -> T C) db :
  ((m ≫= f) ≫= g) db = (m ≫= fun a => f a ≫= g) db.
Proof. unfold mbind, t_bind. by destruct (m db) as [d [a|x]]. Qed.
Lemma t_bind_ext {A B} (m : T A) (f g : A -> T B) db : (forall a d, f a d = g a d) -> (m ≫= f) db = (m ≫= g) db.
Proof. intros Hfg. unfold mbind, t_bind. destruct (m db) as [d [a|x]]; [apply Hfg|done]. Qed.
(** Checking a record and writing it with nothing in between is [write_record]. *)
Lemma write_record_checks fresh now r db :
  write_record fresh now r db
  = (check_record fresh now r ≫= fun skip => if (skip : bool) then mret tt else upsert_record r) db.
Proof.
  revert db. unfold write_record, check_record.
  do 5 (intros db; etransitivity; [|symmetry; apply t_bind_assoc]; apply t_bind_ext; intros _; revert db). done.
Qed.

(** ** Open transactions *)

Record Tx := mkTx { tx_lock : option string; tx_writes : list StoreRecord }.
Record Conc := mkConc { cc_db : DB; cc_open : gmap nat Tx }.
(** The committed rows with the writes of a transaction: what it sees, and what is committed at its end. *)
Definition apply_writes (ws : list StoreRecord) (db : DB) : DB := foldl (fun db r => (upsert_record r db).1) db ws.
Definition lock_free (k : option string) (o : gmap nat Tx) : Prop :=
  k <> None -> forall t tx, o !! t = Some tx -> tx_lock tx <> k.
Definition committed (t : nat) (tx : Tx) (c : Conc) : Conc :=
  mkConc (apply_writes (tx_writes tx) (cc_db c)) (delete t (cc_open c)).

Inductive conc_step (c : Conc) : Conc -> Prop :=
  | conc_begin t lock : cc_open c !! t = None -> lock_free lock (cc_open c) ->
      conc_step c (mkConc (cc_db c) (<[t := mkTx lock []]> (cc_open c)))
  | conc_check t tx fresh now r db' skip : cc_open c !! t = Some tx ->
      check_record fresh now r (apply_writes (tx_writes tx) (cc_db c)) = (db', TOk skip) ->
      conc_step c (mkConc (cc_db c)
        (<[t := mkTx (tx_lock tx) (if (skip : bool) then tx_writes tx else tx_writes tx ++ [r])]> (cc_open c)))
  | conc_commit t tx : cc_open c !! t = Some tx -> conc_step c (committed t tx c)
  | conc_rollback t : conc_step c (mkConc (cc_db c) (delete t (cc_open c)))
  (** An operation that no other one overlaps, and what concerns the other tables. *)
  | conc_serial db' : store_step (cc_db c) db' -> conc_step c (mkConc db' (cc_open c))
  | conc_session fresh fresh' now clock records owner token event db' x :
      commit_session_run fresh fresh' now clock records owner token event (cc_db c) = (db', x) ->
      conc_step c (mkConc db' (cc_open c))
  | conc_other db' : (forall i, kind_row KNodeWork db' i = kind_row KNodeWork (cc_db c) i) ->
      conc_step c (mkConc db' (cc_open c)).

(** The transaction has passed its check for the work item and has not ended. *)
Definition pending (i : string) (tx : Tx) : Prop := exists r, r ∈ tx_writes tx /\ rc_kind r = KNodeWork /\ rc_id r = i.

(** ** Finished work *)

Lemma upsert_record_row r db i : ~ (rc_kind r = KNodeWork /\ rc_id r = i) ->
  kind_row KNodeWork (upsert_record r db).1 i = kind_row KNodeWork db i.
Proof.
  intros Hne. unfold upsert_record, kind_row. rewrite upsert_spec. simpl. rewrite lookup_insert_ne; [done|].
  intros [= H1 H2]. by apply Hne.
Qed.
Lemma apply_writes_row ws i : forall db, (forall r, r ∈ ws -> ~ (rc_kind r = KNodeWork /\ rc_id r = i)) ->
  kind_row KNodeWork (apply_writes ws db) i = kind_row KNodeWork db i.
Proof.
  induction ws as [|r ws IH]; intros db Hws; [done|]. cbn [apply_writes foldl].
  change (kind_row KNodeWork (apply_writes ws (upsert_record r db).1) i = kind_row KNodeWork db i).
  rewrite IH by (intros r' Hr'; apply Hws; by right). apply upsert_record_row, Hws. by left.
Qed.
Lemma finished_rows db db' i row : kind_row KNodeWork db' i = kind_row KNodeWork db i ->
  finished_row db i row -> finished_row db' i row.
Proof. unfold kind_row. intros He [Hrow Hfin]. split; [by rewrite He|done]. Qed.
Lemma pure_check_record fresh now r : pure_t (check_record fresh now r).
Proof.
  unfold check_record. apply pure_bind; [apply pure_guard|intros _]. apply pure_bind; [apply pure_guard|intros _].
  apply pure_bind; [apply pure_serialize|intros _].
  apply pure_bind; [case_match; [apply pure_check_pipeline|apply pure_ret]|intros _].
  apply pure_bind; [case_match; [apply pure_check_job|apply pure_ret]|intros _].
  case_match; [apply pure_check_work|apply pure_ret].
Qed.
(** A check that sees the finished item does not let a write of it through. *)
Lemma check_record_finished fresh now r db db' i row : finished_row db i row -> rc_kind r = KNodeWork -> rc_id r = i ->
  check_record fresh now r db = (db', TOk false) -> False.
Proof.
  intros [Hrow (st & Hst & Hterm)] Hk <- Hc. pose proof (pure_check_record _ _ _ _ _ _ Hc) as ->.
  unfold check_record in Hc. rewrite Hk in Hc.
  do 5 (apply t_bind_ok in Hc as (? & ? & Hg & Hc);
        first [apply t_guard_ok in Hg as [_ ->]|apply pure_serialize in Hg as ->|injection Hg as <-]).
  destruct (check_node_work_existing _ _ _ _ _ _ _ Hrow Hc) as (old & new & Hold & _ & Hb).
  apply work_of_json_state in Hold. rewrite Hold in Hst. injection Hst as Hst. rewrite Hst, Hterm in Hb. by destruct Hb.
Qed.

(** *** Transactions that complete a session turn *)

(** What a returning transaction keeps; a throwing one is rolled back. *)
Definition keeps {A} (P : DB -> Prop) (m : T A) : Prop := forall db db' a, P db -> m db = (db', TOk a) -> P db'.
Lemma returns_bind {A B} P (m : T A) (f : A -> T B) : keeps P m -> (forall a, keeps P (f a)) -> keeps P (m ≫= f).
Proof. intros Hm Hf db db' b HP Hb. apply t_bind_ok in Hb as (d & a & Ha & Hb). eapply Hf, Hb. by eapply Hm. Qed.
Lemma returns_pure {A} P (m : T A) : pure_t m -> keeps P m.
Proof. intros Hm db db' a HP Ha. by rewrite (Hm _ _ _ Ha). Qed.
Lemma finished_update k i body id row : k <> KNodeWork -> keeps (fun db => finished_row db id row) (update_body k i body).
Proof.
  intros Hk db db' [] Hf [= <-]. eapply finished_rows, Hf. unfold kind_row. simpl.
  rewrite lookup_alter_ne; [done|]. by intros [= ->].
Qed.
Lemma finished_insert k i rid body seq id row : k <> KNodeWork ->
  keeps (fun db => finished_row db id row) (insert_row k i rid body seq).
Proof.
  intros Hk db db' [] Hf (_ & n & Ht)%insert_row_ok. eapply finished_rows, Hf. unfold kind_row.
  rewrite Ht, lookup_insert_ne; [done|]. by intros [= ->].
Qed.
Lemma finished_writes f n rs id row : keeps (fun db => finished_row db id row) (write_records f n rs).
Proof.
  intros db db' [] Hf Hw. apply (write_records_ind f n (fun d => finished_row d id row) rs) with db; [|done..].
  intros r d d' _. apply write_record_keeps_finished.
Qed.
Ltac keep_finished :=
  repeat lazymatch goal with
  | |- keeps _ (update_body _ _ _) => by apply finished_update
  | |- keeps _ (insert_row _ _ _ _ _) => by apply finished_insert
  | |- keeps _ (write_records _ _ _) => apply finished_writes
  | |- keeps _ (save_session _ _) => unfold save_session
  | |- keeps _ (save_turn _ _) => unfold save_turn
  | |- keeps _ (insert_event _ _ _) => unfold insert_event
  | |- keeps _ (mbind _ _) => apply returns_bind; [|intros ?]
  | |- keeps _ (match _ with _ => _ end) => case_match
  | |- keeps _ _ => apply returns_pure; solve [unfold lock_session; pure]
  end.
Lemma session_run_finished fresh fresh' now clock records owner token event db db' x id row :
  commit_session_run fresh fresh' now clock records owner token event db = (db', x) ->
  finished_row db id row -> finished_row db' id row.
Proof.
  intros Hc Hf. unfold commit_session_run in Hc.
  assert (Hm : forall {A B} (m : M DB A) (k : A -> M DB B), (forall d r, m db = (d, r) -> d = db) ->
    (forall a d y, k a db = (d, y) -> finished_row d id row) -> forall d y, m_bind m k db = (d, y) -> finished_row d id row).
  { intros A B m k H1 H2 d y. unfold m_bind. destruct (m db) as [d1 [a|e]]; specialize (H1 _ _ eq_refl) as ->; [apply H2|by intros [= <- _]]. }
  revert Hc. apply Hm; [intros d r; apply m_guard_run|]. intros _ d y Hc. case_match; [|by injection Hc as <- _].
  revert Hc. apply Hm; [by intros ? ? [= -> _]|]. intros run d1 y1. apply Hm; [intros ? ?; apply m_guard_run|].
  intros _ d2 y2 Hc. destruct y2 as [u|e].
  - apply transaction_ok in Hc. revert Hf Hc. match goal with |- _ -> ?b db = _ -> _ =>
      assert (keeps (fun db => finished_row db id row) b) as Hk; [|apply Hk] end. keep_finished.
  - apply transaction_throw in Hc as (Ht & _). eapply finished_rows, Hf. unfold kind_row. by rewrite Ht.
Qed.

(** *** Histories *)

(** No open transaction is about to write the item. *)
Definition undisputed (i : string) (c : Conc) : Prop := forall t tx, cc_open c !! t = Some tx -> ~ pending i tx.
Lemma apply_writes_finished ws db i row : ~ pending i (mkTx None ws) ->
  finished_row db i row -> finished_row (apply_writes ws db) i row.
Proof. intros Hp. apply finished_rows, apply_writes_row. intros r Hr [? ?]. apply Hp. by exists r. Qed.
Lemma finished_conc_step c c' i row : conc_step c c' -> finished_row (cc_db c) i row -> undisputed i c ->
  finished_row (cc_db c') i row /\ undisputed i c'.
Proof.
  intros Hs Hf Hu. unfold undisputed in *. destruct Hs as [t lock Hn _|t tx fresh now r db' skip Ht Hc|t tx Ht|t|db' Hs|????????? ? Hs|db' Hs]; simpl.
  - split; [done|]. intros t' tx' [[_ <-]|[_ Ht']]%lookup_insert_Some; [|by eapply Hu]. by intros (? & []%elem_of_nil & _).
  - split; [done|]. intros t' tx' [[_ <-]|[_ Ht']]%lookup_insert_Some; [|by eapply Hu].
    pose proof (Hu _ _ Ht) as Hp. destruct skip; [exact Hp|]. intros (r' & Hr' & Hk & Hi). simpl in Hr'.
    apply elem_of_app in Hr' as [Hr'| ->%list_elem_of_singleton]; [apply Hp; by exists r'|].
    eapply check_record_finished, Hc; [|done..]. by apply apply_writes_finished.
  - split; [apply apply_writes_finished; [|done]; by apply (Hu _ _ Ht)|].
    intros t' tx' [_ Ht']%lookup_delete_Some. by eapply Hu.
  - split; [done|]. intros t' tx' [_ Ht']%lookup_delete_Some. by eapply Hu.
  - split; [by eapply finished_step|done].
  - split; [by eapply session_run_finished|done].
  - split; [apply (finished_rows (cc_db c)); [apply Hs|exact Hf]|done].
Qed.
Lemma finished_conc_steps c c' i row : rtc conc_step c c' -> finished_row (cc_db c) i row -> undisputed i c ->
  finished_row (cc_db c') i row.
Proof.
  induction 1 as [|a b c' Hab _ IH]; [done|]. intros Hf Hu. destruct (finished_conc_step _ _ _ _ Hab Hf Hu). by apply IH.
Qed.

(** A lease row is locked by one transaction at a time. *)
Definition locked_once (c : Conc) : Prop := forall t t' tx tx' k, cc_open c !! t = Some tx -> cc_open c !! t' = Some tx' ->
  tx_lock tx = Some k -> tx_lock tx' = Some k -> t = t'.
Lemma locked_once_step c c' : conc_step c c' -> locked_once c -> locked_once c'.
Proof.
  intros Hs Hl. destruct Hs as [t lock Hn Hfree|t tx fresh now r db' skip Ht Hc|t tx Ht|t|db' Hs|????????? ? Hs|db' Hs];
    unfold locked_once in *; simpl; [| | | |done..].
  - intros t1 t2 tx1 tx2 k [[<- <-]|[? H1]]%lookup_insert_Some [[<- <-]|[? H2]]%lookup_insert_Some; simpl; intros Hk1 Hk2;
      [done| | |by eapply Hl].
    + destruct (Hfree ltac:(congruence) _ _ H2). congruence.
    + destruct (Hfree ltac:(congruence) _ _ H1). congruence.
  - intros t1 t2 tx1 tx2 k [[<- <-]|[? H1]]%lookup_insert_Some [[<- <-]|[? H2]]%lookup_insert_Some; simpl; intros Hk1 Hk2;
      by eauto.
  - intros t1 t2 tx1 tx2 k [_ H1]%lookup_delete_Some [_ H2]%lookup_delete_Some. by eapply Hl.
  - intros t1 t2 tx1 tx2 k [_ H1]%lookup_delete_Some [_ H2]%lookup_delete_Some. by eapply Hl.
Qed.
Lemma locked_once_steps db c : rtc conc_step (mkConc db ∅) c -> locked_once c.
Proof.
  intros Hs. cut (forall a, rtc conc_step a c -> locked_once a -> locked_once c).
  { intros Hcut. apply (Hcut _ Hs). intros t t' tx tx' k Ht. simpl in Ht. by rewrite lookup_empty in Ht. }
  induction 1; eauto using locked_once_step.
Qed.

(** ** Properties *)

(** C23: Finished parallel work is immutable, also when transactions overlap under READ COMMITTED.  When a
    work item is stored as completed, failed or cancelled and no open transaction has already passed its check
    of the item, then no commit, owned commit, completion of a session turn, claim, cancellation or audit
    write, overlapping or not, succeeding or throwing, ever changes its row.  A transaction that holds a lease
    row and commits leaves the item in that situation, if whoever has passed the check of the item by then
    holds the lock of the same lease: so it is for items written under the lease of their run. *)
Theorem finished_work_immutable i row :
  (forall c c', rtc conc_step c c' -> finished_row (cc_db c) i row -> undisputed i c -> finished_row (cc_db c') i row)
  /\ (forall db c t tx k, rtc conc_step (mkConc db ∅) c -> cc_open c !! t = Some tx -> tx_lock tx = Some k ->
        (forall t' tx', cc_open c !! t' = Some tx' -> pending i tx' -> tx_lock tx' = Some k) ->
        forall c', rtc conc_step (committed t tx c) c' ->
        finished_row (cc_db (committed t tx c)) i row -> finished_row (cc_db c') i row).
Proof.
  split; [intros c c' Hs Hf Hu; by eapply finished_conc_steps|].
  intros db c t tx k Hr Ht Hk Hall c' Hs Hf. eapply finished_conc_steps; [done..|].
  intros t' tx' Ht'. simpl in Ht'. apply lookup_delete_Some in Ht' as [Hne Ht']. intros Hp. apply Hne.
  by apply (locked_once_steps _ _ Hr t t' tx tx' k Ht Ht' Hk), (Hall t').
Qed.
End Isolation.

(** Two instances work on one item: the first completes it, the second reports a failure. *)
Definition sample_running : DB :=
  empty_db <| tables := {[ (KNodeWork, "w1"%string) := mkRow "r1" (work_to_json (sample_work WRunning None)) 1 ]} |>.
Definition sample_completion : StoreRecord :=
  mkRecord KNodeWork "w1" "r1" (work_to_json (sample_work WCompleted (Some (sample_message "m2" JNull)))).
Definition sample_failure : StoreRecord := mkRecord KNodeWork "w1" "r1" (work_to_json (sample_work WFailed None)).
Definition sample_tx : Tx := mkTx (Some "run:r1"%string) [sample_completion].
Definition sample_open : Conc := mkConc sample_running {[ 1%nat := sample_tx ]}.
Definition sample_row : Row := mkRow "r1" (rc_value sample_completion) 1.
Lemma sample_open_reached : rtc (@conc_step strict_json) (mkConc sample_running ∅) sample_open.
Proof.
  eapply rtc_l; [apply (@conc_begin strict_json _ 1%nat (Some "run:r1"%string)); [done|]; intros _ t tx; simpl; by rewrite lookup_empty|].
  eapply rtc_l; [|reflexivity].
  replace sample_open with (mkConc sample_running
    (<[1%nat := sample_tx]> (<[1%nat := mkTx (Some "run:r1"%string) []]> ∅))) by (vm_compute; reflexivity).
  refine (@conc_check strict_json (mkConc sample_running (<[1%nat := mkTx (Some "run:r1"%string) []]> ∅)) 1%nat
    (mkTx (Some "run:r1"%string) []) "f" "n" sample_completion sample_running false _ _).
  all: vm_compute; reflexivity.
Qed.

(** Without the lock of a lease the check is no protection: both transactions check the running item, the first
    commit completes it and the second one replaces the result by the failure. *)
Definition sample_race : Conc :=
  mkConc sample_running {[ 1%nat := mkTx None [sample_completion]; 2%nat := mkTx None [sample_failure] ]}.
Definition sample_won : Conc := committed 1 (mkTx None [sample_completion]) sample_race.
Lemma unlocked_commit_overwrites :
  (@check_record strict_json "f" "n" sample_completion sample_running).2 = TOk false
  /\ (@check_record strict_json "f" "n" sample_failure sample_running).2 = TOk false
  /\ finished_row (cc_db sample_won) "w1" sample_row
  /\ @conc_step strict_json sample_won (committed 2 (mkTx None [sample_failure]) sample_won)
  /\ ~ finished_row (cc_db (committed 2 (mkTx None [sample_failure]) sample_won)) "w1" sample_row.
Proof.
  split_and!; [vm_compute; reflexivity..| | |].
  - split; [reflexivity|]. exists WCompleted. split; reflexivity.
  - apply conc_commit. vm_compute. reflexivity.
  - intros [Hrow _]. vm_compute in Hrow. discriminate Hrow.
Qed.

Lemma finished_work_immutable_witness :
  finished_row (@commit strict_json "f" "n" [sample_failure] (cc_db (committed 1 sample_tx sample_open))).1 "w1" sample_row.
Proof.
  apply (proj2 (@finished_work_immutable strict_json "w1" sample_row) sample_running sample_open 1%nat sample_tx "run:r1"%string
    sample_open_reached eq_refl eq_refl) with
    (c' := mkConc (@commit strict_json "f" "n" [sample_failure] (cc_db (committed 1 sample_tx sample_open))).1
                  (cc_open (committed 1 sample_tx sample_open))).
  - intros t tx Ht _. unfold sample_open in Ht. simpl in Ht. apply lookup_singleton_Some in Ht as [_ <-]. reflexivity.
  - eapply rtc_once, conc_serial, ss_commit. apply surjective_pairing.
  - split; [reflexivity|]. exists WCompleted. split; reflexivity.
Defined.
