(* ===== verification/Effects.v ===== *)
(** * Effectful operations

    The monad of the components that act on a state of their own through the store and other
    components ([Scheduler], [Runtime]): state passing in which a throw keeps the changes made
    before it, over the exceptions of [Db]; [catch (const Error &)] catches the program's own
    errors only.  [Always R m] says that [m] moves the state along the relation [R], whether it
    returns or throws; it composes over the combinators. *)

From S2P Require Import Prelude Json Db Codec Store.

(** Throwing from code without state. *)
Definition of_res {A} (r : res A) : tres A :=
  match r with Ok a => TOk a | Throw e => TThrow (TError e) end.
Definition tthrow {A} (c : ErrorCode) (msg : string) : tres A := TThrow (TError (err c msg)).
Definition tguard (cond : bool) (c : ErrorCode) (msg : string) : tres unit :=
  if cond then tthrow c msg else TOk tt.

(** [value.dump().size() > limit] *)
Definition dump_exceeds `{JsonLib} (value : Json) (limit : Z) : tres bool :=
  match dump value with Some text => TOk (limit <? size_of text) | None => TThrow TStd end.

Definition IO (W A : Type) : Type := W -> W * tres A.
#[global] Instance io_ret {W} : MRet (IO W) := fun A a w => (w, TOk a).
#[global] Instance io_bind {W} : MBind (IO W) := fun A B f m w =>
  match m w with
  | (w', TOk a) => f a w'
  | (w', TThrow x) => (w', TThrow x)
  end.
Definition io_lift {W A} (r : tres A) : IO W A := fun w => (w, r).
Definition io_throw {W A} (c : ErrorCode) (msg : string) : IO W A := io_lift (tthrow c msg).
Definition io_guard {W} (cond : bool) (c : ErrorCode) (msg : string) : IO W unit :=
  io_lift (tguard cond c msg).
Definition io_get {W} : IO W W := fun w => (w, TOk w).
Definition io_modify {W} (f : W -> W) : IO W unit := fun w => (f w, TOk tt).
(** [try { m } catch (const Error &e) { h(e) }]; other exceptions propagate. *)
Definition error_of (x : texn) : option Error :=
  match x with
  | TError e => Some e
  | TTransport _ _ msg => Some (err Plugin msg)
  | _ => None
  end.
Definition io_catch {W A} (m : IO W A) (h : Error -> IO W A) : IO W A := fun w =>
  match m w with
  | (w', TThrow x) => match error_of x with Some e => h e w' | None => (w', TThrow x) end
  | r => r
  end.
(** [try { m } catch (...) { h; throw; }] *)
Definition io_cleanup {W A} (m : IO W A) (h : IO W unit) : IO W A := fun w =>
  match m w with
  | (w', TThrow x) => match h w' with (w'', TOk _) => (w'', TThrow x) | (w'', TThrow y) => (w'', TThrow y) end
  | r => r
  end.
(** [try { m } catch (...) { h }] *)
Definition io_catch_all {W A} (m : IO W A) (h : IO W A) : IO W A := fun w =>
  match m w with
  | (w', TThrow _) => h w'
  | r => r
  end.
Fixpoint io_iter {W A} (f : A -> IO W unit) (l : list A) : IO W unit :=
  match l with [] => mret tt | x :: l => f x ≫= fun _ => io_iter f l end.
Definition io_when {W} (b : bool) (m : IO W unit) : IO W unit := if b then m else mret tt.

(** ** Runs of the combinators *)

Lemma of_res_ok {A} (r : res A) a : of_res r = TOk a <-> r = Ok a.
Proof. destruct r; naive_solver. Qed.
Lemma tguard_ok c code msg u : tguard c code msg = TOk u <-> c = false.
Proof. destruct c, u; naive_solver. Qed.

Section Runs.
Context {W : Type}.

Lemma io_bind_ok {A B} (m : IO W A) (f : A -> IO W B) w w' b :
  (m ≫= f) w = (w', TOk b) <-> exists w1 a, m w = (w1, TOk a) /\ f a w1 = (w', TOk b).
Proof.
  unfold mbind, io_bind. destruct (m w) as [w1 [a|x]]; split; intros H; [eauto| |done|];
    destruct H as (? & ? & ? & ?); by simplify_eq.
Qed.
Lemma io_bind_throw {A B} (m : IO W A) (f : A -> IO W B) w w' x :
  (m ≫= f) w = (w', TThrow x) <->
  m w = (w', TThrow x) \/ exists w1 a, m w = (w1, TOk a) /\ f a w1 = (w', TThrow x).
Proof.
  unfold mbind, io_bind. destruct (m w) as [w1 [a|y]]; split; intros H; [right; eauto| |left; congruence|];
    destruct H as [|(? & ? & ? & ?)]; by simplify_eq.
Qed.
Lemma io_bind_run {A B} (m : IO W A) (f : A -> IO W B) w w' a :
  m w = (w', TOk a) -> (m ≫= f) w = f a w'.
Proof. intros Hm. unfold mbind, io_bind. by rewrite Hm. Qed.
Lemma io_catch_ok {A} (m : IO W A) h w w' a : io_catch m h w = (w', TOk a) ->
  m w = (w', TOk a) \/ exists w1 e, (exists x, m w = (w1, TThrow x) /\ error_of x = Some e) /\ h e w1 = (w', TOk a).
Proof.
  unfold io_catch. destruct (m w) as [w1 [b|x]]; [by left|].
  destruct (error_of x) eqn:Hx; [|done]. right. eauto 6.
Qed.
Lemma io_cleanup_ok {A} (m : IO W A) h w w' a : io_cleanup m h w = (w', TOk a) -> m w = (w', TOk a).
Proof. unfold io_cleanup. destruct (m w) as [w1 [b|x]]; [done|]. by destruct (h w1) as [w2 [u|y]]. Qed.

(** ** Relations kept by an operation *)

Definition Always (R : W -> W -> Prop) {A} (m : IO W A) : Prop := forall w, R w (m w).1.

Lemma always_run (R : W -> W -> Prop) {A} (m : IO W A) w w' r : Always R m -> m w = (w', r) -> R w w'.
Proof. intros Hm Hr. specialize (Hm w). by rewrite Hr in Hm. Qed.
Lemma always_mono (R R' : W -> W -> Prop) {A} (m : IO W A) :
  (forall w w', R w w' -> R' w w') -> Always R m -> Always R' m.
Proof. intros HR Hm w. apply HR, Hm. Qed.

Context (R : W -> W -> Prop) `{!PreOrder R}.
Lemma always_ret {A} (a : A) : Always R (mret a).
Proof. intros w. simpl. reflexivity. Qed.
Lemma always_lift {A} (r : tres A) : Always R (io_lift r).
Proof. intros w. simpl. reflexivity. Qed.
Lemma always_get : Always R io_get.
Proof. intros w. simpl. reflexivity. Qed.
(** The continuation may use how the state was reached. *)
Lemma always_bind_from {A B} (m : IO W A) (f : A -> IO W B) :
  Always R m -> (forall w w1 a, m w = (w1, TOk a) -> R w w1 -> R w (f a w1).1) -> Always R (m ≫= f).
Proof.
  intros Hm Hf w. unfold mbind, io_bind. specialize (Hm w). destruct (m w) as [w1 [a|x]] eqn:E; [|done].
  by eapply Hf.
Qed.
Lemma always_bind {A B} (m : IO W A) (f : A -> IO W B) :
  Always R m -> (forall a, Always R (f a)) -> Always R (m ≫= f).
Proof. intros Hm Hf. apply always_bind_from; [done|]. intros w w1 a _ H1. etransitivity; [done|apply Hf]. Qed.
(** The result of the first operation satisfies [P]. *)
Lemma always_bind_post {A B} (P : A -> Prop) (m : IO W A) (f : A -> IO W B) :
  Always R m -> (forall w w1 a, m w = (w1, TOk a) -> P a) -> (forall a, P a -> Always R (f a)) ->
  Always R (m ≫= f).
Proof.
  intros Hm HP Hf. apply always_bind_from; [done|]. intros w w1 a H1 HR. etransitivity; [done|].
  apply Hf. by eapply HP.
Qed.
Lemma always_catch {A} (m : IO W A) h : Always R m -> (forall e, Always R (h e)) -> Always R (io_catch m h).
Proof.
  intros Hm Hh w. unfold io_catch. specialize (Hm w). destruct (m w) as [w1 [a|x]]; [done|].
  destruct (error_of x); [|done]. simpl in Hm. etransitivity; [done|apply Hh].
Qed.
Lemma always_cleanup {A} (m : IO W A) h : Always R m -> Always R h -> Always R (io_cleanup m h).
Proof.
  intros Hm Hh w. unfold io_cleanup. specialize (Hm w). destruct (m w) as [w1 [a|x]]; [done|].
  specialize (Hh w1). destruct (h w1) as [w2 [[]|y]]; simpl in *; by etransitivity.
Qed.
Lemma always_catch_all {A} (m h : IO W A) : Always R m -> Always R h -> Always R (io_catch_all m h).
Proof.
  intros Hm Hh w. unfold io_catch_all. specialize (Hm w). destruct (m w) as [w1 [a|x]]; [done|].
  simpl in Hm. etransitivity; [done|apply Hh].
Qed.
Lemma always_iter {A} (f : A -> IO W unit) l : (forall x, Always R (f x)) -> Always R (io_iter f l).
Proof.
  intros Hf. induction l as [|x l IH]; [apply always_ret|]. by apply always_bind.
Qed.
Lemma always_when b m : Always R m -> Always R (io_when b m).
Proof. destruct b; [done|]. intros _. apply always_ret. Qed.
End Runs.
