(* ===== verification/Clock.v ===== *)
(** * Wall-clock time

    [parse_utc_timestamp] and [format_utc_timestamp] of [src/scheduler/scheduler.cpp] and the
    calendar functions of the C library they call.  A [WallTime] is the nanosecond count of
    [std::chrono::system_clock], a signed 64-bit integer; [ns64] is its wrap-around.  [timegm] and
    [gmtime_r] convert between seconds since 1970 and the fields of [struct tm] in the Gregorian
    calendar; that the conversion used here is that calendar is the theorem [gregorian_calendar]. *)

From S2P Require Import Prelude Text.
From Stdlib Require Import Ascii.

Definition ns64 (z : Z) : Z := (z + 9223372036854775808) mod 18446744073709551616 - 9223372036854775808.

(** ** The calendar *)

(** [struct tm], with the year and the month as the calendar counts them. *)
Record tm := mkTm {
  tm_year : Z; tm_mon : Z; tm_mday : Z; tm_hour : Z; tm_min : Z; tm_sec : Z; tm_wday : Z }.

(** Days since 1970-01-01 of a date whose month is between 1 and 12.  Years are counted from
    March, in eras of 400 years. *)
Definition days_from_civil (y m d : Z) : Z :=
  let y := if m <=? 2 then y - 1 else y in
  let era := y / 400 in
  let yoe := y - era * 400 in
  let doy := (153 * (if 2 <? m then m - 3 else m + 9) + 2) / 5 + d - 1 in
  era * 146097 + (yoe * 365 + yoe / 4 - yoe / 100 + doy) - 719468.

(** The month and the day of a day of the year, counted from March. *)
Definition month_day (doy : Z) : Z * Z :=
  let mp := (5 * doy + 2) / 153 in
  ((if mp <? 10 then mp + 3 else mp - 9), doy - (153 * mp + 2) / 5 + 1).
(** The year from March of a day of an era, and the first day of such a year. *)
Definition year_of_era (doe : Z) : Z := (doe - doe / 1460 + doe / 36524 - doe / 146096) / 365.
Definition year_start (yoe : Z) : Z := 365 * yoe + yoe / 4 - yoe / 100.
Definition era_date (doe : Z) : Z * Z * Z :=
  let yoe := year_of_era doe in
  let '(m, d) := month_day (doe - year_start yoe) in (yoe, m, d).
Definition civil_from_days (days : Z) : Z * Z * Z :=
  let z := days + 719468 in
  let '(yoe, m, d) := era_date (z mod 146097) in
  (yoe + 400 * (z / 146097) + (if m <=? 2 then 1 else 0), m, d).

(** [timegm]: fields outside their range are carried over. *)
Definition timegm (t : tm) : Z :=
  let y := tm_year t + (tm_mon t - 1) / 12 in
  let m := (tm_mon t - 1) mod 12 + 1 in
  (days_from_civil y m 1 + tm_mday t - 1) * 86400 + tm_hour t * 3600 + tm_min t * 60 + tm_sec t.

(** [gmtime_r] *)
Definition gmtime (secs : Z) : tm :=
  let days := secs / 86400 in
  let rest := secs mod 86400 in
  let '(y, m, d) := civil_from_days days in
  mkTm y m d (rest / 3600) (rest mod 3600 / 60) (rest mod 60) ((days + 4) mod 7).

(** ** Timestamps *)

(** A number in [w] decimal digits. *)
Fixpoint pad (w : nat) (n : Z) (acc : chars) : chars :=
  match w with O => acc | S w => pad w (n / 10) (digit_char (n mod 10) :: acc) end.

Definition format_utc_timestamp (value : Z) : string :=
  let milliseconds := Z.quot value 1000000 in
  let seconds := Z.quot milliseconds 1000 in
  let remainder := Z.rem milliseconds 1000 in
  let remainder := if remainder <? 0 then remainder + 1000 else remainder in
  let utc := gmtime seconds in
  of_chars (to_dec (tm_year utc) ++ ["-"%char] ++ pad 2 (tm_mon utc) [] ++ ["-"%char]
            ++ pad 2 (tm_mday utc) [] ++ ["T"%char] ++ pad 2 (tm_hour utc) [] ++ [":"%char]
            ++ pad 2 (tm_min utc) [] ++ [":"%char] ++ pad 2 (tm_sec utc) [] ++ ["."%char]
            ++ pad 3 remainder [] ++ ["Z"%char]).

(** The seven fields of the pattern [YYYY-MM-DDTHH:MM:SS.mmmZ]. *)
Definition timestamp_fields (l : chars) : option (list chars) :=
  match l with
  | [y1; y2; y3; y4; p1; m1; m2; p2; d1; d2; p3; h1; h2; p4; i1; i2; p5; s1; s2; p6; f1; f2; f3; p7] =>
      let fields := [[y1; y2; y3; y4]; [m1; m2]; [d1; d2]; [h1; h2]; [i1; i2]; [s1; s2]; [f1; f2; f3]] in
      if forallb (forallb is_digit) fields
         && forallb (fun ab => Ascii.eqb ab.1 ab.2)
              [(p1, "-"); (p2, "-"); (p3, "T"); (p4, ":"); (p5, ":"); (p6, "."); (p7, "Z")]%char
      then Some fields else None
  | _ => None
  end.

(** The fields that the code compares after the round trip through [timegm] and [gmtime_r]. *)
Definition same_fields (a b : tm) : bool :=
  (tm_year a =? tm_year b) && (tm_mon a =? tm_mon b) && (tm_mday a =? tm_mday b)
  && (tm_hour a =? tm_hour b) && (tm_min a =? tm_min b) && (tm_sec a =? tm_sec b).

Definition parse_utc_timestamp (value : string) : res Z :=
  match timestamp_fields (chars_of value) with
  | Some [y; mo; d; h; mi; s; ms] =>
      let utc := mkTm (digits_val y) (digits_val mo) (digits_val d) (digits_val h) (digits_val mi)
                      (digits_val s) 0 in
      let seconds := timegm utc in
      if (seconds <? 0) || negb (same_fields (gmtime seconds) utc)
      then Throw (err Validation "Invalid UTC timestamp")
      else Ok (ns64 (ns64 (seconds * 1000000000) + digits_val ms * 1000000))
  | _ => Throw (err Validation "Timestamp must be an absolute UTC ISO-8601 value")
  end.

(** ** Lemmas *)

(** *** The calendar, era by era *)

Definition leap (y : Z) : bool := (y mod 4 =? 0) && (negb (y mod 100 =? 0) || (y mod 400 =? 0)).
Definition month_length (y m : Z) : Z :=
  if m =? 2 then if leap y then 29 else 28
  else if (m =? 4) || (m =? 6) || (m =? 9) || (m =? 11) then 30 else 31.
(** The day after. *)
Definition next_day (date : Z * Z * Z) : Z * Z * Z :=
  let '(y, m, d) := date in
  if d <? month_length y m then (y, m, d + 1)
  else if m =? 12 then (y + 1, 1, 1) else (y, m + 1, 1).

(** Days of the year from March [yoe] of an era. *)
Definition year_days (yoe : Z) : Z := if leap (yoe + 1) then 366 else 365.

(** What has to hold of each year of an era, and of each day of a year. *)
Definition year_check (y : Z) : bool :=
  (year_of_era (year_start y) =? y) && (year_of_era (year_start y + year_days y - 1) =? y)
  && (if y =? 399 then year_start y + year_days y =? 146097
      else year_start y + year_days y =? year_start (y + 1)).
Definition day_check (doy : Z) : bool :=
  let '(m, d) := month_day doy in
  let len := if m =? 2 then 29 else month_length 1 m in
  (1 <=? m) && (m <=? 12) && (1 <=? d) && (d <=? len)
  && ((153 * (if 2 <? m then m - 3 else m + 9) + 2) / 5 + d - 1 =? doy)
  && Bool.eqb (m <=? 2) (306 <=? doy) && Bool.eqb ((m =? 2) && (28 <=? d)) (364 <=? doy)
  && Bool.eqb ((m =? 2) && (d =? 29)) (doy =? 365)
  && ((doy =? 365)
      || (let '(m', d') := month_day (doy + 1) in
          if d <? len then (m' =? m) && (d' =? d + 1)
          else (m' =? (if m =? 12 then 1 else m + 1)) && (d' =? 1))).

Lemma years_checked : forallb year_check (seqZ 0 400) = true.
Proof. vm_compute. reflexivity. Qed.
Lemma days_checked : forallb day_check (seqZ 0 366) = true.
Proof. vm_compute. reflexivity. Qed.

Lemma forallb_seqZ f n x : forallb f (seqZ 0 n) = true -> 0 <= x < n -> f x = true.
Proof. rewrite forallb_forall. intros Hf Hx. apply Hf, list_elem_of_In, elem_of_seqZ. lia. Qed.

Ltac div_lia := Z.to_euclidean_division_equations; lia.

Lemma year_of_era_mono a b : 0 <= a -> a <= b -> year_of_era a <= year_of_era b.
Proof.
  intros Ha Hab. unfold year_of_era. apply Z.div_le_mono; [lia|].
  assert (a - a / 1460 <= b - b / 1460) by div_lia.
  assert (Hq : forall x, 0 <= x -> x / 146096 = x / 36524 / 4) by (intros x Hx; rewrite Z.div_div by lia; done).
  rewrite (Hq a), (Hq b) by lia. assert (a / 36524 <= b / 36524) by (apply Z.div_le_mono; lia).
  assert (a / 36524 - a / 36524 / 4 <= b / 36524 - b / 36524 / 4) by div_lia. lia.
Qed.

(** Every day of an era is a day of one of its years. *)
Lemma year_facts y : 0 <= y < 400 ->
  year_of_era (year_start y) = y /\ year_of_era (year_start y + year_days y - 1) = y
  /\ (year_start y + year_days y = if y =? 399 then 146097 else year_start (y + 1)).
Proof.
  intros Hy. assert (Hc := forallb_seqZ _ _ _ years_checked Hy). unfold year_check in Hc.
  rewrite !andb_true_iff, !Z.eqb_eq in Hc. destruct Hc as [[H1 H2] H3]. split; [done|]. split; [done|].
  destruct (y =? 399); by apply Z.eqb_eq.
Qed.
Lemma year_of_day y doy : 0 <= y < 400 -> 0 <= doy < year_days y -> year_of_era (year_start y + doy) = y.
Proof.
  intros Hy Hd. destruct (year_facts y Hy) as (H1 & H2 & _).
  assert (0 <= year_start y) by (unfold year_start; div_lia).
  assert (Ha := year_of_era_mono (year_start y) (year_start y + doy)).
  assert (Hb := year_of_era_mono (year_start y + doy) (year_start y + year_days y - 1)). lia.
Qed.
Lemma era_split doe : 0 <= doe < 146097 ->
  exists y doy, 0 <= y < 400 /\ 0 <= doy < year_days y /\ doe = year_start y + doy.
Proof.
  intros Hd.
  assert (H : forall n : nat, (n <= 400)%nat ->
    doe < (if Nat.eqb n 400 then 146097 else year_start (Z.of_nat n)) ->
    exists y doy, 0 <= y < 400 /\ 0 <= doy < year_days y /\ doe = year_start y + doy).
  { induction n as [|n IH]; intros Hn Hlt; [change (year_start (Z.of_nat 0)) with 0 in Hlt; simpl in Hlt; lia|].
    destruct (year_facts (Z.of_nat n)) as (_ & _ & Hs); [lia|].
    destruct (Z.lt_ge_cases doe (year_start (Z.of_nat n))) as [Hl|Hg].
    - apply IH; [lia|]. destruct (Nat.eqb_spec n 400); [lia|done].
    - exists (Z.of_nat n), (doe - year_start (Z.of_nat n)). split; [lia|]. split; [|lia]. split; [lia|].
      destruct (Nat.eqb_spec (S n) 400) as [He|He].
      + assert (Z.of_nat n = 399) as E by lia. rewrite E in *. simpl in Hs. lia.
      + destruct (Z.eqb_spec (Z.of_nat n) 399); [lia|]. rewrite Nat2Z.inj_succ in Hlt. unfold Z.succ in Hlt. lia. }
  apply (H 400%nat); [lia|]. rewrite Nat.eqb_refl. lia.
Qed.

Lemma era_date_split y doy : 0 <= y < 400 -> 0 <= doy < year_days y ->
  era_date (year_start y + doy) = (y, (month_day doy).1, (month_day doy).2).
Proof.
  intros Hy Hd. unfold era_date. rewrite year_of_day by done.
  replace (year_start y + doy - year_start y) with doy by lia. by destruct (month_day doy).
Qed.

(** *** The conversions *)

Lemma day_facts doy m d : 0 <= doy < 366 -> month_day doy = (m, d) ->
  1 <= m <= 12 /\ 1 <= d <= (if m =? 2 then 29 else month_length 1 m)
  /\ (153 * (if 2 <? m then m - 3 else m + 9) + 2) / 5 + d - 1 = doy
  /\ (m <= 2 <-> 306 <= doy) /\ (m = 2 /\ 28 <= d <-> 364 <= doy) /\ (m = 2 /\ d = 29 <-> doy = 365)
  /\ (doy < 365 -> month_day (doy + 1) =
        if d <? (if m =? 2 then 29 else month_length 1 m) then (m, d + 1)
        else ((if m =? 12 then 1 else m + 1), 1)).
Proof.
  intros Hd Hmd. assert (Hc := forallb_seqZ _ _ _ days_checked Hd). unfold day_check in Hc. rewrite Hmd in Hc.
  rewrite !andb_true_iff, !eqb_true_iff in Hc.
  destruct Hc as ((((((((H1 & H2) & H3) & H4) & H5) & H6) & H7) & H8) & H9).
  apply Z.leb_le in H1, H2, H3, H4. apply Z.eqb_eq in H5.
  split_and!; try done.
  - destruct (Z.leb_spec m 2), (Z.leb_spec 306 doy); done || lia.
  - destruct (Z.eqb_spec m 2), (Z.leb_spec 28 d), (Z.leb_spec 364 doy); done || lia.
  - destruct (Z.eqb_spec m 2), (Z.eqb_spec d 29), (Z.eqb_spec doy 365); done || lia.
  - intros Hlt. destruct (Z.eqb_spec doy 365); [lia|]. cbn [orb] in H9. destruct (month_day (doy + 1)) as [m' d'].
    destruct (d <? _); apply andb_true_iff in H9 as [Ha Hb]; apply Z.eqb_eq in Ha, Hb; by subst.
Qed.

Lemma civil_split days : exists era y doy, 0 <= y < 400 /\ 0 <= doy < year_days y
  /\ days + 719468 = 146097 * era + (year_start y + doy)
  /\ civil_from_days days =
       (y + 400 * era + (if (month_day doy).1 <=? 2 then 1 else 0), (month_day doy).1, (month_day doy).2).
Proof.
  set (z := days + 719468). assert (Hm := Z.mod_pos_bound z 146097 eq_refl).
  destruct (era_split (z mod 146097) Hm) as (y & doy & Hy & Hd & Hs). exists (z / 146097), y, doy.
  split; [done|]. split; [done|]. split; [rewrite <- Hs; apply Z.div_mod; lia|].
  unfold civil_from_days. fold z. rewrite Hs, era_date_split by done. done.
Qed.

Lemma year_days_bound y : 365 <= year_days y <= 366.
Proof. unfold year_days. destruct (leap _); lia. Qed.

Lemma div_add_era y era : 0 <= y < 400 -> (y + 400 * era) / 400 = era /\ (y + 400 * era) - era * 400 = y.
Proof. intros Hy. split; div_lia. Qed.

Lemma triple_eq {A B C} (a a' : A) (b b' : B) (c c' : C) : (a, b, c) = (a', b', c') -> a = a' /\ b = b' /\ c = c'.
Proof. by intros [= -> -> ->]. Qed.

(** The day number of a date is found again. *)
Lemma days_civil days y m d : civil_from_days days = (y, m, d) ->
  days_from_civil y m d = days /\ 1 <= m <= 12 /\ 1 <= d <= 31.
Proof.
  destruct (civil_split days) as (era & yoe & doy & Hy & Hd & Hs & ->).
  destruct (month_day doy) as [m0 d0] eqn:Hmd. cbn [fst snd].
  intros (<- & -> & ->)%triple_eq. assert (Hb := year_days_bound yoe).
  destruct (day_facts doy m d) as (H1 & H2 & H3 & _); [lia|done|]. split.
  - unfold days_from_civil. cbv zeta.
    replace (if m <=? 2 then yoe + 400 * era + (if m <=? 2 then 1 else 0) - 1
             else yoe + 400 * era + (if m <=? 2 then 1 else 0)) with (yoe + 400 * era)
      by (destruct (m <=? 2); lia).
    destruct (div_add_era yoe era Hy) as [-> ->]. rewrite H3. unfold year_start in Hs. lia.
  - split; [done|]. unfold month_length in H2. destruct (m =? 2); [lia|]. destruct (_ || _) in H2; lia.
Qed.

Lemma leap_era y era : leap (y + 400 * era) = leap y.
Proof.
  unfold leap. replace (y + 400 * era) with (y + era * 100 * 4) by lia. rewrite Z.mod_add by lia.
  replace (y + era * 100 * 4) with (y + era * 4 * 100) by lia. rewrite Z.mod_add by lia.
  replace (y + era * 4 * 100) with (y + era * 400) by lia. by rewrite Z.mod_add by lia.
Qed.

Lemma month_length_other y y' m : m <> 2 -> month_length y m = month_length y' m.
Proof. intros Hm. unfold month_length. by destruct (Z.eqb_spec m 2). Qed.

(** The first of March follows the last day of a year counted from March. *)
Lemma new_year days era y doy : 0 <= y < 400 -> doy + 1 = year_days y ->
  days + 719468 = 146097 * era + (year_start y + doy) ->
  civil_from_days (days + 1) = (y + 1 + 400 * era, 3, 1).
Proof.
  intros Hy Hl Hs. destruct (year_facts y Hy) as (_ & _ & Hn). unfold civil_from_days.
  destruct (Z.eqb_spec y 399) as [->|Hne].
  - replace (days + 1 + 719468) with (0 + (era + 1) * 146097) by lia.
    rewrite Z.mod_add, Z.div_add by lia. change (era_date (0 mod 146097)) with (0, 3, 1).
    cbv beta iota. change (0 / 146097) with 0. change (3 <=? 2) with false. cbv iota.
    replace (0 + 400 * (0 + (era + 1)) + 0) with (399 + 1 + 400 * era) by lia. done.
  - replace (days + 1 + 719468) with (year_start (y + 1) + era * 146097) by lia.
    assert (0 <= year_start (y + 1) < 146097) by (unfold year_start; div_lia).
    rewrite Z.mod_add, Z.div_add, Z.mod_small, Z.div_small by lia.
    rewrite <- (Z.add_0_r (year_start (y + 1))), era_date_split; [|lia|pose proof (year_days_bound (y + 1)); lia].
    change (month_day 0) with (3, 1). cbn [fst snd]. change (3 <=? 2) with false. cbv iota.
    replace (y + 1 + 400 * (0 + era) + 0) with (y + 1 + 400 * era) by lia. done.
Qed.

Lemma civil_at days era y doy : 0 <= y < 400 -> 0 <= doy < year_days y ->
  days + 719468 = 146097 * era + (year_start y + doy) ->
  civil_from_days days =
    (y + 400 * era + (if (month_day doy).1 <=? 2 then 1 else 0), (month_day doy).1, (month_day doy).2).
Proof.
  intros Hy Hd Hs. destruct (year_facts y Hy) as (_ & _ & Hn).
  assert (0 <= year_start y + doy < 146097).
  { assert (0 <= year_start (y + 1) <= 146097 /\ 0 <= year_start y) by (unfold year_start; div_lia).
    destruct (Z.eqb_spec y 399); lia. }
  unfold civil_from_days. replace (days + 719468) with (year_start y + doy + era * 146097) by lia.
  rewrite Z.mod_add, Z.div_add, Z.mod_small, Z.div_small by lia. by rewrite era_date_split.
Qed.

(** Consecutive day numbers are consecutive dates. *)
Lemma civil_next days : civil_from_days (days + 1) = next_day (civil_from_days days).
Proof.
  destruct (civil_split days) as (era & y & doy & Hy & Hd & Hs & ->).
  assert (Hb := year_days_bound y). destruct (month_day doy) as [m d] eqn:Hmd. cbn [fst snd].
  destruct (day_facts doy m d) as (H1 & H2 & _ & H4 & H5 & H6 & H7); [lia|done|].
  assert (Hleap : m <= 2 -> leap (y + 400 * era + 1) = leap (y + 1)).
  { intros _. replace (y + 400 * era + 1) with (y + 1 + 400 * era) by lia. apply leap_era. }
  assert (Hlen : year_days y = if leap (y + 1) then 366 else 365) by done.
  destruct (Z.eq_dec (doy + 1) (year_days y)) as [Hlast|Hmore].
  - rewrite (new_year days era y doy) by done.
    assert (m = 2) as -> by (destruct (leap (y + 1)); lia). change (2 <=? 2) with true. cbv iota.
    unfold next_day, month_length. change (2 =? 2) with true. cbv iota. rewrite Hleap by lia.
    destruct (leap (y + 1)).
    + destruct (Z.ltb_spec d 29); [lia|]. change (2 =? 12) with false. cbv iota.
      replace (y + 1 + 400 * era) with (y + 400 * era + 1) by lia. done.
    + destruct (Z.ltb_spec d 28); [lia|]. change (2 =? 12) with false. cbv iota.
      replace (y + 1 + 400 * era) with (y + 400 * era + 1) by lia. done.
  - rewrite (civil_at (days + 1) era y (doy + 1)) by lia. rewrite H7 by lia. unfold next_day.
    destruct (Z.eqb_spec m 2) as [->|Hm2].
    + change (2 <=? 2) with true. unfold month_length. change (2 =? 2) with true. cbv iota. rewrite Hleap by lia.
      assert (d < (if leap (y + 1) then 29 else 28)) as Hlt by (destruct (leap (y + 1)); lia).
      destruct (Z.ltb_spec d 29) as [_|]; [|destruct (leap (y + 1)); lia].
      destruct (Z.ltb_spec d (if leap (y + 1) then 29 else 28)); [done|lia].
    + rewrite (month_length_other (y + 400 * era + (if m <=? 2 then 1 else 0)) 1 m) by done. destruct (d <? month_length 1 m).
      * cbn [fst snd]. done.
      * cbn [fst snd]. destruct (Z.eqb_spec m 12) as [->|Hm12].
        -- change (1 <=? 2) with true. change (12 <=? 2) with false. cbv iota.
           by rewrite Z.add_0_r.
        -- destruct (Z.leb_spec m 2), (Z.leb_spec (m + 1) 2); done || lia.
Qed.

(** *** Timestamps *)

Lemma to_dec_4 n : 1000 <= n <= 9999 ->
  to_dec n = [digit_char (n / 1000); digit_char (n / 100 mod 10); digit_char (n / 10 mod 10); digit_char (n mod 10)].
Proof.
  intros Hn. unfold to_dec. cbn [to_dec_aux].
  destruct (Z.ltb_spec n 10); [lia|]. destruct (Z.ltb_spec (n / 10) 10); [div_lia|].
  rewrite Z.div_div by lia. change (10 * 10) with 100. destruct (Z.ltb_spec (n / 100) 10); [div_lia|].
  rewrite Z.div_div by lia. change (100 * 10) with 1000. destruct (Z.ltb_spec (n / 1000) 10); [done|div_lia].
Qed.

Lemma digit_range n : 0 <= n mod 10 <= 9.
Proof. pose proof (Z.mod_pos_bound n 10). lia. Qed.

Lemma digits_2 n : 0 <= n <= 99 -> digits_val (pad 2 n []) = n.
Proof.
  intros Hn. cbn [pad]. unfold digits_val. cbn [foldl].
  rewrite !digit_val_digit_char by apply digit_range. div_lia.
Qed.
Lemma digits_3 n : 0 <= n <= 999 -> digits_val (pad 3 n []) = n.
Proof.
  intros Hn. cbn [pad]. unfold digits_val. cbn [foldl].
  rewrite !digit_val_digit_char by apply digit_range. div_lia.
Qed.
Lemma digits_4 n : 1000 <= n <= 9999 -> digits_val (to_dec n) = n.
Proof. intros Hn. apply to_dec_val. unfold u64_max. lia. Qed.

Lemma fields_formatted y mo d h mi s ms :
  1000 <= y <= 9999 ->
  timestamp_fields (to_dec y ++ ["-"%char] ++ pad 2 mo [] ++ ["-"%char] ++ pad 2 d [] ++ ["T"%char]
    ++ pad 2 h [] ++ [":"%char] ++ pad 2 mi [] ++ [":"%char] ++ pad 2 s [] ++ ["."%char]
    ++ pad 3 ms [] ++ ["Z"%char])
  = Some [to_dec y; pad 2 mo []; pad 2 d []; pad 2 h []; pad 2 mi []; pad 2 s []; pad 3 ms []].
Proof.
  intros Hy. rewrite to_dec_4 by done. cbn [pad app]. unfold timestamp_fields. cbn [forallb fst snd].
  assert (0 <= y / 1000 <= 9) by div_lia.
  rewrite !is_digit_digit_char by (apply digit_range || done). done.
Qed.

Lemma gmtime_range secs : 0 <= secs <= 9223372036 ->
  let t := gmtime secs in
  1000 <= tm_year t <= 9999 /\ 1 <= tm_mon t <= 12 /\ 1 <= tm_mday t <= 31
  /\ 0 <= tm_hour t <= 23 /\ 0 <= tm_min t <= 59 /\ 0 <= tm_sec t <= 59.
Proof.
  intros Hs. unfold gmtime. assert (Hd : 0 <= secs / 86400 <= 106751) by div_lia.
  destruct (civil_from_days (secs / 86400)) as [[y m] d] eqn:E. cbn [tm_year tm_mon tm_mday tm_hour tm_min tm_sec].
  destruct (days_civil _ _ _ _ E) as (_ & Hm & Hday).
  destruct (civil_split (secs / 86400)) as (era & yoe & doy & Hy & Hdoy & Hsum & E2).
  rewrite E in E2. apply triple_eq in E2 as (-> & -> & ->).
  assert (Hb := year_days_bound yoe).
  assert (0 <= year_start yoe <= 145731) by (unfold year_start; div_lia).
  split_and!; try lia; try (destruct (_ <=? 2); lia); div_lia.
Qed.

Lemma timegm_gmtime secs : timegm (gmtime secs) = secs.
Proof.
  unfold timegm, gmtime. destruct (civil_from_days (secs / 86400)) as [[y m] d] eqn:E.
  cbn [tm_year tm_mon tm_mday tm_hour tm_min tm_sec].
  destruct (days_civil _ _ _ _ E) as (Hdays & Hm & Hd).
  rewrite Z.div_small, Z.mod_small by lia. rewrite Z.add_0_r. replace (m - 1 + 1) with m by lia.
  replace (days_from_civil y m 1 + d - 1) with (days_from_civil y m d) by (unfold days_from_civil; cbv zeta; lia).
  rewrite Hdays. div_lia.
Qed.

Lemma same_fields_wday t w : same_fields t (mkTm (tm_year t) (tm_mon t) (tm_mday t) (tm_hour t) (tm_min t) (tm_sec t) w) = true.
Proof. unfold same_fields. simpl. by rewrite !Z.eqb_refl. Qed.

Lemma timegm_wday t w : timegm (mkTm (tm_year t) (tm_mon t) (tm_mday t) (tm_hour t) (tm_min t) (tm_sec t) w) = timegm t.
Proof. by destruct t. Qed.

Lemma ns64_small z : 0 <= z <= i64_max -> ns64 z = z.
Proof. intros Hz. unfold ns64, i64_max in *. rewrite Z.mod_small; lia. Qed.

Lemma parse_format v : 0 <= v <= i64_max ->
  parse_utc_timestamp (format_utc_timestamp v) = Ok (v - v mod 1000000).
Proof.
  intros Hv. unfold format_utc_timestamp, parse_utc_timestamp. cbv zeta.
  rewrite (Z.quot_div_nonneg v 1000000) by (unfold i64_max in *; lia). set (ms := v / 1000000).
  assert (Hms : 0 <= ms <= 9223372036854) by (unfold ms, i64_max in *; div_lia).
  rewrite (Z.quot_div_nonneg ms 1000), (Z.rem_mod_nonneg ms 1000) by lia. set (secs := ms / 1000).
  assert (Hsecs : 0 <= secs <= 9223372036) by (unfold secs; div_lia).
  assert (Hrem : 0 <= ms mod 1000 <= 999) by (pose proof (Z.mod_pos_bound ms 1000); lia).
  destruct (Z.ltb_spec (ms mod 1000) 0); [lia|].
  destruct (gmtime_range secs Hsecs) as (Hy & Hmo & Hd & Hh & Hmi & Hs).
  rewrite chars_of_of_chars, fields_formatted by done.
  rewrite digits_4, !digits_2, digits_3 by lia.
  rewrite timegm_wday, timegm_gmtime. destruct (Z.ltb_spec secs 0); [lia|].
  rewrite same_fields_wday. cbn [orb negb]. f_equal.
  assert (Hsum : secs * 1000000000 + ms mod 1000 * 1000000 = v - v mod 1000000) by (unfold secs, ms; div_lia).
  rewrite (ns64_small (secs * 1000000000)) by (unfold i64_max in *; lia). rewrite Hsum.
  apply ns64_small. unfold i64_max in *. div_lia.
Qed.

(** ** Properties *)

(** The calendar of the timestamps is the Gregorian one: day 0 is 1 January 1970 and the date of
    the day after a day is the next date, with the usual lengths of the months and leap years. *)
Theorem gregorian_calendar days :
  civil_from_days 0 = (1970, 1, 1) /\ civil_from_days (days + 1) = next_day (civil_from_days days).
Proof. split; [reflexivity|apply civil_next]. Qed.

(** A formatted time point parses back to the time point truncated to milliseconds, for every
    time from 1970 to the end of the 64-bit nanosecond clock. *)
Theorem timestamp_roundtrip v : 0 <= v <= i64_max ->
  parse_utc_timestamp (format_utc_timestamp v) = Ok (v - v mod 1000000).
Proof. apply parse_format. Qed.

Lemma timestamp_roundtrip_witness :
  parse_utc_timestamp (format_utc_timestamp 1709276400123456789) = Ok 1709276400123000000.
Proof. apply (timestamp_roundtrip 1709276400123456789). unfold i64_max. lia. Defined.
