(* ===== verification/Cron.v ===== *)
(** * Cron expressions

    The five-field cron expressions of [src/scheduler/scheduler.cpp]: parsing of a field into the
    set of its values, matching of a calendar minute, and the search for the next occurrence. *)

From S2P Require Import Prelude Text Clock.
From Stdlib Require Import Ascii.

(** [number]: at most six decimal digits within a range. *)
Definition cron_number (value : string) (minimum maximum : Z) : res Z :=
  if empty_str value || (6 <? size_of value) || negb (forallb is_digit (chars_of value))
  then Throw (err Validation "Invalid numeric schedule field")
  else
    let parsed := digits_val (chars_of value) in
    if (parsed <? minimum) || (maximum <? parsed)
    then Throw (err Validation "Schedule field is outside its allowed range") else Ok parsed.

Record CronField := mkField { values : list bool; wildcard : bool }.

(** One part of a field: whether it is a wildcard, its first and last value and its step. *)
Definition cron_part (part : string) (minimum maximum : Z) : res (bool * Z * Z * Z) :=
  if empty_str part then Throw (err Validation "Invalid cron list")
  else
    match split part "/"%char with
    | base :: rest =>
        if (1 <? Z.of_nat (length rest)) || empty_str base
           || match rest with s :: _ => empty_str s | [] => false end
        then Throw (err Validation "Invalid cron step")
        else
          (match rest with s :: _ => cron_number s 1 (maximum - minimum + 1) | [] => Ok 1 end) ≫= fun step =>
          if String.eqb base "*" then Ok (true, minimum, maximum, step)
          else
            match split base "-"%char with
            | lo :: hi =>
                if (1 <? Z.of_nat (length hi)) || empty_str lo
                then Throw (err Validation "Invalid cron range")
                else
                  cron_number lo minimum maximum ≫= fun first =>
                  (match hi with h :: _ => cron_number h minimum maximum | [] => Ok first end) ≫= fun last =>
                  if last <? first then Throw (err Validation "Cron range is reversed")
                  else Ok (false, first, last, step)
            | [] => Throw (err Validation "Invalid cron range")
            end
    | [] => Throw (err Validation "Invalid cron step")
    end.

Definition normalize (sunday_alias : bool) (value : Z) : Z :=
  if sunday_alias && (value =? 7) then 0 else value.

(** [for (value = first; value <= last; value += step) ...]; [fuel] bounds the iterations by the
    number of values. *)
Fixpoint mark (fuel : nat) (alias : bool) (value last step : Z) (vs : list bool) : list bool :=
  match fuel with
  | O => vs
  | S fuel =>
      if last <? value then vs
      else
        let vs := <[Z.to_nat (normalize alias value) := true]> vs in
        if last - value <? step then vs else mark fuel alias (value + step) last step vs
  end.

Definition add_part (minimum maximum : Z) (alias : bool) (f : CronField) (part : string) : res CronField :=
  '(wild, first, last, step) ← cron_part part minimum maximum;
  Ok (mkField (mark (Z.to_nat (maximum - minimum + 1)) alias first last step (values f)) (wildcard f || wild)).
Fixpoint add_parts (minimum maximum : Z) (alias : bool) (f : CronField) (parts : list string) : res CronField :=
  match parts with
  | [] => Ok f
  | p :: parts => f ← add_part minimum maximum alias f p; add_parts minimum maximum alias f parts
  end.

Definition cron_field (text : string) (minimum maximum : Z) (sunday_alias : bool) : res CronField :=
  if empty_str text || (64 <? size_of text) then Throw (err Validation "Invalid cron field")
  else add_parts minimum maximum sunday_alias
         (mkField (replicate (Z.to_nat (maximum + 1)) false) false) (split text ","%char).

Record Cron := mkCron {
  c_minute : CronField; c_hour : CronField; c_day : CronField; c_month : CronField; c_weekday : CronField }.

Definition parse_cron (expression : string) : res Cron :=
  match filter (fun s => empty_str s = false) (split expression " "%char) with
  | [mi; h; d; mo; wd] =>
      mi ← cron_field mi 0 59 false;
      h ← cron_field h 0 23 false;
      d ← cron_field d 1 31 false;
      mo ← cron_field mo 1 12 false;
      wd ← cron_field wd 0 7 true;
      Ok (mkCron mi h d mo wd)
  | _ => Throw (err Validation "Cron must use exactly five UTC fields")
  end.

(** [field.values[index]] *)
Definition field_at (f : CronField) (i : Z) : bool := default false (values f !! Z.to_nat i).

Definition cron_match (cron : Cron) (t : tm) : bool :=
  if negb (field_at (c_minute cron) (tm_min t)) || negb (field_at (c_hour cron) (tm_hour t))
     || negb (field_at (c_month cron) (tm_mon t)) then false
  else
    let day_match := field_at (c_day cron) (tm_mday t) in
    let weekday_match := field_at (c_weekday cron) (tm_wday t) in
    if negb (wildcard (c_day cron)) && negb (wildcard (c_weekday cron))
    then day_match || weekday_match else day_match && weekday_match.

Definition search_limit : Z := 5 * 366 * 24 * 60.
Definition minute_ns : Z := 60000000000.

(** The candidate is a count of minutes; [to_time_t] and [format_utc_timestamp] take it in
    nanoseconds. *)
Definition candidate_time (candidate : Z) : Z := ns64 (candidate * minute_ns).
Definition candidate_match (cron : Cron) (candidate : Z) : bool :=
  cron_match cron (gmtime (Z.quot (candidate_time candidate) 1000000000)).
Fixpoint cron_search (fuel : nat) (cron : Cron) (candidate : Z) : res string :=
  match fuel with
  | O => Throw (err Validation "Cron expression has no occurrence in its search bound")
  | S fuel =>
      if candidate_match cron candidate then Ok (format_utc_timestamp (candidate_time candidate))
      else cron_search fuel cron (candidate + 1)
  end.

Definition cron_next (expression after : string) : res string :=
  cron ← parse_cron expression;
  start ← parse_utc_timestamp after;
  cron_search (Z.to_nat search_limit) cron (Z.quot start minute_ns + 1).

(** ** Lemmas *)

Lemma mark_length fuel alias last step : forall value vs, length (mark fuel alias value last step vs) = length vs.
Proof.
  induction fuel as [|fuel IH]; intros value vs; simpl; [done|]. destruct (last <? value); [done|].
  destruct (last - value <? step); [by rewrite length_insert|]. by rewrite IH, length_insert.
Qed.

(** The values a part stands for. *)
Definition selects (first last step v : Z) : Prop := first <= v <= last /\ (v - first) mod step = 0.

Lemma list_mark_spec (vs : list bool) (i j : nat) : (i < length vs)%nat ->
  default false (<[i := true]> vs !! j) = true <-> i = j \/ default false (vs !! j) = true.
Proof.
  intros Hi. destruct (decide (i = j)) as [->|Hne].
  - rewrite list_lookup_insert_eq by done. simpl. tauto.
  - rewrite list_lookup_insert_ne by done. tauto.
Qed.

Lemma mark_spec alias last step : 1 <= step -> forall fuel value vs i,
  0 <= value -> (Z.to_nat (last - value + 1) <= fuel)%nat ->
  (forall v, value <= v <= last -> (Z.to_nat (normalize alias v) < length vs)%nat) ->
  default false (mark fuel alias value last step vs !! i) = true <->
  default false (vs !! i) = true \/ exists v, selects value last step v /\ Z.to_nat (normalize alias v) = i.
Proof.
  intros Hstep. unfold selects. induction fuel as [|fuel IH]; intros value vs i Hv Hf Hlen; simpl.
  { split; [auto|]. intros [?|(v & [? _] & _)]; [done|]. lia. }
  destruct (Z.ltb_spec last value) as [Hlt|Hge].
  { split; [auto|]. intros [?|(v & [? _] & _)]; [done|]. lia. }
  assert (Hi : (Z.to_nat (normalize alias value) < length vs)%nat) by (apply Hlen; lia).
  destruct (Z.ltb_spec (last - value) step) as [Hs|Hs].
  - rewrite list_mark_spec by done. split.
    + intros [H|H]; [|auto]. right. exists value. split; [|done]. split; [lia|]. by rewrite Z.sub_diag.
    + intros [H|(v & [Hr Hm] & Hn)]; [auto|]. left. rewrite Z.mod_small in Hm by lia. by replace value with v by lia.
  - rewrite IH; [|lia|lia|].
    2: { intros v Hr. rewrite length_insert. apply Hlen. lia. }
    rewrite list_mark_spec by done. split.
    + intros [[H|H]|(v & [Hr Hm] & Hn)]; [|auto|].
      * right. exists value. split; [|done]. split; [lia|]. by rewrite Z.sub_diag.
      * right. exists v. split; [|done]. split; [lia|].
        replace (v - value) with (v - (value + step) + 1 * step) by lia. by rewrite Z.mod_add by lia.
    + intros [H|(v & [Hr Hm] & Hn)]; [auto|]. destruct (decide (v = value)) as [->|Hne]; [auto|].
      right. exists v. split; [|done]. apply Z.mod_divide in Hm as [q Hq]; [|lia].
      assert (1 <= q) by nia. split; [nia|]. replace (v - (value + step)) with ((q - 1) * step) by lia.
      by rewrite Z.mod_mul by lia.
Qed.

Lemma cron_number_range s lo hi v : cron_number s lo hi = Ok v -> lo <= v <= hi.
Proof.
  unfold cron_number. destruct (_ || _); [done|]. destruct (Z.ltb_spec (digits_val (chars_of s)) lo),
    (Z.ltb_spec hi (digits_val (chars_of s))); simpl; intros [= <-] || done; lia.
Qed.

Lemma cron_part_range part lo hi w first last step : lo <= hi ->
  cron_part part lo hi = Ok (w, first, last, step) ->
  lo <= first <= last /\ last <= hi /\ 1 <= step.
Proof.
  intros Hlh. unfold cron_part. destruct (empty_str part); [done|].
  destruct (split part "/"%char) as [|base rest]; [done|]. destruct (_ || _ || _); [done|].
  intros (st & Hst & Hb)%res_bind_ok.
  assert (1 <= st) by (destruct rest; [by injection Hst as <-|apply cron_number_range in Hst; lia]).
  destruct (String.eqb base "*"); [injection Hb as <- <- <- <-; lia|].
  destruct (split base "-"%char) as [|l h]; [done|]. destruct (_ || _); [done|].
  apply res_bind_ok in Hb as (f & Hf & Hb). apply res_bind_ok in Hb as (la & Hla & Hb).
  destruct (Z.ltb_spec la f); [done|]. injection Hb as <- <- <- <-.
  apply cron_number_range in Hf. assert (la <= hi); [|lia].
  destruct h; [injection Hla as <-; lia|apply cron_number_range in Hla; lia].
Qed.

(** What a list of parts stands for. *)
Definition part_selects (minimum maximum : Z) (part : string) (v : Z) : Prop :=
  exists w first last step, cron_part part minimum maximum = Ok (w, first, last, step)
    /\ selects first last step v.

Lemma add_parts_spec lo hi alias : 0 <= lo <= hi -> forall parts f f' i,
  length (values f) = Z.to_nat (hi + 1) -> add_parts lo hi alias f parts = Ok f' ->
  length (values f') = Z.to_nat (hi + 1) /\
  (field_at f' i = true <-> field_at f i = true \/
     exists part v, part ∈ parts /\ part_selects lo hi part v /\ Z.to_nat (normalize alias v) = Z.to_nat i).
Proof.
  intros Hlh. induction parts as [|p parts IH]; intros f f' i Hlen Ha; simpl in Ha.
  { injection Ha as <-. split; [done|]. split; [auto|]. intros [?|(? & ? & []%elem_of_nil & _)]; done. }
  apply res_bind_ok in Ha as (f1 & H1 & Ha). unfold add_part in H1.
  apply res_bind_ok in H1 as ([[[w first] last] step] & Hp & H1). injection H1 as <-.
  destruct (cron_part_range _ _ _ _ _ _ _ (proj2 Hlh) Hp) as (Hr1 & Hr2 & Hr3).
  match type of Ha with add_parts _ _ _ ?f1 _ = _ =>
    destruct (IH f1 f' i) as [Hl Hi]; [simpl; by rewrite mark_length|exact Ha|] end.
  split; [done|].
  rewrite Hi. clear Hi. unfold field_at at 1. simpl.
  rewrite mark_spec; [|lia|lia|lia|].
  2: { intros v Hv. rewrite Hlen. unfold normalize. destruct (_ && _); lia. }
  split.
  - intros [[H|(v & Hs & Hn)]|(part & v & Hin & Hs)]; [by left| |].
    + right. exists p, v. split; [by left|]. split; [|done]. by exists w, first, last, step.
    + right. exists part, v. split; [by right|done].
  - intros [H|(part & v & Hin & Hs & Hn)]; [by left; left|]. apply elem_of_cons in Hin as [->|Hin].
    + left. right. exists v. split; [|done]. destruct Hs as (w' & f2 & l2 & s2 & Hp' & Hs).
      rewrite Hp in Hp'. by injection Hp' as <- <- <- <-.
    + right. exists part, v. done.
Qed.

Lemma field_empty n i : field_at (mkField (replicate n false) false) i = false.
Proof.
  unfold field_at. simpl. destruct (replicate n false !! Z.to_nat i) as [b|] eqn:E; [|done].
  apply lookup_replicate in E as [-> _]. done.
Qed.

Lemma cron_search_ok cron : forall fuel candidate,
  match cron_search fuel cron candidate with
  | Ok s => exists k, 0 <= k < Z.of_nat fuel /\ s = format_utc_timestamp (candidate_time (candidate + k))
      /\ candidate_match cron (candidate + k) = true
      /\ forall j, 0 <= j < k -> candidate_match cron (candidate + j) = false
  | Throw e => code e = Validation /\ forall j, 0 <= j < Z.of_nat fuel -> candidate_match cron (candidate + j) = false
  end.
Proof.
  induction fuel as [|fuel IH]; intros candidate; cbn [cron_search].
  { split; [done|]. intros j Hj. simpl in Hj. lia. }
  destruct (candidate_match cron candidate) eqn:E.
  { exists 0. rewrite Z.add_0_r. split; [lia|]. split; [done|]. split; [done|]. intros; lia. }
  specialize (IH (candidate + 1)). destruct (cron_search fuel cron (candidate + 1)) as [s|e].
  - destruct IH as (k & Hk & Hs & Hm & Hj). exists (k + 1). rewrite Nat2Z.inj_succ.
    replace (candidate + (k + 1)) with (candidate + 1 + k) by lia. split; [lia|]. split; [done|]. split; [done|].
    intros j Hjk. destruct (decide (j = 0)) as [->|]; [by rewrite Z.add_0_r|].
    replace (candidate + j) with (candidate + 1 + (j - 1)) by lia. apply Hj. lia.
  - destruct IH as [Hc Hj]. split; [done|]. intros j Hjk. rewrite Nat2Z.inj_succ in Hjk.
    destruct (decide (j = 0)) as [->|]; [by rewrite Z.add_0_r|].
    replace (candidate + j) with (candidate + 1 + (j - 1)) by lia. apply Hj. lia.
Qed.

(** The latest start from which the search stays within the range of the clock. *)
Definition latest_start : Z := i64_max - (search_limit + 1) * minute_ns.

Lemma candidate_range start k : 0 <= start <= latest_start -> 1 <= k <= search_limit ->
  let t := (start / minute_ns + k) * minute_ns in
  candidate_time (Z.quot start minute_ns + k) = t /\ start < t /\ 0 <= t <= i64_max /\ t mod 1000000 = 0.
Proof.
  intros Hs Hk t. assert (Hq : Z.quot start minute_ns = start / minute_ns)
    by (apply Z.quot_div_nonneg; unfold minute_ns; lia).
  assert (Ht : 0 <= t <= i64_max /\ start < t).
  { unfold latest_start, search_limit, minute_ns, i64_max in *. unfold t. div_lia. }
  unfold candidate_time. rewrite Hq. fold t. destruct Ht as [Ht1 Ht2]. split; [by apply ns64_small|].
  split; [lia|]. split; [lia|]. unfold t, minute_ns.
  replace ((start / 60000000000 + k) * 60000000000) with ((start / 60000000000 + k) * 60000 * 1000000) by lia.
  by apply Z.mod_mul.
Qed.

Lemma cron_next_spec expression after cron start :
  parse_cron expression = Ok cron -> parse_utc_timestamp after = Ok start -> 0 <= start <= latest_start ->
  let minute k := (start / minute_ns + k) * minute_ns in
  let matches k := cron_match cron (gmtime (minute k / 1000000000)) in
  match cron_next expression after with
  | Ok s => exists k, 1 <= k <= search_limit /\ s = format_utc_timestamp (minute k)
      /\ parse_utc_timestamp s = Ok (minute k) /\ start < minute k /\ matches k = true
      /\ forall j, 1 <= j < k -> matches j = false
  | Throw e => code e = Validation /\ forall j, 1 <= j <= search_limit -> matches j = false
  end.
Proof.
  intros Hc Ha Hs minute matches. unfold cron_next. rewrite Hc, Ha. cbn [mbind res_bind].
  assert (Hm : forall k, 1 <= k <= search_limit ->
    candidate_match cron (Z.quot start minute_ns + k) = matches k).
  { intros k Hk. destruct (candidate_range start k Hs Hk) as (Ht & _ & Hr & _).
    unfold candidate_match. rewrite Ht, Z.quot_div_nonneg by lia. done. }
  assert (Hl : Z.of_nat (Z.to_nat search_limit) = search_limit) by (apply Z2Nat.id; unfold search_limit; lia).
  assert (H := cron_search_ok cron (Z.to_nat search_limit) (Z.quot start minute_ns + 1)). rewrite Hl in H.
  destruct (cron_search _ cron _) as [s|e].
  - destruct H as (k & Hk & Hs' & Hmk & Hj). exists (1 + k).
    rewrite <- Z.add_assoc in Hs', Hmk.
    destruct (candidate_range start (1 + k) Hs) as (Ht & Hlt & Hr & Hz); [lia|]. rewrite Ht in Hs'.
    split; [lia|]. split; [done|]. split.
    { rewrite Hs', parse_format by done. fold (minute (1 + k)) in Hz |- *. f_equal. lia. }
    split; [done|]. split; [rewrite <- Hm by lia; done|].
    intros j Hjk. rewrite <- Hm by lia. specialize (Hj (j - 1)).
    rewrite <- Z.add_assoc in Hj. replace (1 + (j - 1)) with j in Hj by lia. apply Hj. lia.
  - destruct H as [Hcode Hj]. split; [done|]. intros j Hjk. rewrite <- Hm by done. specialize (Hj (j - 1)).
    rewrite <- Z.add_assoc in Hj. replace (1 + (j - 1)) with j in Hj by lia. apply Hj. lia.
Qed.

(** ** Properties *)

(** C40: The next occurrence of a cron expression is the first minute after the given time whose
    UTC calendar fields the expression matches.  [cron_next] returns the timestamp of that minute,
    which parses back to it; when no minute of the next five leap years matches, it throws a
    validation error.  The hypothesis keeps the search inside the range of the clock (year 2257). *)
Theorem cron_next_first expression after cron start :
  parse_cron expression = Ok cron -> parse_utc_timestamp after = Ok start -> 0 <= start <= latest_start ->
  let minute k := (start / minute_ns + k) * minute_ns in
  let matches k := cron_match cron (gmtime (minute k / 1000000000)) in
  match cron_next expression after with
  | Ok s => exists k, 1 <= k <= search_limit /\ s = format_utc_timestamp (minute k)
      /\ parse_utc_timestamp s = Ok (minute k) /\ start < minute k /\ matches k = true
      /\ forall j, 1 <= j < k -> matches j = false
  | Throw e => code e = Validation /\ forall j, 1 <= j <= search_limit -> matches j = false
  end.
Proof. apply cron_next_spec. Qed.

Definition sample_cron : string := "30 6 * * 1-5".
Definition sample_after : string := "2024-03-01T07:00:00.000Z".
Definition ok_or {A} (d : A) (r : res A) : A := match r with Ok a => a | Throw _ => d end.
Definition sample_cron_parsed : Cron :=
  ok_or (mkCron (mkField [] false) (mkField [] false) (mkField [] false) (mkField [] false) (mkField [] false))
    (parse_cron sample_cron).

Lemma cron_next_first_witness :
  match cron_next sample_cron sample_after with
  | Ok s => exists k, 1 <= k <= search_limit
      /\ parse_utc_timestamp s = Ok ((1709276400000000000 / minute_ns + k) * minute_ns)
  | Throw _ => False
  end.
Proof.
  assert (H := cron_next_first sample_cron sample_after sample_cron_parsed 1709276400000000000
    ltac:(vm_compute; reflexivity) ltac:(vm_compute; reflexivity)
    ltac:(vm_compute; split; discriminate)).
  cbv zeta in H. destruct (cron_next sample_cron sample_after) as [s|e] eqn:E.
  - destruct H as (k & Hk & _ & Hp & _). exists k. split; [exact Hk|exact Hp].
  - vm_compute in E. discriminate E.
Defined.

(** A parsed cron field is the set of values its text denotes: value [i] is marked exactly when
    some comma-separated part of the text, a star, a number or a range with a step, selects a value
    that is [i], Sunday written as 7 counting as 0; the field has one entry per value. *)
Theorem cron_field_correct text minimum maximum alias f : 0 <= minimum <= maximum ->
  cron_field text minimum maximum alias = Ok f ->
  length (values f) = Z.to_nat (maximum + 1) /\
  forall i, 0 <= i -> field_at f i = true <->
    exists part v, part ∈ split text ","%char /\ part_selects minimum maximum part v /\ normalize alias v = i.
Proof.
  intros Hr. unfold cron_field. destruct (_ || _); [done|]. intros Hf.
  assert (Hlen : length (values (mkField (replicate (Z.to_nat (maximum + 1)) false) false)) = Z.to_nat (maximum + 1))
    by (simpl; by rewrite length_replicate).
  split; [by apply (add_parts_spec _ _ _ Hr _ _ _ 0 Hlen Hf)|].
  intros i Hi. destruct (add_parts_spec _ _ _ Hr _ _ _ i Hlen Hf) as [_ ->].
  rewrite field_empty. split.
  - intros [?|(part & v & Hin & Hs & Hn)]; [done|]. exists part, v. split; [done|]. split; [done|].
    assert (0 <= normalize alias v); [|lia].
    destruct Hs as (w & fi & la & st & Hp & [Hs _]). apply cron_part_range in Hp; [|lia].
    unfold normalize. destruct (_ && _); lia.
  - intros (part & v & Hin & Hs & Hn). right. exists part, v. by rewrite Hn.
Qed.

Lemma cron_field_correct_witness :
  field_at (ok_or (mkField [] false) (cron_field "1-5,7" 0 7 true)) 0 = true /\
  exists part v, part ∈ split "1-5,7" ","%char /\ part_selects 0 7 part v /\ normalize true v = 0.
Proof.
  split; [reflexivity|].
  apply (cron_field_correct "1-5,7" 0 7 true (ok_or (mkField [] false) (cron_field "1-5,7" 0 7 true))
    ltac:(lia) ltac:(reflexivity)); [lia|reflexivity].
Defined.
