(* ===== verification/Schedule.v ===== *)
(** * Schedules and event triggers

    The durable definitions of [include/laso/scheduler/scheduler.hpp] and their parsing,
    validation, JSON documents and due times in [src/scheduler/scheduler.cpp].  [fresh] and [now]
    are the strings [uuid()] and [timestamp()] return while an object is constructed; [clock] is a
    reading of the system clock. *)

From S2P Require Import Prelude Json Types Text Db Codec Store Effects Clock Cron.
From Stdlib Require Import Ascii.

(** [struct ScheduleDefinition] *)
Record ScheduleDefinition := mkSchedule {
  sc_id : string;
  sc_name : string;
  sc_pipeline_id : string;
  sc_pipeline_version : Z;
  sc_type : string;
  sc_at : string;
  interval_ms : string;
  sc_cron : string;
  sc_input : Json;
  sc_enabled : bool;
  sc_deleted : bool;
  queued : bool;
  sc_created_at : string;
  sc_updated_at : string;
  next_due_at : string;
  last_due_at : string;
  last_started_at : string;
  last_completed_run_id : string;
  queued_due_at : string;
  misfire_policy : string;
  overlap_policy : string;
  missed_count : Z }.
#[global] Instance eta_ScheduleDefinition : Eta ScheduleDefinition := fun r => mkSchedule
    (sc_id r) (sc_name r) (sc_pipeline_id r) (sc_pipeline_version r) (sc_type r) (sc_at r)
    (interval_ms r) (sc_cron r) (sc_input r) (sc_enabled r) (sc_deleted r) (queued r)
    (sc_created_at r) (sc_updated_at r) (next_due_at r) (last_due_at r) (last_started_at r)
    (last_completed_run_id r) (queued_due_at r) (misfire_policy r) (overlap_policy r)
    (missed_count r).

(** [struct TriggerDefinition] *)
Record TriggerDefinition := mkTrigger {
  tr_id : string;
  tr_name : string;
  tr_pipeline_id : string;
  event_type : string;
  tr_pipeline_version : Z;
  tr_match : Json;
  tr_enabled : bool;
  tr_deleted : bool;
  tr_created_at : string;
  tr_updated_at : string }.
#[global] Instance eta_TriggerDefinition : Eta TriggerDefinition := fun r => mkTrigger
    (tr_id r) (tr_name r) (tr_pipeline_id r) (event_type r) (tr_pipeline_version r) (tr_match r)
    (tr_enabled r) (tr_deleted r) (tr_created_at r) (tr_updated_at r).

(** [struct LaunchRequest] *)
Record LaunchRequest := mkLaunch {
  lr_pipeline_id : string; lr_pipeline_version : Z; lr_input : Json; lr_origin : Json }.

(** [ScheduleDefinition s;] and [TriggerDefinition t;] *)
Definition new_schedule (fresh now : string) : ScheduleDefinition := {|
  sc_id := fresh; sc_name := ""; sc_pipeline_id := ""; sc_pipeline_version := 1; sc_type := "";
  sc_at := ""; interval_ms := ""; sc_cron := ""; sc_input := JObject []; sc_enabled := true;
  sc_deleted := false; queued := false; sc_created_at := now; sc_updated_at := now;
  next_due_at := ""; last_due_at := ""; last_started_at := ""; last_completed_run_id := "";
  queued_due_at := ""; misfire_policy := "SKIP"; overlap_policy := "ALLOW"; missed_count := 0 |}.
Definition new_trigger (fresh now : string) : TriggerDefinition := {|
  tr_id := fresh; tr_name := ""; tr_pipeline_id := ""; event_type := ""; tr_pipeline_version := 1;
  tr_match := JObject []; tr_enabled := true; tr_deleted := false; tr_created_at := now;
  tr_updated_at := now |}.

Definition max_schedule_input : Z := 1 * 1024 * 1024.
Definition max_match_bytes : Z := 16 * 1024.
Definition max_lateness : Z := 1000000000.

(** [interval_value] *)
Definition max_interval : Z := 365 * 24 * 60 * 60 * 1000.
Definition interval_value (s : ScheduleDefinition) : res Z :=
  if empty_str (interval_ms s) then Throw (err Validation "Interval schedule requires interval_ms")
  else
    match stoll (chars_of (interval_ms s)) with
    | Some (value, stop) =>
        if negb (Z.of_nat stop =? size_of (interval_ms s)) || (value <=? 0) || (max_interval <? value)
        then Throw (err Validation "Interval must be a positive bounded millisecond duration")
        else Ok value
    | None => Throw (err Validation "Interval must be a positive bounded millisecond duration")
    end.

Definition is_due (due : string) (now : Z) : res bool :=
  if empty_str due then Ok false else t ← parse_utc_timestamp due; Ok (t <=? now).
Definition is_late (due : string) (now : Z) : res bool :=
  if empty_str due then Ok true else t ← parse_utc_timestamp due; Ok (max_lateness <? ns64 (now - t)).

Definition event_type_character (c : ascii) : bool := is_alnum c || one_of ["_"; "."; "-"]%char c.
Definition is_scalar (value : Json) : bool :=
  is_string value || is_boolean value || is_number value || is_null value.
(** [j.size()] *)
Definition json_size (j : Json) : Z :=
  match j with
  | JNull => 0
  | JArray l => Z.of_nat (length l)
  | JObject l => Z.of_nat (length l)
  | _ => 1
  end.
Definition members (j : Json) : list (string * Json) := match j with JObject l => l | _ => [] end.

Section Schedules.
Context `{JsonLib}.

Definition check_timestamp (value : string) : res unit :=
  if empty_str value then Ok tt else _ ← parse_utc_timestamp value; Ok tt.

Definition validate_schedule (s : ScheduleDefinition) : tres unit :=
  too_large ← (if empty_str (sc_id s) || (128 <? size_of (sc_id s)) || empty_str (sc_name s)
                  || (128 <? size_of (sc_name s)) || empty_str (sc_pipeline_id s)
                  || (128 <? size_of (sc_pipeline_id s)) || (sc_pipeline_version s =? 0)
               then TOk true else dump_exceeds (sc_input s) max_schedule_input);
  _ ← tguard too_large Validation "Invalid schedule identity or input";
  _ ← tguard (negb (str_one_of (sc_type s) ["one_time"; "interval"; "cron"]%string)) Validation
        "Unsupported schedule type";
  _ ← (if String.eqb (sc_type s) "one_time" then
         _ ← tguard (empty_str (sc_at s)) Validation "One-time schedule requires at";
         _ ← of_res (parse_utc_timestamp (sc_at s)); TOk tt
       else if String.eqb (sc_type s) "interval" then
         _ ← of_res (interval_value s); of_res (check_timestamp (sc_at s))
       else _ ← of_res (parse_cron (sc_cron s)); TOk tt);
  _ ← of_res (check_timestamp (next_due_at s));
  _ ← of_res (check_timestamp (queued_due_at s));
  _ ← tguard (negb (str_one_of (misfire_policy s) ["SKIP"; "RUN_ONCE"]%string)) Validation
        "Unsupported misfire policy";
  tguard (negb (str_one_of (overlap_policy s) ["ALLOW"; "SKIP"; "QUEUE_ONE"]%string)) Validation
    "Unsupported overlap policy".

Definition validate_trigger (t : TriggerDefinition) : tres unit :=
  bad ← (if empty_str (tr_id t) || (128 <? size_of (tr_id t)) || empty_str (tr_name t)
            || (128 <? size_of (tr_name t)) || empty_str (tr_pipeline_id t)
            || (128 <? size_of (tr_pipeline_id t)) || (tr_pipeline_version t =? 0)
            || empty_str (event_type t) || (128 <? size_of (event_type t))
            || negb (forallb event_type_character (chars_of (event_type t)))
            || negb (is_object (tr_match t)) || (32 <? json_size (tr_match t))
         then TOk true else dump_exceeds (tr_match t) max_match_bytes);
  _ ← tguard bad Validation "Invalid event trigger definition";
  tguard (existsb (fun kv => empty_str kv.1 || (128 <? size_of kv.1) || negb (is_scalar kv.2))
            (members (tr_match t))) Validation "Event trigger filters must use scalar values".

Definition next_schedule_due (clock : Z) (s : ScheduleDefinition) (after : string) : tres string :=
  _ ← validate_schedule s;
  let base := if empty_str after then format_utc_timestamp clock else after in
  if String.eqb (sc_type s) "one_time" then TOk ""%string
  else if String.eqb (sc_type s) "cron" then of_res (cron_next (sc_cron s) base)
  else
    value ← of_res (interval_value s);
    t ← of_res (parse_utc_timestamp base);
    TOk (format_utc_timestamp (ns64 (t + value * 1000000))).

(** *** Documents *)

Definition schedule_to_json (s : ScheduleDefinition) : Json := mk_object [
  ("id", JString (sc_id s));
  ("name", JString (sc_name s));
  ("pipeline_id", JString (sc_pipeline_id s));
  ("pipeline_version", JUnsigned (sc_pipeline_version s));
  ("type", JString (sc_type s));
  ("at", JString (sc_at s));
  ("interval_ms", JString (interval_ms s));
  ("cron", JString (sc_cron s));
  ("input", sc_input s);
  ("enabled", JBool (sc_enabled s));
  ("deleted", JBool (sc_deleted s));
  ("queued", JBool (queued s));
  ("created_at", JString (sc_created_at s));
  ("updated_at", JString (sc_updated_at s));
  ("next_due_at", JString (next_due_at s));
  ("last_due_at", JString (last_due_at s));
  ("last_started_at", JString (last_started_at s));
  ("last_completed_run_id", JString (last_completed_run_id s));
  ("queued_due_at", JString (queued_due_at s));
  ("misfire_policy", JString (misfire_policy s));
  ("overlap_policy", JString (overlap_policy s));
  ("missed_count", JUnsigned (missed_count s))]%string.

Definition schedule_of_json (fresh now : string) (j : Json) : tres ScheduleDefinition :=
  x_id ← value_ dec_string j "id" fresh;
  x_name ← value_ dec_string j "name" ""%string;
  x_pipeline_id ← value_ dec_string j "pipeline_id" ""%string;
  x_pipeline_version ← value_ dec_unsigned j "pipeline_version" 1;
  x_type ← value_ dec_string j "type" ""%string;
  x_at ← value_ dec_string j "at" ""%string;
  x_interval_ms ← value_ dec_string j "interval_ms" ""%string;
  x_cron ← value_ dec_string j "cron" ""%string;
  x_input ← value_ dec_json j "input" (JObject []);
  x_enabled ← value_ dec_bool j "enabled" true;
  x_deleted ← value_ dec_bool j "deleted" false;
  x_queued ← value_ dec_bool j "queued" false;
  x_created_at ← value_ dec_string j "created_at" now;
  x_updated_at ← value_ dec_string j "updated_at" x_created_at;
  x_next_due_at ← value_ dec_string j "next_due_at" ""%string;
  x_last_due_at ← value_ dec_string j "last_due_at" ""%string;
  x_last_started_at ← value_ dec_string j "last_started_at" ""%string;
  x_last_completed_run_id ← value_ dec_string j "last_completed_run_id" ""%string;
  x_queued_due_at ← value_ dec_string j "queued_due_at" ""%string;
  x_misfire_policy ← value_ dec_string j "misfire_policy" "SKIP"%string;
  x_overlap_policy ← value_ dec_string j "overlap_policy" "ALLOW"%string;
  x_missed_count ← value_ dec_unsigned j "missed_count" 0;
  TOk {| sc_id := x_id; sc_name := x_name; sc_pipeline_id := x_pipeline_id;
         sc_pipeline_version := x_pipeline_version; sc_type := x_type; sc_at := x_at;
         interval_ms := x_interval_ms; sc_cron := x_cron; sc_input := x_input;
         sc_enabled := x_enabled; sc_deleted := x_deleted; queued := x_queued;
         sc_created_at := x_created_at; sc_updated_at := x_updated_at;
         next_due_at := x_next_due_at; last_due_at := x_last_due_at;
         last_started_at := x_last_started_at; last_completed_run_id := x_last_completed_run_id;
         queued_due_at := x_queued_due_at; misfire_policy := x_misfire_policy;
         overlap_policy := x_overlap_policy; missed_count := x_missed_count |}.

Definition trigger_to_json (t : TriggerDefinition) : Json := mk_object [
  ("id", JString (tr_id t));
  ("name", JString (tr_name t));
  ("pipeline_id", JString (tr_pipeline_id t));
  ("pipeline_version", JUnsigned (tr_pipeline_version t));
  ("event_type", JString (event_type t));
  ("match", tr_match t);
  ("enabled", JBool (tr_enabled t));
  ("deleted", JBool (tr_deleted t));
  ("created_at", JString (tr_created_at t));
  ("updated_at", JString (tr_updated_at t))]%string.

Definition trigger_of_json (fresh now : string) (j : Json) : tres TriggerDefinition :=
  x_id ← value_ dec_string j "id" fresh;
  x_name ← value_ dec_string j "name" ""%string;
  x_pipeline_id ← value_ dec_string j "pipeline_id" ""%string;
  x_pipeline_version ← value_ dec_unsigned j "pipeline_version" 1;
  x_event_type ← value_ dec_string j "event_type" ""%string;
  x_match ← value_ dec_json j "match" (JObject []);
  x_enabled ← value_ dec_bool j "enabled" true;
  x_deleted ← value_ dec_bool j "deleted" false;
  x_created_at ← value_ dec_string j "created_at" now;
  x_updated_at ← value_ dec_string j "updated_at" x_created_at;
  TOk {| tr_id := x_id; tr_name := x_name; tr_pipeline_id := x_pipeline_id;
         event_type := x_event_type; tr_pipeline_version := x_pipeline_version;
         tr_match := x_match; tr_enabled := x_enabled; tr_deleted := x_deleted;
         tr_created_at := x_created_at; tr_updated_at := x_updated_at |}.

(** *** Specifications *)

Definition pipeline_id_from_spec (spec : Json) : tres string :=
  by_id ← value_ dec_string spec "pipeline_id" ""%string;
  result ← value_ dec_string spec "pipeline" by_id;
  _ ← tguard (empty_str result) Validation "Trigger or schedule pipeline is required";
  TOk result.

(** [get<std::int64_t>()] and [std::to_string] of the library and the language. *)
Context (get_i64 : Json -> option Z).
Definition signed_string (z : Z) : string :=
  if z <? 0 then ("-" ++ to_string (- z))%string else to_string z.
Definition is_integer (j : Json) : bool := match j with JInt _ | JUnsigned _ => true | _ => false end.

Definition spec_interval (spec : Json) : tres string :=
  match member spec "interval_ms" with
  | Some v =>
      if is_integer v then z ← dec_of (get_i64 v); TOk (signed_string z) else dec_string v
  | None =>
      match member spec "interval" with
      | Some v => if is_string v then dec_string v else z ← dec_of (get_i64 v); TOk (signed_string z)
      | None => TOk ""%string
      end
  end.

Definition parse_schedule_spec (fresh now fresh_id : string) (spec : Json) : tres ScheduleDefinition :=
  _ ← tguard (negb (is_object spec)) Validation "Schedule must be a JSON object";
  let s := new_schedule fresh now in
  x_id ← value_ dec_string spec "id" fresh_id;
  x_name ← value_ dec_string spec "name" ""%string;
  x_pipeline_id ← pipeline_id_from_spec spec;
  x_version ← value_ dec_unsigned spec "version" 1;
  x_pipeline_version ← value_ dec_unsigned spec "pipeline_version" x_version;
  x_type ← value_ dec_string spec "type" ""%string;
  x_at ← value_ dec_string spec "at" ""%string;
  x_cron ← value_ dec_string spec "cron" ""%string;
  x_interval_ms ← spec_interval spec;
  x_input ← value_ dec_json spec "input" (JObject []);
  x_enabled ← value_ dec_bool spec "enabled" true;
  x_misfire_policy ← value_ dec_string spec "misfire_policy" "SKIP"%string;
  x_overlap_policy ← value_ dec_string spec "overlap_policy" "ALLOW"%string;
  x_start_at ← value_ dec_string spec "start_at" ""%string;
  x_next_due_at ← value_ dec_string spec "next_due_at" x_start_at;
  let s := {| sc_id := x_id; sc_name := x_name; sc_pipeline_id := x_pipeline_id;
         sc_pipeline_version := x_pipeline_version; sc_type := x_type; sc_at := x_at;
         interval_ms := x_interval_ms; sc_cron := x_cron; sc_input := x_input;
         sc_enabled := x_enabled; sc_deleted := sc_deleted s; queued := queued s;
         sc_created_at := sc_created_at s; sc_updated_at := sc_updated_at s;
         next_due_at := x_next_due_at; last_due_at := last_due_at s;
         last_started_at := last_started_at s; last_completed_run_id := last_completed_run_id s;
         queued_due_at := queued_due_at s; misfire_policy := x_misfire_policy;
         overlap_policy := x_overlap_policy; missed_count := missed_count s |} in
  _ ← validate_schedule s;
  TOk s.

Definition parse_trigger_spec (fresh now fresh_id : string) (spec : Json) : tres TriggerDefinition :=
  _ ← tguard (negb (is_object spec)) Validation "Trigger must be a JSON object";
  let t := new_trigger fresh now in
  x_id ← value_ dec_string spec "id" fresh_id;
  x_name ← value_ dec_string spec "name" ""%string;
  x_pipeline_id ← pipeline_id_from_spec spec;
  x_version ← value_ dec_unsigned spec "version" 1;
  x_pipeline_version ← value_ dec_unsigned spec "pipeline_version" x_version;
  x_event_type ← value_ dec_string spec "event_type" ""%string;
  x_event ← value_ dec_string spec "event" x_event_type;
  x_match ← value_ dec_json spec "match" (JObject []);
  x_enabled ← value_ dec_bool spec "enabled" true;
  let t := {| tr_id := x_id; tr_name := x_name; tr_pipeline_id := x_pipeline_id;
         event_type := x_event; tr_pipeline_version := x_pipeline_version;
         tr_match := x_match; tr_enabled := x_enabled; tr_deleted := tr_deleted t;
         tr_created_at := tr_created_at t; tr_updated_at := tr_updated_at t |} in
  _ ← validate_trigger t;
  TOk t.
End Schedules.

(** ** Lemmas *)

Section ScheduleProofs.
Context `{L : JsonLib}.

Lemma interval_value_range s v : interval_value s = Ok v -> 1 <= v <= max_interval.
Proof.
  unfold interval_value. destruct (empty_str _); [done|].
  destruct (stoll _) as [[z stop]|]; [|done]. destruct (Z.leb_spec z 0), (Z.ltb_spec max_interval z);
    rewrite ?orb_true_r; try done.
  destruct (negb _); [done|]. intros [= <-]. lia.
Qed.

Lemma validate_interval s : validate_schedule s = TOk tt -> sc_type s = "interval"%string ->
  exists v, interval_value s = Ok v.
Proof.
  unfold validate_schedule. intros Hv Ht.
  apply tres_bind_ok in Hv as (? & _ & Hv). apply tres_bind_ok in Hv as (? & _ & Hv).
  apply tres_bind_ok in Hv as (? & _ & Hv). apply tres_bind_ok in Hv as (? & Hk & _).
  rewrite Ht in Hk. simpl in Hk. apply tres_bind_ok in Hk as (v & Hk & _). exists v. by apply of_res_ok.
Qed.

Lemma validate_cron s : validate_schedule s = TOk tt ->
  sc_type s <> "one_time"%string -> sc_type s <> "interval"%string ->
  sc_type s = "cron"%string /\ exists c, parse_cron (sc_cron s) = Ok c.
Proof.
  unfold validate_schedule. intros Hv H1 H2.
  apply tres_bind_ok in Hv as (? & _ & Hv). apply tres_bind_ok in Hv as (? & _ & Hv).
  apply tres_bind_ok in Hv as (? & Ht & Hv). apply tres_bind_ok in Hv as (? & Hk & _).
  apply String.eqb_neq in H1, H2. apply tguard_ok, negb_false_iff in Ht. unfold str_one_of in Ht.
  cbn [existsb] in Ht. rewrite H1, H2, orb_false_r in Ht. apply String.eqb_eq in Ht. split; [done|].
  rewrite H1, H2 in Hk. apply tres_bind_ok in Hk as (c & Hk & _). exists c. by apply of_res_ok.
Qed.
End ScheduleProofs.

(** ** Properties *)

Section ScheduleClaims.
Context `{L : JsonLib}.

Lemma interval_step t v : 0 <= t <= latest_start -> 1 <= v <= max_interval ->
  exists t', parse_utc_timestamp (format_utc_timestamp (ns64 (t + v * 1000000))) = Ok t'
    /\ t' = t - t mod 1000000 + v * 1000000 /\ t < t'.
Proof.
  intros Ht Hv. assert (Hr : 0 <= t + v * 1000000 <= i64_max).
  { unfold latest_start, search_limit, minute_ns, max_interval, i64_max in *. lia. }
  rewrite ns64_small, parse_format by done. eexists. split; [done|].
  rewrite Z.mod_add by lia. assert (0 <= t mod 1000000 < 1000000) by (apply Z.mod_pos_bound; lia). lia.
Qed.

(** The due time that follows an occurrence of a valid schedule is strictly later: one interval
    later for an interval schedule, the next matching minute for a cron schedule; a one-time
    schedule has none.  Only a cron expression without an occurrence in the search bound is an
    error. *)
Theorem next_schedule_due_later clock s after t :
  validate_schedule s = TOk tt -> after <> ""%string ->
  parse_utc_timestamp after = Ok t -> 0 <= t <= latest_start ->
  match next_schedule_due clock s after with
  | TOk due =>
      (sc_type s = "one_time"%string /\ due = ""%string) \/
      exists t', parse_utc_timestamp due = Ok t' /\ t < t'
        /\ (sc_type s = "interval"%string -> exists v, interval_value s = Ok v
              /\ t' = t - t mod 1000000 + v * 1000000)
        /\ (sc_type s = "cron"%string -> exists c, parse_cron (sc_cron s) = Ok c
              /\ cron_match c (gmtime (t' / 1000000000)) = true)
  | TThrow x => sc_type s = "cron"%string /\ exists e, x = TError e /\ code e = Validation
  end.
Proof.
  intros Hv Ha Hp Ht. unfold next_schedule_due. rewrite Hv. cbn [mbind tres_bind].
  apply String.eqb_neq in Ha. unfold empty_str. rewrite Ha.
  destruct (String.eqb_spec (sc_type s) "one_time") as [|H1]; [by left|].
  destruct (String.eqb_spec (sc_type s) "cron") as [H2|H2].
  - destruct (validate_cron s Hv H1) as [_ (c & Hc)]; [by rewrite H2|].
    assert (H := cron_next_spec _ _ _ _ Hc Hp Ht). cbv zeta in H.
    destruct (cron_next (sc_cron s) after) as [due|e]; simpl.
    + right. destruct H as (k & Hk & _ & Hd & Hlt & Hm & _). eexists. split; [done|]. split; [done|].
      split; [by rewrite H2|]. intros _. by exists c.
    + split; [done|]. exists e. split; [done|]. apply H.
  - assert (H3 : sc_type s = "interval"%string).
    { destruct (decide (sc_type s = "interval"%string)); [done|]. by destruct (validate_cron s Hv). }
    destruct (validate_interval s Hv H3) as (v & Hi). rewrite Hi, Hp. cbn [mbind tres_bind of_res].
    destruct (interval_step t v Ht (interval_value_range _ _ Hi)) as (t' & Hd & He & Hlt).
    right. exists t'. split; [done|]. split; [done|]. split; [by exists v|]. by rewrite H3.
Qed.

Context `{!JsonLaws L}.

(** Reads the members of a flat document back. *)
Ltac read_document :=
  match goal with |- context [mk_object ?l] =>
    let x := eval lazy in (mk_object l) in change (mk_object l) with x end;
  cbv [value_ member assoc String.eqb Ascii.eqb Bool.eqb dec_json];
  rewrite ?dec_string_of, ?dec_bool_of; repeat rewrite dec_unsigned_of by assumption;
  reflexivity.

Lemma schedule_json_roundtrip fresh now s : fits32 (sc_pipeline_version s) -> fits32 (missed_count s) ->
  schedule_of_json fresh now (schedule_to_json s) = TOk s.
Proof.
  intros ??. destruct s. unfold schedule_of_json, schedule_to_json.
  read_document.
Qed.
Lemma trigger_json_roundtrip fresh now t : fits32 (tr_pipeline_version t) ->
  trigger_of_json fresh now (trigger_to_json t) = TOk t.
Proof.
  intros ?. destruct t. unfold trigger_of_json, trigger_to_json.
  read_document.
Qed.

(** A schedule and a trigger read back from their stored documents are the ones written. *)
Theorem definitions_roundtrip fresh now s t :
  fits32 (sc_pipeline_version s) -> fits32 (missed_count s) -> fits32 (tr_pipeline_version t) ->
  schedule_of_json fresh now (schedule_to_json s) = TOk s /\
  trigger_of_json fresh now (trigger_to_json t) = TOk t.
Proof. intros. by split; [apply schedule_json_roundtrip|apply trigger_json_roundtrip]. Qed.
End ScheduleClaims.

Definition hourly : ScheduleDefinition :=
  (((((new_schedule "s1" "2024-03-01T00:00:00.000Z") <| sc_name := "hourly"%string |>)
     <| sc_pipeline_id := "report"%string |>) <| sc_type := "interval"%string |>)
     <| interval_ms := "3600000"%string |>) <| next_due_at := "2024-03-01T07:00:00.000Z"%string |>.
Definition completed_trigger : TriggerDefinition :=
  (((new_trigger "t1" "2024-03-01T00:00:00.000Z") <| tr_name := "after"%string |>)
     <| tr_pipeline_id := "report"%string |>) <| event_type := "run.completed"%string |>.

Lemma definitions_roundtrip_witness :
  schedule_of_json (H := strict_json) "x" "y" (schedule_to_json hourly) = TOk hourly /\
  trigger_of_json (H := strict_json) "x" "y" (trigger_to_json completed_trigger) = TOk completed_trigger.
Proof.
  apply (definitions_roundtrip (L := strict_json)); unfold fits32, u32_max; simpl; lia.
Defined.

Lemma next_schedule_due_later_witness :
  exists t', parse_utc_timestamp "2024-03-01T08:00:00.000Z" = Ok t' /\ 1709276400000000000 < t'.
Proof.
  assert (E : next_schedule_due (H := strict_json) 0 hourly sample_after = TOk "2024-03-01T08:00:00.000Z"%string)
    by (vm_compute; reflexivity).
  assert (H := next_schedule_due_later (L := strict_json) 0 hourly sample_after 1709276400000000000
    ltac:(vm_compute; reflexivity) ltac:(discriminate) ltac:(vm_compute; reflexivity)
    ltac:(vm_compute; split; discriminate)).
  rewrite E in H. destruct H as [[H _]|(t' & H1 & H2 & _)]; [discriminate H|].
  exists t'. split; [exact H1|exact H2].
Defined.
