(* ===== verification/Scheduler.v ===== *)
(** * The scheduler

    [LocalScheduler] of [src/scheduler/scheduler.cpp]: management of the durable definitions, the
    evaluation of due schedules and the delivery of events to triggers.  Its state is the database
    and the fields of the object; [launched] and [emitted] record the calls of the two callbacks the
    scheduler is constructed with.  The callbacks, the clock and [uuid()] are parameters
    ([SchedulerEnv]); every reading of one of them gets the number of the call, so that successive
    readings are independent.  The timers, which only decide when [process_due], [handle_event] and
    [replay_pending_deliveries] run, are not modelled: the properties hold for every order of these
    calls.  The transient timers of the other constructor ([schedule]) keep no durable state.
    Diagnostic logging has no effect on the state. *)

From S2P Require Import Prelude Json Types Samples Text Db Codec Store Effects Clock Cron Schedule.
From Stdlib Require Import Ascii.

(** ** State *)

Record World := mkWorld {
  w_db : DB;
  w_calls : nat;
  started : bool;
  stopped : bool;
  mailbox : list Event;
  launched : list (LaunchRequest * tres string);
  emitted : list Event }.
#[global] Instance eta_World : Eta World := fun r => mkWorld
  (w_db r) (w_calls r) (started r) (stopped r) (mailbox r) (launched r) (emitted r).

(** The callbacks [dispatch_] and [emit_], [clock_->now()], [uuid()] and [timestamp()]. *)
Class SchedulerEnv := {
  env_dispatch : nat -> LaunchRequest -> DB -> DB * tres string;
  env_emit : nat -> Event -> DB -> DB * tres unit;
  env_clock : nat -> Z;
  env_uuid : nat -> string;
  env_timestamp : nat -> string }.

Record SchedulerConfig := mkSchedulerConfig {
  max_pending_launches : Z; max_trigger_depth : Z; max_event_deliveries : Z }.

(** The constructor. *)
Definition make_scheduler (c : SchedulerConfig) (db : DB) : res World :=
  if (max_pending_launches c =? 0) || (max_event_deliveries c =? 0) || (max_trigger_depth c =? 0)
  then Throw (err Configuration "Invalid scheduler configuration")
  else Ok (mkWorld db 0 false false [] [] []).

(** ** The monad of its operations *)

Abbreviation Sched := (IO World).
(** An operation of the store. *)
Definition s_store {A} (m : M DB A) : Sched A := fun w =>
  match m (w_db w) with
  | (db, r) => (w <| w_db := db |>, of_res r)
  end.
(** The number of the next call of the environment. *)
Definition s_call : Sched nat := fun w => (w <| w_calls := S (w_calls w) |>, TOk (w_calls w)).

Section Scheduler.
Context `{JsonLib} {E : SchedulerEnv} (config : SchedulerConfig).

(** [clock_->now()] *)
Definition clock_now : Sched Z := n ← s_call; mret (env_clock n).

Definition dispatch (request : LaunchRequest) : Sched string := fun w =>
  let n := w_calls w in
  let '(db, r) := env_dispatch n request (w_db w) in
  (((w <| w_db := db |>) <| w_calls := S n |>) <| launched := launched w ++ [(request, r)] |>, r).

Definition emit_event (event : Event) : Sched unit := fun w =>
  let n := w_calls w in
  let '(db, r) := env_emit n event (w_db w) in
  (((w <| w_db := db |>) <| w_calls := S n |>) <| emitted := emitted w ++ [event] |>, r).

(** The operations of [Storage] the scheduler calls; the defaults of a commit's readers are those
    of the call. *)
Definition s_commit (records : list StoreRecord) : Sched unit :=
  n ← s_call; s_store (commit (env_uuid n) (env_timestamp n) records).
Definition s_get (k : RecordKind) (id : string) : Sched Json := s_store (get_record k id).
Definition s_list (k : RecordKind) (limit : Z) : Sched (list Json) := s_store (list_records k "" limit 0).
Definition s_claim (r : StoreRecord) : Sched bool := s_store (claim r []).

Definition as_schedule (j : Json) : Sched ScheduleDefinition :=
  n ← s_call; io_lift (schedule_of_json (env_uuid n) (env_timestamp n) j).
Definition as_trigger (j : Json) : Sched TriggerDefinition :=
  n ← s_call; io_lift (trigger_of_json (env_uuid n) (env_timestamp n) j).
Definition as_event (j : Json) : Sched Event :=
  n ← s_call; io_lift (event_of_json (env_uuid n) (env_timestamp n) j).
Definition next_due (s : ScheduleDefinition) (after : string) : Sched string :=
  n ← s_call; io_lift (next_schedule_due (env_clock n) s after).

(** ** Events and records *)

Definition with_members (extra : list (string * Json)) (j : Json) : Json :=
  foldl (fun acc kv => set_member kv.1 kv.2 acc) j extra.

Definition scheduler_event (type : string) (s : ScheduleDefinition) (due : string)
    (extra : list (string * Json)) : Sched Event :=
  n ← s_call;
  mret ((((new_event (env_uuid n) (env_timestamp n)) <| ev_type := type |>)
           <| ev_pipeline_id := sc_pipeline_id s |>)
           <| ev_metadata := with_members extra (mk_object [
                ("schedule_id", JString (sc_id s));
                ("pipeline_version", JUnsigned (sc_pipeline_version s));
                ("due_at", JString due)]%string) |>).

Definition root_of (source : Event) : string :=
  if empty_str (ev_root_event_id source) then ev_id source else ev_root_event_id source.

Definition trigger_event (type : string) (t : TriggerDefinition) (source : option Event)
    (extra : list (string * Json)) : Sched Event :=
  n ← s_call;
  let event := ((new_event (env_uuid n) (env_timestamp n)) <| ev_type := type |>)
                 <| ev_pipeline_id := tr_pipeline_id t |> in
  m ← s_call;
  let source := default (new_event (env_uuid m) (env_timestamp m)) source in
  let event :=
    if empty_str (ev_id source) then event
    else ((event <| causation_id := ev_id source |>) <| ev_root_event_id := root_of source |>)
           <| ev_trigger_depth := ev_trigger_depth source |> in
  mret (event <| ev_metadata := with_members extra (mk_object [
          ("trigger_id", JString (tr_id t));
          ("event_id", JString (ev_id source));
          ("root_event_id", JString (root_of source))]%string) |>).

Definition occurrence_of (s : ScheduleDefinition) (due : string) : string := (sc_id s ++ "|" ++ due)%string.

Definition record_value (status : string) (s : ScheduleDefinition) (due run_id : string) : Json :=
  mk_object [
    ("id", JString (occurrence_of s due));
    ("schedule_id", JString (sc_id s));
    ("due_at", JString due);
    ("status", JString status);
    ("run_id", JString run_id);
    ("updated_at", JString (sc_updated_at s))]%string.

Definition schedule_record (s : ScheduleDefinition) : StoreRecord :=
  mkRecord KSchedule (sc_id s) "" (schedule_to_json s).
Definition occurrence_record (s : ScheduleDefinition) (due status run_id : string) : StoreRecord :=
  mkRecord KScheduleOccurrence (occurrence_of s due) "" (record_value status s due run_id).
Definition trigger_record (t : TriggerDefinition) : StoreRecord :=
  mkRecord KTrigger (tr_id t) "" (trigger_to_json t).
Definition event_record (e : Event) : StoreRecord := mkRecord KEvent (ev_id e) "" (event_to_json e).

(** ** Management *)

(** [try { storage_->get(kind, id); throw Conflict; } catch (NotFound) {}] *)
Definition require_absent (k : RecordKind) (id msg : string) : Sched unit :=
  io_catch (_ ← s_get k id; io_throw Conflict msg)
    (fun e => if bool_decide (code e = NotFound) then mret tt else io_lift (TThrow (TError e))).

Definition create_schedule (schedule : ScheduleDefinition) : Sched ScheduleDefinition :=
  _ ← io_lift (validate_schedule schedule);
  _ ← require_absent KSchedule (sc_id schedule) "Schedule already exists";
  event ← scheduler_event "schedule.created" schedule (next_due_at schedule) [];
  _ ← s_commit [schedule_record schedule; event_record event];
  _ ← emit_event event;
  mret schedule.

Definition update_schedule (schedule : ScheduleDefinition) : Sched ScheduleDefinition :=
  _ ← io_lift (validate_schedule schedule);
  old ← (j ← s_get KSchedule (sc_id schedule); as_schedule j);
  now ← clock_now;
  let schedule := (schedule <| sc_created_at := sc_created_at old |>)
                    <| sc_updated_at := format_utc_timestamp now |> in
  event ← scheduler_event "schedule.updated" schedule (next_due_at schedule) [];
  _ ← s_commit [schedule_record schedule; event_record event];
  _ ← emit_event event;
  mret schedule.

Definition set_schedule_enabled (id : string) (enabled : bool) : Sched unit :=
  schedule ← (j ← s_get KSchedule id; as_schedule j);
  _ ← io_lift (tguard (sc_deleted schedule && enabled) Conflict "Deleted schedule cannot be enabled");
  schedule ←
    (if enabled && empty_str (next_due_at schedule) then
       if String.eqb (sc_type schedule) "one_time" then mret (schedule <| next_due_at := sc_at schedule |>)
       else
         now ← clock_now;
         due ← next_due schedule (format_utc_timestamp now);
         mret (schedule <| next_due_at := due |>)
     else mret schedule);
  now ← clock_now;
  let schedule := (schedule <| sc_enabled := enabled |>) <| sc_updated_at := format_utc_timestamp now |> in
  event ← scheduler_event (if enabled then "schedule.enabled" else "schedule.disabled") schedule "" [];
  _ ← s_commit [mkRecord KSchedule id "" (schedule_to_json schedule); event_record event];
  emit_event event.

Definition delete_schedule (id : string) : Sched unit :=
  schedule ← (j ← s_get KSchedule id; as_schedule j);
  now ← clock_now;
  let schedule := ((schedule <| sc_enabled := false |>) <| sc_deleted := true |>)
                    <| sc_updated_at := format_utc_timestamp now |> in
  event ← scheduler_event "schedule.deleted" schedule "" [];
  _ ← s_commit [mkRecord KSchedule id "" (schedule_to_json schedule); event_record event];
  emit_event event.

Definition create_trigger (trigger : TriggerDefinition) : Sched TriggerDefinition :=
  _ ← io_lift (validate_trigger trigger);
  _ ← require_absent KTrigger (tr_id trigger) "Trigger already exists";
  event ← trigger_event "trigger.created" trigger None [];
  _ ← s_commit [trigger_record trigger; event_record event];
  _ ← emit_event event;
  mret trigger.

Definition update_trigger (trigger : TriggerDefinition) : Sched TriggerDefinition :=
  _ ← io_lift (validate_trigger trigger);
  old ← (j ← s_get KTrigger (tr_id trigger); as_trigger j);
  now ← clock_now;
  let trigger := (trigger <| tr_created_at := tr_created_at old |>)
                   <| tr_updated_at := format_utc_timestamp now |> in
  event ← trigger_event "trigger.updated" trigger None [];
  _ ← s_commit [trigger_record trigger; event_record event];
  _ ← emit_event event;
  mret trigger.

Definition set_trigger_enabled (id : string) (enabled : bool) : Sched unit :=
  trigger ← (j ← s_get KTrigger id; as_trigger j);
  _ ← io_lift (tguard (tr_deleted trigger && enabled) Conflict "Deleted trigger cannot be enabled");
  now ← clock_now;
  let trigger := (trigger <| tr_enabled := enabled |>) <| tr_updated_at := format_utc_timestamp now |> in
  event ← trigger_event (if enabled then "trigger.enabled" else "trigger.disabled") trigger None [];
  _ ← s_commit [mkRecord KTrigger id "" (trigger_to_json trigger); event_record event];
  emit_event event.

Definition delete_trigger (id : string) : Sched unit :=
  trigger ← (j ← s_get KTrigger id; as_trigger j);
  now ← clock_now;
  let trigger := ((trigger <| tr_enabled := false |>) <| tr_deleted := true |>)
                   <| tr_updated_at := format_utc_timestamp now |> in
  event ← trigger_event "trigger.deleted" trigger None [];
  _ ← s_commit [mkRecord KTrigger id "" (trigger_to_json trigger); event_record event];
  emit_event event.

(** ** Due schedules *)

Definition active_schedule_run (schedule_id : string) : Sched bool :=
  runs ← s_list KRun 10000;
  (fix go (l : list Json) : Sched bool :=
     match l with
     | [] => mret false
     | j :: l =>
         run ← io_lift (run_of_json j);
         if String.eqb (Types.schedule_id run) schedule_id && negb (terminal (state run))
         then mret true else go l
     end) runs.

(** A claimed occurrence whose run exists was launched: it is marked as started. *)
Fixpoint recover_run (occurrence_id : string) (existing : Json) (now : Z) (runs : list Json) : Sched bool :=
  match runs with
  | [] => mret false
  | j :: runs =>
      run ← io_lift (run_of_json j);
      if String.eqb (schedule_occurrence_id run) occurrence_id then
        let updated := set_member "updated_at" (JString (format_utc_timestamp now))
                         (set_member "run_id" (JString (id run))
                            (set_member "status" (JString "started") existing)) in
        _ ← s_commit [mkRecord KScheduleOccurrence occurrence_id "" updated];
        mret true
      else recover_run occurrence_id existing now runs
  end.

(** [j.value("status", std::string{})] *)
Definition status_of (j : Json) : tres string := value_ dec_string j "status" ""%string.

(** The first [try] block of the loop: [None] skips the schedule, [Some existing] goes on with the
    stored occurrence, [Some JNull] when there is none.  Of the calls of the block only the read
    throws [NotFound]. *)
Definition check_occurrence (occurrence_id : string) (now : Z) : Sched (option Json) :=
  found ← io_catch (j ← s_get KScheduleOccurrence occurrence_id; mret (Some j))
            (fun e => if bool_decide (code e = NotFound) then mret None else io_lift (TThrow (TError e)));
  match found with
  | None => mret (Some JNull)
  | Some existing =>
      status ← io_lift (status_of existing);
      if str_one_of status ["started"; "skipped"; "failed"]%string then mret None
      else if String.eqb status "claimed" then
        runs ← s_list KRun 10000;
        recovered ← recover_run occurrence_id existing now runs;
        mret (if (recovered : bool) then None else Some (set_member "status" (JString "pending") existing))
      else mret (Some existing)
  end.

(** Whether this pass owns the occurrence. *)
Definition own_occurrence (s : ScheduleDefinition) (due : string) (existing : Json) : Sched bool :=
  if is_null existing then s_claim (occurrence_record s due "claimed" "")
  else status ← io_lift (status_of existing); mret (str_one_of status ["pending"; "queued"]%string).

(** [for (i = 0; i < 10000 && is_due(schedule.next_due_at, now); ++i)] *)
Fixpoint skip_missed (fuel : nat) (s : ScheduleDefinition) (now : Z) : Sched ScheduleDefinition :=
  match fuel with
  | O => mret s
  | S fuel =>
      due ← io_lift (of_res (is_due (next_due_at s) now));
      if (due : bool) then
        let s := s <| missed_count := u32 (missed_count s + 1) |> in
        next ← next_due s (next_due_at s);
        skip_missed fuel (s <| next_due_at := next |>) now
      else mret s
  end.
Definition max_skips : Z := 10000.

(** A late occurrence under the [SKIP] misfire policy. *)
Definition misfire (s : ScheduleDefinition) (due : string) (now : Z) : Sched unit :=
  let s := (s <| last_due_at := due |>) <| missed_count := u32 (missed_count s + 1) |> in
  s ← (if String.eqb (sc_type s) "one_time"
       then mret ((s <| sc_enabled := false |>) <| next_due_at := ""%string |>)
       else
         next ← next_due s due;
         skip_missed (Z.to_nat max_skips) (s <| next_due_at := next |>) now);
  let s := s <| sc_updated_at := format_utc_timestamp now |> in
  event ← scheduler_event "schedule.misfired" s due
            [("policy", JString (misfire_policy s)); ("missed", JUnsigned (missed_count s))]%string;
  _ ← s_commit [schedule_record s; occurrence_record s due "skipped" ""; event_record event];
  emit_event event.

(** [schedule.next_due_at = one_time ? "" : next_schedule_due(schedule, due); if (one_time)
    schedule.enabled = false; schedule.updated_at = now] *)
Definition advance_schedule (s : ScheduleDefinition) (due : string) (now : Z) : Sched ScheduleDefinition :=
  next ← (if String.eqb (sc_type s) "one_time" then mret ""%string else next_due s due);
  let s := s <| next_due_at := next |> in
  let s := if String.eqb (sc_type s) "one_time" then s <| sc_enabled := false |> else s in
  mret (s <| sc_updated_at := format_utc_timestamp now |>).

(** An occurrence that falls due while a run of the schedule is active. *)
Definition overlap (s : ScheduleDefinition) (due status reason : string) (now : Z) : Sched unit :=
  s ← advance_schedule (s <| last_due_at := due |>) due now;
  event ← scheduler_event "schedule.skipped" s due [("reason", JString reason)]%string;
  _ ← s_commit [schedule_record s; occurrence_record s due status ""; event_record event];
  emit_event event.

Definition schedule_request (s : ScheduleDefinition) (due : string) : LaunchRequest :=
  mkLaunch (sc_pipeline_id s) (sc_pipeline_version s) (sc_input s) (mk_object [
    ("initiation_type", JString "schedule");
    ("schedule_id", JString (sc_id s));
    ("schedule_occurrence_id", JString (occurrence_of s due));
    ("due_at", JString due)]%string).

(** The [catch] block of the launch; whether the launch counts. *)
Definition launch_failed (s : ScheduleDefinition) (due : string) (e : Error) : Sched bool :=
  let capacity := bool_decide (code e = Capacity) in
  _ ← s_commit [occurrence_record s due (if capacity then "pending" else "failed") ""];
  mret (negb capacity).

(** The launch.  Its [try] block is in two parts, because the handler reads the local [schedule],
    which the block has changed by the time it commits. *)
Definition launch (s : ScheduleDefinition) (due : string) (now : Z) : Sched bool :=
  result ← io_catch
    (run_id ← dispatch (schedule_request s due);
     let s := (((s <| queued := false |>) <| queued_due_at := ""%string |>) <| last_due_at := due |>)
                <| last_started_at := format_utc_timestamp now |> in
     s ← advance_schedule s due now;
     mret (inl (run_id, s)))
    (fun e => counted ← launch_failed s due e; mret (inr counted));
  match result with
  | inr counted => mret counted
  | inl (run_id, s) =>
      io_catch
        (event ← scheduler_event "schedule.run_created" s due [("run_id", JString run_id)]%string;
         _ ← s_commit [schedule_record s; occurrence_record s due "started" run_id; event_record event];
         _ ← emit_event event;
         mret true)
        (launch_failed s due)
  end.

(** The body of the loop of [process_due]; whether it counts as a launch. *)
Definition process_schedule (now : Z) (record : Json) : Sched bool :=
  s ← as_schedule record;
  if sc_deleted s || (negb (sc_enabled s) && negb (queued s)) then mret false
  else
    let due := if queued s then queued_due_at s else next_due_at s in
    ready ← (if queued s then mret true else io_lift (of_res (is_due due now)));
    if negb ready then mret false
    else if empty_str due then mret false
    else
      found ← check_occurrence (occurrence_of s due) now;
      match found with
      | None => mret false
      | Some existing =>
          owned ← own_occurrence s due existing;
          if negb owned then mret false
          else
            late ← io_lift (of_res (is_late due now));
            if late && String.eqb (misfire_policy s) "SKIP" then misfire s due now ≫= fun _ => mret false
            else
              active ← (if queued s then mret false else active_schedule_run (sc_id s));
              if active && String.eqb (overlap_policy s) "SKIP"
              then overlap s due "skipped" "overlap" now ≫= fun _ => mret false
              else if active && String.eqb (overlap_policy s) "QUEUE_ONE"
              then overlap ((s <| queued := true |>) <| queued_due_at := due |>) due "queued"
                     "overlap_queued" now ≫= fun _ => mret false
              else launch s due now
      end.

Fixpoint process_schedules (now launches : Z) (records : list Json) : Sched unit :=
  match records with
  | [] => mret tt
  | r :: records =>
      if max_pending_launches config <=? launches then mret tt
      else
        counted ← process_schedule now r;
        process_schedules now (if (counted : bool) then launches + 1 else launches) records
  end.

Definition process_due : Sched unit := fun w =>
  if stopped w then (w, TOk tt)
  else
    (now ← clock_now;
     records ← s_list KSchedule (u32 (max_pending_launches config + 1));
     process_schedules now 0 records) w.

(** ** Triggers *)

(** The member a dotted key names. *)
Fixpoint path_lookup (j : Json) (path : list string) : option Json :=
  match path with
  | [] => Some j
  | part :: path => match member j part with Some v => path_lookup v path | None => None end
  end.
Definition filter_matches (event_metadata : Json) (kv : string * Json) : bool :=
  match path_lookup event_metadata (split kv.1 "."%char) with
  | Some actual => json_eqb actual kv.2
  | None => false
  end.
(** Whether the event is one the trigger waits for. *)
Definition trigger_matches (t : TriggerDefinition) (source : Event) : bool :=
  negb (negb (tr_enabled t) || tr_deleted t || empty_str (ev_id source)
        || String.ltb (ev_time source) (tr_created_at t)
        || negb (String.eqb (event_type t) (ev_type source)))
  && forallb (filter_matches (ev_metadata source)) (members (tr_match t)).

Definition delivery_of (t : TriggerDefinition) (source : Event) : string :=
  (tr_id t ++ "|" ++ ev_id source)%string.

Definition trigger_request (t : TriggerDefinition) (source : Event) : LaunchRequest :=
  mkLaunch (tr_pipeline_id t) (tr_pipeline_version t) (mk_object [("event", event_to_json source)]%string)
    (mk_object [
      ("initiation_type", JString "event");
      ("trigger_id", JString (tr_id t));
      ("event_id", JString (ev_id source));
      ("root_event_id", JString (root_of source));
      ("trigger_depth", JUnsigned (u32 (ev_trigger_depth source + 1)))]%string).

(** The stored delivery, if any: [None] when it is settled, otherwise the document and whether the
    delivery is already owned. *)
Definition check_delivery (delivery_id : string) : Sched (option (Json * bool)) :=
  found ← io_catch (j ← s_get KTriggerDelivery delivery_id; mret (Some j))
            (fun e => if bool_decide (code e = NotFound) then mret None else io_lift (TThrow (TError e)));
  match found with
  | None => mret (Some (JNull, false))
  | Some delivery =>
      status ← io_lift (status_of delivery);
      mret (if str_one_of status ["started"; "skipped"; "failed"]%string then None
            else Some (delivery, str_one_of status ["pending"; "claimed"]%string))
  end.

Definition delivery_record (delivery_id : string) (delivery : Json) : StoreRecord :=
  mkRecord KTriggerDelivery delivery_id "" delivery.

Definition delivery_failed (delivery_id : string) (delivery : Json) (e : Error) : Sched unit :=
  now ← clock_now;
  let status := if bool_decide (code e = Capacity) then "pending"%string else "failed"%string in
  s_commit [delivery_record delivery_id
    (set_member "updated_at" (JString (format_utc_timestamp now)) (set_member "status" (JString status) delivery))].

(** The launch of a delivery; the [try] block is in two parts as in [launch]. *)
Definition deliver (t : TriggerDefinition) (source : Event) (delivery_id : string) (delivery : Json) : Sched unit :=
  result ← io_catch
    (run_id ← dispatch (trigger_request t source); mret (Some run_id))
    (fun e => _ ← delivery_failed delivery_id delivery e; mret None);
  match result with
  | None => mret tt
  | Some run_id =>
      now ← clock_now;
      let delivery := set_member "updated_at" (JString (format_utc_timestamp now))
                        (set_member "run_id" (JString run_id)
                           (set_member "status" (JString "started") delivery)) in
      io_catch
        (event ← trigger_event "trigger.run_created" t (Some source) [("run_id", JString run_id)]%string;
         _ ← s_commit [delivery_record delivery_id delivery; event_record event];
         emit_event event)
        (delivery_failed delivery_id delivery)
  end.

Definition process_trigger (t : TriggerDefinition) (source : Event) : Sched unit :=
  if negb (trigger_matches t source) then mret tt
  else if max_trigger_depth config <=? ev_trigger_depth source then
    event ← trigger_event "trigger.skipped" t (Some source) [("reason", JString "depth")]%string;
    emit_event event
  else
    let delivery_id := delivery_of t source in
    found ← check_delivery delivery_id;
    match found with
    | None => mret tt
    | Some (delivery, true) => deliver t source delivery_id delivery
    | Some (_, false) =>
        now ← clock_now;
        let delivery := mk_object [
          ("id", JString delivery_id);
          ("trigger_id", JString (tr_id t));
          ("event_id", JString (ev_id source));
          ("status", JString "claimed");
          ("updated_at", JString (format_utc_timestamp now))]%string in
        claimed ← s_claim (delivery_record delivery_id delivery);
        if (claimed : bool) then deliver t source delivery_id delivery else mret tt
    end.

(** [try { ... } catch (const Error &) { log_diagnostic(...); }] *)
Definition logged (m : Sched unit) : Sched unit := io_catch m (fun _ => mret tt).

(** The body of the loop of [replay_pending_deliveries]. *)
Definition replay_delivery (record : Json) : Sched unit :=
  status ← io_lift (status_of record);
  if negb (String.eqb status "pending") then mret tt
  else
    logged
      (tid ← io_lift (value_ dec_string record "trigger_id" ""%string);
       t ← (j ← s_get KTrigger tid; as_trigger j);
       eid ← io_lift (value_ dec_string record "event_id" ""%string);
       event ← (j ← s_get KEvent eid; as_event j);
       process_trigger t event).
Definition replay_pending_deliveries : Sched unit := fun w =>
  if stopped w then (w, TOk tt)
  else (records ← s_list KTriggerDelivery (max_event_deliveries config); io_iter replay_delivery records) w.

(** ** Events *)

(** The posted events wait in the mailbox until the strand runs [handle_event]; its length is the
    counter [pending_events_]. *)
Definition receive_event (event : Event) : Sched unit := fun w =>
  if stopped w || negb (started w) then (w, TOk tt)
  else if max_event_deliveries config <=? Z.of_nat (length (mailbox w)) then (w, TOk tt)
  else (w <| mailbox := mailbox w ++ [event] |>, TOk tt).

Definition replay_events : Sched unit := fun w =>
  if stopped w then (w, TOk tt)
  else
    (records ← s_list KEvent (max_event_deliveries config);
     io_iter (fun j => logged (e ← as_event j; receive_event e)) records) w.

(** A terminal run may release a queued occurrence. *)
Definition reconcile_completion (event : Event) : Sched unit :=
  run ← (j ← s_get KRun (ev_run_id event); io_lift (run_of_json j));
  if empty_str (schedule_id run) then mret tt
  else
    s ← (j ← s_get KSchedule (schedule_id run); as_schedule j);
    let s := s <| last_completed_run_id := id run |> in
    active ← (if queued s then active_schedule_run (sc_id s) else mret true);
    let s := if queued s && negb active
             then ((s <| next_due_at := queued_due_at s |>) <| queued := false |>)
                    <| queued_due_at := ""%string |>
             else s in
    now ← clock_now;
    s_commit [schedule_record (s <| sc_updated_at := format_utc_timestamp now |>)].

Definition handle_posted (event : Event) : Sched unit :=
  records ← s_list KTrigger (max_event_deliveries config);
  _ ← io_iter (fun j => logged (t ← as_trigger j; process_trigger t event)) records;
  _ ← (if str_one_of (ev_type event) ["run.completed"; "run.failed"; "run.cancelled"; "run.timed_out"]%string
       then logged (reconcile_completion event) else mret tt);
  replay_pending_deliveries.

(** The strand takes the next posted event.  The last call of [handle_event], [arm], replays the
    pending deliveries before it sets the timer. *)
Definition handle_event : Sched unit := fun w =>
  match mailbox w with
  | [] => (w, TOk tt)
  | event :: rest =>
      let w := w <| mailbox := rest |> in
      if stopped w then (w, TOk tt) else handle_posted event w
  end.

Definition stop : Sched unit := fun w => (w <| stopped := true |>, TOk tt).
(** The call posts the initial evaluation to the strand. *)
Definition start : Sched unit := fun w =>
  if started w || stopped w then (w, TOk tt) else (w <| started := true |>, TOk tt).
Definition start_posted : Sched unit :=
  _ ← replay_events; _ ← process_due; replay_pending_deliveries.
(** The timer that [arm] sets. *)
Definition timer_fired : Sched unit := fun w =>
  if stopped w then (w, TOk tt) else (_ ← process_due; replay_pending_deliveries) w.
End Scheduler.
