(* ===== verification/SchedulerClaims.v ===== *)
(** * Properties of the scheduler

    Every operation of the scheduler as a step, interleaved with any activity of the other
    components; a frame argument ([Keeps]) over the operations; the fate of settled occurrences
    and deliveries, of failed launches, and the bound on chains of triggers. *)

From S2P Require Import Prelude Json Types Samples Text Db Codec Store Effects Clock Cron Schedule Scheduler.
From Stdlib Require Import Ascii.

(** The records only the scheduler writes. *)
Definition scheduler_kind (k : RecordKind) : Prop := k = KScheduleOccurrence \/ k = KTriggerDelivery.
Definition same_deliveries (db db' : DB) : Prop :=
  forall k oid, scheduler_kind k -> tables db' !! (k, oid) = tables db !! (k, oid).

(** What the scheduler relies on: launching a run and publishing an event leave its records alone. *)
Class SchedulerEnvLaws (E : SchedulerEnv) := {
  dispatch_keeps : forall n r db, same_deliveries db (env_dispatch n r db).1;
  emit_keeps : forall n e db, same_deliveries db (env_emit n e db).1 }.

(** [storage_->get] with [NotFound] caught. *)
Definition read_or_none `{JsonLib} (k : RecordKind) (oid : string) : Sched (option Json) :=
  io_catch (j ← s_get k oid; mret (Some j))
    (fun e => if bool_decide (code e = NotFound) then mret None else io_lift (TThrow (TError e))).
Lemma read_or_none_spec `{L : JsonLib} k oid w :
  read_or_none k oid w = (w, TOk (row_body <$> tables (w_db w) !! (k, oid))).
Proof.
  unfold read_or_none, io_catch, s_get, s_store, get_record, store_tx, transaction, select_row, mbind,
    io_bind, t_bind.
  destruct (tables (w_db w) !! (k, oid)); by destruct w as [[] ? ? ? ? ? ?].
Qed.

Section Frame.
Context `{L : JsonLib} {E : SchedulerEnv} {HE : SchedulerEnvLaws E} (config : SchedulerConfig).

(** A record is settled once its status is one of these; an occurrence the scheduler works on is
    not. *)
Definition settled_status (st : string) : bool := str_one_of st ["started"; "skipped"; "failed"]%string.
Definition unsettled (k : RecordKind) (oid : string) (db : DB) : Prop :=
  forall row st, tables db !! (k, oid) = Some row -> status_of (row_body row) = TOk st ->
  settled_status st = false.

(** The frame: [I] of the database, [Q] of the posted events, [P] of the launch requests and [C] of
    the records the scheduler commits. *)
Context (I : DB -> Prop) (Q : Event -> Prop) (P : LaunchRequest -> Prop) (C : StoreRecord -> Prop).
Context (I_same : forall db db', same_deliveries db db' -> I db -> I db').
Context (I_commit : forall f n rs db, Forall C rs -> I db -> I (commit f n rs db).1).
Context (I_claim : forall r db, I db -> I (claim r [] db).1).
Context (C_other : forall r, ~ scheduler_kind (rc_kind r) -> C r).
Context (C_unsettled : forall k oid v db, scheduler_kind k -> I db -> unsettled k oid db ->
  C (mkRecord k oid "" v)).
Context (P_schedule : forall s due db, I db -> unsettled KScheduleOccurrence (occurrence_of s due) db ->
  P (schedule_request s due)).
Context (P_trigger : forall t e db, I db -> Q e -> ev_trigger_depth e < max_trigger_depth config ->
  unsettled KTriggerDelivery (delivery_of t e) db -> P (trigger_request t e)).
Context (Q_event : forall f n j e, event_of_json f n j = TOk e -> Q e).

Definition frame (w w' : World) : Prop :=
  I (w_db w) -> Forall Q (mailbox w) ->
  I (w_db w') /\ Forall Q (mailbox w') /\
  exists new, launched w' = launched w ++ new /\ Forall (fun c => P c.1) new.

Lemma frame_quiet w w' : (I (w_db w) -> I (w_db w')) -> mailbox w' = mailbox w -> launched w' = launched w ->
  frame w w'.
Proof.
  intros Hi Hm Hl HI HQ. split; [by apply Hi|]. rewrite Hm. split; [done|].
  exists []. by rewrite Hl, app_nil_r.
Qed.
Lemma frame_refl w : frame w w.
Proof. by apply frame_quiet. Qed.
Lemma frame_trans w1 w2 w3 : frame w1 w2 -> (I (w_db w2) -> frame w2 w3) -> frame w1 w3.
Proof.
  intros H1 H2 HI HQ. destruct (H1 HI HQ) as (HI2 & HQ2 & n1 & Hl1 & Hn1).
  destruct (H2 HI2 HI2 HQ2) as (HI3 & HQ3 & n2 & Hl2 & Hn2). split; [done|]. split; [done|].
  exists (n1 ++ n2). split; [by rewrite Hl2, Hl1, app_assoc|by apply Forall_app].
Qed.

Definition Keeps {A} (m : Sched A) : Prop := forall w, I (w_db w) -> frame w (m w).1.

Lemma keeps_quiet {A} (m : Sched A) :
  (forall w, I (w_db w) -> I (w_db (m w).1)) ->
  (forall w, mailbox (m w).1 = mailbox w /\ launched (m w).1 = launched w) -> Keeps m.
Proof. intros H1 H2 w HI. destruct (H2 w). apply frame_quiet; auto. Qed.
Lemma keeps_ret {A} (a : A) : Keeps (mret a).
Proof. intros w _. apply frame_refl. Qed.
Lemma keeps_lift {A} (r : tres A) : Keeps (io_lift r).
Proof. intros w _. apply frame_refl. Qed.
Lemma keeps_call : Keeps s_call.
Proof. by apply keeps_quiet. Qed.
Lemma keeps_bind_post {A B} (m : Sched A) (f : A -> Sched B) :
  Keeps m -> (forall w w' a, I (w_db w) -> m w = (w', TOk a) -> Keeps (f a)) -> Keeps (m ≫= f).
Proof.
  intros Hm Hf w HI. unfold mbind, io_bind. specialize (Hm w HI).
  destruct (m w) as [w1 [a|x]] eqn:Em; [|done]. eapply frame_trans; [done|]. simpl.
  intros HI1. by apply (Hf w w1 a).
Qed.
Lemma keeps_bind {A B} (m : Sched A) (f : A -> Sched B) :
  Keeps m -> (forall a, Keeps (f a)) -> Keeps (m ≫= f).
Proof. intros Hm Hf. by apply keeps_bind_post. Qed.
Lemma keeps_catch {A} (m : Sched A) h : Keeps m -> (forall e, Keeps (h e)) -> Keeps (io_catch m h).
Proof.
  intros Hm Hh w HI. unfold io_catch. specialize (Hm w HI).
  destruct (m w) as [w1 [a|x]]; [done|]. destruct (error_of x); [|done]. eapply frame_trans; [done|]. intros HI1. by apply Hh.
Qed.
Lemma keeps_iter {A} (f : A -> Sched unit) l : (forall x, Keeps (f x)) -> Keeps (io_iter f l).
Proof.
  intros Hf. induction l as [|x l IH]; simpl; [apply keeps_ret|]. by apply keeps_bind.
Qed.
Lemma keeps_store {A} (m : M DB A) : (forall db, I db -> I (m db).1) -> Keeps (s_store m).
Proof.
  intros Hm. apply keeps_quiet; intros w.
  - intros HI. unfold s_store. specialize (Hm _ HI). by destruct (m (w_db w)).
  - unfold s_store. by destruct (m (w_db w)).
Qed.
Lemma keeps_commit rs : Forall C rs -> Keeps (s_commit rs).
Proof.
  intros Hrs. apply keeps_bind; [apply keeps_call|]. intros n. apply keeps_store. intros db. by apply I_commit.
Qed.
Lemma keeps_claim r : Keeps (s_claim r).
Proof. apply keeps_store, I_claim. Qed.
Lemma get_record_db k rid db : (get_record k rid db).1 = db.
Proof.
  unfold get_record, store_tx, transaction, select_row, mbind, t_bind.
  destruct (tables db !! (k, rid)); by destruct db.
Qed.
Lemma list_records_db k rid limit offset db : (list_records k rid limit offset db).1 = db.
Proof. unfold list_records, m_bind, m_guard. by destruct (_ || _). Qed.
Lemma keeps_get k rid : Keeps (s_get k rid).
Proof. apply keeps_store. intros db. by rewrite get_record_db. Qed.
Lemma keeps_list k limit : Keeps (s_list k limit).
Proof. apply keeps_store. intros db. by rewrite list_records_db. Qed.
Lemma keeps_emit e : Keeps (emit_event e).
Proof.
  apply keeps_quiet; intros w; unfold emit_event.
  - intros HI. pose proof (emit_keeps (w_calls w) e (w_db w)) as Hs.
    destruct (env_emit _ _ _) as [db r]. simpl in *. by eapply I_same.
  - by destruct (env_emit _ _ _) as [db r].
Qed.
Lemma keeps_dispatch r : P r -> Keeps (dispatch r).
Proof.
  intros HP w _ HI HQ. unfold dispatch. pose proof (dispatch_keeps (w_calls w) r (w_db w)) as Hs.
  destruct (env_dispatch _ _ _) as [db x]. simpl in *. split; [by eapply I_same|]. split; [done|].
  eexists. split; [done|]. by constructor.
Qed.

Lemma C_schedule rid v : C (mkRecord KSchedule rid "" v).
Proof. apply C_other. intros [|]; discriminate. Qed.
Lemma C_trigger rid v : C (mkRecord KTrigger rid "" v).
Proof. apply C_other. intros [|]; discriminate. Qed.
Lemma C_event e : C (event_record e).
Proof. apply C_other. intros [|]; discriminate. Qed.

Ltac records := repeat constructor; first [apply C_schedule | apply C_trigger | apply C_event | solve [auto]].
Ltac keeps_step := first
  [ apply keeps_ret | apply keeps_lift | apply keeps_call | apply keeps_get | apply keeps_list
  | apply keeps_claim | apply keeps_emit | apply keeps_commit; records
  | apply keeps_iter; intros ? | apply keeps_catch; [|intros ?] | apply keeps_bind; [|intros ?]
  | case_match ].
Ltac keeps := repeat keeps_step.

Lemma keeps_clock : Keeps clock_now. Proof. unfold clock_now. keeps. Qed.
Lemma keeps_as_schedule j : Keeps (as_schedule j). Proof. unfold as_schedule. keeps. Qed.
Lemma keeps_as_trigger j : Keeps (as_trigger j). Proof. unfold as_trigger. keeps. Qed.
Lemma keeps_as_event j : Keeps (as_event j). Proof. unfold as_event. keeps. Qed.
Lemma keeps_next_due s after : Keeps (next_due s after). Proof. unfold next_due. keeps. Qed.
Lemma keeps_scheduler_event ty s due extra : Keeps (scheduler_event ty s due extra).
Proof. unfold scheduler_event. keeps. Qed.
Lemma keeps_trigger_event ty t src extra : Keeps (trigger_event ty t src extra).
Proof. unfold trigger_event. keeps. Qed.
Lemma keeps_require_absent k rid msg : Keeps (require_absent k rid msg).
Proof. unfold require_absent. keeps. Qed.
Ltac keeps_op := first [ apply keeps_clock | apply keeps_as_schedule | apply keeps_as_trigger
  | apply keeps_as_event | apply keeps_next_due | apply keeps_scheduler_event
  | apply keeps_trigger_event | apply keeps_require_absent | keeps_step ].
Ltac keeps_ops := repeat keeps_op.

Lemma keeps_create_schedule s : Keeps (create_schedule s). Proof. unfold create_schedule. keeps_ops. Qed.
Lemma keeps_update_schedule s : Keeps (update_schedule s). Proof. unfold update_schedule. keeps_ops. Qed.
Lemma keeps_set_schedule_enabled i b : Keeps (set_schedule_enabled i b).
Proof. unfold set_schedule_enabled. keeps_ops. Qed.
Lemma keeps_delete_schedule i : Keeps (delete_schedule i). Proof. unfold delete_schedule. keeps_ops. Qed.
Lemma keeps_create_trigger t : Keeps (create_trigger t). Proof. unfold create_trigger. keeps_ops. Qed.
Lemma keeps_update_trigger t : Keeps (update_trigger t). Proof. unfold update_trigger. keeps_ops. Qed.
Lemma keeps_set_trigger_enabled i b : Keeps (set_trigger_enabled i b).
Proof. unfold set_trigger_enabled. keeps_ops. Qed.
Lemma keeps_delete_trigger i : Keeps (delete_trigger i). Proof. unfold delete_trigger. keeps_ops. Qed.

(** A read occurrence that is not settled may be written. *)
Lemma unsettled_read k oid w st : 
  (forall existing, row_body <$> tables (w_db w) !! (k, oid) = Some existing -> status_of existing = TOk st) ->
  settled_status st = false -> unsettled k oid (w_db w).
Proof.
  intros Hst Hs row st' Hrow Hst'. rewrite Hrow in Hst. simpl in Hst. rewrite (Hst _ eq_refl) in Hst'.
  by injection Hst' as <-.
Qed.
Lemma unsettled_absent k oid w : row_body <$> tables (w_db w) !! (k, oid) = None -> unsettled k oid (w_db w).
Proof. intros Hn row st Hrow _. by rewrite Hrow in Hn. Qed.

Lemma keeps_recover oid existing now runs : (forall v, C (mkRecord KScheduleOccurrence oid "" v)) ->
  Keeps (recover_run oid existing now runs).
Proof.
  intros HC. induction runs as [|j runs IH]; simpl; [keeps|]. apply keeps_bind; [keeps|]. intros run.
  case_match; [keeps|done].
Qed.

Lemma check_occurrence_unsettled oid now w w' existing :
  check_occurrence oid now w = (w', TOk (Some existing)) -> unsettled KScheduleOccurrence oid (w_db w).
Proof.
  unfold check_occurrence, mbind at 1, io_bind at 1. fold (read_or_none KScheduleOccurrence oid).
  rewrite read_or_none_spec. destruct (row_body <$> _) as [ex|] eqn:Er.
  2: { intros _. by apply unsettled_absent. }
  unfold io_lift, mbind, io_bind. destruct (status_of ex) as [st|x] eqn:Est; [|done].
  fold (settled_status st). destruct (settled_status st) eqn:Es; [done|]. intros _.
  eapply unsettled_read; [|done]. intros ex' Hex. rewrite Er in Hex. by injection Hex as <-.
Qed.

Lemma keeps_check_occurrence oid now : Keeps (check_occurrence oid now).
Proof.
  intros w HI. unfold check_occurrence, mbind at 1, io_bind at 1.
  fold (read_or_none KScheduleOccurrence oid). rewrite read_or_none_spec.
  destruct (row_body <$> _) as [ex|] eqn:Er; [|by apply keeps_ret].
  unfold mbind at 1, io_bind at 1, io_lift at 1. destruct (status_of ex) as [st|x] eqn:Est; [|apply frame_refl].
  fold (settled_status st). destruct (settled_status st) eqn:Es; [by apply keeps_ret|].
  assert (HC : forall v, C (mkRecord KScheduleOccurrence oid "" v)).
  { intros v. apply (C_unsettled _ _ _ (w_db w)); [by left|done|]. eapply unsettled_read; [|done].
    intros ex' Hex. rewrite Er in Hex. by injection Hex as <-. }
  case_match; [|by apply keeps_ret]. revert HI. revert w Er. intros w _.
  assert (Hk : Keeps (runs ← s_list KRun 10000; recovered ← recover_run oid ex now runs;
    mret (if (recovered : bool) then None else Some (set_member "status" (JString "pending") ex)))).
  { apply keeps_bind; [keeps|]. intros runs. apply keeps_bind; [by apply keeps_recover|]. intros; keeps. }
  apply Hk.
Qed.

Lemma keeps_skip_missed fuel now : forall s, Keeps (skip_missed fuel s now).
Proof.
  induction fuel as [|fuel IH]; intros s; cbn [skip_missed]; [keeps|].
  apply keeps_bind; [keeps|]. intros due. case_match; [|keeps].
  apply keeps_bind; [apply keeps_next_due|]. intros next. apply IH.
Qed.
Lemma keeps_advance s due now : Keeps (advance_schedule s due now).
Proof. unfold advance_schedule. keeps_ops. Qed.


(** Occurrences keep their key when the schedule advances. *)
Lemma advance_id s due now w w' s' : advance_schedule s due now w = (w', TOk s') -> sc_id s' = sc_id s.
Proof.
  unfold advance_schedule. intros (w1 & next & _ & Ha)%io_bind_ok. injection Ha as _ <-.
  by case_match.
Qed.
Lemma skip_missed_id fuel now : forall s w w' s', skip_missed fuel s now w = (w', TOk s') -> sc_id s' = sc_id s.
Proof.
  induction fuel as [|fuel IH]; intros s w w' s'; cbn [skip_missed]; [by intros [= _ <-]|].
  intros (w1 & due & _ & Hs)%io_bind_ok. destruct due; [|by injection Hs as _ <-].
  apply io_bind_ok in Hs as (w2 & next & _ & Hs). by apply IH in Hs.
Qed.

Section Occurrence.
Context (s : ScheduleDefinition) (due : string).
Context (HC : forall v, C (mkRecord KScheduleOccurrence (occurrence_of s due) "" v)).

Lemma C_occurrence s' status run : sc_id s' = sc_id s -> C (occurrence_record s' due status run).
Proof. intros Hid. unfold occurrence_record, occurrence_of. rewrite Hid. apply HC. Qed.

Lemma keeps_misfire now : Keeps (misfire s due now).
Proof.
  unfold misfire. apply keeps_bind_post.
  { case_match; [keeps|]. apply keeps_bind; [apply keeps_next_due|]. intros. apply keeps_skip_missed. }
  intros w w' s' _ Hs. assert (Hid : sc_id s' = sc_id s).
  { case_match; [by injection Hs as _ <-|]. apply io_bind_ok in Hs as (w1 & next & _ & Hs).
    by apply skip_missed_id in Hs. }
  apply keeps_bind; [apply keeps_scheduler_event|]. intros ev. apply keeps_bind; [|intros; keeps].
  apply keeps_commit. constructor; [apply C_schedule|]. constructor; [by apply C_occurrence|records].
Qed.
Lemma keeps_overlap s0 status reason now : sc_id s0 = sc_id s -> Keeps (overlap s0 due status reason now).
Proof.
  intros H0. unfold overlap. apply keeps_bind_post; [apply keeps_advance|]. intros w w' s' _ Hs.
  apply advance_id in Hs. apply keeps_bind; [apply keeps_scheduler_event|]. intros ev.
  apply keeps_bind; [|intros; keeps]. apply keeps_commit. constructor; [apply C_schedule|].
  constructor; [|records]. apply C_occurrence. by rewrite Hs.
Qed.
Lemma keeps_launch_failed s' e : sc_id s' = sc_id s -> Keeps (launch_failed s' due e).
Proof.
  intros Hid. unfold launch_failed. apply keeps_bind; [|intros; keeps]. apply keeps_commit.
  constructor; [by apply C_occurrence|done].
Qed.
Context (HP : P (schedule_request s due)).
Lemma keeps_launch now : Keeps (launch s due now).
Proof.
  unfold launch. apply keeps_bind_post.
  { apply keeps_catch; [|intros e; apply keeps_bind; [by apply keeps_launch_failed|intros; keeps]].
    apply keeps_bind; [by apply keeps_dispatch|]. intros run. apply keeps_bind; [apply keeps_advance|].
    intros; keeps. }
  intros w w' [[run s']|counted] _ Hr; [|keeps].
  assert (Hid : sc_id s' = sc_id s).
  { unfold io_catch in Hr. case_match eqn:Hm. case_match.
    - simplify_eq. apply io_bind_ok in Hm as (w1 & r1 & _ & Hm).
      apply io_bind_ok in Hm as (w2 & s1 & Ha & Hm). injection Hm as _ _ <-. by apply advance_id in Ha.
    - case_match; [|done]. by apply io_bind_ok in Hr as (w1 & c1 & _ & Hr). }
  apply keeps_catch; [|intros e; by apply keeps_launch_failed].
  apply keeps_bind; [apply keeps_scheduler_event|]. intros ev. apply keeps_bind; [|intros; keeps].
  apply keeps_commit. constructor; [apply C_schedule|]. constructor; [by apply C_occurrence|records].
Qed.
End Occurrence.

Lemma keeps_active sid : Keeps (active_schedule_run sid).
Proof.
  unfold active_schedule_run. apply keeps_bind; [keeps|]. intros runs.
  induction runs as [|j runs IH]; [keeps|]. apply keeps_bind; [keeps|]. intros run. by case_match; [keeps|].
Qed.

Lemma keeps_process_schedule now record : Keeps (process_schedule now record).
Proof.
  unfold process_schedule. apply keeps_bind; [apply keeps_as_schedule|]. intros s.
  case_match; [keeps|]. apply keeps_bind; [keeps|]. intros ready. case_match; [keeps|]. case_match; [keeps|].
  apply keeps_bind_post; [apply keeps_check_occurrence|]. intros w w' [existing|] HI Hc; [|keeps].
  apply check_occurrence_unsettled in Hc.
  set (due := if queued s then queued_due_at s else next_due_at s) in *.
  assert (HC : forall v, C (mkRecord KScheduleOccurrence (occurrence_of s due) "" v))
    by (intros v; apply (C_unsettled _ _ _ (w_db w)); [by left|done|done]).
  assert (HP : P (schedule_request s due)) by by eapply P_schedule.
  apply keeps_bind; [unfold own_occurrence; keeps|]. intros owned. case_match; [keeps|].
  apply keeps_bind; [keeps|]. intros late. case_match.
  { apply keeps_bind; [by apply keeps_misfire|intros; keeps]. }
  apply keeps_bind; [case_match; [keeps|apply keeps_active]|]. intros active.
  case_match; [apply keeps_bind; [by eapply keeps_overlap|intros; keeps]|].
  case_match; [apply keeps_bind; [by eapply (keeps_overlap s)|intros; keeps]|]. by apply keeps_launch.
Qed.

Lemma keeps_process_due : Keeps (process_due config).
Proof.
  intros w HI. unfold process_due. case_match; [apply frame_refl|].
  assert (Hl : forall now l launches, Keeps (process_schedules config now launches l)).
  { intros now. induction l as [|r l IH]; intros launches; cbn [process_schedules]; [keeps|].
    case_match; [keeps|]. apply keeps_bind; [apply keeps_process_schedule|]. intros; apply IH. }
  assert (Hk : Keeps (now ← clock_now; records ← s_list KSchedule (u32 (max_pending_launches config + 1));
    process_schedules config now 0 records)).
  { apply keeps_bind; [apply keeps_clock|]. intros now. apply keeps_bind; [keeps|]. intros; apply Hl. }
  by apply Hk.
Qed.

Lemma keeps_delivery_failed did d e : (forall v, C (mkRecord KTriggerDelivery did "" v)) ->
  Keeps (delivery_failed did d e).
Proof.
  intros HC. unfold delivery_failed. apply keeps_bind; [apply keeps_clock|]. intros now.
  apply keeps_commit. constructor; [apply HC|done].
Qed.
Lemma keeps_deliver t e did d : (forall v, C (mkRecord KTriggerDelivery did "" v)) ->
  P (trigger_request t e) -> Keeps (deliver t e did d).
Proof.
  intros HC HP. unfold deliver. apply keeps_bind.
  { apply keeps_catch; [apply keeps_bind; [by apply keeps_dispatch|intros; keeps]|].
    intros x. apply keeps_bind; [by apply keeps_delivery_failed|intros; keeps]. }
  intros [run|]; [|keeps]. apply keeps_bind; [apply keeps_clock|]. intros now.
  apply keeps_catch; [|intros x; by apply keeps_delivery_failed].
  apply keeps_bind; [apply keeps_trigger_event|]. intros ev. apply keeps_bind; [|intros; keeps].
  apply keeps_commit. constructor; [apply HC|records].
Qed.

Lemma check_delivery_spec did w w' r : check_delivery did w = (w', TOk (Some r)) ->
  w' = w /\ unsettled KTriggerDelivery did (w_db w).
Proof.
  unfold check_delivery, mbind at 1, io_bind at 1. fold (read_or_none KTriggerDelivery did).
  rewrite read_or_none_spec. destruct (row_body <$> _) as [ex|] eqn:Er.
  2: { intros [= <- _]. split; [done|]. by apply unsettled_absent. }
  unfold io_lift, mbind, io_bind, mret, io_ret. destruct (status_of ex) as [st|x] eqn:Est; [|done].
  fold (settled_status st). destruct (settled_status st) eqn:Es; [done|]. intros [= <- _]. split; [done|].
  eapply unsettled_read; [|done]. intros ex' Hex. rewrite Er in Hex. by injection Hex as <-.
Qed.
Lemma keeps_check_delivery did : Keeps (check_delivery did).
Proof. unfold check_delivery. keeps. Qed.

Lemma keeps_process_trigger t e : Q e -> Keeps (process_trigger config t e).
Proof.
  intros HQ. unfold process_trigger. case_match; [keeps|].
  destruct (Z.leb_spec (max_trigger_depth config) (ev_trigger_depth e)); [keeps_ops|].
  apply keeps_bind_post; [apply keeps_check_delivery|]. intros w w' [[d owned]|] HI Hc; [|keeps].
  apply check_delivery_spec in Hc as [_ Hu].
  assert (HC : forall v, C (mkRecord KTriggerDelivery (delivery_of t e) "" v))
    by (intros v; apply (C_unsettled _ _ _ (w_db w)); [by right|done|done]).
  assert (HP : P (trigger_request t e)) by by eapply P_trigger.
  destruct owned; [by apply keeps_deliver|]. apply keeps_bind; [apply keeps_clock|]. intros now.
  apply keeps_bind; [keeps|]. intros claimed. case_match; [by apply keeps_deliver|keeps].
Qed.

Lemma keeps_logged m : Keeps m -> Keeps (logged m).
Proof. intros Hm. unfold logged. apply keeps_catch; [done|intros; keeps]. Qed.

Lemma keeps_read_event {B} j (f : Event -> Sched B) :
  (forall e, Q e -> Keeps (f e)) -> Keeps (e ← as_event j; f e).
Proof.
  intros Hf. apply keeps_bind_post; [apply keeps_as_event|]. intros w w' e _ He. apply Hf.
  unfold as_event in He. apply io_bind_ok in He as (w1 & n & _ & He). injection He as _ He.
  by eapply Q_event.
Qed.

Lemma keeps_replay_delivery record : Keeps (replay_delivery config record).
Proof.
  unfold replay_delivery. apply keeps_bind; [keeps|]. intros st. case_match; [keeps|]. apply keeps_logged.
  apply keeps_bind; [keeps|]. intros tid. apply keeps_bind; [keeps_ops|]. intros t.
  apply keeps_bind; [keeps|]. intros eid.
  apply keeps_bind_post; [keeps_ops|]. intros w w' e _ He. apply keeps_process_trigger.
  apply io_bind_ok in He as (w1 & j & _ & He). unfold as_event in He.
  apply io_bind_ok in He as (w2 & n & _ & He). injection He as _ He. by eapply Q_event.
Qed.

Lemma keeps_running {A} (m : Sched A) (a : A) :
  Keeps m -> Keeps (fun w => if stopped w then (w, TOk a) else m w).
Proof. intros Hm w HI. case_match; [apply frame_refl|by apply Hm]. Qed.

Lemma keeps_replay_pending : Keeps (replay_pending_deliveries config).
Proof.
  apply keeps_running. apply keeps_bind; [keeps|]. intros l. apply keeps_iter, keeps_replay_delivery.
Qed.

Lemma keeps_receive e : Q e -> Keeps (receive_event config e).
Proof.
  intros HQ w HI. unfold receive_event. case_match; [apply frame_refl|]. case_match; [apply frame_refl|].
  intros _ Hm. split; [done|]. split; [by apply Forall_app; split; [|constructor]|].
  exists []. by rewrite app_nil_r.
Qed.

Lemma keeps_replay_events : Keeps (replay_events config).
Proof.
  apply keeps_running. apply keeps_bind; [keeps|]. intros l. apply keeps_iter. intros j.
  apply keeps_logged, keeps_read_event. intros e He. by apply keeps_receive.
Qed.

Lemma keeps_reconcile e : Keeps (reconcile_completion e).
Proof.
  unfold reconcile_completion. apply keeps_bind; [keeps|]. intros run. case_match; [keeps|].
  apply keeps_bind; [keeps_ops|]. intros s. apply keeps_bind; [case_match; [apply keeps_active|keeps]|].
  intros active. apply keeps_bind; [apply keeps_clock|]. intros now. apply keeps_commit. records.
Qed.

Lemma keeps_handle_event : Keeps (handle_event config).
Proof.
  intros w HI HI' HQ. unfold handle_event. destruct (mailbox w) as [|e rest] eqn:Em; [by apply frame_refl; [done|rewrite Em]|].
  apply Forall_cons in HQ as [He Hrest].
  assert (Hk : Keeps (fun w => if stopped w then (w, TOk tt) else handle_posted config e w)).
  { apply keeps_running. unfold handle_posted. apply keeps_bind; [keeps|]. intros l. apply keeps_bind.
    { apply keeps_iter. intros j. apply keeps_logged. apply keeps_bind; [apply keeps_as_trigger|].
      intros t. by apply keeps_process_trigger. }
    intros _. apply keeps_bind; [case_match; [apply keeps_logged, keeps_reconcile|keeps]|].
    intros _. apply keeps_replay_pending. }
  set (w1 := w <| mailbox := rest |>). exact (Hk w1 HI HI Hrest).
Qed.

(** ** Operations and steps *)

Definition discard {A} (m : Sched A) : Sched unit := _ ← m; mret tt.
Inductive operation : Sched unit -> Prop :=
  | op_create_schedule s : operation (discard (create_schedule s))
  | op_update_schedule s : operation (discard (update_schedule s))
  | op_set_schedule i b : operation (set_schedule_enabled i b)
  | op_delete_schedule i : operation (delete_schedule i)
  | op_create_trigger t : operation (discard (create_trigger t))
  | op_update_trigger t : operation (discard (update_trigger t))
  | op_set_trigger i b : operation (set_trigger_enabled i b)
  | op_delete_trigger i : operation (delete_trigger i)
  | op_start : operation start
  | op_stop : operation stop
  | op_started : operation (start_posted config)
  | op_timer : operation (timer_fired config)
  | op_process : operation (process_due config)
  | op_receive e : fits32 (ev_trigger_depth e) -> operation (receive_event config e)
  | op_handle : operation (handle_event config).

(** An operation of the scheduler, or a change of the database by another component.  Only this scheduler
    writes schedules, occurrences, triggers and deliveries: a second instance on the same schema would start
    one more, and its operations would overlap with these. *)
Inductive sched_step (w : World) : World -> Prop :=
  | step_op m w' x : operation m -> m w = (w', x) -> sched_step w w'
  | step_other db : same_deliveries (w_db w) db -> sched_step w (w <| w_db := db |>).

Context (Q_depth : forall e, fits32 (ev_trigger_depth e) -> Q e).

Lemma keeps_discard {A} (m : Sched A) : Keeps m -> Keeps (discard m).
Proof. intros Hm. apply keeps_bind; [done|intros; keeps]. Qed.

Lemma keeps_operation m : operation m -> Keeps m.
Proof.
  intros Hm. destruct Hm.
  - apply keeps_discard, keeps_create_schedule.
  - apply keeps_discard, keeps_update_schedule.
  - apply keeps_set_schedule_enabled.
  - apply keeps_delete_schedule.
  - apply keeps_discard, keeps_create_trigger.
  - apply keeps_discard, keeps_update_trigger.
  - apply keeps_set_trigger_enabled.
  - apply keeps_delete_trigger.
  - apply keeps_quiet; intros w; unfold start; by case_match.
  - by apply keeps_quiet.
  - unfold start_posted. apply keeps_bind; [apply keeps_replay_events|]. intros _.
    apply keeps_bind; [apply keeps_process_due|]. intros _. apply keeps_replay_pending.
  - apply keeps_running. apply keeps_bind; [apply keeps_process_due|]. intros _. apply keeps_replay_pending.
  - apply keeps_process_due.
  - by apply keeps_receive, Q_depth.
  - apply keeps_handle_event.
Qed.

Lemma frame_steps w w' : rtc sched_step w w' -> I (w_db w) -> frame w w'.
Proof.
  induction 1 as [w|w w1 w' Hs _ IH]; intros HI; [apply frame_refl|].
  assert (H1 : frame w w1).
  { destruct Hs as [m w1 x Hm Hrun|db Hdb].
    - apply keeps_operation in Hm. specialize (Hm w HI). by rewrite Hrun in Hm.
    - apply frame_quiet; [by apply I_same|done|done]. }
  by eapply frame_trans.
Qed.
End Frame.

(** ** Commits *)

Section Commits.
Context `{L : JsonLib}.

Lemma commit_other f n rs db key row :
  Forall (fun r => (rc_kind r, rc_id r) <> key) rs -> tables db !! key = Some row ->
  tables (commit f n rs db).1 !! key = Some row.
Proof.
  intros Hrs Hrow. unfold commit, store_tx, transaction.
  destruct (write_records f n rs db) as [db' [[]|x]] eqn:Hw; [|done]. simpl.
  apply (write_records_ind f n (fun d => tables d !! key = Some row) rs) with (db := db); [|done|done].
  intros r d d' Hin Hd Hr. rewrite Forall_forall in Hrs. specialize (Hrs r Hin).
  apply write_record_ok in Hr as (_ & _ & _ & _ & _ & _ & [(_ & -> & _)|(_ & seq & Ht & _)]); [done|].
  by rewrite Ht, lookup_insert_ne.
Qed.

Lemma claim_other r db key row : tables db !! key = Some row -> tables (claim r [] db).1 !! key = Some row.
Proof.
  intros Hrow. destruct (claim r [] db) as [db' [b|e]] eqn:Hc.
  - apply claim_ok in Hc as [Hg _]. by apply Hg.
  - unfold claim in Hc. apply m_bind_throw in Hc as [Hc|(d1 & u & H1 & Hc)].
    { by apply m_guard_run in Hc as ->. }
    apply m_guard_run in H1 as ->. apply m_bind_throw in Hc as [Hc|(d2 & u2 & H2 & Hc)].
    { by apply m_guard_run in Hc as ->. }
    apply m_guard_run in H2 as ->. apply transaction_throw in Hc as [Ht _]. simpl. by rewrite Ht.
Qed.

Definition record_key (r : StoreRecord) : RecordKind * string := (rc_kind r, rc_id r).

Lemma write_record_row f n r db db' : rc_kind r <> KNodeWork -> write_record f n r db = (db', TOk tt) ->
  exists seq, tables db' !! record_key r = Some (mkRow (rc_run_id r) (rc_value r) seq)
    /\ forall key, key <> record_key r -> tables db' !! key = tables db !! key.
Proof.
  intros Hk Hw. apply write_record_ok in Hw as (_ & _ & _ & _ & _ & _ & [(Hn & _)|(_ & seq & Ht & _)]); [done|].
  exists seq. rewrite Ht. split; [apply lookup_insert_eq|]. intros key Hne. by rewrite lookup_insert_ne.
Qed.

(** A successful commit stores every record, and nothing else. *)
Lemma commit_rows f n rs db db' : NoDup (record_key <$> rs) -> Forall (fun r => rc_kind r <> KNodeWork) rs ->
  commit f n rs db = (db', Ok tt) ->
  Forall (fun r => exists seq, tables db' !! record_key r = Some (mkRow (rc_run_id r) (rc_value r) seq)) rs
  /\ forall key, key ∉ record_key <$> rs -> tables db' !! key = tables db !! key.
Proof.
  unfold commit, store_tx. intros Hnd Hk Hc. apply transaction_ok in Hc. revert db Hnd Hk Hc.
  induction rs as [|r rs IH]; intros db Hnd Hk Hc; simpl in Hc; [by injection Hc as <-|].
  apply t_bind_ok in Hc as (d1 & [] & Hr & Hc). rewrite fmap_cons in Hnd. apply NoDup_cons in Hnd as [Hin Hnd].
  apply Forall_cons in Hk as [Hkr Hk]. apply write_record_row in Hr as (seq & Hrow & Hoth); [|done].
  destruct (IH d1 Hnd Hk Hc) as [Hall Hrest]. split.
  - constructor; [|done]. exists seq. by rewrite (Hrest _ Hin).
  - intros key Hkey. rewrite fmap_cons, not_elem_of_cons in Hkey. destruct Hkey as [Hne Hkey].
    rewrite (Hrest _ Hkey). by apply Hoth.
Qed.
End Commits.

(** ** Settled records *)

(** The record a launch request was made for. *)
Definition launch_key (r : LaunchRequest) : option (RecordKind * string) :=
  match member (lr_origin r) "schedule_occurrence_id" with
  | Some (JString occurrence) => Some (KScheduleOccurrence, occurrence)
  | _ =>
      match member (lr_origin r) "trigger_id", member (lr_origin r) "event_id" with
      | Some (JString t), Some (JString e) => Some (KTriggerDelivery, (t ++ "|" ++ e)%string)
      | _, _ => None
      end
  end.

Lemma launch_key_schedule s due : launch_key (schedule_request s due) = Some (KScheduleOccurrence, occurrence_of s due).
Proof. reflexivity. Qed.
Lemma launch_key_trigger t e : launch_key (trigger_request t e) = Some (KTriggerDelivery, delivery_of t e).
Proof. reflexivity. Qed.

Definition no_launch (key : RecordKind * string) (w w' : World) : Prop :=
  exists new, launched w' = launched w ++ new /\ Forall (fun c => launch_key c.1 <> Some key) new.

Lemma settled_steps `{L : JsonLib} {E : SchedulerEnv} {HE : SchedulerEnvLaws E} config w w' k oid row st :
  scheduler_kind k -> rtc (sched_step config) w w' -> tables (w_db w) !! (k, oid) = Some row ->
  status_of (row_body row) = TOk st -> settled_status st = true ->
  tables (w_db w') !! (k, oid) = Some row /\ no_launch (k, oid) w w'.
Proof.
  intros Hk Hs Hrow Hst Hset.
  assert (Hu : forall k' oid' db, tables db !! (k, oid) = Some row -> unsettled k' oid' db -> (k', oid') <> (k, oid)).
  { intros k' oid' db Hdb Hu [= -> ->]. specialize (Hu row st Hdb Hst). congruence. }
  destruct (frame_steps config (fun db => tables db !! (k, oid) = Some row) (fun _ => True)
    (fun r => launch_key r <> Some (k, oid)) (fun r => (rc_kind r, rc_id r) <> (k, oid))) with (w := w) (w' := w')
    as (HI & _ & Hn); try done.
  - intros db db' Hdb. by rewrite Hdb.
  - intros f n rs db Hrs Hdb. by apply commit_other.
  - intros r db Hdb. by apply claim_other.
  - intros r Hr [= Hk' _]. by rewrite Hk' in Hr.
  - intros k' oid' v db _ Hdb Hun. by apply (Hu _ _ db).
  - intros s due db Hdb Hun. rewrite launch_key_schedule. intros Hkey. apply (Hu _ _ db Hdb Hun). congruence.
  - intros t e db Hdb _ _ Hun. rewrite launch_key_trigger. intros Hkey. apply (Hu _ _ db Hdb Hun). congruence.
  - by apply Forall_true.
Qed.

(** ** Launches *)

Section Launches.
Context `{L : JsonLib} `{!JsonLaws L} {E : SchedulerEnv} {HE : SchedulerEnvLaws E}.

Lemma status_of_record status s due run : status_of (record_value status s due run) = TOk status.
Proof. exact (dec_string_of status). Qed.

(** The stored occurrence has the given status. *)
Definition has_status (s : ScheduleDefinition) (due status : string) (db : DB) : Prop :=
  exists row, tables db !! (KScheduleOccurrence, occurrence_of s due) = Some row
    /\ status_of (row_body row) = TOk status.

Lemma s_commit_ok rs w w' : s_commit rs w = (w', TOk tt) ->
  exists f n, commit f n rs (w_db w) = (w_db w', Ok tt) /\ launched w' = launched w.
Proof.
  unfold s_commit. intros (w1 & n & Hcall & Hc)%io_bind_ok. injection Hcall as <- <-.
  unfold s_store in Hc. simpl in Hc. destruct (commit _ _ rs (w_db w)) as [db [[]|e]] eqn:Hcm; [|done].
  injection Hc as <-. by eexists _, _.
Qed.

Lemma launch_failed_ok s due e w w' counted : launch_failed s due e w = (w', TOk counted) ->
  has_status s due (if counted then "failed" else "pending") (w_db w')
  /\ counted = negb (bool_decide (code e = Capacity)) /\ launched w' = launched w
  /\ forall key, key <> (KScheduleOccurrence, occurrence_of s due) ->
       tables (w_db w') !! key = tables (w_db w) !! key.
Proof.
  unfold launch_failed. intros (w1 & [] & Hc & Hr)%io_bind_ok. injection Hr as <- <-.
  apply s_commit_ok in Hc as (f & n & Hc & Hl).
  apply commit_rows in Hc as [Hrows Hoth]; [|by apply NoDup_singleton|by repeat constructor].
  apply Forall_cons in Hrows as [(seq & Hrow) _]. split; [|split; [done|split; [done|]]].
  - eexists. split; [done|]. destruct (bool_decide _); apply status_of_record.
  - intros key Hkey. apply Hoth. set_solver.
Qed.

Lemma emit_ok e w w' : emit_event e w = (w', TOk tt) -> same_deliveries (w_db w) (w_db w').
Proof.
  unfold emit_event. pose proof (emit_keeps (w_calls w) e (w_db w)) as Hs.
  destruct (env_emit _ _ _) as [db r]. by intros [= <- _].
Qed.

(** A launch that returns leaves its occurrence settled, or pending for lack of capacity. *)
Lemma launch_ok s due now w w' counted : launch s due now w = (w', TOk counted) ->
  exists st, has_status s due st (w_db w')
    /\ (if counted then settled_status st = true else st = "pending"%string).
Proof.
  assert (Hfail : forall s' e w1 c, sc_id s' = sc_id s -> launch_failed s' due e w1 = (w', TOk c) ->
    exists st, has_status s due st (w_db w') /\ (if c then settled_status st = true else st = "pending"%string)).
  { intros s' e w1 c Hid Hf. apply launch_failed_ok in Hf as [Hs _]. unfold has_status, occurrence_of in *.
    rewrite Hid in Hs. eexists. split; [done|]. by destruct c. }
  unfold launch. intros (w1 & r & Hr & Hl)%io_bind_ok.
  destruct r as [[run s']|c].
  - assert (Hid : sc_id s' = sc_id s).
    { apply io_catch_ok in Hr as [Hr|(w2 & e & _ & Hr)].
      - apply io_bind_ok in Hr as (w2 & r1 & _ & Hr). apply io_bind_ok in Hr as (w3 & s1 & Ha & Hr).
        injection Hr as _ _ <-. by apply advance_id in Ha.
      - by apply io_bind_ok in Hr as (w3 & c & _ & Hr). }
    apply io_catch_ok in Hl as [Hl|(w2 & e & _ & Hl)]; [|by eapply Hfail].
    apply io_bind_ok in Hl as (w2 & ev & _ & Hl). apply io_bind_ok in Hl as (w3 & [] & Hc & Hl).
    apply io_bind_ok in Hl as (w4 & [] & He & Hl). injection Hl as <- <-.
    apply s_commit_ok in Hc as (f & n & Hc & _). apply emit_ok in He.
    apply commit_rows in Hc as [Hrows _]; [| |repeat constructor; done].
    + apply Forall_cons in Hrows as [_ Hrows]. apply Forall_cons in Hrows as [(seq & Hrow) _].
      exists "started"%string. split; [|done]. eexists. unfold occurrence_of. rewrite <- Hid.
      rewrite He by (by left). split; [exact Hrow|apply status_of_record].
    + repeat constructor; set_solver.
  - injection Hl as <- <-. apply io_catch_ok in Hr as [Hr|(w2 & e & _ & Hr)].
    + apply io_bind_ok in Hr as (w2 & r1 & _ & Hr). by apply io_bind_ok in Hr as (w3 & s1 & Ha & Hr).
    + apply io_bind_ok in Hr as (w3 & c' & Hf & Hr). injection Hr as <- <-. by eapply Hfail.
Qed.
End Launches.

(** ** Depth of trigger chains *)

Lemma event_depth_range `{L : JsonLib} {HL : JsonLaws L} f n j e :
  event_of_json f n j = TOk e -> fits32 (ev_trigger_depth e).
Proof.
  unfold event_of_json. intros He. do 8 (apply tres_bind_ok in He as (? & _ & He)).
  apply tres_bind_ok in He as (d & Hd & He). do 8 (apply tres_bind_ok in He as (? & _ & He)).
  injection He as <-. simpl. unfold value_ in Hd. destruct j; try done.
  destruct (member _ _) as [v|]; [|injection Hd as <-; unfold fits32, u32_max; lia].
  unfold dec_unsigned, dec_of in Hd. destruct (get_unsigned v) as [z|] eqn:Hz; [|done].
  injection Hd as <-. by apply get_unsigned_range in Hz.
Qed.

(** The depth a launch request carries, as the runtime reads it. *)
Definition request_depth (r : LaunchRequest) : option Json := member (lr_origin r) "trigger_depth".
Definition depth_within (limit : Z) (r : LaunchRequest) : Prop :=
  forall d, request_depth r = Some d -> exists z, d = JUnsigned z /\ 1 <= z <= limit.

Lemma trigger_depth_within t e limit : fits32 (ev_trigger_depth e) -> limit <= u32_max ->
  ev_trigger_depth e < limit -> depth_within limit (trigger_request t e).
Proof.
  intros [H0 H1] Hl Hd d Hr. unfold request_depth, trigger_request in Hr. cbn [lr_origin] in Hr.
  lazy -[u32 Z.add ev_trigger_depth] in Hr. injection Hr as <-. eexists. split; [done|].
  unfold u32, u32_max in *. rewrite Z.mod_small; lia.
Qed.

(** ** Failed launches *)

Section Stall.
Context `{L : JsonLib} {E : SchedulerEnv} {HE : SchedulerEnvLaws E}.

Lemma check_occurrence_settled oid now w row st :
  tables (w_db w) !! (KScheduleOccurrence, oid) = Some row -> status_of (row_body row) = TOk st ->
  settled_status st = true -> check_occurrence oid now w = (w, TOk None).
Proof.
  intros Hrow Hst Hset. unfold check_occurrence. fold (read_or_none KScheduleOccurrence oid).
  rewrite (io_bind_run _ _ _ _ _ (read_or_none_spec _ _ w)), Hrow.
  change (row_body <$> Some row) with (Some (row_body row)). cbv beta iota.
  rewrite (io_bind_run _ _ w w st) by (unfold io_lift; by rewrite Hst).
  fold (settled_status st). by rewrite Hset.
Qed.

(** A pass over a schedule whose occurrence is settled does nothing. *)
Lemma settled_pass s now record w t row st :
  (forall f n, schedule_of_json f n record = TOk s) -> queued s = false ->
  next_due_at s <> ""%string -> parse_utc_timestamp (next_due_at s) = Ok t ->
  tables (w_db w) !! (KScheduleOccurrence, occurrence_of s (next_due_at s)) = Some row ->
  status_of (row_body row) = TOk st -> settled_status st = true ->
  exists w', process_schedule now record w = (w', TOk false) /\ w_db w' = w_db w /\ launched w' = launched w.
Proof.
  intros Hs Hq Hne Hp Hrow Hst Hset. set (w1 := w <| w_calls := S (w_calls w) |>). exists w1. split; [|done].
  unfold process_schedule. rewrite (io_bind_run _ _ w w1 s).
  2: { unfold as_schedule. erewrite io_bind_run by done. unfold io_lift. by rewrite Hs. }
  rewrite Hq. cbv beta iota zeta. destruct (_ || _); [done|].
  rewrite (io_bind_run _ _ w1 w1 (t <=? now)).
  2: { unfold is_due, empty_str, io_lift. apply String.eqb_neq in Hne. by rewrite Hne, Hp. }
  destruct (t <=? now); cbn [negb]; [|done]. destruct (empty_str _); [done|].
  by erewrite io_bind_run by (by eapply check_occurrence_settled).
Qed.

Lemma dispatch_throw r w db e : env_dispatch (w_calls w) r (w_db w) = (db, TThrow (TError e)) ->
  exists w1, dispatch r w = (w1, TThrow (TError e)) /\ w_db w1 = db.
Proof. intros Hd. unfold dispatch. rewrite Hd. by eexists. Qed.

(** A launch that fails changes its occurrence only. *)
Lemma launch_throw `{!JsonLaws L} s due now w w' counted db e :
  env_dispatch (w_calls w) (schedule_request s due) (w_db w) = (db, TThrow (TError e)) ->
  launch s due now w = (w', TOk counted) ->
  has_status s due (if counted then "failed" else "pending") (w_db w')
  /\ counted = negb (bool_decide (code e = Capacity))
  /\ tables (w_db w') !! (KSchedule, sc_id s) = tables db !! (KSchedule, sc_id s).
Proof.
  intros Hd Hl. apply dispatch_throw in Hd as (w1 & Hd & Hdb).
  unfold launch, mbind at 1, io_bind at 1, io_catch at 1 in Hl. unfold mbind at 1, io_bind at 1 in Hl.
  rewrite Hd in Hl. cbn [error_of] in Hl. cbv beta iota in Hl. unfold mbind at 1, io_bind at 1 in Hl.
  destruct (launch_failed s due e w1) as [w2 [c|x]] eqn:Hf; [|done]. injection Hl as <- <-.
  apply launch_failed_ok in Hf as (Hs & Hc & _ & Hoth). split; [done|]. split; [done|].
  rewrite Hoth by done. by rewrite Hdb.
Qed.
End Stall.

(** ** Properties *)

(** C39: With one scheduler on the database, an occurrence of a schedule and a delivery of an event to a
    trigger are final once they are started, skipped or failed: whatever this scheduler does afterwards, and
    whatever the other components, which write neither occurrences nor deliveries, in any order, the stored
    record stays as it is and no launch request is made for it again. *)
Theorem settled_record_final `{L : JsonLib} {E : SchedulerEnv} {HE : SchedulerEnvLaws E} config w w' k oid row st :
  scheduler_kind k -> rtc (sched_step config) w w' -> tables (w_db w) !! (k, oid) = Some row ->
  status_of (row_body row) = TOk st -> settled_status st = true ->
  tables (w_db w') !! (k, oid) = Some row /\ no_launch (k, oid) w w'.
Proof. apply settled_steps. Qed.

(** A launch that the scheduler counts is the last one for its occurrence: its record is settled,
    and no later request, in any sequence of steps, is made for the same occurrence.  A launch
    refused for lack of capacity leaves the occurrence pending. *)
Theorem launched_once `{L : JsonLib} {HL : JsonLaws L} {E : SchedulerEnv} {HE : SchedulerEnvLaws E}
    config s due now w w1 w2 counted :
  launch s due now w = (w1, TOk counted) -> rtc (sched_step config) w1 w2 ->
  if counted then no_launch (KScheduleOccurrence, occurrence_of s due) w1 w2
  else has_status s due "pending" (w_db w1).
Proof.
  intros Hl Hs. apply launch_ok in Hl as (st & Hst & Hc). destruct counted; [|by subst st].
  destruct Hst as (row & Hrow & Hst). by eapply settled_steps; [left| | | |].
Qed.

(** Chains of triggers are bounded: every launch request made on behalf of a trigger carries a
    depth between 1 and the configured maximum, whatever events are stored or received. *)
Theorem trigger_depth_bounded `{L : JsonLib} {HL : JsonLaws L} {E : SchedulerEnv} {HE : SchedulerEnvLaws E}
    config w w' :
  max_trigger_depth config <= u32_max -> Forall (fun e => fits32 (ev_trigger_depth e)) (mailbox w) ->
  rtc (sched_step config) w w' ->
  exists new, launched w' = launched w ++ new
    /\ Forall (fun c => depth_within (max_trigger_depth config) c.1) new.
Proof.
  intros Hm Hq Hs.
  destruct (frame_steps config (fun _ => True) (fun e => fits32 (ev_trigger_depth e))
    (depth_within (max_trigger_depth config)) (fun _ => True)) with (w := w) (w' := w') as (_ & _ & Hn); try done.
  - intros t e _ _ He Hd _. by apply trigger_depth_within.
  - intros f n j e. apply event_depth_range.
Qed.

(** A launch that fails for a reason other than capacity stops its schedule: the schedule keeps
    its due time, the occurrence of that due time is recorded as failed, and every later pass over
    the schedule, at any time and after any steps, does nothing until the due time is changed by
    an update. *)
Theorem failed_launch_stalls `{L : JsonLib} {HL : JsonLaws L} {E : SchedulerEnv} {HE : SchedulerEnvLaws E}
    config s t now w w1 counted db e :
  next_due_at s <> ""%string -> parse_utc_timestamp (next_due_at s) = Ok t ->
  env_dispatch (w_calls w) (schedule_request s (next_due_at s)) (w_db w) = (db, TThrow (TError e)) ->
  code e <> Capacity -> launch s (next_due_at s) now w = (w1, TOk counted) ->
  tables (w_db w1) !! (KSchedule, sc_id s) = tables db !! (KSchedule, sc_id s) /\
  forall w2 now2 record s2, rtc (sched_step config) w1 w2 ->
    (forall f n, schedule_of_json f n record = TOk s2) -> queued s2 = false ->
    sc_id s2 = sc_id s -> next_due_at s2 = next_due_at s ->
    exists w3, process_schedule now2 record w2 = (w3, TOk false)
      /\ w_db w3 = w_db w2 /\ launched w3 = launched w2.
Proof.
  intros Hne Hp Hd He Hl. destruct (launch_throw _ _ _ _ _ _ _ _ Hd Hl) as (Hst & Hc & Hk).
  rewrite bool_decide_false in Hc by done. subst counted. split; [done|].
  intros w2 now2 record s2 Hs Hr Hq Hid Hdue. destruct Hst as (row & Hrow & Hst).
  destruct (settled_steps _ _ _ _ _ _ _ (or_introl eq_refl) Hs Hrow Hst eq_refl) as [Hrow2 _].
  eapply settled_pass; [done|done|by rewrite Hdue|by rewrite Hdue| |done|done].
  unfold occurrence_of in *. by rewrite Hid, Hdue.
Qed.

(** ** Examples *)

#[local] Existing Instance strict_json.
Definition sample_config : SchedulerConfig := mkSchedulerConfig 4 16 64.
(** 2024-03-01T10:30:00Z; the callback stores no run. *)
Definition sample_env (answer : tres string) : SchedulerEnv := {|
  env_dispatch := fun _ _ db => (db, answer);
  env_emit := fun _ _ db => (db, TOk tt);
  env_clock := fun _ => 1709289000000000000;
  env_uuid := fun n => ("u" ++ to_string (Z.of_nat n))%string;
  env_timestamp := fun _ => "2024-03-01T10:30:00.000Z"%string |}.
#[local] Instance sample_env_laws answer : SchedulerEnvLaws (sample_env answer).
Proof. split; by intros. Qed.

Definition catch_up : ScheduleDefinition := hourly <| misfire_policy := "RUN_ONCE"%string |>.
Definition sample_world : World :=
  mkWorld (commit "u" "t" [schedule_record catch_up] empty_db).1 0 true false [] [] [].
Definition ok_env : SchedulerEnv := sample_env (TOk "run-1"%string).
Definition failing_env : SchedulerEnv := sample_env (tthrow NotFound "Pipeline not found").
Definition launched_world : World := (launch (E := ok_env) catch_up (next_due_at catch_up) 1709289000000000000 sample_world).1.
Definition failed_world : World := (launch (E := failing_env) catch_up (next_due_at catch_up) 1709289000000000000 sample_world).1.
Definition occurrence_row (w : World) : Row :=
  default (mkRow "" JNull 0) (tables (w_db w) !! (KScheduleOccurrence, occurrence_of catch_up (next_due_at catch_up))).

Lemma settled_record_final_witness :
  no_launch (KScheduleOccurrence, occurrence_of catch_up (next_due_at catch_up)) launched_world
    (process_due (E := ok_env) sample_config launched_world).1.
Proof.
  apply (settled_record_final (E := ok_env) (HE := sample_env_laws _) sample_config launched_world
    (process_due (E := ok_env) sample_config launched_world).1 KScheduleOccurrence _
    (occurrence_row launched_world) "started"%string).
  - by left.
  - eapply rtc_once, (step_op (E := ok_env) _ _ _ _ _ (op_process (E := ok_env) _)).
    apply surjective_pairing.
  - vm_compute. reflexivity.
  - vm_compute. reflexivity.
  - reflexivity.
Defined.

Lemma launched_once_witness :
  no_launch (KScheduleOccurrence, occurrence_of catch_up (next_due_at catch_up)) launched_world launched_world.
Proof.
  refine (launched_once (E := ok_env) (HL := strict_json_laws) (HE := sample_env_laws _) sample_config catch_up
    (next_due_at catch_up) 1709289000000000000 sample_world launched_world launched_world true _ _).
  - vm_compute. reflexivity.
  - apply rtc_refl.
Defined.

Lemma trigger_depth_bounded_witness :
  exists new, launched (process_due (E := ok_env) sample_config sample_world).1 = launched sample_world ++ new
    /\ Forall (fun c => depth_within 16 c.1) new.
Proof.
  apply (trigger_depth_bounded (E := ok_env) (HL := strict_json_laws) (HE := sample_env_laws _) sample_config sample_world).
  - unfold u32_max. simpl. lia.
  - apply Forall_nil_2.
  - eapply rtc_once, (step_op (E := ok_env) _ _ _ _ _ (op_process (E := ok_env) _)).
    apply surjective_pairing.
Defined.

Lemma failed_launch_stalls_witness :
  tables (w_db failed_world) !! (KSchedule, sc_id catch_up) = tables (w_db sample_world) !! (KSchedule, sc_id catch_up).
Proof.
  apply (failed_launch_stalls (E := failing_env) (HL := strict_json_laws) (HE := sample_env_laws _) sample_config catch_up
    1709276400000000000 1709289000000000000 sample_world failed_world true (w_db sample_world)
    (err NotFound "Pipeline not found")).
  - discriminate.
  - vm_compute. reflexivity.
  - reflexivity.
  - discriminate.
  - vm_compute. reflexivity.
Defined.

(** Under the [RUN_ONCE] misfire policy every missed occurrence of the backlog is launched, one per
    pass: four passes at 10:30 launch the occurrences of 7, 8, 9 and 10 o'clock. *)
Theorem run_once_replays_backlog :
  let pass w := (process_due (E := ok_env) sample_config w).1 in
  map (fun c => member (lr_origin c.1) "due_at") (launched (pass (pass (pass (pass (pass sample_world))))))
  = map (fun due => Some (JString due))
      ["2024-03-01T07:00:00.000Z"; "2024-03-01T08:00:00.000Z"; "2024-03-01T09:00:00.000Z";
       "2024-03-01T10:00:00.000Z"]%string.
Proof. vm_compute. reflexivity. Qed.
