(* ===== verification/Sha256.v ===== *)
(** * SHA-256

    The [Sha256] class of [src/core/artifacts.cpp], which names the content of artifacts and
    workspace files.  [state_] and the message schedule are arrays of 32-bit words, [buffer_] holds
    64 bytes of which the first [buffered_] are pending (the rest is left over from earlier
    blocks), [bit_count_] is a 64-bit counter.  The module [Fips] is the hash of FIPS 180-4
    (padding, message schedule, compression), written with arithmetic instead of bit
    operations; the streaming class computes it for every way to cut the input into pieces. *)

From S2P Require Import Prelude Text.
From Stdlib Require Import Strings.Byte Ascii.

Definition byteZ (b : byte) : Z := Z.of_N (Byte.to_N b).
Definition add32 (x y : Z) : Z := u32 (x + y).
Infix "+32" := add32 (at level 50, left associativity).
Definition w_at (l : list Z) (i : nat) : Z := default 0 (l !! i).

(** ** The class *)

(** The table of constants, eight words of 32 bits to a row. *)
Definition row_words (row : Z) : list Z :=
  map (fun i => Z.shiftr row (32 * i) mod 2 ^ 32) [7; 6; 5; 4; 3; 2; 1; 0].
Definition constants : list Z := Eval vm_compute in flat_map row_words [
  0x428a2f9871374491b5c0fbcfe9b5dba53956c25b59f111f1923f82a4ab1c5ed5;
  0xd807aa9812835b01243185be550c7dc372be5d7480deb1fe9bdc06a7c19bf174;
  0xe49b69c1efbe47860fc19dc6240ca1cc2de92c6f4a7484aa5cb0a9dc76f988da;
  0x983e5152a831c66db00327c8bf597fc7c6e00bf3d5a7914706ca635114292967;
  0x27b70a852e1b21384d2c6dfc53380d13650a7354766a0abb81c2c92e92722c85;
  0xa2bfe8a1a81a664bc24b8b70c76c51a3d192e819d6990624f40e3585106aa070;
  0x19a4c1161e376c082748774c34b0bcb5391c0cb34ed8aa4a5b9cca4f682e6ff3;
  0x748f82ee78a5636f84c878148cc7020890befffaa4506cebbef9a3f7c67178f2].

Definition rotate_right (value : Z) (count : Z) : Z :=
  Z.lor (Z.shiftr value count) (u32 (Z.shiftl value (32 - count))).
Definition not32 (value : Z) : Z := u32 (Z.lnot value).

(** The first loops of [transform]: sixteen big-endian words, the rest of the array is zero. *)
Definition load_word (block : list byte) (i : nat) : Z :=
  foldl (fun word k => Z.lor (u32 (Z.shiftl word 8)) (byteZ (default x00 (block !! (i * 4 + k)%nat)))) 0
    [0; 1; 2; 3]%nat.
Definition load_schedule (block : list byte) : list Z :=
  foldl (fun schedule i => <[i := load_word block i]> schedule) (replicate 64 0) (seq 0 16).
Definition expand (schedule : list Z) (i : nat) : list Z :=
  let s0 := Z.lxor (Z.lxor (rotate_right (w_at schedule (i - 15)) 7) (rotate_right (w_at schedule (i - 15)) 18))
              (Z.shiftr (w_at schedule (i - 15)) 3) in
  let s1 := Z.lxor (Z.lxor (rotate_right (w_at schedule (i - 2)) 17) (rotate_right (w_at schedule (i - 2)) 19))
              (Z.shiftr (w_at schedule (i - 2)) 10) in
  <[i := w_at schedule (i - 16) +32 s0 +32 w_at schedule (i - 7) +32 s1]> schedule.

Definition round (schedule : list Z) (working : list Z) (i : nat) : list Z :=
  let w := w_at working in
  let s1 := Z.lxor (Z.lxor (rotate_right (w 4%nat) 6) (rotate_right (w 4%nat) 11)) (rotate_right (w 4%nat) 25) in
  let choice := Z.lxor (Z.land (w 4%nat) (w 5%nat)) (Z.land (not32 (w 4%nat)) (w 6%nat)) in
  let temp1 := w 7%nat +32 s1 +32 choice +32 w_at constants i +32 w_at schedule i in
  let s0 := Z.lxor (Z.lxor (rotate_right (w 0%nat) 2) (rotate_right (w 0%nat) 13)) (rotate_right (w 0%nat) 22) in
  let majority := Z.lxor (Z.lxor (Z.land (w 0%nat) (w 1%nat)) (Z.land (w 0%nat) (w 2%nat)))
                    (Z.land (w 1%nat) (w 2%nat)) in
  let temp2 := s0 +32 majority in
  let working := <[7%nat := w_at working 6]> working in
  let working := <[6%nat := w_at working 5]> working in
  let working := <[5%nat := w_at working 4]> working in
  let working := <[4%nat := w_at working 3 +32 temp1]> working in
  let working := <[3%nat := w_at working 2]> working in
  let working := <[2%nat := w_at working 1]> working in
  let working := <[1%nat := w_at working 0]> working in
  <[0%nat := temp1 +32 temp2]> working.

Definition transform (state : list Z) (block : list byte) : list Z :=
  let schedule := foldl expand (load_schedule block) (seq 16 48) in
  let working := foldl (round schedule) state (seq 0 64) in
  foldl (fun state i => <[i := w_at state i +32 w_at working i]> state) state (seq 0 8).

Record Sha256 := mkSha256 { state_ : list Z; buffer_ : list byte; buffered_ : nat; bit_count_ : Z }.
#[global] Instance eta_Sha256 : Eta Sha256 := fun r =>
  mkSha256 (state_ r) (buffer_ r) (buffered_ r) (bit_count_ r).

Definition initial_state : list Z :=
  [0x6a09e667; 0xbb67ae85; 0x3c6ef372; 0xa54ff53a; 0x510e527f; 0x9b05688c; 0x1f83d9ab; 0x5be0cd19].
Definition new_sha256 : Sha256 := mkSha256 initial_state (replicate 64 x00) 0 0.

(** [std::copy_n(data, n, buffer_.data() + at)] and [std::fill(buffer_.begin() + at, ... + upto, 0)] *)
Definition copy_at (buffer : list byte) (at_ : nat) (data : list byte) : list byte :=
  take at_ buffer ++ data ++ drop (at_ + length data) buffer.
Definition zero_range (buffer : list byte) (at_ upto : nat) : list byte :=
  copy_at buffer at_ (replicate (upto - at_) x00).

(** The loop of [update]; every round takes at least one byte. *)
Fixpoint update_loop (fuel : nat) (h : Sha256) (data : list byte) : Sha256 :=
  match fuel, data with
  | S fuel, _ :: _ =>
      let copied := Nat.min (length data) (64 - buffered_ h) in
      let h := (h <| buffer_ := copy_at (buffer_ h) (buffered_ h) (take copied data) |>)
                 <| buffered_ := (buffered_ h + copied)%nat |> in
      let h := if Nat.eqb (buffered_ h) 64
               then (h <| state_ := transform (state_ h) (buffer_ h) |>) <| buffered_ := 0%nat |> else h in
      update_loop fuel h (drop copied data)
  | _, _ => h
  end.
Definition update (h : Sha256) (data : list byte) : Sha256 :=
  update_loop (length data)
    (h <| bit_count_ := u64 (bit_count_ h + u64 (Z.of_nat (length data) * 8)) |>) data.

Definition byte_of (z : Z) : byte := default x00 (Byte.of_N (Z.to_N (Z.land z 255))).
Definition word_hex (value : Z) : list ascii :=
  map (fun shift => hex_char (Z.land (Z.shiftr value shift) 15)) [28; 24; 20; 16; 12; 8; 4; 0].
Definition length_bytes (bits : Z) : list byte :=
  map (fun shift => byte_of (Z.shiftr bits shift)) [56; 48; 40; 32; 24; 16; 8; 0].

Definition finish (h : Sha256) : string :=
  let original_bits := bit_count_ h in
  let h := (h <| buffer_ := copy_at (buffer_ h) (buffered_ h) [x80] |>) <| buffered_ := S (buffered_ h) |> in
  let h := if Nat.ltb 56 (buffered_ h)
           then let buffer := zero_range (buffer_ h) (buffered_ h) 64 in
                ((h <| buffer_ := buffer |>) <| state_ := transform (state_ h) buffer |>) <| buffered_ := 0%nat |>
           else h in
  let buffer := copy_at (zero_range (buffer_ h) (buffered_ h) 56) 56 (length_bytes original_bits) in
  of_chars (flat_map word_hex (transform (state_ h) buffer)).

Definition sha256_bytes (bytes : list byte) : string := finish (update new_sha256 bytes).

(** The test vectors of the standard. *)
Definition bytes_of (s : string) : list byte := map byte_of_ascii (chars_of s).
Example sha256_empty :
  sha256_bytes [] = "e3b0c44298fc1c149afbf4c8996fb92427ae41e4649b934ca495991b7852b855"%string.
Proof. vm_compute. reflexivity. Qed.
Example sha256_abc :
  sha256_bytes (bytes_of "abc") = "ba7816bf8f01cfea414140de5dae2223b00361a396177a9cb410ff61f20015ad"%string.
Proof. vm_compute. reflexivity. Qed.
Example sha256_two_blocks :
  sha256_bytes (bytes_of "abcdbcdecdefdefgefghfghighijhijkijkljklmklmnlmnomnopnopq")
  = "248d6a61d20638b8e5c026930c3e6039a33ce45964ff2167f6ecedd419db06c1"%string.
Proof. vm_compute. reflexivity. Qed.

(** ** The standard *)

Module Fips.
Definition rotr (n x : Z) : Z := x / 2 ^ n + (x mod 2 ^ n) * 2 ^ (32 - n).
Definition shr (n x : Z) : Z := x / 2 ^ n.
Definition complement (x : Z) : Z := 2 ^ 32 - 1 - x.
Definition ch (x y z : Z) : Z := Z.lxor (Z.land x y) (Z.land (complement x) z).
Definition maj (x y z : Z) : Z := Z.lxor (Z.lxor (Z.land x y) (Z.land x z)) (Z.land y z).
Definition big_sigma0 (x : Z) : Z := Z.lxor (Z.lxor (rotr 2 x) (rotr 13 x)) (rotr 22 x).
Definition big_sigma1 (x : Z) : Z := Z.lxor (Z.lxor (rotr 6 x) (rotr 11 x)) (rotr 25 x).
Definition small_sigma0 (x : Z) : Z := Z.lxor (Z.lxor (rotr 7 x) (rotr 18 x)) (shr 3 x).
Definition small_sigma1 (x : Z) : Z := Z.lxor (Z.lxor (rotr 17 x) (rotr 19 x)) (shr 10 x).

(** The message schedule. *)
Definition word (block : list byte) (t : nat) : Z :=
  let b k := byteZ (default x00 (block !! (4 * t + k)%nat)) in
  b 0%nat * 2 ^ 24 + b 1%nat * 2 ^ 16 + b 2%nat * 2 ^ 8 + b 3%nat.
Definition next_word (w : list Z) : Z :=
  let t := length w in
  (small_sigma1 (w_at w (t - 2)) + w_at w (t - 7) + small_sigma0 (w_at w (t - 15)) + w_at w (t - 16)) mod 2 ^ 32.
Fixpoint extend (n : nat) (w : list Z) : list Z :=
  match n with O => w | S n => extend n (w ++ [next_word w]) end.
Definition schedule (block : list byte) : list Z := extend 48 (map (word block) (seq 0 16)).

(** The compression function. *)
Record Vars := mkVars { va : Z; vb : Z; vc : Z; vd : Z; ve : Z; vf : Z; vg : Z; vh : Z }.
Definition step (w : list Z) (v : Vars) (t : nat) : Vars :=
  let t1 := (vh v + big_sigma1 (ve v) + ch (ve v) (vf v) (vg v) + w_at constants t + w_at w t) mod 2 ^ 32 in
  let t2 := (big_sigma0 (va v) + maj (va v) (vb v) (vc v)) mod 2 ^ 32 in
  mkVars ((t1 + t2) mod 2 ^ 32) (va v) (vb v) (vc v) ((vd v + t1) mod 2 ^ 32) (ve v) (vf v) (vg v).
Definition compress (h : Vars) (block : list byte) : Vars :=
  let v := foldl (step (schedule block)) h (seq 0 64) in
  mkVars ((va h + va v) mod 2 ^ 32) ((vb h + vb v) mod 2 ^ 32) ((vc h + vc v) mod 2 ^ 32)
    ((vd h + vd v) mod 2 ^ 32) ((ve h + ve v) mod 2 ^ 32) ((vf h + vf v) mod 2 ^ 32)
    ((vg h + vg v) mod 2 ^ 32) ((vh h + vh v) mod 2 ^ 32).
Definition h0 : Vars :=
  mkVars 0x6a09e667 0xbb67ae85 0x3c6ef372 0xa54ff53a 0x510e527f 0x9b05688c 0x1f83d9ab 0x5be0cd19.

(** Padding: a one bit, zeros up to 448 bits modulo 512, the length in bits as 64-bit integer. *)
Definition be64 (n : Z) : list byte :=
  map (fun k => default x00 (Byte.of_N (Z.to_N ((n / 256 ^ k) mod 256)))) [7; 6; 5; 4; 3; 2; 1; 0].
Definition pad (m : list byte) : list byte :=
  m ++ [x80] ++ replicate (Z.to_nat ((55 - Z.of_nat (length m)) mod 64)) x00
    ++ be64 (8 * Z.of_nat (length m)).
Fixpoint blocks (n : nat) (m : list byte) : list (list byte) :=
  match n with O => [] | S n => take 64 m :: blocks n (drop 64 m) end.
Definition digest (m : list byte) : Vars :=
  foldl compress h0 (blocks (length (pad m) / 64) (pad m)).

(** The digest in hexadecimal. *)
Definition words (v : Vars) : list Z := [va v; vb v; vc v; vd v; ve v; vf v; vg v; vh v].
Definition hex_byte (b : Z) : list ascii := [hex_char (b / 16); hex_char (b mod 16)].
Definition word_bytes (x : Z) : list Z := [x / 2 ^ 24; (x / 2 ^ 16) mod 256; (x / 2 ^ 8) mod 256; x mod 256].
Definition sha256 (m : list byte) : string :=
  of_chars (flat_map (fun x => flat_map hex_byte (word_bytes x)) (words (digest m))).
End Fips.

(** ** The operations on words *)

Definition is_word (x : Z) : Prop := 0 <= x < 2 ^ 32.
Lemma u32_word x : is_word (u32 x).
Proof. unfold is_word, u32. apply Z.mod_pos_bound. lia. Qed.
(** Sums of words, reduced at every addition or once. *)
Ltac sums := unfold add32, u32; change (2 ^ 32) with 4294967296; Z.div_mod_to_equations; lia.
Lemma byteZ_range b : 0 <= byteZ b < 256.
Proof. unfold byteZ. pose proof (Byte.to_N_bounded b). lia. Qed.

Lemma lor_add a b k : 0 <= k -> 0 <= a < 2 ^ k -> Z.lor a (b * 2 ^ k) = a + b * 2 ^ k.
Proof.
  intros Hk Ha. rewrite <- Z.shiftl_mul_pow2 by done.
  assert (Hl : Z.land a (Z.shiftl b k) = 0).
  { apply Z.bits_inj'. intros n Hn. rewrite Z.land_spec, Z.bits_0. destruct (Z.ltb_spec n k).
    - by rewrite Z.shiftl_spec_low, andb_false_r.
    - rewrite <- (Z.mod_small a (2 ^ k)) by done. by rewrite Z.mod_pow2_bits_high by lia. }
  by rewrite Z.add_nocarry_lxor, Z.lxor_lor.
Qed.
Lemma rotate_rotr n x : 0 < n < 32 -> is_word x -> rotate_right x n = Fips.rotr n x.
Proof.
  intros Hn Hx. unfold rotate_right, Fips.rotr, is_word, u32 in *. rewrite Z.shiftr_div_pow2, Z.shiftl_mul_pow2 by lia.
  assert (Hp : 2 ^ 32 = 2 ^ n * 2 ^ (32 - n)) by (rewrite <- Z.pow_add_r by lia; f_equal; lia).
  assert (0 < 2 ^ n /\ 0 < 2 ^ (32 - n)) as [Hn1 Hn2] by (split; apply Z.pow_pos_nonneg; lia).
  change 4294967296 with (2 ^ 32). rewrite Hp, Z.mul_mod_distr_r by lia. apply lor_add; [lia|].
  split; [apply Z.div_pos; lia|]. apply Z.div_lt_upper_bound; lia.
Qed.
Lemma not32_complement x : is_word x -> not32 x = Fips.complement x.
Proof.
  unfold is_word, not32, u32, Fips.complement. intros Hx. change (2 ^ 32) with 4294967296 in *.
  unfold Z.lnot. symmetry. apply Z.mod_unique with (-1); lia.
Qed.
Lemma load_word_word block i : load_word block i = Fips.word block i /\ is_word (load_word block i).
Proof.
  unfold load_word, Fips.word. cbn [foldl]. rewrite !(Nat.mul_comm i 4).
  set (b k := byteZ (default x00 (block !! (4 * i + k)%nat))).
  change (byteZ (default x00 (block !! (4 * i + 0)%nat))) with (b 0%nat).
  change (byteZ (default x00 (block !! (4 * i + 1)%nat))) with (b 1%nat).
  change (byteZ (default x00 (block !! (4 * i + 2)%nat))) with (b 2%nat).
  change (byteZ (default x00 (block !! (4 * i + 3)%nat))) with (b 3%nat).
  assert (Hb : forall k, 0 <= b k < 256) by (intros k; apply byteZ_range). clearbody b.
  assert (Hlor : forall x y, 0 <= x < 2 ^ 24 -> 0 <= y < 256 -> Z.lor (u32 (Z.shiftl x 8)) y = x * 256 + y).
  { intros x y Hx Hy. unfold u32. rewrite Z.shiftl_mul_pow2, Z.mod_small by lia. rewrite Z.lor_comm.
    change 256 with (2 ^ 8). rewrite lor_add; lia. }
  pose proof (Hb 0%nat). pose proof (Hb 1%nat). pose proof (Hb 2%nat). pose proof (Hb 3%nat).
  rewrite (Hlor 0 (b 0%nat)) by lia. rewrite (Hlor _ (b 1%nat)) by lia. rewrite (Hlor _ (b 2%nat)) by lia.
  rewrite (Hlor _ (b 3%nat)) by lia. unfold is_word. split; lia.
Qed.

(** ** The compression function *)

Definition all_words (l : list Z) : Prop := Forall is_word l.
Lemma w_at_word l i : all_words l -> is_word (w_at l i).
Proof.
  intros Hl. unfold w_at. destruct (l !! i) as [x|] eqn:Hx; simpl; [|unfold is_word; lia].
  by eapply Forall_lookup_1 in Hx.
Qed.

Lemma load_schedule_words block :
  load_schedule block = map (Fips.word block) (seq 0 16) ++ replicate 48 0.
Proof.
  assert (Hm : map (Fips.word block) (seq 0 16) = map (load_word block) (seq 0 16)).
  { apply map_ext. intros i. symmetry. apply load_word_word. }
  rewrite Hm. reflexivity.
Qed.

Lemma expand_next w n : (16 <= length w)%nat -> all_words w ->
  expand (w ++ replicate (S n) 0) (length w) = (w ++ [Fips.next_word w]) ++ replicate n 0.
Proof.
  intros Hlen Hw. unfold expand.
  assert (Hat : forall k, (0 < k <= length w)%nat -> w_at (w ++ replicate (S n) 0) (length w - k) = w_at w (length w - k)).
  { intros k Hk. unfold w_at. by rewrite lookup_app_l by lia. }
  rewrite !Hat by lia. rewrite !rotate_rotr by first [lia|by apply w_at_word].
  rewrite !Z.shiftr_div_pow2 by lia. rewrite <- app_assoc, insert_app_r_alt, Nat.sub_diag by lia. simpl. do 2 f_equal.
  unfold Fips.next_word, Fips.small_sigma0, Fips.small_sigma1, Fips.shr. sums.
Qed.
Lemma next_word_word w : is_word (Fips.next_word w).
Proof. apply u32_word. Qed.
Lemma expand_extend n : forall w, (16 <= length w)%nat -> all_words w ->
  foldl expand (w ++ replicate n 0) (seq (length w) n) = Fips.extend n w /\ all_words (Fips.extend n w).
Proof.
  induction n as [|n IH]; intros w Hlen Hw; [by rewrite app_nil_r|].
  cbn [seq foldl Fips.extend]. rewrite expand_next by done.
  destruct (IH (w ++ [Fips.next_word w])) as [IH1 IH2].
  - rewrite length_app. lia.
  - apply Forall_app. split; [done|]. constructor; [apply next_word_word|constructor].
  - rewrite length_app in IH1. simpl in IH1. rewrite Nat.add_1_r in IH1. by rewrite IH1.
Qed.
Lemma schedule_correct block :
  foldl expand (load_schedule block) (seq 16 48) = Fips.schedule block /\ all_words (Fips.schedule block).
Proof.
  rewrite load_schedule_words. apply expand_extend; [done|]. apply Forall_forall. intros x Hx.
  apply list_elem_of_fmap in Hx as (i & -> & _). destruct (load_word_word block i) as [<- ?]. done.
Qed.

Definition word_vars (v : Fips.Vars) : Prop := all_words (Fips.words v).
Lemma round_step w v i : word_vars v -> all_words w ->
  round w (Fips.words v) i = Fips.words (Fips.step w v i) /\ word_vars (Fips.step w v i).
Proof.
  intros Hv Hw. destruct v as [a b c d e f g h]. unfold word_vars, all_words, Fips.words in Hv.
  rewrite !Forall_cons in Hv. destruct Hv as (Ha & Hb & Hc & Hd & He & Hf & Hg & Hh & _). split.
  - unfold round, Fips.words, w_at. cbn -[rotate_right constants not32 add32 Z.lxor Z.land].
    rewrite !rotate_rotr by first [lia|done]. rewrite not32_complement by done.
    unfold Fips.big_sigma0, Fips.big_sigma1, Fips.ch, Fips.maj, w_at.
    repeat (apply (f_equal2 cons)); try done; sums.
  - unfold word_vars, all_words, Fips.words. rewrite !Forall_cons. split_and!; try done; apply u32_word.
Qed.

Lemma rounds_steps w l : all_words w -> forall v, word_vars v ->
  foldl (round w) (Fips.words v) l = Fips.words (foldl (Fips.step w) v l)
  /\ word_vars (foldl (Fips.step w) v l).
Proof.
  intros Hw. induction l as [|i l IH]; intros v Hv; [done|]. cbn [foldl].
  destruct (round_step w v i Hv Hw) as [-> Hv']. by apply IH.
Qed.
Lemma transform_compress v block : word_vars v ->
  transform (Fips.words v) block = Fips.words (Fips.compress v block) /\ word_vars (Fips.compress v block).
Proof.
  intros Hv. unfold transform, Fips.compress. cbv zeta. destruct (schedule_correct block) as [-> Hw].
  destruct (rounds_steps _ (seq 0 64) Hw v Hv) as [-> _].
  set (v' := foldl _ v _). split; [reflexivity|].
  unfold word_vars, all_words, Fips.words. rewrite !Forall_cons. split_and!; try done; apply u32_word.
Qed.
Lemma h0_words : word_vars Fips.h0.
Proof. unfold word_vars, all_words, is_word, Fips.words. rewrite !Forall_cons. simpl. split_and!; try done; lia. Qed.
Lemma compress_words l : forall v, word_vars v -> word_vars (foldl Fips.compress v l).
Proof. induction l as [|b l IH]; intros v Hv; [done|]. by apply IH, transform_compress. Qed.

(** ** Streaming *)

Lemma blocks_snoc n : forall m b, length m = (64 * n)%nat -> length b = 64%nat ->
  Fips.blocks (S n) (m ++ b) = Fips.blocks n m ++ [b].
Proof.
  induction n as [|n IH]; intros m b Hm Hb.
  - destruct m; [|simpl in Hm; lia]. cbn [Fips.blocks app]. by rewrite take_ge by lia.
  - change (Fips.blocks (S (S n)) (m ++ b)) with (take 64 (m ++ b) :: Fips.blocks (S n) (drop 64 (m ++ b))).
    rewrite take_app_le, drop_app_le by lia. rewrite IH; [done| |done]. rewrite length_drop. lia.
Qed.

(** What the class holds after the bytes [m]: [full] has been compressed, [pending] is buffered. *)
Record streamed (m : list byte) (h : Sha256) : Prop := mkStreamed {
  st_split : exists n full pending, m = full ++ pending /\ length full = (64 * n)%nat
    /\ length pending = buffered_ h /\ take (buffered_ h) (buffer_ h) = pending
    /\ state_ h = Fips.words (foldl Fips.compress Fips.h0 (Fips.blocks n full));
  st_room : (buffered_ h < 64)%nat;
  st_buffer : length (buffer_ h) = 64%nat }.
Lemma streamed_new : streamed [] new_sha256.
Proof. split; [|simpl; lia|done]. by exists 0%nat, [], []. Qed.

Lemma copy_at_length buffer i data : (i + length data <= length buffer)%nat ->
  length (copy_at buffer i data) = length buffer.
Proof. intros Hi. unfold copy_at. rewrite !length_app, length_take, length_drop. lia. Qed.
Lemma copy_at_take buffer i data : (i + length data <= length buffer)%nat ->
  take (i + length data) (copy_at buffer i data) = take i buffer ++ data.
Proof.
  intros Hi. unfold copy_at. rewrite app_assoc, take_app_length'; [done|]. rewrite length_app, length_take. lia.
Qed.

(** One round of the loop. *)
Lemma streamed_chunk m h c : streamed m h -> (length c <= 64 - buffered_ h)%nat ->
  let h1 := (h <| buffer_ := copy_at (buffer_ h) (buffered_ h) c |>) <| buffered_ := (buffered_ h + length c)%nat |> in
  streamed (m ++ c) (if Nat.eqb (buffered_ h1) 64
                     then (h1 <| state_ := transform (state_ h1) (buffer_ h1) |>) <| buffered_ := 0%nat |> else h1).
Proof.
  intros [(n & full & pending & -> & Hfull & Hpend & Htake & Hstate) Hroom Hbuf] Hc h1.
  assert (Hlen : length (buffer_ h1) = 64%nat) by (simpl; rewrite copy_at_length; lia).
  assert (Ht1 : take (buffered_ h1) (buffer_ h1) = pending ++ c) by (simpl; rewrite copy_at_take by lia; by rewrite Htake).
  destruct (Nat.eqb_spec (buffered_ h1) 64) as [Heq|Hne].
  - assert (Hb : buffer_ h1 = pending ++ c) by (rewrite <- Ht1, Heq, take_ge; [done|lia]).
    split; [|simpl; lia|done]. exists (S n), (full ++ (pending ++ c)), []. split_and!.
    + by rewrite app_nil_r, app_assoc.
    + rewrite !length_app. simpl in Heq. lia.
    + done.
    + done.
    + change (transform (state_ h) (buffer_ h1) = Fips.words (foldl Fips.compress Fips.h0 (Fips.blocks (S n) (full ++ (pending ++ c))))). rewrite Hb, Hstate.
      rewrite blocks_snoc; [|done|rewrite length_app; simpl in Heq; lia]. rewrite foldl_app. simpl.
      apply transform_compress, compress_words, h0_words.
  - split; [|simpl in *; lia|done]. exists n, full, (pending ++ c). split_and!; try done.
    + by rewrite app_assoc.
    + rewrite length_app. simpl. lia.
Qed.
Lemma update_loop_streamed fuel : forall data m h, (length data <= fuel)%nat -> streamed m h ->
  streamed (m ++ data) (update_loop fuel h data).
Proof.
  induction fuel as [|fuel IH]; intros data m h Hf Hs.
  - destruct data; [|simpl in Hf; lia]. by rewrite app_nil_r.
  - destruct data as [|b data]; [by rewrite app_nil_r|]. pose proof (st_room _ _ Hs) as Hroom.
    cbn [update_loop]. set (copied := Nat.min (length (b :: data)) (64 - buffered_ h)).
    assert (Hcop : length (take copied (b :: data)) = copied) by (rewrite length_take; lia).
    assert (Hpos : (1 <= copied)%nat) by (unfold copied; simpl length; lia).
    rewrite <- (take_drop copied (b :: data)) at 1. rewrite app_assoc. apply IH.
    + rewrite length_drop. lia.
    + pose proof (streamed_chunk m h (take copied (b :: data)) Hs) as Hch. rewrite Hcop in Hch. apply Hch. lia.
Qed.
Lemma streamed_bits m h z : streamed m h -> streamed m (h <| bit_count_ := z |>).
Proof. by intros [Hs Hr Hb]. Qed.
Lemma update_loop_bits fuel : forall h data, bit_count_ (update_loop fuel h data) = bit_count_ h.
Proof.
  induction fuel as [|fuel IH]; intros h data; [done|]. destruct data as [|b data]; [done|].
  cbn [update_loop]. rewrite IH. by case_match.
Qed.
Lemma updates_streamed chunks : forall m h, streamed m h -> bit_count_ h = u64 (8 * Z.of_nat (length m)) ->
  streamed (m ++ concat chunks) (foldl update h chunks)
  /\ bit_count_ (foldl update h chunks) = u64 (8 * Z.of_nat (length (m ++ concat chunks))).
Proof.
  induction chunks as [|c chunks IH]; intros m h Hs Hb; [by rewrite app_nil_r|].
  cbn [foldl concat]. rewrite app_assoc. apply IH.
  - unfold update. apply update_loop_streamed; [done|]. by apply streamed_bits.
  - unfold update. rewrite update_loop_bits, length_app. simpl. rewrite Hb. unfold u64.
    rewrite <- Zplus_mod. f_equal. lia.
Qed.

(** ** The end of the stream *)

Lemma land_255 z : Z.land z 255 = z mod 256.
Proof. change 255 with (Z.ones 8). by rewrite Z.land_ones by lia. Qed.
Lemma land_15 z : Z.land z 15 = z mod 16.
Proof. change 15 with (Z.ones 4). by rewrite Z.land_ones by lia. Qed.
Lemma length_bytes_be64 n : 0 <= n -> length_bytes (u64 n) = Fips.be64 n.
Proof.
  intros Hn. unfold length_bytes, Fips.be64, byte_of, u64. cbn [map].
  rewrite !land_255, !Z.shiftr_div_pow2 by lia.
  repeat (apply (f_equal2 cons)); try done; do 3 f_equal; cbv [Z.pow Z.pow_pos Pos.iter Z.mul Pos.mul Pos.add];
    Z.div_mod_to_equations; lia.
Qed.
Lemma word_hex_bytes x : is_word x -> word_hex x = flat_map Fips.hex_byte (Fips.word_bytes x).
Proof.
  unfold is_word. intros Hx. unfold word_hex, Fips.word_bytes, Fips.hex_byte. cbn [map flat_map app].
  rewrite !land_15, !Z.shiftr_div_pow2 by lia. change (2 ^ 32) with 4294967296 in Hx.
  repeat (apply (f_equal2 cons)); try done; f_equal; cbv [Z.pow Z.pow_pos Pos.iter Z.mul Pos.mul Pos.add];
    Z.div_mod_to_equations; lia.
Qed.
Lemma words_hex l : all_words l ->
  flat_map word_hex l = flat_map (fun x => flat_map Fips.hex_byte (Fips.word_bytes x)) l.
Proof. induction 1 as [|x l Hx Hl IH]; [done|]. cbn [flat_map]. by rewrite word_hex_bytes, IH. Qed.

Lemma zero_range_append buffer i upto : (i <= upto <= length buffer)%nat ->
  take upto (zero_range buffer i upto) = take i buffer ++ replicate (upto - i) x00.
Proof.
  intros Hi. unfold zero_range. pose proof (copy_at_take buffer i (replicate (upto - i) x00)) as Hc.
  rewrite length_replicate in Hc. replace (i + (upto - i))%nat with upto in Hc by lia. apply Hc. lia.
Qed.
(** The last block: what is buffered, zeros and the length. *)
Lemma last_block buffer i bits : length buffer = 64%nat -> (i <= 56)%nat ->
  copy_at (zero_range buffer i 56) 56 (length_bytes bits)
  = take i buffer ++ replicate (56 - i) x00 ++ length_bytes bits.
Proof.
  intros Hb Hi. unfold copy_at at 1. rewrite zero_range_append by lia. rewrite <- app_assoc. do 2 f_equal.
  rewrite drop_ge; [apply app_nil_r|]. unfold zero_range. rewrite copy_at_length; rewrite ?length_replicate; simpl; lia.
Qed.
Lemma blocks_all n m : length m = (64 * n)%nat -> Fips.blocks (length m / 64) m = Fips.blocks n m.
Proof. intros Hm. f_equal. rewrite Hm, Nat.mul_comm. by apply Nat.div_mul. Qed.
Lemma pad_zeros n p : (p < 64)%nat ->
  Z.to_nat ((55 - Z.of_nat (64 * n + p)) mod 64) = (if Nat.leb p 55 then 55 - p else 119 - p)%nat.
Proof. intros Hp. destruct (Nat.leb_spec p 55); Z.div_mod_to_equations; lia. Qed.
Lemma pad_split full pending n : length full = (64 * n)%nat -> (length pending < 64)%nat ->
  Fips.pad (full ++ pending) = full ++ pending ++ [x80]
    ++ replicate (if Nat.leb (length pending) 55 then 55 - length pending else 119 - length pending)%nat x00
    ++ Fips.be64 (8 * Z.of_nat (length (full ++ pending))).
Proof.
  intros Hf Hp. unfold Fips.pad. rewrite <- app_assoc. do 4 f_equal. f_equal. rewrite length_app, Hf. by apply pad_zeros.
Qed.
Lemma be64_length n : length (Fips.be64 n) = 8%nat.
Proof. done. Qed.

Lemma digest_snoc m n full b : Fips.pad m = full ++ b -> length full = (64 * n)%nat -> length b = 64%nat ->
  Fips.digest m = Fips.compress (foldl Fips.compress Fips.h0 (Fips.blocks n full)) b.
Proof.
  intros Hp Hf Hb. unfold Fips.digest. rewrite Hp. rewrite (blocks_all (S n)) by (rewrite length_app; lia).
  by rewrite blocks_snoc, foldl_app.
Qed.

Lemma finish_padded m h : streamed m h -> bit_count_ h = u64 (8 * Z.of_nat (length m)) ->
  finish h = of_chars (flat_map word_hex (Fips.words (Fips.digest m))).
Proof.
  intros [(n & full & pending & -> & Hfull & Hpend & Htake & Hstate) Hroom Hbuf] Hbits.
  pose proof (pad_split full pending n Hfull ltac:(lia)) as Hpad. rewrite Hpend in Hpad.
  unfold finish. rewrite Hbits. cbv zeta. revert Hpad. set (bits := 8 * Z.of_nat _).
  assert (0 <= bits) by lia. intros Hpad. set (buf := copy_at (buffer_ h) (buffered_ h) [x80]).
  assert (Hlen : length buf = 64%nat) by (unfold buf; rewrite copy_at_length; simpl; lia).
  assert (Ht : take (S (buffered_ h)) buf = pending ++ [x80]).
  { unfold buf. rewrite <- Nat.add_1_r, <- Htake. apply (copy_at_take (buffer_ h) (buffered_ h) [x80]). simpl. lia. }
  pose proof (compress_words (Fips.blocks n full) _ h0_words) as Hw.
  destruct (Nat.leb_spec (buffered_ h) 55); simpl (buffered_ _); destruct (Nat.ltb_spec 56 (S (buffered_ h))); try lia;
    cbn -[take drop copy_at zero_range transform Fips.blocks Nat.div length_bytes Fips.be64 replicate flat_map].
  - rewrite last_block, Ht, length_bytes_be64 by (done || lia). rewrite Hstate.
    set (b := (pending ++ [x80]) ++ _ ++ _). rewrite (proj1 (transform_compress _ b Hw)).
    rewrite (digest_snoc _ n full b); [done| |done|].
    + rewrite Hpad. unfold b. by rewrite <- app_assoc.
    + unfold b. rewrite !length_app, length_replicate, be64_length. simpl. lia.
  - assert (Hz : zero_range buf (S (buffered_ h)) 64 = pending ++ [x80] ++ replicate (63 - buffered_ h) x00).
    { rewrite <- (take_ge (zero_range _ _ _) 64).
      - rewrite zero_range_append, Ht, <- app_assoc by lia. done.
      - unfold zero_range. rewrite copy_at_length; rewrite ?length_replicate; lia. }
    rewrite Hz, Hstate. set (b1 := pending ++ _). rewrite (proj1 (transform_compress _ b1 Hw)).
    rewrite last_block, length_bytes_be64; [|done|unfold b1; rewrite !length_app, length_replicate; simpl; lia|lia].
    rewrite take_0. set (b2 := replicate _ _ ++ _). change ([] ++ b2) with b2.
    assert (Hb1 : length b1 = 64%nat) by (unfold b1; rewrite !length_app, length_replicate; simpl; lia).
        rewrite (proj1 (transform_compress _ b2 (proj2 (transform_compress _ b1 Hw)))).
    rewrite (digest_snoc _ (S n) (full ++ b1) b2).
    + by rewrite blocks_snoc, foldl_app.
    + rewrite Hpad. unfold b1, b2. replace (119 - buffered_ h)%nat with (63 - buffered_ h + (56 - 0))%nat by lia.
      by rewrite replicate_add, <- !app_assoc.
    + rewrite length_app. lia.
    + unfold b2. rewrite length_app, length_replicate, be64_length. lia.
Qed.

(** The hash of a message handed over in pieces. *)
Definition sha256_chunks (chunks : list (list byte)) : string := finish (foldl update new_sha256 chunks).

Lemma sha256_chunks_digest chunks :
  sha256_chunks chunks = of_chars (flat_map word_hex (Fips.words (Fips.digest (concat chunks)))).
Proof.
  destruct (updates_streamed chunks [] new_sha256 streamed_new eq_refl) as [Hs Hb].
  unfold sha256_chunks. by rewrite (finish_padded _ _ Hs Hb).
Qed.

(** C18: the streaming hash computes SHA-256 of FIPS 180-4, in hexadecimal, whatever the message and
    however it is cut into pieces: buffering across calls, the padding that does or does not fit
    into the last block, the bit counter and the word arithmetic agree with the standard. *)
Theorem sha256_correct chunks : sha256_chunks chunks = Fips.sha256 (concat chunks).
Proof.
  rewrite sha256_chunks_digest. unfold Fips.sha256. f_equal. apply words_hex, compress_words, h0_words.
Qed.

(** The pieces do not matter. *)
Lemma sha256_chunks_concat pieces : sha256_chunks pieces = sha256_bytes (concat pieces).
Proof.
  assert (Hone : forall m, sha256_bytes m = sha256_chunks [m]).
  { intros m. unfold sha256_bytes, sha256_chunks. cbn [foldl]. reflexivity. }
  rewrite Hone, !sha256_chunks_digest. cbn [concat]. by rewrite app_nil_r.
Qed.

(** A digest is 64 lower-case hexadecimal digits. *)
Definition lower_hex (c : ascii) : bool :=
  let n := N_of_ascii c in ((48 <=? n) && (n <=? 57) || (97 <=? n) && (n <=? 102))%N.
Definition valid_digest (value : string) : bool :=
  (size_of value =? 64) && forallb lower_hex (chars_of value).
Lemma hex_char_lower z : 0 <= z < 16 -> lower_hex (hex_char z) = true.
Proof.
  intros Hz. assert (Hin : z ∈ map Z.of_nat (seq 0 16)).
  { apply list_elem_of_fmap. exists (Z.to_nat z). split; [lia|]. apply elem_of_seq. lia. }
  assert (Hall : forallb (fun z => lower_hex (hex_char z)) (map Z.of_nat (seq 0 16)) = true) by done.
  rewrite forallb_forall in Hall. apply Hall. by apply list_elem_of_In.
Qed.
Lemma word_hex_valid x : Forall (fun c => lower_hex c = true) (word_hex x).
Proof.
  unfold word_hex. repeat constructor; apply hex_char_lower; rewrite land_15; apply Z.mod_pos_bound; lia.
Qed.
Lemma sha256_bytes_valid bytes : valid_digest (sha256_bytes bytes) = true.
Proof.
  destruct (updates_streamed [bytes] [] new_sha256 streamed_new eq_refl) as [Hs Hb].
  unfold sha256_bytes. change (update new_sha256 bytes) with (foldl update new_sha256 [bytes]).
  rewrite (finish_padded _ _ Hs Hb). unfold valid_digest, size_of.
  rewrite <- length_chars_of, chars_of_of_chars. apply andb_true_iff. split; [done|].
  apply forallb_forall. intros c. rewrite in_flat_map. intros (x & _ & Hin).
  pose proof (word_hex_valid x) as Hv. rewrite Forall_forall in Hv. apply Hv. by apply list_elem_of_In.
Qed.
