(* ===== verification/Files.v ===== *)
(** * The file system

    What [src/runtime/workspace.cpp] and [src/core/artifacts.cpp] use of POSIX files and
    [std::filesystem]: a tree of directories and regular files, addressed by the components of
    absolute paths.  There are no symbolic links: the code opens its files with [O_NOFOLLOW] and
    starts from canonical roots.  Every call may fail; [FileEnv] says which calls do, and what a
    failed call leaves behind. *)

From S2P Require Import Prelude Json Db Codec Effects Text.
From Stdlib Require Import Strings.Byte Ascii.

Abbreviation path := (list string).
Inductive Entry := File (data : list byte) | Dir.
Record FS := mkFS { files : gmap path Entry; io_calls : nat }.
#[global] Instance eta_FS : Eta FS := fun r => mkFS (files r) (io_calls r).

Class FileEnv := {
  (** Whether the n-th call succeeds. *)
  io_ok : nat -> bool;
  (** What a failed write leaves in the file. *)
  io_partial : nat -> list byte -> list byte;
  (** Whether what the n-th write accepted reaches the file when its stream is closed. *)
  io_flushed : nat -> bool;
  (** Whether the n-th reading of [errno] is [EEXIST]. *)
  io_eexist : nat -> bool;
  (** Which entries a failed removal leaves. *)
  io_kept : nat -> path -> bool }.

Abbreviation FIO := (IO FS).

Section Files.
Context {E : FileEnv}.

Definition io_call : FIO nat := fun fs => (fs <| io_calls := S (io_calls fs) |>, TOk (io_calls fs)).
Definition put_entry (p : path) (e : Entry) : FIO unit := io_modify (fun fs => fs <| files := <[p := e]> (files fs) |>).
Definition is_dir (fs : FS) (p : path) : bool :=
  match p with [] => true | _ => match files fs !! p with Some Dir => true | _ => false end end.
Definition parent (p : path) : path := take (length p - 1) p.
(** What the operating system makes of the components [.] and [..]. *)
Definition resolve (p : path) : path :=
  foldl (fun base c => if String.eqb c "." then base else if String.eqb c ".." then parent base else base ++ [c]) [] p.
(** A path that ends in a slash names a directory. *)
Definition names_file (p : path) : bool := match last p with Some c => negb (empty_str c) | None => false end.

(** [std::filesystem::remove_all(p, error)]: whether it succeeded. *)
Definition remove_all (p : path) : FIO bool :=
  n ← io_call;
  _ ← io_modify (fun fs => fs <| files := filter (fun kv => ~ (p `prefix_of` kv.1)
                                          \/ (io_ok n = false /\ io_kept n kv.1 = true)) (files fs) |>);
  mret (io_ok n).

(** [std::filesystem::remove(p, error)] of a file. *)
Definition remove (p : path) : FIO unit :=
  n ← io_call;
  fs ← io_get;
  match files fs !! p with
  | Some (File _) => if io_ok n then io_modify (fun fs => fs <| files := delete p (files fs) |>) else mret tt
  | _ => mret tt
  end.

(** [std::filesystem::create_directories(p, error)]: [None] is an error, [Some created] says whether
    the last component is new. *)
Fixpoint mkdirs (base rest : path) (created : bool) : FIO (option bool) :=
  match rest with
  | [] => mret (Some created)
  | c :: rest =>
      let base := base ++ [c] in
      fs ← io_get;
      match files fs !! base with
      | Some Dir => mkdirs base rest false
      | Some (File _) => mret None
      | None =>
          n ← io_call;
          if io_ok n then _ ← put_entry base Dir; mkdirs base rest true else mret None
      end
  end.
(** An empty last component (a trailing slash) names the directory before it. *)
Definition create_directories (p : path) : FIO (option bool) :=
  mkdirs [] (filter (fun c => c <> ""%string) p) false.

(** Whether a file can be created or replaced at the path. *)
Definition can_create (fs : FS) (p : path) : bool :=
  names_file p && is_dir fs (parent p) && negb (is_dir fs p).

(** An [std::ofstream] opened for writing ([std::ios::trunc]), written to unless there is nothing to write,
    and closed by its destructor: whether opening and writing succeeded.  What the stream still buffers is
    written when it is closed, and nobody looks whether that succeeds. *)
Definition write_file (p : path) (data : list byte) : FIO bool :=
  n ← io_call;
  fs ← io_get;
  if can_create fs p && io_ok n then
    m ← io_call;
    let written := bool_decide (data = []) || io_ok m in
    _ ← put_entry p (File (if bool_decide (data = []) || io_ok m && io_flushed m then data else io_partial m data));
    mret written
  else mret false.

(** [open] for reading, [fstat] and [read] to the end; [None] when one of them fails. *)
Definition read_regular (p : path) : FIO (option (list byte)) :=
  n ← io_call;
  fs ← io_get;
  mret (if io_ok n then match files fs !! p with Some (File data) => Some data | _ => None end else None).

(** [rename(from, to)] of a file. *)
Definition rename (from to : path) : FIO bool :=
  n ← io_call;
  fs ← io_get;
  match files fs !! from with
  | Some (File data) =>
      if can_create fs to && io_ok n
      then _ ← io_modify (fun fs => fs <| files := <[to := File data]> (delete from (files fs)) |>); mret true
      else mret false
  | _ => mret false
  end.

(** ** What the calls touch *)

(** Outside [P] nothing changes. *)
Definition confined (P : path -> Prop) (fs fs' : FS) : Prop := forall p, ~ P p -> files fs' !! p = files fs !! p.
#[global] Instance confined_preorder P : PreOrder (confined P).
Proof. split; [by intros fs p|]. intros a b c Hab Hbc p Hp. by rewrite Hbc, Hab. Qed.
Lemma confined_mono (P Q : path -> Prop) fs fs' : (forall p, P p -> Q p) -> confined P fs fs' -> confined Q fs fs'.
Proof. intros HPQ Hc p Hp. apply Hc. naive_solver. Qed.

Lemma confined_call P : Always (confined P) io_call.
Proof. by intros fs p. Qed.
Lemma confined_put (P : path -> Prop) p e : P p -> Always (confined P) (put_entry p e).
Proof. intros Hp fs q Hq. simpl. rewrite lookup_insert_ne; [done|]. by intros ->. Qed.
Lemma confined_remove_all p : Always (confined (fun q => p `prefix_of` q)) (remove_all p).
Proof.
  intros fs q Hq. simpl. apply option_eq. intros e. rewrite map_lookup_filter_Some. simpl. tauto.
Qed.
Lemma remove_all_gone p fs fs' b : remove_all p fs = (fs', TOk b) ->
  b = true -> forall q, p `prefix_of` q -> files fs' !! q = None.
Proof.
  intros [= <- <-] Hok q Hq. simpl. apply map_lookup_filter_None. right. intros e He. simpl.
  intros [?|[? _]]; [done|congruence].
Qed.
Lemma confined_remove (P : path -> Prop) p : P p -> Always (confined P) (remove p).
Proof.
  intros Hp fs q Hq. unfold remove, mbind, io_bind, io_call, io_get. simpl.
  destruct (files fs !! p) as [[data|]|]; try done. destruct (io_ok _); [|done]. simpl.
  rewrite lookup_delete_ne; [done|]. by intros ->.
Qed.
Lemma confined_write (P : path -> Prop) p data : P p -> Always (confined P) (write_file p data).
Proof.
  intros Hp. unfold write_file. apply always_bind; [apply _|apply confined_call|]. intros n.
  apply always_bind; [apply _|apply always_get, _|]. intros fs. case_match; [|apply always_ret, _].
  apply always_bind; [apply _|apply confined_call|]. intros m.
  apply always_bind; [apply _|by apply confined_put|]. intros _. apply always_ret, _.
Qed.
Lemma confined_rename (P : path -> Prop) a b : P a -> P b -> Always (confined P) (rename a b).
Proof.
  intros Ha Hb fs q Hq. unfold rename, mbind, io_bind, io_call, io_get. simpl.
  destruct (files fs !! a) as [[data|]|]; try done. case_match; [|done]. simpl.
  rewrite lookup_insert_ne, lookup_delete_ne; [done|by intros ->|by intros ->].
Qed.

(** Directories are created along the path only, where there was nothing. *)
Definition made_dirs (P : path -> Prop) (fs fs' : FS) : Prop :=
  forall p, files fs' !! p = files fs !! p \/ (P p /\ files fs !! p = None /\ files fs' !! p = Some Dir).
Lemma made_dirs_trans P fs1 fs2 fs3 : made_dirs P fs1 fs2 -> made_dirs P fs2 fs3 -> made_dirs P fs1 fs3.
Proof.
  intros H12 H23 p. destruct (H23 p) as [->|(HP & Hn & Hd)]; [apply H12|].
  destruct (H12 p) as [He|(_ & _ & Hd2)]; [|congruence]. right. rewrite He in Hn. done.
Qed.
(** The paths strictly below a directory. *)
Definition below (p q : path) : Prop := exists k, k <> [] /\ q = p ++ k.
Lemma below_prefix p q : below p q -> p `prefix_of` q.
Proof. intros (k & _ & ->). by apply prefix_app_r. Qed.
Lemma below_trans p q r : p `prefix_of` q -> below q r -> below p r.
Proof.
  intros [k ->] (k' & Hk & ->). exists (k ++ k'). split; [by intros [_ ?]%app_eq_nil|by rewrite app_assoc].
Qed.
Lemma below_not_prefix p q : below p q -> ~ q `prefix_of` p.
Proof.
  intros (k & Hk & ->) [l Hl]. rewrite <- app_assoc in Hl. apply (f_equal length) in Hl.
  rewrite !length_app in Hl. destruct k; [done|]. simpl in Hl. lia.
Qed.

Lemma mkdirs_made rest : forall base created fs,
  made_dirs (fun p => below base p /\ p `prefix_of` base ++ rest) fs (mkdirs base rest created fs).1.
Proof.
  induction rest as [|c rest IH]; intros base created fs; cbn [mkdirs]; [by left|].
  assert (Hsub : forall fs1 fs2,
    made_dirs (fun p => below (base ++ [c]) p /\ p `prefix_of` (base ++ [c]) ++ rest) fs1 fs2 ->
    made_dirs (fun p => below base p /\ p `prefix_of` base ++ c :: rest) fs1 fs2).
  { intros fs1 fs2 Hm p. destruct (Hm p) as [?|([Hp1 Hp2] & ?)]; [by left|right]. split; [|done].
    rewrite <- app_assoc in Hp2. split; [|done]. eapply below_trans; [|exact Hp1]. by apply prefix_app_r. }
  unfold mbind, io_bind, io_get, io_call. simpl. destruct (files fs !! (base ++ [c])) as [[data|]|] eqn:Hb.
  - by left.
  - apply Hsub, IH.
  - destruct (io_ok _); [|by left]. simpl. eapply made_dirs_trans; [|apply Hsub, IH].
    intros p. simpl. destruct (decide (p = base ++ [c])) as [->|Hne].
    + right. rewrite lookup_insert_eq. split_and!; [by exists [c]| |done|done].
      exists rest. by rewrite <- app_assoc.
    + left. by rewrite lookup_insert_ne.
Qed.
Lemma is_dir_lookup fs p : files fs !! p = Some Dir -> is_dir fs p = true.
Proof. intros Hp. unfold is_dir. destruct p; [done|]. by rewrite Hp. Qed.
Lemma is_dir_inv fs p : is_dir fs p = true -> p = [] \/ files fs !! p = Some Dir.
Proof. unfold is_dir. destruct p; [by left|]. intros Hd. right. by repeat case_match. Qed.
(** The directories on the way to a path, the path included. *)
Definition open_path (fs : FS) (p : path) : Prop := forall q, q `prefix_of` p -> is_dir fs q = true.
Lemma open_snoc fs p c : open_path fs p -> files fs !! (p ++ [c]) = Some Dir -> open_path fs (p ++ [c]).
Proof.
  intros Hp Hc q Hq. destruct Hq as [k Hk]. destruct k as [|x k _] using rev_ind.
  - rewrite app_nil_r in Hk. subst q. by apply is_dir_lookup.
  - rewrite app_assoc in Hk. apply app_inj_2 in Hk as [Hk _]; [|done]. apply Hp. by exists k.
Qed.
Lemma mkdirs_ok rest : forall base created fs fs' b, open_path fs base ->
  mkdirs base rest created fs = (fs', TOk (Some b)) -> open_path fs' (base ++ rest).
Proof.
  induction rest as [|c rest IH]; intros base created fs fs' b Hd Hm; cbn [mkdirs] in Hm.
  { injection Hm as <- _. by rewrite app_nil_r. }
  rewrite (app_assoc base [c] rest : base ++ c :: rest = (base ++ [c]) ++ rest).
  unfold mbind, io_bind, io_get, io_call in Hm. simpl in Hm.
  destruct (files fs !! (base ++ [c])) as [[data|]|] eqn:Hb; [done| |].
  - eapply IH; [|exact Hm]. by apply open_snoc.
  - destruct (io_ok _); [|done]. simpl in Hm. eapply IH; [|exact Hm]. apply open_snoc; [|apply lookup_insert_eq].
    intros q Hq. destruct (is_dir_inv _ _ (Hd q Hq)) as [->|Hl]; [done|]. apply is_dir_lookup. simpl.
    destruct (decide (q = base ++ [c])) as [->|Hne]; [apply lookup_insert_eq|by rewrite lookup_insert_ne].
Qed.
Lemma mkdirs_open rest : forall base fs created, open_path fs (base ++ rest) ->
  exists b, mkdirs base rest created fs = (fs, TOk (Some b)).
Proof.
  induction rest as [|c rest IH]; intros base fs created Ho; cbn [mkdirs]; [by eexists|].
  unfold mbind, io_bind, io_get. simpl.
  assert (Hc : is_dir fs (base ++ [c]) = true).
  { apply Ho. exists rest. by rewrite <- app_assoc. }
  apply is_dir_inv in Hc as [Hc| ->]; [by destruct base|]. apply IH. by rewrite <- app_assoc.
Qed.

Definition plain (p : path) : Prop := Forall (fun c => c <> ""%string) p.
Definition dotless (p : path) : Prop := Forall (fun c => c <> "."%string /\ c <> ".."%string) p.
Lemma resolve_dotless p : dotless p -> resolve p = p.
Proof.
  unfold resolve. induction p as [|c p IH] using rev_ind; [done|]. intros [Hp Hc]%Forall_app.
  rewrite foldl_app, IH by done. simpl. apply Forall_singleton in Hc as [H1 H2].
  destruct (String.eqb_spec c "."); [done|]. by destruct (String.eqb_spec c "..").
Qed.
Lemma plain_filter p : plain p -> filter (fun c => c <> ""%string) p = p.
Proof.
  induction 1 as [|c p Hc Hp IH]; [done|]. rewrite filter_cons, decide_True, IH; done.
Qed.
Lemma create_made p fs : plain p -> made_dirs (fun q => q <> [] /\ q `prefix_of` p) fs (create_directories p fs).1.
Proof.
  intros Hp. unfold create_directories. rewrite plain_filter by done. intros q.
  destruct (mkdirs_made p [] false fs q) as [?|([(k & Hk & ->) ?] & ?)]; [by left|by right].
Qed.
Lemma create_ok p fs fs' b : plain p -> create_directories p fs = (fs', TOk (Some b)) -> open_path fs' p.
Proof.
  intros Hp Hc. unfold create_directories in Hc. rewrite plain_filter in Hc by done.
  apply (mkdirs_ok p []) in Hc; [done|]. intros q Hq. by apply prefix_nil_inv in Hq as ->.
Qed.
Lemma create_open p fs : plain p -> open_path fs p -> exists b, create_directories p fs = (fs, TOk (Some b)).
Proof. intros Hp Ho. unfold create_directories. rewrite plain_filter by done. by apply mkdirs_open. Qed.
(** Below a directory that is there, only entries below it are created. *)
Lemma create_below d p fs : plain p -> d `prefix_of` p -> open_path fs d ->
  made_dirs (below d) fs (create_directories p fs).1.
Proof.
  intros Hp [k ->] Hd q. destruct (create_made (d ++ k) fs Hp q) as [?|((Hne & Hq) & Hn & Hs)]; [by left|].
  right. split; [|done]. destruct Hq as [l Hl]. destruct (prefix_dec q d) as [Hqd|Hqd].
  - exfalso. specialize (Hd q Hqd). apply is_dir_inv in Hd as [?|?]; congruence.
  - destruct (prefix_weak_total q d (d ++ k)) as [|[j ->]]; [by exists l|by apply prefix_app_r|done|].
    exists j. split; [|done]. intros ->. apply Hqd. by rewrite app_nil_r.
Qed.
(** A directory that was not there is created last, and reported. *)
Lemma mkdirs_new rest : forall base created fs fs' r, rest <> [] -> files fs !! (base ++ rest) = None ->
  mkdirs base rest created fs = (fs', TOk r) -> files fs' !! (base ++ rest) = Some Dir -> r = Some true.
Proof.
  induction rest as [|c rest IH]; intros base created fs fs' r Hne Hn Hm Hd; [done|]. cbn [mkdirs] in Hm.
  assert (Happ : base ++ c :: rest = (base ++ [c]) ++ rest) by by rewrite <- app_assoc.
  unfold mbind, io_bind, io_get, io_call in Hm. simpl in Hm. rewrite Happ in Hn, Hd.
  destruct (decide (rest = [])) as [->|Hne'].
  - rewrite app_nil_r in Hn, Hd. rewrite Hn in Hm. destruct (io_ok _); simpl in Hm; [by injection Hm as _ <-|].
    injection Hm as <- _. simpl in Hd. congruence.
  - destruct (files fs !! (base ++ [c])) as [[data|]|] eqn:Hb.
    + injection Hm as <- _. congruence.
    + by eapply IH.
    + destruct (io_ok _); simpl in Hm; [|injection Hm as <- _; simpl in Hd; congruence].
      eapply IH; [done| |exact Hm|exact Hd]. simpl. rewrite lookup_insert_ne; [done|].
      intros He. apply (f_equal length) in He. rewrite !length_app in He. destruct rest; [done|]. simpl in He. lia.
Qed.
Lemma create_new p fs fs' r : plain p -> p <> [] -> files fs !! p = None -> create_directories p fs = (fs', TOk r) ->
  files fs' !! p = Some Dir -> r = Some true.
Proof.
  intros Hp Hne Hn Hc Hd. unfold create_directories in Hc. rewrite plain_filter in Hc by done.
  by eapply (mkdirs_new p []).
Qed.
Lemma create_returns p fs : exists fs' r, create_directories p fs = (fs', TOk r).
Proof.
  unfold create_directories. generalize false as created. generalize (filter (fun c => c <> ""%string) p) as rest.
  generalize ([] : path) as base. intros base rest. revert base fs.
  induction rest as [|c rest IH]; intros base fs created; cbn [mkdirs]; [by eexists _, _|].
  unfold mbind, io_bind, io_get, io_call. simpl. destruct (files fs !! (base ++ [c])) as [[|]|]; [by eexists _, _|apply IH|].
  destruct (io_ok _); [apply IH|by eexists _, _].
Qed.
End Files.
