(* ===== verification/Workspace.v ===== *)
(** * Workspaces

    [src/runtime/workspace.cpp]: the validation of workspace manifests and the staging of a
    manifest into a directory of its own.  The conversion of a JSON array to bytes is a parameter,
    the artifact store an interface ([ArtifactStore]) with the laws its clients rely on. *)

From S2P Require Import Prelude Json Text Db Codec Effects Files Sha256.
From Stdlib Require Import Strings.Byte Ascii.

Record WorkspaceManifestLimits := mkManifestLimits {
  max_files : Z; max_file_bytes : Z; max_total_bytes : Z; max_manifest_bytes : Z;
  max_inline_file_bytes : Z; max_inline_total_bytes : Z }.
Definition default_limits : WorkspaceManifestLimits := {|
  max_files := 4096; max_file_bytes := 256 * 1024 * 1024; max_total_bytes := 512 * 1024 * 1024;
  max_manifest_bytes := 4 * 1024 * 1024; max_inline_file_bytes := 16 * 1024;
  max_inline_total_bytes := 48 * 1024 |}.

(** [get<std::vector<unsigned char>>()] *)
Class BytesLib := { get_bytes : Json -> option (list byte) }.

(** The components of a relative path on POSIX: repeated slashes separate once, a trailing slash
    yields an empty last component. *)
Definition path_parts (value : string) : list string :=
  let pieces := split value "/"%char in
  filter (fun c => c <> ""%string) pieces
  ++ (if bool_decide (last pieces = Some ""%string) then [""%string] else []).

Definition has_char (c : ascii) (value : string) : bool := existsb (Ascii.eqb c) (chars_of value).
Definition safe_relative_path (value : string) : bool :=
  negb (empty_str value || (512 <? size_of value)
        || match chars_of value with c :: _ => Ascii.eqb c "/" || Ascii.eqb c "\" | [] => false end
        || has_char ":" value || has_char "\" value || has_char zero value)
  && forallb (fun part => negb (String.eqb part ".." || String.eqb part ".")) (path_parts value).

Definition component_character (c : ascii) : bool :=
  is_alnum c || one_of ["-"; "_"; "."; ":"]%char c.
Definition safe_component (value : string) : bool :=
  negb (empty_str value) && (size_of value <=? 128) && negb (String.eqb value ".")
  && negb (String.eqb value "..") && forallb component_character (chars_of value).

Section Manifests.
Context `{JsonLib} `{BytesLib}.

Definition has_string (j : Json) (key : string) (ok : string -> bool) : tres bool :=
  match member j key with
  | Some (JString s as v) => x ← dec_string v; TOk (ok x)
  | _ => TOk false
  end.

Definition check_manifest_size (manifest : Json) (limits : WorkspaceManifestLimits) : tres unit :=
  bad ← (if negb (is_object manifest) then TOk true
         else
           v1 ← value_ dec_unsigned manifest "version" 0;
           v2 ← (if v1 =? 1 then TOk 0 else value_ dec_unsigned manifest "version" 0);
           if negb (v1 =? 1) && negb (v2 =? 2) then TOk true
           else match member manifest "files" with
                | Some (JArray _) => dump_exceeds manifest (max_manifest_bytes limits)
                | _ => TOk true
                end);
  tguard bad Validation "Invalid or oversized workspace manifest".

(** One entry: the paths seen so far and the bytes counted so far. *)
Definition check_entry (limits : WorkspaceManifestLimits) (version : Z) (paths : gset string) (total : Z)
    (entry : Json) : tres (gset string * Z) :=
  ok ← (if negb (is_object entry) then TOk false
        else p ← has_string entry "path" safe_relative_path;
             if negb p then TOk false else has_string entry "sha256" valid_digest);
  _ ← tguard (negb ok) Validation "Invalid workspace manifest entry";
  path ← at_ dec_string entry "path";
  _ ← tguard (bool_decide (path ∈ paths)) Conflict "Workspace manifest contains duplicate paths";
  let paths := {[path]} ∪ paths in
  if version =? 1 then
    _ ← tguard (match member entry "data" with Some (JArray _) => false | _ => true end) Validation
          "Inline workspace entry is missing data";
    bytes ← at_ (fun j => dec_of (get_bytes j)) entry "data";
    let size := Z.of_nat (length bytes) in
    digest ← at_ dec_json entry "sha256";
    _ ← tguard ((max_inline_file_bytes limits <? size)
                || (u64 (max_inline_total_bytes limits - size) <? total)
                || negb (json_eqb digest (JString (sha256_bytes bytes)))) Validation
          "Workspace inline integrity or size check failed";
    TOk (paths, u64 (total + size))
  else
    _ ← tguard (match member entry "object_id", member entry "size" with
                | Some (JString _), Some (JUnsigned _) => false
                | _, _ => true
                end) Validation "Object-backed workspace entry is incomplete";
    size ← at_ dec_u64 entry "size";
    _ ← tguard ((max_file_bytes limits <? size) || (u64 (max_total_bytes limits - size) <? total)) Validation
          "Workspace object exceeds the configured limit";
    TOk (paths, u64 (total + size)).
Fixpoint check_entries (limits : WorkspaceManifestLimits) (version : Z) (paths : gset string) (total : Z)
    (l : list Json) : tres unit :=
  match l with
  | [] => TOk tt
  | entry :: l =>
      st ← check_entry limits version paths total entry;
      check_entries limits version st.1 st.2 l
  end.
Definition manifest_files (manifest : Json) : tres (list Json) :=
  match member manifest "files" with Some (JArray l) => TOk l | _ => TThrow TStd end.

Definition validate_workspace_manifest (manifest : Json) (limits : WorkspaceManifestLimits) : tres unit :=
  _ ← check_manifest_size manifest limits;
  version ← at_ dec_unsigned manifest "version";
  files ← manifest_files manifest;
  _ ← tguard (max_files limits <? Z.of_nat (length files)) Validation
        "Workspace file count exceeds the configured limit";
  check_entries limits version ∅ 0 files.
End Manifests.

(** ** Staging *)

(** The artifact store as the staging code sees it. *)
Record ArtifactStore := mkArtifactStore {
  materialize : string -> path -> string -> Z -> FIO unit }.

Section Staging.
Context `{JsonLib} `{BytesLib} {E : FileEnv}.

(** [base / value], as the operating system resolves it: an absolute [value] replaces the base. *)
Definition join (base : path) (value : string) : path :=
  resolve (match chars_of value with
           | c :: _ => if Ascii.eqb c "/" then path_parts value else base ++ path_parts value
           | [] => base
           end).
Definition stage_path (staging_root : path) (run_id work_id attempt_id : string) : path :=
  join (join (join staging_root ("run-" ++ run_id)) ("work-" ++ work_id)) ("attempt-" ++ attempt_id).

(** The content of an entry at its destination. *)
Definition place_entry (destination : path) (object_backed : bool) (store : option ArtifactStore) (entry : Json)
    : FIO unit :=
  if object_backed then
    object_id ← io_lift (at_ dec_string entry "object_id");
    digest ← io_lift (at_ dec_string entry "sha256");
    size ← io_lift (at_ dec_u64 entry "size");
    match store with
    | Some store => materialize store object_id destination digest size
    | None => io_lift (TThrow TStd)
    end
  else
    bytes ← io_lift (at_ (fun j => dec_of (get_bytes j)) entry "data");
    ok ← write_file destination bytes;
    io_guard (negb ok) StorageError "Unable to stage workspace file".
Definition stage_entry (stage : path) (object_backed : bool) (store : option ArtifactStore) (entry : Json)
    : FIO unit :=
  relative ← io_lift (at_ dec_string entry "path");
  let destination := join stage relative in
  created ← create_directories (parent destination);
  _ ← io_guard (bool_decide (created = None)) StorageError "Unable to create workspace parent directory";
  place_entry destination object_backed store entry.

(** [manifest.at("version") == 2] *)
Definition object_backed (manifest : Json) : tres bool :=
  v ← at_ dec_json manifest "version"; TOk (json_eqb v (JInt 2)).

(** What is checked before the file system is touched. *)
Definition stage_checks (manifest : Json) (run_id work_id attempt_id : string) (limits : WorkspaceManifestLimits)
    (store : option ArtifactStore) : tres bool :=
  _ ← validate_workspace_manifest manifest limits;
  _ ← tguard (negb (safe_component run_id) || negb (safe_component work_id) || negb (safe_component attempt_id))
        Validation "Workspace staging identity is incomplete";
  backed ← object_backed manifest;
  _ ← tguard (backed && match store with Some _ => false | None => true end) StorageError
        "An artifact store is required for object-backed workspaces";
  TOk backed.
Definition make_stage (stage : path) : FIO unit :=
  removed ← remove_all stage;
  _ ← io_guard (negb removed) StorageError "Unable to create workspace staging directory";
  created ← create_directories stage;
  io_guard (negb (bool_decide (created = Some true))) StorageError "Unable to create workspace staging directory".
Definition stage_loop (stage : path) (backed : bool) (manifest : Json) (store : option ArtifactStore) : FIO unit :=
  files ← io_lift (manifest_files manifest); io_iter (stage_entry stage backed store) files.
Definition stage_files (stage : path) (backed : bool) (manifest : Json) (store : option ArtifactStore) : FIO unit :=
  io_cleanup (stage_loop stage backed manifest store) (remove_all stage ≫= fun _ => mret tt).

Definition stage_workspace (manifest : Json) (staging_root : path) (run_id work_id attempt_id : string)
    (limits : WorkspaceManifestLimits) (store : option ArtifactStore) : FIO path :=
  backed ← io_lift (stage_checks manifest run_id work_id attempt_id limits store);
  let stage := stage_path staging_root run_id work_id attempt_id in
  _ ← make_stage stage;
  _ ← stage_files stage backed manifest store;
  mret stage.
End Staging.

(** What staging relies on of an artifact store: below the directory of the destination nothing else
    is touched, and on success the destination is a file of the expected digest. *)
Class ArtifactStoreLaws {E : FileEnv} (store : ArtifactStore) : Prop := {
  materialize_confined : forall object_id dest digest size fs,
    plain (parent dest) -> open_path fs (parent dest) -> below (parent dest) dest ->
    confined (below (parent dest)) fs (materialize store object_id dest digest size fs).1;
  materialize_ok : forall object_id dest digest size fs fs' u,
    plain (parent dest) -> open_path fs (parent dest) -> below (parent dest) dest ->
    materialize store object_id dest digest size fs = (fs', TOk u) -> valid_digest digest = true ->
    files fs !! dest <> Some Dir
    /\ exists data, files fs' !! dest = Some (File data) /\ sha256_bytes data = digest
    /\ forall q, q <> dest -> files fs' !! q = files fs !! q }.

(** ** Paths *)

Lemma join_safe base value : dotless base -> safe_relative_path value = true ->
  join base value = base ++ path_parts value.
Proof.
  intros Hb Hs. unfold safe_relative_path in Hs. apply andb_true_iff in Hs as [Hf Hp].
  apply negb_true_iff in Hf. repeat apply orb_false_iff in Hf as [Hf ?].
  unfold join. destruct (chars_of value) as [|c l] eqn:Hc.
  { rewrite <- (of_chars_chars_of value), Hc in Hf. done. }
  match goal with Ho : (Ascii.eqb c "/" || _)%bool = false |- _ => apply orb_false_iff in Ho as [-> _] end.
  apply resolve_dotless, Forall_app. split; [done|]. apply Forall_forall. intros part Hin.
  rewrite forallb_forall in Hp. apply list_elem_of_In, Hp, negb_true_iff, orb_false_iff in Hin as [Hdd Hdo].
  split; intros ->; done.
Qed.
(** Components without a slash are one component. *)
Lemma split_chars_one d l : d ∉ l -> split_chars d l = [l].
Proof.
  induction l as [|c l IH]; simpl; [done|]. intros [Hne Hl]%not_elem_of_cons. rewrite IH by done.
  destruct (Ascii.eqb_spec c d); [by subst|done].
Qed.
Lemma safe_component_no_slash value : safe_component value = true -> "/"%char ∉ chars_of value.
Proof.
  unfold safe_component. intros [_ Hc]%andb_true_iff Hin. rewrite forallb_forall in Hc.
  by apply list_elem_of_In, Hc in Hin.
Qed.
Lemma join_component base c tag value : dotless base -> safe_component value = true -> "/"%char ∉ chars_of (String c tag) ->
  c <> "."%char ->
  let part := String.append (String c tag) value in
  join base part = base ++ [part] /\ dotless (base ++ [part]).
Proof.
  intros Hb Hs Ht Hd part.
  assert (Hns : "/"%char ∉ chars_of part).
  { unfold part. rewrite chars_of_app, elem_of_app. intros [?|?]; [done|by eapply safe_component_no_slash]. }
  assert (Hdp : dotless (base ++ [part])).
  { apply Forall_app. split; [done|]. apply Forall_singleton. unfold part. simpl. split; intros [= ? _]; done. }
  split; [|done]. unfold join. assert (Hparts : path_parts part = [part]).
  { unfold path_parts, split. rewrite split_chars_one by done. cbn [map last]. rewrite of_chars_chars_of.
    rewrite bool_decide_eq_false_2 by (unfold part; done). rewrite app_nil_r. by rewrite filter_cons_True. }
  change (chars_of part) with (c :: chars_of (String.append tag value)).
  rewrite Hparts. destruct (Ascii.eqb c "/") eqn:He; [|by rewrite resolve_dotless].
  apply Ascii.eqb_eq in He. subst c. exfalso. apply Ht. left.
Qed.
(** The stage of valid identities is a directory of its own below the root. *)
Definition stage_dir (root : path) (run_id work_id attempt_id : string) : path :=
  root ++ ["run-" ++ run_id; "work-" ++ work_id; "attempt-" ++ attempt_id]%string.
Lemma stage_path_dir root run_id work_id attempt_id : dotless root ->
  safe_component run_id = true -> safe_component work_id = true -> safe_component attempt_id = true ->
  stage_path root run_id work_id attempt_id = stage_dir root run_id work_id attempt_id
  /\ dotless (stage_dir root run_id work_id attempt_id).
Proof.
  intros Hr H1 H2 H3. unfold stage_path, stage_dir.
  destruct (join_component root "r" "un-" run_id Hr H1) as [-> Hd1]; [set_solver|done|].
  destruct (join_component _ "w" "ork-" work_id Hd1 H2) as [-> Hd2]; [set_solver|done|].
  destruct (join_component _ "a" "ttempt-" attempt_id Hd2 H3) as [-> Hd3]; [set_solver|done|].
  rewrite <- !app_assoc in *. done.
Qed.
Lemma stage_dir_plain root run_id work_id attempt_id : plain root -> plain (stage_dir root run_id work_id attempt_id).
Proof. intros Hr. apply Forall_app. split; [done|]. by repeat constructor. Qed.

Lemma split_nonempty value : exists piece rest, split value "/"%char = piece :: rest.
Proof.
  unfold split. destruct (split_chars_cons "/"%char (chars_of value)) as (p & r & ->). by eexists _, _.
Qed.
Lemma path_parts_nonempty value : path_parts value <> [].
Proof.
  unfold path_parts. destruct (split_nonempty value) as (piece & rest & ->). intros Hnil.
  apply app_eq_nil in Hnil as [Hf Hl]. case_bool_decide as Hlast; [done|]. apply Hlast.
  destruct (last (piece :: rest)) as [c|] eqn:Hc; [|by apply last_None in Hc].
  destruct (decide (c = ""%string)) as [->|Hne]; [done|]. exfalso.
  assert (Hin : c ∈ filter (fun c => c <> ""%string) (piece :: rest)).
  { apply list_elem_of_filter. split; [done|]. apply last_Some in Hc as [l ->]. set_solver. }
  rewrite Hf in Hin. by apply elem_of_nil in Hin.
Qed.
Lemma path_parts_plain value : plain (take (length (path_parts value) - 1) (path_parts value)).
Proof.
  unfold path_parts. set (l := filter _ _). assert (Hl : plain l).
  { apply Forall_forall. intros c Hc. by apply list_elem_of_filter in Hc as [? _]. }
  case_bool_decide.
  - rewrite length_app, Nat.add_sub, take_app_length. done.
  - rewrite app_nil_r. by apply Forall_take.
Qed.
Lemma parent_app stage parts : parts <> [] -> parent (stage ++ parts) = stage ++ take (length parts - 1) parts.
Proof.
  intros Hp. unfold parent. rewrite length_app, take_app_ge by (destruct parts; [done|simpl; lia]).
  do 2 f_equal. destruct parts; [done|]. simpl. lia.
Qed.
Lemma below_parent p : p <> [] -> below (parent p) p.
Proof.
  intros Hp. unfold parent. exists (drop (length p - 1) p). rewrite take_drop. split; [|done].
  intros Hd. apply (f_equal length) in Hd. rewrite length_drop in Hd. destruct p; [done|]. simpl in *. lia.
Qed.

(** ** Entries that passed validation *)

Section Validation.
Context `{JsonLib} `{BytesLib}.

Definition path_safe (e : Json) : Prop :=
  forall relative, at_ dec_string e "path" = TOk relative -> safe_relative_path relative = true.
Lemma check_entry_safe limits version paths total e st :
  check_entry limits version paths total e = TOk st -> path_safe e.
Proof.
  unfold check_entry. intros Hc. apply tres_bind_ok in Hc as (ok & Hok & Hc). apply tres_bind_ok in Hc as (u & Hg & _).
  apply tguard_ok, negb_false_iff in Hg. subst ok. destruct (is_object e); [|done]. simpl in Hok.
  apply tres_bind_ok in Hok as (p & Hp & Hok). destruct p; [|done]. clear Hok.
  intros relative Hr. unfold has_string in Hp. unfold at_ in Hr. destruct (member e "path") as [[]|]; try done.
  apply tres_bind_ok in Hp as (x & Hx & Hp). injection Hp as Hp. rewrite Hr in Hx. by injection Hx as ->.
Qed.
Lemma check_entries_safe limits version l : forall paths total,
  check_entries limits version paths total l = TOk tt -> Forall path_safe l.
Proof.
  induction l as [|e l IH]; intros paths total Hc; [constructor|]. cbn [check_entries] in Hc.
  apply tres_bind_ok in Hc as (st & He & Hc). constructor; [by eapply check_entry_safe|by eapply IH].
Qed.
Definition safe_files (manifest : Json) : Prop :=
  forall l, manifest_files manifest = TOk l -> Forall path_safe l.
Lemma stage_checks_safe manifest run_id work_id attempt_id limits store backed :
  stage_checks manifest run_id work_id attempt_id limits store = TOk backed ->
  safe_files manifest /\ safe_component run_id = true /\ safe_component work_id = true
  /\ safe_component attempt_id = true.
Proof.
  intros Hc. apply tres_bind_ok in Hc as ([] & Hval & Hc). apply tres_bind_ok in Hc as (? & Hg & _).
  apply tguard_ok in Hg. repeat apply orb_false_iff in Hg as [Hg ?]. rewrite !negb_false_iff in *. split; [|done].
  intros l Hl. unfold validate_workspace_manifest in Hval. apply tres_bind_ok in Hval as (? & _ & Hval).
  apply tres_bind_ok in Hval as (version & _ & Hval). apply tres_bind_ok in Hval as (l' & Hl' & Hval).
  assert (l' = l) as -> by congruence. apply tres_bind_ok in Hval as (? & _ & Hval). by eapply check_entries_safe.
Qed.
End Validation.

Section StagingProofs.
Context `{JsonLib} `{BytesLib} {E : FileEnv}.

(** The destination of an entry: below the stage, and the directories on the way are plain. *)
Lemma destination_facts stage value : plain stage -> dotless stage -> safe_relative_path value = true ->
  let dest := join stage value in
  dest = stage ++ path_parts value /\ plain (parent dest) /\ stage `prefix_of` parent dest /\ below stage dest /\ below (parent dest) dest.
Proof.
  intros Hs Hd Hv. pose proof (path_parts_nonempty value) as Hne. cbv zeta. rewrite join_safe, parent_app by done.
  split_and!; [done|..].
  - apply Forall_app. split; [done|apply path_parts_plain].
  - by apply prefix_app_r.
  - by exists (path_parts value).
  - rewrite <- parent_app by done. apply below_parent. by intros [_ ?]%app_eq_nil.
Qed.

(** A staged tree stays open, and nothing outside it changes. *)
Definition within (stage : path) (fs fs' : FS) : Prop :=
  open_path fs stage -> open_path fs' stage /\ confined (below stage) fs fs'.
#[global] Instance within_preorder stage : PreOrder (within stage).
Proof.
  split; [done|]. intros a b c Hab Hbc Ha. destruct (Hab Ha) as [Hb Hc]. destruct (Hbc Hb) as [Hd He].
  split; [done|by etransitivity].
Qed.
Lemma confined_within stage fs fs' : confined (below stage) fs fs' -> within stage fs fs'.
Proof.
  intros Hc Ho. split; [|done]. intros q Hq. destruct (is_dir_inv _ _ (Ho q Hq)) as [->|Hl]; [done|].
  apply is_dir_lookup. rewrite Hc; [done|]. intros Hb. by apply below_not_prefix in Hb.
Qed.
Lemma made_confined P fs fs' : made_dirs P fs fs' -> confined P fs fs'.
Proof. intros Hm q Hq. destruct (Hm q) as [?|[? _]]; [done|by destruct Hq]. Qed.

Context (store : option ArtifactStore) {HS : forall st, store = Some st -> ArtifactStoreLaws st}.

Lemma place_confined dest backed entry fs :
  plain (parent dest) -> open_path fs (parent dest) -> below (parent dest) dest ->
  confined (below (parent dest)) fs (place_entry dest backed store entry fs).1.
Proof.
  intros Hpl Ho Hb. unfold place_entry. destruct backed.
  - unfold mbind, io_bind, io_lift. do 3 (case_match; [|done]). simplify_eq. destruct store as [st|]; [|done].
    destruct (HS st eq_refl) as [Hm _]. by apply Hm.
  - apply (always_bind (confined _) _ _ (always_lift _ _)). intros bytes.
    apply always_bind; [apply _|by apply confined_write|]. intros ok. apply always_lift, _.
Qed.
Lemma stage_entry_within stage backed entry : plain stage -> dotless stage -> path_safe entry ->
  Always (within stage) (stage_entry stage backed store entry).
Proof.
  intros Hs Hd Hsafe fs0. unfold stage_entry. destruct (at_ dec_string entry "path") as [relative|x] eqn:Hrel;
    [|by unfold mbind, io_bind, io_lift]. unfold mbind at 1, io_bind at 1, io_lift at 1. cbn beta iota. revert fs0.
  destruct (destination_facts stage relative Hs Hd (Hsafe _ Hrel)) as (_ & Hpl & Hpre & Hbel & Hbp). cbv zeta in *.
  set (dest := join stage _) in *. apply always_bind_from.
  { intros fs Ho. apply confined_within; [|done]. by apply made_confined, create_below. }
  intros fs fs1 created Hcr Hw. unfold mbind, io_bind. destruct created as [b|]; [simpl|exact Hw].
  etransitivity; [exact Hw|]. apply confined_within.
  eapply confined_mono; [|apply place_confined; [done|by eapply create_ok|done]].
  intros q Hq. by eapply below_trans.
Qed.

(** Outside the stage only missing directories on the way to it are created. *)
Definition outside (stage : path) (fs fs' : FS) : Prop :=
  forall q, ~ stage `prefix_of` q -> files fs' !! q = files fs !! q
    \/ (q `prefix_of` stage /\ files fs !! q = None /\ files fs' !! q = Some Dir).
#[global] Instance outside_preorder stage : PreOrder (outside stage).
Proof.
  split; [by left|]. intros a b c Hab Hbc q Hq. destruct (Hbc q Hq) as [->|(Hp & Hn & Hd)]; [by apply Hab|].
  destruct (Hab q Hq) as [He|(_ & _ & Hd2)]; [|congruence]. right. by rewrite He in Hn.
Qed.
Lemma confined_outside stage fs fs' : confined (fun q => stage `prefix_of` q) fs fs' -> outside stage fs fs'.
Proof. intros Hc q Hq. left. by apply Hc. Qed.
Lemma stage_iter_within stage backed l : plain stage -> dotless stage -> Forall path_safe l ->
  Always (within stage) (io_iter (stage_entry stage backed store) l).
Proof.
  intros Hs Hd Hl. induction Hl as [|e l He Hl IH]; [apply always_ret, _|]. cbn [io_iter].
  apply always_bind; [apply _|by apply stage_entry_within|]. intros _. exact IH.
Qed.
Lemma stage_loop_within stage backed manifest : plain stage -> dotless stage -> safe_files manifest ->
  Always (within stage) (stage_loop stage backed manifest store).
Proof.
  intros Hs Hd Hsafe fs. unfold stage_loop. destruct (manifest_files manifest) as [l|x] eqn:Hl;
    [|by unfold mbind, io_bind, io_lift]. unfold mbind, io_bind, io_lift. cbn beta iota.
  apply stage_iter_within; [done..|by apply Hsafe].
Qed.
Lemma within_outside stage fs fs' : open_path fs stage -> within stage fs fs' -> outside stage fs fs'.
Proof.
  intros Ho Hw. apply confined_outside. eapply confined_mono; [apply below_prefix|]. by apply Hw.
Qed.
Lemma remove_all_outside stage : Always (outside stage) (remove_all stage).
Proof. eapply always_mono; [apply confined_outside|apply confined_remove_all]. Qed.
Lemma make_stage_outside stage : plain stage -> Always (outside stage) (make_stage stage).
Proof.
  intros Hs. unfold make_stage. apply always_bind; [apply _|apply remove_all_outside|]. intros removed.
  apply always_bind; [apply _|apply always_lift, _|]. intros _.
  apply always_bind; [apply _| |intros ?; apply always_lift, _]. intros fs q Hq.
  destruct (create_made stage fs Hs q) as [?|([_ ?] & ?)]; [by left|by right].
Qed.
Lemma stage_files_outside stage backed manifest fs : plain stage -> dotless stage -> safe_files manifest ->
  open_path fs stage ->
  outside stage fs (stage_files stage backed manifest store fs).1.
Proof.
  intros Hs Hd Hsafe Ho. unfold stage_files, io_cleanup.
  pose proof (stage_loop_within stage backed manifest Hs Hd Hsafe fs) as Hl.
  destruct (stage_loop _ _ _ _ fs) as [fs1 [u|x]]; simpl in Hl; [by apply within_outside|].
  etransitivity; [by apply within_outside|]. pose proof (remove_all_outside stage fs1) as Hr. unfold mbind, io_bind.
  by destruct (remove_all stage fs1) as [fs2 [b|y]].
Qed.
(** The stage is there, and empty, when it has been made. *)
Lemma make_stage_ok stage fs fs' u : plain stage -> make_stage stage fs = (fs', TOk u) ->
  open_path fs' stage /\ forall q, below stage q -> files fs' !! q = None.
Proof.
  intros Hs Hm. unfold make_stage in Hm. apply io_bind_ok in Hm as (fs1 & removed & Hr & Hm).
  apply io_bind_ok in Hm as (fs2 & u2 & Hg & Hm). injection Hg as <- Hg. apply tguard_ok, negb_false_iff in Hg.
  apply io_bind_ok in Hm as (fs3 & created & Hc & Hm). injection Hm as <- Hb.
  apply tguard_ok, negb_false_iff, bool_decide_eq_true in Hb. subst created. split; [by eapply create_ok|].
  intros q Hq. pose proof (create_made stage fs1 Hs q) as Hmade. rewrite Hc in Hmade. simpl in Hmade.
  destruct Hmade as [->|([_ Hp] & _)]; [|by apply below_not_prefix in Hq].
  eapply remove_all_gone; [exact Hr|done|by apply below_prefix].
Qed.

(** Nothing is left of a stage that failed, when the calls of the file system work. *)
Lemma make_stage_clean stage fs fs' x : plain stage -> stage <> [] -> (forall n, io_ok n = true) ->
  make_stage stage fs = (fs', TThrow x) -> forall q, stage `prefix_of` q -> files fs' !! q = None.
Proof.
  intros Hs Hne Hok Hm q Hq. unfold make_stage in Hm. unfold mbind at 1, io_bind at 1 in Hm.
  destruct (remove_all stage fs) as [fs1 [b|y]] eqn:Hr; [|by unfold remove_all in Hr].
  assert (b = true) as -> by (injection Hr as _ <-; apply Hok). pose proof (remove_all_gone _ _ _ _ Hr eq_refl) as Hgone.
  unfold mbind at 1, io_bind at 1, io_guard, io_lift, tguard in Hm. cbn beta iota delta [negb] in Hm.
  unfold mbind, io_bind in Hm. destruct (create_directories stage fs1) as [fs2 [created|y]] eqn:Hc.
  2: { destruct (create_returns stage fs1) as (? & ? & ?). congruence. }
  destruct (bool_decide (created = Some true)) eqn:Hb; [discriminate Hm|]. injection Hm as <- _.
  pose proof (create_made stage fs1 Hs q) as Hmade. rewrite Hc in Hmade. simpl in Hmade.
  destruct Hmade as [->|([_ Hp] & _ & Hd)]; [by apply Hgone|]. exfalso.
  assert (q = stage) as -> by by apply (anti_symm prefix).
  apply bool_decide_eq_false in Hb. apply Hb.
  eapply (create_new stage fs1); [done|done|by apply Hgone|exact Hc|exact Hd].
Qed.
Lemma stage_files_clean stage backed manifest fs fs' x : (forall n, io_ok n = true) ->
  stage_files stage backed manifest store fs = (fs', TThrow x) -> forall q, stage `prefix_of` q -> files fs' !! q = None.
Proof.
  intros Hok Hf q Hq. unfold stage_files, io_cleanup in Hf. destruct (stage_loop _ _ _ _ fs) as [fs1 [u|y]]; [done|].
  unfold mbind at 1, io_bind at 1 in Hf. destruct (remove_all stage fs1) as [fs2 [b|z]] eqn:Hr; [|by unfold remove_all in Hr].
  simpl in Hf. injection Hf as <- _. eapply remove_all_gone; [exact Hr| |done]. injection Hr as _ <-. apply Hok.
Qed.
End StagingProofs.

(** C19: staging a workspace writes only inside the directory of its own run, work item and attempt:
    every other path keeps its content, except that missing directories on the way to the stage are
    created, whatever identities and paths (absolute, or with
    parent references) are given and whichever calls fail.  When staging throws and no call of the file system
    failed, either nothing was touched at all or nothing is left at or below the stage (a failing removal is
    ignored by the code and leaves what it could not remove). *)
Theorem stage_confined `{JsonLib} `{BytesLib} {E : FileEnv} manifest root run_id work_id attempt_id limits store fs :
  (forall st, store = Some st -> ArtifactStoreLaws st) -> plain root -> dotless root ->
  let stage := stage_dir root run_id work_id attempt_id in
  outside stage fs (stage_workspace manifest root run_id work_id attempt_id limits store fs).1
  /\ ((forall n, io_ok n = true) -> forall fs' x,
      stage_workspace manifest root run_id work_id attempt_id limits store fs = (fs', TThrow x) ->
      fs' = fs \/ forall q, stage `prefix_of` q -> files fs' !! q = None).
Proof.
  intros HS Hroot Hdot stage.
  unfold stage_workspace. unfold mbind at 1 4, io_bind at 1 4, io_lift at 1 2.
  destruct (stage_checks _ _ _ _ _ _) as [backed|x] eqn:Hc.
  2: { split; [reflexivity|]. intros _ fs' y [= <- _]. by left. }
  cbv zeta. apply stage_checks_safe in Hc as (Hsafe & H1 & H2 & H3).
  destruct (stage_path_dir root run_id work_id attempt_id Hdot H1 H2 H3) as [-> Hd]. fold stage in Hd |- *.
  pose proof (stage_dir_plain root run_id work_id attempt_id Hroot : plain stage) as Hpl.
  pose proof (make_stage_outside stage Hpl fs) as Hm. unfold mbind, io_bind.
  destruct (make_stage stage fs) as [fs1 [u|x]] eqn:Hmk; simpl in Hm.
  2: { split; [exact Hm|]. intros Hok fs' y [= <- _]. right. eapply make_stage_clean; [done| |done|done].
       unfold stage, stage_dir. by intros [_ ?]%app_eq_nil. }
  apply make_stage_ok in Hmk as [Ho _]; [|done].
  pose proof (stage_files_outside store stage backed manifest fs1 Hpl Hd Hsafe Ho) as Hf.
  destruct (stage_files _ _ _ _ fs1) as [fs2 [v|x]] eqn:Hsf; (split; [by etransitivity|]); [done|].
  intros Hok fs' y [= <- _]. right. by eapply stage_files_clean.
Qed.

(** ** What a staged workspace contains *)

Section Contents.
Context `{L : JsonLib} {HL : JsonLaws L} `{BL : BytesLib} {E : FileEnv}.
Context (store : option ArtifactStore) {HS : forall st, store = Some st -> ArtifactStoreLaws st}.

(** An entry that passed validation. *)
Definition entry_valid (backed : bool) (e : Json) : Prop :=
  exists digest, member e "sha256" = Some (JString digest) /\ valid_digest digest = true
    /\ (backed = false -> forall bytes, at_ (fun j => dec_of (get_bytes j)) e "data" = TOk bytes ->
        sha256_bytes bytes = digest).

Lemma has_string_true e key ok : has_string e key ok = TOk true ->
  exists v, member e key = Some (JString v) /\ ok v = true.
Proof.
  unfold has_string. destruct (member e key) as [[]|]; try done.
  change (JString s) with (JString s). intros Hx. rewrite dec_string_of in Hx. simpl in Hx. injection Hx as Hx. eauto.
Qed.
Lemma check_entry_valid limits version paths total e st : check_entry limits version paths total e = TOk st ->
  entry_valid (negb (version =? 1)) e.
Proof.
  unfold check_entry. intros Hc. apply tres_bind_ok in Hc as (ok & Hok & Hc). apply tres_bind_ok in Hc as (u & Hg & Hc).
  apply tguard_ok, negb_false_iff in Hg. subst ok. destruct (is_object e); [|done]. simpl in Hok.
  apply tres_bind_ok in Hok as (p & _ & Hok). destruct p; [|done]. simpl in Hok.
  apply has_string_true in Hok as (digest & Hd & Hv). exists digest. split_and!; [done..|].
  intros Hb bytes Hbytes. apply negb_false_iff in Hb. rewrite Hb in Hc.
  do 3 apply tres_bind_ok in Hc as (? & _ & Hc). apply tres_bind_ok in Hc as (b' & Hb' & Hc).
  rewrite Hbytes in Hb'. injection Hb' as <-. apply tres_bind_ok in Hc as (dj & Hdj & Hc).
  apply tres_bind_ok in Hc as (u' & Hg & _). apply tguard_ok, orb_false_iff in Hg as [_ Hg]. apply negb_false_iff in Hg.
  unfold at_ in Hdj. rewrite Hd in Hdj. injection Hdj as <-. simpl in Hg. by apply String.eqb_eq in Hg.
Qed.
Lemma check_entries_valid limits version l : forall paths total, check_entries limits version paths total l = TOk tt ->
  Forall (entry_valid (negb (version =? 1))) l.
Proof.
  induction l as [|e l IH]; intros paths total Hc; [constructor|]. cbn [check_entries] in Hc.
  apply tres_bind_ok in Hc as (st & He & Hc). constructor; [by eapply check_entry_valid|by eapply IH].
Qed.
(** The version of the manifest decides in the same way which entries are validated and how they are
    staged, when it is a number an [unsigned] represents. *)
Lemma stage_checks_valid manifest run_id work_id attempt_id limits v backed :
  member manifest "version" = Some (JUnsigned v) -> 0 <= v <= u32_max ->
  stage_checks manifest run_id work_id attempt_id limits store = TOk backed ->
  backed = (v =? 2) /\ exists l, manifest_files manifest = TOk l /\ Forall (entry_valid backed) l.
Proof.
  intros Hv Hr Hc. apply tres_bind_ok in Hc as (u & Hval & Hc). apply tres_bind_ok in Hc as (? & _ & Hc).
  apply tres_bind_ok in Hc as (b & Hb & Hc). apply tres_bind_ok in Hc as (? & _ & Hc). injection Hc as <-.
  unfold object_backed, at_ in Hb. rewrite Hv in Hb. simpl in Hb. injection Hb as Hb.
  unfold validate_workspace_manifest in Hval. apply tres_bind_ok in Hval as (? & Hsize & Hval).
  apply tres_bind_ok in Hval as (version & Hver & Hval). unfold at_ in Hver. rewrite Hv in Hver.
  rewrite dec_unsigned_of in Hver by done. injection Hver as <-.
  apply tres_bind_ok in Hval as (l & Hl & Hval). apply tres_bind_ok in Hval as (? & _ & Hval). destruct u.
  split; [done|]. exists l. split; [done|]. apply check_entries_valid in Hval. eapply Forall_impl; [exact Hval|].
  intros e (d & Hd & Hvd & Hin). exists d. split_and!; [done..|]. intros Hf. apply Hin. apply negb_false_iff, Z.eqb_eq.
  subst b. apply Z.eqb_neq in Hf. unfold check_manifest_size in Hsize.
  apply tres_bind_ok in Hsize as (bad & Hbad & Hg). apply tguard_ok in Hg. subst bad.
  destruct (is_object manifest) eqn:Ho; [|done]. simpl in Hbad. destruct manifest as [| | | | | | |ms]; try done.
  unfold value_ in Hbad. rewrite Hv, !dec_unsigned_of in Hbad by done. unfold mbind, tres_bind in Hbad.
  destruct (Z.eqb_spec v 1); [done|]. apply Z.eqb_neq in Hf. by rewrite Hf in Hbad.
Qed.

Lemma write_file_ok p data fs fs' : (forall n, io_flushed n = true) -> write_file p data fs = (fs', TOk true) ->
  can_create fs p = true /\ files fs' = <[p := File data]> (files fs).
Proof.
  intros Hflush.
  unfold write_file, mbind, io_bind, io_call, io_get. simpl. unfold can_create, is_dir. simpl.
  destruct (names_file p && _ && _) eqn:Hc; simpl; [|done]. destruct (io_ok (io_calls fs)); simpl; [|done].
  rewrite Hflush, andb_true_r. destruct (bool_decide (data = []) || io_ok _); [|done]. intros [= <-]. done.
Qed.

(** A placed entry is a file with the digest of the entry; nothing else changes. *)
Lemma place_ok dest backed e fs fs' u digest :
  (backed = false -> forall n, io_flushed n = true) ->
  plain (parent dest) -> open_path fs (parent dest) -> below (parent dest) dest -> entry_valid backed e ->
  member e "sha256" = Some (JString digest) ->
  place_entry dest backed store e fs = (fs', TOk u) ->
  files fs !! dest <> Some Dir
  /\ exists data, files fs' !! dest = Some (File data) /\ sha256_bytes data = digest
  /\ forall q, q <> dest -> files fs' !! q = files fs !! q.
Proof.
  intros Hflush Hpl Ho Hb (d & Hd & Hvd & Hin) Hdig Hp. assert (d = digest) as -> by congruence. clear Hd.
  unfold place_entry in Hp. destruct backed.
  - apply io_bind_ok in Hp as (? & oid & [= <- _] & Hp). apply io_bind_ok in Hp as (? & d' & [= <- Hd'] & Hp).
    apply io_bind_ok in Hp as (? & size & [= <- _] & Hp). unfold at_ in Hd'. rewrite Hdig, dec_string_of in Hd'.
    injection Hd' as <-. destruct store as [st|]; [|done]. destruct (HS st eq_refl) as [_ Hm]. by eapply Hm.
  - apply io_bind_ok in Hp as (? & bytes & [= <- Hbytes] & Hp). apply io_bind_ok in Hp as (fs1 & ok & Hw & Hp).
    injection Hp as <- Hg. apply tguard_ok, negb_false_iff in Hg. subst ok. apply write_file_ok in Hw as [Hcan Hf]; [|by apply Hflush].
    split.
    + intros Hdir. unfold can_create in Hcan. rewrite (is_dir_lookup _ _ Hdir), andb_false_r in Hcan. done.
    + exists bytes. rewrite Hf, lookup_insert_eq. split_and!; [done|by apply Hin|].
      intros q Hq. by rewrite lookup_insert_ne.
Qed.

Definition entry_dest (stage : path) (e : Json) (q : path) : Prop :=
  exists relative, at_ dec_string e "path" = TOk relative /\ q = join stage relative.
(** The files below the stage are those of the entries so far. *)
Record staged (stage : path) (entries : list Json) (fs : FS) : Prop := {
  sg_open : open_path fs stage;
  sg_only : forall q data, below stage q -> files fs !! q = Some (File data) ->
    exists e, e ∈ entries /\ entry_dest stage e q /\ member e "sha256" = Some (JString (sha256_bytes data));
  sg_all : forall e q, e ∈ entries -> entry_dest stage e q -> exists data, files fs !! q = Some (File data) }.

Lemma stage_entry_staged stage backed e entries fs fs' u : (backed = false -> forall n, io_flushed n = true) -> plain stage -> dotless stage ->
  entry_valid backed e -> path_safe e ->
  staged stage entries fs -> stage_entry stage backed store e fs = (fs', TOk u) ->
  staged stage (entries ++ [e]) fs'.
Proof.
  intros Hflush Hs Hdot Hv Hsafe Hst He.
  pose proof (always_run _ _ _ _ _ (stage_entry_within store (HS := HS) stage backed e Hs Hdot Hsafe) He) as Hw.
  destruct (Hw (sg_open _ _ _ Hst)) as [Hopen _]. unfold stage_entry in He.
  apply io_bind_ok in He as (? & relative & [= <- Hrel] & He).
  destruct (destination_facts stage relative Hs Hdot (Hsafe _ Hrel)) as (_ & Hpl & Hpre & Hbel & Hbp). cbv zeta in *.
  apply io_bind_ok in He as (fs1 & created & Hcr & He). apply io_bind_ok in He as (? & ? & Hg & He).
  injection Hg as <- Hg. apply tguard_ok, bool_decide_eq_false in Hg. destruct created as [b|]; [|done].
  pose proof (create_below stage _ fs Hpl Hpre (sg_open _ _ _ Hst)) as Hmade. rewrite Hcr in Hmade. simpl in Hmade.
  destruct Hv as (digest & Hd & Hrest).
  destruct (place_ok _ _ _ _ _ _ digest Hflush Hpl (create_ok _ _ _ _ Hpl Hcr) Hbp (ex_intro _ digest (conj Hd Hrest)) Hd He)
    as (Hnd & data & Hdata & Hsha & Hother).
  set (dest := join stage relative) in *.
  assert (Hfile : forall q d, q <> dest -> files fs' !! q = Some (File d) <-> files fs !! q = Some (File d)).
  { intros q d Hq. rewrite Hother by done. destruct (Hmade q) as [->|(_ & Hn & Hdir)]; [done|].
    rewrite Hn, Hdir. done. }
  split; [done| |].
  - intros q d Hq Hf. destruct (decide (q = dest)) as [->|Hne].
    + exists e. split_and!; [set_solver|by exists relative|]. congruence.
    + apply Hfile in Hf; [|done]. destruct (sg_only _ _ _ Hst q d Hq Hf) as (e' & Hin & He'). exists e'.
      split; [set_solver|done].
  - intros e' q Hin Hq. destruct (decide (q = dest)) as [->|Hne]; [by eexists|].
    apply elem_of_app in Hin as [Hin|Hin].
    + destruct (sg_all _ _ _ Hst e' q Hin Hq) as [d Hd']. exists d. by apply Hfile.
    + apply list_elem_of_singleton in Hin as ->. destruct Hq as (rel' & Hrel' & ->). exfalso. apply Hne.
      unfold dest. congruence.
Qed.
Lemma stage_iter_staged stage backed l : (backed = false -> forall n, io_flushed n = true) -> plain stage -> dotless stage -> Forall (entry_valid backed) l ->
  Forall path_safe l ->
  forall entries fs fs' u, staged stage entries fs -> io_iter (stage_entry stage backed store) l fs = (fs', TOk u) ->
  staged stage (entries ++ l) fs'.
Proof.
  intros Hflush Hs Hdot Hl. induction Hl as [|e l He Hl IH]; intros Hp entries fs fs' u Hst Hi; cbn [io_iter] in Hi.
  { injection Hi as <- _. by rewrite app_nil_r. }
  apply io_bind_ok in Hi as (fs1 & ? & He1 & Hi).
  rewrite (app_assoc entries [e] l : entries ++ e :: l = (entries ++ [e]) ++ l).
  apply Forall_cons in Hp as [Hpe Hp]. eapply IH; [done| |exact Hi]. by eapply stage_entry_staged.
Qed.
(** The file of an entry that shares its destination with no other. *)
Lemma staged_entries stage l fs : plain stage -> dotless stage -> Forall path_safe l -> staged stage l fs ->
  staged stage l fs
  /\ forall e q, e ∈ l -> entry_dest stage e q -> (forall e', e' ∈ l -> entry_dest stage e' q -> e' = e) ->
       exists data, files fs !! q = Some (File data) /\ member e "sha256" = Some (JString (sha256_bytes data)).
Proof.
  intros Hs Hdot Hsafe Hst. split; [done|]. intros e q Hin Hq Huniq.
  destruct (sg_all _ _ _ Hst e q Hin Hq) as [data Hdata]. exists data. split; [done|].
  assert (Hbel : below stage q).
  { destruct Hq as (relative & Hrel & ->). rewrite Forall_forall in Hsafe.
    by destruct (destination_facts stage relative Hs Hdot (Hsafe e Hin _ Hrel)) as (_ & _ & _ & ? & _). }
  destruct (sg_only _ _ _ Hst q data Hbel Hdata) as (e' & Hin' & Hq' & Hd). by rewrite <- (Huniq e' Hin' Hq').
Qed.
End Contents.

(** C20: when staging succeeds, the stage holds exactly the files of the manifest: every regular file
    below it is the destination of an entry and its content has the SHA-256 digest the entry
    states; every entry has its file, with the digest of that entry when no other entry names the same
    destination (paths such as [a//b] and [a/b] do, see the findings).  The version of the manifest is a
    number an [unsigned] represents, and for inline content no write is lost when a
    stream is closed, which the code does not check (see the findings on both). *)
Theorem stage_integrity {L : JsonLib} {HL : JsonLaws L} `{BytesLib} {E : FileEnv} manifest root run_id work_id
    attempt_id limits store v fs fs' stage :
  (forall st, store = Some st -> ArtifactStoreLaws st) -> plain root -> dotless root ->
  member manifest "version" = Some (JUnsigned v) -> 0 <= v <= u32_max ->
  (v <> 2 -> forall n, io_flushed n = true) ->
  stage_workspace manifest root run_id work_id attempt_id limits store fs = (fs', TOk stage) ->
  stage = stage_dir root run_id work_id attempt_id
  /\ exists l, manifest_files manifest = TOk l /\ staged stage l fs'
  /\ forall e q, e ∈ l -> entry_dest stage e q -> (forall e', e' ∈ l -> entry_dest stage e' q -> e' = e) ->
       exists data, files fs' !! q = Some (File data) /\ member e "sha256" = Some (JString (sha256_bytes data)).
Proof.
  intros HS Hroot Hdot Hv Hr Hflush Hst. unfold stage_workspace in Hst. apply io_bind_ok in Hst as (? & backed & Hc & Hst).
  injection Hc as <- Hc. apply stage_checks_safe in Hc as Hsafe. destruct Hsafe as (Hsafe & H1 & H2 & H3).
  destruct (stage_path_dir root run_id work_id attempt_id Hdot H1 H2 H3) as [Hdir Hd]. rewrite Hdir in Hst.
  apply io_bind_ok in Hst as (fs1 & u1 & Hmk & Hst).
  apply io_bind_ok in Hst as (fs2 & u2 & Hf & Hst). injection Hst as <- <-. split; [done|].
  pose proof (stage_dir_plain root run_id work_id attempt_id Hroot) as Hpl.
  destruct (stage_checks_valid _ _ _ _ _ _ _ _ Hv Hr Hc) as (Hb & l & Hl & Hval). exists l. split; [done|].
  apply (staged_entries (stage_dir root run_id work_id attempt_id) l fs2); [by apply stage_dir_plain|done|by apply Hsafe|].
  apply make_stage_ok in Hmk as [Ho Hnone]; [|done]. unfold stage_files, io_cleanup in Hf.
  destruct (stage_loop _ _ _ _ fs1) as [fs3 [u3|x]] eqn:Hloop; [|by repeat case_match].
  injection Hf as <- _. unfold stage_loop in Hloop. apply io_bind_ok in Hloop as (? & l' & [= <- Hl'] & Hloop).
  rewrite Hl in Hl'. injection Hl' as <-.
  eapply (stage_iter_staged store (HS := HS) _ backed l ltac:(subst backed; intros Hv2%Z.eqb_neq; by apply Hflush) Hpl Hd Hval (Hsafe _ Hl) []); [|exact Hloop].
  split; [done| |].
  - intros q data Hq Hfile. by rewrite (Hnone q Hq) in Hfile.
  - intros e q Hin. by apply elem_of_nil in Hin.
Qed.

(** ** A workspace *)

Definition reliable_files : FileEnv :=
  {| io_ok := fun _ => true; io_partial := fun _ data => data; io_flushed := fun _ => true;
     io_eexist := fun _ => false; io_kept := fun _ _ => false |}.
Definition strict_bytes : BytesLib := {| get_bytes := fun j =>
  match j with
  | JArray l => mapM (fun x => match x with JUnsigned z => Byte.of_N (Z.to_N z) | _ => None end) l
  | _ => None
  end |}.
Definition sample_manifest : Json := mk_object [
  ("version", JUnsigned 1);
  ("files", JArray [mk_object [
     ("path", JString "src/main.txt");
     ("sha256", JString "ba7816bf8f01cfea414140de5dae2223b00361a396177a9cb410ff61f20015ad");
     ("data", JArray [JUnsigned 97; JUnsigned 98; JUnsigned 99])]])]%string.
Definition sample_stage : FS * tres path :=
  stage_workspace (H := strict_json) (H0 := strict_bytes) (E := reliable_files) sample_manifest ["var"; "stage"]%string
    "r1" "w1" "a1" default_limits None (mkFS ∅ 0).

Lemma sample_stage_ok : exists fs', sample_stage = (fs', TOk ["var"; "stage"; "run-r1"; "work-w1"; "attempt-a1"]%string)
  /\ files fs' !! ["var"; "stage"; "run-r1"; "work-w1"; "attempt-a1"; "src"; "main.txt"]%string = Some (File (bytes_of "abc")).
Proof.
  exists sample_stage.1. split; [|vm_compute; reflexivity].
  rewrite (surjective_pairing sample_stage) at 1. apply (f_equal (pair _)). vm_compute. reflexivity.
Qed.

Lemma stage_integrity_witness : exists fs' l,
  sample_stage = (fs', TOk ["var"; "stage"; "run-r1"; "work-w1"; "attempt-a1"]%string)
  /\ manifest_files sample_manifest = TOk l
  /\ staged (L := strict_json) ["var"; "stage"; "run-r1"; "work-w1"; "attempt-a1"]%string l fs'.
Proof.
  assert (Hflush : 1 <> 2 -> forall n : nat, @io_flushed reliable_files n = true) by done.
  assert (Hver : member sample_manifest "version" = Some (JUnsigned 1)) by reflexivity.
  assert (Hroot : plain ["var"; "stage"]%string) by (by repeat constructor).
  assert (Hdot : dotless ["var"; "stage"]%string) by (by repeat constructor).
  assert (Hr : 0 <= 1 <= u32_max) by done.
  assert (Hnone : forall st, (None : option ArtifactStore) = Some st -> @ArtifactStoreLaws reliable_files st) by done.
  destruct sample_stage_ok as (fs' & Hst & _). exists fs'.
  pose proof (stage_integrity (HL := strict_json_laws) (H := strict_bytes) (E := reliable_files) sample_manifest
                ["var"; "stage"]%string "r1" "w1" "a1" default_limits None 1 (mkFS ∅ 0) fs'
                ["var"; "stage"; "run-r1"; "work-w1"; "attempt-a1"]%string Hnone Hroot Hdot Hver Hr Hflush) as Hi.
  specialize (Hi Hst) as [_ (l & Hl & Hs & _)]. exists l. split; [exact Hst|]. split; [exact Hl|exact Hs].
Defined.
Lemma stage_confined_witness :
  (plain ["var"; "stage"]%string /\ dotless ["var"; "stage"]%string)
  /\ outside (stage_dir ["var"; "stage"]%string "r1" "w1" "a1") (mkFS ∅ 0) sample_stage.1.
Proof.
  split; [split; by repeat constructor|].
  apply (stage_confined (H := strict_json) (H0 := strict_bytes) (E := reliable_files) sample_manifest ["var"; "stage"]%string
           "r1" "w1" "a1" default_limits None (mkFS ∅ 0)); [done|by repeat constructor..].
Defined.
