(* ===== verification/Artifacts.v ===== *)
(** * The local artifact store

    [LocalArtifactStore] of [src/core/artifacts.cpp]: content-addressed objects under
    [objects/], uploads through [temp/], their artifact records in the store, verification,
    materialisation and garbage collection.  Reads of a file are cut into the buffers the code uses
    before they reach the hash.  [ArtifactEnv] holds the identifiers, the clock, the ages of files
    and the calls that may fail. *)

From S2P Require Import Prelude Json Text Db Coordination Codec Worker Store Rows Effects Files Sha256 Workspace.
From Stdlib Require Import Strings.Byte Ascii.

(** ** Artifact records *)

Record Artifact := mkArtifact {
  af_id : string; af_run_id : string; af_node_id : string; af_name : string; af_media_type : string;
  af_location : string; af_object_id : string; af_sha256 : string; af_created_at : string; af_size : Z;
  af_metadata : Json }.
#[global] Instance eta_Artifact : Eta Artifact := fun r =>
  mkArtifact (af_id r) (af_run_id r) (af_node_id r) (af_name r) (af_media_type r) (af_location r)
    (af_object_id r) (af_sha256 r) (af_created_at r) (af_size r) (af_metadata r).
Definition artifact_to_json (a : Artifact) : Json := mk_object [
  ("id", JString (af_id a)); ("run_id", JString (af_run_id a)); ("node_id", JString (af_node_id a));
  ("name", JString (af_name a)); ("media_type", JString (af_media_type a)); ("location", JString (af_location a));
  ("object_id", JString (af_object_id a)); ("sha256", JString (af_sha256 a)); ("size", JUnsigned (af_size a));
  ("created_at", JString (af_created_at a)); ("metadata", af_metadata a)]%string.
Definition artifact_of_json `{JsonLib} (fresh now : string) (j : Json) : tres Artifact :=
  x_id ← value_ dec_string j "id" fresh;
  x_run_id ← value_ dec_string j "run_id" ""%string;
  x_node_id ← value_ dec_string j "node_id" ""%string;
  x_name ← value_ dec_string j "name" ""%string;
  x_media_type ← value_ dec_string j "media_type" ""%string;
  x_location ← value_ dec_string j "location" ""%string;
  x_object_id ← value_ dec_string j "object_id" ""%string;
  x_sha256 ← value_ dec_string j "sha256" ""%string;
  x_size ← value_ dec_u64 j "size" 0;
  x_created_at ← value_ dec_string j "created_at" now;
  x_metadata ← value_ dec_json j "metadata" (JObject []);
  TOk (mkArtifact x_id x_run_id x_node_id x_name x_media_type x_location x_object_id x_sha256 x_created_at x_size
         x_metadata).

(** ** State and environment *)

Record ArtifactStoreLimits := mkArtifactLimits {
  max_object_bytes : Z; max_temp_bytes : Z; cleanup_grace_seconds : Z }.

Class ArtifactEnv := {
  af_files :: FileEnv;
  af_uuid : nat -> string;
  af_timestamp : nat -> string;
  (** The age of a file, in seconds, as the n-th call finds it. *)
  af_age : nat -> path -> Z }.

Record AW := mkAW { aw_fs : FS; aw_db : DB }.
#[global] Instance eta_AW : Eta AW := fun r => mkAW (aw_fs r) (aw_db r).
Abbreviation AIO := (IO AW).

(** The pieces of at most [n] bytes a reader sees. *)
Fixpoint chunks (fuel n : nat) (data : list byte) : list (list byte) :=
  match fuel, data with
  | S fuel, _ :: _ => take n data :: chunks fuel n (drop n data)
  | _, _ => []
  end.
Definition read_buffer : nat := 1024 * 1024.
Definition hash_data (data : list byte) : string := sha256_chunks (chunks (length data) read_buffer data).

(** [validate_object_id]: the digest of an object id, with or without its prefix. *)
Definition strip_prefix (prefix value : string) : string :=
  if String.prefix prefix value
  then String.substring (String.length prefix) (String.length value - String.length prefix) value else value.
Definition validate_object_id (object_id : string) : tres string :=
  let hex := strip_prefix "sha256:" object_id in
  _ ← tguard (negb (valid_digest hex)) Validation "Invalid artifact object identifier";
  TOk hex.

Section LocalStore.
Context `{JsonLib} {E : ArtifactEnv} (root : path) (limits : ArtifactStoreLimits).

Definition on_files {A} (m : FIO A) : AIO A := fun w =>
  let '(fs, r) := m (aw_fs w) in (w <| aw_fs := fs |>, r).
Definition on_store {A} (m : M DB A) : AIO A := fun w =>
  let '(db, r) := m (aw_db w) in (w <| aw_db := db |>, of_res r).

(** A call whose outcome is all that matters ([fsync], [lseek], ...). *)
Definition call_ok : FIO bool := n ← io_call; mret (io_ok n).
Definition fresh_name : FIO string := n ← io_call; mret (af_uuid n).

Definition hex_path (hex : string) : path :=
  root ++ ["objects"%string; String.substring 0 2 hex; String.substring 2 (String.length hex - 2) hex].
Definition object_path (object_id : string) : tres path :=
  hex ← validate_object_id object_id; TOk (hex_path hex).
Definition temp_path (name : string) : path := root ++ ["temp"; "upload-" ++ name]%string.

(** [open(O_CREAT | O_EXCL)] and [write_all] *)
Definition open_excl (p : path) (cannot : string) : FIO unit :=
  n ← io_call;
  fs ← io_get;
  _ ← io_guard (bool_decide (is_Some (files fs !! p)) || negb (can_create fs p && io_ok n)) StorageError cannot;
  put_entry p (File []).
Definition write_all (p : path) (data : list byte) : FIO unit :=
  n ← io_call;
  _ ← put_entry p (File (if io_ok n then data else io_partial n data));
  io_guard (negb (io_ok n)) StorageError "Artifact write failed".
(** A call whose failure is an error. *)
Definition must (c : ErrorCode) (failed : string) : FIO unit := ok ← call_ok; io_guard (negb ok) c failed.

Definition regular_file (p : path) : FIO bool :=
  n ← io_call;
  fs ← io_get;
  mret (io_ok n && match files fs !! p with Some (File _) => true | _ => false end).

Definition exists_object (object_id : string) : FIO bool :=
  match object_path object_id with
  | TOk p => regular_file p
  | TThrow (TError _) => mret false
  | TThrow x => io_lift (TThrow x)
  end.

Definition verify (object_id expected_sha256 : string) (expected_size : Z) : FIO unit :=
  p ← io_lift (object_path object_id);
  n ← io_call;
  fs ← io_get;
  _ ← io_guard (negb (io_ok n && bool_decide (is_Some (files fs !! p)))) NotFound "Artifact object is missing";
  data ← match files fs !! p with
         | Some (File data) => mret data
         | _ => io_throw Validation "Artifact object is not a regular file"
         end;
  _ ← must StorageError "Unable to read artifact";
  expected ← io_lift (if empty_str expected_sha256 then validate_object_id object_id
                      else validate_object_id expected_sha256);
  io_guard (negb (String.eqb (hash_data data) expected)
            || (negb (expected_size =? 0) && negb (Z.of_nat (length data) =? expected_size)))
    Conflict "Artifact object integrity check failed".

(** The name of the temporary file next to the destination. *)
Definition sibling (p : path) (suffix : string) : path :=
  match last p with Some c => parent p ++ [(c ++ ".tmp-" ++ suffix)%string] | None => [] end.

(** The copy goes to a temporary file first and is renamed when it is complete. *)
Definition copy_out (data : list byte) (destination : path) : FIO unit :=
  name ← fresh_name;
  let temporary := sibling destination name in
  _ ← open_excl temporary "Unable to create artifact materialization";
  io_cleanup
    (_ ← must StorageError "Unable to read artifact object";
     _ ← write_all temporary data;
     _ ← must StorageError "Unable to flush materialized artifact";
     moved ← rename temporary destination;
     io_guard (negb moved) StorageError "Unable to finalize materialized artifact")
    (remove temporary).
Definition materialize_local (object_id : string) (destination : path) (expected_sha256 : string)
    (expected_size : Z) : FIO unit :=
  _ ← verify object_id expected_sha256 expected_size;
  created ← create_directories (parent destination);
  _ ← io_guard (bool_decide (created = None)) StorageError "Unable to create artifact destination";
  p ← io_lift (object_path object_id);
  source ← read_regular p;
  match source with
  | Some data => copy_out data destination
  | None => io_throw NotFound "Artifact object is missing"
  end.
Definition local_store : ArtifactStore := {| materialize := materialize_local |}.

(** ** Uploads *)

(** The loop that copies and hashes the source. *)
Fixpoint copy_loop (temp : path) (written : list byte) (total : Z) (l : list (list byte)) : FIO Z :=
  _ ← must StorageError "Unable to read artifact source";
  match l with
  | [] => mret total
  | c :: l =>
      let total := u64 (total + Z.of_nat (length c)) in
      _ ← io_guard (max_object_bytes limits <? total) Validation "Artifact exceeds the configured object limit";
      _ ← write_all temp (written ++ c);
      copy_loop temp (written ++ c) total l
  end.

(** [std::filesystem::create_directories(p)] and [std::filesystem::remove(p)], which throw. *)
Definition create_or_throw (p : path) : FIO unit :=
  created ← create_directories p;
  match created with Some _ => mret tt | None => io_lift (TThrow TStd) end.
Definition remove_or_throw (p : path) : FIO unit :=
  n ← io_call;
  if io_ok n then io_modify (fun fs => fs <| files := delete p (files fs) |>) else io_lift (TThrow TStd).

(** The upload becomes the object, unless the object is there already. *)
Definition reuse_object (temp : path) (digest : string) (total : Z) : FIO unit :=
  _ ← verify ("sha256:" ++ digest)%string digest total;
  remove_or_throw temp.
Definition place_object (temp final : path) (digest : string) (total : Z) : FIO unit :=
  present ← regular_file final;
  if (present : bool) then reuse_object temp digest total
  else
    moved ← rename temp final;
    _ ← (if (moved : bool) then mret tt
         else
           errno ← io_call;
           _ ← io_guard (negb (io_eexist errno)) StorageError "Unable to finalize artifact object";
           reuse_object temp digest total);
    _ ← must StorageError "Cannot open artifact directory";
    must StorageError "Artifact directory flush failed".
(** The copy, its digest and its place; the digest and the size are returned. *)
Definition store_object (temp : path) (data : list byte) (source_size : Z) : FIO (string * Z) :=
  let pieces := chunks (length data) read_buffer data in
  total ← copy_loop temp [] 0 pieces;
  _ ← io_guard (negb (total =? source_size)) StorageError "Artifact source changed during upload";
  _ ← must StorageError "Artifact object flush failed";
  let digest := sha256_chunks pieces in
  final ← io_lift (object_path ("sha256:" ++ digest)%string);
  _ ← create_or_throw (parent final);
  _ ← place_object temp final digest total;
  mret (digest, total).

Definition put_fd (metadata : Artifact) (data : list byte) (source_size : Z) : AIO Artifact :=
  _ ← io_guard (max_object_bytes limits <? source_size) Validation "Artifact exceeds the configured object limit";
  _ ← on_files (must StorageError "Unable to seek artifact source");
  name ← on_files fresh_name;
  let temp := temp_path name in
  _ ← on_files (open_excl temp "Unable to create artifact object");
  io_cleanup
    (stored ← on_files (store_object temp data source_size);
     id ← on_files fresh_name;
     let metadata := ((((metadata <| af_id := id |>) <| af_object_id := ("sha256:" ++ stored.1)%string |>)
       <| af_sha256 := stored.1 |>) <| af_size := stored.2 |>) <| af_location := ""%string |> in
     n ← on_files io_call;
     _ ← on_store (commit (af_uuid n) (af_timestamp n)
                     [mkRecord KArtifact (af_id metadata) (af_run_id metadata) (artifact_to_json metadata)]);
     mret metadata)
    (on_files (remove temp)).

Definition put (metadata : Artifact) (bytes : list byte) : AIO Artifact :=
  let size := Z.of_nat (length bytes) in
  _ ← io_guard (max_object_bytes limits <? size) Validation "Artifact exceeds the configured object limit";
  name ← on_files fresh_name;
  let temp := temp_path name in
  _ ← on_files (open_excl temp "Unable to create artifact temporary object");
  io_cleanup
    (_ ← on_files (write_all temp bytes);
     _ ← on_files (must StorageError "Artifact temporary flush failed");
     source ← on_files (read_regular temp);
     data ← match source with
            | Some data => mret data
            | None => io_throw StorageError "Unable to reopen artifact temporary object"
            end;
     result ← put_fd metadata data size;
     _ ← on_files (remove_or_throw temp);
     mret result)
    (on_files (remove temp)).

Definition put_file (metadata : Artifact) (source : path) : AIO Artifact :=
  n ← on_files io_call;
  fs ← on_files io_get;
  _ ← io_guard (negb (io_ok n && bool_decide (is_Some (files fs !! source)))) StorageError
        "Unable to open artifact source";
  data ← match files fs !! source with
         | Some (File data) => mret data
         | _ => io_throw Validation "Artifact source is not a regular file"
         end;
  let size := Z.of_nat (length data) in
  _ ← io_guard (max_object_bytes limits <? size) Validation "Artifact exceeds the configured object limit";
  put_fd metadata data size.

(** ** Garbage *)

Definition artifact_page : Z := 10000.
Fixpoint artifact_pages (fuel : nat) (offset : Z) : AIO (list Json) :=
  match fuel with
  | O => io_throw StorageError "Too many artifact records"
  | S fuel =>
      page ← on_store (list_records KArtifact "" artifact_page offset);
      if Z.of_nat (length page) <? artifact_page then mret page
      else rest ← artifact_pages fuel (offset + artifact_page); mret (page ++ rest)
  end.
Definition max_artifact_pages : nat := Z.to_nat 10002.
Fixpoint live_objects (fresh now : string) (l : list Json) : tres (gset string) :=
  match l with
  | [] => TOk ∅
  | j :: l =>
      a ← artifact_of_json fresh now j;
      live ← (if empty_str (af_object_id a) then TOk ∅
              else hex ← validate_object_id (af_object_id a); TOk {[hex]});
      rest ← live_objects fresh now l;
      TOk (live ∪ rest)
  end.

(** The regular files at or below a directory. *)
Definition regular_below (fs : FS) (dir : path) : list path :=
  omap (fun kv => match kv.2 with File _ => if decide (dir `prefix_of` kv.1) then Some kv.1 else None | Dir => None end)
    (map_to_list (files fs)).
Definition object_name (p : path) : option (string * string) :=
  match last (parent p), last p with
  | Some d, Some f => if (size_of d =? 2) && (size_of f =? 62) then Some (d, f) else None
  | _, _ => None
  end.
Fixpoint sweep (dry_run : bool) (grace : Z) (live : gset string) (l : list path) (counts : Z * Z) : FIO (Z * Z) :=
  match l with
  | [] => mret counts
  | p :: l =>
      match object_name p with
      | None => sweep dry_run grace live l counts
      | Some (d, f) =>
          if bool_decide ((d ++ f)%string ∈ live) then sweep dry_run grace live l counts
          else
            n ← io_call;
            if af_age n p <? grace then sweep dry_run grace live l counts
            else
              removed ← (if dry_run then mret false else _ ← remove p; fs ← io_get;
                           mret (bool_decide (files fs !! p = None)));
              sweep dry_run grace live l (counts.1 + 1, if (removed : bool) then counts.2 + 1 else counts.2)
      end
  end.
Definition cleanup_temporary : FIO unit :=
  ok ← call_ok;
  fs ← io_get;
  let entries := if (ok : bool) then filter (fun p => parent p = root ++ ["temp"%string]) (regular_below fs (root ++ ["temp"%string]))
                 else [] in
  io_iter (fun p => n ← io_call; if cleanup_grace_seconds limits <=? af_age n p then remove p else mret tt) entries.

(** The sweep, once the live objects are known. *)
Definition gc_live (dry_run : bool) (grace : Z) (live : gset string) : AIO Json :=
  ok ← on_files call_ok;
  fs ← on_files io_get;
  counts ← on_files (sweep dry_run grace live
                       (if (ok : bool) then regular_below fs (root ++ ["objects"%string]) else []) (0, 0));
  _ ← on_files cleanup_temporary;
  mret (mk_object [("dry_run", JBool dry_run); ("live_objects", JUnsigned (Z.of_nat (size live)));
                   ("eligible", JUnsigned counts.1); ("removed", JUnsigned counts.2)]%string).
(** One collection with no upload beside it: the code holds no lock between the listing of the records and the
    removal of the files. *)
Definition collect_garbage (dry_run : bool) (grace_seconds : Z) : AIO Json :=
  let grace := if grace_seconds =? 0 then cleanup_grace_seconds limits else grace_seconds in
  l ← artifact_pages max_artifact_pages 0;
  n ← on_files io_call;
  live ← io_lift (live_objects (af_uuid n) (af_timestamp n) l);
  gc_live dry_run grace live.
End LocalStore.

(** ** Hashes and names *)

Lemma chunks_concat n fuel : (0 < n)%nat -> forall data, (length data <= fuel)%nat -> concat (chunks fuel n data) = data.
Proof.
  intros Hn. induction fuel as [|fuel IH]; intros data Hf; [by destruct data; [|simpl in Hf; lia]|].
  destruct data as [|b data]; [done|]. cbn [chunks concat].
  rewrite IH by (rewrite length_drop; simpl in *; lia). by rewrite take_drop.
Qed.
Lemma hash_data_bytes data : hash_data data = sha256_bytes data.
Proof.
  unfold hash_data. rewrite sha256_chunks_concat, chunks_concat; [done| |done]. unfold read_buffer. lia.
Qed.

Lemma prefix_cons c s d t : String.prefix (String c s) (String d t) = true -> c = d.
Proof. simpl. by destruct (ascii_dec c d). Qed.
Lemma digest_not_prefixed value : valid_digest value = true -> strip_prefix "sha256:" value = value.
Proof.
  intros Hv. unfold strip_prefix. destruct (String.prefix "sha256:" value) eqn:Hp; [|done]. exfalso.
  unfold valid_digest in Hv. apply andb_true_iff in Hv as [_ Hv]. destruct value as [|d value]; [done|].
  apply prefix_cons in Hp as <-. done.
Qed.
Lemma validate_digest value : valid_digest value = true -> validate_object_id value = TOk value.
Proof.
  intros Hv. unfold validate_object_id. rewrite digest_not_prefixed by done. by rewrite Hv.
Qed.
Lemma prefix_app prefix value : String.prefix prefix (prefix ++ value)%string = true.
Proof. induction prefix as [|c prefix IH]; [by destruct value|]. simpl. by destruct (ascii_dec c c). Qed.
Lemma substring_all value : String.substring 0 (String.length value) value = value.
Proof. induction value as [|c value IH]; [done|]. simpl. by rewrite IH. Qed.
Lemma substring_app prefix value n : String.substring (String.length prefix) n (prefix ++ value)%string = String.substring 0 n value.
Proof. induction prefix as [|c prefix IH]; [done|]. simpl. apply IH. Qed.
Lemma strip_prefix_app prefix value : strip_prefix prefix (prefix ++ value)%string = value.
Proof.
  unfold strip_prefix. rewrite prefix_app, substring_app.
  assert (Hlen : String.length (prefix ++ value)%string = (String.length prefix + String.length value)%nat).
  { clear. induction prefix as [|c prefix IH]; [done|]. simpl. by rewrite IH. }
  rewrite Hlen, Nat.add_comm, Nat.add_sub. apply substring_all.
Qed.
Lemma validate_object digest : valid_digest digest = true -> validate_object_id ("sha256:" ++ digest)%string = TOk digest.
Proof. intros Hv. unfold validate_object_id. rewrite strip_prefix_app. by rewrite Hv. Qed.

#[local] Opaque sha256_bytes sha256_chunks.

Section LocalProofs.
Context `{JsonLib} {E : ArtifactEnv} (root : path) (limits : ArtifactStoreLimits).

(** Calls that only count. *)
Definition untouched (fs fs' : FS) : Prop := files fs' = files fs.
#[global] Instance untouched_preorder : PreOrder untouched.
Proof. split; [done|]. intros a b c Hab Hbc. unfold untouched in *. congruence. Qed.
Lemma untouched_call : Always untouched io_call.
Proof. done. Qed.
Lemma untouched_must c failed : Always untouched (must c failed).
Proof. done. Qed.
Lemma untouched_verify object_id digest size : Always untouched (verify root object_id digest size).
Proof.
  unfold verify. apply always_bind; [apply _|apply always_lift, _|]. intros p.
  apply always_bind; [apply _|apply untouched_call|]. intros n.
  apply always_bind; [apply _|apply always_get, _|]. intros fs.
  apply always_bind; [apply _|apply always_lift, _|]. intros _.
  apply always_bind; [apply _|repeat case_match; first [apply always_ret, _|apply always_lift, _]|]. intros data.
  apply always_bind; [apply _|apply untouched_must|]. intros _.
  apply always_bind; [apply _|apply always_lift, _|]. intros expected. apply always_lift, _.
Qed.
Lemma verify_ok object_id digest size fs fs' u : verify root object_id digest size fs = (fs', TOk u) ->
  exists p data expected, object_path root object_id = TOk p /\ files fs !! p = Some (File data)
    /\ (if empty_str digest then validate_object_id object_id else validate_object_id digest) = TOk expected
    /\ sha256_bytes data = expected /\ (size = 0 \/ Z.of_nat (length data) = size).
Proof.
  unfold verify. intros Hv. apply io_bind_ok in Hv as (? & p & [= <- Hp] & Hv).
  apply io_bind_ok in Hv as (fs1 & n & Hn & Hv). injection Hn as <- <-.
  apply io_bind_ok in Hv as (? & fs2 & Hg & Hv). injection Hg as <- <-.
  apply io_bind_ok in Hv as (fs3 & ? & Hg & Hv). injection Hg as <- _.
  apply io_bind_ok in Hv as (fs4 & data & Hd & Hv). simpl in Hd.
  destruct (files fs !! p) as [[data'|]|] eqn:Hf; [|done..]. injection Hd as <- <-.
  apply io_bind_ok in Hv as (fs5 & ? & _ & Hv). apply io_bind_ok in Hv as (fs6 & expected & He & Hv).
  injection He as <- He. unfold io_guard, io_lift in Hv. apply pair_equal_spec in Hv as [_ Hv].
  apply tguard_ok, orb_false_iff in Hv as [Hh Hs].
  apply negb_false_iff, String.eqb_eq in Hh. rewrite hash_data_bytes in Hh.
  exists p, data', expected. split_and!; try done. destruct (Z.eqb_spec size 0); [by left|right].
  simpl in Hs. apply negb_false_iff in Hs. by apply Z.eqb_eq.
Qed.

Lemma open_excl_ok p cannot fs fs' u : open_excl p cannot fs = (fs', TOk u) ->
  files fs !! p = None /\ files fs' = <[p := File []]> (files fs).
Proof.
  unfold open_excl. intros Ho. apply io_bind_ok in Ho as (fs1 & n & Hn & Ho). injection Hn as <- <-.
  apply io_bind_ok in Ho as (? & fs2 & Hg & Ho). injection Hg as <- <-.
  apply io_bind_ok in Ho as (fs3 & ? & Hg & Ho). injection Hg as <- Hg. apply tguard_ok, orb_false_iff in Hg as [Hg _].
  apply bool_decide_eq_false in Hg. injection Ho as <- _. split; [|done].
  destruct (files fs !! p) as [e|] eqn:Hp; [|done]. exfalso. apply Hg. by exists e.
Qed.
Lemma write_all_ok p data fs fs' u : write_all p data fs = (fs', TOk u) -> files fs' = <[p := File data]> (files fs).
Proof.
  unfold write_all. intros Hw. apply io_bind_ok in Hw as (fs1 & n & Hn & Hw). injection Hn as <- <-.
  apply io_bind_ok in Hw as (fs2 & ? & Hp & Hw). injection Hp as <-. injection Hw as <- Hg.
  apply tguard_ok, negb_false_iff in Hg. by rewrite Hg.
Qed.
Lemma rename_ok a b fs fs' : rename a b fs = (fs', TOk true) ->
  exists data, files fs !! a = Some (File data) /\ files fs !! b <> Some Dir
    /\ files fs' = <[b := File data]> (delete a (files fs)).
Proof.
  unfold rename, mbind, io_bind, io_call, io_get. simpl. destruct (files fs !! a) as [[data|]|] eqn:Ha; [|done..].
  destruct (can_create _ b && io_ok _) eqn:Hc; [|done]. simpl. intros [= <-]. exists data. split_and!; [done| |done].
  intros Hd. apply andb_true_iff in Hc as [Hc _]. unfold can_create in Hc. apply andb_true_iff in Hc as [_ Hc].
  rewrite is_dir_lookup in Hc; done.
Qed.
Lemma rename_failed a b fs fs' : rename a b fs = (fs', TOk false) -> files fs' = files fs.
Proof.
  unfold rename, mbind, io_bind, io_call, io_get. simpl. destruct (files fs !! a) as [[data|]|]; [|by intros [= <-]..].
  destruct (can_create _ b && io_ok _); [done|by intros [= <-]].
Qed.

Lemma sibling_below p name : below (parent p) p -> below (parent p) (sibling p name).
Proof.
  intros (k & Hk & Hp). unfold sibling. destruct (last p) as [c|] eqn:Hl.
  - by exists [(c ++ ".tmp-" ++ name)%string].
  - apply last_None in Hl. rewrite Hl in Hp. exfalso. symmetry in Hp. by apply app_eq_nil in Hp as [_ ?].
Qed.
Lemma untouched_confined P fs fs' : untouched fs fs' -> confined P fs fs'.
Proof. intros Hu q _. by rewrite Hu. Qed.

Lemma copy_out_confined data dest : below (parent dest) dest -> Always (confined (below (parent dest))) (copy_out data dest).
Proof.
  intros Hb. unfold copy_out. apply always_bind; [apply _|apply (always_mono _ _ _ (untouched_confined _)); done|]. intros name.
  pose proof (sibling_below dest name Hb) as Ht. cbv zeta. set (t := sibling dest name) in *.
  assert (Hmust : forall c m, Always (confined (below (parent dest))) (must c m))
    by (intros c m; by apply (always_mono _ _ _ (untouched_confined _))).
  apply always_bind; [apply _| |intros _].
  { unfold open_excl. apply always_bind; [apply _|apply confined_call|]. intros n.
    apply always_bind; [apply _|apply always_get, _|]. intros fs.
    apply always_bind; [apply _|apply always_lift, _|]. intros _. by apply confined_put. }
  apply always_cleanup; [apply _| |by apply confined_remove].
  apply always_bind; [apply _|apply Hmust|]. intros _. apply always_bind; [apply _| |intros _].
  { unfold write_all. apply always_bind; [apply _|apply confined_call|]. intros n.
    apply always_bind; [apply _|by apply confined_put|]. intros _. apply always_lift, _. }
  apply always_bind; [apply _|apply Hmust|]. intros _.
  apply always_bind; [apply _|by apply confined_rename|]. intros moved. apply always_lift, _.
Qed.
Lemma copy_out_ok data dest fs fs' u : copy_out data dest fs = (fs', TOk u) ->
  files fs !! dest <> Some Dir /\ files fs' !! dest = Some (File data)
  /\ forall q, q <> dest -> files fs' !! q = files fs !! q.
Proof.
  unfold copy_out. intros Hc. apply io_bind_ok in Hc as (fs1 & name & Hn & Hc). injection Hn as <- _.
  cbv zeta in Hc. set (t := sibling dest name) in *. apply io_bind_ok in Hc as (fs2 & ? & Ho & Hc).
  apply open_excl_ok in Ho as [Hnone H2]. simpl in Hnone, H2. apply io_cleanup_ok in Hc as Hbody.
  apply io_bind_ok in Hbody as (fs4 & ? & Hm & Hbody).
  apply (always_run _ _ _ _ _ (untouched_must _ _)) in Hm. apply io_bind_ok in Hbody as (fs5 & ? & Hw & Hbody).
  apply write_all_ok in Hw. apply io_bind_ok in Hbody as (fs6 & ? & Hm2 & Hbody).
  apply (always_run _ _ _ _ _ (untouched_must _ _)) in Hm2. apply io_bind_ok in Hbody as (fs7 & moved & Hr & Hbody).
  apply pair_equal_spec in Hbody as [<- Hg]. apply tguard_ok, negb_false_iff in Hg. subst moved.
  apply rename_ok in Hr as (data' & Hd & Hnd & Hf). unfold untouched in *. rewrite Hm2, Hw, Hm, H2 in Hd, Hnd, Hf.
  rewrite lookup_insert_eq in Hd. injection Hd as <-. split_and!.
  - destruct (decide (dest = t)) as [Heq|Hne]; [by rewrite Heq, Hnone|]. by rewrite !lookup_insert_ne in Hnd.
  - by rewrite Hf, lookup_insert_eq.
  - intros q Hq. rewrite Hf, lookup_insert_ne by done. destruct (decide (q = t)) as [Heq|Hne].
    + by rewrite Heq, lookup_delete_eq, Hnone.
    + by rewrite lookup_delete_ne, !lookup_insert_ne.
Qed.

(** The local store keeps the promises staging relies on. *)
#[global] Instance local_store_laws : ArtifactStoreLaws (local_store root).
Proof.
  assert (Hmade : forall object_id dest digest size fs,
    plain (parent dest) -> open_path fs (parent dest) -> exists fs1 r, verify root object_id digest size fs = (fs1, r)
      /\ files fs1 = files fs
      /\ match r with
         | TThrow x => materialize_local root object_id dest digest size fs = (fs1, TThrow x)
         | TOk _ => materialize_local root object_id dest digest size fs =
             (p ← io_lift (object_path root object_id); source ← read_regular p;
              match source with Some data => copy_out data dest
              | None => io_throw NotFound "Artifact object is missing" end) fs1
         end).
  { intros object_id dest digest size fs Hpl Ho. pose proof (untouched_verify object_id digest size fs) as Hu.
    unfold materialize_local. destruct (verify root object_id digest size fs) as [fs1 r] eqn:Hv.
    exists fs1, r. simpl in Hu. split_and!; [done..|]. destruct r as [[]|x]; [|unfold mbind, io_bind; by rewrite Hv].
    rewrite (io_bind_run _ _ _ _ _ Hv).
    assert (Ho1 : open_path fs1 (parent dest)).
    { intros q Hq. specialize (Ho q Hq). unfold is_dir in *. by rewrite Hu. }
    destruct (create_open _ _ Hpl Ho1) as [b Hc]. rewrite (io_bind_run _ _ _ _ _ Hc).
    by rewrite (io_bind_run _ _ fs1 fs1 tt eq_refl). }
  split; simpl.
  - intros object_id dest digest size fs Hpl Ho Hb.
    destruct (Hmade object_id dest digest size fs Hpl Ho) as (fs1 & r & _ & Hu & Hr).
    etransitivity; [apply untouched_confined, Hu|]. destruct r as [[]|x]; rewrite Hr; [|done]. clear Hr Hu. revert fs1.
    apply always_bind; [apply _|apply always_lift, _|]. intros p.
    apply always_bind; [apply _|by apply (always_mono _ _ _ (untouched_confined _))|]. intros source.
    destruct source; [by apply copy_out_confined|apply always_lift, _].
  - intros object_id dest digest size fs fs' u Hpl Ho Hb Hm Hv.
    destruct (Hmade object_id dest digest size fs Hpl Ho) as (fs1 & r & Hver & Hu & Hr).
    destruct r as [[]|x]; [|congruence]. rewrite Hr in Hm.
    apply verify_ok in Hver as (p & data & expected & Hp & Hf & He & Hsha & _).
    apply io_bind_ok in Hm as (? & p' & [= <- Hp'] & Hm). rewrite Hp in Hp'. injection Hp' as <-.
    apply io_bind_ok in Hm as (fs2 & source & Hs & Hm). unfold read_regular in Hs.
    apply io_bind_ok in Hs as (fs3 & n & Hn & Hs). injection Hn as <- <-. injection Hs as <- <-.
    rewrite Hu, Hf in Hm. destruct (io_ok _); [|done]. apply copy_out_ok in Hm as (Hnd & Hd & Hoth).
    simpl in Hnd, Hoth. rewrite Hu in *. split; [done|]. exists data. split_and!; [done| |done].
    destruct (empty_str digest) eqn:Hemp; [|rewrite validate_digest in He by done; congruence].
    unfold empty_str in Hemp. apply String.eqb_eq in Hemp as ->. done.
Qed.

(** ** Content addressing *)

(** Every object is stored under the digest of its content. *)
Definition objects_sound (fs : FS) : Prop := forall hex data, valid_digest hex = true ->
  files fs !! hex_path root hex = Some (File data) -> sha256_bytes data = hex.
(** The object files of [fs'] are object files of [fs]. *)
Definition objects_from (fs fs' : FS) : Prop := forall hex data,
  files fs' !! hex_path root hex = Some (File data) -> files fs !! hex_path root hex = Some (File data).
Lemma objects_from_sound fs fs' : objects_from fs fs' -> objects_sound fs -> objects_sound fs'.
Proof. intros Hf Hs hex data Hv Hd. apply Hs; [done|]. by apply Hf. Qed.
Lemma temp_not_object name hex : temp_path root name <> hex_path root hex.
Proof. intros Heq. apply (f_equal length) in Heq. unfold temp_path, hex_path in Heq. rewrite !length_app in Heq. simpl in Heq. lia. Qed.

Lemma copy_loop_ok temp l : forall written total fs fs' t,
  copy_loop limits temp written total l fs = (fs', TOk t) -> files fs !! temp = Some (File written) ->
  files fs' = <[temp := File (written ++ concat l)]> (files fs).
Proof.
  induction l as [|c l IH]; intros written total fs fs' t Hc Ht; cbn [copy_loop] in Hc;
    apply io_bind_ok in Hc as (fs1 & ? & Hm & Hc); apply (always_run _ _ _ _ _ (untouched_must _ _)) in Hm; unfold untouched in Hm.
  - injection Hc as <- _. rewrite Hm, app_nil_r. by rewrite insert_id.
  - apply io_bind_ok in Hc as (fs2 & ? & Hg & Hc). injection Hg as <- _.
    apply io_bind_ok in Hc as (fs3 & ? & Hw & Hc). apply write_all_ok in Hw.
    apply IH in Hc; [|by rewrite Hw, lookup_insert_eq]. rewrite Hc, Hw, Hm, insert_insert_eq, <- app_assoc. done.
Qed.
Lemma hex_path_plain hex : plain root -> valid_digest hex = true -> plain (hex_path root hex) /\ hex_path root hex <> [].
Proof.
  intros Hr Hv. unfold valid_digest in Hv. apply andb_true_iff in Hv as [Hv _]. apply Z.eqb_eq in Hv.
  destruct hex as [|c1 [|c2 [|c3 hex]]]; try (by unfold size_of in Hv; simpl in Hv).
  split; [|unfold hex_path; by destruct root]. apply Forall_app. split; [done|]. simpl. by repeat constructor.
Qed.
Lemma hex_path_split hex : valid_digest hex = true ->
  (String.substring 0 2 hex ++ String.substring 2 (String.length hex - 2) hex)%string = hex.
Proof.
  intros Hv. unfold valid_digest in Hv. apply andb_true_iff in Hv as [Hv _]. apply Z.eqb_eq in Hv.
  destruct hex as [|c1 [|c2 hex]]; [by unfold size_of in Hv; simpl in Hv..|]. simpl.
  rewrite Nat.sub_0_r, substring_all. by destruct hex.
Qed.
Lemma hex_path_inj hex hex' : valid_digest hex = true -> valid_digest hex' = true ->
  hex_path root hex = hex_path root hex' -> hex = hex'.
Proof.
  intros Hv Hv' Heq. unfold hex_path in Heq. apply app_inv_head in Heq. injection Heq as H1 H2.
  rewrite <- (hex_path_split hex Hv), <- (hex_path_split hex' Hv'). by rewrite H1, H2.
Qed.
Lemma made_file fs fs' P p data : made_dirs P fs fs' -> files fs' !! p = Some (File data) <-> files fs !! p = Some (File data).
Proof. intros Hm. destruct (Hm p) as [->|(_ & Hn & Hd)]; [done|]. rewrite Hn, Hd. done. Qed.

(** An object that is there already is verified, and the upload removed. *)
Lemma reuse_object_ok temp digest total fs fs' u : valid_digest digest = true ->
  (forall hex, temp <> hex_path root hex) -> objects_sound fs ->
  reuse_object root temp digest total fs = (fs', TOk u) ->
  objects_sound fs' /\ exists d, files fs' !! hex_path root digest = Some (File d) /\ sha256_bytes d = digest
    /\ files fs !! hex_path root digest = Some (File d).
Proof.
  intros Hv Htemp Hsound Hr. apply io_bind_ok in Hr as (fs2 & ? & Hver & Hrm).
  pose proof (always_run _ _ _ _ _ (untouched_verify _ _ _) Hver) as Hu. unfold untouched in Hu.
  apply verify_ok in Hver as (p & d & expected & Hp & Hd & He & Hsha & _).
  unfold object_path in Hp. rewrite validate_object in Hp by done. simpl in Hp. injection Hp as <-.
  assert (expected = digest) as -> by (destruct (empty_str digest);
    rewrite ?validate_object, ?validate_digest in He by done; congruence).
  unfold remove_or_throw in Hrm. apply io_bind_ok in Hrm as (fs3 & n & Hn & Hrm). injection Hn as <- <-.
  destruct (io_ok _); [|done]. injection Hrm as <-. split.
  - eapply objects_from_sound; [|exact Hsound]. intros hex d' Hd'. simpl in Hd'. by rewrite lookup_delete_ne, Hu in Hd'.
  - exists d. simpl. rewrite lookup_delete_ne, Hu by done. by split_and!.
Qed.
(** The object is in place: its content has the digest, and it is the upload when there was none. *)
Lemma place_object_ok temp data total fs fs' u : let digest := sha256_bytes data in
  (forall hex, temp <> hex_path root hex) -> files fs !! temp = Some (File data) -> objects_sound fs ->
  place_object root temp (hex_path root digest) digest total fs = (fs', TOk u) ->
  objects_sound fs' /\ exists d, files fs' !! hex_path root digest = Some (File d) /\ sha256_bytes d = digest
    /\ (files fs !! hex_path root digest = None -> d = data).
Proof.
  intros digest Htemp Ht Hsound Hplace. assert (Hv : valid_digest digest = true) by apply sha256_bytes_valid.
  unfold place_object in Hplace. apply io_bind_ok in Hplace as (fs1 & present & Hp & Hplace).
  assert (Hu1 : files fs1 = files fs).
  { unfold regular_file in Hp. apply io_bind_ok in Hp as (? & ? & [= <- _] & [= <- _]). done. }
  assert (Hs1 : objects_sound fs1) by (intros hex d; rewrite Hu1; apply Hsound).
  clear Hp. destruct present; simpl in Hplace.
  - apply reuse_object_ok in Hplace as (Hs' & d & Hd & Hsha & Hold); [|done..]. rewrite Hu1 in Hold. split; [done|].
    exists d. split_and!; [done..|congruence].
  - apply io_bind_ok in Hplace as (fs2 & moved & Hr & Hplace). apply io_bind_ok in Hplace as (fs4 & ? & Hg & Hplace).
    apply io_bind_ok in Hplace as (fs3 & ? & Hm1 & Hm2). apply (always_run _ _ _ _ _ (untouched_must _ _)) in Hm1, Hm2.
    unfold untouched in *. destruct moved.
    + injection Hg as <- _. apply rename_ok in Hr as (d & Hd & _ & Hf). rewrite Hu1, Ht in Hd. injection Hd as <-.
      rewrite <- Hm1, <- Hm2, Hu1 in Hf. split; [|exists data; by rewrite Hf, lookup_insert_eq].
      intros hex d' Hvx Hd'. rewrite Hf in Hd'. destruct (decide (hex_path root hex = hex_path root digest)) as [Heq|Hnx].
      * rewrite Heq, lookup_insert_eq in Hd'. injection Hd' as <-. symmetry. by apply hex_path_inj.
      * rewrite lookup_insert_ne, lookup_delete_ne in Hd' by (done || by apply not_eq_sym). by apply Hsound.
    + apply rename_failed in Hr. apply io_bind_ok in Hg as (fs5 & errno & [= <- _] & Hg).
      apply io_bind_ok in Hg as (fs6 & ? & [= <- _] & Hg).
      apply reuse_object_ok in Hg as (Hs' & d & Hd & Hsha & Hold); [|done|done|].
      * simpl in Hold. rewrite Hr, Hu1 in Hold. split; [|exists d; rewrite Hm2, Hm1; split_and!; [done..|congruence]].
        intros hex d'. rewrite Hm2, Hm1. apply Hs'.
      * intros hex d'. simpl. rewrite Hr. apply Hs1.
Qed.

Lemma store_object_ok temp data source_size fs fs' r : plain root -> (forall hex, temp <> hex_path root hex) ->
  files fs !! temp = Some (File []) -> objects_sound fs ->
  store_object root limits temp data source_size fs = (fs', TOk r) ->
  r = (sha256_bytes data, source_size) /\ objects_sound fs'
  /\ (exists d, files fs' !! hex_path root r.1 = Some (File d) /\ sha256_bytes d = r.1
      /\ (files fs !! hex_path root r.1 = None -> d = data)).
Proof.
  intros Hroot Htemp Hnew Hsound. unfold store_object. intros Hs.
  apply io_bind_ok in Hs as (fs1 & total & Hc & Hs). apply copy_loop_ok in Hc; [|done]. simpl in Hc.
  rewrite chunks_concat in Hc; [|unfold read_buffer; lia|done].
  apply io_bind_ok in Hs as (? & ? & Hg & Hs). injection Hg as <- Hg. apply tguard_ok, negb_false_iff, Z.eqb_eq in Hg. subst total.
  apply io_bind_ok in Hs as (fs2 & ? & Hm & Hs). apply (always_run _ _ _ _ _ (untouched_must _ _)) in Hm. unfold untouched in Hm.
  cbv zeta in Hs. change (sha256_chunks (chunks (length data) read_buffer data)) with (hash_data data) in Hs.
  rewrite hash_data_bytes in Hs. set (digest := sha256_bytes data) in *.
  assert (Hv : valid_digest digest = true) by apply sha256_bytes_valid.
  apply io_bind_ok in Hs as (? & final & [= <- Hfinal] & Hs). unfold object_path in Hfinal.
  rewrite validate_object in Hfinal by done. simpl in Hfinal. injection Hfinal as <-.
  destruct (hex_path_plain digest Hroot Hv) as [Hpl _].
  assert (Hparent : plain (parent (hex_path root digest))) by (unfold parent; by apply Forall_take).
  apply io_bind_ok in Hs as (fs3 & ? & Hcr & Hs). unfold create_or_throw in Hcr.
  apply io_bind_ok in Hcr as (fs4 & created & Hcr & Hx). destruct created as [b|]; [|done]. injection Hx as <- _.
  pose proof (create_made _ fs2 Hparent) as Hmade. rewrite Hcr in Hmade. simpl in Hmade.
  assert (Hfiles : forall hex d, files fs4 !! hex_path root hex = Some (File d) <-> files fs !! hex_path root hex = Some (File d)).
  { intros hex d. rewrite (made_file _ _ _ _ _ Hmade), Hm, Hc. by rewrite lookup_insert_ne. }
  apply io_bind_ok in Hs as (fs6 & ? & Hplace & Hs). injection Hs as <- <-. cbn [fst]. split; [done|].
  apply (place_object_ok temp data source_size fs4) in Hplace as (Hs' & d & Hd & Hsha & Hnone); [|done| |].
  - split; [done|]. exists d. split_and!; [done..|]. intros Hn. apply Hnone. destruct (files fs4 !! hex_path root digest) as [[d'|]|] eqn:Hf4; [| |done].
    + apply Hfiles in Hf4. congruence.
    + exfalso. destruct (Hmade (hex_path root digest)) as [Heq|((_ & Hp) & _)].
      * rewrite Hm, Hc, lookup_insert_ne in Heq by done. congruence.
      * apply (below_not_prefix _ _ (below_parent _ (proj2 (hex_path_plain digest Hroot Hv)))). done.
  - rewrite (made_file _ _ _ _ _ Hmade), Hm, Hc. apply lookup_insert_eq.
  - intros hex d' Hvx Hd'. apply Hfiles in Hd'. by apply Hsound.
Qed.

Lemma on_files_ok {A} (m : FIO A) w w' a : on_files m w = (w', TOk a) ->
  m (aw_fs w) = (aw_fs w', TOk a) /\ aw_db w' = aw_db w.
Proof. unfold on_files. destruct (m (aw_fs w)) as [fs r]. by intros [= <- <-]. Qed.
(** What an upload promises. *)
Definition stored_artifact (fs : FS) (data : list byte) (a : Artifact) (w : AW) : Prop :=
  af_sha256 a = sha256_bytes data /\ af_object_id a = ("sha256:" ++ sha256_bytes data)%string
  /\ objects_sound (aw_fs w)
  /\ (exists d, files (aw_fs w) !! hex_path root (sha256_bytes data) = Some (File d)
      /\ sha256_bytes d = sha256_bytes data /\ (files fs !! hex_path root (sha256_bytes data) = None -> d = data))
  /\ exists row, tables (aw_db w) !! (KArtifact, af_id a) = Some row /\ row_body row = artifact_to_json a.

Lemma put_fd_ok metadata data size w w' a : plain root -> objects_sound (aw_fs w) ->
  put_fd root limits metadata data size w = (w', TOk a) ->
  stored_artifact (aw_fs w) data a w' /\ af_size a = size.
Proof.
  intros Hroot Hsound. unfold put_fd. intros Hp. apply io_bind_ok in Hp as (? & ? & [= <- _] & Hp).
  apply io_bind_ok in Hp as (w1 & ? & H1 & Hp). apply on_files_ok in H1 as [H1 _].
  apply (always_run _ _ _ _ _ (untouched_must _ _)) in H1. apply io_bind_ok in Hp as (w2 & name & H2 & Hp).
  apply on_files_ok in H2 as [[= H2 _] _]. cbv zeta in Hp. apply io_bind_ok in Hp as (w3 & ? & H3 & Hp).
  apply on_files_ok in H3 as [H3 _]. apply open_excl_ok in H3 as [Hn H3]. apply io_cleanup_ok in Hp.
  assert (Hf2 : files (aw_fs w2) = files (aw_fs w)) by (rewrite <- H2; exact H1).
  apply io_bind_ok in Hp as (w4 & stored & H4 & Hp). apply on_files_ok in H4 as [H4 _].
  assert (Htemp : forall hex, temp_path root name <> hex_path root hex) by (intros hex; apply temp_not_object).
  apply store_object_ok in H4 as (-> & Hs4 & d & Hd & Hsha & Hnone);
    [|done|done|by rewrite H3, lookup_insert_eq|].
  2: { eapply objects_from_sound; [|exact Hsound]. intros hex d'. by rewrite H3, Hf2, lookup_insert_ne. }
  apply io_bind_ok in Hp as (w5 & i & H5 & Hp). apply on_files_ok in H5 as [[= H5 _] _].
  apply io_bind_ok in Hp as (w6 & n & H6 & Hp). apply on_files_ok in H6 as [[= H6 _] _]. cbv zeta in Hp.
  apply io_bind_ok in Hp as (w7 & ? & H7 & Hp). injection Hp as <- <-. unfold on_store in H7.
  destruct (commit _ _ _ (aw_db w6)) as [db r] eqn:Hc. injection H7 as <- Hr. apply of_res_ok in Hr as ->.
  apply commit_one in Hc as [seq Hrow]; [|done]. cbn [fst] in *.
  assert (Hf6 : files (aw_fs w6) = files (aw_fs w4)) by (by rewrite <- H6, <- H5). split; [|done]. split_and!; [done..| | |].
  - intros hex d' Hvx Hd'. simpl in Hd'. rewrite Hf6 in Hd'. by eapply Hs4.
  - exists d. simpl. rewrite Hf6. split_and!; [done..|]. intros Hx. apply Hnone. by rewrite H3, Hf2, lookup_insert_ne.
  - eexists. split; [exact Hrow|done].
Qed.
End LocalProofs.

(** ** Garbage collection *)

Section Garbage.
Context `{JsonLib} {E : ArtifactEnv} (root : path) (limits : ArtifactStoreLimits).

(** The pages are the whole table. *)
Lemma artifact_pages_ok fuel : forall offset w w' l, 0 <= offset -> artifact_pages fuel offset w = (w', TOk l) ->
  w' = w /\ l = map (fun kv => row_body kv.2) (drop (Z.to_nat offset) (select_rows (aw_db w) KArtifact "")).
Proof.
  induction fuel as [|fuel IH]; intros offset w w' l Ho Hp; [done|]. cbn [artifact_pages] in Hp.
  apply io_bind_ok in Hp as (w1 & page & Hpage & Hp). unfold on_store in Hpage.
  destruct (list_records _ _ _ _ (aw_db w)) as [db r] eqn:Hl. injection Hpage as <- Hr. apply of_res_ok in Hr as ->.
  apply list_records_ok in Hl as [-> ->]. assert (Hw : w <| aw_db := aw_db w |> = w) by (by destruct w). rewrite Hw in Hp.
  set (rest := drop (Z.to_nat offset) _) in *. rewrite length_map, length_take in Hp. case_match eqn:Hlt.
  - injection Hp as <- <-. split; [done|]. rewrite take_ge; [done|]. apply Z.ltb_lt in Hlt. unfold artifact_page in *. lia.
  - apply io_bind_ok in Hp as (w2 & more & Hm & Hp). injection Hp as <- <-.
    apply IH in Hm as [-> ->]; [|unfold artifact_page; lia]. split; [done|]. unfold rest. rewrite <- map_app. f_equal.
    rewrite Z2Nat.inj_add, <- drop_drop by (unfold artifact_page; lia). apply take_drop.
Qed.
Lemma artifact_object_id fresh now j a : artifact_of_json fresh now j = TOk a ->
  value_ dec_string j "object_id" ""%string = TOk (af_object_id a).
Proof.
  unfold artifact_of_json. intros Ha. do 11 apply tres_bind_ok in Ha as (? & ? & Ha). by injection Ha as <-.
Qed.
Lemma live_objects_ok fresh now l : forall live j oid hex, live_objects fresh now l = TOk live -> j ∈ l ->
  value_ dec_string j "object_id" ""%string = TOk oid -> oid <> ""%string -> validate_object_id oid = TOk hex -> hex ∈ live.
Proof.
  induction l as [|x l IH]; intros live j oid hex Hl Hin Hoid Hne Hv; [by apply elem_of_nil in Hin|].
  cbn [live_objects] in Hl. apply tres_bind_ok in Hl as (a & Ha & Hl). apply tres_bind_ok in Hl as (one & H1 & Hl).
  apply tres_bind_ok in Hl as (rest & Hr & Hl). injection Hl as <-. apply elem_of_cons in Hin as [->|Hin].
  - apply artifact_object_id in Ha. rewrite Hoid in Ha. injection Ha as ->. destruct (empty_str _) eqn:He.
    + unfold empty_str in He. by apply String.eqb_eq in He.
    + rewrite Hv in H1. injection H1 as <-. set_solver.
  - apply elem_of_union_r. by eapply IH.
Qed.

Lemma sweep_confined dry grace live l : forall counts,
  Always (confined (fun p => exists d f, object_name p = Some (d, f) /\ (d ++ f)%string ∉ live)) (sweep dry grace live l counts).
Proof.
  induction l as [|p l IH]; intros counts; cbn [sweep]; [apply always_ret, _|].
  destruct (object_name p) as [[d f]|] eqn:Hn; [|apply IH]. case_bool_decide as Hlive; [apply IH|].
  apply always_bind; [apply _|apply confined_call|]. intros n. case_match; [apply IH|].
  apply always_bind; [apply _| |intros removed; apply IH]. destruct dry; [apply always_ret, _|].
  apply always_bind; [apply _|apply confined_remove; eauto|]. intros _.
  apply always_bind; [apply _|apply always_get, _|]. intros fs. apply always_ret, _.
Qed.
Lemma cleanup_confined : Always (confined (fun p => parent p = root ++ ["temp"%string])) (cleanup_temporary root limits).
Proof.
  unfold cleanup_temporary. apply always_bind; [apply _|done|]. intros ok.
  apply always_bind; [apply _|apply always_get, _|]. intros fs. cbv zeta. set (l := if ok then _ else _).
  assert (Hl : Forall (fun p => parent p = root ++ ["temp"%string]) l).
  { unfold l. destruct ok; [|constructor]. apply Forall_forall. intros p Hp. by apply list_elem_of_filter in Hp as [? _]. }
  clearbody l. induction Hl as [|p l Hp Hl IH]; cbn [io_iter]; [apply always_ret, _|].
  apply always_bind; [apply _| |intros _; exact IH]. apply always_bind; [apply _|apply confined_call|]. intros n.
  case_match; [by apply confined_remove|apply always_ret, _].
Qed.
Lemma hex_path_name hex : valid_digest hex = true ->
  object_name (hex_path root hex) = Some (String.substring 0 2 hex, String.substring 2 (String.length hex - 2) hex)
  /\ parent (hex_path root hex) <> root ++ ["temp"%string].
Proof.
  intros Hv. unfold valid_digest in Hv. apply andb_true_iff in Hv as [Hv _]. apply Z.eqb_eq in Hv.
  unfold size_of in Hv. destruct hex as [|c1 [|c2 hex]]; [simpl in Hv; lia..|]. simpl in Hv.
  unfold object_name, hex_path. rewrite parent_app by done. cbn [length take Nat.sub].
  split; [|by intros Heq%app_inv_head].
  rewrite !last_app. simpl. rewrite Nat.sub_0_r, substring_all. unfold size_of.
  replace (String.substring 0 0 hex) with ""%string by (by destruct hex).
  by replace (Z.of_nat (String.length hex)) with 62 by lia.
Qed.

(** The entry of one path. *)
Definition same_entry (p : path) (w w' : AW) : Prop := files (aw_fs w') !! p = files (aw_fs w) !! p.
#[global] Instance same_entry_preorder p : PreOrder (same_entry p).
Proof. split; [done|]. intros a b c Hab Hbc. unfold same_entry in *. congruence. Qed.
Lemma on_files_entry {A} (P : path -> Prop) p (m : FIO A) : ~ P p -> Always (confined P) m -> Always (same_entry p) (on_files m).
Proof. intros Hp Hm w. unfold on_files. specialize (Hm (aw_fs w)). destruct (m (aw_fs w)) as [fs r]. by apply Hm. Qed.
Lemma quiet_entry {A} p (m : FIO A) : Always untouched m -> Always (same_entry p) (on_files m).
Proof.
  intros Hm. apply (on_files_entry (fun _ => False)); [tauto|]. by apply (always_mono _ _ _ (untouched_confined _)).
Qed.
Lemma on_store_entry {A} p (m : M DB A) : Always (same_entry p) (on_store m).
Proof. intros w. unfold on_store. by destruct (m (aw_db w)). Qed.
Lemma artifact_pages_entry p fuel : forall offset, Always (same_entry p) (artifact_pages fuel offset).
Proof.
  induction fuel as [|fuel IH]; intros offset; [apply always_lift, _|]. cbn [artifact_pages].
  apply always_bind; [apply _|apply on_store_entry|]. intros page. case_match; [apply always_ret, _|].
  apply always_bind; [apply _|apply IH|]. intros rest. apply always_ret, _.
Qed.
End Garbage.

#[local] Opaque sha256_bytes sha256_chunks.
(** C21: an upload to the local store is content addressed: the artifact names the SHA-256 digest and
    the size of the bytes, its object is stored under that digest with a content of that digest
    (the bytes themselves when the object is new), its record is in the store, and every object
    of the store still lies under the digest of its content. *)
Theorem put_content_addressed `{JsonLib} {E : ArtifactEnv} root limits metadata bytes w w' a :
  plain root -> objects_sound root (aw_fs w) -> put root limits metadata bytes w = (w', TOk a) ->
  stored_artifact root (aw_fs w) bytes a w' /\ af_size a = Z.of_nat (length bytes).
Proof.
  intros Hroot Hsound. unfold put. intros Hp. apply io_bind_ok in Hp as (? & ? & [= <- _] & Hp).
  apply io_bind_ok in Hp as (w1 & name & H1 & Hp). apply on_files_ok in H1 as [[= H1 _] _]. cbv zeta in Hp.
  apply io_bind_ok in Hp as (w2 & ? & H2 & Hp). apply on_files_ok in H2 as [H2 _]. apply open_excl_ok in H2 as [Hn H2].
  apply io_cleanup_ok in Hp. apply io_bind_ok in Hp as (w3 & ? & H3 & Hp). apply on_files_ok in H3 as [H3 _].
  apply write_all_ok in H3. apply io_bind_ok in Hp as (w4 & ? & H4 & Hp). apply on_files_ok in H4 as [H4 _].
  apply (always_run _ _ _ _ _ (untouched_must _ _)) in H4. apply io_bind_ok in Hp as (w5 & source & H5 & Hp).
  apply on_files_ok in H5 as [H5 _]. unfold read_regular in H5. apply io_bind_ok in H5 as (? & ? & [= <- _] & [= H5 H6]).
  unfold untouched in H4. set (temp := temp_path root name) in *.
  assert (Hf : files (aw_fs w5) = <[temp := File bytes]> (files (aw_fs w))).
  { rewrite <- H5. simpl. by rewrite H4, H3, H2, insert_insert_eq, <- H1. }
  assert (Hfx : forall hex, files (aw_fs w5) !! hex_path root hex = files (aw_fs w) !! hex_path root hex).
  { intros hex. rewrite Hf, lookup_insert_ne; [done|apply temp_not_object]. }
  simpl in H6. rewrite H4, H3, lookup_insert_eq in H6. apply io_bind_ok in Hp as (w6 & data & H7 & Hp).
  destruct (io_ok _); subst source; [|done]. injection H7 as <- <-.
  apply io_bind_ok in Hp as (w7 & a' & Hfd & Hp). apply put_fd_ok in Hfd as [(Hsha & Hoid & Hs & (d & Hd & Hd1 & Hd2) & Hrow) Hsize]; [|done|].
  2: { eapply objects_from_sound; [|exact Hsound]. intros hex d. by rewrite Hfx. }
  apply io_bind_ok in Hp as (w8 & ? & H8 & Hp). injection Hp as <- <-. apply on_files_ok in H8 as [H8 Hdb].
  unfold remove_or_throw in H8. apply io_bind_ok in H8 as (? & ? & [= <- _] & H8). destruct (io_ok _); [|done].
  injection H8 as H8. assert (Hf8 : forall hex, files (aw_fs w8) !! hex_path root hex = files (aw_fs w7) !! hex_path root hex).
  { intros hex. rewrite <- H8. simpl. rewrite lookup_delete_ne; [done|apply temp_not_object]. }
  split; [|done]. split_and!; [done..| | |by rewrite Hdb].
  - eapply objects_from_sound; [|exact Hs]. intros hex d'. by rewrite Hf8.
  - exists d. rewrite Hf8. split_and!; [done..|]. intros Hx. apply Hd2. by rewrite Hfx.
Qed.

(** C22: garbage collection keeps what is referenced: whatever the grace period, the ages of the
    files and the calls that fail, the object named by an artifact record of the store is left as
    it is, however many records there are. *)
Theorem gc_keeps_live `{JsonLib} {E : ArtifactEnv} root limits dry_run grace i row oid hex w :
  tables (aw_db w) !! (KArtifact, i) = Some row ->
  value_ dec_string (row_body row) "object_id" ""%string = TOk oid -> oid <> ""%string ->
  validate_object_id oid = TOk hex ->
  files (aw_fs (collect_garbage root limits dry_run grace w).1) !! hex_path root hex
  = files (aw_fs w) !! hex_path root hex.
Proof.
  intros Hrow Hoid Hne Hv. apply tres_bind_ok in Hv as Hvx. destruct Hvx as (? & Hg & Hhex).
  apply tguard_ok, negb_false_iff in Hg. injection Hhex as Hhex. rewrite Hhex in Hg.
  destruct (hex_path_name root hex Hg) as [Hname Hparent].
  set (p := hex_path root hex) in *. change (same_entry p w (collect_garbage root limits dry_run grace w).1).
  unfold collect_garbage. cbv zeta. unfold mbind at 1, io_bind at 1.
  pose proof (artifact_pages_entry p max_artifact_pages 0 w) as Hpe.
  destruct (artifact_pages max_artifact_pages 0 w) as [w1 [l|e]] eqn:Hpages; [|exact Hpe].
  apply artifact_pages_ok in Hpages as [-> ->]; [|done]. clear Hpe.
  set (l := map _ _). assert (Hin : row_body row ∈ l).
  { apply list_elem_of_fmap. exists (i, row). split; [done|]. rewrite drop_0. apply elem_of_select_rows. auto. }
  clearbody l. revert w Hrow. enough (Hal : Always (same_entry p) (n ← on_files io_call;
    live ← io_lift (live_objects (af_uuid n) (af_timestamp n) l); gc_live root limits dry_run
      (if grace =? 0 then cleanup_grace_seconds limits else grace) live)) by (intros w _; apply Hal).
  apply always_bind; [apply _|by apply quiet_entry|]. intros n.
  apply (always_bind_post (same_entry p) (fun live => hex ∈ live)); [apply always_lift, _| |].
  - intros w w1 live [= _ Hl]. by eapply live_objects_ok.
  - intros live Hlive. unfold gc_live.
    apply always_bind; [apply _|by apply quiet_entry|]. intros ok.
    apply always_bind; [apply _|by apply quiet_entry|]. intros fs.
    apply always_bind; [apply _|eapply on_files_entry; [|apply sweep_confined]|intros counts].
    { intros (d & f & Hdf & Hno). rewrite Hname in Hdf. injection Hdf as <- <-. apply Hno. by rewrite hex_path_split. }
    apply always_bind; [apply _|by eapply on_files_entry, cleanup_confined|]. intros _. apply always_ret, _.
Qed.

(** ** A store *)

Definition sample_artifact_env : ArtifactEnv := {|
  af_files := reliable_files; af_uuid := fun n => ("u" ++ to_string (Z.of_nat n))%string;
  af_timestamp := fun _ => "2026-01-01T00:00:00Z"%string; af_age := fun _ _ => 1000000 |}.
Definition sample_root : path := ["srv"%string].
Definition sample_limits : ArtifactStoreLimits := mkArtifactLimits 1048576 2097152 3600.
Definition sample_world : AW :=
  mkAW (mkFS (<[["srv"%string] := Dir]> (<[["srv"; "objects"]%string := Dir]> (<[["srv"; "temp"]%string := Dir]> ∅))) 0)
    empty_db.
Definition sample_metadata : Artifact :=
  mkArtifact "" "r1" "n1" "report.txt" "text/plain" "" "" "" "2026-01-01T00:00:00Z" 0 (JObject []).
Definition sample_put : AW * tres Artifact :=
  put (H := strict_json) (E := sample_artifact_env) sample_root sample_limits sample_metadata (bytes_of "abc") sample_world.
Definition sample_digest : string := "ba7816bf8f01cfea414140de5dae2223b00361a396177a9cb410ff61f20015ad".

Lemma sample_world_sound : objects_sound sample_root (aw_fs sample_world).
Proof.
  intros hex data _ Hd. simpl in Hd.
  repeat (apply lookup_insert_Some in Hd as [[_ ?]|[_ Hd]]; [done|]). by rewrite lookup_empty in Hd.
Qed.
Lemma sample_put_ok : exists w a, sample_put = (w, TOk a).
Proof.
  assert (Hok : match sample_put.2 with TOk _ => true | TThrow _ => false end = true) by (vm_compute; reflexivity).
  destruct sample_put as [w [a|x]]; [by exists w, a|discriminate Hok].
Qed.
Lemma put_content_addressed_witness : exists w a,
  sample_put = (w, TOk a) /\ stored_artifact sample_root (aw_fs sample_world) (bytes_of "abc") a w /\ af_size a = 3.
Proof.
  assert (Hroot : plain sample_root) by (by repeat constructor).
  pose proof sample_world_sound as Hs. destruct sample_put_ok as (w & a & Hp). exists w, a. split; [exact Hp|].
  exact (put_content_addressed (H := strict_json) (E := sample_artifact_env) sample_root sample_limits sample_metadata
           (bytes_of "abc") sample_world w a Hroot Hs Hp).
Defined.

(** The collector keeps the object of the record and removes the other one. *)
Definition sample_garbage : AW :=
  let object hex := <[hex_path sample_root hex := File (bytes_of "abc")]> in
  let old := "aa7816bf8f01cfea414140de5dae2223b00361a396177a9cb410ff61f20015ad"%string in
  mkAW (mkFS (object sample_digest (object old (files (aw_fs sample_world)))) 0)
    (empty_db <| tables := {[ (KArtifact, "a1"%string) :=
       mkRow "r1" (mk_object [("object_id", JString ("sha256:" ++ sample_digest))]%string) 1 ]} |>).
Definition sample_collect : AW * tres Json :=
  collect_garbage (H := strict_json) (E := sample_artifact_env) sample_root sample_limits false 0 sample_garbage.
Example sample_collect_removes :
  sample_collect.2 = TOk (mk_object [("dry_run", JBool false); ("live_objects", JUnsigned 1);
                                     ("eligible", JUnsigned 1); ("removed", JUnsigned 1)]%string).
Proof. vm_compute. reflexivity. Qed.
Lemma gc_keeps_live_witness :
  files (aw_fs sample_collect.1) !! hex_path sample_root sample_digest = Some (File (bytes_of "abc")).
Proof.
  transitivity (files (aw_fs sample_garbage) !! hex_path sample_root sample_digest); [|vm_compute; reflexivity].
  apply (gc_keeps_live (H := strict_json) (E := sample_artifact_env) sample_root sample_limits false 0 "a1"
           (mkRow "r1" (mk_object [("object_id", JString ("sha256:" ++ sample_digest))]%string) 1)
           ("sha256:" ++ sample_digest)); [vm_compute; reflexivity..|vm_compute; discriminate|vm_compute; reflexivity].
Defined.
