(* ===== verification/Runtime.v ===== *)
(** * The runtime

    [Runtime] of [src/runtime/runtime.cpp]: checkpoints and transitions of runs, creation,
    resumption, cancellation and approval of runs, and what happens when an execution ends.  The
    state is the database (with the coordination counters of this instance) and the fields of the
    object; [published] records the events handed to the bus, [spawned] the executions started and
    [worker_cancels] the worker jobs told to stop.  The mutex of the object makes each operation
    atomic.  Identifiers, clocks, the schema validator, the event bus and the worker manager are
    parameters ([RuntimeEnv]); [coordinated] says whether the instance has a coordination backend,
    which it has exactly in multi-instance mode. *)

From S2P Require Import Prelude Json Types Text Pipeline Yaml Db Coordination Codec Worker Store Sessions Effects.

(** ** State *)

Record ActiveRun := mkActiveRun { ar_stop : bool; ar_lease : option LeaseRecord; ar_lost : bool }.
#[global] Instance eta_ActiveRun : Eta ActiveRun := fun r => mkActiveRun (ar_stop r) (ar_lease r) (ar_lost r).

Record ActiveNode := mkActiveNode {
  an_stop : bool; an_work : LeaseRecord; an_global : option LeaseRecord; an_run : option LeaseRecord;
  an_lost : bool }.
#[global] Instance eta_ActiveNode : Eta ActiveNode := fun r =>
  mkActiveNode (an_stop r) (an_work r) (an_global r) (an_run r) (an_lost r).

Inductive MaintenanceMode := ModeActive | ModeDraining | ModeMaintenance.
#[global] Instance MaintenanceMode_eq_dec : EqDecision MaintenanceMode.
Proof. solve_decision. Defined.

Record RT := mkRT {
  rt_coord : Coord;
  rt_calls : nat;
  active : gmap string ActiveRun;
  active_nodes : gmap string ActiveNode;
  mode : MaintenanceMode;
  stopping : bool;
  distributed_started : bool;
  reduction_stop : bool;
  published : list Event;
  spawned : list Run;
  spawned_work : list NodeWork;
  worker_cancels : list string }.
#[global] Instance eta_RT : Eta RT := fun r => mkRT
  (rt_coord r) (rt_calls r) (active r) (active_nodes r) (mode r) (stopping r) (distributed_started r)
  (reduction_stop r) (published r) (spawned r) (spawned_work r) (worker_cancels r).

Definition rt_db (w : RT) : DB := c_db (rt_coord w).

Class RuntimeEnv := {
  rt_uuid : nat -> string;
  rt_timestamp : nat -> string;
  (** The readings of [clock_timestamp()] of one database operation, and their text. *)
  rt_dbclock : nat -> nat -> Z;
  rt_dbtime : Z -> string;
  (** [deps_.events.publish(event)] and [deps_.workers->cancel(...)]. *)
  rt_publish : nat -> Event -> DB -> DB;
  rt_worker_cancel : nat -> string -> DB -> DB * tres unit;
  (** [deps_.schemas.validate(schema, value, name, direction)] *)
  rt_schema : string -> Json -> string -> string -> res unit }.

Record RuntimeConfig := mkRuntimeConfig {
  coordinated : bool;
  has_workers : bool;
  instance_id : string;
  node_types : gset string;
  max_runs : Z;
  max_nodes : Z;
  max_nodes_per_run : Z;
  max_pending_runs : Z;
  max_subpipeline_depth : Z;
  claim_batch_size : Z;
  lease_ttl_ms : Z }.

Abbreviation RIO := (IO RT).

Section Runtime.
Context `{JsonLib} `{YamlLib} {E : RuntimeEnv} (config : RuntimeConfig).

(** ** Access to the environment *)

Definition r_call : RIO nat := fun w => (w <| rt_calls := S (rt_calls w) |>, TOk (rt_calls w)).
Definition fresh_id : RIO string := n ← r_call; mret (rt_uuid n).
Definition now_string : RIO string := n ← r_call; mret (rt_timestamp n).
Definition with_db (db : DB) (w : RT) : RT := w <| rt_coord := ((rt_coord w) <| c_db := db |>) |>.
Definition r_store {A} (m : M DB A) : RIO A := fun w =>
  let '(db, r) := m (rt_db w) in (with_db db w, of_res r).
Definition r_coord {A} (m : (nat -> Z) -> M Coord A) : RIO A := fun w =>
  let n := rt_calls w in
  let '(c, r) := m (rt_dbclock n) (rt_coord w) in
  ((w <| rt_coord := c |>) <| rt_calls := S n |>, of_res r).
Definition r_get (k : RecordKind) (i : string) : RIO Json := r_store (get_record k i).
Definition r_list (k : RecordKind) (run_id : string) (limit offset : Z) : RIO (list Json) :=
  r_store (list_records k run_id limit offset).
Definition r_commit (records : list StoreRecord) : RIO unit :=
  n ← r_call; r_store (commit (rt_uuid n) (rt_timestamp n) records).
Definition r_commit_owned (records : list StoreRecord) (resource owner : string) (fence : Z) : RIO unit :=
  n ← r_call;
  r_store (commit_owned (rt_uuid n) (rt_timestamp n) (rt_dbclock n 0%nat) records resource owner fence).
Definition publish (event : Event) : RIO unit := fun w =>
  let n := rt_calls w in
  (((with_db (rt_publish n event (rt_db w)) w) <| rt_calls := S n |>)
     <| published := published w ++ [event] |>, TOk tt).

Definition get_run (i : string) : RIO Run := j ← r_get KRun i; io_lift (run_of_json j).
Definition get_work (i : string) : RIO NodeWork :=
  j ← r_get KNodeWork i; n ← r_call; io_lift (work_of_json (rt_uuid n) (rt_timestamp n) j).
Definition run_record (r : Run) : StoreRecord := mkRecord KRun (id r) (id r) (run_to_json r).
Definition attempt_record (run_id : string) (a : NodeExecution) : StoreRecord :=
  mkRecord KAttempt (a_id a) run_id (attempt_to_json a).

(** [list_all]: pages of 10000 records.  The store refuses offsets beyond 100000000, so the loop ends
    before the fuel does. *)
Definition page_size : Z := 10000.
Fixpoint list_pages (fuel : nat) (k : RecordKind) (run_id : string) (offset : Z) : RIO (list Json) :=
  match fuel with
  | O => io_throw StorageError "Record history is too large to inspect"
  | S fuel =>
      page ← r_list k run_id page_size offset;
      if Z.of_nat (length page) <? page_size then mret page
      else rest ← list_pages fuel k run_id (offset + page_size); mret (page ++ rest)
  end.
Definition max_pages : Z := 10002.
Definition list_all (k : RecordKind) (run_id : string) : RIO (list Json) :=
  list_pages (Z.to_nat max_pages) k run_id 0.

Definition accepts_new_work (w : RT) : bool := bool_decide (mode w = ModeActive).
Definition active_count (w : RT) : Z := Z.of_nat (size (active w)).

(** ** Checkpoints *)

Definition length_prefixed (tag first second : string) : string :=
  (tag ++ ":" ++ to_string (size_of first) ++ ":" ++ first ++ ":" ++ second)%string.
Definition session_continuation_id (session provider_id : string) : string :=
  length_prefixed "current" session provider_id.
Definition run_continuation_candidate_id (run_id provider_id : string) : string :=
  length_prefixed "candidate" run_id provider_id.

Definition str_member (j : Json) (k : string) : tres string := value_ dec_string j k ""%string.

(** [collect]: a continuation candidate of the run, by its provider. *)
Definition collect_candidate (r : Run) (candidates : gmap string Json) (candidate : Json)
    : tres (gmap string Json) :=
  scope ← str_member candidate "scope";
  if negb (String.eqb scope "candidate") then TOk candidates
  else
    sid ← str_member candidate "session_id";
    foreign ← (if negb (String.eqb sid (session_id r)) then TOk true
               else
                 rid ← str_member candidate "run_id";
                 if negb (String.eqb rid (id r)) then TOk true
                 else tid ← str_member candidate "turn_id"; TOk (negb (String.eqb tid (session_turn_id r))));
    _ ← tguard foreign StorageError "Stored provider continuation is invalid";
    provider_id ← str_member candidate "provider_id";
    provider_version ← str_member candidate "provider_version";
    st ← str_member candidate "state";
    _ ← tguard (empty_str provider_id || empty_str provider_version || empty_str st
                || (64 * 1024 <? size_of st)) StorageError "Stored provider continuation is invalid";
    TOk (<[provider_id := candidate]> candidates).
Fixpoint collect_candidates (r : Run) (candidates : gmap string Json) (l : list Json)
    : tres (gmap string Json) :=
  match l with
  | [] => TOk candidates
  | j :: l => c ← collect_candidate r candidates j; collect_candidates r c l
  end.

(** What becomes of the candidate of one provider when the run ends. *)
Definition settle_candidate (r : Run) (kv : string * Json) : list StoreRecord :=
  let '(provider_id, candidate) := kv in
  (if bool_decide (state r = Completed) then
     [mkRecord KSessionContinuation (session_continuation_id (session_id r) provider_id) (session_id r)
        (set_member "source_run_id" (JString (id r))
           (set_member "run_id" (JString (session_id r)) (set_member "scope" (JString "current") candidate)))]
   else [])
  ++ [mkRecord KSessionContinuation (run_continuation_candidate_id (id r) provider_id) (id r)
        (set_member "state" (JString "") (set_member "scope" (JString "discarded") candidate))].

Definition settle_continuations (r : Run) (records : list StoreRecord) : RIO (list StoreRecord) :=
  stored ← r_list KSessionContinuation (id r) 10000 0;
  let staged := map rc_value (filter (fun rc => rc_kind rc = KSessionContinuation) records) in
  candidates ← io_lift (collect_candidates r ∅ (stored ++ staged));
  mret (filter (fun rc => rc_kind rc <> KSessionContinuation) records
        ++ flat_map (settle_candidate r) (map_items candidates)).

Definition ends_session_turn (r : Run) : bool := negb (empty_str (session_id r)) && terminal (state r).

Definition checkpoint_metadata (r : Run) : Json := mk_object [
  ("state", run_state_to_json (state r));
  ("provider", JString (provider r));
  ("model", JString (model r));
  ("tool", JString (tool r));
  ("plugin", JString (plugin r));
  ("pipeline_version", JUnsigned (pipeline_version r));
  ("parent_run_id", JString (parent_id r));
  ("parent_node_id", JString (parent_node_id r));
  ("child_run_id", JString (child_id r));
  ("child_pipeline_id", JString (child_pipeline_id r));
  ("child_pipeline_version", JUnsigned (child_pipeline_version r));
  ("initiation_type", JString (initiation_type r));
  ("schedule_id", JString (schedule_id r));
  ("schedule_occurrence_id", JString (schedule_occurrence_id r));
  ("due_at", JString (due_at r));
  ("trigger_id", JString (trigger_id r));
  ("event_id", JString (event_id r));
  ("root_event_id", JString (root_event_id r));
  ("trigger_depth", JUnsigned (trigger_depth r))]%string.

(** The node an event is about: the one of the last attempt among the records. *)
Fixpoint event_node (node : string) (records : list StoreRecord) : tres string :=
  match records with
  | [] => TOk node
  | rc :: records =>
      if decide (rc_kind rc = KAttempt)
      then n ← at_ dec_string (rc_value rc) "node_id"; event_node n records
      else event_node node records
  end.

(** The run is stopped when another instance owns it. *)
Definition lose_ownership (run_id : string) (w : RT) : RT :=
  w <| active := alter (fun a => (a <| ar_lost := true |>) <| ar_stop := true |>) run_id (active w) |>.

(** [checkpoint]; the run is returned as the code updates its argument. *)
Definition checkpoint (r : Run) (type : string) (records : list StoreRecord) : RIO Run :=
  records ← (if ends_session_turn r then settle_continuations r records else mret records);
  stored ← io_catch (s ← get_run (id r); mret (Some s))
             (fun e => if bool_decide (code e = NotFound) then mret None else io_lift (TThrow (TError e)));
  let r := match stored with
           | Some s => r <| cancellation_requested := cancellation_requested r || cancellation_requested s |>
           | None => r
           end in
  now ← now_string;
  let r := r <| updated_at := now |> in
  fresh ← fresh_id;
  stamp ← now_string;
  node ← io_lift (event_node (active_node r) records);
  let event := ((((((((new_event fresh stamp) <| ev_run_id := id r |>) <| ev_pipeline_id := pipeline_id r |>)
    <| ev_node_id := node |>)
    <| ev_type := if bool_decide (state r = Cancelled) && String.eqb type "run.completed"
                  then "run.cancelled"%string else type |>)
    <| ev_metadata := checkpoint_metadata r |>) <| causation_id := id r |>)
    <| ev_root_event_id := root_event_id r |>) <| ev_trigger_depth := trigger_depth r |> in
  let records := records ++ [run_record r; mkRecord KEvent (ev_id event) (id r) (event_to_json event)] in
  _ ← io_catch
        (if ends_session_turn r then
           sfresh ← fresh_id;
           sstamp ← now_string;
           n ← r_call;
           m ← r_call;
           r_store (commit_session_run (rt_uuid n) (rt_uuid m) (rt_timestamp n) (rt_dbclock n 0%nat) records
                      (owner_instance_id r) (fencing_token r) (event_to_json (new_event sfresh sstamp)))
         else if coordinated config && negb (empty_str (owner_instance_id r)) then
           r_commit_owned records ("run:" ++ id r)%string (owner_instance_id r) (fencing_token r)
         else r_commit records)
        (fun e =>
           _ ← io_when (coordinated config && bool_decide (code e = Conflict))
                 (io_modify (lose_ownership (id r)));
           io_lift (TThrow (TError e)));
  _ ← publish event;
  mret r.

Definition transition (r : Run) (to : RunState) (event : string) (records : list StoreRecord) : RIO Run :=
  _ ← io_guard (negb (valid_transition (state r) to)) Execution "Invalid run state transition";
  checkpoint (r <| state := to |>) event records.

(** ** Executions *)

(** [schedule]: the execution is spawned; it runs later. *)
Definition schedule (r : Run) (lease : option LeaseRecord) : RIO unit :=
  w ← io_get;
  _ ← io_guard (bool_decide (is_Some (active w !! id r))) Conflict "Run already executing";
  _ ← io_guard (stopping w || (max_runs config <=? active_count w)) Capacity "Concurrent run limit reached";
  _ ← io_guard (coordinated config && bool_decide (lease = None)) Conflict
        "Distributed run is missing an ownership lease";
  io_modify (fun w => (w <| active := <[id r := mkActiveRun false lease false]> (active w) |>)
                        <| spawned := spawned w ++ [r] |>).

(** The queued runs of the shared queue, counted over pages of 1000. *)
Fixpoint count_queued (pending : Z) (l : list Json) : tres Z :=
  match l with
  | [] => TOk pending
  | j :: l =>
      r ← run_of_json j;
      if bool_decide (state r = Queued) then
        if max_pending_runs config <=? pending + 1 then tthrow Capacity "Distributed run queue is full"
        else count_queued (pending + 1) l
      else count_queued pending l
  end.
Fixpoint check_queue (fuel : nat) (pending offset : Z) : RIO unit :=
  match fuel with
  | O => io_throw StorageError "Distributed run queue is too large to inspect"
  | S fuel =>
      page ← r_list KRun "" 1000 offset;
      pending ← io_lift (count_queued pending page);
      if Z.of_nat (length page) <? 1000 then mret tt else check_queue fuel pending (offset + 1000)
  end.
Definition max_queue_pages : Z := 100002.

(** [checkpoint]'s counterpart for a run of a session turn: the run is stored by the store's binding
    operation, with its first event. *)
Definition bind_session_run (r : Run) (session_owner : string) (session_fence : Z) : RIO unit :=
  fresh ← fresh_id;
  stamp ← now_string;
  let event := ((((((((new_event fresh stamp) <| ev_run_id := id r |>) <| ev_pipeline_id := pipeline_id r |>)
    <| ev_node_id := "input"%string |>) <| ev_type := "run.created"%string |>)
    <| ev_metadata := mk_object [
         ("state", run_state_to_json (state r));
         ("pipeline_version", JUnsigned (pipeline_version r));
         ("initiation_type", JString (initiation_type r))]%string |>) <| causation_id := id r |>)
    <| ev_root_event_id := root_event_id r |>) <| ev_trigger_depth := trigger_depth r |> in
  sfresh ← fresh_id;
  sstamp ← now_string;
  n ← r_call;
  m ← r_call;
  bound ← r_store (bind_session_turn_run (rt_uuid n) (rt_uuid m) (rt_timestamp n) (rt_dbclock n 0%nat)
                     (session_id r) (session_turn_id r) (run_to_json r) (event_to_json event) session_owner
                     session_fence (event_to_json (new_event sfresh sstamp)));
  _ ← io_guard (negb bound) Conflict "Session run is already bound";
  publish event.

(** What the admission checks of [run] require of the instance. *)
Definition admit_run (parent_id : string) : RIO unit :=
  w ← io_get;
  let parent := if empty_str parent_id then None else active w !! parent_id in
  let owned := match parent with Some a => negb (ar_lost a) | None => false end in
  _ ← (if accepts_new_work w then mret tt
       else
         _ ← io_guard (negb (bool_decide (mode w = ModeDraining)) || negb owned) Unavailable
               "Instance is not accepting new work";
         if coordinated config then
           match parent ≫= ar_lease with
           | None => io_throw Conflict "Owned continuation has no current lease"
           | Some l => r_coord (require_current (instance_id config) l)
           end
         else mret tt);
  _ ← io_guard (stopping w || (negb (coordinated config) && (max_runs config <=? active_count w)))
        Capacity "Concurrent run limit reached";
  if coordinated config then check_queue (Z.to_nat max_queue_pages) 0 0 else mret tt.

Definition max_message_metadata_bytes : Z := 64 * 1024.

Definition check_input (input metadata : Json) : tres unit :=
  large ← dump_exceeds input max_document_bytes;
  _ ← tguard large Validation "Run input exceeds 1 MiB";
  bad ← (if negb (is_object metadata) then TOk true else dump_exceeds metadata max_message_metadata_bytes);
  tguard bad Validation "Run metadata is invalid or exceeds 64 KiB".

(** The fields [run] fills in from its arguments. *)
Definition initial_run (fresh now fresh_message now_message : string) (checked : PipelineDefinition)
    (input : Json) (actor_ parent_id parent_node_id : string) (depth : Z) (parent_message_id : string)
    (origin metadata_ : Json) (session_id_ turn_id link_time : string) : tres Run :=
  x_initiation ← value_ dec_string origin "initiation_type" "manual"%string;
  x_schedule ← str_member origin "schedule_id";
  x_occurrence ← str_member origin "schedule_occurrence_id";
  x_due ← str_member origin "due_at";
  x_trigger ← str_member origin "trigger_id";
  x_event ← str_member origin "event_id";
  x_root ← str_member origin "root_event_id";
  x_depth ← value_ dec_unsigned origin "trigger_depth" 0;
  let m := new_message fresh_message now_message in
  let m := ((((m <| m_run_id := fresh |>) <| m_pipeline_id := pl_name checked |>)
              <| m_node_id := "input"%string |>) <| payload := input |>) <| metadata := metadata_ |> in
  let m := if empty_str parent_message_id then m
           else m <| provenance := provenance m
                       ++ [mkProvenance parent_node_id "" "" "" "" parent_message_id "" link_time ""] |> in
  let r := new_run fresh now m in
  let r := ((((((((r <| pipeline_id := pl_name checked |>) <| pipeline_version := pl_version checked |>)
    <| definition := pl_source checked |>) <| actor := actor_ |>) <| session_id := session_id_ |>)
    <| session_turn_id := turn_id |>) <| Types.parent_id := parent_id |>)
    <| Types.parent_node_id := parent_node_id |>) <| Types.parent_message_id := parent_message_id |> in
  let r := (((((((((r <| subpipeline_depth := depth |>) <| initiation_type := x_initiation |>)
    <| schedule_id := x_schedule |>) <| schedule_occurrence_id := x_occurrence |>) <| due_at := x_due |>)
    <| trigger_id := x_trigger |>) <| event_id := x_event |>) <| root_event_id := x_root |>)
    <| trigger_depth := x_depth |>) <| resolved_subpipelines := pl_resolved_subpipelines checked |> in
  TOk r.

Definition run (p : PipelineDefinition) (input : Json) (actor parent_id parent_node_id : string) (depth : Z)
    (parent_message_id : string) (origin metadata : Json) (session_id session_turn_id session_owner : string)
    (session_fence : Z) : RIO string :=
  _ ← admit_run parent_id;
  _ ← io_lift (check_input input metadata);
  checked ← io_lift (of_res (parse_pipeline (pl_source p) (node_types config)));
  let checked := checked <| pl_resolved_subpipelines := pl_resolved_subpipelines p |> in
  _ ← io_guard (max_subpipeline_depth config <? depth) Execution "Subpipeline nesting limit exceeded";
  _ ← io_lift (of_res (rt_schema (pl_input_schema checked) input (pl_name checked) "pipeline_input"));
  n ← r_call;
  m ← r_call;
  r ← io_lift (initial_run (rt_uuid n) (rt_timestamp n) (rt_uuid m) (rt_timestamp m) checked input actor
                 parent_id parent_node_id depth parent_message_id origin metadata session_id
                 session_turn_id (rt_timestamp m));
  r ← (if empty_str session_id then checkpoint r "run.created" []
       else bind_session_run r session_owner session_fence ≫= fun _ => mret r);
  _ ← (if coordinated config then mret tt else schedule r None);
  mret (id r).

(** ** Approvals *)

Definition node_visit (r : Run) (node : string) : Z := default 0 (node_visits r !! node).
Fixpoint any_approved (r : Run) (l : list Json) : tres bool :=
  match l with
  | [] => TOk false
  | j :: l =>
      a ← approval_of_json j;
      if String.eqb (ap_node_id a) (active_node r) && (Types.visit a =? node_visit r (active_node r))
         && String.eqb (decision a) "approved" then TOk true else any_approved r l
  end.
Definition approved (r : Run) : RIO bool :=
  l ← list_all KApproval (id r); io_lift (any_approved r l).

Definition approval_record (run_id : string) (a : Approval) : StoreRecord :=
  mkRecord KApproval (ap_id a) run_id (approval_to_json a).

(** [r.node_visits[node.id]] inserts a zero when the node has no entry. *)
Definition approval_request (r : Run) (node : NodeDefinition) (reason : string) : RIO (Run * list StoreRecord) :=
  n ← r_call;
  let r := r <| node_visits := <[n_id node := node_visit r (n_id node)]> (node_visits r) |> in
  let a := (((((new_approval (rt_uuid n) (rt_timestamp n)) <| ap_run_id := id r |>) <| ap_node_id := n_id node |>)
    <| ap_reason := reason |>) <| ap_action := (n_type node ++ ":" ++ binding node)%string |>)
    <| Types.visit := node_visit r (n_id node) |> in
  m ← r_call;
  let at_ := (((new_attempt (rt_uuid m) (rt_timestamp m)) <| a_run_id := id r |>) <| a_node_id := n_id node |>)
    <| a_state := NWaitingApproval |> in
  mret (r, [approval_record (id r) a; attempt_record (id r) at_]).
Definition wait_approval (r : Run) (node : NodeDefinition) (reason : string) : RIO Run :=
  request ← approval_request r node reason;
  transition request.1 WaitingApproval "approval.requested" request.2.

(** ** Resumption *)

Definition resume (i : string) : RIO unit :=
  w ← io_get;
  _ ← io_guard (negb (accepts_new_work w)) Unavailable "Instance is not accepting new work";
  r ← get_run i;
  w ← io_get;
  _ ← io_guard (bool_decide (is_Some (active w !! i))) Conflict
        "Run is still leaving its checkpoint; retry shortly";
  _ ← io_guard (negb (rs_eqb (state r) WaitingApproval || rs_eqb (state r) Paused || rs_eqb (state r) Queued))
        Conflict "Run cannot resume from this state";
  pending ← (if rs_eqb (state r) WaitingApproval then ok ← approved r; mret (negb ok) else mret false);
  _ ← io_guard pending PolicyError "Approval is pending";
  _ ← io_guard (cancellation_requested r) Conflict "Run cancellation has already been requested";
  _ ← io_guard (stopping w || (negb (coordinated config) && (max_runs config <=? active_count w)))
        Capacity "Concurrent run limit reached";
  r ← (if rs_eqb (state r) Queued then mret r else transition r Queued "run.resumed" []);
  if coordinated config then mret tt else schedule r None.

Definition finish_parent (child : Run) : RIO unit :=
  w ← io_get;
  if empty_str (parent_id child) || negb (terminal (state child)) || stopping w then mret tt
  else
    parent ← get_run (parent_id child);
    w ← io_get;
    if rs_eqb (state parent) Paused && bool_decide (active w !! id parent = None) then
      if coordinated config then
        now ← now_string;
        r_commit [run_record ((parent <| state := Queued |>) <| updated_at := now |>)]
      else resume (id parent)
    else mret tt.

(** The attempts that waited for the decision. *)
Fixpoint decided_attempts (run_id node : string) (approve : bool) (l : list Json) : RIO (list StoreRecord) :=
  match l with
  | [] => mret []
  | j :: l =>
      a ← io_lift (attempt_of_json j);
      if String.eqb (a_node_id a) node && bool_decide (a_state a = NWaitingApproval) then
        now ← now_string;
        let a := (a <| a_state := if approve then NCompleted else NFailed |>) <| a_finished_at := now |> in
        rest ← decided_attempts run_id node approve l;
        mret (attempt_record run_id a :: rest)
      else decided_attempts run_id node approve l
  end.

Definition clear_ownership (r : Run) : Run :=
  ((((r <| owner_instance_id := ""%string |>) <| lease_expires_at := ""%string |>) <| claimed_at := ""%string |>)
     <| last_renewed_at := ""%string |>) <| fencing_token := 0 |>.

Definition decide (approval_id : string) (approve : bool) (actor comment : string) : RIO unit :=
  _ ← io_guard ((128 <? size_of actor) || (2048 <? size_of comment)) Validation
        "Approval annotation exceeds limit";
  a ← (j ← r_get KApproval approval_id; io_lift (approval_of_json j));
  r ← get_run (ap_run_id a);
  w ← io_get;
  _ ← io_guard (negb (String.eqb (decision a) "pending") || negb (rs_eqb (state r) WaitingApproval)
                || negb (String.eqb (active_node r) (ap_node_id a))) Conflict "Approval is no longer pending";
  _ ← io_guard (bool_decide (is_Some (active w !! id r))) Conflict
        "Approval checkpoint is settling; retry shortly";
  _ ← io_guard (approve && (stopping w || (negb (coordinated config) && (max_runs config <=? active_count w))))
        Capacity "Concurrent run limit reached";
  now ← now_string;
  let a := (((a <| decision := if approve then "approved"%string else "rejected"%string |>)
              <| decided_at := now |>) <| ap_actor := actor |>) <| ap_comment := comment |> in
  l ← list_all KAttempt (id r);
  attempts ← decided_attempts (id r) (ap_node_id a) approve l;
  let records := approval_record (id r) a :: attempts in
  let r := if coordinated config then clear_ownership r else r in
  if approve then
    r ← transition r Queued "approval.approved" records;
    if coordinated config then mret tt else schedule r None
  else
    r ← transition (r <| error := "Human approval rejected"%string |>) Failed "approval.rejected" records;
    finish_parent r.

(** ** Cancellation *)

(** The [visited] set and the [worker_jobs] of one call of [cancel]. *)
Definition Cancelling : Type := gset string * list string.

(** The runs to cancel with a run: its current child and every run that names it as parent, in the
    order of a [std::set]. *)
Fixpoint children_of (i : string) (l : list Json) : tres (gset string) :=
  match l with
  | [] => TOk ∅
  | j :: l =>
      r ← run_of_json j;
      rest ← children_of i l;
      TOk (if String.eqb (parent_id r) i then {[id r]} ∪ rest else rest)
  end.
Definition children (r : Run) (i : string) : RIO (list string) :=
  l ← list_all KRun "";
  by_parent ← io_lift (children_of i l);
  let all := (if empty_str (child_id r) then ∅ else {[child_id r]}) ∪ by_parent in
  mret (merge_sort str_le (elements all)).

Fixpoint cancel_each (rec : string -> Cancelling -> RIO Cancelling) (l : list string) (st : Cancelling)
    : RIO Cancelling :=
  match l with
  | [] => mret st
  | c :: l =>
      child ← get_run c;
      st ← (if terminal (state child) then mret st else rec (id child) st);
      cancel_each rec l st
  end.

Fixpoint open_jobs (l : list Json) : tres (list string) :=
  match l with
  | [] => TOk []
  | j :: l =>
      job ← worker_job_of_json j;
      rest ← open_jobs l;
      TOk (if worker_job_terminal (wj_state job) then rest else wj_id job :: rest)
  end.
Definition collect_jobs (i : string) (st : Cancelling) : RIO Cancelling :=
  if has_workers config then
    l ← r_list KWorkerJob i 10000 0;
    jobs ← io_lift (open_jobs l);
    mret (st.1, st.2 ++ jobs)
  else mret st.

Definition resting (st : RunState) : bool := rs_eqb st WaitingApproval || rs_eqb st Paused || rs_eqb st Queued.
Definition stop_run (i : string) : RIO unit :=
  io_modify (fun w => w <| active := alter (fun a => a <| ar_stop := true |>) i (active w) |>).

Definition quiet {A} (m : RIO A) : RIO unit := io_catch (_ ← m; mret tt) (fun _ => mret tt).
Definition release_lease (l : LeaseRecord) : RIO unit := r_coord (fun clk => release (instance_id config) l clk) ≫= fun _ => mret tt.

(** One work item of a run that is cancelled. *)
Definition cancel_work (j : Json) : RIO unit :=
  n ← r_call;
  work ← io_lift (work_of_json (rt_uuid n) (rt_timestamp n) j);
  if ws_eqb (w_state work) WQueued then
    now ← now_string;
    let work := ((work <| w_state := WCancelled |>) <| w_error := "Parent run cancellation requested"%string |>)
                  <| w_updated_at := now |> in
    r_commit [mkRecord KNodeWork (w_id work) (w_run_id work) (work_to_json work)]
  else if ws_eqb (w_state work) WRunning then
    io_modify (fun w => w <| active_nodes := alter (fun a => a <| an_stop := true |>) (w_id work) (active_nodes w) |>)
  else mret tt.

(** The end of a cancellation in a multi-instance deployment. *)
Definition cancel_shared (r : Run) (i : string) : RIO unit :=
  w ← io_get;
  match active w !! i with
  | Some _ =>
      _ ← stop_run i;
      if resting (state r) then transition r Cancelled "run.cancelled" [] ≫= fun _ => mret tt else mret tt
  | None =>
      if resting (state r) then
        let r := r <| cancellation_requested := true |> in
        if empty_str (session_id r) then
          now ← now_string;
          r_commit [run_record ((r <| state := Cancelled |>) <| updated_at := now |>)]
        else
          lease ← r_coord (fun clk => acquire (instance_id config) ("run:" ++ i)%string (lease_ttl_ms config) clk);
          match lease with
          | None => mret tt
          | Some l =>
              let r := (r <| owner_instance_id := owner_instance l |>) <| fencing_token := lr_token l |> in
              _ ← io_cleanup (transition r Cancelled "run.cancelled" []) (quiet (release_lease l));
              quiet (release_lease l)
          end
      else mret tt
  end.

(** Pending approvals of the run are withdrawn with it. *)
Fixpoint withdrawn (run_id : string) (l : list Json) : RIO (list StoreRecord) :=
  match l with
  | [] => mret []
  | j :: l =>
      a ← io_lift (approval_of_json j);
      if String.eqb (decision a) "pending" then
        now ← now_string;
        rest ← withdrawn run_id l;
        mret (approval_record run_id ((a <| decision := "cancelled"%string |>) <| decided_at := now |>) :: rest)
      else withdrawn run_id l
  end.

Definition cancel_local (r : Run) (i : string) : RIO unit :=
  w ← io_get;
  match active w !! i with
  | Some _ =>
      _ ← stop_run i;
      if resting (state r) then transition r Cancelled "run.cancelled" [] ≫= fun _ => mret tt else mret tt
  | None => transition r Cancelled "run.cancelled" [] ≫= fun _ => mret tt
  end.

Fixpoint cancel_locked (fuel : nat) (i : string) (st : Cancelling) : RIO Cancelling :=
  match fuel with
  | O => io_throw Execution "Cancellation did not terminate"
  | S fuel =>
      _ ← io_guard (bool_decide (i ∈ st.1)) Conflict "Run cancellation cycle detected";
      let st := ({[i]} ∪ st.1, st.2) in
      r ← get_run i;
      _ ← io_guard (terminal (state r)) Conflict "Run is already terminal";
      if coordinated config then
        n ← r_call;
        _ ← r_store (request_cancellation (rt_timestamp n) i);
        works ← r_list KNodeWork i 10000 0;
        _ ← io_iter cancel_work works;
        cs ← children r i;
        st ← cancel_each (cancel_locked fuel) cs st;
        st ← collect_jobs i st;
        _ ← cancel_shared r i;
        mret st
      else
        let r := r <| cancellation_requested := true |> in
        approvals ← list_all KApproval i;
        records ← withdrawn i approvals;
        r ← checkpoint r "run.cancellation_requested" records;
        cs ← children r i;
        st ← cancel_each (cancel_locked fuel) cs st;
        st ← collect_jobs i st;
        _ ← cancel_local r i;
        mret st
  end.

(** Every visited run is stored, and a run is visited once. *)
Definition cancel_fuel (db : DB) : nat := S (length (rows_of db KRun)).

Definition worker_cancel (job_id : string) : RIO unit := fun w =>
  let n := rt_calls w in
  let '(db, r) := rt_worker_cancel n job_id (rt_db w) in
  (((with_db db w) <| rt_calls := S n |>) <| worker_cancels := worker_cancels w ++ [job_id] |>, r).

Definition cancel (i : string) : RIO unit :=
  w ← io_get;
  st ← cancel_locked (cancel_fuel (rt_db w)) i (∅, []);
  if has_workers config then io_iter (fun job => quiet (worker_cancel job)) st.2 else mret tt.

(** ** The end of an execution

    The handler [schedule] registers; [failed] says whether the coroutine ended with an exception.
    Everything it throws is caught and logged.  When it returns [true], the sessions are dispatched
    after the mutex is released. *)
Definition execution_ended (i : string) (failed : bool) : RIO bool :=
  w ← io_get;
  let lost := match active w !! i with Some a => ar_lost a | None => false end in
  let lease := active w !! i ≫= ar_lease in
  _ ← io_modify (fun w => w <| active := delete i (active w) |>);
  io_catch_all
    (ended ← get_run i;
     ended ← (if failed && negb lost && negb (terminal (state ended)) && negb (rs_eqb (state ended) WaitingApproval)
                 && negb (rs_eqb (state ended) Paused)
              then transition (ended <| error := "Unhandled executor failure"%string |>) Failed "run.failed" []
              else mret ended);
     _ ← finish_parent ended;
     w ← io_get;
     _ ← (if rs_eqb (state ended) Paused && negb (empty_str (child_id ended)) && negb (stopping w) then
            child ← get_run (child_id ended);
            if terminal (state child) then resume (id ended) else mret tt
          else mret tt);
     _ ← (match lease with
          | Some l => if coordinated config then release_lease l else mret tt
          | None => mret tt
          end);
     mret (negb (stopping w) && terminal (state ended) && negb (empty_str (session_id ended))))
    (mret false).

Definition shutdown : RIO unit :=
  w ← io_get;
  _ ← io_modify (fun w => (w <| stopping := true |>) <| reduction_stop := true |>);
  _ ← (if coordinated config && distributed_started w
       then quiet (r_coord (set_instance_state (instance_id config) "DRAINING")) else mret tt);
  io_modify (fun w => (w <| active := (fun a => a <| ar_stop := true |>) <$> active w |>)
                        <| active_nodes := (fun a => a <| an_stop := true |>) <$> active_nodes w |>).

Definition set_maintenance_mode (m : MaintenanceMode) : RIO unit := io_modify (fun w => w <| mode := m |>).
End Runtime.
