(* ===== verification/Execution.v ===== *)
(** * Execution

    Parts of [src/runtime/execution.cpp] and of the parallel bookkeeping of
    [src/runtime/runtime.cpp] that act on a run between suspension points: the locked start of an
    execution and the result of distributed parallel work. *)

From S2P Require Import Prelude Json Types Text Pipeline Yaml Db Coordination Codec Worker Store Sessions Effects Runtime Files Workspace.

Class ExecutionEnv := {
  ex_bytes :: BytesLib;
  (** [deps_.artifacts->verify(object_id, sha256, size)], when there is an artifact store. *)
  ex_verify : option (nat -> string -> string -> Z -> tres unit) }.

(** The works of a group in the order of their branches. *)
Definition work_le (a b : NodeWork) : Prop := w_index a <= w_index b.
#[global] Instance work_le_dec : RelDecision work_le.
Proof. intros a b. unfold work_le. apply _. Defined.

Section Execution.
Context `{JsonLib} `{YamlLib} {E : RuntimeEnv} {X : ExecutionEnv} (config : RuntimeConfig).

(** [get<NodeWork>()] of listed records; the defaults of missing members are drawn once. *)
Fixpoint decode_works (fresh now : string) (l : list Json) : tres (list NodeWork) :=
  match l with
  | [] => TOk []
  | j :: l => w ← work_of_json fresh now j; rest ← decode_works fresh now l; TOk (w :: rest)
  end.
Definition group_works (r : Run) : RIO (list NodeWork) :=
  l ← r_list KNodeWork (id r) 10000 0;
  n ← r_call;
  works ← io_lift (decode_works (rt_uuid n) (rt_timestamp n) l);
  mret (filter (fun w => group_id w = pending_parallel_group r) works).

(** Whether the group has work and all of it has ended. *)
Fixpoint works_ready (fresh now group : string) (found : bool) (l : list Json) : tres bool :=
  match l with
  | [] => TOk found
  | j :: l =>
      w ← work_of_json fresh now j;
      if negb (String.eqb (group_id w) group) then works_ready fresh now group found l
      else if ws_eqb (w_state w) WQueued || ws_eqb (w_state w) WRunning then TOk false
      else works_ready fresh now group true l
  end.
Definition distributed_parallel_ready (r : Run) : RIO bool :=
  if empty_str (pending_parallel_group r) then mret false
  else
    l ← r_list KNodeWork (id r) 10000 0;
    n ← r_call;
    io_lift (works_ready (rt_uuid n) (rt_timestamp n) (pending_parallel_group r) false l).

(** The manifest a branch returned, checked against the branch it came from. *)
Definition verify_files (n : nat) (verify : nat -> string -> string -> Z -> tres unit) : list Json -> tres unit :=
  fix go (l : list Json) : tres unit :=
    match l with
    | [] => TOk tt
    | entry :: l =>
        object_id ← at_ dec_string entry "object_id";
        digest ← at_ dec_string entry "sha256";
        size ← at_ dec_u64 entry "size";
        _ ← verify n object_id digest size;
        go l
    end.
Definition check_result_manifest (n : nat) (work : NodeWork) (manifest : Json) : tres unit :=
  _ ← validate_workspace_manifest manifest default_limits;
  version ← value_ dec_unsigned manifest "version" 1;
  if version =? 2 then
    match ex_verify with
    | None => tthrow StorageError "Object-backed workspace requires an artifact store"
    | Some verify =>
        provenance ← value_ dec_json manifest "provenance" (JObject []);
        foreign ← (if negb (is_object provenance) then TOk true
                   else
                     run_id ← value_ dec_string provenance "run_id" ""%string;
                     if negb (String.eqb run_id (w_run_id work)) then TOk true
                     else
                       work_id ← value_ dec_string provenance "node_work_id" ""%string;
                       if negb (String.eqb work_id (w_id work)) then TOk true
                       else
                         attempt ← value_ dec_string provenance "attempt_id" ""%string;
                         if negb (String.eqb attempt (attempt_id work)) then TOk true
                         else token ← value_ dec_u64 provenance "fencing_token" 0;
                              TOk (negb (token =? w_fencing_token work)));
        _ ← tguard foreign Conflict "Workspace artifact provenance does not match its fence";
        files ← manifest_files manifest;
        verify_files n verify files
    end
  else TOk tt.

(** The results of the branches, in order: payloads, provenance, manifests and steps. *)
Fixpoint merge_works (n : nat) (works : list NodeWork) (payloads : list Json) (provenances : list ProvenanceRecord)
    (manifests : list Json) (steps : Z) : tres (list Json * list ProvenanceRecord * list Json * Z) :=
  match works with
  | [] => TOk (payloads, provenances, manifests, steps)
  | work :: works =>
      match result work with
      | None => TThrow TStd
      | Some m =>
          manifests ← (match member (metadata m) "workspace_result_manifest" with
                       | Some manifest =>
                           _ ← check_result_manifest n work manifest;
                           TOk (manifests ++ [mk_object [("work_id", JString (w_id work));
                                                         ("attempt_id", JString (attempt_id work));
                                                         ("manifest", manifest)]%string])
                       | None => TOk manifests
                       end);
          merge_works n works (payloads ++ [payload m]) (provenances ++ provenance m) manifests
            (Z.max steps (w_steps work))
      end
  end.
Fixpoint check_completed (works : list NodeWork) : tres unit :=
  match works with
  | [] => TOk tt
  | w :: works =>
      _ ← tguard (negb (ws_eqb (w_state w) WCompleted) || match result w with Some _ => false | None => true end)
            Execution (if empty_str (w_error w) then "Distributed parallel branch failed"%string else w_error w);
      check_completed works
  end.

Definition reconcile_distributed_parallel (r : Run) : RIO Run :=
  if empty_str (pending_parallel_group r) then mret r
  else
    works ← group_works r;
    _ ← io_guard (bool_decide (works = [])) Execution "Distributed parallel work is missing";
    let works := merge_sort work_le works in
    _ ← io_lift (check_completed works);
    n ← r_call;
    merged ← io_lift (merge_works n works [] (provenance (message r)) [] 0);
    let '(payloads, provenances, manifests, total_steps) := merged in
    let m := ((message r) <| payload := JArray payloads |>) <| provenance := provenances |> in
    let m := if bool_decide (manifests = []) then m
             else m <| metadata := set_member "workspace_result_manifests" (JArray manifests) (metadata m) |> in
    mret (((((((r <| message := m |>) <| steps := total_steps |>) <| frames := [] |>)
      <| active_node := pending_parallel_join r |>) <| prepared_join := pending_parallel_join r |>)
      <| pending_parallel_group := ""%string |>) <| pending_parallel_join := ""%string |>).

(** The locked block an execution starts with; [None] when there is nothing to execute. *)
Definition start_execution (r : Run) : RIO (option Run) :=
  current ← get_run (id r);
  if terminal (state current) then mret None
  else if cancellation_requested current then
    _ ← transition config current Cancelled "run.cancelled" [];
    mret None
  else
    r ← transition config current Starting "run.starting" [];
    r ← transition config r Running "run.started" [];
    r ← reconcile_distributed_parallel r;
    mret (Some r).
End Execution.
