(* ===== verification/RunRows.v ===== *)
(** * Writes of run rows

    Which rows of the run table the transactions of the sessions change, and to what. *)

From S2P Require Import Prelude Json Types Text Db Coordination Codec Worker Store Rows Sessions SessionInv.

Abbreviation run_row := (kind_row KRun).

(** The statements of a transaction one after the other; what is left are the writes of run records. *)
Ltac truns :=
  repeat lazymatch goal with
  | |- TRows KRun _ (update_body _ _ _) => by apply trows_update
  | |- TRows KRun _ (insert_row _ _ _ _ _) => by apply trows_insert
  | |- TRows KRun _ (write_records _ _ _) => apply trows_writes
  | |- TRows KRun _ (save_session _ _) => unfold save_session
  | |- TRows KRun _ (save_turn _ _) => unfold save_turn
  | |- TRows KRun _ (insert_event _ _ _) => unfold insert_event
  | |- TRows KRun _ (mbind _ (t_lift _)) => apply trows_bind_lift; intros ? ?
  | |- TRows KRun _ (mbind _ _) => apply trows_bind; [|intros ?]
  | |- TRows KRun _ (capture_all _ _ _) => apply trows_pure, pure_capture_all
  | |- TRows KRun _ (context_snapshot _ _ _ _ _ _) => apply trows_pure; unfold context_snapshot; pure
  | |- TRows KRun _ (match _ with _ => _ end) => case_match
  | |- TRows KRun _ _ => apply trows_pure; solve [unfold lock_session; pure]
  end.

Section SessionTransactions.
Context `{L : JsonLib} (A : string -> Json -> Prop).

Lemma mrows_commit_session_run f f' n clk rs o tok ev : allowed KRun A rs ->
  MRows KRun A (commit_session_run f f' n clk rs o tok ev).
Proof.
  intros HA. unfold commit_session_run. apply mrows_bind; [apply mrows_guard|]. intros _.
  case_match; [|intros db; simpl; reflexivity]. apply mrows_bind; [apply mrows_lift|]. intros r.
  apply mrows_bind; [apply mrows_guard|]. intros _. apply mrows_tx. truns. done.
Qed.
Lemma mrows_bind_run f f' n clk sid tid run ev o tok sev :
  (forall i, at_ dec_string run "id" = TOk i -> A i (set_member "id" (JString i) run)) ->
  MRows KRun A (bind_session_turn_run f f' n clk sid tid run ev o tok sev).
Proof.
  intros HA. unfold bind_session_turn_run. do 5 (apply mrows_bind; [first [apply mrows_guard|apply mrows_lift]|]; intros ?).
  apply mrows_tx. truns. intros rc [->|[->|[]%elem_of_nil]%elem_of_cons]%elem_of_cons; [|done].
  intros _. by apply HA.
Qed.

(** The run record of a commit is stored. *)
Lemma commit_written f n rs rc ev db db' u :
  commit f n (rs ++ [rc; ev]) db = (db', Ok u) -> rc_kind rc = KRun -> rc_kind ev <> KRun ->
  exists rid seq, kind_row KRun db' (rc_id rc) = Some (mkRow rid (rc_value rc) seq).
Proof.
  intros Hc Hk He. unfold commit, store_tx in Hc. rewrite transaction_ok in Hc. revert db Hc.
  induction rs as [|x rs IH]; intros db Hc; simpl in Hc.
  - apply t_bind_ok in Hc as (d1 & [] & H1 & Hc). apply t_bind_ok in Hc as (d2 & [] & H2 & [= <-]).
    apply write_record_ok in H1 as (_ & _ & _ & _ & _ & _ & [(? & _)|(_ & seq & Ht & _)]); [congruence|].
    assert (Hrow : kind_row KRun d2 (rc_id rc) = kind_row KRun d1 (rc_id rc)).
    { destruct (trows_write KRun (fun _ _ => False) f n ev (fun H => He H) d1 (rc_id rc)) as [Hs|(? & ? & ? & _ & [])].
      by rewrite H2 in Hs. }
    rewrite Hrow. unfold kind_row. rewrite Ht, Hk, lookup_insert_eq. eauto.
  - apply t_bind_ok in Hc as (d1 & [] & _ & Hc). by apply IH in Hc.
Qed.
End SessionTransactions.
