(* ===== verification/Lifecycle.v ===== *)
(** * The life of a run

    Properties of the operations of [Runtime] on a single instance: which run rows an operation
    writes, that stored states move along the transition table, that a finished run stays finished,
    and that the cancellation of a tree of runs terminates. *)

From S2P Require Import Prelude Json Types Samples Text Pipeline Yaml Db Coordination Codec Worker Store Rows Sessions SessionInv RunRows Effects Runtime Files Workspace Execution.

(** ** The stored state of a run *)

Section Stored.
Context `{L : JsonLib}.

Definition body_state (body : Json) : option RunState :=
  match at_ run_state_of_json body "state" with TOk s => Some s | TThrow _ => None end.
Definition run_st (w : RT) (i : string) : option RunState :=
  run_row (rt_db w) i ≫= fun row => body_state (row_body row).

(** A row under the id of its run, with a state. *)
Definition row_ok (i : string) (body : Json) : Prop :=
  at_ dec_string body "id" = TOk i /\ is_Some (body_state body).
Definition WF (w : RT) : Prop := forall i row, run_row (rt_db w) i = Some row -> row_ok i (row_body row).

(** Moves along the transition table. *)
Definition moves : RunState -> RunState -> Prop := rtc (fun a b => valid_transition a b = true).

Lemma run_of_json_id j r : run_of_json j = TOk r -> at_ dec_string j "id" = TOk (id r).
Proof.
  unfold run_of_json. intros Hr. destruct (at_ dec_string j "id") as [x|e]; [|done]. cbn [mbind tres_bind] in Hr.
  repeat (match type of Hr with (?m ≫= _) = _ => destruct m as [?|?]; [|discriminate Hr]; cbn [mbind tres_bind] in Hr end).
  by injection Hr as <-.
Qed.
Lemma run_of_json_state j r : run_of_json j = TOk r -> body_state j = Some (state r).
Proof.
  unfold run_of_json, body_state. intros Hr. destruct (at_ run_state_of_json j "state") as [x|e]; cbn [mbind tres_bind] in Hr.
  all: repeat (match type of Hr with (?m ≫= _) = _ => destruct m as [?|?]; [|discriminate Hr]; cbn [mbind tres_bind] in Hr end).
  all: by simplify_eq.
Qed.
End Stored.

(** ** What the operations do to the stored states *)

(** The subscribers of the bus and the worker manager do not write run records. *)
Class RuntimeEnvLaws (E : RuntimeEnv) : Prop := {
  publish_runs : forall n e db i, run_row (rt_publish n e db) i = run_row db i;
  worker_cancel_runs : forall n j db i, run_row (rt_worker_cancel n j db).1 i = run_row db i }.

Section States.
Context `{L : JsonLib} {HL : JsonLaws L} `{Y : YamlLib} {E : RuntimeEnv} {HE : RuntimeEnvLaws E}.

(** The run rows and the executions are left alone. *)
Definition same (w w' : RT) : Prop :=
  (forall i, run_row (rt_db w') i = run_row (rt_db w) i) /\ active w' = active w.
#[global] Instance same_preorder : PreOrder same.
Proof.
  split; [done|]. intros a b c [Hab Ha] [Hbc Hb]. split; [|congruence]. intros i. by rewrite Hbc.
Qed.
Lemma same_st w w' i : same w w' -> run_st w' i = run_st w i.
Proof. intros [Hs _]. unfold run_st. by rewrite Hs. Qed.

(** Stored states move along the table; those of the runs in [V] do not move, and those of
    running executions move only while they rest; an execution is not forgotten. *)
Record moved (V : gset string) (w w' : RT) : Prop := {
  mv_wf : WF w -> WF w';
  mv_state : WF w -> forall i s, run_st w i = Some s -> exists s', run_st w' i = Some s' /\ moves s s'
    /\ ((i ∈ V \/ (i ∈ dom (active w) /\ resting s = false)) -> s' = s);
  mv_active : WF w -> dom (active w) ⊆ dom (active w') }.
#[global] Instance moved_preorder V : PreOrder (moved V).
Proof.
  split.
  - intros w. split; [done| |done]. intros _ i s Hs. exists s. split_and!; [done|apply rtc_refl|done].
  - intros a b c Hab Hbc. split.
    + intros Hw. by apply (mv_wf _ _ _ Hbc), (mv_wf _ _ _ Hab).
    + intros Hw i s Hs. destruct (mv_state _ _ _ Hab Hw i s Hs) as (s1 & H1 & Hm1 & Hf1).
      destruct (mv_state _ _ _ Hbc (mv_wf _ _ _ Hab Hw) i s1 H1) as (s2 & H2 & Hm2 & Hf2).
      exists s2. split_and!; [done|unfold moves in *; by etransitivity|]. intros Hf. specialize (Hf1 Hf) as ->.
      apply Hf2. destruct Hf as [Hv|[Hd Hr]]; [by left|right]. split; [|done]. by apply (mv_active _ _ _ Hab).
    + intros Hw. etransitivity; [by apply (mv_active _ _ _ Hab)|].
      by apply (mv_active _ _ _ Hbc), (mv_wf _ _ _ Hab).
Qed.
Lemma same_moved V w w' : same w w' -> moved V w w'.
Proof.
  intros Hs. split.
  - intros Hw i row Hrow. rewrite (proj1 Hs) in Hrow. by apply Hw.
  - intros _ i s Hi. exists s. rewrite (same_st _ _ _ Hs). split_and!; [done|apply rtc_refl|done].
  - by rewrite (proj2 Hs).
Qed.
Lemma moved_wf V w w' : (WF w -> moved V w w') -> moved V w w'.
Proof. intros Hm. split; intros Hw; by apply Hm. Qed.
Lemma moved_weaken V V' w w' : V ⊆ V' -> moved V' w w' -> moved V w w'.
Proof.
  intros HV [Hw Hs Ha]. split; [done| |done]. intros Hwf i s Hi. destruct (Hs Hwf i s Hi) as (s' & ? & ? & Hf).
  exists s'. split_and!; [done..|]. intros Hc. apply Hf. set_solver.
Qed.

(** *** Operations that leave the runs alone *)

Lemma same_call : Always same r_call.
Proof. intros w. by split. Qed.
Lemma same_fresh : Always same fresh_id.
Proof. intros w. by split. Qed.
Lemma same_now : Always same now_string.
Proof. intros w. by split. Qed.
Lemma same_store {X} (m : M DB X) : MRows KRun (fun _ _ => False) m -> Always same (r_store m).
Proof.
  intros Hm w. unfold r_store. specialize (Hm (rt_db w)). destruct (m (rt_db w)) as [db r]. split; [|done].
  intros i. simpl. destruct (Hm i) as [Hi|(? & ? & ? & _ & [])]. done.
Qed.
Lemma same_get k i : Always same (r_get k i).
Proof. apply same_store, mrows_get. Qed.
Lemma same_list k run_id limit offset : Always same (r_list k run_id limit offset).
Proof. apply same_store, mrows_list. Qed.
Lemma same_publish e : Always same (publish e).
Proof. intros w. split; [|done]. intros i. apply publish_runs. Qed.
Lemma same_commit rs : Forall (fun rc => rc_kind rc <> KRun) rs -> Always same (r_commit rs).
Proof.
  intros Hrs. unfold r_commit. apply always_bind; [apply _|apply same_call|]. intros n.
  apply same_store, mrows_commit. intros rc Hin Hk. rewrite Forall_forall in Hrs. by destruct (Hrs _ Hin).
Qed.
End States.

Create HintDb same.
#[export] Hint Resolve same_call same_fresh same_now same_get same_list same_publish always_ret always_lift
  always_get : same.
#[export] Hint Extern 2 (PreOrder _) => apply _ : same.
(** An operation built from operations that leave the runs alone. *)
Ltac stays :=
  repeat first
    [ solve [eauto 2 with same] | apply always_bind; [apply _| |intros ?] | case_match
    | apply always_iter; [apply _|intros ?] | apply always_catch; [apply _| |intros ?]
    | apply always_when; [apply _|] ].

Section Unchanged.
Context `{L : JsonLib} {HL : JsonLaws L} `{Y : YamlLib} {E : RuntimeEnv} {HE : RuntimeEnvLaws E}.
Context (config : RuntimeConfig).

Lemma same_get_run i : Always same (get_run i).
Proof. unfold get_run. stays. Qed.
Lemma same_list_pages fuel k run_id : forall offset, Always same (list_pages fuel k run_id offset).
Proof. induction fuel as [|fuel IH]; intros offset; cbn -[r_list]; stays; apply IH. Qed.
Lemma same_list_all k run_id : Always same (list_all k run_id).
Proof. apply same_list_pages. Qed.
Lemma same_approved r : Always same (approved r).
Proof. unfold approved. apply always_bind; [apply _|apply same_list_all|]. intros l. stays. Qed.
Lemma same_decided run_id node ok l : Always same (decided_attempts run_id node ok l).
Proof. induction l as [|j l IH]; cbn; stays; exact IH. Qed.
Lemma same_withdrawn run_id l : Always same (withdrawn run_id l).
Proof. induction l as [|j l IH]; cbn; stays; exact IH. Qed.
Lemma same_children r i : Always same (children r i).
Proof. unfold children. apply always_bind; [apply _|apply same_list_all|]. intros l. stays. Qed.
Lemma same_jobs i st : Always same (collect_jobs config i st).
Proof. unfold collect_jobs. stays. Qed.
Lemma same_settle r rs : Always same (settle_continuations r rs).
Proof. unfold settle_continuations. stays. Qed.
End Unchanged.
#[export] Hint Resolve same_get_run same_list_all same_approved same_decided same_withdrawn same_children
  same_jobs same_settle : same.

(** *** Checkpoints *)

Section Checkpoints.
Context `{L : JsonLib} {HL : JsonLaws L} `{Y : YamlLib} {E : RuntimeEnv} {HE : RuntimeEnvLaws E}.
Context (config : RuntimeConfig) (single : coordinated config = false).

Lemma get_run_ok i w w' r : get_run i w = (w', TOk r) ->
  same w w' /\ run_st w i = Some (state r) /\ (WF w -> id r = i).
Proof.
  intros Hg. split; [exact (always_run _ _ _ _ _ (same_get_run i) Hg)|].
  unfold get_run in Hg. apply io_bind_ok in Hg as (w1 & j & Hj & Hr). injection Hr as -> Hr.
  unfold r_get, r_store in Hj.
  destruct (get_record KRun i (rt_db w)) as [db res] eqn:Ht. injection Hj as <- Hres.
  apply of_res_ok in Hres as ->. apply get_record_ok in Ht as (-> & row & Hrow & ->).
  assert (Hrr : run_row (rt_db w) i = Some row) by done. split.
  - unfold run_st. rewrite Hrr. by apply run_of_json_state.
  - intros Hw. destruct (Hw _ _ Hrr) as [Hid _]. apply run_of_json_id in Hr. congruence.
Qed.

(** The row of the run, with its state, is what a checkpoint may write. *)
Definition wrote (r : Run) (i : string) (body : Json) : Prop :=
  i = id r /\ at_ dec_string body "id" = TOk i /\ body_state body = Some (state r).
Definition writes (r : Run) (w w' : RT) : Prop :=
  active w' = active w /\ row_steps KRun (wrote r) (rt_db w) (rt_db w').
#[global] Instance writes_preorder r : PreOrder (writes r).
Proof.
  split; [split; [done|reflexivity]|]. intros a b c [Ha Hab] [Hb Hbc]. split; [congruence|].
  by transitivity (rt_db b).
Qed.
Lemma same_writes r w w' : same w w' -> writes r w w'.
Proof. intros [Hs Ha]. split; [done|]. by apply row_steps_same. Qed.
Lemma writes_ext r r' w w' : id r' = id r -> state r' = state r -> writes r' w w' -> writes r w w'.
Proof.
  intros Hi Hs [Ha Hw]. split; [done|]. intros i. destruct (Hw i) as [Hi'|(a & b & c & Hr & Hb)]; [by left|].
  right. exists a, b, c. split; [done|]. unfold wrote in *. by rewrite <- Hi, <- Hs.
Qed.
Lemma writes_store {X} r (m : M DB X) : MRows KRun (wrote r) m -> Always (writes r) (r_store m).
Proof.
  intros Hm w. unfold r_store. specialize (Hm (rt_db w)). destruct (m (rt_db w)) as [db x]. by split.
Qed.
Lemma run_body_id r : at_ dec_string (run_to_json r) "id" = TOk (id r).
Proof. apply dec_string_of. Qed.
Lemma run_body_state r : body_state (run_to_json r) = Some (state r).
Proof.
  unfold body_state, at_. change (member (run_to_json r) "state") with (Some (run_state_to_json (state r))).
  cbv beta iota. by rewrite run_state_roundtrip.
Qed.
Lemma wrote_run r r' : id r' = id r -> state r' = state r -> wrote r (id r') (run_to_json r').
Proof. intros Hi Hs. split_and!; [done|apply run_body_id|]. by rewrite run_body_state, Hs. Qed.

(** The records that accompany a checkpoint are not runs. *)
Definition other (rs : list StoreRecord) : Prop := Forall (fun rc => rc_kind rc <> KRun) rs.
Lemma other_nil : other [].
Proof. by apply Forall_nil. Qed.
Lemma settle_other r rs w w' rs' : settle_continuations r rs w = (w', TOk rs') -> other rs -> other rs'.
Proof.
  unfold settle_continuations. intros Hs Hrs. apply io_bind_ok in Hs as (w1 & l & _ & Hs).
  apply io_bind_ok in Hs as (w2 & c & _ & [= _ <-]). apply Forall_app. split.
  - apply Forall_forall. intros rc [_ Hin]%list_elem_of_filter. unfold other in Hrs. rewrite Forall_forall in Hrs. auto.
  - apply Forall_forall. intros rc. rewrite list_elem_of_In, in_flat_map. intros ([k j] & _ & Hin).
    unfold settle_candidate in Hin. case_match; simpl in Hin; naive_solver.
Qed.
Lemma allowed_checkpoint r r' rs ev : other rs -> rc_kind ev <> KRun -> id r' = id r -> state r' = state r ->
  allowed KRun (wrote r) (rs ++ [run_record r'; ev]).
Proof.
  intros Hrs Hev Hi Hs rc [Hin|[->|[->|[]%elem_of_nil]%elem_of_cons]%elem_of_cons]%elem_of_app Hk.
  - unfold other in Hrs. rewrite Forall_forall in Hrs. by destruct (Hrs _ Hin).
  - by apply wrote_run.
  - done.
Qed.

Definition same_run (r r' : Run) : Prop :=
  id r' = id r /\ state r' = state r /\ session_id r' = session_id r /\ parent_id r' = parent_id r.

Lemma checkpoint_writes r type rs : other rs -> Always (writes r) (checkpoint config r type rs).
Proof.
  intros Hrs. unfold checkpoint. apply (always_bind_post (writes r) other).
  { destruct (ends_session_turn r); [|apply always_ret, _].
    eapply always_mono; [apply same_writes|apply same_settle]. }
  { intros w w1 rs' Hset. destruct (ends_session_turn r); [by eapply settle_other|]. by injection Hset as _ <-. }
  intros rs' Hrs'. apply always_bind; [apply _| |].
  { eapply always_mono; [apply same_writes|]. stays. }
  intros stored. set (r1 := match stored with Some _ => _ | None => _ end).
  assert (Hr1 : id r1 = id r /\ state r1 = state r) by (by destruct stored).
  clearbody r1. destruct Hr1. do 4 (apply always_bind; [apply _|eapply always_mono; [apply same_writes|stays]|intros ?]).
  apply always_bind; [apply _| |intros ?].
  - apply always_catch; [apply _| |intros e; rewrite single; simpl; stays].
    rewrite single. case_match; simpl.
    + do 4 (apply always_bind; [apply _|eapply always_mono; [apply same_writes|stays]|intros ?]).
      apply writes_store, mrows_commit_session_run. by apply allowed_checkpoint.
    + apply always_bind; [apply _|eapply always_mono; [apply same_writes|stays]|intros ?].
      apply writes_store, mrows_commit. by apply allowed_checkpoint.
  - apply always_bind; [apply _|eapply always_mono; [apply same_writes|stays]|intros ?]. apply always_ret, _.
Qed.

Lemma checkpoint_ok r type rs w w' r' : checkpoint config r type rs w = (w', TOk r') ->
  same_run r r' /\ (ends_session_turn r = false -> run_st w' (id r) = Some (state r)).
Proof.
  unfold checkpoint. intros Hc. apply io_bind_ok in Hc as (w1 & rs' & _ & Hc).
  apply io_bind_ok in Hc as (w2 & stored & _ & Hc). revert Hc.
  set (r1 := match stored with Some _ => _ | None => _ end).
  assert (Hr1 : same_run r r1) by (by destruct stored). clearbody r1. intros Hc.
  apply io_bind_ok in Hc as (w3 & now & _ & Hc). apply io_bind_ok in Hc as (w4 & fresh & _ & Hc).
  apply io_bind_ok in Hc as (w5 & stamp & _ & Hc). apply io_bind_ok in Hc as (w6 & node & _ & Hc).
  apply io_bind_ok in Hc as (w7 & u & Hcommit & Hc). apply io_bind_ok in Hc as (w8 & u' & Hpub & Hc).
  injection Hc as <- <-. destruct Hr1 as (Hi & Hs & Hses & Hp). split; [done|]. intros He.
  replace (ends_session_turn (r1 <| updated_at := now |>)) with false in Hcommit
    by (unfold ends_session_turn in *; simpl; by rewrite Hses, Hs).
  rewrite single in Hcommit. cbn [andb] in Hcommit. apply io_catch_ok in Hcommit as [Hcommit|(w9 & e & _ & Hh)]; [|done].
  unfold r_commit in Hcommit. apply io_bind_ok in Hcommit as (w9 & n & _ & Hcommit).
  unfold r_store in Hcommit. destruct (commit _ _ _ (rt_db w9)) as [db res] eqn:Hcm. injection Hcommit as <- Hres.
  apply of_res_ok in Hres as ->. apply commit_written in Hcm as (rid & seq & Hrow); [|done..].
  pose proof (always_run _ _ _ _ _ (same_publish _) Hpub) as Hsame.
  rewrite (same_st _ _ _ Hsame). unfold run_st. change (rt_db (with_db db w9)) with db.
  simpl in Hrow. rewrite <- Hi, Hrow. simpl. by rewrite run_body_state, <- Hs.
Qed.
End Checkpoints.

(** ** Operations move the stored states along the table *)

Section Moves.
Context `{L : JsonLib} {HL : JsonLaws L} `{Y : YamlLib} {E : RuntimeEnv} {HE : RuntimeEnvLaws E}.
Context (config : RuntimeConfig) (single : coordinated config = false).

Lemma writes_moved V r w w' : writes r w w' ->
  (forall s, run_st w (id r) = Some s -> moves s (state r)
     /\ ((id r ∈ V \/ (id r ∈ dom (active w) /\ resting s = false)) -> state r = s)) ->
  moved V w w'.
Proof.
  intros [Ha Hw] Hr. split.
  - intros Hwf i row Hrow. destruct (Hw i) as [Hs|(a & b & c & Hs & _ & Hid & Hst)].
    + rewrite Hs in Hrow. by apply Hwf.
    + rewrite Hs in Hrow. injection Hrow as <-. split; [done|]. simpl. rewrite Hst. by eexists.
  - intros Hwf i s Hi. destruct (Hw i) as [Hs|(a & b & c & Hs & -> & _ & Hst)].
    + exists s. unfold run_st. rewrite Hs. split_and!; [done|apply rtc_refl|done].
    + exists (state r). destruct (Hr s Hi) as [Hm Hf]. split_and!; [|done..]. unfold run_st. by rewrite Hs.
  - by rewrite Ha.
Qed.
Lemma moved_bind_same V w0 w {X Z} (m : RIO X) (f : X -> RIO Z) : same w0 w -> Always same m ->
  (forall w1 a, m w = (w1, TOk a) -> same w0 w1 -> moved V w0 (f a w1).1) -> moved V w0 ((m ≫= f) w).1.
Proof.
  intros H0 Hm Hf. unfold mbind, io_bind. destruct (m w) as [w1 [a|x]] eqn:Hr.
  - apply Hf; [done|]. etransitivity; [exact H0|]. by apply (always_run _ _ _ _ _ Hm Hr).
  - apply same_moved. etransitivity; [exact H0|]. by apply (always_run _ _ _ _ _ Hm Hr).
Qed.
Lemma moved_same {X} V (m : RIO X) : Always same m -> Always (moved V) m.
Proof. apply always_mono, same_moved. Qed.

Lemma transition_moved V r to type rs w : other rs -> run_st w (id r) = Some (state r) -> id r ∉ V ->
  (id r ∈ dom (active w) -> resting (state r) = true) ->
  moved V w (transition config r to type rs w).1.
Proof.
  intros Hrs Hst HV Hact. unfold transition. apply moved_bind_same; [done|stays|].
  intros w1 u Hg Hs. injection Hg as <- Hg. apply tguard_ok, negb_false_iff in Hg.
  apply (writes_moved V (r <| state := to |>)); [by apply checkpoint_writes|]. intros s Hs'.
  change (id (r <| state := to |>)) with (id r) in *. rewrite Hst in Hs'. injection Hs' as <-. split.
  - by apply rtc_once.
  - intros [?|[Hd Hn]]; [done|]. rewrite Hact in Hn; done.
Qed.
(** The transition of a run that was read from the store just before. *)
Lemma transition_read V r r1 to type rs w w1 : other rs -> same w w1 -> run_st w (id r) = Some (state r) ->
  id r ∉ V -> (id r ∈ dom (active w) -> resting (state r) = true) -> id r1 = id r -> state r1 = state r ->
  moved V w (transition config r1 to type rs w1).1.
Proof.
  intros Hrs Hs Hst HV Hact Hi He. etransitivity; [by apply same_moved|].
  apply transition_moved; [done|rewrite Hi, He, (same_st _ _ _ Hs); done|by rewrite Hi|].
  by rewrite Hi, He, (proj2 Hs).
Qed.
Lemma transition_ok r to type rs w w' r' : transition config r to type rs w = (w', TOk r') ->
  valid_transition (state r) to = true /\ id r' = id r /\ state r' = to /\ session_id r' = session_id r
  /\ (ends_session_turn (r <| state := to |>) = false -> run_st w' (id r) = Some to).
Proof.
  unfold transition. intros Ht. apply io_bind_ok in Ht as (w1 & u & Hg & Ht). injection Hg as <- Hg.
  apply tguard_ok, negb_false_iff in Hg. apply (checkpoint_ok _ single) in Ht as [(Hi & Hs & Hses & _) Hst]. done.
Qed.

Lemma schedule_moved V r lease : Always (moved V) (schedule config r lease).
Proof.
  unfold schedule. do 4 (apply always_bind; [apply _|apply moved_same; stays|intros ?]).
  intros w. split; [done| |].
  - intros _ i s Hi. exists s. split_and!; [done|apply rtc_refl|done].
  - intros _. simpl. rewrite dom_insert_L. set_solver.
Qed.
Lemma moved_then V w0 w {X Z} (m : RIO X) (f : X -> RIO Z) : moved V w0 (m w).1 ->
  (forall a, Always (moved V) (f a)) -> moved V w0 ((m ≫= f) w).1.
Proof.
  intros Hm Hf. unfold mbind, io_bind. destruct (m w) as [w1 [a|x]]; [|exact Hm].
  etransitivity; [exact Hm|apply Hf].
Qed.

Lemma resume_moved i : Always (moved ∅) (resume config i).
Proof.
  intros w. apply moved_wf. intros Hw. unfold resume.
  apply moved_bind_same; [done|stays|]. intros w1 a Ha _. injection Ha as <- <-.
  apply moved_bind_same; [done|stays|]. intros w1 u Hg Hs. injection Hg as <- _.
  apply moved_bind_same; [done|stays|]. intros w1 r Hr Hs1. apply get_run_ok in Hr as (_ & Hst & Hid).
  specialize (Hid Hw) as <-. apply moved_bind_same; [done|stays|]. intros w2 a Ha _. injection Ha as <- <-.
  apply moved_bind_same; [done|stays|]. intros w2 u1 Hg _. injection Hg as <- Hg.
  apply tguard_ok, bool_decide_eq_false in Hg. rewrite (proj2 Hs1) in Hg.
  do 5 (apply moved_bind_same; [done|stays|]; intros ? ? _ ?).
  apply moved_then; [|intros ?; rewrite single; apply schedule_moved]. case_match; [by apply same_moved|].
  apply (transition_read _ r); try done; [apply other_nil|]. intros Hd. by apply elem_of_dom in Hd.
Qed.

Lemma finish_parent_moved child : Always (moved ∅) (finish_parent config child).
Proof.
  unfold finish_parent. apply always_bind; [apply _|apply moved_same; stays|]. intros w0.
  case_match; [apply moved_same; stays|]. do 2 (apply always_bind; [apply _|apply moved_same; stays|intros ?]).
  rewrite single. case_match; [apply resume_moved|apply moved_same; stays].
Qed.

Lemma decided_other run_id node ok l : forall w w' rs,
  decided_attempts run_id node ok l w = (w', TOk rs) -> other rs.
Proof.
  induction l as [|j l IH]; intros w w' rs Hd; cbn in Hd; [injection Hd as _ <-; constructor|].
  apply io_bind_ok in Hd as (w1 & a & _ & Hd). case_match; [|by eapply IH].
  apply io_bind_ok in Hd as (w2 & now & _ & Hd). apply io_bind_ok in Hd as (w3 & rest & Hrest & Hd).
  injection Hd as _ <-. constructor; [done|by eapply IH].
Qed.
Lemma withdrawn_other run_id l : forall w w' rs, withdrawn run_id l w = (w', TOk rs) -> other rs.
Proof.
  induction l as [|j l IH]; intros w w' rs Hd; cbn in Hd; [injection Hd as _ <-; constructor|].
  apply io_bind_ok in Hd as (w1 & a & _ & Hd). case_match; [|by eapply IH].
  apply io_bind_ok in Hd as (w2 & now & _ & Hd). apply io_bind_ok in Hd as (w3 & rest & Hrest & Hd).
  injection Hd as _ <-. constructor; [done|by eapply IH].
Qed.

Lemma decide_moved a ok actor comment : Always (moved ∅) (decide config a ok actor comment).
Proof.
  intros w. apply moved_wf. intros Hw. unfold decide. rewrite single.
  apply moved_bind_same; [done|stays|]. intros w1 u1 _ H1.
  apply moved_bind_same; [done|stays|]. intros w2 ap _ H2.
  apply moved_bind_same; [done|stays|]. intros w3 r Hr H3. apply get_run_ok in Hr as (_ & Hst & Hid).
  assert (Hw2 : WF w2) by (by apply (mv_wf ∅ w w2 (same_moved _ _ _ H2))).
  rewrite <- (Hid Hw2) in Hst. rewrite (same_st _ _ _ H2) in Hst.
  apply moved_bind_same; [done|stays|]. intros w4 x Hx _. injection Hx as <- <-.
  apply moved_bind_same; [done|stays|]. intros w4 u2 _ H4.
  apply moved_bind_same; [done|stays|]. intros w5 u3 Hg H5. injection Hg as <- Hg.
  apply tguard_ok, bool_decide_eq_false in Hg. rewrite (proj2 H3) in Hg.
  do 3 (apply moved_bind_same; [done|stays|]; intros ? ? _ ?).
  apply moved_bind_same; [done|stays|]. intros w9 rs Hrs H9. apply decided_other in Hrs. cbv zeta.
  assert (Hact : id r ∈ dom (active w) -> resting (state r) = true) by (intros Hd; by apply elem_of_dom in Hd).
  case_match.
  - apply moved_then; [|intros ?; apply schedule_moved].
    apply (transition_read _ r); try done. by constructor.
  - apply moved_then; [|intros ?; apply finish_parent_moved].
    apply (transition_read _ r); try done. by constructor.
Qed.

(** *** Cancellation *)

(** Only flags of the executions change. *)
Lemma flags_moved V w f : (forall i, i ∈ dom (active w) -> i ∈ dom (f (active w))) ->
  moved V w (w <| active := f (active w) |>).
Proof.
  intros Hf. split; [done| |done]. intros _ i s Hi. exists s. split_and!; [done|apply rtc_refl|done].
Qed.
Lemma stop_moved V i : Always (moved V) (stop_run i).
Proof. intros w. apply (flags_moved V w (alter _ i)). intros j. by rewrite dom_alter_L. Qed.

Lemma cancel_local_moved V r w : id r ∉ V -> run_st w (id r) = Some (state r) ->
  moved V w (cancel_local config r (id r) w).1.
Proof.
  intros HV Hst. unfold cancel_local. apply moved_bind_same; [done|stays|].
  intros w1 a Ha _. injection Ha as <- <-. destruct (active w !! id r) as [x|] eqn:Hx.
  - rewrite (io_bind_run _ _ w _ _ eq_refl). etransitivity; [apply (stop_moved V (id r))|].
    destruct (resting (state r)) eqn:Hrest; [|reflexivity].
    apply moved_then; [|intros ?; apply moved_same; stays]. by apply transition_moved; [apply other_nil|..].
  - apply moved_then; [|intros ?; apply moved_same; stays].
    apply transition_moved; [apply other_nil|done..|]. intros Hd%elem_of_dom. by rewrite Hx in Hd; destruct Hd.
Qed.

(** The recursive calls visit more runs, and leave the visited ones alone. *)
Definition cancels (rec : string -> Cancelling -> RIO Cancelling) : Prop :=
  forall i st, Always (moved st.1) (rec i st)
    /\ forall w w' st', rec i st w = (w', TOk st') -> st.1 ⊆ st'.1.

Lemma cancel_each_moved rec l : cancels rec -> forall st, Always (moved st.1) (cancel_each rec l st)
  /\ forall w w' st', cancel_each rec l st w = (w', TOk st') -> st.1 ⊆ st'.1.
Proof.
  intros Hrec. induction l as [|c l IH]; intros st; cbn [cancel_each].
  { split; [apply moved_same; stays|]. by intros w w' st' [= _ <-]. }
  split.
  - apply always_bind; [apply _|apply moved_same; stays|]. intros child.
    apply (always_bind_post _ (fun st' : Cancelling => st.1 ⊆ st'.1)).
    + case_match; [apply moved_same; stays|apply Hrec].
    + intros w w1 st'. case_match; [by intros [= _ <-]|apply Hrec].
    + intros st' Hsub. eapply always_mono; [intros ? ?; by apply moved_weaken|]. apply IH.
  - intros w w' st' Hc. apply io_bind_ok in Hc as (w1 & child & _ & Hc). apply io_bind_ok in Hc as (w2 & st1 & H1 & Hc).
    etransitivity; [|by eapply IH]. case_match; [by injection H1 as _ <-|by eapply Hrec].
Qed.

(** The next operation of a cancellation leaves more runs alone than the whole. *)
Lemma moved_bind V V' w0 w {X Z} (m : RIO X) (f : X -> RIO Z) : V ⊆ V' -> moved V' w0 w ->
  Always (moved V') m ->
  (forall w1 a, m w = (w1, TOk a) -> moved V' w0 w1 -> moved V w0 (f a w1).1) -> moved V w0 ((m ≫= f) w).1.
Proof.
  intros HV H0 Hm Hf. unfold mbind, io_bind. destruct (m w) as [w1 [a|x]] eqn:Hr;
    pose proof (always_run _ _ _ _ _ Hm Hr) as H1.
  - apply Hf; [done|]. by etransitivity.
  - apply (moved_weaken _ V'); [done|]. by etransitivity.
Qed.
Lemma collect_jobs_visited i st w w' st' : collect_jobs config i st w = (w', TOk st') -> st'.1 = st.1.
Proof.
  unfold collect_jobs. case_match; intros Hc; [|by injection Hc as _ <-].
  apply io_bind_ok in Hc as (w1 & l & _ & Hc). apply io_bind_ok in Hc as (w2 & l' & _ & [= _ <-]). done.
Qed.

(** The rest of the cancellation of [r], once the request is stored. *)
Lemma cancel_rest_moved rec V jobs r w0 w : cancels rec -> id r ∉ V -> run_st w0 (id r) = Some (state r) -> WF w0 ->
  moved ({[id r]} ∪ V) w0 w ->
  moved V w0 ((cs ← children r (id r); st ← cancel_each rec cs ({[id r]} ∪ V, jobs);
               st ← collect_jobs config (id r) st; _ ← cancel_local config r (id r); mret st) w).1.
Proof.
  intros Hrec HV Hst Hw H0. assert (Hsub : V ⊆ {[id r]} ∪ V) by set_solver.
  apply (moved_bind _ _ _ _ _ _ Hsub H0); [apply moved_same; stays|]. intros w1 cs _ H1.
  apply (moved_bind _ _ _ _ _ _ Hsub H1); [exact (proj1 (cancel_each_moved rec cs Hrec ({[id r]} ∪ V, jobs)))|]. intros w2 st2 _ H2.
  apply (moved_bind _ _ _ _ _ _ Hsub H2); [apply moved_same; stays|]. intros w3 st3 _ H3.
  apply moved_then; [|intros ?; apply moved_same; stays].
  etransitivity; [by eapply moved_weaken|]. apply cancel_local_moved; [done|].
  destruct (mv_state _ _ _ H3 Hw _ _ Hst) as (s & Hs & _ & Hf). rewrite Hs, Hf; [done|]. left. set_solver.
Qed.

Lemma cancel_locked_moved fuel : cancels (cancel_locked config fuel).
Proof.
  induction fuel as [|fuel IH]; intros i [V jobs]; cbn [cancel_locked]; [split; [apply moved_same; stays|done]|].
  rewrite single. split.
  - intros w. apply moved_wf. intros Hw. apply moved_bind_same; [done|stays|]. intros w1 u Hg _.
    injection Hg as <- Hg. apply tguard_ok, bool_decide_eq_false in Hg. simpl in Hg. cbv zeta.
    apply moved_bind_same; [done|stays|]. intros w1 r Hr H1. apply get_run_ok in Hr as (_ & Hst & Hid).
    specialize (Hid Hw) as <-. do 2 (apply moved_bind_same; [done|stays|]; intros ? ? _ ?).
    apply moved_bind_same; [done|stays|]. intros w9 rs Hrs H9. apply withdrawn_other in Hrs.
    set (r1 := r <| cancellation_requested := true |>).
    assert (Hck : forall x, moved x w (checkpoint config r1 "run.cancellation_requested" rs w9).1).
    { intros x. etransitivity; [by apply same_moved|]. apply (writes_moved _ r1); [by apply checkpoint_writes|].
      intros s Hs. rewrite (same_st _ _ _ H9) in Hs. change (id r1) with (id r) in Hs.
      assert (s = state r) as -> by congruence. split; [apply rtc_refl|done]. }
    unfold mbind at 1, io_bind at 1. destruct (checkpoint config r1 _ rs w9) as [w3 [r2|x]] eqn:Hc; [|exact (Hck _)].
    simpl in Hck. apply (checkpoint_ok _ single) in Hc as [(Hi2 & Hs2 & _) _].
    change (id r1) with (id r) in Hi2. change (state r1) with (state r) in Hs2. rewrite <- Hi2.
    apply cancel_rest_moved; [done|by rewrite Hi2|by rewrite Hi2, Hs2|done|apply Hck].
  - intros w w' st' Hc. apply io_bind_ok in Hc as (w1 & u & Hg & Hc). cbv zeta in Hc.
    do 6 (apply io_bind_ok in Hc as (? & ? & _ & Hc)).
    apply io_bind_ok in Hc as (w2 & st1 & H1 & Hc). apply (proj2 (cancel_each_moved _ _ IH _)) in H1.
    apply io_bind_ok in Hc as (w3 & st2 & H2 & Hc). apply io_bind_ok in Hc as (w4 & u4 & _ & Hc).
    injection Hc as _ <-. apply collect_jobs_visited in H2 as ->. simpl in *. set_solver.
Qed.

Lemma cancel_moved i : Always (moved ∅) (cancel config i).
Proof.
  unfold cancel. apply always_bind; [apply _|apply moved_same; stays|]. intros w.
  apply always_bind; [apply _|exact (proj1 (cancel_locked_moved _ _ (∅, [])))|]. intros st.
  case_match; [|apply moved_same; stays]. apply moved_same, always_iter; [apply _|]. intros j. unfold quiet.
  apply always_catch; [apply _| |intros ?; stays]. apply always_bind; [apply _| |intros ?; stays].
  clear -HE. intros w. unfold worker_cancel. pose proof (fun i => worker_cancel_runs (rt_calls w) j (rt_db w) i) as Hr.
  destruct (rt_worker_cancel _ j (rt_db w)) as [db res]. by split.
Qed.

(** *** The end of an execution, shutdown and new runs *)

Lemma moved_catch_all V w0 w {Z} (m h : RIO Z) : moved V w0 (m w).1 -> Always (moved V) h ->
  moved V w0 (io_catch_all m h w).1.
Proof.
  intros Hm Hh. unfold io_catch_all. destruct (m w) as [w1 [a|x]]; [exact Hm|]. etransitivity; [exact Hm|apply Hh].
Qed.
Lemma execution_ended_moved i failed w :
  moved ∅ (w <| active := delete i (active w) |>) (execution_ended config i failed w).1.
Proof.
  unfold execution_ended. rewrite (io_bind_run _ _ w w w eq_refl). cbv zeta.
  set (w1 := w <| active := delete i (active w) |>).
  rewrite (io_bind_run (io_modify (fun w => w <| active := delete i (active w) |>)) _ w w1 tt eq_refl).
  apply moved_wf. intros Hw. apply moved_catch_all; [|apply moved_same; stays].
  apply moved_bind_same; [done|stays|]. intros w2 r Hr H2. apply get_run_ok in Hr as (_ & Hst & Hid).
  specialize (Hid Hw) as Hid. apply moved_then.
  - case_match; [|by apply same_moved]. apply (transition_read _ r); try done; [apply other_nil|by rewrite Hid|].
    rewrite Hid. intros Hd. exfalso. simpl in Hd. set_solver.
  - intros ended. apply always_bind; [apply _|apply finish_parent_moved|]. intros _.
    apply always_bind; [apply _|apply moved_same; stays|]. intros w3. apply always_bind; [apply _| |intros _].
    { case_match; [|apply moved_same; stays]. apply always_bind; [apply _|apply moved_same; stays|]. intros child.
      case_match; [apply resume_moved|apply moved_same; stays]. }
    apply moved_same. rewrite single. stays.
Qed.

Lemma shutdown_moved : Always (moved ∅) (shutdown config).
Proof.
  intros w. unfold shutdown. rewrite single. split; [done| |].
  - intros _ i s Hi. exists s. split_and!; [done|apply rtc_refl|done].
  - intros _. simpl. by rewrite dom_fmap_L.
Qed.

(** Identifiers drawn from now on are not those of stored runs. *)
Definition fresh_ids (w : RT) : Prop := forall n, (rt_calls w <= n)%nat -> run_row (rt_db w) (rt_uuid n) = None.
Lemma admit_run_state parent w : (admit_run config parent w).1 = w.
Proof.
  symmetry. revert w. change (Always eq (admit_run config parent)). unfold admit_run. rewrite single.
  repeat first [apply always_bind; [apply _| |intros ?] | apply always_lift, _ | apply always_get, _
    | apply always_ret, _ | case_match].
Qed.
Lemma bind_run_writes r owner fence : Always (writes r) (bind_session_run r owner fence).
Proof.
  unfold bind_session_run. do 6 (apply always_bind; [apply _|eapply always_mono; [apply same_writes|stays]|intros ?]).
  apply always_bind; [apply _| |intros ?].
  { apply writes_store, mrows_bind_run. intros i Hi. rewrite run_body_id in Hi. injection Hi as <-.
    split_and!; [done|apply dec_string_of|]. unfold body_state, at_. rewrite member_set_ne by done.
    exact (run_body_state r). }
  apply always_bind; [apply _|eapply always_mono; [apply same_writes|stays]|intros ?].
  eapply always_mono; [apply same_writes|stays].
Qed.
Lemma initial_run_id f n fm nm c input a p pn d pm o m s t lt r :
  initial_run f n fm nm c input a p pn d pm o m s t lt = TOk r -> id r = f.
Proof.
  unfold initial_run. intros Hr.
  repeat (match type of Hr with (?m ≫= _) = _ => destruct m as [?|?]; [|discriminate Hr]; cbn [mbind tres_bind] in Hr end).
  by injection Hr as <-.
Qed.
Lemma run_moved p input actor par pn depth pm origin meta sid tid owner fence w : fresh_ids w ->
  moved ∅ w (run config p input actor par pn depth pm origin meta sid tid owner fence w).1.
Proof.
  intros Hf. unfold run. pose proof (admit_run_state par w) as Ha. unfold mbind at 1, io_bind at 1.
  destruct (admit_run config par w) as [w0 [u|x]]; simpl in Ha; subst w0; [|reflexivity].
  do 4 (apply moved_bind_same; [done|stays|]; let H := fresh in intros ? ? H _; injection H as <- _).
  apply moved_bind_same; [done|stays|]. intros w1 n Hn H1. injection Hn as <- <-.
  apply moved_bind_same; [done|stays|]. intros w2 m Hm H2.
  apply moved_bind_same; [done|stays|]. intros w3 r Hr H3. injection Hr as <- Hr. apply initial_run_id in Hr.
  assert (Hnone : forall w', same w w' -> run_st w' (id r) = None).
  { intros w' Hs. rewrite (same_st _ _ _ Hs). unfold run_st. by rewrite Hr, Hf. }
  apply moved_then.
  - etransitivity; [by apply same_moved|]. apply (writes_moved _ r); [|by intros s Hs; rewrite Hnone in Hs].
    case_match; [apply checkpoint_writes; [done|apply other_nil]|].
    apply always_bind; [apply _|apply bind_run_writes|]. intros ?. apply always_ret, _.
  - intros r'. rewrite single. apply always_bind; [apply _|apply schedule_moved|]. intros _. apply moved_same. stays.
Qed.
End Moves.

(** ** Executions *)

Section Executions.
Context `{L : JsonLib} {HL : JsonLaws L} `{Y : YamlLib} {E : RuntimeEnv} {HE : RuntimeEnvLaws E} {X : ExecutionEnv}.
Context (config : RuntimeConfig) (single : coordinated config = false).

(** A checkpoint that throws has written nothing. *)
Lemma throws_bind_same {A B} (m : RIO A) (f : A -> RIO B) w w' x : Always same m ->
  (m ≫= f) w = (w', TThrow x) ->
  same w w' \/ exists w1 a, m w = (w1, TOk a) /\ same w w1 /\ f a w1 = (w', TThrow x).
Proof.
  intros Hm Hb. apply io_bind_throw in Hb as [Ht|(w1 & a & H1 & Hf)].
  - left. by apply (always_run _ _ _ _ _ Hm Ht).
  - right. exists w1, a. split_and!; [done| |done]. by apply (always_run _ _ _ _ _ Hm H1).
Qed.
Lemma store_throws_same {A} failed (body : T A) w w' x : r_store (store_tx failed body) w = (w', TThrow x) -> same w w'.
Proof.
  unfold r_store, store_tx. destruct (transaction _ _ _ body (rt_db w)) as [db [a|e]] eqn:Ht; intros [= <- ?].
  apply transaction_throw in Ht as (Ht & _). split; [|done]. intros i. unfold kind_row. change (rt_db (with_db db w)) with db. by rewrite Ht.
Qed.
Lemma commit_throws_same rs w w' x : r_commit rs w = (w', TThrow x) -> same w w'.
Proof.
  unfold r_commit. intros Hc. apply throws_bind_same in Hc as [?|(w1 & n & _ & H1 & Hc)]; [done| |stays].
  etransitivity; [exact H1|]. by apply store_throws_same in Hc.
Qed.
Lemma session_commit_throws_same f f' n clk rs o tok ev w w' x :
  r_store (commit_session_run f f' n clk rs o tok ev) w = (w', TThrow x) -> same w w'.
Proof.
  unfold r_store. destruct (commit_session_run f f' n clk rs o tok ev (rt_db w)) as [db [a|e]] eqn:Hc; intros [= <- ?].
  assert (Ht : tables db = tables (rt_db w)); [|split; [|done]; intros i; unfold kind_row; change (rt_db (with_db db w)) with db; by rewrite Ht].
  unfold commit_session_run in Hc. apply m_bind_throw in Hc as [Hc|(d1 & [] & Hg & Hc)].
  { unfold m_guard in Hc. case_match; [by injection Hc as <- _|done]. }
  apply m_guard_ok in Hg as [_ ->]. case_match; [|by injection Hc as <- _].
  apply m_bind_throw in Hc as [Hc|(d1 & r & Hl & Hc)]; [by injection Hc as <- _|]. injection Hl as <- _.
  apply m_bind_throw in Hc as [Hc|(d1 & [] & Hg & Hc)].
  { unfold m_guard in Hc. case_match; [by injection Hc as <- _|done]. }
  apply m_guard_ok in Hg as [_ ->]. unfold store_tx in Hc. by apply transaction_throw in Hc as (Hc & _).
Qed.
Lemma checkpoint_throws r type rs w w' x : checkpoint config r type rs w = (w', TThrow x) -> same w w'.
Proof.
  unfold checkpoint. rewrite single. cbn [andb io_when]. intros Hc.
  apply throws_bind_same in Hc as [?|(w1 & rs' & _ & H1 & Hc)]; [done| |by case_match; stays].
  etransitivity; [exact H1|]. clear H1. apply throws_bind_same in Hc as [?|(w2 & st & _ & H2 & Hc)]; [done| |stays].
  etransitivity; [exact H2|]. clear H2. do 4 (apply throws_bind_same in Hc as [?|(? & ? & _ & Hs & Hc)];
    [done|etransitivity; [exact Hs|]; clear Hs|stays]).
  apply io_bind_throw in Hc as [Hc|(w8 & u & _ & Hp)].
  2: { apply io_bind_throw in Hp as [Hp|(w9 & v & _ & Hp)]; done. }
  unfold io_catch in Hc. match type of Hc with (match ?m ?w0 with _ => _ end) = _ =>
    destruct (m w0) as [w8 [v|y]] eqn:Hm end; [done|].
  assert (Hsame : w8 = w'). { destruct (error_of y); [|by injection Hc as -> _]. cbn in Hc. by injection Hc as ->. }
  subst w8. clear Hc. case_match.
  - do 4 (apply throws_bind_same in Hm as [?|(? & ? & _ & Hs & Hm)]; [done|etransitivity; [exact Hs|]; clear Hs|stays]).
    by apply session_commit_throws_same in Hm.
  - by apply commit_throws_same in Hm.
Qed.

(** Only the row of one run changes, along the table. *)
Record moved_run (i : string) (w w' : RT) : Prop := {
  mr_rows : forall j, j <> i -> run_row (rt_db w') j = run_row (rt_db w) j;
  mr_active : active w' = active w;
  mr_wf : WF w -> WF w';
  mr_state : forall s, run_st w i = Some s -> exists s', run_st w' i = Some s' /\ moves s s' }.
#[local] Instance moved_run_preorder i : PreOrder (moved_run i).
Proof.
  split.
  - intros w. split; [done..|]. intros s Hs. exists s. split; [done|apply rtc_refl].
  - intros a b c [R1 A1 W1 S1] [R2 A2 W2 S2]. split.
    + intros j Hj. by rewrite R2, R1.
    + congruence.
    + auto.
    + intros s Hs. destruct (S1 s Hs) as (s1 & H1 & M1). destruct (S2 s1 H1) as (s2 & H2 & M2).
      exists s2. split; [done|]. unfold moves in *. by etransitivity.
Qed.
Lemma same_moved_run i w w' : same w w' -> moved_run i w w'.
Proof.
  intros Hs. split; [by intros; apply Hs|by apply Hs| |].
  - intros Hw. by apply (mv_wf ∅ _ _ (same_moved _ _ _ Hs)).
  - intros s. rewrite (same_st _ _ _ Hs). intros H1. exists s. split; [done|apply rtc_refl].
Qed.
Lemma writes_moved_run r w w' : writes r w w' -> (forall s, run_st w (id r) = Some s -> moves s (state r)) ->
  moved_run (id r) w w'.
Proof.
  intros [Ha Hw] Hs. split; [|done| |].
  - intros j Hj. destruct (Hw j) as [?|(a & b & c & _ & ? & _)]; done.
  - intros Hwf j row Hrow. destruct (Hw j) as [Hj|(a & b & c & Hj & _ & Hid & Hst)]; rewrite Hj in Hrow; [by apply Hwf|].
    injection Hrow as <-. split; [done|]. simpl. rewrite Hst. by eexists.
  - intros s Hi. destruct (Hw (id r)) as [Hj|(a & b & c & Hj & _ & _ & Hst)]; unfold run_st; rewrite Hj.
    + exists s. split; [done|apply rtc_refl].
    + exists (state r). split; [done|by apply Hs].
Qed.
Lemma transition_moved_run r to type rs w : other rs -> run_st w (id r) = Some (state r) ->
  moved_run (id r) w (transition config r to type rs w).1.
Proof.
  intros Hrs Hst. unfold transition, mbind, io_bind. destruct (io_guard _ _ _ w) as [w1 [[]|x]] eqn:Hg.
  - apply pair_equal_spec in Hg as [<- Hg]. apply tguard_ok, negb_false_iff in Hg.
    set (r1 := r <| state := to |>). change (moved_run (id r1) w (checkpoint config r1 type rs w).1).
    apply writes_moved_run; [by apply checkpoint_writes|]. intros s Hs.
    change (id r1) with (id r) in Hs. rewrite Hst in Hs. injection Hs as <-. by apply rtc_once.
  - apply pair_equal_spec in Hg as [<- _]. reflexivity.
Qed.

Lemma same_reconcile r : Always same (reconcile_distributed_parallel r).
Proof.
  unfold reconcile_distributed_parallel, group_works. stays.
Qed.
Lemma reconcile_ok r w w' r' : reconcile_distributed_parallel r w = (w', TOk r') -> id r' = id r /\ state r' = state r.
Proof.
  unfold reconcile_distributed_parallel. case_match; [by intros [= _ <-]|]. intros Hr.
  apply io_bind_ok in Hr as (? & ? & _ & Hr). apply io_bind_ok in Hr as (? & ? & _ & Hr).
  apply io_bind_ok in Hr as (? & ? & _ & Hr). apply io_bind_ok in Hr as (? & ? & _ & Hr).
  apply io_bind_ok in Hr as (? & [[[? ?] ?] ?] & _ & Hr). by injection Hr as _ <-.
Qed.

(** The start of an execution. *)
Lemma start_execution_ok r w w' o : WF w -> start_execution config r w = (w', TOk o) ->
  moved_run (id r) w w'
  /\ match o with Some r' => id r' = id r /\ state r' = Running /\ run_st w' (id r) = Some Running | None => True end.
Proof.
  intros Hw Hs. unfold start_execution in Hs. apply io_bind_ok in Hs as (w1 & cur & Hg & Hs).
  apply get_run_ok in Hg as (H1 & Hst & Hid). specialize (Hid Hw) as Hid. rewrite <- Hid in *. rewrite <- (same_st _ _ _ H1) in Hst.
  apply (same_moved_run (id cur)) in H1. case_match; [by injection Hs as <- <-|]. case_match.
  - apply io_bind_ok in Hs as (w2 & ? & Ht & Hs). injection Hs as <- <-. split; [|done]. etransitivity; [exact H1|].
    pose proof (transition_moved_run cur Cancelled "run.cancelled" [] w1 other_nil Hst) as Hm. by rewrite Ht in Hm.
  - apply io_bind_ok in Hs as (w2 & r1 & Ht1 & Hs).
    pose proof (transition_moved_run cur Starting "run.starting" [] w1 other_nil Hst) as Hm1. rewrite Ht1 in Hm1.
    apply (transition_ok _ single) in Ht1 as (_ & Hi1 & Hs1 & _ & Hst1).
    assert (Hst2 : run_st w2 (id r1) = Some (state r1)).
    { rewrite Hi1, Hs1. apply Hst1. unfold ends_session_turn. simpl. apply andb_false_r. }
    apply io_bind_ok in Hs as (w3 & r2 & Ht2 & Hs).
    pose proof (transition_moved_run r1 Running "run.started" [] w2 other_nil Hst2) as Hm2. rewrite Ht2 in Hm2.
    apply (transition_ok _ single) in Ht2 as (_ & Hi2 & Hs2 & _ & Hst3). rewrite Hi1 in *.
    apply io_bind_ok in Hs as (w4 & r3 & Hrec & Hs). injection Hs as <- <-.
    pose proof (always_run _ _ _ _ _ (same_reconcile r2) Hrec) as H4. apply reconcile_ok in Hrec as [Hi3 Hs3].
    split; [|split_and!; [congruence..|]].
    + etransitivity; [exact H1|]. etransitivity; [exact Hm1|]. etransitivity; [exact Hm2|]. by apply same_moved_run.
    + rewrite (same_st _ _ _ H4). apply Hst3. unfold ends_session_turn. simpl. apply andb_false_r.
Qed.
Lemma start_execution_throws r w w' x : WF w -> start_execution config r w = (w', TThrow x) -> moved_run (id r) w w'.
Proof.
  intros Hw Hs. unfold start_execution in Hs. apply io_bind_throw in Hs as [Hg|(w1 & cur & Hg & Hs)].
  { apply same_moved_run. exact (always_run _ _ _ _ _ (same_get_run _) Hg). }
  apply get_run_ok in Hg as (H1 & Hst & Hid). specialize (Hid Hw) as Hid. rewrite <- Hid in *. rewrite <- (same_st _ _ _ H1) in Hst.
  etransitivity; [exact (same_moved_run _ _ _ H1)|]. case_match; [done|]. case_match.
  - apply io_bind_throw in Hs as [Ht|(? & ? & _ & Hs)]; [|done].
    pose proof (transition_moved_run cur Cancelled "run.cancelled" [] w1 other_nil Hst) as Hm. by rewrite Ht in Hm.
  - pose proof (transition_moved_run cur Starting "run.starting" [] w1 other_nil Hst) as Hm1.
    apply io_bind_throw in Hs as [Ht|(w2 & r1 & Ht1 & Hs)]; [by rewrite Ht in Hm1|]. rewrite Ht1 in Hm1.
    apply (transition_ok _ single) in Ht1 as (_ & Hi1 & Hs1 & _ & Hst1). etransitivity; [exact Hm1|].
    assert (Hst2 : run_st w2 (id r1) = Some (state r1)).
    { rewrite Hi1, Hs1. apply Hst1. unfold ends_session_turn. simpl. apply andb_false_r. }
    pose proof (transition_moved_run r1 Running "run.started" [] w2 other_nil Hst2) as Hm2. rewrite Hi1 in Hm2.
    apply io_bind_throw in Hs as [Ht|(w3 & r2 & Ht2 & Hs)]; [by rewrite Ht in Hm2|]. rewrite Ht2 in Hm2.
    etransitivity; [exact Hm2|]. apply same_moved_run. apply io_bind_throw in Hs as [Ht|(? & ? & _ & Hs)]; [|done].
    exact (always_run _ _ _ _ _ (same_reconcile r2) Ht).
Qed.

(** ** The system

    The runtime with the runs its executions hold in memory. *)
Record Sys := mkSys { sys_rt : RT; locals : gmap string Run }.

(** A checkpoint or a transition of an execution: the execution may have changed other fields of its
    run.  A stored resting state ends the execution. *)
Definition exec_write (r : Run) (to : RunState) (type : string) (rs : list StoreRecord) (s : Sys) : Sys :=
  match checkpoint config (r <| state := to |>) type rs (sys_rt s) with
  | (w, TOk r') => mkSys w (if resting to then delete (id r) (locals s) else <[id r := r']> (locals s))
  | (w, TThrow _) => mkSys w (<[id r := r <| state := to |>]> (locals s))
  end.

(** The steps in which no start of an execution throws; [life_step] below adds those. *)
Inductive sys_step : Sys -> Sys -> Prop :=
  | step_run p input actor par pn depth pm origin meta sid tid owner fence w l : fresh_ids w ->
      sys_step (mkSys w l) (mkSys (run config p input actor par pn depth pm origin meta sid tid owner fence w).1 l)
  | step_resume i w l : sys_step (mkSys w l) (mkSys (resume config i w).1 l)
  | step_cancel i w l : sys_step (mkSys w l) (mkSys (cancel config i w).1 l)
  | step_decide a ok actor comment w l : sys_step (mkSys w l) (mkSys (decide config a ok actor comment w).1 l)
  | step_shutdown w l : sys_step (mkSys w l) (mkSys (shutdown config w).1 l)
  | step_mode m w l : sys_step (mkSys w l) (mkSys (set_maintenance_mode m w).1 l)
  | step_start r w w' l o : id r ∈ dom (active w) -> l !! id r = None -> start_execution config r w = (w', TOk o) ->
      sys_step (mkSys w l) (mkSys w' (match o with Some r' => <[id r := r']> l | None => l end))
  | step_write r r' to type rs s : locals s !! id r = Some r' -> state r = state r' ->
      to = state r \/ valid_transition (state r) to = true -> other rs ->
      sys_step s (exec_write r to type rs s)
  | step_end i failed w l : sys_step (mkSys w l) (mkSys (execution_ended config i failed w).1 (delete i l))
  | step_other w w' l : same w w' -> sys_step (mkSys w l) (mkSys w' l).

(** The stored run of an execution in progress is active, not resting, and behind the one in memory. *)
Record sys_ok (s : Sys) : Prop := {
  so_wf : WF (sys_rt s);
  so_local : forall i r, locals s !! i = Some r -> id r = i /\ i ∈ dom (active (sys_rt s))
    /\ exists st, run_st (sys_rt s) i = Some st /\ resting st = false /\ moves st (state r) }.

(** The stored states after a step. *)
Definition advanced (w w' : RT) : Prop :=
  forall i s, run_st w i = Some s -> exists s', run_st w' i = Some s' /\ moves s s'.
Lemma moved_ok w w' l : moved ∅ w w' -> sys_ok (mkSys w l) -> sys_ok (mkSys w' l) /\ advanced w w'.
Proof.
  intros Hm [Hw Hl]. simpl in *. split; [split; simpl|].
  - by apply (mv_wf _ _ _ Hm).
  - intros i r Hi. destruct (Hl i r Hi) as (Hid & Ha & st & Hst & Hr & Hmv). split_and!; [done|by apply (mv_active _ _ _ Hm)|].
    destruct (mv_state _ _ _ Hm Hw i st Hst) as (s' & Hs' & _ & Hf). rewrite Hf in Hs' by (right; done). eauto.
  - intros i s Hs. destruct (mv_state _ _ _ Hm Hw i s Hs) as (s' & Hs' & Hmv & _). eauto.
Qed.
Lemma sys_ok_locals w l l' : sys_ok (mkSys w l) -> (forall i r, l' !! i = Some r -> l !! i = Some r) -> sys_ok (mkSys w l').
Proof. intros [Hw Hl] Hsub. split; simpl in *; [done|]. intros i r Hi. by apply Hl, Hsub. Qed.
(** Steps on the run of one execution. *)
Lemma moved_run_ok i w w' l : moved_run i w w' -> sys_ok (mkSys w l) -> sys_ok (mkSys w' (delete i l)) /\ advanced w w'.
Proof.
  intros [HR HA HW HS] [Hw Hl]. simpl in *. split; [split; simpl|].
  - auto.
  - intros j r Hj. apply lookup_delete_Some in Hj as [Hne Hj]. destruct (Hl j r Hj) as (? & ? & st & Hst & ?).
    rewrite HA. split_and!; [done..|]. exists st. unfold run_st. by rewrite HR.
  - intros j s Hj. destruct (String.eqb_spec j i) as [->|Hne]; [by apply HS|]. exists s.
    unfold run_st. rewrite HR by done. split; [done|apply rtc_refl].
Qed.
Lemma sys_ok_insert w l i r st : sys_ok (mkSys w (delete i l)) -> id r = i -> i ∈ dom (active w) ->
  run_st w i = Some st -> resting st = false -> moves st (state r) -> sys_ok (mkSys w (<[i := r]> l)).
Proof.
  intros [Hw Hl] Hid Ha Hst Hr Hm. split; simpl in *; [done|]. intros j r' Hj.
  apply lookup_insert_Some in Hj as [[-> ->]|[Hne Hj]]; [eauto 10|]. apply Hl. by rewrite lookup_delete_ne.
Qed.

Lemma exec_write_ok r r' to type rs s : locals s !! id r = Some r' -> state r = state r' ->
  to = state r \/ valid_transition (state r) to = true -> other rs -> sys_ok s ->
  sys_ok (exec_write r to type rs s) /\ advanced (sys_rt s) (sys_rt (exec_write r to type rs s)).
Proof.
  destruct s as [w l]. intros Hl Hst Hto Hrs Hok. destruct (so_local _ Hok _ _ Hl) as (_ & Ha & st & Hrow & Hrest & Hmv).
  simpl in *. assert (Hmt : moves st to).
  { unfold moves in *. rewrite <- Hst in Hmv. destruct Hto as [->|Hv]; [done|]. by eapply rtc_r. }
  set (r1 := r <| state := to |>). pose proof (checkpoint_writes config single r1 type rs Hrs w) as Hw.
  assert (Hmr : moved_run (id r) w (checkpoint config r1 type rs w).1).
  { apply (writes_moved_run r1); [done|]. intros s' Hs'. change (id r1) with (id r) in Hs'. by simplify_eq. }
  unfold exec_write. cbn [sys_rt locals]. fold r1.
  destruct (checkpoint config r1 type rs w) as [w' [r2|x]] eqn:Hc; simpl in Hw, Hmr;
    destruct (moved_run_ok _ _ _ _ Hmr Hok) as [Hok' Hadv]; (split; [|exact Hadv]).
  - apply (checkpoint_ok _ single) in Hc as [(Hi & Hs & _) _]. destruct (resting to) eqn:Hrt; [done|].
    destruct Hw as [Hact Hw]. destruct (Hw (id r)) as [Hsame|(a & b & c & Hnew & _ & _ & Hb)].
    + apply (sys_ok_insert w' l (id r) r2 st); [done..|by rewrite Hact| |done|by rewrite Hs].
      unfold run_st. by rewrite Hsame.
    + apply (sys_ok_insert w' l (id r) r2 to); [done..|by rewrite Hact| |done|rewrite Hs; apply rtc_refl].
      unfold run_st. by rewrite Hnew.
  - apply checkpoint_throws in Hc as Hsm. apply (sys_ok_insert w' l (id r) r1 st); try done.
    + by rewrite (proj2 Hsm).
    + by rewrite (same_st _ _ _ Hsm).
Qed.
Lemma sys_step_ok s s' : sys_step s s' -> sys_ok s -> sys_ok s' /\ advanced (sys_rt s) (sys_rt s').
Proof.
  intros Hstep. destruct Hstep as [p input actor par pn depth pm origin meta sid tid owner fence w l Hf|i w l|i w l
    |a ok actor comment w l|w l|m w l|r w w' l o Ha Hn Hs|r r' to type rs s Hl Hst Hto Hrs|i failed w l|w w' l Hs]; intros Hok.
  - apply moved_ok; [|done]. by apply run_moved.
  - apply moved_ok; [|done]. by apply resume_moved.
  - apply moved_ok; [|done]. by apply cancel_moved.
  - apply moved_ok; [|done]. by apply decide_moved.
  - apply moved_ok; [|done]. by apply shutdown_moved.
  - apply moved_ok; [|done]. by apply same_moved.
  - apply start_execution_ok in Hs as [Hmr Ho]; [|by apply (so_wf _ Hok)].
    destruct (moved_run_ok _ _ _ _ Hmr Hok) as [Hok' Hadv]. split; [|exact Hadv]. rewrite (delete_id _ _ Hn) in Hok'.
    destruct o as [r'|]; [|done]. destruct Ho as (Hi & Hs & Hrun).
    apply (sys_ok_insert w' l (id r) r' Running); try done.
    + by rewrite (delete_id _ _ Hn).
    + by rewrite (mr_active _ _ _ Hmr).
    + rewrite Hs. apply rtc_refl.
  - by eapply exec_write_ok.
  - pose proof (execution_ended_moved config single i failed w) as Hm.
    apply (moved_ok _ _ (delete i l)) in Hm; [exact Hm|]. split; [apply (so_wf _ Hok)|]. intros j r Hj. simpl in Hj.
    apply lookup_delete_Some in Hj as [Hne Hj]. destruct (so_local _ Hok j r Hj) as (Hid & Ha & Hst). split_and!; [done| |exact Hst].
    simpl in *. rewrite dom_delete_L. set_solver.
  - apply moved_ok; [|done]. by apply same_moved.
Qed.
Lemma sys_steps_ok s s' : rtc sys_step s s' -> sys_ok s -> sys_ok s' /\ advanced (sys_rt s) (sys_rt s').
Proof.
  induction 1 as [s|s s1 s2 H1 H2 IH]; intros Hok.
  { split; [done|]. intros i st Hst. exists st. split; [done|apply rtc_refl]. }
  apply sys_step_ok in H1 as [Hok1 Ha1]; [|done]. destruct (IH Hok1) as [Hok2 Ha2]. split; [done|].
  intros i st Hst. destruct (Ha1 i st Hst) as (st1 & Hst1 & Hm1). destruct (Ha2 i st1 Hst1) as (st2 & Hst2 & Hm2).
  exists st2. split; [done|]. unfold moves in *. by etransitivity.
Qed.

(** *** Starts that throw

    The mutex is released before the handler of [execute] runs: what it then writes of the run may be older
    than what is stored.  The runs this has happened to are recorded; for them the handler may store any
    state of the run. *)
Inductive life_step : Sys * gset string -> Sys * gset string -> Prop :=
  | life_sys s s' D : sys_step s s' -> life_step (s, D) (s', D)
  | life_start_throws r w w' x l D : id r ∈ dom (active w) -> l !! id r = None ->
      start_execution config r w = (w', TThrow x) -> life_step (mkSys w l, D) (mkSys w' l, {[id r]} ∪ D)
  | life_handler r type rs w l D : id r ∈ D -> other rs ->
      life_step (mkSys w l, D) (mkSys (checkpoint config r type rs w).1 (delete (id r) l), D).

Lemma writes_others r w w' l : writes r w w' -> sys_ok (mkSys w l) ->
  sys_ok (mkSys w' (delete (id r) l)) /\ forall i, i <> id r -> run_st w' i = run_st w i.
Proof.
  intros [Ha Hw] [Hwf Hl]. simpl in *.
  assert (Hj : forall j, j <> id r -> run_st w' j = run_st w j).
  { intros j Hj. unfold run_st. destruct (Hw j) as [->|(a & b & c & _ & ? & _)]; done. }
  split; [|exact Hj]. split; simpl.
  - intros j row Hrow. destruct (Hw j) as [Hr|(a & b & c & Hr & _ & Hid & Hst)]; rewrite Hr in Hrow; [by apply Hwf|].
    injection Hrow as <-. split; [done|]. simpl. rewrite Hst. by eexists.
  - intros j r' Hr'. apply lookup_delete_Some in Hr' as [Hne Hr']. rewrite Hj, Ha by done. by apply Hl.
Qed.
Definition advanced_but (D : gset string) (w w' : RT) : Prop :=
  forall i s, i ∉ D -> run_st w i = Some s -> exists s', run_st w' i = Some s' /\ moves s s'.
Lemma life_step_ok s s' : life_step s s' -> sys_ok s.1 ->
  sys_ok s'.1 /\ s.2 ⊆ s'.2 /\ advanced_but s'.2 (sys_rt s.1) (sys_rt s'.1).
Proof.
  intros Hs Hok. destruct Hs as [s s' D Hs|r w w' x l D Ha Hn Hs|r type rs w l D HD Hrs]; simpl in *.
  - apply sys_step_ok in Hs as [Hok' Hadv]; [|done]. split_and!; [done..|]. intros i st _. apply Hadv.
  - apply start_execution_throws in Hs; [|apply (so_wf _ Hok)]. apply moved_run_ok with (l := l) in Hs as [Hok' Hadv]; [|done].
    rewrite delete_id in Hok' by done. split_and!; [done|set_solver|]. intros i st _. apply Hadv.
  - pose proof (checkpoint_writes config single r type rs Hrs w) as Hw. apply writes_others with (l := l) in Hw as [Hok' Hst]; [|done].
    split_and!; [done..|]. intros i st Hi Hs. exists st. rewrite Hst by set_solver. split; [done|apply rtc_refl].
Qed.
Lemma life_steps_ok s s' : rtc life_step s s' -> sys_ok s.1 ->
  sys_ok s'.1 /\ s.2 ⊆ s'.2 /\ advanced_but s'.2 (sys_rt s.1) (sys_rt s'.1).
Proof.
  induction 1 as [s|s s1 s2 H1 H2 IH]; intros Hok.
  { split_and!; [done..|]. intros i st _ Hst. exists st. split; [done|apply rtc_refl]. }
  apply life_step_ok in H1 as (Hok1 & HD1 & Ha1); [|done]. destruct (IH Hok1) as (Hok2 & HD2 & Ha2).
  split_and!; [done|set_solver|]. intros i st Hi Hst.
  destruct (Ha1 i st) as (st1 & Hst1 & Hm1); [set_solver|done|]. destruct (Ha2 i st1 Hi Hst1) as (st2 & Hst2 & Hm2).
  exists st2. split; [done|]. unfold moves in *. by etransitivity.
Qed.
Lemma terminal_final a b : terminal a = true -> moves a b -> b = a.
Proof. intros Ht Hm. apply rtc_inv in Hm as [->|(c & Hv & _)]; [done|]. unfold valid_transition in Hv. by rewrite Ht in Hv. Qed.
End Executions.


(** ** A system *)

Definition sample_yaml : YamlLib :=
  {| LoadAll := fun _ => None; as_string := fun _ => None; as_longlong := fun _ => None; json_parse := fun _ => None |}.
Definition sample_runtime_env : RuntimeEnv := {|
  rt_uuid := fun n => ("u" ++ to_string (Z.of_nat n))%string; rt_timestamp := fun _ => "2026-01-01T00:00:00Z"%string;
  rt_dbclock := fun n _ => Z.of_nat n; rt_dbtime := fun _ => ""%string;
  rt_publish := fun _ _ db => db; rt_worker_cancel := fun _ _ db => (db, TOk tt);
  rt_schema := fun _ _ _ _ => Ok tt |}.
#[local] Instance sample_runtime_laws : RuntimeEnvLaws sample_runtime_env.
Proof. by split. Qed.
Definition sample_execution_env : ExecutionEnv := {| ex_bytes := strict_bytes; ex_verify := None |}.
Definition sample_config : RuntimeConfig :=
  mkRuntimeConfig false false "i1" ∅ 4 8 4 100 5 10 30000.
Definition sample_db : DB :=
  empty_db <| tables := {[ (KRun, "r1"%string) := mkRow "r1" (run_to_json (sample_run "r1")) 1 ]} |>.
Definition sample_rt : RT :=
  mkRT (mkCoord sample_db 0 0 0) 0 ∅ ∅ ModeActive false false false [] [] [] [].

Section Witness.
#[local] Existing Instances strict_json strict_json_laws sample_yaml sample_runtime_env sample_execution_env.

(** A stored run is resumed, its execution starts and pauses, and the run is cancelled. *)
Definition sample_initial : Sys := mkSys sample_rt ∅.
Definition sample_resumed : Sys := mkSys (resume sample_config "r1" sample_rt).1 ∅.
Definition sample_start : RT * tres (option Run) :=
  start_execution sample_config (sample_run "r1") (sys_rt sample_resumed).
Definition sample_local : Run := match sample_start.2 with TOk (Some r) => r | _ => sample_run "r1" end.
Definition sample_started : Sys := mkSys sample_start.1 (<["r1"%string := sample_local]> ∅).
Definition sample_paused : Sys := exec_write sample_config sample_local Paused "run.paused" [] sample_started.
Definition sample_cancelled : Sys := mkSys (cancel sample_config "r1" (sys_rt sample_paused)).1 (locals sample_paused).
Example sample_cancelled_state : run_st (sys_rt sample_cancelled) "r1" = Some Cancelled.
Proof. vm_compute. reflexivity. Qed.

Lemma sample_start_ok : sample_start = (sample_start.1, TOk (Some sample_local)).
Proof.
  assert (Hok : match sample_start.2 with TOk (Some _) => true | _ => false end = true) by (vm_compute; reflexivity).
  unfold sample_local. destruct sample_start as [w [[r|]|x]]; [reflexivity|discriminate Hok..].
Qed.
Lemma sample_local_facts : id sample_local = "r1"%string /\ state sample_local = Running.
Proof. split; vm_compute; reflexivity. Qed.
Lemma sample_active : bool_decide ("r1"%string ∈ dom (active (sys_rt sample_resumed))) = true.
Proof. vm_compute. reflexivity. Qed.
Lemma sample_initial_ok : sys_ok sample_initial.
Proof.
  split; [|done]. intros i row Hrow. change ((({[ (KRun, "r1"%string) := mkRow "r1" (run_to_json (sample_run "r1")) 1 ]} : gmap (RecordKind * string) Row) !! (KRun, i)) = Some row) in Hrow.
  apply lookup_singleton_Some in Hrow as [[= <-] <-]. split; [reflexivity|].
  by exists Queued.
Qed.
Lemma sys_eta s : s = mkSys (sys_rt s) (locals s).
Proof. by destruct s. Qed.
Lemma sample_steps : rtc (sys_step sample_config) sample_initial sample_cancelled.
Proof.
  assert (H1 : sys_step sample_config sample_initial sample_resumed) by exact (step_resume sample_config "r1" sample_rt ∅).
  assert (H2 : sys_step sample_config sample_resumed sample_started).
  { rewrite (sys_eta sample_resumed).
    refine (step_start sample_config (sample_run "r1") (sys_rt sample_resumed) sample_start.1 (locals sample_resumed)
              (Some sample_local) _ (lookup_empty _) sample_start_ok).
    exact (bool_decide_eq_true_1 _ sample_active). }
  assert (H3 : sys_step sample_config sample_started sample_paused).
  { destruct sample_local_facts as [Hid Hst]. unfold sample_paused.
    eapply (step_write sample_config sample_local sample_local Paused "run.paused" [] sample_started).
    - unfold sample_started. cbn [locals]. rewrite Hid. apply lookup_insert_eq.
    - reflexivity.
    - right. rewrite Hst. reflexivity.
    - apply other_nil. }
  assert (H4 : sys_step sample_config sample_paused sample_cancelled).
  { rewrite (sys_eta sample_paused) at 1. unfold sample_cancelled. apply step_cancel. }
  exact (rtc_l _ _ _ _ H1 (rtc_l _ _ _ _ H2 (rtc_l _ _ _ _ H3 (rtc_once _ _ H4)))).
Qed.
Lemma sample_life : rtc (life_step sample_config) (sample_initial, ∅) (sample_cancelled, ∅).
Proof.
  apply (rtc_congruence (R := sys_step sample_config) (fun s => (s, ∅ : gset string))); [|exact sample_steps].
  intros s s'. apply life_sys.
Qed.
End Witness.
