(* ===== verification/Threads.v ===== *)
(** * Threads

    Operations that several threads run at once.  A program alternates blocks, which hold the lock
    of the state and run in one piece, with calls to the outside, during which other threads run
    and whose answer is not known beforehand; it may also start threads.  A pool runs its threads in
    any interleaving.

    [wp] is the weakest precondition of a program over tickets: what a thread owns (the right to do
    something once) or knows (a fact no thread makes false).  An invariant of the state and of all
    tickets that every thread respects holds in every state the pool reaches ([pool_sound]). *)

From S2P Require Import Prelude Json Db Codec Effects.

(** ** Counting *)

Definition count {K} (f : K -> bool) (T : list K) : nat := length (filter (fun k => f k = true) T).
Definition occurrences (i : string) (l : list string) : nat := length (filter (fun x => x = i) l).

Lemma count_cons {K} (f : K -> bool) k T : count f (k :: T) = ((if f k then 1 else 0) + count f T)%nat.
Proof. unfold count. rewrite filter_cons. destruct (f k) eqn:E; [by rewrite decide_True|by rewrite decide_False]. Qed.
Lemma count_app {K} (f : K -> bool) T T' : count f (T ++ T') = (count f T + count f T')%nat.
Proof. unfold count. by rewrite filter_app, length_app. Qed.
Lemma count_sub {K} (f : K -> bool) T T' : T' ⊆+ T -> (count f T' <= count f T)%nat.
Proof.
  induction 1 as [|k T T' _ IH|k k' T|k T T' _ IH|T1 T2 T3 _ IH1 _ IH2]; rewrite ?count_cons; lia.
Qed.
Lemma count_pos {K} (f : K -> bool) T : (0 < count f T)%nat <-> exists k, k ∈ T /\ f k = true.
Proof.
  induction T as [|k T IH]; [split; [unfold count; simpl; lia|by intros (? & ?%elem_of_nil & _)]|].
  rewrite count_cons. destruct (f k) eqn:E.
  - split; [intros _; exists k; split; [by left|done]|lia].
  - simpl. rewrite IH. split; intros (k' & Hin & Hf); exists k'; (split; [|done]); [by right|].
    apply elem_of_cons in Hin as [->|?]; congruence.
Qed.
Lemma count_perm {K} (f : K -> bool) T T' : T ≡ₚ T' -> count f T = count f T'.
Proof. unfold count. by intros ->. Qed.
Lemma occurrences_cons i x l : occurrences i (x :: l) = ((if String.eqb x i then 1 else 0) + occurrences i l)%nat.
Proof.
  unfold occurrences. rewrite filter_cons. destruct (String.eqb_spec x i); [by rewrite decide_True|by rewrite decide_False].
Qed.
Lemma occurrences_none i l : i ∉ l -> occurrences i l = 0%nat.
Proof. unfold occurrences. intros Hi. rewrite filter_none; [done|]. apply Forall_forall. by intros x Hx ->. Qed.

Section Programs.
Context {W C : Type} {answer : C -> Type}.

Inductive Prog (A : Type) : Type :=
  | Done (a : A)
  | Block {B : Type} (b : W -> W * B) (k : B -> Prog A)
  | Call (c : C) (k : tres (answer c) -> Prog A)
  | Spawn (p : Prog unit) (k : Prog A).
#[global] Arguments Done {A} _.
#[global] Arguments Block {A B} _ _.
#[global] Arguments Call {A} _ _.
#[global] Arguments Spawn {A} _ _.

Fixpoint prog_bind {A B : Type} (p : Prog A) (f : A -> Prog B) : Prog B :=
  match p with
  | Done a => f a
  | Block b k => Block b (fun x => prog_bind (k x) f)
  | Call c k => Call c (fun x => prog_bind (k x) f)
  | Spawn q k => Spawn q (prog_bind k f)
  end.

(** Programs that return or throw. *)
Definition Task (A : Type) : Type := Prog (tres A).
#[global] Instance task_ret : MRet Task := fun A a => Done (TOk a).
#[global] Instance task_bind : MBind Task := fun A B f m =>
  prog_bind m (fun r => match r with TOk a => f a | TThrow x => Done (TThrow x) end).
Definition task_throw {A} (x : texn) : Task A := Done (TThrow x).
Definition task_lift {A} (r : tres A) : Task A := Done r.
Definition atomic {A} (m : IO W A) : Task A := Block m Done.
Definition call (c : C) : Task (answer c) := Call c Done.
Definition spawn (p : Prog unit) : Task unit := Spawn p (Done (TOk tt)).
(** [catch (...)] with the exception in hand; [catch (const Error &)] is the case of [error_of]. *)
Definition task_handle {A} (m : Task A) (h : texn -> Task A) : Task A :=
  prog_bind m (fun r => match r with TOk a => Done (TOk a) | TThrow x => h x end).
Definition task_catch {A} (m : Task A) (h : Error -> Task A) : Task A :=
  task_handle m (fun x => match error_of x with Some e => h e | None => task_throw x end).
Definition task_quiet {A} (m : Task A) : Task unit :=
  prog_bind m (fun _ => Done (TOk tt)).
Definition task_when (b : bool) (m : Task unit) : Task unit := if b then m else mret tt.
Fixpoint task_iter {A} (f : A -> Task unit) (l : list A) : Task unit :=
  match l with [] => mret tt | x :: l => f x ≫= fun _ => task_iter f l end.

(** ** The pool *)

(** What a call leaves in the state (a record of it), and which programs may be started. *)
Context (note : C -> W -> W) (starts : Prog unit -> Prop) (other : W -> W -> Prop) (restart : W -> W).

Inductive pool_step : W * list (Prog unit) -> W * list (Prog unit) -> Prop :=
  | step_block {B} w T1 T2 (b : W -> W * B) k :
      pool_step (w, T1 ++ Block b k :: T2) ((b w).1, T1 ++ k (b w).2 :: T2)
  | step_call w T1 T2 c k r : pool_step (w, T1 ++ Call c k :: T2) (note c w, T1 ++ k r :: T2)
  | step_spawn w T1 T2 p k : pool_step (w, T1 ++ Spawn p k :: T2) (w, T1 ++ p :: k :: T2)
  | step_start w T p : starts p -> pool_step (w, T) (w, p :: T)
  | step_other w w' T : other w w' -> pool_step (w, T) (w', T)
  | step_restart w T : pool_step (w, T) (restart w, []).

(** ** Threads end

    Steps of the threads at hand, with nothing started; a call is a step, whatever its answer. *)
Inductive running_step : W * list (Prog unit) -> W * list (Prog unit) -> Prop :=
  | run_block {B} w T1 T2 (b : W -> W * B) k :
      running_step (w, T1 ++ Block b k :: T2) ((b w).1, T1 ++ k (b w).2 :: T2)
  | run_call w T1 T2 c k r : running_step (w, T1 ++ Call c k :: T2) (note c w, T1 ++ k r :: T2)
  | run_spawn w T1 T2 p k : running_step (w, T1 ++ Spawn p k :: T2) (w, T1 ++ p :: k :: T2).
Definition ended (p : Prog unit) : Prop := exists u, p = Done u.
Lemma running_pool s s' : running_step s s' -> pool_step s s'.
Proof. by destruct 1; constructor. Qed.
Lemma stuck_ended w T : (forall s, ~ running_step (w, T) s) -> Forall ended T.
Proof.
  intros Hs. apply Forall_forall. intros p (T1 & T2 & ->)%list_elem_of_split.
  destruct p as [u|B b k|c k|q k]; [by eexists|exfalso; eapply Hs..].
  - apply run_block.
  - eapply (run_call _ _ _ _ _ (TThrow TStd)).
  - apply run_spawn.
Qed.
(** The same steps without the state: a thread is replaced by what it continues as. *)
Definition next (p : Prog unit) (ps : list (Prog unit)) : Prop :=
  match p with
  | Done _ => False
  | Block _ k => exists x, ps = [k x]
  | Call _ k => exists r, ps = [k r]
  | Spawn q k => ps = [q; k]
  end.
Definition shrinks (T' T : list (Prog unit)) : Prop :=
  exists T1 p ps T2, T = T1 ++ p :: T2 /\ T' = T1 ++ ps ++ T2 /\ next p ps.
Lemma running_shrinks s s' : running_step s s' -> shrinks s'.2 s.2.
Proof.
  destruct 1 as [B w T1 T2 b k|w T1 T2 c k r|w T1 T2 p k]; simpl; unfold shrinks.
  - exists T1, (Block b k), [k (b w).2], T2. split_and!; [done..|by eexists].
  - exists T1, (Call c k), [k r], T2. split_and!; [done..|by eexists].
  - by exists T1, (Spawn p k), [p; k], T2.
Qed.
Lemma app_cons_split {X} (T1 T2 U1 U2 : list X) p q : T1 ++ p :: T2 = U1 ++ q :: U2 ->
  (T1 = U1 /\ p = q /\ T2 = U2) \/ (exists V, T1 = U1 ++ q :: V /\ U2 = V ++ p :: T2) \/
  (exists V, U1 = T1 ++ p :: V /\ T2 = V ++ q :: U2).
Proof.
  revert U1. induction T1 as [|x T1 IH]; intros [|y U1]; simpl; intros He; injection He as -> He.
  - subst. by left.
  - subst. right. right. by exists U1.
  - subst. right. left. by exists T1.
  - destruct (IH _ He) as [(-> & -> & ->)|[(V & -> & ->)|(V & -> & ->)]]; [by left|right; left; by exists V|right; right; by exists V].
Qed.
Definition ends (p : Prog unit) : Prop := forall T1 T2, Acc shrinks (T1 ++ T2) -> Acc shrinks (T1 ++ p :: T2).
Lemma ends_next p :
  (forall ps, next p ps -> forall T1 T2, Acc shrinks (T1 ++ T2) -> Acc shrinks (T1 ++ ps ++ T2)) -> ends p.
Proof.
  intros Hp T1 T2 Ha. remember (T1 ++ T2) as T eqn:HT. revert T1 T2 HT.
  induction Ha as [T Ha IH]. intros T1 T2 ->. constructor. intros T' (U1 & q & ps & U2 & He & -> & Hn).
  apply app_cons_split in He as [(-> & -> & ->)|[(V & -> & ->)|(V & -> & ->)]].
  - apply Hp; [done|]. by constructor.
  - rewrite !app_assoc. apply (IH (((U1 ++ ps) ++ V) ++ T2)); [|done]. exists U1, q, ps, (V ++ T2).
    by rewrite <- !app_assoc.
  - rewrite <- app_assoc. simpl. apply (IH (T1 ++ V ++ ps ++ U2)); [|done]. exists (T1 ++ V), q, ps, U2.
    by rewrite <- !app_assoc.
Qed.
Lemma prog_ends A (p : Prog A) : forall e : A = unit, ends (eq_rect A Prog p unit e).
Proof.
  induction p as [A a|A B b k IH|A c k IH|A q IHq k IHk]; intros He; subst A; simpl; apply ends_next; simpl.
  - done.
  - intros ps [x ->] T1 T2. apply (IH x eq_refl).
  - intros ps [r ->] T1 T2. apply (IH r eq_refl).
  - intros ps -> T1 T2 Ha. apply (IHq eq_refl). simpl. by apply (IHk eq_refl).
Qed.
(** Whatever the scheduling, every run of the threads at hand is finite. *)
Theorem running_ends s : Acc (flip running_step) s.
Proof.
  assert (Ha : Acc shrinks s.2).
  { induction s.2 as [|p T IH]; [constructor; by intros T' ([|] & ? & ? & ? & ? & _)|]. by apply (prog_ends unit p eq_refl [] T). }
  remember s.2 as T eqn:HT. revert s HT. induction Ha as [T Ha IH]. intros s ->. constructor. intros s' Hs.
  by apply (IH s'.2); [apply running_shrinks|].
Qed.

(** A run of the pool: the first thread runs alone, the threads it starts before it; [answers] are
    those of the calls. *)
Fixpoint drive (fuel : nat) (answers : forall c, tres (answer c)) (w : W) (p : Prog unit) (T : list (Prog unit))
    : W * list (Prog unit) :=
  match fuel with
  | O => (w, p :: T)
  | S fuel =>
      match p with
      | Done _ => (w, p :: T)
      | Block b k => drive fuel answers (b w).1 (k (b w).2) T
      | Call c k => drive fuel answers (note c w) (k (answers c)) T
      | Spawn q k => drive fuel answers w q (k :: T)
      end
  end.
Lemma drive_rtc fuel answers : forall w p T, rtc pool_step (w, p :: T) (drive fuel answers w p T).
Proof.
  induction fuel as [|fuel IH]; intros w p T; simpl; [apply rtc_refl|]. destruct p as [a|B b k|c k|q k].
  - apply rtc_refl.
  - eapply rtc_l; [apply (step_block w [] T b k)|apply IH].
  - eapply rtc_l; [apply (step_call w [] T c k (answers c))|apply IH].
  - eapply rtc_l; [apply (step_spawn w [] T q k)|apply IH].
Qed.
Lemma drive_start fuel answers w p T : starts p -> rtc pool_step (w, T) (drive fuel answers w p T).
Proof. intros Hp. eapply rtc_l; [by apply step_start|apply drive_rtc]. Qed.

(** All threads run to their end, one after the other, the threads a thread starts before it goes on;
    [D] are those that have ended. *)
Fixpoint play (fuel : nat) (answers : forall c, tres (answer c)) (w : W) (D : list (Prog unit)) (p : Prog unit)
    (T : list (Prog unit)) : W * list (Prog unit) :=
  match fuel with
  | O => (w, D ++ p :: T)
  | S fuel =>
      match p with
      | Done _ => match T with [] => (w, D ++ [p]) | q :: T => play fuel answers w (D ++ [p]) q T end
      | Block b k => play fuel answers (b w).1 D (k (b w).2) T
      | Call c k => play fuel answers (note c w) D (k (answers c)) T
      | Spawn q k => play fuel answers w D q (k :: T)
      end
  end.
Lemma play_rtc fuel answers : forall w D p T, rtc pool_step (w, D ++ p :: T) (play fuel answers w D p T).
Proof.
  induction fuel as [|fuel IH]; intros w D p T; simpl; [apply rtc_refl|]. destruct p as [a|B b k|c k|q k].
  - destruct T as [|q T]; [apply rtc_refl|]. specialize (IH w (D ++ [Done a]) q T). by rewrite <- app_assoc in IH.
  - eapply rtc_l; [apply (step_block w D T b k)|apply IH].
  - eapply rtc_l; [apply (step_call w D T c k (answers c))|apply IH].
  - eapply rtc_l; [apply (step_spawn w D T q k)|apply IH].
Qed.

(** ** Tickets *)

Context {K : Type} (Inv : W -> list K -> Prop).
Context (Inv_perm : forall w l l', l ≡ₚ l' -> Inv w l -> Inv w l').
Context (Inv_drop : forall w l l', Inv w (l ++ l') -> Inv w l').
(** What a thread may still own when it ends. *)
Context (Fin : list K -> Prop).

(** [b] turns the tickets [t] of its thread into [Q] of its answer, whatever the others own. *)
Definition block_ok {B} (b : W -> W * B) (t : list K) (Q : B -> list K -> Prop) : Prop :=
  forall w F, Inv w (t ++ F) -> exists t', Inv (b w).1 (t' ++ F) /\ Q (b w).2 t'.
Fixpoint wp {A : Type} (p : Prog A) (t : list K) (Q : A -> list K -> Prop) : Prop :=
  match p with
  | Done a => Q a t
  | Block b k => block_ok b t (fun x t' => wp (k x) t' Q)
  | Call c k => exists t', (forall w F, Inv w (t ++ F) -> Inv (note c w) (t' ++ F)) /\ forall r, wp (k r) t' Q
  | Spawn q k => exists t1 t2, t ≡ₚ t1 ++ t2 /\ wp q t1 (fun _ => Fin) /\ wp k t2 Q
  end.

Lemma block_ok_mono {B} (b : W -> W * B) t (Q Q' : B -> list K -> Prop) :
  (forall x t', Q x t' -> Q' x t') -> block_ok b t Q -> block_ok b t Q'.
Proof. intros HQ Hb w F Hi. destruct (Hb w F Hi) as (t' & Hi' & Hq). eauto. Qed.
Lemma wp_mono {A} (p : Prog A) : forall t (Q Q' : A -> list K -> Prop),
  (forall a t', Q a t' -> Q' a t') -> wp p t Q -> wp p t Q'.
Proof.
  induction p as [A a|A B b k IH|A c k IH|A q _ k IH]; intros t Q Q' HQ Hp; simpl in *.
  - by apply HQ.
  - eapply block_ok_mono; [|exact Hp]. intros x t' Hk. by eapply IH.
  - destruct Hp as (t' & Hc & Hk). exists t'. split; [exact Hc|]. intros r. by eapply IH.
  - destruct Hp as (t1 & t2 & Ht & Hq & Hk). exists t1, t2. split_and!; [done..|]. by eapply IH.
Qed.
Lemma wp_bind {A B} (p : Prog A) (f : A -> Prog B) : forall t Q,
  wp p t (fun a t' => wp (f a) t' Q) -> wp (prog_bind p f) t Q.
Proof.
  induction p as [A a|A B' b k IH|A c k IH|A q _ k IH]; intros t Q Hp; simpl in *; [done| | |].
  - eapply block_ok_mono; [|exact Hp]. intros x t' Hk. by apply IH.
  - destruct Hp as (t' & Hc & Hk). exists t'. split; [exact Hc|]. intros r. by apply IH.
  - destruct Hp as (t1 & t2 & Ht & Hq & Hk). exists t1, t2. split_and!; [done..|]. by apply IH.
Qed.

(** Tickets that are not used. *)
Lemma block_frame {B} (b : W -> W * B) t G (Q : B -> list K -> Prop) :
  block_ok b t Q -> block_ok b (t ++ G) (fun x t' => exists t1, t' = t1 ++ G /\ Q x t1).
Proof.
  intros Hb w F Hi. rewrite <- app_assoc in Hi. destruct (Hb w (G ++ F) Hi) as (t' & Hi' & Hq).
  exists (t' ++ G). rewrite <- app_assoc. eauto.
Qed.
Lemma wp_frame {A} (p : Prog A) : forall t G (Q : A -> list K -> Prop),
  wp p t Q -> wp p (t ++ G) (fun a t' => exists t1, t' = t1 ++ G /\ Q a t1).
Proof.
  induction p as [A a|A B b k IH|A c k IH|A q _ k IH]; intros t G Q Hp; simpl in *; [by eauto| | |].
  - eapply block_ok_mono; [|by apply block_frame]. intros x t' (t1 & -> & Hk). by apply IH.
  - destruct Hp as (t' & Hc & Hk). exists (t' ++ G). split.
    + intros w F Hi. rewrite <- app_assoc in Hi |- *. by apply Hc.
    + intros r. by apply IH.
  - destruct Hp as (t1 & t2 & Ht & Hq & Hk). exists t1, (t2 ++ G). split_and!; [|done|by apply IH].
    by rewrite Ht, app_assoc.
Qed.

(** More tickets do no harm when the result does not depend on having few of them. *)
Lemma Inv_sub w l l' : l' ⊆+ l -> Inv w l -> Inv w l'.
Proof. intros [k Hk]%submseteq_Permutation Hi. apply (Inv_drop w k). eapply Inv_perm; [|exact Hi]. by rewrite Hk, Permutation_app_comm. Qed.
Definition affine {A} (Q : A -> list K -> Prop) : Prop := forall a t u, t ⊆+ u -> Q a t -> Q a u.
Lemma block_sub {B} (b : W -> W * B) t u (Q : B -> list K -> Prop) : t ⊆+ u -> block_ok b t Q -> block_ok b u Q.
Proof. intros Hs Hb w F Hi. apply Hb. eapply Inv_sub; [|exact Hi]. by apply submseteq_skips_r. Qed.
Lemma wp_sub {A} (p : Prog A) : forall t u (Q : A -> list K -> Prop), affine Q -> t ⊆+ u -> wp p t Q -> wp p u Q.
Proof.
  induction p as [A a|A B b k _|A c k _|A q _ k IH]; intros t u Q HQ Hs Hp; simpl in *; [by eapply HQ| | |].
  - by eapply block_sub.
  - destruct Hp as (t' & Hc & Hk). exists t'. split; [|done]. intros w F Hi. apply Hc.
    eapply Inv_sub; [|exact Hi]. by apply submseteq_skips_r.
  - destruct Hp as (t1 & t2 & Ht & Hq & Hk). apply submseteq_Permutation in Hs as [x Hx].
    exists t1, (t2 ++ x). split_and!; [by rewrite Hx, Ht, app_assoc|done|].
    eapply IH; [done|by apply submseteq_inserts_r|done].
Qed.
Lemma wp_then {A B} (p : Prog A) (f : A -> Prog B) t1 t2 Q : affine Q -> wp p t1 (fun _ _ => True) ->
  (forall a, wp (f a) t2 Q) -> wp (prog_bind p f) (t1 ++ t2) Q.
Proof.
  intros HQ Hp Hf. apply wp_bind. eapply wp_mono; [|by apply wp_frame]. intros a t' (t3 & -> & _).
  eapply wp_sub; [done| |apply Hf]. by apply submseteq_inserts_l.
Qed.

(** ** Soundness *)

Definition pool_ok (s : W * list (Prog unit)) : Prop :=
  exists ts, Forall2 (fun p t => wp p t (fun _ => Fin)) s.2 ts /\ Inv s.1 (concat ts).

Context (starts_ok : forall p, starts p -> wp p [] (fun _ => Fin)).
Context (other_ok : forall w w' l, other w w' -> Inv w l -> Inv w' l).
Context (restart_ok : forall w l, Inv w l -> Inv (restart w) []).

Lemma pool_split (T1 T2 : list (Prog unit)) p ts :
  Forall2 (fun p t => wp p t (fun _ => Fin)) (T1 ++ p :: T2) ts ->
  exists ts1 t ts2, ts = ts1 ++ t :: ts2 /\ wp p t (fun _ => Fin)
    /\ forall ps us, Forall2 (fun p t => wp p t (fun _ => Fin)) ps us ->
       Forall2 (fun p t => wp p t (fun _ => Fin)) (T1 ++ ps ++ T2) (ts1 ++ us ++ ts2).
Proof.
  intros (ts1 & ts' & H1 & H2 & ->)%Forall2_app_inv_l. inversion H2 as [|? t ? ts2 Hp H3]; subst.
  exists ts1, t, ts2. split_and!; [done..|]. intros ps us Hps. by repeat apply Forall2_app.
Qed.
Lemma concat_mid (ts1 ts2 : list (list K)) us : concat (ts1 ++ us ++ ts2) ≡ₚ concat us ++ concat ts1 ++ concat ts2.
Proof. rewrite !concat_app. rewrite (app_assoc (concat us)), (app_assoc (concat ts1)). by rewrite (Permutation_app_comm (concat ts1)). Qed.
Lemma pool_step_ok s s' : pool_step s s' -> pool_ok s -> pool_ok s'.
Proof.
  intros Hstep (ts & HT & Hi). destruct Hstep as [B w T1 T2 b k|w T1 T2 c k r|w T1 T2 p k|w T p Hp|w w' T Ho|w T];
    simpl in *.
  - apply pool_split in HT as (ts1 & t & ts2 & -> & Hb & HT). simpl in Hb.
    apply (Inv_perm _ _ _ (concat_mid ts1 ts2 [t])) in Hi. simpl in Hi. rewrite app_nil_r in Hi.
    destruct (Hb w _ Hi) as (t' & Hi' & Hk). exists (ts1 ++ [t'] ++ ts2). split.
    + apply (HT [_]). by constructor.
    + eapply Inv_perm; [symmetry; apply concat_mid|]. simpl. by rewrite app_nil_r.
  - apply pool_split in HT as (ts1 & t & ts2 & -> & (t' & Hc & Hk) & HT).
    apply (Inv_perm _ _ _ (concat_mid ts1 ts2 [t])) in Hi. simpl in Hi. rewrite app_nil_r in Hi.
    exists (ts1 ++ [t'] ++ ts2). split.
    + apply (HT [_]). by constructor.
    + eapply Inv_perm; [symmetry; apply concat_mid|]. simpl. rewrite app_nil_r. by apply Hc.
  - apply pool_split in HT as (ts1 & t & ts2 & -> & (t1 & t2 & Ht & Hq & Hk) & HT).
    exists (ts1 ++ [t1; t2] ++ ts2). split.
    + apply (HT [_; _]). by repeat constructor.
    + eapply Inv_perm; [|exact Hi]. rewrite (concat_mid ts1 ts2 [t]). etransitivity; [|symmetry; apply concat_mid].
      simpl. by rewrite !app_nil_r, Ht.
  - exists ([] :: ts). split; [|done]. constructor; [by apply starts_ok|done].
  - exists ts. split; [done|]. by eapply other_ok.
  - exists []. split; [constructor|]. by eapply restart_ok.
Qed.
Theorem pool_sound s s' : rtc pool_step s s' -> pool_ok s -> pool_ok s'.
Proof. induction 1 as [|s1 s2 s3 H12 _ IH]; [done|]. intros Hok. by eapply IH, pool_step_ok. Qed.

(** ** Relations kept by every step *)

Context (R : W -> W -> Prop) `{!PreOrder R}.
Fixpoint respects {A : Type} (p : Prog A) : Prop :=
  match p with
  | Done _ => True
  | Block b k => (forall w, R w (b w).1) /\ forall x, respects (k x)
  | Call c k => (forall w, R w (note c w)) /\ forall r, respects (k r)
  | Spawn q k => respects q /\ respects k
  end.
Lemma respects_bind {A B} (p : Prog A) (f : A -> Prog B) : respects p -> (forall a, respects (f a)) ->
  respects (prog_bind p f).
Proof.
  intros Hp Hf. induction p as [A a|A B' b k IH|A c k IH|A q _ k IH]; simpl in *; [apply Hf|split; [apply Hp|]..].
  - intros x. apply IH; [apply Hp|done].
  - intros r. apply IH; [apply Hp|done].
  - apply IH; [apply Hp|done].
Qed.
(** Steps that keep the invariant whatever the tickets need none. *)
Lemma respects_wp {A} (p : Prog A) t : (forall w w' T, R w w' -> Inv w T -> Inv w' T) -> Fin [] -> respects p ->
  wp p t (fun _ t' => t' = t).
Proof.
  intros HR HF. revert t. induction p as [A a|A B b k IH|A c k IH|A q IHq k IH]; intros t Hp; simpl in *; [done| | |].
  - destruct Hp as [Hb Hk]. intros w F Hi. exists t. split; [eapply HR; [apply Hb|exact Hi]|]. by apply IH.
  - destruct Hp as [Hc Hk]. exists t. split; [|intros r; by apply IH]. intros w F Hi. eapply HR; [apply Hc|exact Hi].
  - destruct Hp as [Hq Hk]. exists [], t. split_and!; [done| |by apply IH].
    eapply wp_mono; [|by apply IHq]. by intros a t' ->.
Qed.
(** Programs that start no thread, with a property of their results. *)
Fixpoint lands {A : Type} (P : A -> Prop) (p : Prog A) : Prop :=
  match p with
  | Done a => P a
  | Block b k => forall w, R w (b w).1 /\ lands P (k (b w).2)
  | Call c k => (forall w, R w (note c w)) /\ forall r, lands P (k r)
  | Spawn _ _ => False
  end.
Lemma lands_mono {A} (P P' : A -> Prop) (p : Prog A) : (forall a, P a -> P' a) -> lands P p -> lands P' p.
Proof.
  revert P P'. induction p as [A a|A B b k IH|A c k IH|A q _ k _]; intros P P' HP Hp; simpl in *; [auto| | |done].
  - intros w. destruct (Hp w) as [HR Hk]. split; [done|]. by eapply IH.
  - destruct Hp as [HR Hk]. split; [done|]. intros r. by eapply IH.
Qed.
Lemma lands_bind {A B} (P : A -> Prop) (Q : B -> Prop) (p : Prog A) (f : A -> Prog B) :
  lands P p -> (forall a, P a -> lands Q (f a)) -> lands Q (prog_bind p f).
Proof.
  induction p as [A a|A B' b k IH|A c k IH|A q _ k _]; intros Hp Hf; simpl in *; [auto| | |done].
  - intros w. destruct (Hp w) as [HR Hk]. split; [done|]. by eapply IH.
  - destruct Hp as [HR Hk]. split; [done|]. intros r. by eapply IH.
Qed.
Lemma lands_wp {A} (P : A -> Prop) (p : Prog A) t : (forall w w' T, R w w' -> Inv w T -> Inv w' T) -> lands P p ->
  wp p t (fun a t' => t' = t /\ P a).
Proof.
  intros HR. revert P t. induction p as [A a|A B b k IH|A c k IH|A q _ k _]; intros P t Hp; simpl in *; [done| | |done].
  - intros w F Hi. destruct (Hp w) as [Hb Hk]. exists t. split; [by eapply HR|]. by apply IH.
  - destruct Hp as [Hc Hk]. exists t. split; [|intros r; by apply IH]. intros w F Hi. eapply HR; [apply Hc|exact Hi].
Qed.
Context (starts_respect : forall p, starts p -> respects p).
Context (other_respects : forall w w', other w w' -> R w w') (restart_respects : forall w, R w (restart w)).
Lemma pool_step_respects s s' : pool_step s s' -> Forall respects s.2 -> R s.1 s'.1 /\ Forall respects s'.2.
Proof.
  intros Hs HT. destruct Hs as [B w T1 T2 b k|w T1 T2 c k r|w T1 T2 p k|w T p Hp|w w' T Ho|w T]; simpl in *;
    rewrite ?Forall_app, ?Forall_cons in *; simpl in *.
  - destruct HT as (H1 & [Hb Hk] & H2). auto.
  - destruct HT as (H1 & [Hb Hk] & H2). auto.
  - destruct HT as (H1 & [Hb Hk] & H2). split; [reflexivity|auto].
  - split; [reflexivity|auto].
  - auto.
  - split; [auto|constructor].
Qed.
Theorem pool_respects s s' : rtc pool_step s s' -> Forall respects s.2 -> R s.1 s'.1 /\ Forall respects s'.2.
Proof.
  induction 1 as [|s1 s2 s3 H12 _ IH]; intros HT; [by split|].
  destruct (pool_step_respects _ _ H12 HT) as [HR HT2]. destruct (IH HT2) as [HR' HT3].
  split; [by transitivity s2.1|done].
Qed.
End Programs.
