(* ===== verification/Manager.v ===== *)
(** * The worker manager

    [WorkerManager] of [src/workers/manager.cpp]: durable worker jobs, their submission to external
    workers, reconciliation, cancellation, events and interactions.  The blocks the code runs under
    [state_mutex_], [async_mutex_] or [interaction_mutex_] are atomic blocks of [Threads]; the calls
    of the transports are calls whose answer, an exception included, is arbitrary.  The per-worker
    submission mutex is not modelled, so more interleavings are possible here than in the program.

    [submitted], [retried], [cancel_calls] and [deferred] record what happened: initial submissions
    and retries handed to a transport, external jobs asked to stop, and dispatch threads that ended
    while their job was still waiting for its first handle.  The code does not read these fields. *)

From S2P Require Import Prelude Json Types Text Pipeline Access Db Coordination Codec Worker Store Sha256 Effects Threads.
From Stdlib Require Import SpecFloat Ascii.

#[global] Instance eta_WorkerUsage : Eta WorkerUsage := fun r => mkUsage
  (queue_duration_ms r) (wall_duration_ms r) (input_tokens r) (output_tokens r) (total_tokens r) (tool_calls r)
  (action_count r) (cost_units r) (u_provider r) (u_model r) (u_executor r) (u_metadata r).
#[global] Instance eta_WorkerJob : Eta WorkerJob := fun r => mkJob
  (wj_id r) (wj_worker_id r) (wj_run_id r) (wj_node_id r) (wj_idempotency_key r) (wj_external_job_id r)
  (wj_submitted_at r) (wj_started_at r) (wj_completed_at r) (wj_error r) (cancellation_error r) (wj_attempt r)
  (wj_state r) (cancellation_target_state r) (failure_kind r) (wj_cancellation_requested r)
  (cancellation_acknowledged r) (request_metadata r) (wj_result r) (result_metadata r) (wj_artifacts r)
  (wj_usage r) (wj_continuation r).
#[global] Instance eta_WorkerInteraction : Eta WorkerInteraction := fun r => mkInteraction
  (in_id r) (in_worker_job_id r) (in_worker_id r) (in_run_id r) (in_external_job_id r) (in_session_id r) (in_type r)
  (in_state r) (in_title r) (in_summary r) (in_created_at r) (in_deadline r) (in_risk r) (in_category r)
  (in_payload r) (in_response r) (in_reason r) (in_actor r) (in_decided_at r).

(** ** Requests and answers *)

Record WorkerRequest := mkRequest {
  q_job_id : string; q_worker_id : string; q_capability : string; q_task_type : string; q_instructions : string;
  q_idempotency_key : string; q_deadline : string; q_run_id : string; q_node_id : string;
  q_durable_session_id : string; q_parent_worker_job_id : string; q_parent_tool_call_id : string;
  q_parent_tool_turn_id : string; q_parent_provider_session_id : string; q_attempt : Z; q_timeout_ms : Z;
  q_input : Json; q_output_schema : Json; q_metadata : Json; q_artifact_ids : list string;
  q_durable_session : bool; q_cancellation_signal : option string; q_continuation : option Continuation;
  q_session_context : option SessionContext }.
#[global] Instance eta_WorkerRequest : Eta WorkerRequest := fun r => mkRequest
  (q_job_id r) (q_worker_id r) (q_capability r) (q_task_type r) (q_instructions r) (q_idempotency_key r)
  (q_deadline r) (q_run_id r) (q_node_id r) (q_durable_session_id r) (q_parent_worker_job_id r)
  (q_parent_tool_call_id r) (q_parent_tool_turn_id r) (q_parent_provider_session_id r) (q_attempt r)
  (q_timeout_ms r) (q_input r) (q_output_schema r) (q_metadata r) (q_artifact_ids r) (q_durable_session r)
  (q_cancellation_signal r) (q_continuation r) (q_session_context r).
Record WorkerSubmission := mkSubmission {
  sb_external_job_id : string; sb_state : WorkerJobState; sb_metadata : Json; sb_usage : WorkerUsage;
  sb_result : Json; sb_artifacts : list Json; sb_error : string; sb_continuation : option Continuation }.
Record WorkerStatus := mkStatus {
  st_state : WorkerJobState; st_result : Json; st_metadata : Json; st_artifacts : list Json; st_error : string;
  st_usage : WorkerUsage; st_continuation : option Continuation }.
#[global] Instance eta_WorkerStatus : Eta WorkerStatus := fun r => mkStatus
  (st_state r) (st_result r) (st_metadata r) (st_artifacts r) (st_error r) (st_usage r) (st_continuation r).

(** The calls that leave the manager: the registry and the transports ([registry_.get(worker)] throws
    for an unknown worker), the creation of a thread and the wait for a decision. *)
Inductive ACall :=
  | CNames | CGet (worker : string) | CMetadata (worker : string) | CRestartable (worker : string) | CStart (worker : string)
  | CSubmit (worker : string) (retry : bool) (request : WorkerRequest)
  | CStatus (worker external_job_id : string) | CResult (worker external_job_id : string)
  | CCancel (worker external_job_id : string) | CCancelPending (worker job_id : string)
  | CLaunch | CWait.
Definition answer (c : ACall) : Type :=
  match c with
  | CNames => list string
  | CGet _ => unit
  | CMetadata _ => WorkerMetadata
  | CRestartable _ => bool
  | CStart _ => unit
  | CSubmit _ _ _ => WorkerSubmission
  | CStatus _ _ | CResult _ _ => WorkerStatus
  | CCancel _ _ | CCancelPending _ _ => bool
  | CLaunch | CWait => unit
  end.

(** ** State *)

Record Mgr := mkMgr {
  mg_db : DB; mg_calls : nat;
  async_submissions : gset string; active_submissions : gset string; signals : gmap string bool;
  mg_stopped : bool;
  submitted : list string; retried : list string; cancel_calls : list string; deferred : list string }.
#[global] Instance eta_Mgr : Eta Mgr := fun r => mkMgr
  (mg_db r) (mg_calls r) (async_submissions r) (active_submissions r) (signals r) (mg_stopped r)
  (submitted r) (retried r) (cancel_calls r) (deferred r).

(** What a call leaves in the record. *)
Definition note (c : ACall) (w : Mgr) : Mgr :=
  match c with
  | CSubmit _ false q => w <| submitted := q_job_id q :: submitted w |>
  | CSubmit _ true q => w <| retried := q_job_id q :: retried w |>
  | CCancel _ ext => w <| cancel_calls := ext :: cancel_calls w |>
  | _ => w
  end.

(** The limits of the constructor and the policy engine. *)
Class ManagerConfig := mkManagerConfig {
  max_active : Z; max_per_worker : Z; max_artifacts : Z; max_wall_time_ms : Z; max_tokens_per_run : Z;
  max_cost_units_per_run : double; policy : option PolicyEngine }.

(** Identifiers and clocks of the process, and which calls of the store succeed. *)
Class ManagerEnv := {
  mg_uuid : nat -> string;
  mg_timestamp : nat -> string;
  mg_ok : nat -> bool }.

Abbreviation MIO := (IO Mgr).
Abbreviation MTask := (Task (W := Mgr) (answer := answer)).

(** ** Constants and small functions *)

Definition max_job_id_bytes : Z := 128.
Definition max_external_id_bytes : Z := 512.
Definition max_metadata_bytes : Z := 64 * 1024.
Definition max_result_bytes : Z := 1024 * 1024.
Definition max_usage_identity_bytes : Z := 128.
Definition max_usage_metric : Z := 1000000000000000.
Definition max_interaction_id_bytes : Z := 512.
Definition max_interaction_text_bytes : Z := 4096.
Definition max_interaction_payload_bytes : Z := 64 * 1024.

Definition bounded_identifier (value : string) (maximum : Z) : bool :=
  negb (empty_str value) && (size_of value <=? maximum)
  && forallb (fun c => is_alnum c || one_of ["-"; "_"; "."; ":"]%char c) (chars_of value).

Definition bounded_error (value : string) : string :=
  if size_of value <=? 512 then value else String.substring 0 512 value.

Definition transport_error {A} (msg : string) : tres A := TThrow (TTransport false false msg).

Definition valid_continuation (c : Continuation) : bool :=
  negb (empty_str (provider_id c) || (256 <? size_of (provider_id c)) || empty_str (provider_version c)
        || (128 <? size_of (provider_version c)) || empty_str (c_state c) || (64 * 1024 <? size_of (c_state c))).
Definition apply_continuation (job : WorkerJob) (continuation : option Continuation) : tres WorkerJob :=
  match continuation with
  | None => TOk job
  | Some c => if valid_continuation c then TOk (job <| wj_continuation := Some c |>)
              else transport_error "Worker returned invalid continuation state"
  end.

Definition event_state (type : string) : WorkerJobState :=
  if String.eqb type "worker.job.started" then JRunning
  else if String.eqb type "worker.job.completed" then JCompleted
  else if String.eqb type "worker.job.failed" then JFailed
  else if String.eqb type "worker.job.cancelled" then JCancelled
  else JUnknown.

(** [durable_job_id]: FNV-1a over 64 bits, in hexadecimal. *)
Definition durable_job_id (idempotency_key : string) : string :=
  ("worker-" ++ of_chars (hex_digits 16 (fnv_hash idempotency_key) []))%string.

(** [a.update(b)] of two objects. *)
Definition update_object (a b : Json) : Json :=
  match b with JObject l => foldl (fun j kv => set_member kv.1 kv.2 j) a l | _ => a end.
Definition keep {A} (incoming target : option A) : option A := match incoming with Some a => Some a | None => target end.
Definition keep_text (incoming target : string) : string := if empty_str incoming then target else incoming.
Definition sum_tokens (input output : option Z) : option Z :=
  match input, output with
  | Some i, Some o => if i <=? u64_max - o then Some (i + o) else None
  | _, _ => None
  end.
(** [target.metadata.update] throws unless the target is an object (or null). *)
Definition merge_usage (target incoming : WorkerUsage) : tres WorkerUsage :=
  metadata ← (if is_object (u_metadata incoming) then
                if is_object (u_metadata target) || is_null (u_metadata target)
                then TOk (update_object (if is_null (u_metadata target) then JObject [] else u_metadata target)
                            (u_metadata incoming))
                else TThrow TStd
              else TOk (u_metadata target));
  let input := keep (input_tokens incoming) (input_tokens target) in
  let output := keep (output_tokens incoming) (output_tokens target) in
  let total := keep (total_tokens incoming) (total_tokens target) in
  TOk (mkUsage (keep (queue_duration_ms incoming) (queue_duration_ms target))
         (keep (wall_duration_ms incoming) (wall_duration_ms target)) input output
         (match total with Some t => Some t | None => sum_tokens input output end)
         (keep (tool_calls incoming) (tool_calls target)) (keep (action_count incoming) (action_count target))
         (keep (cost_units incoming) (cost_units target)) (keep_text (u_provider incoming) (u_provider target))
         (keep_text (u_model incoming) (u_model target)) (keep_text (u_executor incoming) (u_executor target))
         metadata).
(** [WorkerManager::total_tokens] *)
Definition reported_tokens (u : WorkerUsage) : option Z :=
  match total_tokens u with Some t => Some t | None => sum_tokens (input_tokens u) (output_tokens u) end.

Definition exceeds (metric : option Z) (limit : Z) : bool :=
  match metric with Some m => limit <? m | None => false end.

Section Manager.
Context `{JsonLib} {E : ManagerEnv} {config : ManagerConfig}.

(** ** Access to the store *)

Definition m_call : MIO nat := fun w => (w <| mg_calls := S (mg_calls w) |>, TOk (mg_calls w)).
Definition m_now : MIO string := n ← m_call; mret (mg_timestamp n).
Definition m_store {A} (m : M DB A) : MIO A :=
  n ← m_call;
  if mg_ok n then (fun w => let '(db, r) := m (mg_db w) in (w <| mg_db := db |>, of_res r)) : MIO A
  else io_throw StorageError "Storage is unavailable".
Definition m_get (k : RecordKind) (i : string) : MIO Json := m_store (get_record k i).
Definition m_list (k : RecordKind) (run_id : string) (limit offset : Z) : MIO (list Json) :=
  m_store (list_records k run_id limit offset).
Definition m_commit (records : list StoreRecord) : MIO unit :=
  n ← m_call; m_store (commit (mg_uuid n) (mg_timestamp n) records).
Definition m_claim (r : StoreRecord) : MIO bool := m_store (claim r []).

Definition job_record (value : WorkerJob) : StoreRecord :=
  mkRecord KWorkerJob (wj_id value) (wj_run_id value) (worker_job_to_json value).
Definition job (i : string) : MIO WorkerJob :=
  _ ← io_guard (negb (bounded_identifier i max_job_id_bytes)) Validation "Invalid worker job id";
  j ← m_get KWorkerJob i; io_lift (worker_job_of_json j).

(** [catch (const Error &error)] when the code is [NotFound]. *)
Definition or_absent {A} (m : MIO A) : MIO (option A) :=
  io_catch (a ← m; mret (Some a))
    (fun e => if bool_decide (code e = NotFound) then mret None else io_lift (TThrow (TError e))).

(** ** What a job may hold *)

Fixpoint check_artifacts (bytes : Z) (l : list Json) : tres unit :=
  match l with
  | [] => TOk tt
  | a :: l =>
      text ← match dump a with Some text => TOk text | None => TThrow TStd end;
      let size := size_of text in
      _ ← tguard ((64 * 1024 <? size) || (64 * 1024 - size <? bytes)) Validation
            "Worker artifact metadata exceeds limit";
      check_artifacts (bytes + size) l
  end.
Definition check_sizes (value : WorkerJob) : tres unit :=
  _ ← check_artifacts 0 (wj_artifacts value);
  large ← (r ← dump_exceeds (wj_result value) max_result_bytes;
           if (r : bool) then TOk true
           else
             m ← dump_exceeds (result_metadata value) max_metadata_bytes;
             if (m : bool) then TOk true else TOk (max_artifacts <? Z.of_nat (length (wj_artifacts value))));
  _ ← tguard large Validation "Worker result exceeds limit";
  usage ← dump_exceeds (u_metadata (wj_usage value)) max_metadata_bytes;
  tguard usage Validation "Worker usage metadata exceeds limit".
Definition trimmed (value : WorkerJob) : WorkerJob :=
  let value := (value <| wj_error := bounded_error (wj_error value) |>)
                 <| cancellation_error := bounded_error (cancellation_error value) |> in
  if js_eqb (wj_state value) JCompleted then value else value <| wj_continuation := None |>.
Definition persist (value : WorkerJob) : MIO WorkerJob :=
  _ ← io_lift (check_sizes value);
  let value := trimmed value in
  _ ← m_commit [job_record value];
  mret value.

(** What the other jobs of a run have used. *)
Fixpoint prior_usage (id : string) (tokens : Z) (cost : double) (l : list Json) : tres (option (Z * double)) :=
  match l with
  | [] => TOk (Some (tokens, cost))
  | j :: l =>
      prior ← worker_job_of_json j;
      if String.eqb (wj_id prior) id then prior_usage id tokens cost l
      else
        let cost := match cost_units (wj_usage prior) with Some c => SFadd 53 1024 cost c | None => cost end in
        match reported_tokens (wj_usage prior) with
        | Some t => if u64_max - t <? tokens then TOk None else prior_usage id (tokens + t) cost l
        | None => prior_usage id tokens cost l
        end
  end.
Definition budget_violation (value : WorkerJob) : MIO string :=
  let u := wj_usage value in
  if exceeds (queue_duration_ms u) max_usage_metric || exceeds (wall_duration_ms u) max_usage_metric
     || exceeds (input_tokens u) max_usage_metric || exceeds (output_tokens u) max_usage_metric
     || exceeds (total_tokens u) max_usage_metric || exceeds (tool_calls u) max_usage_metric
     || exceeds (action_count u) max_usage_metric
  then mret "reported worker usage exceeds the representable limit"%string
  else
    large ← io_lift (dump_exceeds (u_metadata u) max_metadata_bytes);
    if (large : bool) then mret "worker usage metadata exceeds the limit"%string
    else if (max_usage_identity_bytes <? size_of (u_provider u)) || (max_usage_identity_bytes <? size_of (u_model u))
            || (max_usage_identity_bytes <? size_of (u_executor u))
    then mret "worker usage identity exceeds the limit"%string
    else if match cost_units u with
            | Some c => negb (is_finite c) || SFltb c (S754_zero false) || SFltb (double_of_Z max_usage_metric) c
            | None => false
            end
    then mret "reported worker cost_units is invalid"%string
    else if negb (max_wall_time_ms =? 0) && exceeds (wall_duration_ms u) max_wall_time_ms
    then mret "worker wall-time budget exceeded"%string
    else
      let no_cost := SFeqb max_cost_units_per_run (S754_zero false) in
      prior ← (if (max_tokens_per_run =? 0) && no_cost then mret (Some (0, S754_zero false))
               else l ← m_list KWorkerJob (wj_run_id value) 10000 0;
                    io_lift (prior_usage (wj_id value) 0 (S754_zero false) l));
      match prior with
      | None => mret "worker token budget exceeded"%string
      | Some (prior_tokens, prior_cost) =>
          if negb (max_tokens_per_run =? 0)
             && match reported_tokens u with
                | Some t => (max_tokens_per_run <? prior_tokens) || (max_tokens_per_run - prior_tokens <? t)
                | None => false
                end
          then mret "worker token budget exceeded"%string
          else if negb no_cost
                  && match cost_units u with
                     | Some c => SFltb max_cost_units_per_run (SFadd 53 1024 prior_cost c)
                     | None => false
                     end
          then mret "worker cost_units budget exceeded"%string
          else mret ""%string
      end.

(** ** Durable jobs *)

Definition flag_of (j : Json) (key : string) : tres bool := value_ dec_bool j key false.
Definition text_of (j : Json) (key : string) : tres string := value_ dec_string j key ""%string.

Definition browser_tool_child_needs_result (j : WorkerJob) : tres bool :=
  if js_eqb (wj_state j) JCompleted && contains (request_metadata j) "parent_worker_job_id"
     && negb (empty_str (wj_external_job_id j))
  then retrieved ← flag_of (request_metadata j) "codex_tool_result_retrieved"; TOk (negb retrieved)
  else TOk false.

Definition waiting_for_handle (value : WorkerJob) : bool :=
  js_eqb (wj_state value) JSubmitting && empty_str (wj_external_job_id value).

(** [fence_stale_submission_locked] *)
Definition fence_stale_submission (value : WorkerJob) : MIO WorkerJob :=
  if negb (waiting_for_handle value) then mret value
  else
    w ← io_get;
    if bool_decide (wj_id value ∈ async_submissions w) || bool_decide (wj_id value ∈ active_submissions w)
    then mret value
    else
      value ← persist ((value <| wj_state := JUnknown |>)
        <| wj_error := "Worker submission was interrupted before its external job ID was recorded; the outcome is unknown and it will not be resubmitted"%string |>);
      _ ← io_modify (fun w => w <| signals := delete (wj_id value) (signals w) |>);
      mret value.
Definition fence_stale_submissions : MIO unit :=
  l ← m_list KWorkerJob "" 10000 0;
  io_iter (fun j => value ← io_lift (worker_job_of_json j); _ ← fence_stale_submission value; mret tt) l.

(** [retire_superseded_distributed_jobs_locked] *)
Definition retire_superseded_job (j : Json) : MIO unit :=
  value ← io_lift (worker_job_of_json j);
  if worker_job_terminal (wj_state value) then mret tt
  else
    work_id ← io_lift (text_of (request_metadata value) "node_work_id");
    attempt ← io_lift (text_of (request_metadata value) "node_work_attempt_id");
    if empty_str work_id || empty_str attempt then mret tt
    else
      io_catch
        (wj ← m_get KNodeWork work_id;
         n ← m_call;
         work ← io_lift (work_of_json (mg_uuid n) (mg_timestamp n) wj);
         if ws_eqb (w_state work) WRunning && String.eqb (attempt_id work) attempt then mret tt
         else
           now ← m_now;
           _ ← persist ((((value <| wj_state := JFailed |>) <| failure_kind := FTransport |>)
                 <| wj_error := "Worker attempt was superseded or lost its node lease"%string |>)
                 <| wj_completed_at := now |>);
           mret tt)
        (fun _ => mret tt).
Definition retire_superseded_jobs : MIO unit :=
  l ← m_list KWorkerJob "" 10000 0; io_iter retire_superseded_job l.

Definition forget_signal (i : string) : MIO unit := io_modify (fun w => w <| signals := delete i (signals w) |>).

Definition finalize_pending_cancellation (i : string) : MIO WorkerJob :=
  value ← job i;
  if worker_job_terminal (wj_state value) || negb (wj_cancellation_requested value)
     || negb (empty_str (wj_external_job_id value)) then mret value
  else
    now ← m_now;
    value ← persist ((((value <| wj_state := cancellation_target_state value |>)
      <| cancellation_acknowledged := true |>) <| cancellation_error := ""%string |>) <| wj_completed_at := now |>);
    _ ← forget_signal (wj_id value);
    mret value.

(** The budget of a job, and what becomes of one that exceeds it. *)
Definition over_budget (violation : string) (value : WorkerJob) : WorkerJob :=
  ((value <| wj_state := JFailed |>) <| failure_kind := FBudget |>) <| wj_error := violation |>.

(** The first block of [record_submission]: the handle is recorded; [true] when the external job has
    to be cancelled. *)
Definition record_handle (i : string) (submission : WorkerSubmission) : MIO (WorkerJob * bool) :=
  value ← job i;
  if worker_job_terminal (wj_state value) then mret (value, false)
  else
    let value := ((value <| wj_external_job_id := sb_external_job_id submission |>)
      <| wj_state := sb_state submission |>) <| result_metadata := sb_metadata submission |> in
    value ← io_lift (apply_continuation value (sb_continuation submission));
    let value := if is_null (sb_result submission) then value else value <| wj_result := sb_result submission |> in
    let value := if bool_decide (sb_artifacts submission = []) then value
                 else value <| wj_artifacts := sb_artifacts submission |> in
    let value := if empty_str (sb_error submission) then value
                 else value <| wj_error := bounded_error (sb_error submission) |> in
    usage ← io_lift (merge_usage (wj_usage value) (sb_usage submission));
    let value := value <| wj_usage := usage |> in
    let cancel := wj_cancellation_requested value && negb (worker_job_terminal (wj_state value)) in
    value ← (if worker_job_terminal (wj_state value) then now ← m_now; mret (value <| wj_completed_at := now |>)
             else mret value);
    violation ← budget_violation value;
    value ← (if negb (empty_str violation) then
               now ← m_now; mret (over_budget violation value <| wj_completed_at := now |>)
             else mret (if js_eqb (wj_state value) JFailed then value <| failure_kind := FJob |> else value));
    value ← persist value;
    _ ← forget_signal (wj_id value);
    mret (value, cancel).
(** Its second block, after the external job was told to stop. *)
Definition record_cancelled (i : string) (acknowledged : bool) : MIO WorkerJob :=
  value ← job i;
  if worker_job_terminal (wj_state value) then mret value
  else
    value ← (if acknowledged then
               now ← m_now;
               mret ((((value <| wj_state := cancellation_target_state value |>)
                 <| cancellation_acknowledged := true |>) <| cancellation_error := ""%string |>)
                 <| wj_completed_at := now |>)
             else mret (if empty_str (cancellation_error value)
                        then value <| cancellation_error := "Worker did not acknowledge cancellation"%string |>
                        else value));
    persist value.
Definition answered (r : Task bool) : Task (W := Mgr) (answer := answer) bool :=
  prog_bind r (fun a => Done (TOk (match a with TOk b => b | TThrow _ => false end))).
Definition record_submission (i : string) (submission : WorkerSubmission) (worker : string) : MTask WorkerJob :=
  if empty_str (sb_external_job_id submission) || (max_external_id_bytes <? size_of (sb_external_job_id submission))
  then task_throw (TTransport false false "Worker returned an invalid external job id")
  else
    r ← atomic (record_handle i submission);
    if negb r.2 then mret r.1
    else
      acknowledged ← answered (call (CCancel worker (sb_external_job_id submission)));
      atomic (record_cancelled i acknowledged).

(** ** Reconciliation

    [reconcile] returns its local job whatever happens, so the blocks below return the job as it is when
    an exception ends the [try], with the exception. *)
Definition Kept : Type := WorkerJob * option texn.
Definition attempt_ {A} (value : WorkerJob) (m : MIO A) (k : A -> MIO Kept) : MIO Kept := fun w =>
  match m w with (w', TOk a) => k a w' | (w', TThrow x) => (w', TOk (value, Some x)) end.
Definition attempt_call {A} (value : WorkerJob) (m : MTask A) (k : A -> MTask Kept) : MTask Kept :=
  prog_bind m (fun r => match r with TOk a => k a | TThrow x => Done (TOk (value, Some x)) end).
Definition persist_kept (value : WorkerJob) : MIO Kept :=
  attempt_ value (io_lift (check_sizes value)) (fun _ =>
    let value := trimmed value in
    attempt_ value (m_commit [job_record value]) (fun _ => mret (value, None))).

Definition set_flag (key : string) (value : WorkerJob) : WorkerJob :=
  value <| request_metadata := set_member key (JBool true) (request_metadata value) |>.
(** [if (cond(json)) value.member = json] with a bound on the size of the text. *)
Definition fits_in (v : Json) (limit : Z) : tres bool := large ← dump_exceeds v limit; TOk (negb large).

Definition take_artifacts (l : list Json) (value : WorkerJob) : WorkerJob :=
  if negb (bool_decide (l = [])) && (Z.of_nat (length l) <=? max_artifacts) then value <| wj_artifacts := l |> else value.
Definition take_error (msg : string) (value : WorkerJob) : WorkerJob :=
  if empty_str msg then value else value <| wj_error := bounded_error msg |>.
(** The state that follows from the budget, and the kind of a failure reported without one. *)
Definition judged (violation : string) (value : WorkerJob) : WorkerJob :=
  if negb (empty_str violation) then over_budget violation value
  else if js_eqb (wj_state value) JFailed && bool_decide (failure_kind value = FNone)
  then value <| failure_kind := FJob |> else value.
Definition completed_at_least (now : string) (value : WorkerJob) : WorkerJob :=
  if worker_job_terminal (wj_state value) && empty_str (wj_completed_at value)
  then value <| wj_completed_at := now |> else value.

(** The final payload of a completed tool child. *)
Definition retrieve_result (value : WorkerJob) (final_result : WorkerStatus) : MIO Kept :=
  attempt_ value (job (wj_id value)) (fun value =>
  attempt_ value (io_lift (
    needs ← browser_tool_child_needs_result value;
    if (needs : bool) && js_eqb (st_state final_result) JCompleted && negb (is_null (st_result final_result))
    then fits_in (st_result final_result) max_result_bytes else TOk false)) (fun apply =>
  if negb apply then mret (value, None)
  else
    let value := set_flag "codex_tool_result_retrieved" (value <| wj_result := st_result final_result |>) in
    attempt_ value (io_lift (if is_object (st_metadata final_result)
                             then fits_in (st_metadata final_result) max_metadata_bytes else TOk false)) (fun fits =>
    let value := if (fits : bool) then value <| result_metadata := st_metadata final_result |> else value in
    let value := take_artifacts (st_artifacts final_result) (take_error (st_error final_result) value) in
    attempt_ value (io_lift (merge_usage (wj_usage value) (st_usage final_result))) (fun usage =>
    persist_kept (value <| wj_usage := usage |>))))).

(** The transport no longer knows the job. *)
Definition forget_job (value : WorkerJob) : MIO Kept :=
  attempt_ value (job (wj_id value)) (fun value =>
  if worker_job_terminal (wj_state value) || js_eqb (wj_state value) JUnknown then mret (value, None)
  else persist_kept ((value <| wj_state := JUnknown |>)
         <| wj_error := "Worker process no longer knows this job; it will not be resubmitted"%string |>)).

Definition apply_status (value : WorkerJob) (status : WorkerStatus) (received : bool) : MIO Kept :=
  attempt_ value (job (wj_id value)) (fun value =>
  if worker_job_terminal (wj_state value) then mret (value, None)
  else if negb (valid_worker_job_transition (wj_state value) (st_state status))
          && negb (js_eqb (wj_state value) (st_state status)) then mret (value, None)
  else
    let value := value <| wj_state := st_state status |> in
    attempt_ value (io_lift (if is_null (st_result status) then TOk false
                             else fits_in (st_result status) max_result_bytes)) (fun fits =>
    let value := if (fits : bool) then value <| wj_result := st_result status |> else value in
    attempt_ value (io_lift (if is_object (st_metadata status)
                             then fits_in (st_metadata status) max_metadata_bytes else TOk false)) (fun fits =>
    let value := if (fits : bool) then value <| result_metadata := st_metadata status |> else value in
    attempt_ value (io_lift (apply_continuation value (st_continuation status))) (fun value =>
    attempt_ value (io_lift (merge_usage (wj_usage value) (st_usage status))) (fun usage =>
    let value := value <| wj_usage := usage |> in
    let value := take_error (st_error status) (take_artifacts (st_artifacts status) value) in
    attempt_ value (budget_violation value) (fun violation =>
    let value := judged violation value in
    attempt_ value m_now (fun now =>
    let value := completed_at_least now value in
    persist_kept (if js_eqb (st_state status) JCompleted && received
                     && contains (request_metadata value) "parent_worker_job_id"
                  then set_flag "codex_tool_result_retrieved" value else value)))))))).

(** [catch (const WorkerTransportError &)] *)
Definition transport_failed (value : WorkerJob) (msg : string) : MIO WorkerJob :=
  value ← job (wj_id value);
  if worker_job_terminal (wj_state value) then mret value
  else
    now ← m_now;
    persist ((((value <| wj_state := JFailed |>) <| failure_kind := FTransport |>)
      <| wj_error := bounded_error msg |>) <| wj_completed_at := now |>).

(** The final result joins a status that has none, or that of a tool child; the continuation of the
    result goes to the local job, which is read again afterwards. *)
Definition join_result (status final_result : WorkerStatus) : tres WorkerStatus :=
  let status := if js_eqb (st_state final_result) JCompleted && negb (is_null (st_result final_result))
                then status <| st_result := st_result final_result |> else status in
  let status := if is_object (st_metadata final_result) && negb (json_empty (st_metadata final_result))
                then status <| st_metadata := update_object (if is_object (st_metadata status) then st_metadata status
                                                             else JObject []) (st_metadata final_result) |>
                else status in
  let status := if empty_str (st_error final_result) then status
                else status <| st_error := st_error final_result |> in
  let status := if bool_decide (st_artifacts final_result = []) then status
                else status <| st_artifacts := st_artifacts final_result |> in
  usage ← merge_usage (st_usage status) (st_usage final_result);
  TOk (status <| st_usage := usage |>).

Definition reconcile_status (value : WorkerJob) : MTask Kept :=
  let worker := wj_worker_id value in
  let ext := wj_external_job_id value in
  attempt_call value (call (CStatus worker ext)) (fun status =>
  let wants := js_eqb (st_state status) JCompleted
               && (is_null (st_result status) || contains (request_metadata value) "parent_worker_job_id") in
  prog_bind
    (if wants then
       prog_bind (call (CResult worker ext)) (fun r =>
       Done (match r with
             | TThrow x => (value, TThrow x)
             | TOk final_result =>
                 match join_result status final_result with
                 | TThrow x => (value, TThrow x)
                 | TOk status =>
                     match apply_continuation value (st_continuation final_result) with
                     | TThrow x => (value, TThrow x)
                     | TOk value => (value, TOk (status, js_eqb (st_state final_result) JCompleted
                                                        && negb (is_null (st_result final_result))))
                     end
                 end
             end))
     else Done (value, TOk (status, false)))
    (fun joined =>
     let '(value, r) := joined in
     match r with
     | TThrow x => Done (TOk (value, Some x))
     | TOk (status, received) =>
         if js_eqb (st_state status) JUnknown then atomic (forget_job value)
         else atomic (apply_status value status received)
     end)).

Definition reconcile (value : WorkerJob) (fail_transport : bool) : MTask WorkerJob :=
  missing ← task_lift (browser_tool_child_needs_result value);
  if (worker_job_terminal (wj_state value) && negb missing) || empty_str (wj_external_job_id value) then mret value
  else
    metadata ← call (CMetadata (wj_worker_id value));
    if negb (supports_status metadata) && negb (supports_recovery metadata) then mret value
    else
      kept ← (if (missing : bool) then
                attempt_call value (call (CResult (wj_worker_id value) (wj_external_job_id value)))
                  (fun final_result => atomic (retrieve_result value final_result))
              else reconcile_status value);
      match kept.2 with
      | Some (TTransport _ _ msg) =>
          if fail_transport then atomic (transport_failed kept.1 msg) else mret kept.1
      | _ => mret kept.1
      end.

Definition refresh (i : string) : MTask WorkerJob :=
  r ← atomic (value ← job i; value ← fence_stale_submission value;
              needs ← io_lift (if worker_job_terminal (wj_state value) then browser_tool_child_needs_result value
                               else TOk false);
              mret (value, needs));
  let '(value, needs) := r in
  if (worker_job_terminal (wj_state value) && negb needs) || empty_str (wj_external_job_id value) then mret value
  else reconcile value true.
End Manager.
