(* ===== verification/Submission.v ===== *)
(** * Submission and cancellation of worker jobs

    [submit], [submit_async] and [cancel] of [src/workers/manager.cpp].  A synchronous submission runs in
    the caller; an asynchronous one reserves the dispatch of the job in [async_submissions] and hands it to
    a thread, which submits it and then gives the reservation back. *)

From S2P Require Import Prelude Json Types Text Pipeline Access Db Coordination Codec Worker Store Sha256 Effects Threads Manager.

Section Submission.
Context `{JsonLib} {E : ManagerEnv} {config : ManagerConfig}.

(** ** Admission of a request *)

Definition check_request (q : WorkerRequest) : tres unit :=
  large ← (if empty_str (q_idempotency_key q) || (512 <? size_of (q_idempotency_key q))
              || (128 <? size_of (q_task_type q)) || (128 <? size_of (q_capability q))
              || (max_job_id_bytes <? size_of (q_parent_worker_job_id q))
              || (max_interaction_id_bytes <? size_of (q_parent_tool_call_id q))
              || (max_interaction_id_bytes <? size_of (q_parent_tool_turn_id q))
              || (max_interaction_id_bytes <? size_of (q_parent_provider_session_id q))
              || (max_result_bytes <? size_of (q_instructions q)) then TOk true
           else
             i ← dump_exceeds (q_input q) max_result_bytes;
             if (i : bool) then TOk true
             else
               m ← dump_exceeds (q_metadata q) max_metadata_bytes;
               TOk (m || (max_artifacts <? Z.of_nat (length (q_artifact_ids q)))));
  _ ← tguard large Validation "Worker request exceeds limit";
  context ← match q_session_context q with
            | None => TOk false
            | Some c =>
                if negb (q_durable_session q) then TOk true
                else
                  p ← dump_exceeds (sx_payload c) max_result_bytes;
                  if (p : bool) then TOk true else dump_exceeds (sx_recent_turns c) max_result_bytes
            end;
  _ ← tguard (context || match q_continuation q with Some c => negb (valid_continuation c) | None => false end)
        Validation "Worker session context exceeds limit";
  tguard (negb (forallb (fun a => bounded_identifier a 128) (q_artifact_ids q))) Validation
    "Invalid worker artifact reference".

Definition task_guard (cond : bool) (c : ErrorCode) (msg : string) : MTask unit := task_lift (tguard cond c msg).

(** The workers that provide a capability, in the order of their names. *)
Fixpoint providers (capability result : string) (names : list string) : MTask string :=
  match names with
  | [] => _ ← task_guard (empty_str result) NotFound "No worker provides the requested capability"; mret result
  | candidate :: names =>
      metadata ← call (CMetadata candidate);
      if negb (str_in capability (capabilities metadata)) then providers capability result names
      else
        _ ← task_guard (negb (empty_str result)) Conflict "Worker capability is ambiguous";
        providers capability candidate names
  end.
Definition resolve_worker (worker_id capability : string) : MTask string :=
  if negb (empty_str worker_id) then _ ← call (CGet worker_id); mret worker_id
  else
    _ ← task_guard (empty_str capability) Validation "Worker id or capability is required";
    names ← call CNames;
    providers capability "" names.

Definition restores (metadata : WorkerMetadata) (worker : string) : MTask bool :=
  if supports_recovery metadata then mret true else call (CRestartable worker).
Definition out_of_service (metadata : WorkerMetadata) : bool :=
  String.eqb (wm_status metadata) "disabled" || String.eqb (wm_status metadata) "unavailable".
(** The metadata of a worker that can take a job; a failed transport is started again first. *)
Definition available (worker : string) : MTask WorkerMetadata :=
  metadata ← call (CMetadata worker);
  restorable ← restores metadata worker;
  metadata ← (if restorable && negb (healthy metadata) && negb (out_of_service metadata) then
                prog_bind (_ ← call (CStart worker); call (CMetadata worker)) (fun r =>
                Done (TOk (match r with TOk m => m | TThrow _ => metadata end)))
              else mret metadata);
  recoverable ← (if String.eqb (wm_status metadata) "failed" then restores metadata worker else mret false);
  _ ← task_guard (negb (enabled metadata) || out_of_service metadata || (negb (healthy metadata) && negb recoverable))
        Capacity "Worker is unavailable";
  mret metadata.

Definition can_execute_worker (worker_id capability candidate : string) : MTask bool :=
  if negb (empty_str worker_id) && negb (String.eqb candidate worker_id) then mret false
  else
    metadata ← call (CMetadata candidate);
    recoverable ← (if String.eqb (wm_status metadata) "failed" then restores metadata candidate else mret false);
    mret (negb (negb (enabled metadata) || (negb (healthy metadata) && negb recoverable)
                || (negb (String.eqb (wm_status metadata) "healthy") && negb recoverable))
          && (empty_str capability || str_in capability (capabilities metadata))).
Fixpoint any_worker (worker_id capability : string) (names : list string) : MTask bool :=
  match names with
  | [] => mret false
  | candidate :: names =>
      ok ← can_execute_worker worker_id capability candidate;
      if (ok : bool) then mret true else any_worker worker_id capability names
  end.
Definition can_execute (worker_id capability : string) : MTask bool :=
  if empty_str worker_id && empty_str capability then mret true
  else names ← call CNames; any_worker worker_id capability names.

(** The record of a new job. *)
Definition kept_metadata (metadata : Json) (target : Json) (key : string) : Json :=
  match member metadata key with Some v => set_member key v target | None => target end.
Definition request_record (q : WorkerRequest) : Json :=
  let j := mk_object [("task_type", JString (q_task_type q)); ("capability", JString (q_capability q));
                      ("deadline", JString (q_deadline q));
                      ("artifact_ids", enc_vector JString (q_artifact_ids q))]%string in
  let j := set_nonempty "parent_worker_job_id" (q_parent_worker_job_id q) j in
  let j := set_nonempty "parent_tool_call_id" (q_parent_tool_call_id q) j in
  let j := set_nonempty "parent_codex_turn_id" (q_parent_tool_turn_id q) j in
  let j := set_nonempty "parent_codex_session_id" (q_parent_provider_session_id q) j in
  foldl (kept_metadata (q_metadata q)) j
    ["classification"; "node_work_id"; "node_work_attempt_id"; "required_tool"]%string.
Definition new_job (now id worker : string) (q : WorkerRequest) : WorkerJob := {|
  wj_id := id; wj_worker_id := worker; wj_run_id := q_run_id q; wj_node_id := q_node_id q;
  wj_idempotency_key := q_idempotency_key q; wj_external_job_id := ""; wj_submitted_at := now; wj_started_at := "";
  wj_completed_at := ""; wj_error := ""; cancellation_error := ""; wj_attempt := q_attempt q;
  wj_state := JCreated; cancellation_target_state := JCancelled; failure_kind := FNone;
  wj_cancellation_requested := false; cancellation_acknowledged := false; request_metadata := request_record q;
  wj_result := JObject []; result_metadata := JObject []; wj_artifacts := []; wj_usage := empty_usage;
  wj_continuation := None |}.

(** Jobs that reserve a live slot; unknown outcomes do not. *)
Fixpoint count_active (worker : string) (active worker_active : Z) (l : list Json) : tres (Z * Z) :=
  match l with
  | [] => TOk (active, worker_active)
  | j :: l =>
      stored ← worker_job_of_json j;
      if worker_job_terminal (wj_state stored) || js_eqb (wj_state stored) JUnknown
      then count_active worker active worker_active l
      else count_active worker (active + 1)
             (if String.eqb (wj_worker_id stored) worker then worker_active + 1 else worker_active) l
  end.
Definition check_capacity (worker : string) : MIO unit :=
  l ← m_list KWorkerJob "" 10000 0;
  counts ← io_lift (count_active worker 0 0 l);
  _ ← io_guard (max_active <=? counts.1) Capacity "Worker job capacity is exhausted";
  io_guard (max_per_worker <=? counts.2) Capacity "Worker-specific job capacity is exhausted".

(** ** Submission *)

(** Destructors and [finally]: [f] runs however [m] ends. *)
Definition task_finally {A} (m : MTask A) (f : Mgr -> Mgr) : MTask A :=
  prog_bind m (fun r => Block (fun w => (f w, tt)) (fun _ => Done r)).

Definition set_active (i : string) (w : Mgr) : Mgr := w <| active_submissions := {[i]} ∪ active_submissions w |>.
Definition clear_active (i : string) (w : Mgr) : Mgr := w <| active_submissions := active_submissions w ∖ {[i]} |>.
Definition set_async (i : string) (w : Mgr) : Mgr := w <| async_submissions := {[i]} ∪ async_submissions w |>.
Definition clear_async (i : string) (w : Mgr) : Mgr := w <| async_submissions := async_submissions w ∖ {[i]} |>.
Definition set_signal (i : string) (b : bool) (w : Mgr) : Mgr := w <| signals := <[i := b]> (signals w) |>.
Definition dispatching (i : string) : MIO bool := w ← io_get; mret (bool_decide (i ∈ async_submissions w)).

(** A stored job under the request's key belongs to it. *)
Definition owned_job (q : WorkerRequest) (worker i : string) : MIO WorkerJob :=
  value ← job i;
  _ ← io_guard (negb (String.eqb (wj_idempotency_key value) (q_idempotency_key q))) Conflict
        "Worker idempotency key collision";
  _ ← io_guard (negb (String.eqb (wj_worker_id value) worker)) Conflict
        "Worker idempotency key belongs to another worker";
  mret value.

Definition lost_submission (value : WorkerJob) : WorkerJob :=
  (value <| wj_state := JUnknown |>)
    <| wj_error := "Worker submission outcome is unknown after restart; it will not be resubmitted"%string |>.

(** A repeated [submit] of a job that needs no further work. *)
Definition settled_submission (asynchronous_dispatch : bool) (existing : WorkerJob) : MTask (option WorkerJob) :=
  if worker_job_terminal (wj_state existing) || js_eqb (wj_state existing) JUnknown then mret (Some existing)
  else if waiting_for_handle existing then
    busy ← atomic (dispatching (wj_id existing));
    if (busy : bool) then mret (if asynchronous_dispatch then None else Some existing)
    else
      value ← atomic (value ← job (wj_id existing);
                      if waiting_for_handle value then persist (lost_submission value) else mret value);
      mret (Some value)
  else mret None.

(** Handing a request to the transport: the signal that cancels it travels along. *)
Definition outbound (q : WorkerRequest) (i : string) : MIO WorkerRequest :=
  w ← io_get;
  let q := q <| q_job_id := i |> in
  mret (if bool_decide (is_Some (signals w !! i)) then q <| q_cancellation_signal := Some i |> else q).
Definition hand_over (retry : bool) (q : WorkerRequest) (i worker : string) : MTask WorkerJob :=
  q ← atomic (outbound q i);
  submission ← call (CSubmit worker retry q);
  record_submission i submission worker.

(** What becomes of a job whose submission failed. *)
Definition fail_job (kind : WorkerFailureKind) (state : WorkerJobState) (msg : string) (value : WorkerJob)
    : MIO WorkerJob :=
  if worker_job_terminal (wj_state value) then mret value
  else
    now ← m_now;
    persist ((((value <| wj_state := state |>) <| failure_kind := kind |>) <| wj_error := msg |>)
               <| wj_completed_at := now |>).
(** The wait for a concurrent cancellation after a transport error. *)
Definition await_cancellation (i : string) (value : WorkerJob) : MTask WorkerJob :=
  if wj_cancellation_requested value && negb (worker_job_terminal (wj_state value)) then
    _ ← task_quiet (call CWait);
    atomic (io_catch_all (job i) (mret value))
  else mret value.
Definition transport_error_handler (i : string) (timed_out : bool) (msg : string) : MTask WorkerJob :=
  value ← atomic (value ← job i;
                  if wj_cancellation_requested value then mret value
                  else fail_job FTransport (if timed_out then JTimedOut else JFailed) (bounded_error msg) value);
  await_cancellation i value.
Definition job_error_handler (i msg : string) : MTask WorkerJob :=
  atomic (value ← job i; fail_job FJob JFailed msg value).

(** The retry of a submission whose transport can recover it. *)
Definition resubmit (q : WorkerRequest) (i worker : string) : MTask WorkerJob :=
  task_handle (hand_over true q i worker) (fun x =>
    match x with
    | TTransport true _ _ => atomic (finalize_pending_cancellation i)
    | TTransport false timed_out msg => transport_error_handler i timed_out msg
    | _ => job_error_handler i "Worker retry submission failed"
    end).

(** The dispatch of a job in state [Submitting]. *)
Definition dispatch (q : WorkerRequest) (i worker : string) : MTask WorkerJob :=
  pending ← atomic (finalize_pending_cancellation i);
  if worker_job_terminal (wj_state pending) then mret pending
  else
    _ ← task_handle (hand_over false q i worker) (fun x =>
      match x with
      | TTransport true _ _ => atomic (finalize_pending_cancellation i)
      | TTransport false timed_out msg => transport_error_handler i timed_out msg
      | TError e =>
          if bool_decide (code e = StorageError) then task_throw x
          else job_error_handler i (bounded_error (if bool_decide (code e = Plugin) then what e
                                                   else "Worker submission failed"))
      | _ => job_error_handler i "Worker submission failed"
      end);
    atomic (job i).

(** Jobs of a worker whose state is asked for before its capacity is counted. *)
Fixpoint select_jobs (p : WorkerJob -> bool) (l : list Json) : tres (list WorkerJob) :=
  match l with
  | [] => TOk []
  | j :: l => value ← worker_job_of_json j; rest ← select_jobs p l; TOk (if p value then value :: rest else rest)
  end.
Definition jobs_where (p : WorkerJob -> bool) : MIO (list WorkerJob) :=
  l ← m_list KWorkerJob "" 10000 0; io_lift (select_jobs p l).
Definition probe (fail_transport : bool) (l : list WorkerJob) : MTask unit :=
  task_iter (fun value => _ ← reconcile value fail_transport; mret tt) l.
Definition probe_worker (worker : string) : MTask unit :=
  l ← atomic (jobs_where (fun value => String.eqb (wj_worker_id value) worker
                                        && negb (worker_job_terminal (wj_state value))));
  task_when (max_per_worker <=? Z.of_nat (length l)) (probe false l).

(** The creation of a job: [inl] when another one has taken the identifier. *)
Definition create_job (q : WorkerRequest) (i worker : string) (check_parent : MIO unit) : MIO (WorkerJob + WorkerJob) :=
  _ ← check_capacity worker;
  now ← m_now;
  let created := new_job now i worker q in
  _ ← check_parent;
  claimed ← m_claim (job_record created);
  if negb claimed then value ← job i; mret (inl value)
  else created ← persist (created <| wj_state := JSubmitting |>); mret (inr created).
Definition create_submission (q : WorkerRequest) (i worker : string) : MIO (WorkerJob + WorkerJob) :=
  _ ← retire_superseded_jobs;
  _ ← fence_stale_submissions;
  r ← create_job q i worker (mret tt);
  _ ← match r with inr created => io_modify (set_signal (wj_id created) false) | inl _ => mret tt end;
  mret r.

(** The part of [submit_impl] that follows the lookup of the stored job. *)
Definition submit_existing (q : WorkerRequest) (metadata : WorkerMetadata) (i worker : string) (existing : WorkerJob)
    : MTask WorkerJob :=
  if negb (empty_str (wj_external_job_id existing)) then reconcile existing false
  else if negb (supports_recovery metadata) then
    atomic (value ← job i;
            persist ((value <| wj_state := JUnknown |>)
              <| wj_error := "External submission outcome is unknown; adapter recovery is unavailable"%string |>))
  else resubmit q (wj_id existing) worker.
Definition submit_new (q : WorkerRequest) (metadata : WorkerMetadata) (i worker : string) : MTask WorkerJob :=
  _ ← task_when (supports_status metadata) (probe_worker worker);
  r ← atomic (create_submission q i worker);
  match r with
  | inl value => mret value
  | inr created => dispatch q (wj_id created) worker
  end.

Definition submit_body (q : WorkerRequest) (asynchronous_dispatch : bool) (initial_submission_id : string)
    (i worker : string) : MTask WorkerJob :=
  _ ← call (CGet worker);
  existing ← atomic (or_absent (owned_job q worker i));
  let initial_dispatch := negb (empty_str initial_submission_id) in
  _ ← task_guard (initial_dispatch
                  && match existing with
                     | Some e => negb (String.eqb (wj_id e) initial_submission_id) || negb (waiting_for_handle e)
                     | None => true
                     end) Conflict "Initial worker dispatch no longer owns its durable job";
  settled ← match existing with
            | Some e => if initial_dispatch then mret None else settled_submission asynchronous_dispatch e
            | None => mret None
            end;
  match settled, existing with
  | Some value, _ => mret value
  | None, None => metadata ← available worker; submit_new q metadata i worker
  | None, Some e =>
      if wj_cancellation_requested e && empty_str (wj_external_job_id e)
      then atomic (finalize_pending_cancellation (wj_id e))
      else
        metadata ← available worker;
        if initial_dispatch then dispatch q (wj_id e) worker else submit_existing q metadata i worker e
  end.

Definition check_stopped : MTask unit :=
  stopped ← atomic (w ← io_get; mret (mg_stopped w));
  task_guard stopped Conflict "Worker manager is stopped".
Definition submit_impl (q : WorkerRequest) (asynchronous_dispatch : bool) (initial_submission_id : string)
    : MTask WorkerJob :=
  _ ← check_stopped;
  _ ← task_lift (check_request q);
  worker ← resolve_worker (q_worker_id q) (q_capability q);
  let i := durable_job_id (q_idempotency_key q) in
  _ ← atomic (io_modify (set_active i));
  task_finally (submit_body q asynchronous_dispatch initial_submission_id i worker) (clear_active i).
Definition submit (q : WorkerRequest) : MTask WorkerJob := submit_impl q false "".

(** *** Asynchronous submission *)

(** A failure of a dispatch thread outside of the transport call. *)
Definition thread_failed (i msg : string) : MTask unit :=
  task_quiet (atomic (value ← job i; fail_job FJob JFailed msg value)).
(** The end of a dispatch thread; what it leaves is recorded. *)
Definition still_waiting (db : DB) (i : string) : bool :=
  match tables db !! (KWorkerJob, i) with
  | Some row => match worker_job_of_json (row_body row) with TOk value => waiting_for_handle value | _ => false end
  | None => false
  end.
Definition end_dispatch (i : string) (w : Mgr) : Mgr :=
  let w := clear_async i w in
  if still_waiting (mg_db w) i then w <| deferred := i :: deferred w |> else w.
Definition async_submission (q : WorkerRequest) (i : string) : Prog unit :=
  prog_bind (submit_impl q true i) (fun r =>
  prog_bind (match r with
             | TOk _ => mret tt
             | TThrow x =>
                 match error_of x with
                 | Some e => if bool_decide (code e = StorageError) then mret tt
                             else thread_failed i (bounded_error (what e))
                 | None => thread_failed i "Worker submission failed"
                 end
             end : MTask unit) (fun _ =>
  Block (fun w => (end_dispatch i w, tt)) (fun _ =>
  Block (fun w => ((forget_signal i w).1, tt)) (fun _ => Done tt)))).

Definition check_parent_job (q : WorkerRequest) : MIO unit :=
  if empty_str (q_parent_worker_job_id q) then mret tt
  else
    parent ← io_catch (job (q_parent_worker_job_id q))
               (fun _ => io_throw Conflict "Parent worker job is unavailable");
    io_guard (negb (String.eqb (wj_run_id parent) (q_run_id q)) || wj_cancellation_requested parent
              || worker_job_terminal (wj_state parent)) Conflict "Parent worker job is no longer active".

(** The locked block: [inl] returns at once, [inr] goes on to the launch, with the reservation. *)
Definition existing_async (q : WorkerRequest) (worker i : string) : MIO (WorkerJob + WorkerJob * bool) :=
  value ← owned_job q worker i;
  if worker_job_terminal (wj_state value) || js_eqb (wj_state value) JUnknown
     || negb (empty_str (wj_external_job_id value)) then mret (inl value)
  else if js_eqb (wj_state value) JSubmitting then
    busy ← dispatching (wj_id value);
    if (busy : bool) then mret (inr (value, false))
    else value ← persist (lost_submission value); mret (inl value)
  else mret (inr (value, false)).
Definition reserve_dispatch (i : string) : MIO bool := fun w =>
  let w := if bool_decide (is_Some (signals w !! i)) then w else set_signal i false w in
  (set_async i w, TOk (negb (bool_decide (i ∈ async_submissions w)))).
Definition new_async (q : WorkerRequest) (worker i : string) : MIO (WorkerJob + WorkerJob * bool) :=
  r ← create_job q i worker (check_parent_job q);
  match r with
  | inl value => mret (inl value)
  | inr created => reserved ← reserve_dispatch (wj_id created); mret (inr (created, reserved))
  end.
Definition prepare_async (q : WorkerRequest) (worker i : string) : MIO (WorkerJob + WorkerJob * bool) :=
  _ ← retire_superseded_jobs;
  _ ← fence_stale_submissions;
  io_catch (existing_async q worker i)
    (fun e => if bool_decide (code e = NotFound) then new_async q worker i else io_lift (TThrow (TError e))).

(** No thread could be created. *)
Definition not_scheduled (i : string) : MIO unit :=
  _ ← forget_signal i;
  value ← job i;
  if negb (waiting_for_handle value) then mret tt
  else
    now ← m_now;
    _ ← persist ((if wj_cancellation_requested value then
                    ((value <| wj_state := cancellation_target_state value |>) <| cancellation_acknowledged := true |>)
                      <| cancellation_error := ""%string |>
                  else ((value <| wj_state := JFailed |>) <| failure_kind := FJob |>)
                         <| wj_error := "Worker submission could not be scheduled"%string |>)
                 <| wj_completed_at := now |>);
    mret tt.
Definition launch (q : WorkerRequest) (i : string) (created : WorkerJob) (reserved : bool) : MTask WorkerJob :=
  owned ← (if reserved then mret true
           else atomic (fun w => (set_async (wj_id created) w,
                                  TOk (negb (bool_decide (wj_id created ∈ async_submissions w))))));
  if negb owned then mret created
  else
    prog_bind (call CLaunch) (fun r =>
    match r with
    | TOk _ => _ ← spawn (async_submission q i); mret created
    | TThrow x =>
        _ ← atomic (io_modify (clear_async (wj_id created)));
        _ ← task_quiet (atomic (not_scheduled (wj_id created)));
        task_throw x
    end).

Definition probe_remote (worker : string) : MTask unit :=
  l ← atomic (jobs_where (fun value => String.eqb (wj_worker_id value) worker
                                        && negb (worker_job_terminal (wj_state value))
                                        && negb (js_eqb (wj_state value) JUnknown)
                                        && negb (empty_str (wj_external_job_id value))));
  probe true l.
Definition submit_async (q : WorkerRequest) : MTask WorkerJob :=
  _ ← check_stopped;
  _ ← task_lift (check_request q);
  worker ← resolve_worker (q_worker_id q) (q_capability q);
  _ ← call (CGet worker);
  metadata ← available worker;
  _ ← task_when (wm_remote metadata && supports_status metadata && negb (supports_recovery metadata))
        (probe_remote worker);
  let i := durable_job_id (q_idempotency_key q) in
  r ← atomic (prepare_async q worker i);
  match r with
  | inl value => mret value
  | inr (created, reserved) => launch q i created reserved
  end.

(** ** Cancellation *)

Definition cancel_reservation (r : Json) : Json :=
  if is_object r then set_member "state" (JString "cancelled") r else r.
Definition cancel_reservations (metadata : Json) : Json :=
  match member metadata "codex_browser_status_reservations" with
  | Some (JArray l) => set_member "codex_browser_status_reservations" (JArray (map cancel_reservation l)) metadata
  | _ => metadata
  end.
(** The request to cancel; [None] when the job has ended. *)
Definition request_cancel (i : string) (requested : WorkerJobState) (reason : string) : MIO (option WorkerJob) :=
  value ← job i;
  if worker_job_terminal (wj_state value) then mret None
  else
    let value := (((value <| wj_cancellation_requested := true |>)
      <| cancellation_target_state := requested |>) <| cancellation_error := bounded_error reason |>)
      <| request_metadata := cancel_reservations (request_metadata value) |> in
    _ ← io_modify (fun w => if bool_decide (is_Some (signals w !! i)) then set_signal i true w else w);
    value ← persist value;
    mret (Some value).

Definition interaction_record (value : WorkerInteraction) : StoreRecord :=
  mkRecord KWorkerInteraction (in_id value) (in_run_id value) (interaction_to_json value).
Definition is_eqb (a b : WorkerInteractionState) : bool := bool_decide (a = b).
Definition decision (state : WorkerInteractionState) (reason : string) : Json :=
  mk_object [("decision", interaction_state_to_json state); ("reason", JString reason)]%string.
Definition cancel_interaction (i reason : string) (j : Json) : MIO unit :=
  value ← io_lift (interaction_of_json j);
  if String.eqb (in_worker_job_id value) i && is_eqb (in_state value) IPending then
    now ← m_now;
    let reason := bounded_error reason in
    m_commit [interaction_record ((((value <| in_state := ICancelled |>) <| in_reason := reason |>)
      <| in_decided_at := now |>) <| in_response := decision ICancelled reason |>)]
  else mret tt.
Definition cancel_interactions (i reason : string) : MIO unit :=
  l ← m_list KWorkerInteraction "" 10000 0; io_iter (cancel_interaction i reason) l.

(** What the answer of the worker makes of the job; [false] when the job had ended. *)
Definition apply_cancel (i : string) (requested : WorkerJobState) (reason : string) (acknowledged : bool) (failure : string)
    : MIO bool :=
  value ← job i;
  if worker_job_terminal (wj_state value) then mret false
  else
    _ ← cancel_interactions (wj_id value) reason;
    now ← m_now;
    let value :=
      if acknowledged then
        (((value <| cancellation_acknowledged := true |>)
          <| wj_state := (if js_eqb requested JTimedOut then JTimedOut else JCancelled) |>)
          <| cancellation_error := ""%string |>) <| wj_completed_at := now |>
      else value <| cancellation_error :=
             (if negb (empty_str failure) then failure
              else if js_eqb requested JTimedOut then "Worker did not acknowledge timeout cancellation"
              else "Worker did not acknowledge cancellation")%string |> in
    _ ← persist value;
    mret true.

(** Asking the worker; an acknowledged cancellation of a pending submission restarts the transport in a
    thread of its own. *)
Definition ask_worker (i : string) (value : WorkerJob) : MTask (bool * string) :=
  let worker := wj_worker_id value in
  let pending := empty_str (wj_external_job_id value) in
  prog_bind
    (_ ← call (CGet worker);
     if pending then
       acknowledged ← call (CCancelPending worker i);
       _ ← task_when acknowledged (spawn (prog_bind (call (CStart worker)) (fun _ => Done tt)));
       mret acknowledged
     else call (CCancel worker (wj_external_job_id value)))
    (fun r => Done (TOk (match r with
                         | TOk acknowledged => (acknowledged, ""%string)
                         | TThrow _ => (false, if pending then "Worker pending cancellation failed"
                                               else "Worker cancellation failed")%string
                         end))).

(** The children of a job are cancelled after it; [depth] bounds the recursion, which the code does not. *)
Definition is_child (i : string) (j : Json) : tres (option string) :=
  child ← worker_job_of_json j;
  parent ← text_of (request_metadata child) "parent_worker_job_id";
  TOk (if String.eqb parent i && negb (worker_job_terminal (wj_state child)) then Some (wj_id child) else None).
Fixpoint cancel (depth : nat) (i : string) (requested : WorkerJobState) (reason : string) : MTask unit :=
  match depth with
  | O => mret tt
  | S depth =>
      value ← atomic (request_cancel i requested reason);
      match value with
      | None => mret tt
      | Some value =>
          answer ← ask_worker i value;
          open ← atomic (apply_cancel i requested reason answer.1 answer.2);
          if negb open then mret tt
          else
            l ← atomic (m_list KWorkerJob "" 10000 0);
            task_iter (fun j =>
              child ← task_lift (is_child i j);
              match child with Some c => cancel depth c requested reason | None => mret tt end) l
      end
  end.
End Submission.
