(* ===== verification/Interactions.v ===== *)
(** * Interactions and events of workers

    [handle_interaction], [resolve_interaction] and [receive] of [src/workers/manager.cpp]: requests of a
    worker for a decision, and the events it reports about its jobs. *)

From S2P Require Import Prelude Json Types Text Pipeline Access Db Coordination Codec Worker Store Sha256 Effects Threads Manager Submission.

Section Interactions.
Context `{JsonLib} {E : ManagerEnv} {config : ManagerConfig}.

(** ** Interactions *)

Definition interaction_terminal (state : WorkerInteractionState) : bool := negb (is_eqb state IPending).
Definition interaction_response (value : WorkerInteraction) : tres WorkerInteractionResponse :=
  payload ← value_ dec_json (in_response value) "payload" (JObject []);
  TOk (mkInteractionResponse (in_id value) (in_state value) payload (in_reason value)).

Definition oversized (q : WorkerInteractionRequest) : tres bool :=
  if empty_str (rq_request_id q) || (max_interaction_id_bytes <? size_of (rq_request_id q))
     || empty_str (rq_worker_job_id q) || (max_interaction_id_bytes <? size_of (rq_worker_job_id q))
     || (max_interaction_id_bytes <? size_of (rq_worker_id q))
     || (max_interaction_id_bytes <? size_of (rq_external_job_id q))
     || (max_interaction_id_bytes <? size_of (rq_session_id q))
     || (max_interaction_text_bytes <? size_of (rq_title q)) || (max_interaction_text_bytes <? size_of (rq_summary q))
     || (64 <? size_of (rq_created_at q)) || (64 <? size_of (rq_deadline q))
     || (128 <? size_of (rq_risk q)) || (128 <? size_of (rq_category q)) || negb (is_object (rq_payload q))
  then TOk true else dump_exceeds (rq_payload q) max_interaction_payload_bytes.

Definition commit_interaction (value : WorkerInteraction) : MIO unit := m_commit [interaction_record value].

(** What the policy says of a request.  The seventh member of the context the code builds is
    [worker_node]; [approval_required] keeps its default. *)
Definition interaction_context (q : WorkerInteractionRequest) : tres PolicyContext :=
  resource ← value_ dec_string (rq_payload q) "resource" "worker.permission"%string;
  classification ← value_ dec_string (rq_payload q) "classification" "public"%string;
  network ← value_ dec_bool (rq_payload q) "network" false;
  remote ← value_ dec_bool (rq_payload q) "remote" false;
  TOk (mkPolicyContext "" "" resource classification network remote (bool_decide (rq_type q = IApproval)) false).
Definition interaction_policy (q : WorkerInteractionRequest) : tres PolicyResult :=
  if bool_decide (rq_type q = IQuestion) then TOk (mkPolicyResult RequireApproval "Human answer required")
  else
    match policy with
    | Some engine => context ← interaction_context q; TOk (evaluate engine context)
    | None => TOk (mkPolicyResult RequireApproval "Human decision required")
    end.
Definition decide_interaction (now : string) (q : WorkerInteractionRequest) (r : PolicyResult) (value : WorkerInteraction)
    : WorkerInteraction :=
  let decided (state : WorkerInteractionState) :=
    (((value <| in_state := state |>) <| in_reason := pr_reason r |>)
       <| in_response := decision state (pr_reason r) |>) <| in_decided_at := now |> in
  match pr_decision r with
  | Allow => decided (if bool_decide (rq_type q = IQuestion) then IAnswered else IApproved)
  | Deny => decided IDenied
  | RequireApproval => value
  end.

Definition new_interaction (q : WorkerInteractionRequest) (run_id created_at : string) : WorkerInteraction :=
  mkInteraction (rq_request_id q) (rq_worker_job_id q) (rq_worker_id q) run_id (rq_external_job_id q)
    (rq_session_id q) (rq_type q) IPending (rq_title q) (rq_summary q) created_at (rq_deadline q) (rq_risk q)
    (rq_category q) (rq_payload q) (JObject []) "" "" "".
Definition known_interaction (q : WorkerInteractionRequest) : MIO WorkerInteraction :=
  j ← m_get KWorkerInteraction (rq_request_id q);
  value ← io_lift (interaction_of_json j);
  if negb (String.eqb (in_worker_job_id value) (rq_worker_job_id q)) || negb (bool_decide (in_type value = rq_type q))
  then io_lift (transport_error "Worker interaction id was reused with different content")
  else mret value.
Definition run_of_job (i : string) : MIO string :=
  io_catch (j ← m_get KWorkerJob i; io_lift (value_ dec_string j "run_id" ""%string))
    (fun e => if bool_decide (code e = NotFound) then mret ""%string else io_lift (TThrow (TError e))).
Definition create_interaction (q : WorkerInteractionRequest) : MIO WorkerInteraction :=
  run_id ← run_of_job (rq_worker_job_id q);
  now ← m_now;
  r ← io_lift (interaction_policy q);
  decided_at ← m_now;
  let value := decide_interaction decided_at q r
                 (new_interaction q run_id (if empty_str (rq_created_at q) then now else rq_created_at q)) in
  _ ← commit_interaction value;
  mret value.

Definition expired (now : string) (value : WorkerInteraction) : WorkerInteraction :=
  (((value <| in_state := IExpired |>) <| in_reason := "Worker interaction deadline expired"%string |>)
     <| in_response := decision IExpired "Worker interaction deadline expired" |>) <| in_decided_at := now |>.
Definition expire (value : WorkerInteraction) : MIO WorkerInteraction :=
  now ← m_now; let value := expired now value in _ ← commit_interaction value; mret value.
(** The block that opens an interaction; [None] when a decision has to be waited for. *)
Definition open_interaction (q : WorkerInteractionRequest) : MIO (option WorkerInteractionResponse) :=
  known ← or_absent (known_interaction q);
  value ← match known with Some value => mret value | None => create_interaction q end;
  if interaction_terminal (in_state value) then r ← io_lift (interaction_response value); mret (Some r)
  else
    now ← m_now;
    if negb (empty_str (in_deadline value)) && String.leb (in_deadline value) now then
      value ← expire value; r ← io_lift (interaction_response value); mret (Some r)
    else mret None.
(** The end of the wait: the decision, or the expiry of the request. *)
Definition close_interaction (q : WorkerInteractionRequest) : MIO WorkerInteractionResponse :=
  j ← m_get KWorkerInteraction (rq_request_id q);
  value ← io_lift (interaction_of_json j);
  value ← (if interaction_terminal (in_state value) then mret value else expire value);
  io_lift (interaction_response value).
Definition handle_interaction (q : WorkerInteractionRequest) : MTask WorkerInteractionResponse :=
  stopped ← atomic (w ← io_get; mret (mg_stopped w));
  if (stopped : bool) then task_throw (TTransport false false "LASO worker interaction service is stopped")
  else
    large ← task_lift (oversized q);
    if (large : bool) then task_throw (TTransport false false "Worker interaction request exceeds its limits")
    else
      r ← atomic (open_interaction q);
      match r with
      | Some r => mret r
      | None => _ ← task_quiet (call CWait); atomic (close_interaction q)
      end.

Definition resolve_interaction (i : string) (state : WorkerInteractionState) (payload : Json) (actor reason : string)
    : MIO unit :=
  large ← io_lift (if empty_str i || (128 <? size_of actor) || (2048 <? size_of reason) || negb (is_object payload)
                   then TOk true else dump_exceeds payload max_interaction_payload_bytes);
  _ ← io_guard (large || is_eqb state IPending) Validation "Invalid worker interaction decision";
  j ← m_get KWorkerInteraction i;
  value ← io_lift (interaction_of_json j);
  _ ← io_guard (negb (is_eqb (in_state value) IPending)) Conflict "Worker interaction is no longer pending";
  let question := bool_decide (in_type value = IQuestion) in
  _ ← io_guard (negb question && is_eqb state IAnswered) Validation "Only questions accept an answer";
  _ ← io_guard (question && (is_eqb state IApproved || is_eqb state IDenied)) Validation
        "Questions require an answer or cancellation";
  now ← m_now;
  commit_interaction (((((value <| in_state := state |>)
    <| in_response := mk_object [("decision", interaction_state_to_json state); ("payload", payload);
                                 ("reason", JString reason)]%string |>)
    <| in_reason := reason |>) <| in_actor := actor |>) <| in_decided_at := now |>).

(** ** Events of the workers *)

Definition usage_member (payload : Json) (value : WorkerJob) : tres WorkerJob :=
  match member payload "usage" with
  | Some u => u ← usage_of_json u; usage ← merge_usage (wj_usage value) u; TOk (value <| wj_usage := usage |>)
  | None => TOk value
  end.
Definition continuation_member (payload : Json) (value : WorkerJob) : tres WorkerJob :=
  match member payload "continuation" with
  | Some c =>
      if is_null c then TOk value
      else
        _ ← tguard (negb (is_object c)) Validation "Worker event continuation is invalid";
        provider ← text_of c "provider_id"; version ← text_of c "provider_version"; state ← text_of c "state";
        apply_continuation value (Some (mkContinuation provider version state))
  | None => TOk value
  end.
(** [worker.job.progress] *)
Definition progress_event (payload : Json) (value : WorkerJob) : MIO unit :=
  progress ← io_lift (value_ dec_json payload "progress" (JObject []));
  fits ← io_lift (fits_in progress max_metadata_bytes);
  value ← (if (fits : bool) then
             if is_object (result_metadata value) || is_null (result_metadata value)
             then mret (value <| result_metadata :=
                          set_member "progress" progress
                            (if is_null (result_metadata value) then JObject [] else result_metadata value) |>)
             else io_lift (TThrow TStd)
           else mret value);
  value ← io_lift (usage_member payload value);
  violation ← budget_violation value;
  value ← (if empty_str violation then mret value
           else now ← m_now; mret (over_budget violation value <| wj_completed_at := now |>));
  _ ← persist value; mret tt.
Definition completed_payload (payload : Json) (value : WorkerJob) : tres WorkerJob :=
  output ← value_ dec_json payload "output" (JObject []);
  result ← value_ dec_json payload "result" output;
  metadata ← value_ dec_json payload "metadata" (JObject []);
  value ← continuation_member payload ((value <| wj_result := result |>) <| result_metadata := metadata |>);
  artifacts ← value_ (dec_vector dec_json) payload "artifacts" [];
  usage_member payload (value <| wj_artifacts := artifacts |>).
(** The other events move the job to [next]. *)
Definition state_event (payload : Json) (next : WorkerJobState) (value : WorkerJob) : MIO unit :=
  if js_eqb next JUnknown || (negb (js_eqb next (wj_state value)) && negb (valid_worker_job_transition (wj_state value) next))
  then mret tt
  else
    let value := value <| wj_state := next |> in
    value ← (if js_eqb next JRunning && empty_str (wj_started_at value)
             then now ← m_now; mret (value <| wj_started_at := now |>) else mret value);
    value ← (if js_eqb next JCompleted then io_lift (completed_payload payload value)
             else if js_eqb next JFailed then
               msg ← io_lift (value_ dec_string payload "error" "Worker failed"%string);
               mret ((value <| wj_error := bounded_error msg |>) <| failure_kind := FJob |>)
             else if js_eqb next JCancelled then mret (value <| cancellation_acknowledged := true |>)
             else mret value);
    violation ← budget_violation value;
    let value := if empty_str violation then value else over_budget violation value in
    value ← (if worker_job_terminal (wj_state value) then now ← m_now; mret (value <| wj_completed_at := now |>)
             else mret value);
    _ ← persist value; mret tt.
(** The handle an event reports; [None] when it contradicts the stored one. *)
Definition reported_handle (payload : Json) (value : WorkerJob) : tres (option WorkerJob) :=
  external ← text_of payload "external_job_id";
  TOk (if empty_str external then Some value
       else if negb (bounded_identifier external max_external_id_bytes) then None
       else if empty_str (wj_external_job_id value) then Some (value <| wj_external_job_id := external |>)
       else if String.eqb external (wj_external_job_id value) then Some value else None).
(** The code asks the worker for its metadata between reading the job and applying the event, holding the
    lock; here the call comes first, for the worker of the stored job, which never changes. *)
Definition event_block (e : Event) (job_id source : string) : MIO unit :=
  value ← job job_id;
  if negb (String.eqb (source_id e) source) then mret tt
  else
    handle ← io_lift (reported_handle (ev_payload e) value);
    match handle with
    | None => mret tt
    | Some value =>
        if worker_job_terminal (wj_state value) then mret tt
        else if String.eqb (ev_type e) "worker.job.progress" then progress_event (ev_payload e) value
        else state_event (ev_payload e) (event_state (ev_type e)) value
    end.
Definition receive (e : Event) : MTask unit :=
  task_quiet (
    stopped ← atomic (w ← io_get; mret (mg_stopped w));
    if stopped || negb (starts_with (ev_type e) "worker.job.") || negb (is_object (ev_payload e)) then mret tt
    else
      job_id ← task_lift (text_of (ev_payload e) "job_id");
      if negb (bounded_identifier job_id max_job_id_bytes) then mret tt
      else
        value ← atomic (job job_id);
        metadata ← call (CMetadata (wj_worker_id value));
        atomic (event_block e job_id (event_source_id metadata))).

Definition stop (w : Mgr) : Mgr := w <| mg_stopped := true |>.
End Interactions.
