(* ===== verification/Quiet.v ===== *)
(** * What the operations of the worker manager do to the stored jobs

    [calm]: a change of the state in which no job row appears, no job starts to wait for its first
    handle, and the reservations stay.  Every block of the manager is calm except the creation of a job
    ([born]), the reservation of a dispatch and its end.  [still]: no job row changes at all. *)

From S2P Require Import Prelude Json Types Text Pipeline Access Db Coordination Codec Worker Store Rows Effects Threads Manager Submission Interactions.

(** ** Stored jobs *)

Section Stored.
Context `{L : JsonLib} {HL : JsonLaws L}.

Abbreviation job_row := (kind_row KWorkerJob).
Definition body_job (body : Json) : option WorkerJob :=
  match worker_job_of_json body with TOk v => Some v | TThrow _ => None end.
Definition stored (w : Mgr) (i : string) : option WorkerJob :=
  job_row (mg_db w) i ≫= fun row => body_job (row_body row).
Definition present (w : Mgr) (i : string) : Prop := is_Some (job_row (mg_db w) i).
(** A job that has neither been dispatched nor got a handle. *)
Definition blank (v : WorkerJob) : bool := js_eqb (wj_state v) JCreated && empty_str (wj_external_job_id v).
Definition target_ok (v : WorkerJob) : Prop :=
  cancellation_target_state v = JCancelled \/ cancellation_target_state v = JTimedOut.
Definition jobs_wf (w : Mgr) : Prop := forall i v, stored w i = Some v -> wj_id v = i /\ target_ok v.

Record same_sets (w w' : Mgr) : Prop := {
  ss_async : async_submissions w' = async_submissions w;
  ss_submitted : submitted w' = submitted w;
  ss_deferred : deferred w' = deferred w }.
#[global] Instance same_sets_preorder : PreOrder same_sets.
Proof. split; [done|]. intros a b c [] []. split; congruence. Qed.

Definition still (w w' : Mgr) : Prop :=
  same_sets w w' /\ forall i, job_row (mg_db w') i = job_row (mg_db w) i.
#[global] Instance still_preorder : PreOrder still.
Proof.
  split; [done|]. intros a b c [Hab Ha] [Hbc Hb]. split; [by transitivity b|]. intros i. by rewrite Hb.
Qed.
Lemma still_stored w w' i : still w w' -> stored w' i = stored w i.
Proof. intros [_ Hr]. unfold stored. by rewrite Hr. Qed.
Lemma still_wf w w' : still w w' -> jobs_wf w -> jobs_wf w'.
Proof. intros Hs Hw i v Hv. rewrite (still_stored _ _ _ Hs) in Hv. by apply Hw. Qed.
Lemma still_present w w' i : still w w' -> present w i -> present w' i.
Proof. intros [_ Hr]. unfold present. by rewrite Hr. Qed.

(** What a job may become without notice. *)
Definition tame (w w' : Mgr) (i : string) : Prop :=
  (present w' i <-> present w i) /\
  forall v', stored w' i = Some v' ->
    (waiting_for_handle v' = true -> exists v, stored w i = Some v /\ waiting_for_handle v = true) /\
    (blank v' = true -> exists v, stored w i = Some v /\ blank v = true).
Record calm (w w' : Mgr) : Prop := {
  calm_sets : same_sets w w';
  calm_wf : jobs_wf w -> jobs_wf w';
  calm_tame : jobs_wf w -> forall i, tame w w' i }.
#[global] Instance calm_preorder : PreOrder calm.
Proof.
  split.
  - intros w. split; [reflexivity|done|]. intros _ i. split; [done|]. intros v' Hv. split; intros Hx; exists v'; done.
  - intros a b c [Hs Hw Ht] [Hs' Hw' Ht']. split; [by transitivity b|auto|].
    intros Ha i. destruct (Ht Ha i) as [He Hv]. destruct (Ht' (Hw Ha) i) as [He' Hv'].
    split; [by rewrite He'|]. intros v'' Hst. destruct (Hv' v'' Hst) as [H1 H2]. split; intros Hx.
    + destruct (H1 Hx) as (v' & Hst' & Hx'). by apply (Hv v' Hst').
    + destruct (H2 Hx) as (v' & Hst' & Hx'). by apply (Hv v' Hst').
Qed.
Lemma still_calm w w' : still w w' -> calm w w'.
Proof.
  intros Hs. split; [by destruct Hs|by apply still_wf|]. intros _ i. split.
  - unfold present. by rewrite (proj2 Hs).
  - intros v'. rewrite (still_stored _ _ _ Hs). intros Hv. split; intros Hx; exists v'; done.
Qed.

(** The fields of a job that matter here survive its JSON form. *)
Lemma job_members v : exists l, worker_job_to_json v = JObject l
  /\ assoc "id" l = Some (JString (wj_id v)) /\ assoc "status" l = Some (job_state_to_json (wj_state v))
  /\ assoc "external_job_id" l = Some (JString (wj_external_job_id v))
  /\ assoc "cancellation_target_state" l = Some (job_state_to_json (cancellation_target_state v)).
Proof. destruct v as [? ? ? ? ? ? ? ? ? ? ? ? ? ? ? ? ? ? ? ? ? ? []]; eexists; split_and!; reflexivity. Qed.
Lemma body_job_core v v' : body_job (worker_job_to_json v) = Some v' ->
  wj_id v' = wj_id v /\ wj_state v' = wj_state v /\ wj_external_job_id v' = wj_external_job_id v
  /\ cancellation_target_state v' = cancellation_target_state v.
Proof.
  unfold body_job. destruct (job_members v) as (l & -> & Hi & Hs & He & Hc). set (j := JObject l).
  assert (H1 : at_ dec_string j "id" = TOk (wj_id v)) by (unfold at_, j; cbn [member]; by rewrite Hi, dec_string_of).
  assert (H2 : at_ job_state_of_json j "status" = TOk (wj_state v))
    by (unfold at_, j; cbn [member]; by rewrite Hs, job_state_roundtrip).
  assert (H3 : value_ dec_string j "external_job_id" ""%string = TOk (wj_external_job_id v))
    by (unfold value_, j; cbn [member]; by rewrite He, dec_string_of).
  assert (H4 : value_ job_state_of_json j "cancellation_target_state" JCancelled = TOk (cancellation_target_state v))
    by (unfold value_, j; cbn [member]; by rewrite Hc, job_state_roundtrip).
  clearbody j. unfold worker_job_of_json. rewrite H1, H2, H3, H4. cbn [mbind tres_bind]. intros Hv.
  repeat (match type of Hv with context [(?m ≫= _)] => destruct m as [?|?]; [|discriminate Hv]; cbn [mbind tres_bind] in Hv end).
  by injection Hv as <-.
Qed.

(** A document may be written over the job of the same identifier. *)
Definition may_write (w : Mgr) (v' : WorkerJob) : Prop :=
  present w (wj_id v') /\ target_ok v' /\
  (waiting_for_handle v' = true -> exists v, stored w (wj_id v') = Some v /\ waiting_for_handle v = true) /\
  (blank v' = true -> exists v, stored w (wj_id v') = Some v /\ blank v = true).
Lemma may_write_still w w' v : still w w' -> may_write w v -> may_write w' v.
Proof.
  intros Hs (Hp & Ht & H1 & H2). unfold may_write. rewrite !(still_stored _ _ _ Hs).
  split; [by eapply still_present|]. done.
Qed.
Definition job_written (v : WorkerJob) (i : string) (body : Json) : Prop := i = wj_id v /\ body = worker_job_to_json v.
Lemma written_calm w w' v : same_sets w w' -> row_steps KWorkerJob (job_written v) (mg_db w) (mg_db w') ->
  may_write w v -> calm w w'.
Proof.
  intros Hs Hr (Hp & Ht & H1 & H2).
  assert (Hc : forall i, stored w' i = stored w i \/ i = wj_id v /\ stored w' i = body_job (worker_job_to_json v)).
  { intros i. destruct (Hr i) as [He|(rid & body & seq & He & -> & ->)]; unfold stored; rewrite He; by auto. }
  split; [done| |].
  - intros Hw i x Hx. destruct (Hc i) as [He|[-> He]]; rewrite He in Hx; [by apply Hw|].
    apply body_job_core in Hx as (Hi & _ & _ & Hg). split; [done|]. unfold target_ok. by rewrite Hg.
  - intros _ i. split.
    + destruct (Hr i) as [He|(rid & body & seq & He & -> & ->)]; unfold present; rewrite He.
      * done.
      * split; [intros _; exact Hp|eauto].
    + intros x Hx. destruct (Hc i) as [He|[-> He]]; rewrite He in Hx; [split; intros ?; by exists x|].
      apply body_job_core in Hx as (Hi & Hst & Hext & _). unfold waiting_for_handle, blank in *. rewrite Hst, Hext.
      by split.
Qed.
End Stored.
Abbreviation job_row := (kind_row KWorkerJob).

(** ** Blocks *)

Section Blocks.
Context `{L : JsonLib} {HL : JsonLaws L} {E : ManagerEnv} {config : ManagerConfig}.

Lemma still_call : Always still m_call.
Proof. intros w. by split. Qed.
Lemma still_now : Always still m_now.
Proof. intros w. by split. Qed.
Lemma still_modify f : (forall w, still w (f w)) -> Always still (io_modify f).
Proof. intros Hf w. apply Hf. Qed.
Lemma store_rows {A} B (m : M DB A) : MRows KWorkerJob B m ->
  forall w, same_sets w (m_store m w).1 /\ row_steps KWorkerJob B (mg_db w) (mg_db (m_store m w).1).
Proof.
  intros Hm w. unfold m_store, m_call, mbind, io_bind. cbn -[mg_ok].
  destruct (mg_ok _); [|split; [done|reflexivity]]. simpl. specialize (Hm (mg_db w)).
  destruct (m (mg_db w)) as [db r]. by split.
Qed.
Lemma still_store {A} (m : M DB A) : MRows KWorkerJob (fun _ _ => False) m -> Always still (m_store m).
Proof.
  intros Hm w. destruct (store_rows _ m Hm w) as [Hs Hr]. split; [done|].
  intros i. by destruct (Hr i) as [He|(? & ? & ? & _ & [])].
Qed.
Lemma still_get k i : Always still (m_get k i).
Proof. apply still_store, mrows_get. Qed.
Lemma still_list k run_id limit offset : Always still (m_list k run_id limit offset).
Proof. apply still_store, mrows_list. Qed.
Lemma still_commit rs : Forall (fun rc => rc_kind rc <> KWorkerJob) rs -> Always still (m_commit rs).
Proof.
  intros Hrs. unfold m_commit. apply always_bind; [apply _|apply still_call|]. intros n.
  apply still_store, mrows_commit. intros rc Hin Hk. rewrite Forall_forall in Hrs. by destruct (Hrs _ Hin).
Qed.
Lemma still_forget i : Always still (forget_signal i).
Proof. by apply still_modify. Qed.
End Blocks.

Create HintDb still.
#[export] Hint Resolve still_call still_now still_get still_list still_forget always_ret always_lift always_get : still.
#[export] Hint Extern 2 (PreOrder _) => apply _ : still.
(** An operation built from operations that change no job row. *)
Ltac stays_still :=
  repeat first
    [ solve [eauto 2 with still] | apply always_bind; [apply _| |intros ?] | case_match
    | apply always_iter; [apply _|intros ?] | apply always_catch; [apply _| |intros ?]
    | apply always_when; [apply _|] ].

Section Reads.
Context `{L : JsonLib} {HL : JsonLaws L} {E : ManagerEnv} {config : ManagerConfig}.

Lemma still_job i : Always still (job i).
Proof. unfold job, io_guard. stays_still. Qed.
Lemma still_budget v : Always still (budget_violation v).
Proof. unfold budget_violation. cbv zeta. stays_still. Qed.
Lemma still_owned q worker i : Always still (owned_job q worker i).
Proof. unfold owned_job, io_guard. apply always_bind; [apply _|apply still_job|intros v]. stays_still. Qed.
Lemma still_or_absent {A} (m : MIO A) : Always still m -> Always still (or_absent m).
Proof. intros Hm. unfold or_absent. apply always_catch; [apply _| |intros e]; stays_still. Qed.
Lemma still_capacity worker : Always still (check_capacity worker).
Proof. unfold check_capacity, io_guard. stays_still. Qed.
Lemma still_parent q : Always still (check_parent_job q).
Proof.
  unfold check_parent_job, io_throw, io_guard. case_match; [stays_still|].
  apply always_bind; [apply _| |intros ?; stays_still].
  apply always_catch; [apply _|apply still_job|intros ?; stays_still].
Qed.
Lemma still_dispatching i : Always still (dispatching i).
Proof. unfold dispatching. stays_still. Qed.
Lemma still_outbound q i : Always still (outbound q i).
Proof. unfold outbound. stays_still. Qed.
Lemma still_jobs_where p : Always still (jobs_where p).
Proof. unfold jobs_where. stays_still. Qed.

Lemma m_store_ok {A} (m : M DB A) w w' a : m_store m w = (w', TOk a) ->
  exists db', m (mg_db w) = (db', Ok a) /\ mg_db w' = db'.
Proof.
  unfold m_store, m_call, mbind, io_bind. cbn -[mg_ok]. destruct (mg_ok _); [|done]. simpl.
  destruct (m (mg_db w)) as [db r] eqn:Em. intros [= <- Hr]. apply of_res_ok in Hr as ->. eauto.
Qed.
Lemma job_ok i w w' v : job i w = (w', TOk v) -> stored w i = Some v.
Proof.
  unfold job, io_guard. intros Hj. apply io_bind_ok in Hj as (? & [] & [= <- _] & Hj).
  apply io_bind_ok in Hj as (w1 & j & Hg & [= -> Hv]). apply m_store_ok in Hg as (db & Hg & _).
  apply get_record_ok in Hg as (_ & row & Hrow & ->). unfold stored, kind_row. rewrite Hrow. simpl.
  unfold body_job. by rewrite Hv.
Qed.
Lemma listed_stored run_id w w' l j v : m_list KWorkerJob run_id 10000 0 w = (w', TOk l) -> j ∈ l ->
  worker_job_of_json j = TOk v -> exists i, stored w i = Some v.
Proof.
  intros Hl Hj Hv. apply m_store_ok in Hl as (db & Hl & _).
  destruct (list_records_elem _ _ _ _ _ _ _ _ Hl Hj) as (i & row & Hrow & ->). exists i.
  unfold stored, kind_row. rewrite Hrow. simpl. unfold body_job. by rewrite Hv.
Qed.
Lemma owned_ok q worker i w w' v : owned_job q worker i w = (w', TOk v) -> stored w i = Some v.
Proof. unfold owned_job. intros Ho. apply io_bind_ok in Ho as (w1 & x & Hj & Ho).
  apply io_bind_ok in Ho as (w2 & [] & _ & Ho). apply io_bind_ok in Ho as (w3 & [] & _ & [= _ ->]).
  by eapply job_ok.
Qed.
Lemma stored_present w i v : stored w i = Some v -> present w i.
Proof. unfold stored, present. intros Hs. destruct (job_row (mg_db w) i); [eauto|done]. Qed.
End Reads.
#[export] Hint Resolve still_job still_budget still_owned still_capacity still_parent still_dispatching still_outbound
  still_jobs_where still_or_absent : still.

(** ** Blocks from a known state *)

Section From.
Context `{L : JsonLib} {HL : JsonLaws L} {E : ManagerEnv} {config : ManagerConfig}.

(** [m] is calm when it starts in a well-formed state that satisfies [P]. *)
Definition from (P : Mgr -> Prop) {A} (m : MIO A) : Prop := forall w, jobs_wf w -> P w -> calm w (m w).1.
Lemma from_still P {A} (m : MIO A) : Always still m -> from P m.
Proof. intros Hm w _ _. apply still_calm, Hm. Qed.
Lemma from_weaken (P Q : Mgr -> Prop) {A} (m : MIO A) : (forall w, jobs_wf w -> P w -> Q w) -> from Q m -> from P m.
Proof. intros HPQ Hm w Hw Hp. apply Hm; auto. Qed.
(** The first operation changes no job; what it returns is known of the state. *)
Lemma from_bind P {A B} (Q : A -> Mgr -> Prop) (m : MIO A) (f : A -> MIO B) : Always still m ->
  (forall w w' a, jobs_wf w -> P w -> still w w' -> m w = (w', TOk a) -> Q a w') -> (forall a, from (Q a) (f a)) ->
  from P (m ≫= f).
Proof.
  intros Hm HQ Hf w Hw Hp. unfold mbind, io_bind. pose proof (Hm w) as Hs. destruct (m w) as [w1 [a|x]] eqn:Em.
  - simpl in Hs. transitivity w1; [by apply still_calm|]. apply Hf; [by eapply still_wf|]. by eapply HQ.
  - by apply still_calm.
Qed.
Definition anywhere (w : Mgr) : Prop := True.
Lemma from_any P {A} (m : MIO A) : from anywhere m -> from P m.
Proof. by apply from_weaken. Qed.
Lemma from_then P {A B} (m : MIO A) (f : A -> MIO B) : from P m -> (forall a, from anywhere (f a)) -> from P (m ≫= f).
Proof.
  intros Hm Hf w Hw Hp. unfold mbind, io_bind. specialize (Hm w Hw Hp). destruct (m w) as [w1 [a|x]]; [|done].
  simpl in Hm. etransitivity; [exact Hm|]. apply Hf; [|done]. by apply (calm_wf _ _ Hm).
Qed.
Lemma from_catch P {A} (m : MIO A) h : from P m -> (forall e, from anywhere (h e)) -> from P (io_catch m h).
Proof.
  intros Hm Hh w Hw Hp. unfold io_catch. specialize (Hm w Hw Hp). destruct (m w) as [w1 [a|x]]; [done|].
  simpl in Hm. destruct (error_of x); [|done]. etransitivity; [exact Hm|]. apply Hh; [|done]. by apply (calm_wf _ _ Hm).
Qed.
Lemma from_iter {A} (f : A -> MIO unit) P l : (forall w w', jobs_wf w -> P w -> calm w w' -> P w') ->
  (forall x, x ∈ l -> from P (f x)) -> from P (io_iter f l).
Proof.
  intros HP. induction l as [|x l IH]; intros Hf; [apply from_still, always_ret; apply _|].
  intros w Hw Hp. simpl. unfold mbind, io_bind. pose proof (Hf x ltac:(by left) w Hw Hp) as Hc.
  destruct (f x w) as [w1 [a|e]]; [|done]. simpl in Hc. etransitivity; [exact Hc|].
  apply IH; [|by apply (calm_wf _ _ Hc)|by eapply HP]. intros y Hy. apply Hf. by right.
Qed.

(** What a stored job may be replaced by. *)
Record over (v v' : WorkerJob) : Prop := {
  ov_id : wj_id v' = wj_id v;
  ov_target : target_ok v -> target_ok v';
  ov_waiting : waiting_for_handle v' = true -> waiting_for_handle v = true;
  ov_blank : blank v' = true -> blank v = true }.
#[global] Instance over_preorder : PreOrder over.
Proof. split; [by intros v|]. intros a b c [] []. split; [congruence|auto..]. Qed.
Definition holds (v : WorkerJob) (w : Mgr) : Prop := stored w (wj_id v) = Some v.
(** A job that was read at some time. *)
Definition known (v : WorkerJob) (w : Mgr) : Prop := present w (wj_id v) /\ target_ok v.
Definition stable (P : Mgr -> Prop) : Prop := forall w w', still w w' -> P w -> P w'.
Lemma stable_holds v : stable (holds v).
Proof. intros w w' Hs. unfold holds. by rewrite (still_stored _ _ _ Hs). Qed.
Lemma stable_known v : stable (known v).
Proof. intros w w' Hs [Hp Ht]. split; [by eapply still_present|done]. Qed.
Lemma known_calm v w w' : jobs_wf w -> known v w -> calm w w' -> known v w'.
Proof. intros Hw [Hp Ht] Hc. split; [|done]. by apply (calm_tame _ _ Hc Hw). Qed.
Lemma stored_known w i v : jobs_wf w -> stored w i = Some v -> known v w.
Proof. intros Hw Hs. unfold known. destruct (Hw i v Hs) as [-> Ht]. split; [by eapply stored_present|done]. Qed.
Lemma stored_holds w i v : jobs_wf w -> stored w i = Some v -> holds v w.
Proof. intros Hw Hs. unfold holds. by destruct (Hw i v Hs) as [-> _]. Qed.

Lemma commit_job_calm w v : may_write w v -> calm w (m_commit [job_record v] w).1.
Proof.
  intros Hv. unfold m_commit. unfold mbind, io_bind. pose proof (still_call w) as Hs.
  destruct (m_call w) as [w1 [n|x]] eqn:Hc; [|by apply still_calm]. simpl in Hs. transitivity w1; [by apply still_calm|].
  assert (Hm : MRows KWorkerJob (job_written v) (commit (mg_uuid n) (mg_timestamp n) [job_record v])).
  { apply mrows_commit. intros rc [->|[]%elem_of_nil]%elem_of_cons _. done. }
  destruct (store_rows _ _ Hm w1) as [Hss Hr]. eapply written_calm; [exact Hss|exact Hr|by eapply may_write_still].
Qed.
Lemma trimmed_core v : wj_id (trimmed v) = wj_id v /\ wj_state (trimmed v) = wj_state v
  /\ wj_external_job_id (trimmed v) = wj_external_job_id v
  /\ cancellation_target_state (trimmed v) = cancellation_target_state v.
Proof. unfold trimmed. cbv zeta. by case_match. Qed.
Lemma trimmed_may_write w v : may_write w v -> may_write w (trimmed v).
Proof.
  unfold may_write, target_ok, waiting_for_handle, blank. by destruct (trimmed_core v) as (-> & -> & -> & ->).
Qed.
Lemma persist_calm w v : may_write w v -> calm w (persist v w).1.
Proof.
  intros Hv. unfold persist, mbind, io_bind, io_lift. destruct (check_sizes v); [|by apply still_calm].
  pose proof (commit_job_calm w _ (trimmed_may_write _ _ Hv)) as Hc.
  by destruct (m_commit [job_record (trimmed v)] w) as [w1 [[]|x]].
Qed.
Lemma persist_ok v w w' v' : persist v w = (w', TOk v') -> v' = trimmed v.
Proof.
  unfold persist. intros Hp. apply io_bind_ok in Hp as (w1 & [] & _ & Hp).
  apply io_bind_ok in Hp as (w2 & [] & _ & [= _ <-]). done.
Qed.
Lemma holds_may_write v v' w : jobs_wf w -> over v v' -> holds v w -> may_write w v'.
Proof.
  intros Hw [Hi Ht H1 H2] Hv. unfold may_write. rewrite Hi. split; [by eapply stored_present|].
  split; [by apply Ht, (Hw _ _ Hv)|]. split; intros Hx; exists v; split; auto.
Qed.
Lemma from_over v v' : over v v' -> from (holds v) (persist v').
Proof. intros Ho w Hw Hv. apply persist_calm. by eapply holds_may_write. Qed.
(** A job whose submission is over may be written from an old copy. *)
Definition settled (v : WorkerJob) : Prop := waiting_for_handle v = false /\ blank v = false.
Lemma from_settled v v' : wj_id v' = wj_id v -> cancellation_target_state v' = cancellation_target_state v -> settled v' ->
  from (known v) (persist v').
Proof.
  intros Hi Ht [H1 H2] w Hw [Hp Hg]. apply persist_calm. unfold may_write, target_ok. rewrite Hi, Ht, H1, H2.
  split_and!; done.
Qed.

Lemma from_keep P {A B} (m : MIO A) (f : A -> MIO B) : stable P -> Always still m -> (forall a, from P (f a)) ->
  from P (m ≫= f).
Proof. intros HP Hm Hf. apply (from_bind _ (fun _ => P)); [done| |done]. intros w w' a _ Hp Hs _. by eapply HP. Qed.
Lemma from_lift P {A B} (r : tres A) (f : A -> MIO B) : (forall a, r = TOk a -> from P (f a)) -> from P (io_lift r ≫= f).
Proof.
  intros Hf w Hw Hp. unfold mbind, io_bind, io_lift. destruct r as [a|x]; [by eapply Hf|by apply still_calm].
Qed.
Lemma from_job P {B} i (f : WorkerJob -> MIO B) : (forall v, wj_id v = i -> target_ok v -> from (holds v) (f v)) ->
  from P (job i ≫= f).
Proof.
  intros Hf. apply (from_bind _ (fun v w => wj_id v = i /\ target_ok v /\ holds v w)); [apply still_job| |].
  - intros w w' v Hw _ Hs Hj. apply job_ok in Hj. split; [by apply (Hw _ _ Hj)|].
    split; [by apply (Hw _ _ Hj)|]. eapply stable_holds; [done|]. by eapply stored_holds.
  - intros v w Hw (Hi & Ht & Hv). by apply Hf.
Qed.

(** [attempt_] is a [bind] that keeps the job of the caller. *)
Lemma from_attempt P {A} v (Q : A -> Mgr -> Prop) (m : MIO A) (k : A -> MIO Kept) : Always still m ->
  (forall w w' a, jobs_wf w -> P w -> still w w' -> m w = (w', TOk a) -> Q a w') -> (forall a, from (Q a) (k a)) ->
  from P (attempt_ v m k).
Proof.
  intros Hm HQ Hf w Hw Hp. unfold attempt_. pose proof (Hm w) as Hs. destruct (m w) as [w1 [a|x]] eqn:Em.
  - simpl in Hs. transitivity w1; [by apply still_calm|]. apply Hf; [by eapply still_wf|]. by eapply HQ.
  - by apply still_calm.
Qed.
Lemma from_attempt_lift P {A} v (r : tres A) (k : A -> MIO Kept) : (forall a, r = TOk a -> from P (k a)) ->
  from P (attempt_ v (io_lift r) k).
Proof.
  intros Hf w Hw Hp. unfold attempt_, io_lift. destruct r as [a|x]; [by eapply Hf|by apply still_calm].
Qed.
Lemma from_attempt_keep P {A} v (m : MIO A) (k : A -> MIO Kept) : stable P -> Always still m -> (forall a, from P (k a)) ->
  from P (attempt_ v m k).
Proof. intros HP Hm Hf. apply (from_attempt _ _ (fun _ => P)); [done| |done]. intros w w' a _ Hp Hs _. by eapply HP. Qed.
Lemma from_attempt_job P v0 i (k : WorkerJob -> MIO Kept) : (forall v, wj_id v = i -> target_ok v -> from (holds v) (k v)) ->
  from P (attempt_ v0 (job i) k).
Proof.
  intros Hf. apply (from_attempt _ _ (fun v w => wj_id v = i /\ target_ok v /\ holds v w)); [apply still_job| |].
  - intros w w' v Hw _ Hs Hj. apply job_ok in Hj. split; [by apply (Hw _ _ Hj)|].
    split; [by apply (Hw _ _ Hj)|]. eapply stable_holds; [done|]. by eapply stored_holds.
  - intros v w Hw (Hi & Ht & Hv). by apply Hf.
Qed.
Lemma from_persist_kept v v' : over v v' -> from (holds v) (persist_kept v').
Proof.
  intros Ho. unfold persist_kept. apply from_attempt_lift. intros _ _. intros w Hw Hv. unfold attempt_.
  pose proof (commit_job_calm w (trimmed v') (trimmed_may_write _ _ (holds_may_write _ _ _ Hw Ho Hv))) as Hc.
  by destruct (m_commit [job_record (trimmed v')] w) as [w1 [[]|x]].
Qed.
End From.
