(* ===== verification/Calm.v ===== *)
(** * The blocks of the worker manager

    Every block that does not create a job, reserve a dispatch or end one is calm. *)

From S2P Require Import Prelude Json Types Text Pipeline Access Db Coordination Codec Worker Store Rows Effects Threads Manager Submission Interactions Quiet.

Section Steps.
Context `{L : JsonLib} {HL : JsonLaws L} {E : ManagerEnv} {config : ManagerConfig}.
Lemma from_assoc P {A B C} (m : MIO A) (g : A -> MIO B) (f : B -> MIO C) :
  from P (m ≫= fun a => g a ≫= f) -> from P ((m ≫= g) ≫= f).
Proof.
  intros Hf w Hw Hp. specialize (Hf w Hw Hp). unfold mbind, io_bind in *. by destruct (m w) as [w1 [a|x]].
Qed.
Lemma from_ret P {A B} (a : A) (f : A -> MIO B) : from P (f a) -> from P (mret a ≫= f).
Proof. done. Qed.
Lemma from_attempt_assoc P {A B} v (m : MIO A) (g : A -> MIO B) (k : B -> MIO Kept) :
  from P (attempt_ v m (fun a => attempt_ v (g a) k)) -> from P (attempt_ v (m ≫= g) k).
Proof.
  intros Hf w Hw Hp. specialize (Hf w Hw Hp). unfold mbind, io_bind, attempt_ in *. by destruct (m w) as [w1 [a|x]].
Qed.
(** A change of the fields the invariant does not speak of. *)
Definition core (v : WorkerJob) := (wj_id v, wj_state v, wj_external_job_id v, cancellation_target_state v).
Lemma core_over v v' : core v' = core v -> over v v'.
Proof.
  intros [= H1 H2 H3 H4]. split; unfold target_ok, waiting_for_handle, blank; congruence.
Qed.
(** The job is no longer waiting to be dispatched. *)
Lemma moved_over v v' : wj_id v' = wj_id v -> cancellation_target_state v' = cancellation_target_state v ->
  settled v' -> over v v'.
Proof. intros Hi Ht [H1 H2]. split; [done|unfold target_ok; by rewrite Ht|congruence..]. Qed.
Lemma apply_continuation_core v c v' : apply_continuation v c = TOk v' -> core v' = core v.
Proof. unfold apply_continuation. destruct c as [c|]; [case_match; [|done]|]; by intros [= <-]. Qed.
Lemma settled_state v : js_eqb (wj_state v) JCreated = false -> js_eqb (wj_state v) JSubmitting = false -> settled v.
Proof. intros H1 H2. unfold settled, waiting_for_handle, blank. by rewrite H1, H2. Qed.
Lemma settled_handle v : empty_str (wj_external_job_id v) = false -> settled v.
Proof. intros H1. unfold settled, waiting_for_handle, blank. by rewrite H1, !andb_false_r. Qed.
End Steps.

#[export] Hint Resolve stable_holds stable_known : still.
(** The next operation of a block. *)
Ltac calm_step :=
  cbv zeta; lazymatch goal with
  | |- from _ (job _ ≫= _) => apply from_job; intros ? ? ?
  | |- from _ (io_lift _ ≫= _) => apply from_lift; intros ? ?
  | |- from _ (io_guard _ _ _ ≫= _) => unfold io_guard; apply from_lift; intros ? ?
  | |- from _ (mret _ ≫= _) => apply from_ret
  | |- from _ ((_ ≫= _) ≫= _) => apply from_assoc
  | |- from _ (persist _ ≫= _) => apply from_then; [|intros ?]
  | |- from _ (persist _) => fail
  | |- from _ ((match ?x with _ => _ end) ≫= _) => destruct x eqn:?
  | |- from _ (match ?x with _ => _ end) => destruct x eqn:?
  | |- from _ (io_iter _ _) => fail
  | |- from _ (io_catch _ _) => apply from_catch; [|intros ?]
  | |- from _ (_ ≫= _) => apply from_keep; [solve [eauto 2 with still | by intros ? ? ?]|solve [stays_still]|intros ?]
  | |- from _ (attempt_ _ (job _) _) => apply from_attempt_job; intros ? ? ?
  | |- from _ (attempt_ _ (io_lift _) _) => apply from_attempt_lift; intros ? ?
  | |- from _ (attempt_ _ _ _) => apply from_attempt_keep; [solve [eauto 2 with still]|solve [stays_still]|intros ?]
  | |- from _ _ => solve [apply from_still; stays_still | apply from_still; by apply still_modify]
  end.
Ltac calmly := repeat calm_step.

(** A write that ends the wait of the job, or leaves its state and handle alone. *)
Ltac fields := unfold over_budget; simpl in *; repeat case_match; simpl in *; congruence.
Ltac continued := repeat match goal with H : apply_continuation _ _ = TOk _ |- _ => apply apply_continuation_core in H; injection H as ? ? ? ? end.
Ltac settle := apply settled_state; simpl; repeat case_match; done.
Ltac write :=
  match goal with
  | |- from (known _) (persist _) => apply from_settled; [done|done|settle]
  | |- from (holds _) (persist _) => apply from_over
  | |- from (holds _) (persist_kept _) => apply from_persist_kept
  end.

Section Blocks.
Context `{L : JsonLib} {HL : JsonLaws L} {E : ManagerEnv} {config : ManagerConfig}.

Lemma calm_fence v : from (known v) (fence_stale_submission v).
Proof. unfold fence_stale_submission. calmly. write. Qed.
Lemma settled_target v v' : target_ok v -> wj_state v' = cancellation_target_state v -> settled v'.
Proof. intros [Ht|Ht] Hs; apply settled_state; by rewrite Hs, Ht. Qed.
Lemma calm_finalize i : from anywhere (finalize_pending_cancellation i).
Proof.
  unfold finalize_pending_cancellation. calmly. write. apply moved_over; [done|done|]. by eapply settled_target.
Qed.
Lemma calm_record_handle i s : empty_str (sb_external_job_id s) = false -> from anywhere (record_handle i s).
Proof.
  intros Hs. unfold record_handle. calmly.
  all: write; continued; apply moved_over; [fields|fields|apply settled_handle; fields].
Qed.
Lemma calm_record_cancelled i b : from anywhere (record_cancelled i b).
Proof.
  unfold record_cancelled. calmly.
  all: write; first [by apply moved_over; [..|eapply settled_target]|apply core_over; by case_match].
Qed.
Lemma core_artifacts l v : core (take_artifacts l v) = core v.
Proof. unfold take_artifacts. by case_match. Qed.
Lemma core_error msg v : core (take_error msg v) = core v.
Proof. unfold take_error. by case_match. Qed.
Lemma core_completed now v : core (completed_at_least now v) = core v.
Proof. unfold completed_at_least. by case_match. Qed.
Lemma core_flag (b : bool) k v : core (if b then set_flag k v else v) = core v.
Proof. by destruct b. Qed.
Lemma core_usage u v : core (v <| wj_usage := u |>) = core v.
Proof. done. Qed.
Lemma over_judged violation v : over v (judged violation v).
Proof.
  unfold judged, over_budget. case_match; [apply moved_over; [done|done|settle]|]. apply core_over. by case_match.
Qed.
Lemma calm_retrieve v s : from anywhere (retrieve_result v s).
Proof.
  unfold retrieve_result. calmly. write. apply core_over. rewrite core_usage, core_artifacts, core_error. by case_match.
Qed.
Lemma calm_forget_job v : from anywhere (forget_job v).
Proof. unfold forget_job. calmly. write. apply moved_over; [done|done|settle]. Qed.
Lemma calm_transport_failed v msg : from anywhere (transport_failed v msg).
Proof. unfold transport_failed. calmly. write. apply moved_over; [done|done|settle]. Qed.

(** *** The status of a job that had a handle *)
Definition past (v : WorkerJob) (w : Mgr) : Prop := forall v', stored w (wj_id v) = Some v' -> blank v' = false.
Lemma from_attempt_past v v0 (k : WorkerJob -> MIO Kept) :
  (forall v', wj_id v' = wj_id v -> target_ok v' -> blank v' = false -> from (holds v') (k v')) ->
  from (past v) (attempt_ v0 (job (wj_id v)) k).
Proof.
  intros Hf. apply (from_attempt _ _ (fun v' w => wj_id v' = wj_id v /\ target_ok v' /\ blank v' = false /\ holds v' w)).
  - apply still_job.
  - intros w w' v' Hw Hp Hs Hj. apply job_ok in Hj. destruct (Hw _ _ Hj) as [Hi Ht]. split_and!; [done..|by apply Hp|].
    eapply stable_holds; [done|]. by eapply stored_holds.
  - intros v' w Hw (Hi & Ht & Hb & Hv). by apply Hf.
Qed.
Lemma status_over v st : blank v = false -> valid_worker_job_transition (wj_state v) st = true \/ wj_state v = st ->
  over v (v <| wj_state := st |>).
Proof.
  intros Hb [Hv|<-]; [|by apply core_over; destruct v]. split; [done|done| |].
  - unfold waiting_for_handle, blank in *. simpl. destruct (js_eqb st JSubmitting) eqn:Es; [|done].
    apply bool_decide_eq_true in Es as ->. destruct (wj_state v); try done; simpl in *; by rewrite Hb.
  - unfold blank in *. simpl. destruct (js_eqb st JCreated) eqn:Es; [|done].
    apply bool_decide_eq_true in Es as ->. by destruct (wj_state v).
Qed.
Lemma calm_apply_status v s r : from (past v) (apply_status v s r).
Proof.
  unfold apply_status. apply from_attempt_past. intros v1 Hi Ht Hb. calm_step; [by calmly|]. calm_step; [by calmly|].
  assert (Hst : over v1 (v1 <| wj_state := st_state s |>)).
  { apply status_over; [done|].
    match goal with H : negb _ && negb _ = false |- _ =>
      apply andb_false_iff in H as [H|H]; apply negb_false_iff in H; [by left|right; by apply bool_decide_eq_true in H] end. }
  calmly. write. etransitivity; [|apply core_over, core_flag]. etransitivity; [|apply core_over, core_completed].
  etransitivity; [|apply over_judged]. etransitivity; [exact Hst|]. apply core_over.
  rewrite core_error, core_artifacts, core_usage.
  match goal with H : apply_continuation _ _ = TOk _ |- _ => rewrite (apply_continuation_core _ _ _ H) end.
  by repeat case_match.
Qed.

(** *** Submissions *)
Lemma calm_lost i : from anywhere (value ← job i; if waiting_for_handle value then persist (lost_submission value) else mret value).
Proof. calmly. write. by apply moved_over. Qed.
Lemma calm_fail_job v kind st msg : settled (v <| wj_state := st |>) -> from (holds v) (fail_job kind st msg v).
Proof. intros Hs. unfold fail_job. calmly. write. apply moved_over; [done..|]. exact Hs. Qed.
Lemma calm_failed i kind st msg : st = JFailed \/ st = JTimedOut ->
  from anywhere (value ← job i; fail_job kind st msg value).
Proof. intros Hst. calm_step. apply calm_fail_job. apply settled_state; by destruct Hst as [->| ->]. Qed.
Lemma calm_transport_error i t msg : from anywhere (
  value ← job i;
  if wj_cancellation_requested value then mret value
  else fail_job FTransport (if t : bool then JTimedOut else JFailed) (bounded_error msg) value).
Proof.
  calm_step. calm_step; [by calmly|]. apply calm_fail_job. apply settled_state; by destruct t.
Qed.
Lemma calm_unrecoverable i msg : from anywhere (
  value ← job i; persist ((value <| wj_state := JUnknown |>) <| wj_error := msg |>)).
Proof. calmly. write. by apply moved_over. Qed.
Lemma calm_existing_async q worker i : from anywhere (existing_async q worker i).
Proof.
  unfold existing_async. apply (from_bind _ holds); [apply still_owned| |intros v].
  - intros w w' v Hw _ Hs Ho. apply owned_ok in Ho. eapply stable_holds; [done|]. by eapply stored_holds.
  - calmly. write. by apply moved_over.
Qed.
Lemma calm_not_scheduled i : from anywhere (not_scheduled i).
Proof.
  unfold not_scheduled. calmly. write. apply moved_over; [by case_match|by case_match|].
  case_match; [by eapply settled_target|apply settled_state; done].
Qed.

(** *** Listings *)
(** The jobs of a listing. *)
Definition listing (l : list Json) (w : Mgr) : Prop :=
  forall j v, j ∈ l -> worker_job_of_json j = TOk v -> known v w.
Lemma listing_calm l w w' : jobs_wf w -> listing l w -> calm w w' -> listing l w'.
Proof. intros Hw Hl Hc j v Hj Hv. eapply known_calm; [done| |done]. by eapply Hl. Qed.
Lemma from_listing {B} P run_id (f : list Json -> MIO B) : (forall l, from (listing l) (f l)) ->
  from P (m_list KWorkerJob run_id 10000 0 ≫= f).
Proof.
  intros Hf. apply (from_bind _ listing); [apply still_list| |done].
  intros w w' l Hw _ Hs Hl j v Hj Hv. destruct (listed_stored _ _ _ _ _ _ Hl Hj Hv) as [i Hi].
  eapply stable_known; [done|]. by eapply stored_known.
Qed.
Lemma from_each l (f : Json -> MIO unit) :
  (forall j v, worker_job_of_json j = TOk v -> from (known v) (f j)) ->
  (forall j x, worker_job_of_json j = TThrow x -> from anywhere (f j)) -> from (listing l) (io_iter f l).
Proof.
  intros Hf Hx.
  assert (H : forall l', l' ⊆ l -> from (listing l) (io_iter f l')).
  { intros l' Hl'. apply from_iter; [apply listing_calm|]. intros j Hj. destruct (worker_job_of_json j) as [v|x] eqn:E1.
    - apply (from_weaken _ (known v)); [|by apply Hf]. intros w _ Hl. eapply Hl; [by apply Hl'|done].
    - by eapply from_any, Hx. }
  by apply H.
Qed.
Lemma calm_fences : from anywhere fence_stale_submissions.
Proof.
  unfold fence_stale_submissions. apply from_listing. intros l. apply from_each; intros j v Hj; rewrite Hj.
  - apply from_lift. intros a [= <-]. apply from_then; [apply calm_fence|intros ?; by calmly].
  - apply from_lift. by intros a [=].
Qed.
Lemma calm_retire j v : worker_job_of_json j = TOk v -> from (known v) (retire_superseded_job j).
Proof.
  intros Hj. unfold retire_superseded_job. rewrite Hj. apply from_lift. intros a [= <-]. calmly. write.
Qed.
Lemma calm_retires : from anywhere retire_superseded_jobs.
Proof.
  unfold retire_superseded_jobs. apply from_listing. intros l. apply from_each; [apply calm_retire|].
  intros j x Hj. unfold retire_superseded_job. rewrite Hj. apply from_lift. by intros a [=].
Qed.

(** *** Cancellation *)
Lemma calm_request_cancel i st reason : st = JCancelled \/ st = JTimedOut -> from anywhere (request_cancel i st reason).
Proof.
  intros Hst. unfold request_cancel. calm_step. calm_step; [by calmly|]. cbv zeta.
  apply from_keep; [apply stable_holds|by apply still_modify; intros w; case_match|]. intros []. calmly. write.
  by split; unfold target_ok.
Qed.
Lemma still_interaction v : Always still (m_commit [interaction_record v]).
Proof. apply still_commit. by repeat constructor. Qed.
Lemma still_commit_interaction v : Always still (commit_interaction v).
Proof. apply still_interaction. Qed.
Hint Resolve still_interaction still_commit_interaction : still.
Lemma still_cancel_interactions i reason : Always still (cancel_interactions i reason).
Proof.
  unfold cancel_interactions, cancel_interaction. cbv zeta. stays_still.
Qed.
Hint Resolve still_cancel_interactions : still.
Lemma calm_apply_cancel i st reason b failure : from anywhere (apply_cancel i st reason b failure).
Proof.
  unfold apply_cancel. calm_step. calm_step; [by calmly|]. do 2 calm_step. calmly. write.
  destruct b; [|by apply core_over]. apply moved_over; [done..|]. apply settled_state; simpl; by case_match.
Qed.

(** *** Events *)
Lemma usage_core payload v v' : usage_member payload v = TOk v' -> core v' = core v.
Proof.
  unfold usage_member. case_match; [|by intros [= <-]]. intros Hu.
  apply tres_bind_ok in Hu as (u & _ & Hu). by apply tres_bind_ok in Hu as (u' & _ & [= <-]).
Qed.
Lemma continuation_core payload v v' : continuation_member payload v = TOk v' -> core v' = core v.
Proof.
  unfold continuation_member. case_match; [|by intros [= <-]]. case_match; [by intros [= <-]|]. intros Hu.
  do 4 apply tres_bind_ok in Hu as (? & _ & Hu). by eapply apply_continuation_core.
Qed.
Lemma payload_core payload v v' : completed_payload payload v = TOk v' -> core v' = core v.
Proof.
  unfold completed_payload. intros Hu. do 3 apply tres_bind_ok in Hu as (? & _ & Hu).
  apply tres_bind_ok in Hu as (v1 & H1 & Hu). apply tres_bind_ok in Hu as (? & _ & Hu).
  apply usage_core in Hu as ->. by apply continuation_core in H1.
Qed.
Lemma over_handle payload v v' : reported_handle payload v = TOk (Some v') -> over v v'.
Proof.
  unfold reported_handle. intros Hr. apply tres_bind_ok in Hr as (x & _ & [= Hr]).
  destruct (empty_str x) eqn:Hx; [by injection Hr as <-|]. case_match; [done|]. case_match; [|case_match; [by injection Hr as <-|done]].
  injection Hr as <-. apply moved_over; [done..|]. by apply settled_handle.
Qed.
Lemma calm_progress payload v v' : over v v' -> from (holds v) (progress_event payload v').
Proof.
  intros Ho. unfold progress_event. calmly. all: write; etransitivity; [exact Ho|].
  all: match goal with H : usage_member _ _ = TOk _ |- _ => apply usage_core in H end.
  all: try by apply core_over.
  all: match goal with H : core ?a = _ |- over _ (over_budget ?m ?a <| wj_completed_at := _ |>) =>
         injection H as ? ? ? ?; apply moved_over; [fields|fields|apply settled_state; done] end.
Qed.
Lemma calm_state_event payload next v v' : js_eqb next JCreated = false -> js_eqb next JSubmitting = false ->
  over v v' -> from (holds v) (state_event payload next v').
Proof.
  intros H1 H2 Ho. unfold state_event. calmly. all: write; etransitivity; [exact Ho|].
  all: repeat match goal with H : completed_payload _ _ = TOk _ |- _ => apply payload_core in H; injection H as ? ? ? ? end.
  all: apply moved_over; [fields|fields|apply settled_state; unfold over_budget; simpl in *; repeat case_match; simpl in *].
  all: first [congruence | done | match goal with H : wj_state _ = _ |- _ => by rewrite H end].
Qed.
Lemma calm_event e i source : from anywhere (event_block e i source).
Proof.
  unfold event_block. calm_step. calm_step; [by calmly|]. apply from_lift. intros [v'|] Hv'; [|by calmly].
  apply over_handle in Hv'. calm_step; [by calmly|]. case_match; [by apply calm_progress|].
  unfold event_state. repeat case_match; apply calm_state_event; done.
Qed.

(** *** Interactions *)
Lemma still_known_interaction q : Always still (known_interaction q).
Proof. unfold known_interaction, transport_error. stays_still. Qed.
Lemma still_create_interaction q : Always still (create_interaction q).
Proof. unfold create_interaction, run_of_job. cbv zeta. stays_still. Qed.
Lemma still_expire v : Always still (expire v).
Proof. unfold expire. cbv zeta. stays_still. Qed.
Hint Resolve still_known_interaction still_create_interaction still_expire : still.
Lemma still_open q : Always still (open_interaction q).
Proof.
  unfold open_interaction. apply always_bind; [apply _|by apply still_or_absent, still_known_interaction|]. intros k.
  stays_still.
Qed.
Lemma still_close q : Always still (close_interaction q).
Proof. unfold close_interaction. stays_still. Qed.
Lemma still_resolve i st payload actor reason : Always still (resolve_interaction i st payload actor reason).
Proof. unfold resolve_interaction, io_guard. cbv zeta. stays_still. Qed.
End Blocks.

Create HintDb calm.
#[export] Hint Resolve calm_finalize calm_record_handle calm_record_cancelled calm_retrieve calm_forget_job
  calm_transport_failed calm_lost calm_failed calm_transport_error calm_unrecoverable calm_existing_async
  calm_not_scheduled calm_fences calm_retires calm_request_cancel calm_apply_cancel calm_event : calm.
#[export] Hint Resolve still_known_interaction still_create_interaction still_expire still_open still_close still_resolve
  still_cancel_interactions still_interaction still_commit_interaction : still.
