(* ===== verification/Tickets.v ===== *)
(** * The rights and the knowledge of the threads of the worker manager

    A thread owns the reservation of a dispatch ([Thr], and [Run] once it has looked at the job) and the
    right to hand a job to a transport for the first time ([Sub]); it knows that a job may still be
    reserved ([Seen]) and that a job it has read had a handle ([Past]).  [Inv] ties these tickets to the
    state: whatever waits for its first handle can be handed over by its holder only. *)

From S2P Require Import Prelude Json Types Text Pipeline Access Db Coordination Codec Worker Store Rows Effects Threads Manager Submission Interactions Quiet Calm.

Inductive Ticket := Thr (i : string) | Run (i : string) | Sub (i : string) | Seen (i : string) | Past (v : WorkerJob).
Definition is_sub (i : string) (k : Ticket) : bool := match k with Sub j => String.eqb j i | _ => false end.
Definition is_dispatch (i : string) (k : Ticket) : bool :=
  match k with Thr j | Run j => String.eqb j i | _ => false end.
Definition about (k : Ticket) : string :=
  match k with Thr i | Run i | Sub i | Seen i => i | Past v => wj_id v end.

Section Tickets.
Context `{L : JsonLib} {HL : JsonLaws L}.

Definition fresh (w : Mgr) (i : string) : Prop := still_waiting (mg_db w) i = true.
Lemma fresh_iff w i : fresh w i <-> exists v, stored w i = Some v /\ waiting_for_handle v = true.
Proof.
  unfold fresh, still_waiting, stored, kind_row. destruct (tables (mg_db w) !! (KWorkerJob, i)) as [row|]; simpl; [|naive_solver].
  unfold body_job. destruct (worker_job_of_json (row_body row)); naive_solver.
Qed.
Lemma fresh_present w i : fresh w i -> present w i.
Proof. intros (v & Hv & _)%fresh_iff. by eapply stored_present. Qed.
Lemma calm_fresh w w' i : jobs_wf w -> calm w w' -> fresh w' i -> fresh w i.
Proof.
  rewrite !fresh_iff. intros Hw Hc (v & Hv & Hx). destruct (calm_tame _ _ Hc Hw i) as [_ Ht].
  by apply (Ht v Hv).
Qed.

(** Hand-overs made and still allowed. *)
Definition handed (w : Mgr) (T : list Ticket) (i : string) : nat :=
  count (is_sub i) T + occurrences i (submitted w).
Definition given_up (w : Mgr) (i : string) : nat := occurrences i (deferred w).

(** [B]: the jobs no dispatch thread may hand over. *)
Record inv_at (B : string -> Prop) (w : Mgr) (T : list Ticket) (i : string) : Prop := {
  ia_once : (handed w T i <= 1 + given_up w i)%nat;
  ia_dispatch : (count (is_dispatch i) T <= 1)%nat;
  ia_async : (0 < count (is_dispatch i) T)%nat -> i ∈ async_submissions w;
  ia_thread : fresh w i -> Thr i ∈ T -> (handed w T i <= given_up w i)%nat;
  ia_absent : ~ present w i ->
    (forall k, k ∈ T -> about k <> i) /\ (i ∉ submitted w) /\ ~ B i /\ i ∉ async_submissions w;
  ia_free : fresh w i -> i ∉ async_submissions w -> ~ B i -> (handed w T i <= given_up w i)%nat;
  ia_barred : B i -> fresh w i -> i ∉ async_submissions w;
  ia_seen : Seen i ∈ T -> fresh w i -> ~ B i;
  ia_past : forall v, Past v ∈ T -> wj_id v = i -> empty_str (wj_external_job_id v) = false -> past v w }.
Definition Inv (w : Mgr) (T : list Ticket) : Prop :=
  jobs_wf w /\ exists B, forall i, inv_at B w T i.

Lemma handed_sub w T T' i : T' ⊆+ T -> (handed w T' i <= handed w T i)%nat.
Proof. intros Hs. unfold handed. apply (count_sub (is_sub i)) in Hs. lia. Qed.
Lemma inv_sub w T T' : T' ⊆+ T -> Inv w T -> Inv w T'.
Proof.
  intros Hs [Hw [B Hi]]. split; [done|]. exists B. intros i. destruct (Hi i) as [H1 H2 H3 H4 H5 H6 H7 H8 H9].
  pose proof (handed_sub w _ _ i Hs). pose proof (count_sub (is_dispatch i) _ _ Hs).
  assert (Hin : forall k, k ∈ T' -> k ∈ T) by (intros k Hk; by eapply elem_of_submseteq).
  split; [lia|lia|intros; apply H3; lia| | | |done|auto|eauto].
  - intros Hf Ht. specialize (H4 Hf (Hin _ Ht)). lia.
  - intros Hp. destruct (H5 Hp) as [? ?]. split; [|done]. intros k Hk. auto.
  - intros Hf Ha Hb. specialize (H6 Hf Ha Hb). lia.
Qed.
Lemma inv_perm w T T' : T ≡ₚ T' -> Inv w T -> Inv w T'.
Proof. intros Hp. apply inv_sub. by rewrite Hp. Qed.
Lemma inv_drop w T T' : Inv w (T ++ T') -> Inv w T'.
Proof. apply inv_sub. by apply submseteq_inserts_l. Qed.

Lemma inv_calm w w' T : calm w w' -> Inv w T -> Inv w' T.
Proof.
  intros Hc [Hw [B Hi]]. split; [by apply (calm_wf _ _ Hc)|]. exists B. intros i.
  destruct (Hi i) as [H1 H2 H3 H4 H5 H6 H7 H8 H9]. destruct (calm_sets _ _ Hc) as [Ha Hsub Hd].
  destruct (calm_tame _ _ Hc Hw i) as [Hp Ht]. assert (Hf : fresh w' i -> fresh w i) by (by apply calm_fresh).
  unfold handed, given_up in *. split; unfold handed, given_up; rewrite ?Ha, ?Hsub, ?Hd; auto.
  - intros Hn. apply H5. by rewrite <- Hp.
  - intros v Hv Hid He. specialize (H9 v Hv Hid He). intros v' Hv'. destruct (blank v') eqn:Hb; [|done].
    rewrite Hid in Hv'. destruct (Ht v' Hv') as [_ Hbl]. destruct (Hbl Hb) as (v0 & Hv0 & Hb0).
    rewrite <- Hid in Hv0. by rewrite (H9 v0 Hv0) in Hb0.
Qed.

(** Knowledge. *)
Lemma inv_seen w T i : present w i -> (fresh w i -> i ∈ async_submissions w) -> Inv w T -> Inv w (Seen i :: T).
Proof.
  intros Hp Hf [Hw [B Hi]]. split; [done|]. exists B. intros j. destruct (Hi j) as [H1 H2 H3 H4 H5 H6 H7 H8 H9].
  unfold handed in *. split; unfold handed; rewrite ?count_cons; simpl; auto.
  - intros Hfr Ht. apply H4; [done|]. by apply elem_of_cons in Ht as [[=]|?].
  - intros Hn. destruct (H5 Hn) as [Hk ?]. split; [|done]. intros k [->|?]%elem_of_cons; [|auto]. intros Hs. simpl in Hs. by subst.
  - intros [[= ->]|Hs]%elem_of_cons Hfr; [|auto]. intros Hb. by apply (H7 Hb Hfr), Hf.
  - intros v [[=]|Hv]%elem_of_cons; eauto.
Qed.
Lemma inv_past w T v : present w (wj_id v) -> (empty_str (wj_external_job_id v) = false -> past v w) -> Inv w T ->
  Inv w (Past v :: T).
Proof.
  intros Hp Hf [Hw [B Hi]]. split; [done|]. exists B. intros j. destruct (Hi j) as [H1 H2 H3 H4 H5 H6 H7 H8 H9].
  unfold handed in *. split; unfold handed; rewrite ?count_cons; simpl; auto.
  - intros Hfr Ht. apply H4; [done|]. by apply elem_of_cons in Ht as [[=]|?].
  - intros Hn. destruct (H5 Hn) as [Hk ?]. split; [|done]. intros k [->|?]%elem_of_cons; [|auto]. intros Hs. simpl in Hs. by subst.
  - intros [[=]|Hs]%elem_of_cons Hfr. auto.
  - intros v' [[= ->]|Hv]%elem_of_cons; eauto.
Qed.

(** ** The steps that move tickets *)

Lemma present_dec w i : present w i \/ ~ present w i.
Proof. unfold present. destruct (job_row (mg_db w) i); [left; eauto|right; by intros [? [=]]]. Qed.
Lemma inv_at_present B w T i k : inv_at B w T i -> k ∈ T -> about k = i -> present w i.
Proof. intros Hi Hk Ha. destruct (present_dec w i) as [|Hn]; [done|]. by destruct (ia_absent _ _ _ _ Hi Hn) as [Hx _]; destruct (Hx k Hk). Qed.
Lemma count_about f T i : (forall k, f k = true -> about k = i) -> (forall k, k ∈ T -> about k <> i) -> count f T = 0%nat.
Proof.
  intros Hf Hn. destruct (count f T) eqn:E; [done|]. assert (Hp : (0 < count f T)%nat) by lia.
  apply count_pos in Hp as (k & Hk & Hfk). by destruct (Hn k Hk), (Hf k Hfk).
Qed.
Lemma is_sub_about i k : is_sub i k = true -> about k = i.
Proof. destruct k; try done. simpl. apply String.eqb_eq. Qed.
Lemma is_dispatch_about i k : is_dispatch i k = true -> about k = i.
Proof. destruct k; try done; simpl; apply String.eqb_eq. Qed.
Lemma about_ne i k : about k <> i -> is_sub i k = false /\ is_dispatch i k = false.
Proof.
  intros Hk. split; apply not_true_is_false; intros Hx; apply Hk; [by apply is_sub_about|by apply is_dispatch_about].
Qed.
(** A change that concerns one job leaves the invariant of the others. *)
Lemma inv_elsewhere B B' w w' T T' i j : i <> j -> inv_at B w T j ->
  (forall k, about k = j -> (k ∈ T' <-> k ∈ T)) -> (count (is_sub j) T' = count (is_sub j) T) ->
  (count (is_dispatch j) T' = count (is_dispatch j) T) -> (B' j <-> B j) ->
  job_row (mg_db w') j = job_row (mg_db w) j -> (j ∈ async_submissions w' <-> j ∈ async_submissions w) ->
  occurrences j (submitted w') = occurrences j (submitted w) -> (j ∈ submitted w' <-> j ∈ submitted w) ->
  occurrences j (deferred w') = occurrences j (deferred w) -> inv_at B' w' T' j.
Proof.
  intros Hij [H1 H2 H3 H4 H5 H6 H7 H8 H9] Hk Hs Hd HB Hr Ha Ho Ho' Hg.
  assert (Hst : stored w' j = stored w j) by (unfold stored; by rewrite Hr).
  assert (Hf : fresh w' j <-> fresh w j) by (by rewrite !fresh_iff, Hst).
  unfold handed, given_up in *. split; unfold handed, given_up; rewrite ?Hs, ?Ho, ?Hg, ?Hd, ?Hf, ?Ha, ?HB; auto.
  - rewrite (Hk (Thr j) eq_refl). auto.
  - unfold present in *. rewrite Hr. intros Hn. destruct (H5 Hn) as (Hx & ? & ? & ?). rewrite Ho'. split; [|done].
    intros k Hin He. apply (Hx k); [|done]. by apply Hk.
  - rewrite (Hk (Seen j) eq_refl). auto.
  - intros v Hv He. rewrite (Hk (Past v) He) in Hv. intros Hx v' Hv'. rewrite He, Hst in Hv'.
    apply (H9 v Hv He Hx). by rewrite He.
Qed.
End Tickets.

(** The invariant of the other jobs, and the tickets of the job at hand. *)
Ltac tickets_of_other := intros ? Habout; rewrite ?elem_of_cons; split; intros Hin; repeat destruct Hin as [->|Hin];
  simpl in *; first [congruence | by auto].
Ltac counts := unfold handed, given_up in *; simpl in *; rewrite ?count_cons, ?occurrences_cons in *; simpl in *;
  rewrite ?String.eqb_refl in *; simpl in *; repeat match goal with H : ?i <> ?j |- _ =>
    match goal with |- context [String.eqb i j] => rewrite (proj2 (String.eqb_neq i j) H) end end.
Ltac elsewhere Hij Hj := eapply (inv_elsewhere _ _ _ _ _ _ _ _ Hij Hj); [tickets_of_other| | | | | | | |]; counts; try done.

Section Steps.
Context `{L : JsonLib} {HL : JsonLaws L}.

(** The dispatch thread finds its job waiting: the reservation becomes the right to hand it over. *)
Lemma inv_take_over w T i : fresh w i -> Inv w (Thr i :: T) -> Inv w (Run i :: Sub i :: T).
Proof.
  intros Hf [Hw [B Hi]]. split; [done|]. exists B. intros j. pose proof (Hi j) as Hj.
  destruct (decide (i = j)) as [<-|Hij]; [|elsewhere Hij Hj].
  destruct Hj as [H1 H2 H3 H4 H5 H6 H7 H8 H9]. specialize (H4 Hf ltac:(by left)). pose proof (fresh_present _ _ Hf) as Hp.
  split; counts; try done.
  - lia.
  - intros _ Ht. exfalso. assert (Hc : (0 < count (is_dispatch i) T)%nat); [|lia]. apply count_pos. exists (Thr i).
    split; [|simpl; apply String.eqb_refl]. by repeat (apply elem_of_cons in Ht as [[=]|Ht]).
  - intros _ Ha. destruct Ha. apply H3. lia.
  - intros Hs. apply H8. right. by repeat (apply elem_of_cons in Hs as [[=]|Hs]).
  - intros v Hv. apply H9. right. by repeat (apply elem_of_cons in Hv as [[=]|Hv]).
Qed.
(** A job is handed over. *)
Lemma inv_hand w T i : Inv w (Sub i :: T) -> Inv (w <| submitted := i :: submitted w |>) T.
Proof.
  intros [Hw [B Hi]]. split; [done|]. exists B. intros j. pose proof (Hi j) as Hj.
  destruct (decide (i = j)) as [<-|Hij].
  - pose proof (inv_at_present _ _ _ _ (Sub i) Hj ltac:(by left) eq_refl) as Hp.
    destruct Hj as [H1 H2 H3 H4 H5 H6 H7 H8 H9]. split; counts; try done.
    + lia.
    + intros Hf Ht. specialize (H4 Hf ltac:(by right)). lia.
    + intros Hf Ha Hb. specialize (H6 Hf Ha Hb). lia.
    + intros Hs. apply H8. by right.
    + intros v Hv. apply H9. by right.
  - elsewhere Hij Hj. rewrite elem_of_cons. split; [intros [->|?]; done|by right].
Qed.
(** The holder of the dispatch of a job is the only one. *)
Lemma no_thread w B T i k : inv_at B w (k :: T) i -> is_dispatch i k = true -> count (is_dispatch i) T = 0%nat /\ Thr i ∉ T.
Proof.
  intros Hj Hk. pose proof (ia_dispatch _ _ _ _ Hj) as H2. rewrite count_cons, Hk in H2. split; [lia|].
  intros Ht. assert (Hc : (0 < count (is_dispatch i) T)%nat); [|lia]. apply count_pos. exists (Thr i).
  split; [done|simpl; apply String.eqb_refl].
Qed.
Lemma async_clear w i j : i <> j -> j ∈ async_submissions w ∖ {[i]} <-> j ∈ async_submissions w.
Proof. set_solver. Qed.
(** The reservation is given back without a dispatch. *)
Lemma inv_release w T i : Inv w (Thr i :: T) -> Inv (clear_async i w) T.
Proof.
  intros [Hw [B Hi]]. split; [done|]. exists B. intros j. pose proof (Hi j) as Hj.
  destruct (decide (i = j)) as [<-|Hij].
  - pose proof (inv_at_present _ _ _ _ (Thr i) Hj ltac:(by left) eq_refl) as Hp.
    destruct (no_thread _ _ _ _ _ Hj (String.eqb_refl i)) as [Hd Hn].
    destruct Hj as [H1 H2 H3 H4 H5 H6 H7 H8 H9]. split; counts; try done.
    + lia.
    + lia.
    + intros Hf _ _. by apply H4; [|left].
    + set_solver.
    + intros Hs. apply H8. by right.
    + intros v Hv. apply H9. by right.
  - elsewhere Hij Hj. by apply async_clear.
Qed.
(** A dispatch thread ends. *)
Lemma inv_end_dispatch w T i k : k = Thr i \/ k = Run i -> Inv w (k :: T) -> Inv (end_dispatch i w) T.
Proof.
  intros Hk [Hw [B Hi]].
  assert (Hdis : is_dispatch i k = true) by (destruct Hk as [->| ->]; apply String.eqb_refl).
  assert (Hab : about k = i) by (by destruct Hk as [->| ->]).
  assert (Hsub : is_sub i k = false) by (by destruct Hk as [->| ->]).
  unfold end_dispatch. change (mg_db (clear_async i w)) with (mg_db w). cbv zeta.
  set (w1 := if still_waiting (mg_db w) i then _ else _).
  assert (Hdb : mg_db w1 = mg_db w) by (unfold w1; by case_match).
  assert (Hrow : forall j, job_row (mg_db w1) j = job_row (mg_db w) j) by (intros j; by rewrite Hdb).
  assert (Hs : submitted w1 = submitted w) by (unfold w1; by case_match).
  assert (Ha : async_submissions w1 = async_submissions w ∖ {[i]}) by (unfold w1; by case_match).
  assert (Hdef : forall j, (occurrences j (deferred w) <= occurrences j (deferred w1))%nat).
  { intros j. unfold w1. case_match; simpl; rewrite ?occurrences_cons; lia. }
  assert (Hdef' : forall j, i <> j -> occurrences j (deferred w1) = occurrences j (deferred w)).
  { intros j Hij. unfold w1. case_match; simpl; rewrite ?occurrences_cons, ?(proj2 (String.eqb_neq i j) Hij); lia. }
  assert (Hfr : fresh w1 i -> (1 + occurrences i (deferred w) <= occurrences i (deferred w1))%nat).
  { unfold fresh. rewrite Hdb. unfold w1. intros ->. simpl. rewrite occurrences_cons, String.eqb_refl. lia. }
  clearbody w1. split.
  { intros j v. unfold stored. rewrite Hrow. apply Hw. }
  exists B. intros j. pose proof (Hi j) as Hj. destruct (decide (i = j)) as [<-|Hij].
  - pose proof (inv_at_present _ _ _ _ k Hj ltac:(by left) Hab) as Hp.
    destruct (no_thread _ _ _ _ _ Hj Hdis) as [Hd Hn]. specialize (Hdef i).
    destruct Hj as [H1 H2 H3 H4 H5 H6 H7 H8 H9].
    assert (Hst : stored w1 i = stored w i) by (unfold stored; by rewrite Hrow).
    assert (Hff : fresh w1 i <-> fresh w i) by (by rewrite !fresh_iff, Hst).
    unfold handed, given_up in *. rewrite count_cons, Hsub in *.
    split; unfold handed, given_up; rewrite ?Hs, ?Ha, ?Hd; simpl in *; try done.
    + lia.
    + lia.
    + lia.
    + intros Hnp. destruct Hnp. unfold present. by rewrite Hrow.
    + intros Hf _ _. specialize (Hfr Hf). lia.
    + set_solver.
    + rewrite Hff. intros Hx. apply H8. by right.
    + intros v Hv Hid He v' Hv'. rewrite Hid, Hst in Hv'. apply (H9 v ltac:(by right) Hid He). by rewrite Hid.
  - eapply (inv_elsewhere _ _ _ _ _ _ _ _ Hij Hj); rewrite ?Hs, ?Ha, ?Hdef'; try done.
    + intros k' Hk'. rewrite elem_of_cons. split; [by right|]. intros [->|?]; [congruence|done].
    + rewrite count_cons. destruct (about_ne j k) as [-> _]; [congruence|done].
    + rewrite count_cons. destruct (about_ne j k) as [_ ->]; [congruence|done].
    + by apply async_clear.
Qed.
(** The dispatch of a job that was seen reserved is reserved again. *)
Lemma inv_reserve w T i : i ∉ async_submissions w -> Inv w (Seen i :: T) -> Inv (set_async i w) (Thr i :: T).
Proof.
  intros Hna [Hw [B Hi]]. split; [done|]. exists B. intros j. pose proof (Hi j) as Hj.
  destruct (decide (i = j)) as [<-|Hij].
  - pose proof (inv_at_present _ _ _ _ (Seen i) Hj ltac:(by left) eq_refl) as Hp.
    destruct Hj as [H1 H2 H3 H4 H5 H6 H7 H8 H9].
    assert (Hd : count (is_dispatch i) T = 0%nat).
    { destruct (count (is_dispatch i) T) eqn:Ec; [done|]. destruct Hna. apply H3. rewrite count_cons. simpl. lia. }
    specialize (H8 ltac:(by left)). split; counts; try done.
    + lia.
    + set_solver.
    + intros Hf _. by apply H6, H8.
    + intros Hf Ha. set_solver.
    + intros Hb Hf. by destruct (H8 Hf).
    + intros v Hv. apply H9. right. by apply elem_of_cons in Hv as [[=]|Hv].
  - elsewhere Hij Hj. set_solver.
Qed.

(** ** A job appears *)

Record born (i : string) (w w' : Mgr) : Prop := {
  bn_absent : ~ present w i;
  bn_present : present w' i;
  bn_sets : same_sets w w';
  bn_rows : forall j, i <> j -> job_row (mg_db w') j = job_row (mg_db w) j;
  bn_wf : forall v, stored w' i = Some v -> wj_id v = i /\ target_ok v }.
Lemma born_wf i w w' : born i w w' -> jobs_wf w -> jobs_wf w'.
Proof.
  intros Hb Hw j v. destruct (decide (i = j)) as [<-|Hij]; [apply (bn_wf _ _ _ Hb)|].
  unfold stored. rewrite (bn_rows _ _ _ Hb j Hij). apply Hw.
Qed.
Lemma absent_counts B w T i : inv_at B w T i -> ~ present w i ->
  handed w T i = 0%nat /\ count (is_dispatch i) T = 0%nat.
Proof.
  intros Hj Hn. destruct (ia_absent _ _ _ _ Hj Hn) as (Hk & Ho & _ & _). unfold handed.
  rewrite (count_about _ T i (is_sub_about i) Hk), (occurrences_none _ _ Ho), (count_about _ T i (is_dispatch_about i) Hk). done.
Qed.

Lemma still_born i w w1 w2 : still w w1 -> born i w1 w2 -> born i w w2.
Proof.
  intros Hs [H1 H2 H3 H4 H5]. destruct Hs as [Hss Hr]. split; [|done|by transitivity w1| |done].
  - intros Hp. apply H1. unfold present. by rewrite Hr.
  - intros j Hj. by rewrite <- Hr, H4.
Qed.

Section Creation.
Context {E : ManagerEnv} {config : ManagerConfig}.
Lemma persist_rows v w : same_sets w (persist v w).1
  /\ row_steps KWorkerJob (job_written (trimmed v)) (mg_db w) (mg_db (persist v w).1).
Proof.
  unfold persist, mbind, io_bind, io_lift. destruct (check_sizes v); [|split; [done|reflexivity]].
  assert (Hc : same_sets w (m_commit [job_record (trimmed v)] w).1
    /\ row_steps KWorkerJob (job_written (trimmed v)) (mg_db w) (mg_db (m_commit [job_record (trimmed v)] w).1)).
  { unfold m_commit, mbind, io_bind, m_call.
    set (w1 := w <| mg_calls := _ |>). assert (Hs : same_sets w w1) by done. change (mg_db w) with (mg_db w1).
    assert (Hm : forall f n, MRows KWorkerJob (job_written (trimmed v)) (commit f n [job_record (trimmed v)])).
    { intros f n. apply mrows_commit. intros rc [->|[]%elem_of_nil]%elem_of_cons _. done. }
    destruct (store_rows _ _ (Hm (mg_uuid (mg_calls w)) (mg_timestamp (mg_calls w))) w1) as [Hss Hr].
    split; [by transitivity w1|exact Hr]. }
  by destruct (m_commit [job_record (trimmed v)] w) as [w1 [[]|x]].
Qed.
(** A claim inserts its record, or leaves the jobs as they are. *)
Lemma claim_rows v w w' r : m_claim (job_record v) w = (w', r) ->
  still w w' /\ r <> TOk true \/
  r = TOk true /\ ~ present w (wj_id v) /\ present w' (wj_id v) /\ same_sets w w'
  /\ row_steps KWorkerJob (job_written v) (mg_db w) (mg_db w').
Proof.
  intros Hc. assert (Hm : MRows KWorkerJob (job_written v) (claim (job_record v) [])) by (by apply mrows_claim).
  pose proof (store_rows _ _ Hm w) as [Hss Hr]. unfold m_claim in Hc. rewrite Hc in Hss, Hr. simpl in Hss, Hr.
  assert (Ht : (tables (mg_db w') = tables (mg_db w) /\ r <> TOk true) \/ r = TOk true /\ ~ present w (wj_id v) /\ present w' (wj_id v)).
  { unfold m_store, m_call, mbind, io_bind in Hc. cbn -[mg_ok claim] in Hc. destruct (mg_ok _).
    - simpl in Hc. destruct (claim (job_record v) [] (mg_db w)) as [db [b|e]] eqn:Ec; injection Hc as <- <-.
      + apply claim_ok in Ec as [_ Ec]. destruct b; [|left; split; [apply Ec|done]]. right. destruct Ec as [Hn Hf].
        split; [done|]. apply Forall_cons in Hf as [[n Hn'] _]. split; unfold present, kind_row; simpl in *.
        * rewrite Hn. by intros [? [=]].
        * rewrite Hn'. eauto.
      + left. split; [|done]. simpl. unfold claim in Ec. unfold m_bind, m_guard in Ec. simpl in Ec.
        destruct (empty_str _); [by injection Ec as <- _|]. by apply transaction_throw in Ec as [-> _].
    - left. by injection Hc as <- <-. }
  destruct Ht as [[Ht Hb]|(-> & Hn & Hp)]; [left|by right]. split; [|done]. split; [done|].
  intros j. unfold kind_row. by rewrite Ht.
Qed.
Lemma steps_present A w w' i : row_steps KWorkerJob A (mg_db w) (mg_db w') -> present w i -> present w' i.
Proof. intros Hr Hp. unfold present in *. destruct (Hr i) as [->|(? & ? & ? & -> & _)]; [done|eauto]. Qed.
(** What the creation of a job does: nothing, or a new job. *)
Definition creates (i : string) (m : MIO (WorkerJob + WorkerJob)) : Prop := forall w w' r, m w = (w', r) ->
  (still w w' /\ forall v, r <> TOk (inr v)) \/
  (born i w w' /\ match r with TOk (inl _) => False | TOk (inr v) => wj_id v = i | TThrow _ => True end).
Lemma creates_bind {A} i (m : MIO A) f : Always still m -> (forall a, creates i (f a)) -> creates i (m ≫= f).
Proof.
  intros Hm Hf w w' r. unfold mbind, io_bind. pose proof (Hm w) as Hs. destruct (m w) as [w1 [a|x]]; simpl in Hs.
  - intros Hr. destruct (Hf a _ _ _ Hr) as [[Hs' Hn]|[Hb Hr']]; [left; split; [by transitivity w1|done]|right].
    split; [by eapply still_born|done].
  - intros [= <- <-]. by left.
Qed.
Lemma created_born now i worker q w w' w2 r : m_claim (job_record (new_job now i worker q)) w = (w', TOk true) ->
  persist ((new_job now i worker q) <| wj_state := JSubmitting |>) w' = (w2, r) -> born i w w2.
Proof.
  intros Hc Hp. apply claim_rows in Hc as [[_ []]|(_ & Hn & Hp' & Hss & Hr)]; [done|].
  pose proof (persist_rows ((new_job now i worker q) <| wj_state := JSubmitting |>) w') as [Hss2 Hr2].
  rewrite Hp in Hss2, Hr2. simpl in Hss2, Hr2. split; [exact Hn|by eapply steps_present|by transitivity w'| |].
  - intros j Hj. assert (H1 : job_row (mg_db w') j = job_row (mg_db w) j).
    { destruct (Hr j) as [|(? & ? & ? & _ & -> & _)]; [done|]. by destruct Hj. }
    destruct (Hr2 j) as [->|(? & ? & ? & _ & -> & _)]; [done|]. destruct Hj.
    by destruct (trimmed_core ((new_job now i worker q) <| wj_state := JSubmitting |>)) as [-> _].
  - assert (H1 : forall v, stored w' i = Some v -> wj_id v = i /\ target_ok v).
    { intros v. unfold stored. destruct (Hr i) as [->|(rid & body & seq & -> & _ & ->)].
      - intros Hv. destruct Hn. unfold present. simpl. destruct (job_row (mg_db w) i); [eauto|done].
      - simpl. intros (Hi & _ & _ & Ht)%body_job_core. split; [done|]. by left. }
    intros v. unfold stored. destruct (Hr2 i) as [->|(rid & body & seq & -> & _ & ->)]; [apply H1|].
    simpl. intros (Hi & _ & _ & Ht)%body_job_core.
    destruct (trimmed_core ((new_job now i worker q) <| wj_state := JSubmitting |>)) as (H2 & _ & _ & H3).
    split; [by rewrite Hi, H2|left; by rewrite Ht, H3].
Qed.
Lemma creates_job q i worker cp : Always still cp -> creates i (create_job q i worker cp).
Proof.
  intros Hcp. unfold create_job. apply creates_bind; [apply still_capacity|]. intros _.
  apply creates_bind; [apply still_now|]. intros now. cbv zeta. apply creates_bind; [done|]. intros _.
  intros w w' r. unfold mbind at 1, io_bind at 1.
  destruct (m_claim _ w) as [w1 [[]|x]] eqn:Hc; cbn [negb].
  - unfold mbind, io_bind. destruct (persist ((new_job now i worker q) <| wj_state := JSubmitting |>) w1) as [w2 rp] eqn:Hp.
    pose proof (created_born _ _ _ _ _ _ _ _ Hc Hp) as Hb.
    destruct rp as [v|x]; cbv [mret io_ret]; intros Hj; injection Hj as <- <-; right; split; try done. apply persist_ok in Hp as ->.
    by destruct (trimmed_core ((new_job now i worker q) <| wj_state := JSubmitting |>)) as [-> _].
  - apply claim_rows in Hc as [[Hs _]|[[=] _]]. intros Hj. left. pose proof (still_job i w1) as Hsj.
    unfold mbind, io_bind in Hj. destruct (job i w1) as [w2 [v|x]]; injection Hj as <- <-;
      (split; [by transitivity w1|by intros ? [=]]).
  - apply claim_rows in Hc as [[Hs _]|[[=] _]]. intros [= <- <-]. left. by split; [|intros ? [=]].
Qed.
End Creation.
(** A synchronous submission keeps the right to hand over its new job. *)
Lemma inv_born_sync i w w' T : born i w w' -> Inv w T -> Inv w' (Sub i :: T).
Proof.
  intros Hb [Hw [B Hi]]. split; [by eapply born_wf|]. exists (fun j => j = i \/ B j). intros j. pose proof (Hi j) as Hj.
  destruct (bn_sets _ _ _ Hb) as [Ha Hs Hd]. destruct (decide (i = j)) as [<-|Hij].
  - pose proof (bn_absent _ _ _ Hb) as Hn. pose proof (bn_present _ _ _ Hb) as Hp.
    destruct (absent_counts _ _ _ _ Hj Hn) as [Hh Hc]. destruct (ia_absent _ _ _ _ Hj Hn) as (Hk & Ho & HB & Hna).
    unfold handed in Hh. split; unfold handed, given_up; rewrite ?count_cons; simpl; rewrite ?String.eqb_refl, ?Hs, ?Ha, ?Hd, ?Hc; try done.
    + lia.
    + lia.
    + lia.
    + intros _ [[=]|Ht]%elem_of_cons. by destruct (Hk _ Ht).
    + intros _ _ Hx. destruct Hx. by left.
    + intros [[=]|Ht]%elem_of_cons. by destruct (Hk _ Ht).
    + intros v [[=]|Ht]%elem_of_cons Hid. by destruct (Hk _ Ht).
  - elsewhere Hij Hj; rewrite ?Ha, ?Hs, ?Hd; try done; [|by apply (bn_rows _ _ _ Hb)]. naive_solver.
Qed.
(** An asynchronous one reserves its dispatch. *)
Lemma inv_born_async i w w' T : born i w w' -> Inv w T -> Inv (set_async i w') (Thr i :: T).
Proof.
  intros Hb [Hw [B Hi]]. split; [exact (born_wf i w w' Hb Hw)|]. exists B. intros j. pose proof (Hi j) as Hj.
  destruct (bn_sets _ _ _ Hb) as [Ha Hs Hd]. destruct (decide (i = j)) as [<-|Hij].
  - pose proof (bn_absent _ _ _ Hb) as Hn. pose proof (bn_present _ _ _ Hb) as Hp.
    destruct (absent_counts _ _ _ _ Hj Hn) as [Hh Hc]. destruct (ia_absent _ _ _ _ Hj Hn) as (Hk & Ho & HB & Hna).
    unfold handed in Hh. split; unfold handed, given_up; rewrite ?count_cons; simpl; rewrite ?String.eqb_refl, ?Hs, ?Hd, ?Hc; try done.
    + lia.
    + set_solver.
    + lia.
    + lia.
    + intros v [[=]|Ht]%elem_of_cons Hid. by destruct (Hk _ Ht).
  - elsewhere Hij Hj; rewrite ?Hs, ?Hd; try done; [by apply (bn_rows _ _ _ Hb)|]. rewrite Ha. set_solver.
Qed.

(** A new process: the sets are empty, and no thread of it may hand over an earlier job. *)
Definition restart (w : Mgr) : Mgr :=
  ((((w <| async_submissions := ∅ |>) <| active_submissions := ∅ |>) <| signals := ∅ |>) <| mg_stopped := false |>).
Lemma inv_no_threads w : jobs_wf w -> async_submissions w = ∅ ->
  (forall i, (occurrences i (submitted w) <= 1 + occurrences i (deferred w))%nat /\ (~ present w i -> i ∉ submitted w)) ->
  Inv w [].
Proof.
  intros Hw Ha Hi. split; [done|]. exists (fun i => present w i). intros i. destruct (Hi i) as [Ho Hn].
  split; unfold handed, given_up, count; simpl; rewrite ?Ha.
  - lia.
  - lia.
  - lia.
  - intros _ []%elem_of_nil.
  - intros Hp. split_and!; [by intros k ?%elem_of_nil|auto|done|set_solver].
  - intros Hf _ Hb. destruct Hb. by apply (fresh_present w).
  - set_solver.
  - intros []%elem_of_nil.
  - by intros v ?%elem_of_nil.
Qed.
Lemma inv_restart w T : Inv w T -> Inv (restart w) [].
Proof.
  intros [Hw [B Hi]]. apply inv_no_threads; [done|done|]. intros i. pose proof (ia_once _ _ _ _ (Hi i)) as H1.
  unfold handed, given_up in H1. split; [simpl; lia|]. intros Hn. by apply (ia_absent _ _ _ _ (Hi i)) in Hn as (_ & ? & _).
Qed.
End Steps.
