(* ===== verification/Dispatch.v ===== *)
(** * The threads of the worker manager respect their tickets

    Every program of the manager, seen through [wp]: which tickets it needs and which it leaves. *)

From S2P Require Import Prelude Json Types Text Pipeline Access Db Coordination Codec Worker Store Rows Effects Threads Manager Submission Interactions Quiet Calm Tickets.

Section Fine.
Context `{L : JsonLib} {HL : JsonLaws L} {E : ManagerEnv} {config : ManagerConfig}.

(** Threads may end with any tickets. *)
Definition any_end (t : list Ticket) : Prop := True.
Abbreviation MProg := (Prog (W := Mgr) (answer := answer)).
Abbreviation ok := (wp (answer := answer) note Inv any_end).
Definition no_matter {A} (a : A) (t : list Ticket) : Prop := True.
Abbreviation fine p t := (ok p t no_matter).
Lemma affine_no_matter {A} : affine (@no_matter A).
Proof. done. Qed.

Lemma ok_sub {A} (p : MProg A) t u (Q : A -> list Ticket -> Prop) : affine Q -> t ⊆+ u -> ok p t Q -> ok p u Q.
Proof. apply wp_sub; [apply inv_perm|apply inv_drop]. Qed.
Lemma fine_more {A} (p : MProg A) t : fine p [] -> fine p t.
Proof. apply ok_sub; [done|]. apply submseteq_nil_l. Qed.
Lemma ok_then {A B} (p : MProg A) (f : A -> MProg B) t1 t2 Q : affine Q -> fine p t1 -> (forall a, ok (f a) t2 Q) ->
  ok (prog_bind p f) (t1 ++ t2) Q.
Proof. intros HQ Hp Hf. eapply wp_then; [apply inv_perm|apply inv_drop|done|exact Hp|done]. Qed.
Lemma fine_bind {A B} (m : MTask A) (f : A -> MTask B) t : fine m [] -> (forall a, fine (f a) t) -> fine (m ≫= f) t.
Proof. intros Hm Hf. apply (ok_then _ _ [] t); [done..|]. intros [a|x]; [apply Hf|done]. Qed.
Lemma fine_prog {A B} (p : MProg A) (f : A -> MProg B) t : fine p [] -> (forall a, fine (f a) t) -> fine (prog_bind p f) t.
Proof. intros Hp Hf. by apply (ok_then _ _ [] t). Qed.
Lemma fine_lift {A} (r : tres A) t : fine (task_lift r : MTask A) t.
Proof. done. Qed.
Lemma fine_call c t : (forall w q, c <> CSubmit w false q) -> fine (call c : MTask _) t.
Proof.
  intros Hc. exists t. split; [|done]. intros w F. apply inv_calm, still_calm.
  destruct c as [| | | | |worker [] q| | | | | |]; try by split. by destruct (Hc worker q).
Qed.
Lemma fine_atomic {A} (m : MIO A) t : from anywhere m -> fine (atomic m : MTask A) t.
Proof. intros Hm w F Hi. exists t. split; [|done]. eapply inv_calm; [|exact Hi]. apply Hm; [apply Hi|done]. Qed.
Lemma fine_still {A} (m : MIO A) t : Always still m -> fine (atomic m : MTask A) t.
Proof. intros Hm. by apply fine_atomic, from_still. Qed.
Lemma fine_iter {A} (f : A -> MTask unit) l t : (forall x, x ∈ l -> fine (f x) []) -> fine (task_iter f l) t.
Proof.
  induction l as [|x l IH]; intros Hf; [done|]. simpl. apply fine_bind; [apply Hf; by left|]. intros _.
  apply IH. intros y Hy. apply Hf. by right.
Qed.
Lemma fine_iter_with {A} (f : A -> MTask unit) (g : A -> Ticket) l t : (forall x, fine (f x) [g x]) ->
  fine (task_iter f l) (map g l ++ t).
Proof.
  intros Hf. induction l as [|x l IH]; [done|]. simpl. apply (ok_then (f x) _ [g x]); [done|apply Hf|].
  intros [a|e]; [apply IH|done].
Qed.

(** What a block returns is known afterwards. *)
Lemma ok_block {A B} (m : MIO A) (f : A -> MTask B) t t' Q : from anywhere m ->
  (forall w w' a, jobs_wf w -> jobs_wf w' -> calm w w' -> m w = (w', TOk a) -> forall F, Inv w' (t ++ F) -> Inv w' (t' a ++ F)) ->
  (forall x, Q (TThrow x) t) -> (forall a, ok (f a) (t' a) Q) -> ok (atomic m ≫= f) t Q.
Proof.
  intros Hm Hk Hx Hf w F Hi. pose proof (Hm w ltac:(apply Hi) I) as Hc. destruct (m w) as [w' r] eqn:Em. simpl in Hc.
  pose proof (inv_calm _ _ _ Hc Hi) as Hi'. destruct r as [a|x].
  - exists (t' a). split; [|apply Hf]. eapply Hk; [apply Hi|apply Hi'|done..].
  - exists t. split; [done|apply Hx].
Qed.
(** The jobs a block has read. *)
Lemma inv_stored w i v T : stored w i = Some v -> Inv w T -> Inv w (Past v :: T).
Proof.
  intros Hs Hi. destruct (proj1 Hi i v Hs) as [Hid _]. subst i. apply inv_past; [by eapply stored_present| |done].
  intros He v' Hv'. rewrite Hs in Hv'. injection Hv' as <-. unfold blank. by rewrite He, andb_false_r.
Qed.
End Fine.

(** A program none of whose steps needs a ticket. *)
Ltac fine_step :=
  lazymatch goal with
  | |- wp _ _ _ (mret _) _ _ => exact I
  | |- wp _ _ _ (Done _) _ _ => exact I
  | |- wp _ _ _ (task_throw _) _ _ => exact I
  | |- wp _ _ _ (task_lift _) _ _ => exact I
  | |- wp _ _ _ (task_guard _ _ _) _ _ => exact I
  | |- wp _ _ _ (call _) _ _ => by apply fine_call
  | |- wp _ _ _ (atomic _) _ _ => first [solve [apply fine_atomic; eauto 2 with calm] | apply fine_still; solve [stays_still]]
  | |- wp _ _ _ (task_when ?b _) _ _ => destruct b; cbn [task_when]
  | |- wp _ _ _ (task_quiet _) _ _ => unfold task_quiet
  | |- wp _ _ _ (task_handle _ _) _ _ => unfold task_handle
  | |- wp _ _ _ (_ ≫= _) _ _ => apply fine_bind; [|intros ?]
  | |- wp _ _ _ (prog_bind _ _) _ _ => apply fine_prog; [|intros ?]
  | |- wp _ _ _ (match ?x with _ => _ end) _ _ => destruct x eqn:?
  | |- wp _ _ _ (if ?x then _ else _) _ _ => destruct x eqn:?
  end.
Ltac fine_steps := repeat fine_step.

Section Tasks.
Context `{L : JsonLib} {HL : JsonLaws L} {E : ManagerEnv} {config : ManagerConfig}.
Abbreviation ok := (wp (answer := answer) note Inv any_end).
Abbreviation fine p t := (ok p t no_matter).

Lemma fine_record i s worker t : fine (record_submission i s worker) t.
Proof.
  unfold record_submission, answered. fine_step; [exact I|].
  match goal with H : _ || _ = false |- _ => apply orb_false_iff in H as [H _] end. fine_steps.
Qed.
Lemma fine_available worker t : fine (available worker) t.
Proof. unfold available, restores. fine_steps. Qed.
Lemma fine_providers c l t : forall r, fine (providers c r l) t.
Proof. induction l as [|x l IH]; intros r; cbn [providers]; fine_steps; apply IH. Qed.
Lemma fine_resolve w c t : fine (resolve_worker w c) t.
Proof. unfold resolve_worker. fine_steps. apply fine_providers. Qed.

(** *** Reconciliation *)
Lemma fine_apply_status v v' s r : wj_id v' = wj_id v -> empty_str (wj_external_job_id v) = false ->
  fine (atomic (apply_status v' s r)) [Past v].
Proof.
  intros Hid He w F Hi. exists [Past v]. split; [|done].
  assert (Hp : past v w). { destruct (proj2 Hi) as [B Hb]. eapply ia_past; [exact (Hb (wj_id v))|by left|done|done]. }
  eapply inv_calm; [|exact Hi]. apply calm_apply_status; [apply Hi|]. unfold past in *. by rewrite Hid.
Qed.
Lemma fine_reconcile_status v : empty_str (wj_external_job_id v) = false -> fine (reconcile_status v) [Past v].
Proof.
  intros He. unfold reconcile_status, attempt_call. fine_step; [by fine_steps|]. fine_step; [|exact I].
  apply wp_bind. eapply wp_mono with (Q := fun joined t => wj_id joined.1 = wj_id v /\ t = [Past v]).
  - intros [v' r] t [Hid ->]. simpl in Hid. destruct r as [[st received]|x]; [|exact I].
    fine_step; [by fine_steps|by apply fine_apply_status].
  - case_match; [|done]. exists [Past v]. split; [intros w F; apply inv_calm, still_calm; by split|].
    intros [final|x]; [|done]. simpl. case_match; [|done]. destruct (apply_continuation v _) as [v'|x] eqn:Hc; [|done].
    by apply apply_continuation_core in Hc as [= ? _ _ _].
Qed.
Lemma fine_reconcile v b : fine (reconcile v b) [Past v].
Proof.
  unfold reconcile. fine_step; [exact I|]. fine_step; [exact I|].
  match goal with H : _ || empty_str _ = false |- _ => apply orb_false_iff in H as [_ He] end.
  fine_step; [by fine_steps|]. fine_step; [exact I|].
  apply (ok_then _ _ [Past v] []); [done| |intros [[v' [[| | |]|]]|x]; fine_steps].
  destruct a; [|by apply fine_reconcile_status]. unfold attempt_call. fine_steps.
Qed.
Lemma fine_probe b l t : fine (probe b l) (map Past l ++ t).
Proof.
  apply fine_iter_with. intros v. apply (ok_then _ _ [Past v] []); [done|apply fine_reconcile|]. intros [a|x]; exact I.
Qed.
Lemma select_jobs_elem p l l' v : select_jobs p l = TOk l' -> v ∈ l' -> exists j, j ∈ l /\ worker_job_of_json j = TOk v.
Proof.
  revert l'. induction l as [|j l IH]; intros l'; simpl; [by intros [= <-] ?%elem_of_nil|].
  intros Hs Hv. apply tres_bind_ok in Hs as (x & Hx & Hs). apply tres_bind_ok in Hs as (rest & Hr & [= <-]).
  assert (Hc : v = x \/ v ∈ rest) by (destruct (p x); [by apply elem_of_cons in Hv|by right]).
  destruct Hc as [->|Hc]; [exists j; split; [by left|done]|]. destruct (IH rest Hr Hc) as (j' & ? & ?).
  exists j'. split; [by right|done].
Qed.
Lemma inv_all_past w l T : (forall v, v ∈ l -> exists i, stored w i = Some v) -> Inv w T -> Inv w (map Past l ++ T).
Proof.
  induction l as [|v l IH]; intros Hl Hi; [done|]. destruct (Hl v ltac:(by left)) as [i Hs]. simpl.
  eapply inv_stored; [exact Hs|]. apply IH; [|done]. intros x Hx. apply Hl. by right.
Qed.
Lemma fine_jobs_where {B} p (f : list WorkerJob -> MTask B) t : (forall l, fine (f l) (map Past l ++ t)) ->
  fine (atomic (jobs_where p) ≫= f) t.
Proof.
  intros Hf. apply (ok_block _ _ _ (fun l => map Past l ++ t)); [apply from_still, still_jobs_where| |done|done].
  intros w w' l Hw Hw' _ Hr F Hi. pose proof (still_jobs_where p w) as Hs. rewrite Hr in Hs. simpl in Hs.
  rewrite <- app_assoc. apply inv_all_past; [|done]. intros v Hv. unfold jobs_where in Hr.
  apply io_bind_ok in Hr as (w1 & js & Hl & [= -> Hsel]). destruct (select_jobs_elem _ _ _ _ Hsel Hv) as (j & Hj & Hd).
  destruct (listed_stored _ _ _ _ _ _ Hl Hj Hd) as [i Hi']. exists i. by rewrite (still_stored _ _ _ Hs).
Qed.
Lemma fine_probe_worker worker t : fine (probe_worker worker) t.
Proof.
  unfold probe_worker. apply fine_jobs_where. intros l. destruct (_ <=? _); [apply fine_probe|exact I].
Qed.
Lemma fine_probe_remote worker t : fine (probe_remote worker) t.
Proof. unfold probe_remote. apply fine_jobs_where. intros l. apply fine_probe. Qed.

(** *** Synchronous submission *)
Lemma outbound_ok q i w : exists q', outbound q i w = (w, TOk q') /\ q_job_id q' = i.
Proof. unfold outbound, mbind, io_bind, io_get, mret, io_ret. eexists. split; [done|]. by case_match. Qed.
Lemma fine_hand_over q i worker : fine (hand_over false q i worker) [Sub i].
Proof.
  unfold hand_over. intros w F Hi. destruct (outbound_ok q i w) as (q' & -> & Hq). exists [Sub i]. split; [done|].
  simpl. exists []. split.
  - intros w' F'. simpl. rewrite Hq. apply inv_hand.
  - intros [s|x]; [apply fine_record|exact I].
Qed.
Lemma fine_retry q i worker t : fine (hand_over true q i worker) t.
Proof. unfold hand_over. fine_steps. apply fine_record. Qed.
Lemma fine_transport_error i b msg t : fine (transport_error_handler i b msg) t.
Proof.
  unfold transport_error_handler, await_cancellation. fine_steps. apply fine_still.
  intros w. unfold io_catch_all. pose proof (still_job i w) as Hs. by destruct (job i w) as [w' [v|x]].
Qed.
Lemma fine_job_error i msg t : fine (job_error_handler i msg) t.
Proof. unfold job_error_handler. apply fine_atomic, calm_failed. by left. Qed.
Lemma fine_resubmit q i worker t : fine (resubmit q i worker) t.
Proof.
  unfold resubmit, task_handle. apply fine_prog; [apply fine_retry|].
  intros r. repeat case_match; fine_steps; first [apply fine_transport_error | apply fine_job_error].
Qed.
Lemma fine_dispatch q i worker : fine (dispatch q i worker) [Sub i].
Proof.
  unfold dispatch. fine_step; [by fine_steps|]. fine_step; [exact I|].
  apply (ok_then _ _ [Sub i] []); [done| |intros [v|x]; fine_steps].
  unfold task_handle. apply (ok_then _ _ [Sub i] []); [done|apply fine_hand_over|].
  intros r. repeat case_match; fine_steps; first [apply fine_transport_error | apply fine_job_error].
Qed.
Lemma fine_submit_existing q m i worker e : fine (submit_existing q m i worker e) [Past e].
Proof. unfold submit_existing. fine_step; [apply fine_reconcile|]. fine_steps. apply fine_resubmit. Qed.

(** Blocks in sequence. *)
Abbreviation bok := (block_ok Inv).
Lemma block_bind {A B} (m : MIO A) (f : A -> MIO B) t Q :
  bok m t (fun r t' => match r with TOk a => bok (f a) t' Q | TThrow x => Q (TThrow x) t' end) -> bok (m ≫= f) t Q.
Proof.
  intros Hm w F Hi. destruct (Hm w F Hi) as (t' & Hi' & Hq). unfold mbind, io_bind.
  destruct (m w) as [w' [a|x]]; [by apply Hq|by exists t'].
Qed.
Lemma block_catch {A} (m : MIO A) h t Q :
  bok m t (fun r t' => match r with
                       | TThrow x => match error_of x with Some e => bok (h e) t' Q | None => Q r t' end
                       | TOk _ => Q r t' end) -> bok (io_catch m h) t Q.
Proof.
  intros Hm w F Hi. destruct (Hm w F Hi) as (t' & Hi' & Hq). unfold io_catch.
  destruct (m w) as [w' [a|x]]; [by exists t'|]. simpl in Hq. destruct (error_of x); [by apply Hq|by exists t'].
Qed.
Lemma block_calm {A} (m : MIO A) t (Q : tres A -> list Ticket -> Prop) : from anywhere m -> (forall r, Q r t) -> bok m t Q.
Proof. intros Hm HQ w F Hi. exists t. split; [|done]. eapply inv_calm; [|exact Hi]. apply Hm; [apply Hi|done]. Qed.

Definition created_sync (i : string) (r : tres (WorkerJob + WorkerJob)) (t : list Ticket) : Prop :=
  match r with TOk (inr v) => t = [Sub i] /\ wj_id v = i | _ => True end.
Lemma block_creates i m : creates i m -> bok m [] (created_sync i).
Proof.
  intros Hm w F Hi. destruct (m w) as [w' r] eqn:Er. destruct (Hm _ _ _ Er) as [[Hs Hn]|[Hb Hr]]; simpl.
  - exists []. split; [eapply inv_calm; [by apply still_calm|done]|].
    destruct r as [[v|v]|x]; [done|by destruct (Hn v)|done].
  - pose proof (inv_born_sync _ _ _ _ Hb Hi) as Hi'. destruct r as [[v|v]|x]; [done|by exists [Sub i]|].
    exists []. split; [|done]. by apply (inv_drop _ [Sub i]).
Qed.
Lemma block_create_submission q i worker : bok (create_submission q i worker) [] (created_sync i).
Proof.
  unfold create_submission. apply block_bind, block_calm; [apply calm_retires|]. intros [[]|x]; [|done].
  apply block_bind, block_calm; [apply calm_fences|]. intros [[]|x]; [|done].
  apply block_bind. eapply block_ok_mono; [|apply block_creates, creates_job, always_ret; apply _].
  intros [[v|v]|x] t Hr; [| |done].
  - apply block_bind, block_calm; [apply from_still, always_ret; apply _|]. intros [[]|x]; [|done].
    intros w F Hi. by exists t.
  - destruct Hr as [-> Hv]. apply block_bind, block_calm; [by apply from_still, still_modify|]. intros [[]|x]; [|done].
    intros w F Hi. by exists [Sub i].
Qed.
Lemma fine_submit_new q m i worker : fine (submit_new q m i worker) [].
Proof.
  unfold submit_new. apply fine_bind; [destruct (supports_status m); [apply fine_probe_worker|exact I]|]. intros _.
  apply wp_bind. simpl. eapply block_ok_mono; [|apply block_create_submission].
  intros [[v|v]|x] t Hr; [exact I| |exact I]. destruct Hr as [-> Hv]. subst i. apply fine_dispatch.
Qed.
Lemma fine_settled b e t : fine (settled_submission b e) t.
Proof. unfold settled_submission. fine_steps. Qed.

(** The lookup of the stored job. *)
Lemma or_absent_ok {A} (m : MIO A) w w' r : or_absent m w = (w', TOk r) ->
  match r with Some a => m w = (w', TOk a) | None => True end.
Proof.
  unfold or_absent. intros Ho. destruct r as [a|]; [|done].
  apply io_catch_ok in Ho as [Ho|(w1 & e & _ & Ho)].
  - apply io_bind_ok in Ho as (w1 & b & Hm & [= <- <-]). done.
  - by case_match.
Qed.
Lemma existing_stored q worker i w w' e : or_absent (owned_job q worker i) w = (w', TOk (Some e)) ->
  stored w i = Some e /\ stored w' i = Some e.
Proof.
  intros Ho. pose proof (still_or_absent _ (still_owned q worker i) w) as Hs. rewrite Ho in Hs. simpl in Hs.
  apply or_absent_ok in Ho. rewrite (still_stored _ _ _ Hs). split; by eapply owned_ok.
Qed.
Lemma fine_submit_sync q a i worker : fine (submit_body q a "" i worker) [].
Proof.
  unfold submit_body. fine_step; [by fine_steps|].
  apply (ok_block _ _ _ (fun e => match e with Some e => [Past e] | None => [] end)); [|intros w w' [e|] _ _ _ He F Hi|done|].
  - by apply from_still, still_or_absent, still_owned.
  - apply existing_stored in He as [_ He]. by eapply inv_stored.
  - done.
  - intros existing. apply fine_bind; [exact I|]. intros _. simpl negb.
    apply fine_bind; [destruct existing; [apply fine_settled|exact I]|]. intros [value|]; [by destruct existing|].
    destruct existing as [e|].
    + fine_step; [by fine_steps|]. apply fine_bind; [apply fine_available|]. intros m. apply fine_submit_existing.
    + apply fine_bind; [apply fine_available|]. intros m. apply fine_submit_new.
Qed.

(** The end of a dispatch thread needs the reservation, used or not. *)
Definition reserved_for (i : string) {A} (r : A) (t : list Ticket) : Prop := Run i ∈ t \/ Thr i ∈ t.
Lemma affine_reserved i {A} : affine (@reserved_for i A).
Proof. intros a t u Hs [Ht|Ht]; [left|right]; by eapply elem_of_submseteq. Qed.
Lemma ok_bind_reserved {A B} i (m : MTask A) (f : A -> MTask B) t : fine m [] -> reserved_for i tt t ->
  (forall a, ok (f a) t (reserved_for i)) -> ok (m ≫= f) t (reserved_for i).
Proof. intros Hm Ht Hf. apply (ok_then _ _ [] t); [apply affine_reserved|done|]. intros [a|x]; [apply Hf|exact Ht]. Qed.
Lemma ok_submit_thread q a i worker : empty_str i = false -> ok (submit_body q a i i worker) [Thr i] (reserved_for i).
Proof.
  intros Hne. unfold submit_body. rewrite Hne. apply ok_bind_reserved; [by fine_steps|right; by left|]. intros _.
  set (t' := fun e : option WorkerJob => if match e with Some e => waiting_for_handle e | None => false end
               then [Run i; Sub i] else [Thr i]).
  assert (Ht : forall e, reserved_for i tt (t' e)) by (intros e; unfold t', reserved_for; case_match; set_solver).
  apply (ok_block _ _ _ t'); [by apply from_still, still_or_absent, still_owned| |intros x; right; by left|].
  - intros w w' [e|] _ _ _ He F Hi; unfold t'; [|done]. case_match; [|done]. apply existing_stored in He as [_ He].
    apply inv_take_over; [|done]. apply fresh_iff. eauto.
  - intros existing. simpl negb. destruct existing as [e|]; [|exact (Ht None)]. simpl andb.
    destruct (String.eqb_spec (wj_id e) i) as [Hid|]; [|exact (Ht (Some e))].
    destruct (waiting_for_handle e) eqn:Hw; [|exact (Ht (Some e))]. unfold t'. rewrite Hw. clear t' Ht.
    assert (Hr : reserved_for i tt [Run i; Sub i]) by (left; by left).
    apply ok_bind_reserved; [exact I|done|]. intros _. apply ok_bind_reserved; [exact I|done|]. intros settled.
    destruct settled as [v|]; [exact Hr|].
    case_match; [|apply ok_bind_reserved; [apply fine_available|done|]; intros m; rewrite Hid].
    + replace (atomic (finalize_pending_cancellation (wj_id e)) : MTask WorkerJob)
        with (prog_bind (atomic (finalize_pending_cancellation (wj_id e)) : MTask WorkerJob) Done) by done.
      apply (ok_then _ _ [] [Run i; Sub i]); [apply affine_reserved|by fine_steps|done].
    + apply (ok_sub _ ([Sub i] ++ [Run i])); [apply affine_reserved|by constructor|].
      apply (wp_mono _ _ _ _ _ (fun a t => exists t1, t = t1 ++ [Run i])); [intros r t (t1 & ->); left; set_solver|].
      eapply wp_mono; [|apply wp_frame, fine_dispatch]. intros r t (t1 & -> & _). eauto.
Qed.

Lemma ok_finally {A} (m : MTask A) f t Q : (forall w, still w (f w)) -> ok m t Q -> ok (task_finally m f) t Q.
Proof.
  intros Hf Hm. apply wp_bind. eapply wp_mono; [|exact Hm]. intros r t' Hq w F Hi. exists t'. split; [|exact Hq].
  eapply inv_calm; [apply still_calm, Hf|exact Hi].
Qed.
Lemma fine_check_stopped t : fine check_stopped t.
Proof. unfold check_stopped. fine_steps. Qed.
Lemma fine_submit q : fine (submit q) [].
Proof.
  unfold submit, submit_impl. apply fine_bind; [apply fine_check_stopped|]. intros _. fine_step; [exact I|].
  apply fine_bind; [apply fine_resolve|]. intros worker. cbv zeta.
  apply fine_bind; [apply fine_still; by apply still_modify|]. intros _.
  apply ok_finally; [by intros w|]. apply fine_submit_sync.
Qed.
Lemma durable_nonempty k : empty_str (durable_job_id k) = false.
Proof. done. Qed.
Lemma ok_submit_impl q : let i := durable_job_id (q_idempotency_key q) in
  ok (submit_impl q true i) [Thr i] (reserved_for i).
Proof.
  intros i. assert (Hr : reserved_for i tt [Thr i]) by (right; by left). unfold submit_impl.
  apply ok_bind_reserved; [apply fine_check_stopped|done|]. intros _. apply ok_bind_reserved; [exact I|done|]. intros _.
  apply ok_bind_reserved; [apply fine_resolve|done|]. intros worker. cbv zeta. fold i.
  apply ok_bind_reserved; [apply fine_still; by apply still_modify|done|]. intros _.
  apply ok_finally; [by intros w|]. by apply ok_submit_thread.
Qed.
Lemma fine_thread_failed i msg : fine (thread_failed i msg) [].
Proof. unfold thread_failed. apply fine_prog; [apply fine_atomic, calm_failed; by left|done]. Qed.
Lemma fine_async_submission q : let i := durable_job_id (q_idempotency_key q) in fine (async_submission q i) [Thr i].
Proof.
  intros i. unfold async_submission. apply wp_bind. eapply wp_mono; [|apply ok_submit_impl].
  intros r t Hr. apply (ok_then _ _ [] t); [done| |].
  - repeat case_match; try exact I; apply fine_thread_failed.
  - intros _. assert (Hk : exists k, (k = Thr i \/ k = Run i) /\ k ∈ t) by (destruct Hr; eauto).
    destruct Hk as (k & Hk & Hin). intros w F Hi. exists []. split.
    + eapply inv_end_dispatch; [exact Hk|]. eapply inv_sub; [|exact Hi].
      simpl. change (k :: F) with ([k] ++ F). apply submseteq_skips_r. by apply singleton_submseteq_l.
    + intros w' F' Hi'. exists []. split; [|done]. eapply inv_calm; [apply still_calm, still_forget|exact Hi'].
Qed.

(** *** Asynchronous submission *)
Definition reserved_async (i : string) (r : tres (WorkerJob + WorkerJob * bool)) (t : list Ticket) : Prop :=
  match r with
  | TOk (inr (v, b)) => wj_id v = i /\ t = [if b then Thr i else Seen i]
  | _ => True
  end.
Lemma existing_async_ok q worker i w w' v b : jobs_wf w -> existing_async q worker i w = (w', TOk (inr (v, b))) ->
  still w w' /\ b = false /\ stored w i = Some v /\ (waiting_for_handle v = true -> i ∈ async_submissions w).
Proof.
  unfold existing_async. intros Hwf Ho. apply io_bind_ok in Ho as (w1 & e & He & Ho).
  pose proof (still_owned q worker i w) as Hs. rewrite He in Hs. apply owned_ok in He.
  case_match; [by injection Ho|]. case_match eqn:Hsub; cycle 1.
  { injection Ho as <- <- <-. split_and!; [done..|]. unfold waiting_for_handle. by rewrite Hsub. }
  apply io_bind_ok in Ho as (w2 & busy & Hb & Ho). unfold dispatching in Hb. injection Hb as <- <-.
  case_bool_decide as Hin; [|by apply io_bind_ok in Ho as (? & ? & _ & [=])]. injection Ho as <- <- <-.
  split_and!; [done..|]. intros _. destruct (Hwf _ _ He) as [<- _]. by rewrite <- (ss_async _ _ (proj1 Hs)).
Qed.
Lemma block_new_async q worker i : bok (new_async q worker i) [] (reserved_async i).
Proof.
  intros w F Hi. unfold new_async, mbind, io_bind.
  destruct (create_job q i worker (check_parent_job q) w) as [w1 r] eqn:Hc.
  destruct (creates_job q i worker _ (still_parent q) _ _ _ Hc) as [[Hs Hn]|[Hb Hr]].
  - assert (Hi1 : Inv w1 F) by (eapply inv_calm; [by apply still_calm|done]).
    destruct r as [[v|v]|x]; [by exists []|by destruct (Hn v)|by exists []].
  - destruct r as [[v|v]|x]; [done| |].
    + unfold reserve_dispatch. set (w2 := if bool_decide _ then w1 else _). simpl in Hr. rewrite Hr.
      assert (Hb2 : born i w w2).
      { destruct Hb as [H1 H2 [] H4 H5]. unfold w2. by case_bool_decide; split. }
      exists [Thr i]. split; [by apply inv_born_async with (w := w)|]. split; [exact Hr|].
      assert (Hna : i ∉ async_submissions w2).
      { rewrite (ss_async _ _ (bn_sets _ _ _ Hb2)). destruct Hi as [_ [B Hi]].
        by destruct (ia_absent _ _ _ _ (Hi i) (bn_absent _ _ _ Hb)) as (_ & _ & _ & ?). }
      by rewrite bool_decide_false.
    + exists []. split; [|done]. simpl. apply (inv_drop _ [Sub i]). by apply inv_born_sync with (w := w).
Qed.
Lemma block_prepare q worker i : bok (prepare_async q worker i) [] (reserved_async i).
Proof.
  unfold prepare_async. apply block_bind, block_calm; [apply calm_retires|]. intros [[]|x]; [|done].
  apply block_bind, block_calm; [apply calm_fences|]. intros [[]|x]; [|done].
  apply block_catch. intros w F Hi. destruct (existing_async q worker i w) as [w1 r] eqn:He.
  pose proof (calm_existing_async q worker i w (proj1 Hi) I) as Hc. rewrite He in Hc. simpl in Hc.
  assert (Hi1 : Inv w1 F) by (by eapply inv_calm). destruct r as [[v|[v b]]|x].
  - by exists [].
  - apply existing_async_ok in He as (Hs & -> & Hst & Ha); [|apply Hi]. exists [Seen i]. split; [|by split; [apply (proj1 Hi)|]].
    rewrite <- (still_stored _ _ i Hs) in Hst. apply inv_seen; [by eapply stored_present| |done].
    intros (v' & Hv' & Hw)%fresh_iff. simpl in *. rewrite Hst in Hv'. injection Hv' as <-. rewrite (ss_async _ _ (proj1 Hs)). auto.
  - exists []. split; [done|]. simpl. destruct (error_of x) as [e|]; [|done]. case_match; [apply block_new_async|].
    intros w' F' Hi'. by exists [].
Qed.
Lemma fine_launch_thread q i v : let k := durable_job_id (q_idempotency_key q) in i = k -> wj_id v = i ->
  fine (prog_bind (call CLaunch : MTask unit) (fun r =>
    match r with
    | TOk _ => _ ← spawn (async_submission q i); mret v
    | TThrow x =>
        _ ← atomic (io_modify (clear_async (wj_id v)));
        _ ← task_quiet (atomic (not_scheduled (wj_id v)));
        task_throw x
    end)) [Thr i].
Proof.
  intros k -> Hv. exists [Thr k]. split; [intros w F; apply inv_calm, still_calm; by split|]. intros [[]|x].
  - exists [Thr k], []. split_and!; [done|apply fine_async_submission|exact I].
  - simpl. rewrite Hv. intros w F Hi. exists []. split; [by apply inv_release|]. simpl.
    intros w' F' Hi'. exists []. split; [eapply inv_calm; [apply calm_not_scheduled; [apply Hi'|done]|exact Hi']|exact I].
Qed.
Lemma fine_submit_async q : fine (submit_async q) [].
Proof.
  unfold submit_async. apply fine_bind; [apply fine_check_stopped|]. intros _. fine_step; [exact I|].
  apply fine_bind; [apply fine_resolve|]. intros worker. fine_step; [by fine_steps|].
  apply fine_bind; [apply fine_available|]. intros m.
  apply fine_bind; [destruct (wm_remote m && supports_status m && negb (supports_recovery m)); [apply fine_probe_remote|exact I]|]. intros _. cbv zeta.
  set (i := durable_job_id _). apply wp_bind. simpl. eapply block_ok_mono; [|apply block_prepare].
  intros [[v|[v b]]|x] t Hr; [exact I| |exact I]. destruct Hr as [Hv ->]. unfold launch. destruct b.
  - simpl. by apply fine_launch_thread.
  - pose proof (fine_launch_thread q i v eq_refl Hv) as Hl. intros w F Hi. cbn [fst snd]. destruct (decide (wj_id v ∈ async_submissions w)) as [Ha|Ha];
      [rewrite bool_decide_true by done|rewrite bool_decide_false by done]; rewrite Hv in *.
    + exists []. split; [|exact I]. assert (Hsame : set_async i w = w).
      { unfold set_async. rewrite (subseteq_union_1_L {[i]} (async_submissions w)); [by destruct w|]. by apply singleton_subseteq_l. }
      rewrite Hsame. by apply (inv_drop _ [Seen i]).
    + exists [Thr i]. split; [by apply inv_reserve|exact Hl].
Qed.

(** *** The other operations *)
Lemma fence_ok v w w' v' : fence_stale_submission v w = (w', TOk v') ->
  v' = v \/ empty_str (wj_external_job_id v') = true.
Proof.
  unfold fence_stale_submission. destruct (waiting_for_handle v) eqn:Hw; simpl; [|intros [= _ <-]; by left].
  intros Hf. apply io_bind_ok in Hf as (w1 & x & _ & Hf). case_match; [injection Hf as _ <-; by left|].
  apply io_bind_ok in Hf as (w2 & y & Hp & Hf). apply io_bind_ok in Hf as (w3 & [] & _ & [= _ <-]).
  apply persist_ok in Hp as ->. right. destruct (trimmed_core (lost_submission v)) as (_ & _ & He & _).
  unfold waiting_for_handle in Hw. apply andb_true_iff in Hw as [_ Hw].
  match goal with |- context [trimmed ?x] => destruct (trimmed_core x) as (_ & _ & -> & _) end. exact Hw.
Qed.
Lemma fence_id v w w' v' : fence_stale_submission v w = (w', TOk v') -> wj_id v' = wj_id v.
Proof.
  unfold fence_stale_submission. case_match; [by intros [= _ <-]|]. intros Hf. apply io_bind_ok in Hf as (w1 & x & _ & Hf).
  case_match; [by injection Hf as _ <-|]. apply io_bind_ok in Hf as (w2 & y & Hp & Hf).
  apply io_bind_ok in Hf as (w3 & [] & _ & [= _ <-]). apply persist_ok in Hp as ->.
  match goal with |- context [trimmed ?x] => by destruct (trimmed_core x) as (-> & _) end.
Qed.
Lemma calm_past v w w' : jobs_wf w -> calm w w' -> past v w -> past v w'.
Proof.
  intros Hw Hc Hp v' Hv'. destruct (blank v') eqn:Hb; [|done].
  destruct (calm_tame _ _ Hc Hw (wj_id v)) as [_ Ht]. destruct (Ht v' Hv') as [_ Hbl].
  destruct (Hbl Hb) as (x & Hx & Hxb). by rewrite (Hp x Hx) in Hxb.
Qed.
Lemma fine_refresh i t : fine (refresh i) t.
Proof.
  unfold refresh.
  apply (ok_block _ _ _ (fun r => Past r.1 :: t)); [| |done|].
  - calm_step. apply from_then; [|intros v'; by calmly]. apply (from_weaken _ (known v)); [|apply calm_fence].
    intros w Hw Hv. by eapply stored_known.
  - intros w w' [v' needs] Hw Hw' Hc Hr F Hi. apply io_bind_ok in Hr as (w1 & v & Hj & Hr).
    apply io_bind_ok in Hr as (w2 & v2 & Hf & Hr). apply io_bind_ok in Hr as (w3 & x & Hl & [= <- <- <-]).
    apply job_ok in Hj. simpl. destruct (Hw _ _ Hj) as [Hid _]. pose proof (fence_id _ _ _ _ Hf) as Hid'.
    apply inv_past; [|intros He|done].
    + rewrite Hid', Hid. apply (calm_tame _ _ Hc Hw). by eapply stored_present.
    + eapply calm_past; [exact Hw|exact Hc|]. apply fence_ok in Hf as [->|Hx]; [|congruence].
      intros y Hy. rewrite Hid, Hj in Hy. injection Hy as <-. unfold blank. by rewrite He, andb_false_r.
  - intros [v needs]. simpl. fine_step; [exact I|].
    apply (ok_sub _ [Past v]); [done|by apply (submseteq_inserts_r t [Past v] [Past v])|apply fine_reconcile].
Qed.
Lemma fine_spawn (p : Prog unit) t : fine p [] -> fine (spawn p) t.
Proof. intros Hp. exists [], t. split_and!; [done|exact Hp|exact I]. Qed.
Lemma fine_ask i v t : fine (ask_worker i v) t.
Proof. unfold ask_worker. cbv zeta. fine_steps. apply fine_spawn. by fine_steps. Qed.
Lemma fine_cancel depth st reason : st = JCancelled \/ st = JTimedOut -> forall i, fine (cancel depth i st reason) [].
Proof.
  intros Hst. induction depth as [|depth IH]; intros i; cbn [cancel]; [exact I|].
  fine_step; [by apply fine_atomic, calm_request_cancel|]. fine_step; [|exact I].
  apply fine_bind; [apply fine_ask|]. intros [b failure]. fine_step; [by fine_steps|]. fine_step; [exact I|].
  fine_step; [by fine_steps|]. apply fine_iter. intros j _. fine_step; [exact I|]. fine_step; [apply IH|exact I].
Qed.
Lemma fine_handle_interaction q t : fine (handle_interaction q) t.
Proof. unfold handle_interaction. fine_steps. Qed.
Lemma fine_receive e t : fine (receive e) t.
Proof. unfold receive. fine_steps. Qed.
End Tasks.
