(* ===== verification/Retries.v ===== *)
(** * Submissions of the worker manager and the recovery of transports

    Every operation of the manager hands a job to a transport at most once, and hands it over again
    ([CSubmit _ true _], [retry_submit] of the adapter) only when the metadata it read last of that worker says
    that the transport recovers submissions.  [tells] follows a program with what it has learned: whether
    it may still submit, and which workers recover. *)

From S2P Require Import Prelude Json Types Text Pipeline Access Db Coordination Codec Worker Store Rows Effects Threads Manager Submission Interactions.

Section Retries.
Context `{L : JsonLib} {E : ManagerEnv} {config : ManagerConfig}.
Abbreviation MProg := (Prog (W := Mgr) (answer := answer)).

(** What an answer says of the workers. *)
Definition learn (c : ACall) (R : string -> Prop) : tres (answer c) -> string -> Prop :=
  match c return tres (answer c) -> string -> Prop with
  | CMetadata worker => fun r w =>
      match r with
      | TOk m => if String.eqb w worker then supports_recovery m = true else R w
      | TThrow _ => R w
      end
  | _ => fun _ => R
  end.
(** The submission [c] is in order: nothing was submitted before, and a repetition is recoverable. *)
Definition submits (c : ACall) : bool := match c with CSubmit _ _ _ => true | _ => false end.
Definition in_order (c : ACall) (fresh : bool) (R : string -> Prop) : Prop :=
  match c with CSubmit worker retry _ => fresh = true /\ (retry = true -> R worker) | _ => True end.
Fixpoint tells {A : Type} (p : MProg A) (fresh : bool) (R : string -> Prop) (Q : bool -> (string -> Prop) -> A -> Prop) : Prop :=
  match p with
  | Done a => Q fresh R a
  | Block _ f => forall b, tells (f b) fresh R Q
  | Call c f => in_order c fresh R /\ forall r, tells (f r) (fresh && negb (submits c)) (learn c R r) Q
  | Spawn q f => tells q true (fun _ => False) (fun _ _ _ => True) /\ tells f fresh R Q
  end.
(** A program that starts without having submitted and without knowing any worker. *)
Definition recovers_only {A : Type} (p : MProg A) : Prop := tells p true (fun _ => False) (fun _ _ _ => True).

Lemma tells_prog {A B : Type} (p : MProg A) (f : A -> MProg B) Q : forall fresh R,
  tells p fresh R (fun fresh R a => tells (f a) fresh R Q) -> tells (prog_bind p f) fresh R Q.
Proof.
  induction p as [A a|A B' b k IH|A c k IH|A q _ k IH]; intros fresh R Hp; simpl in *; [done|..].
  - intros x. by apply IH.
  - destruct Hp as [Ho Hp]. split; [done|]. intros r. by apply IH.
  - destruct Hp as [Hq Hp]. split; [done|]. by apply IH.
Qed.
Lemma tells_mono {A : Type} (p : MProg A) (Q Q' : bool -> (string -> Prop) -> A -> Prop) : forall fresh R,
  (forall fresh R a, Q fresh R a -> Q' fresh R a) -> tells p fresh R Q -> tells p fresh R Q'.
Proof.
  induction p as [A a|A B' b k IH|A c k IH|A q _ k IH]; intros fresh R HQ Hp; simpl in *; [auto|..].
  - intros x. eapply IH; [exact HQ|apply Hp].
  - destruct Hp as [Ho Hp]. split; [done|]. intros r. eapply IH; [exact HQ|apply Hp].
  - destruct Hp as [Hq Hp]. split; [done|]. eapply IH; [exact HQ|apply Hp].
Qed.

(** Programs that submit nothing. *)
Definition quiet {A : Type} (p : MProg A) : Prop := forall fresh R, tells p fresh R (fun fresh' _ _ => fresh' = fresh).
Lemma tells_quiet {A B : Type} (p : MProg A) (f : A -> MProg B) fresh R Q :
  quiet p -> (forall R a, tells (f a) fresh R Q) -> tells (prog_bind p f) fresh R Q.
Proof. intros Hp Hf. apply tells_prog. eapply tells_mono; [|apply Hp]. intros ? R' a ->. apply Hf. Qed.
Lemma quiet_prog {A B : Type} (p : MProg A) (f : A -> MProg B) : quiet p -> (forall a, quiet (f a)) -> quiet (prog_bind p f).
Proof. intros Hp Hf fresh R. apply tells_quiet; [done|]. intros R' a. apply Hf. Qed.
Lemma quiet_bind {A B : Type} (m : MTask A) (f : A -> MTask B) : quiet m -> (forall a, quiet (f a)) -> quiet (m ≫= f).
Proof. intros Hm Hf. apply quiet_prog; [done|]. intros [a|x]; [apply Hf|done]. Qed.
Lemma quiet_done {A : Type} (a : A) : quiet (Done a).
Proof. done. Qed.
Lemma quiet_atomic {A : Type} (m : MIO A) : quiet (atomic m : MTask A).
Proof. by intros fresh R b. Qed.
Lemma quiet_call c : submits c = false -> quiet (call c : MTask _).
Proof. intros Hc fresh R. split; [by destruct c|]. intros r. simpl. by rewrite Hc, andb_true_r. Qed.
Lemma quiet_spawn (p : Prog unit) : quiet p -> quiet (spawn p : MTask unit).
Proof. intros Hp fresh R. split; [|done]. by eapply tells_mono; [|apply Hp]. Qed.
Lemma quiet_iter {A : Type} (f : A -> MTask unit) l : (forall x, quiet (f x)) -> quiet (task_iter f l).
Proof. intros Hf. induction l as [|x l IH]; [done|]. simpl. apply quiet_bind; [apply Hf|done]. Qed.
Lemma quiet_recovers {A : Type} (p : MProg A) : quiet p -> recovers_only p.
Proof. intros Hp. by eapply tells_mono; [|apply Hp]. Qed.

Create HintDb quiet_db.
Ltac hush :=
  repeat lazymatch goal with
  | |- quiet (mbind _ _) => apply quiet_bind; [|intros ?]
  | |- quiet (prog_bind _ _) => apply quiet_prog; [|intros ?]
  | |- quiet (task_catch _ _) => unfold task_catch
  | |- quiet (task_handle _ _) => unfold task_handle
  | |- quiet (task_quiet _) => unfold task_quiet
  | |- quiet (attempt_call _ _ _) => unfold attempt_call
  | |- quiet (answered _) => unfold answered
  | |- quiet (task_guard _ _ _) => apply quiet_done
  | |- quiet (task_lift _) => apply quiet_done
  | |- quiet (task_throw _) => apply quiet_done
  | |- quiet (mret _) => apply quiet_done
  | |- quiet (Done _) => apply quiet_done
  | |- quiet (atomic _) => apply quiet_atomic
  | |- quiet (call _) => by apply quiet_call
  | |- quiet (spawn _) => apply quiet_spawn
  | |- quiet (task_iter _ _) => apply quiet_iter; intros ?
  | |- quiet (task_when _ _) => unfold task_when
  | |- quiet (match _ with _ => _ end) => case_match
  | |- quiet _ => first [solve [eauto with quiet_db] | progress cbv beta iota zeta]
  end.

(** *** Operations that do not submit *)

Lemma quiet_record i s worker : quiet (record_submission i s worker).
Proof. unfold record_submission. hush. Qed.
Lemma quiet_reconcile v b : quiet (reconcile v b).
Proof. unfold reconcile, reconcile_status. hush. Qed.
Lemma quiet_probe b l : quiet (probe b l).
Proof. unfold probe. hush. apply quiet_reconcile. Qed.
Lemma quiet_providers c l : forall r, quiet (providers c r l).
Proof. induction l as [|x l IH]; intros r; cbn [providers]; hush; apply IH. Qed.
Lemma quiet_resolve w c : quiet (resolve_worker w c).
Proof. unfold resolve_worker. hush. apply quiet_providers. Qed.
Lemma quiet_settled b e : quiet (settled_submission b e).
Proof. unfold settled_submission. hush. Qed.
Lemma quiet_transport_error i b msg : quiet (transport_error_handler i b msg).
Proof. unfold transport_error_handler, await_cancellation. hush. Qed.
Lemma quiet_job_error i msg : quiet (job_error_handler i msg).
Proof. unfold job_error_handler. hush. Qed.
Lemma quiet_refresh i : quiet (refresh i).
Proof. unfold refresh. hush. apply quiet_reconcile. Qed.
Lemma quiet_cancel depth st reason : forall i, quiet (cancel depth i st reason).
Proof. induction depth as [|depth IH]; intros i; cbn [cancel]; [done|]. unfold ask_worker. hush; apply IH. Qed.
Lemma quiet_handle_interaction q : quiet (handle_interaction q).
Proof. unfold handle_interaction. hush. Qed.
Lemma quiet_receive e : quiet (receive e).
Proof. unfold receive. hush. Qed.
Lemma quiet_check_stopped : quiet check_stopped.
Proof. unfold check_stopped. hush. Qed.

(** *** Submissions *)

Lemma tells_bind {A B : Type} (m : MTask A) (f : A -> MTask B) fresh R Q :
  quiet m -> (forall R x, Q fresh R (TThrow x)) -> (forall R a, tells (f a) fresh R Q) -> tells (m ≫= f) fresh R Q.
Proof. intros Hm Hx Hf. apply tells_quiet; [done|]. intros R' [a|x]; [apply Hf|apply Hx]. Qed.
(** Handing a job over is the one submission; what follows it submits nothing. *)
Lemma tells_hand_over retry q i worker R Q : (retry = true -> R worker) ->
  (forall fresh R a, Q fresh R a) -> tells (hand_over retry q i worker) true R Q.
Proof.
  intros HR HQ. intros b. simpl. destruct b as [q'|x]; [|apply HQ]. split; [done|]. intros [s|x]; [|apply HQ].
  eapply tells_mono; [|apply quiet_record]. intros fresh R' a ->. apply HQ.
Qed.
Lemma tells_handled {A : Type} (m : MTask A) (h : texn -> MTask A) R Q :
  (forall Q', (forall fresh R a, Q' fresh R a) -> tells m true R Q') -> (forall x, quiet (h x)) ->
  (forall fresh R a, Q fresh R a) -> tells (task_handle m h) true R Q.
Proof.
  intros Hm Hh HQ. apply tells_prog, Hm. intros b R' [a|x]; [apply HQ|].
  eapply tells_mono; [|apply Hh]. intros ? ? a ->. apply HQ.
Qed.
Lemma tells_resubmit q i worker R Q : R worker -> (forall fresh R a, Q fresh R a) -> tells (resubmit q i worker) true R Q.
Proof.
  intros HR HQ. apply tells_handled; [|intros x; hush; first [apply quiet_transport_error|apply quiet_job_error]|done].
  intros Q' HQ'. by apply tells_hand_over.
Qed.
Lemma tells_dispatch q i worker R Q : (forall fresh R a, Q fresh R a) -> tells (dispatch q i worker) true R Q.
Proof.
  intros HQ. unfold dispatch. apply tells_bind; [apply quiet_atomic|done|]. intros R1 pending. case_match; [apply HQ|].
  apply tells_prog, tells_handled.
  - intros Q' HQ'. by apply tells_hand_over.
  - intros x. hush; first [apply quiet_transport_error|apply quiet_job_error].
  - intros b R0 [u|x]; [intros b'; apply HQ|apply HQ].
Qed.
(** [available] returns the metadata it read last. *)
Lemma tells_available worker R Q : (forall R x, Q true R (TThrow x)) ->
  (forall (R : string -> Prop) m, (supports_recovery m = true -> R worker) -> Q true R (TOk m)) ->
  tells (available worker) true R Q.
Proof.
  intros HX HQ. unfold available. split; [done|]. intros [m|x]; [|apply HX]. cbn [andb negb submits].
  set (R1 := learn (CMetadata worker) R (TOk m)).
  assert (H1 : supports_recovery m = true -> R1 worker). { unfold R1. simpl. by rewrite String.eqb_refl. }
  clearbody R1. clear R.
  assert (Hend : forall (R : string -> Prop) m, (supports_recovery m = true -> R worker) ->
    tells ((recoverable ← (if String.eqb (wm_status m) "failed" then restores m worker else mret false);
            _ ← task_guard (negb (enabled m) || out_of_service m || (negb (healthy m) && negb recoverable))
                  Capacity "Worker is unavailable"; mret m) : MTask WorkerMetadata) true R Q).
  { intros R0 m0 H0. assert (Hg : forall b : bool, tells ((_ ← task_guard b Capacity "Worker is unavailable"; mret m0)
      : MTask WorkerMetadata) true R0 Q) by (intros []; simpl; auto).
    case_match; [unfold restores; case_match|]; try apply Hg.
    split; [done|]. intros [b|x]; [apply Hg|apply HX]. }
  change (tells ((restorable ← restores m worker;
    metadata ← (if restorable && negb (healthy m) && negb (out_of_service m) then
                prog_bind (_ ← call (CStart worker); call (CMetadata worker)) (fun r =>
                Done (TOk (match r with TOk m => m | TThrow _ => m end)))
              else mret m);
    recoverable ← (if String.eqb (wm_status metadata) "failed" then restores metadata worker else mret false);
    _ ← task_guard (negb (enabled metadata) || out_of_service metadata || (negb (healthy metadata) && negb recoverable))
          Capacity "Worker is unavailable";
    mret metadata) : MTask WorkerMetadata) true R1 Q).
  assert (Hmid : forall restorable : bool, tells ((
    metadata ← (if restorable && negb (healthy m) && negb (out_of_service m) then
                prog_bind (_ ← call (CStart worker); call (CMetadata worker)) (fun r =>
                Done (TOk (match r with TOk m => m | TThrow _ => m end)))
              else mret m);
    recoverable ← (if String.eqb (wm_status metadata) "failed" then restores metadata worker else mret false);
    _ ← task_guard (negb (enabled metadata) || out_of_service metadata || (negb (healthy metadata) && negb recoverable))
          Capacity "Worker is unavailable";
    mret metadata) : MTask WorkerMetadata) true R1 Q).
  { intros restorable. case_match; [|by apply Hend]. split; [done|]. intros [u|x]; [|by apply Hend].
    split; [done|]. intros [m'|x]; [|by apply Hend]. apply Hend. simpl. by rewrite String.eqb_refl. }
  unfold restores. case_match; [apply Hmid|]. split; [done|]. intros [b|x]; [apply Hmid|apply HX].
Qed.
Lemma tells_submit_body q a i0 i worker R : tells (submit_body q a i0 i worker) true R (fun _ _ _ => True).
Proof.
  unfold submit_body.
  do 4 (apply tells_bind; [hush; try apply quiet_settled|done|]; intros ? ?).
  assert (Hav : forall R (f : WorkerMetadata -> MTask WorkerJob),
    (forall (R : string -> Prop) m, (supports_recovery m = true -> R worker) -> tells (f m) true R (fun _ _ _ => True)) ->
    tells (available worker ≫= f) true R (fun _ _ _ => True)).
  { intros R' f Hf. apply tells_prog, tells_available; [done|]. intros ? m Hm. by apply Hf. }
  case_match; [done|]. case_match.
  - case_match; [intros b; done|]. apply Hav. intros R' m Hm. case_match; [by apply tells_dispatch|].
    unfold submit_existing. case_match; [eapply tells_mono; [|apply quiet_reconcile]; done|].
    destruct (supports_recovery m); simpl; [|intros b; done]. apply tells_resubmit; auto.
  - apply Hav. intros R' m _. unfold submit_new.
    apply tells_bind; [unfold probe_worker; hush; apply quiet_probe|done|]. intros ? _.
    apply tells_bind; [apply quiet_atomic|done|]. intros ? [v|v]; [done|by apply tells_dispatch].
Qed.
Lemma tells_submit_impl q a i0 R : tells (submit_impl q a i0) true R (fun _ _ _ => True).
Proof.
  unfold submit_impl. do 4 (apply tells_bind; [hush; first [apply quiet_check_stopped|apply quiet_resolve|idtac]|done|]; intros ? ?).
  apply tells_prog. eapply tells_mono; [|apply tells_submit_body]. intros fresh R' r _ u. done.
Qed.
Lemma recovers_async q i : recovers_only (async_submission q i).
Proof.
  unfold recovers_only, async_submission. apply tells_prog. eapply tells_mono; [|apply tells_submit_impl].
  intros fresh R r _. eapply tells_mono; [|apply quiet_prog; [|intros a]]; [done|unfold thread_failed; hush|].
  intros fresh' R' b b'. done.
Qed.
Lemma recovers_submit q : recovers_only (submit q).
Proof. apply tells_submit_impl. Qed.
Lemma recovers_submit_async q : recovers_only (submit_async q).
Proof.
  unfold recovers_only, submit_async.
  do 4 (apply tells_bind; [hush; first [apply quiet_check_stopped|apply quiet_resolve|idtac]|done|]; intros ? ?).
  apply tells_prog, tells_available; [done|]. intros ? m _.
  apply tells_bind; [unfold probe_remote; hush; apply quiet_probe|done|]. intros ? _.
  apply tells_bind; [apply quiet_atomic|done|]. intros ? [v|[v b]]; [done|]. unfold launch.
  apply tells_bind; [hush|done|]. intros ? owned. case_match; [done|]. split; [done|]. intros [u|x].
  - split; [apply recovers_async|done].
  - cbn [prog_bind]. eapply tells_mono; [|match goal with |- tells ?p _ _ _ => assert (Hq : quiet p) by hush; apply Hq end]. done.
Qed.
End Retries.
