(* ===== verification/ManagerClaims.v ===== *)
(** * Properties of the worker manager

    The operations of one manager as threads of a pool: any number of submissions, refreshes,
    cancellations, interactions and events at once, with other components changing the database beside
    them and restarts of the process in between. *)

From S2P Require Import Prelude Json Types Text Pipeline Access Db Coordination Codec Worker Store Rows Effects Threads Manager Submission Interactions Quiet Calm Tickets Dispatch Retries.
From Stdlib Require Import SpecFloat.

Section Pool.
Context `{L : JsonLib} {E : ManagerEnv} {config : ManagerConfig}.

(** A thread of the manager runs one operation and drops its result. *)
Definition entry {A} (m : MTask A) : Prog (W := Mgr) (answer := answer) unit := prog_bind m (fun _ => Done tt).
Inductive manager_thread : Prog (W := Mgr) (answer := answer) unit -> Prop :=
  | run_submit q : manager_thread (entry (submit q))
  | run_submit_async q : manager_thread (entry (submit_async q))
  | run_refresh i : manager_thread (entry (refresh i))
  | run_cancel depth i st reason : st = JCancelled \/ st = JTimedOut ->
      manager_thread (entry (cancel depth i st reason))
  | run_handle_interaction q : manager_thread (entry (handle_interaction q))
  | run_resolve_interaction i st payload actor reason :
      manager_thread (entry (atomic (resolve_interaction i st payload actor reason)))
  | run_receive e : manager_thread (entry (receive e))
  | run_stop : manager_thread (entry (atomic (io_modify stop))).

(** The other components of a service do not write worker jobs and interactions.  This is the single instance:
    a second instance on the same schema has a manager of its own, whose writes these mutexes do not order. *)
Definition other_components (w w' : Mgr) : Prop :=
  exists db, w' = w <| mg_db := db |> /\ forall k, k = KWorkerJob \/ k = KWorkerInteraction ->
    forall i, kind_row k db i = kind_row k (mg_db w) i.
Definition manager_step := pool_step note manager_thread other_components restart.
Definition new_manager (db : DB) : Mgr := mkMgr db 0 ∅ ∅ ∅ false [] [] [] [].
End Pool.

Section AtMostOnce.
Context `{L : JsonLib} {HL : JsonLaws L} {E : ManagerEnv} {config : ManagerConfig}.

Lemma manager_thread_ok p : manager_thread p -> wp note Inv any_end p [] (fun _ => any_end).
Proof.
  assert (He : forall A (m : MTask A), wp note Inv any_end m [] no_matter -> wp note Inv any_end (entry m) [] (fun _ => any_end)).
  { intros A m Hm. unfold entry. by apply fine_prog. }
  intros Hp. destruct Hp; apply He.
  - apply fine_submit.
  - apply fine_submit_async.
  - apply fine_refresh.
  - by apply fine_cancel.
  - apply fine_handle_interaction.
  - apply fine_still, still_resolve.
  - apply fine_receive.
  - by apply fine_still, still_modify.
Qed.
Lemma other_ok w w' T : other_components w w' -> Inv w T -> Inv w' T.
Proof. intros (db & -> & Hdb). apply inv_calm, still_calm. split; [done|]. intros i. apply Hdb. by left. Qed.
Lemma new_manager_inv db : jobs_wf (new_manager db) -> Inv (new_manager db) [].
Proof. intros Hw. apply inv_no_threads; [done|done|]. intros i. split; [simpl; unfold occurrences; simpl; lia|]. intros _. simpl. set_solver. Qed.
Lemma manager_pool_ok db s : jobs_wf (new_manager db) -> rtc manager_step (new_manager db, []) s -> pool_ok note Inv any_end s.
Proof.
  intros Hw Hs. eapply pool_sound; [apply inv_perm|apply manager_thread_ok|exact other_ok|apply inv_restart|exact Hs|].
  exists []. split; [constructor|]. by apply new_manager_inv.
Qed.
End AtMostOnce.

(** Every thread submits at most once, and again only what a transport recovers. *)
Lemma manager_thread_recovers `{L : JsonLib} {E : ManagerEnv} {config : ManagerConfig} p :
  manager_thread p -> recovers_only p.
Proof.
  assert (He : forall A (m : MTask A), recovers_only m -> recovers_only (entry m)).
  { intros A m Hm. unfold entry, recovers_only. apply tells_prog. eapply tells_mono; [|exact Hm]. done. }
  intros Hp. destruct Hp; apply He.
  - apply recovers_submit.
  - apply recovers_submit_async.
  - apply quiet_recovers, quiet_refresh.
  - apply quiet_recovers, quiet_cancel.
  - apply quiet_recovers, quiet_handle_interaction.
  - apply quiet_recovers, quiet_atomic.
  - apply quiet_recovers, quiet_receive.
  - apply quiet_recovers, quiet_atomic.
Qed.

(** C7: how often one manager hands a job to its transport.  Whatever its threads do, with any answers of the
    workers, failures of the store, activity of the other components (none of which writes worker jobs) and
    restarts of the process: the initial submissions of a job that reach a transport are at most one more
    than the dispatch threads of that job that ended while it was still waiting for its first handle (which
    takes a storage failure).  Beyond these a job reaches a transport only as a retry: every operation makes at
    most one submission, initial or not, and a retry only to a worker whose metadata, as the operation has
    read it last, declares that it recovers submissions.  Such a retry may be repeated by every new [submit]. *)
Theorem submitted_at_most_once `{L : JsonLib} {HL : JsonLaws L} {E : ManagerEnv} {config : ManagerConfig} db w T i :
  jobs_wf (new_manager db) -> rtc manager_step (new_manager db, []) (w, T) ->
  (occurrences i (submitted w) <= 1 + occurrences i (deferred w))%nat
  /\ (forall p, manager_thread p -> recovers_only p).
Proof.
  intros Hw Hs. split; [|intros p; apply manager_thread_recovers].
  destruct (manager_pool_ok db _ Hw Hs) as (ts & _ & [_ [B Hi]]).
  pose proof (ia_once _ _ _ _ (Hi i)) as H1. unfold handed, given_up in H1. simpl in H1. lia.
Qed.

(** The identifier of a job is a valid one: whatever the idempotency key, [durable_job_id] yields an
    identifier that [job] accepts, of at most 23 characters. *)
Theorem durable_job_id_bounded key :
  bounded_identifier (durable_job_id key) max_job_id_bytes = true /\ size_of (durable_job_id key) <= 23.
Proof.
  unfold durable_job_id, bounded_identifier. set (digits := hex_digits 16 (fnv_hash key) []).
  assert (Hlen : (length digits <= 16)%nat) by (etransitivity; [apply hex_digits_length|simpl; lia]).
  assert (Hall : forallb is_alnum digits = true) by by apply hex_digits_alnum.
  assert (Hchars : chars_of ("worker-" ++ of_chars digits) = chars_of "worker-" ++ digits).
  { unfold chars_of, of_chars. simpl. do 7 f_equal. apply chars_of_of_chars. }
  assert (Hsize : size_of ("worker-" ++ of_chars digits) <= 23).
  { unfold size_of. rewrite <- length_chars_of, Hchars, length_app. simpl. lia. }
  split; [|exact Hsize]. rewrite !andb_true_iff, Hchars, forallb_app, andb_true_iff. split_and!; [done|unfold max_job_id_bytes; lia|done|].
  rewrite forallb_forall in Hall |- *. intros c Hc. by rewrite Hall.
Qed.

(** *** A run of the manager *)
#[local] Existing Instance strict_json.
#[local] Instance sample_env : ManagerEnv := {|
  mg_uuid := fun n => "id"%string; mg_timestamp := fun n => "2026-01-01T00:00:00.000Z"%string; mg_ok := fun _ => true |}.
#[local] Instance sample_limits : ManagerConfig := mkManagerConfig 8 4 8 0 0 (S754_zero false) None.
Definition sample_worker : WorkerMetadata :=
  mkWorkerMetadata "w" "w" "1" "" "" "" "" "healthy" [] true false true true true false true.
Definition sample_answer (c : ACall) : tres (answer c) :=
  match c with
  | CNames => TOk ["w"%string]
  | CMetadata _ => TOk sample_worker
  | CRestartable _ => TOk false
  | CSubmit _ _ q => TOk (mkSubmission "ext-1" JRunning (JObject []) empty_usage JNull [] "" None)
  | CStatus _ _ | CResult _ _ => TThrow TStd
  | CCancel _ _ | CCancelPending _ _ => TOk false
  | CGet _ | CStart _ | CLaunch | CWait => TOk tt
  end.
Definition sample_request : WorkerRequest :=
  mkRequest "" "w" "" "task" "" "key-1" "" "" "" "" "" "" "" "" 1 0 (JObject []) JNull (JObject []) [] false None None None.
Definition sample_job_id : string := durable_job_id "key-1".
Definition sample_end : Mgr * list (Prog unit) :=
  drive note 200 sample_answer (new_manager empty_db) (entry (submit_async sample_request)) [].

Lemma submitted_at_most_once_witness :
  occurrences sample_job_id (submitted sample_end.1) = 1%nat /\ deferred sample_end.1 = [] /\
  ((occurrences sample_job_id (submitted sample_end.1) <= 1 + occurrences sample_job_id (deferred sample_end.1))%nat
   /\ forall p, manager_thread p -> recovers_only p).
Proof.
  split; [vm_compute; reflexivity|]. split; [vm_compute; reflexivity|].
  apply (submitted_at_most_once empty_db sample_end.1 sample_end.2).
  - intros i v Hv. vm_compute in Hv. discriminate Hv.
  - rewrite <- surjective_pairing. apply drive_start. apply run_submit_async.
Defined.
