(* ===== verification/Decisions.v ===== *)
(** * Decisions on interactions

    Which blocks of the worker manager write interactions, and that a decided interaction keeps its
    decision in every interleaving. *)

From S2P Require Import Prelude Json Types Text Pipeline Access Db Coordination Codec Worker Store Rows Effects Threads Manager Submission Interactions Quiet Calm Tickets Dispatch ManagerClaims.

Abbreviation interaction_row := (kind_row KWorkerInteraction).

Section Unchanged.
Context `{L : JsonLib} {HL : JsonLaws L} {E : ManagerEnv} {config : ManagerConfig}.

Definition unasked (w w' : Mgr) : Prop := forall i, interaction_row (mg_db w') i = interaction_row (mg_db w) i.
#[global] Instance unasked_preorder : PreOrder unasked.
Proof. split; [done|]. intros a b c Ha Hb i. by rewrite Hb. Qed.
Lemma unasked_call : Always unasked m_call.
Proof. by intros w. Qed.
Lemma unasked_now : Always unasked m_now.
Proof. by intros w. Qed.
Lemma unasked_modify f : (forall w, mg_db (f w) = mg_db w) -> Always unasked (io_modify f).
Proof. intros Hf w i. simpl. by rewrite Hf. Qed.
Lemma store_interactions {A} B (m : M DB A) w : MRows KWorkerInteraction B m ->
  row_steps KWorkerInteraction B (mg_db w) (mg_db (m_store m w).1).
Proof.
  intros Hm. unfold m_store, m_call, mbind, io_bind. cbn -[mg_ok]. destruct (mg_ok _); [|reflexivity]. simpl.
  specialize (Hm (mg_db w)). by destruct (m (mg_db w)) as [db r].
Qed.
Lemma unasked_store {A} (m : M DB A) : MRows KWorkerInteraction (fun _ _ => False) m -> Always unasked (m_store m).
Proof. intros Hm w i. by destruct (store_interactions _ m w Hm i) as [|(? & ? & ? & _ & [])]. Qed.
Lemma unasked_get k i : Always unasked (m_get k i).
Proof. apply unasked_store, mrows_get. Qed.
Lemma unasked_list k run_id limit offset : Always unasked (m_list k run_id limit offset).
Proof. apply unasked_store, mrows_list. Qed.
Lemma unasked_commit v : Always unasked (m_commit [job_record v]).
Proof.
  unfold m_commit. apply always_bind; [apply _|apply unasked_call|]. intros n.
  apply unasked_store, mrows_commit. by intros rc [->|[]%elem_of_nil]%elem_of_cons [=].
Qed.
Lemma unasked_claim v : Always unasked (m_claim (job_record v)).
Proof. by apply unasked_store, mrows_claim. Qed.
Lemma unasked_attempt {A} v (m : MIO A) k : Always unasked m -> (forall a, Always unasked (k a)) -> Always unasked (attempt_ v m k).
Proof.
  intros Hm Hk w. unfold attempt_. specialize (Hm w). destruct (m w) as [w1 [a|x]]; [|done].
  etransitivity; [exact Hm|apply Hk].
Qed.
End Unchanged.

Create HintDb unasked.
#[export] Hint Resolve unasked_call unasked_now unasked_get unasked_list unasked_commit unasked_claim always_ret always_lift
  always_get : unasked.
#[export] Hint Extern 2 (PreOrder _) => apply _ : unasked.
#[export] Hint Extern 2 (Always unasked (io_modify _)) => (apply unasked_modify; intros ?; repeat case_match; reflexivity) : unasked.
Ltac unasked_step :=
  cbv zeta; first
    [ solve [eauto 2 with unasked]
    | lazymatch goal with
      | |- Always _ (_ ≫= _) => apply always_bind; [apply _| |intros ?]
      | |- Always _ (attempt_ _ _ _) => apply unasked_attempt; [|intros ?]
      | |- Always _ (io_iter _ _) => apply always_iter; [apply _|intros ?]
      | |- Always _ (io_catch _ _) => apply always_catch; [apply _| |intros ?]
      | |- Always _ (io_catch_all _ _) => apply always_catch_all; [apply _| |]
      | |- Always _ (or_absent _) => unfold or_absent
      | |- Always _ (match ?x with _ => _ end) => destruct x eqn:?
      end ].
Ltac unasked_steps := repeat unasked_step.

Section Jobs.
Context `{L : JsonLib} {HL : JsonLaws L} {E : ManagerEnv} {config : ManagerConfig}.
Lemma unasked_guard b c msg : Always unasked (io_guard b c msg : MIO unit).
Proof. apply always_lift; apply _. Qed.
Lemma unasked_job i : Always unasked (job i).
Proof. unfold job, io_guard. unasked_steps. Qed.
Lemma unasked_persist v : Always unasked (persist v).
Proof. unfold persist. unasked_steps. Qed.
Lemma unasked_persist_kept v : Always unasked (persist_kept v).
Proof. unfold persist_kept. unasked_steps. Qed.
Lemma unasked_budget v : Always unasked (budget_violation v).
Proof. unfold budget_violation. unasked_steps. Qed.
Hint Resolve unasked_guard unasked_job unasked_persist unasked_persist_kept unasked_budget : unasked.
Lemma unasked_fence v : Always unasked (fence_stale_submission v).
Proof. unfold fence_stale_submission. unasked_steps. Qed.
Hint Resolve unasked_fence : unasked.
Lemma unasked_fences : Always unasked fence_stale_submissions.
Proof. unfold fence_stale_submissions. unasked_steps. Qed.
Lemma unasked_retires : Always unasked retire_superseded_jobs.
Proof. unfold retire_superseded_jobs, retire_superseded_job. unasked_steps. Qed.
Lemma unasked_finalize i : Always unasked (finalize_pending_cancellation i).
Proof. unfold finalize_pending_cancellation, forget_signal. unasked_steps. Qed.
Lemma unasked_record_handle i s : Always unasked (record_handle i s).
Proof. unfold record_handle, forget_signal. unasked_steps. Qed.
Lemma unasked_record_cancelled i b : Always unasked (record_cancelled i b).
Proof. unfold record_cancelled. unasked_steps. Qed.
Lemma unasked_retrieve v s : Always unasked (retrieve_result v s).
Proof. unfold retrieve_result. unasked_steps. Qed.
Lemma unasked_forget_job v : Always unasked (forget_job v).
Proof. unfold forget_job. unasked_steps. Qed.
Lemma unasked_apply_status v s r : Always unasked (apply_status v s r).
Proof. unfold apply_status. unasked_steps. Qed.
Lemma unasked_transport_failed v msg : Always unasked (transport_failed v msg).
Proof. unfold transport_failed. unasked_steps. Qed.
Lemma unasked_fail_job kind st msg v : Always unasked (fail_job kind st msg v).
Proof. unfold fail_job. unasked_steps. Qed.
Hint Resolve unasked_fences unasked_retires unasked_fail_job : unasked.
Lemma unasked_owned q worker i : Always unasked (owned_job q worker i).
Proof. unfold owned_job. unasked_steps. Qed.
Lemma unasked_capacity worker : Always unasked (check_capacity worker).
Proof. unfold check_capacity. unasked_steps. Qed.
Lemma unasked_parent q : Always unasked (check_parent_job q).
Proof. unfold check_parent_job, io_throw. unasked_steps. Qed.
Hint Resolve unasked_owned unasked_capacity unasked_parent : unasked.
Lemma unasked_create q i worker cp : Always unasked cp -> Always unasked (create_job q i worker cp).
Proof. intros Hcp. unfold create_job. unasked_steps. Qed.
Lemma unasked_create_submission q i worker : Always unasked (create_submission q i worker).
Proof.
  unfold create_submission. unasked_step; [unasked_steps|]. unasked_step; [unasked_steps|].
  unasked_step; [apply unasked_create; unasked_steps|unasked_steps].
Qed.
Lemma unasked_existing_async q worker i : Always unasked (existing_async q worker i).
Proof. unfold existing_async, dispatching. unasked_steps. Qed.
Lemma unasked_reserve i : Always unasked (reserve_dispatch i).
Proof. intros w j. unfold reserve_dispatch. by case_bool_decide. Qed.
Hint Resolve unasked_existing_async unasked_reserve : unasked.
Lemma unasked_prepare q worker i : Always unasked (prepare_async q worker i).
Proof.
  unfold prepare_async, new_async. unasked_steps. apply unasked_create. unasked_steps.
Qed.
Lemma unasked_not_scheduled i : Always unasked (not_scheduled i).
Proof. unfold not_scheduled, forget_signal. unasked_steps. Qed.
Lemma unasked_request_cancel i st reason : Always unasked (request_cancel i st reason).
Proof. unfold request_cancel. unasked_steps. Qed.
Lemma unasked_event e i source : Always unasked (event_block e i source).
Proof. unfold event_block, progress_event, state_event. unasked_steps. Qed.
Lemma unasked_outbound q i : Always unasked (outbound q i).
Proof. unfold outbound. unasked_steps. Qed.
Lemma unasked_jobs_where p : Always unasked (jobs_where p).
Proof. unfold jobs_where. unasked_steps. Qed.
End Jobs.
#[export] Hint Resolve unasked_guard unasked_job unasked_persist unasked_persist_kept unasked_budget unasked_fence
  unasked_finalize unasked_record_handle unasked_record_cancelled unasked_retrieve unasked_forget_job
  unasked_apply_status unasked_transport_failed unasked_fail_job unasked_owned unasked_create_submission
  unasked_prepare unasked_not_scheduled unasked_request_cancel unasked_event unasked_outbound unasked_jobs_where : unasked.

(** ** Decisions *)

Section Settles.
Context `{L : JsonLib} {HL : JsonLaws L} {E : ManagerEnv} {config : ManagerConfig}.

Definition body_interaction (body : Json) : option WorkerInteraction :=
  match interaction_of_json body with TOk v => Some v | TThrow _ => None end.
Definition asked (w : Mgr) (i : string) : option WorkerInteraction :=
  interaction_row (mg_db w) i ≫= fun row => body_interaction (row_body row).
Definition asked_wf (w : Mgr) : Prop := forall i v, asked w i = Some v -> in_id v = i.
(** The request of an interaction, without its decision. *)
Definition request_of (v : WorkerInteraction) : WorkerInteraction :=
  ((((v <| in_state := IPending |>) <| in_response := JNull |>) <| in_reason := ""%string |>)
     <| in_actor := ""%string |>) <| in_decided_at := ""%string |>.
Definition decided_from (v v' : WorkerInteraction) : Prop :=
  request_of v' = request_of v /\ (in_state v <> IPending -> v' = v).
(** Interactions stay, keep their request, and keep their decision once they have one. *)
Definition settles (w w' : Mgr) : Prop := asked_wf w ->
  asked_wf w' /\ forall i v, asked w i = Some v -> exists v', asked w' i = Some v' /\ decided_from v v'.
#[global] Instance settles_preorder : PreOrder settles.
Proof.
  split.
  - intros w Hw. split; [done|]. intros i v Hv. exists v. by repeat split.
  - intros a b c Hab Hbc Ha. destruct (Hab Ha) as [Hb H1]. destruct (Hbc Hb) as [Hc H2]. split; [done|].
    intros i v Hv. destruct (H1 i v Hv) as (v1 & Hv1 & Hr1 & Hd1). destruct (H2 i v1 Hv1) as (v2 & Hv2 & Hr2 & Hd2).
    exists v2. split; [done|]. split; [congruence|]. intros Hp. specialize (Hd1 Hp) as ->. auto.
Qed.
Lemma unasked_asked w w' i : unasked w w' -> asked w' i = asked w i.
Proof. intros Hu. unfold asked. by rewrite Hu. Qed.
Lemma unasked_settles w w' : unasked w w' -> settles w w'.
Proof.
  intros Hu Hw. split; [intros i v Hv; apply Hw; by rewrite <- (unasked_asked _ _ _ Hu)|].
  intros i v Hv. exists v. rewrite (unasked_asked _ _ _ Hu). by repeat split.
Qed.

(** [m] settles when it starts in a well-formed state that satisfies [P]. *)
Definition decides (P : Mgr -> Prop) {A} (m : MIO A) : Prop := forall w, P w -> settles w (m w).1.
Lemma decides_unasked P {A} (m : MIO A) : Always unasked m -> decides P m.
Proof. intros Hm w _. apply unasked_settles, Hm. Qed.
Lemma decides_bind P {A B} (Q : A -> Mgr -> Prop) (m : MIO A) (f : A -> MIO B) : decides P m ->
  (forall w w' a, asked_wf w -> P w -> m w = (w', TOk a) -> Q a w') -> (forall a, decides (Q a) (f a)) ->
  decides P (m ≫= f).
Proof.
  intros Hm HQ Hf w Hp Hw. unfold mbind, io_bind. pose proof (Hm w Hp) as Hs. destruct (m w) as [w1 [a|x]] eqn:Em.
  - assert (Ht : settles w (f a w1).1); [|by apply Ht]. transitivity w1; [exact Hs|]. apply Hf. by eapply HQ.
  - by apply Hs.
Qed.
Definition always_ (w : Mgr) : Prop := True.
Lemma decides_then P {A B} (m : MIO A) (f : A -> MIO B) : decides P m -> (forall a, decides always_ (f a)) ->
  decides P (m ≫= f).
Proof. intros Hm Hf. by apply (decides_bind P (fun _ => always_)). Qed.

(** A record may be written over a pending interaction with the same request. *)
Definition may_ask (v : WorkerInteraction) (w : Mgr) : Prop :=
  forall old, asked w (in_id v) = Some old -> decided_from old v.
Definition asked_written (v : WorkerInteraction) (i : string) (body : Json) : Prop :=
  i = in_id v /\ body = interaction_to_json v.
Lemma body_interaction_of v : body_interaction (interaction_to_json v) = Some v.
Proof. unfold body_interaction. by rewrite interaction_json_roundtrip. Qed.
Lemma commit_interaction_rows v w :
  row_steps KWorkerInteraction (asked_written v) (mg_db w) (mg_db (m_commit [interaction_record v] w).1).
Proof.
  set (w1 := w <| mg_calls := S (mg_calls w) |>).
  change (row_steps KWorkerInteraction (asked_written v) (mg_db w1)
    (mg_db (m_store (commit (mg_uuid (mg_calls w)) (mg_timestamp (mg_calls w)) [interaction_record v]) w1).1)).
  apply store_interactions, mrows_commit. by intros rc [->|[]%elem_of_nil]%elem_of_cons _.
Qed.
Lemma commit_asked v w w' u : m_commit [interaction_record v] w = (w', TOk u) -> asked w' (in_id v) = Some v.
Proof.
  unfold m_commit, mbind, io_bind. cbn -[m_store]. intros (db & Hc & Hdb)%m_store_ok.
  destruct (commit_one _ _ _ _ _ _ Hc ltac:(done)) as [seq Hrow]. unfold asked, kind_row. rewrite Hdb.
  simpl in Hrow. rewrite Hrow. simpl. apply body_interaction_of.
Qed.
Lemma commit_settles v : decides (may_ask v) (m_commit [interaction_record v]).
Proof.
  intros w Hv Hw. pose proof (commit_interaction_rows v w) as Hr. set (w' := (m_commit _ w).1) in *.
  assert (Hc : forall i, asked w' i = asked w i \/ i = in_id v /\ asked w' i = Some v).
  { intros i. unfold asked. destruct (Hr i) as [->|(rid & body & seq & -> & -> & ->)]; [by left|right].
    split; [done|apply body_interaction_of]. }
  split.
  - intros i x Hx. destruct (Hc i) as [He|[-> He]]; rewrite He in Hx; [by apply Hw|by injection Hx as <-].
  - intros i x Hx. destruct (Hc i) as [->|[-> ->]]; [exists x; by repeat split|eauto].
Qed.
Lemma get_asked i w w' j v : m_get KWorkerInteraction i w = (w', TOk j) -> interaction_of_json j = TOk v ->
  asked w i = Some v.
Proof.
  intros (db & (-> & row & Hrow & ->)%get_record_ok & _)%m_store_ok Hv. unfold asked, kind_row. rewrite Hrow. simpl.
  unfold body_interaction. by rewrite Hv.
Qed.
(** A stored interaction is found, unless the store fails. *)
Lemma get_absent i w w' e : m_get KWorkerInteraction i w = (w', TThrow (TError e)) -> code e = NotFound ->
  asked w i = None.
Proof.
  unfold m_get, m_store, m_call, mbind, io_bind. cbn -[mg_ok get_record]. destruct (mg_ok _); [|by intros [= _ <-]].
  unfold get_record, store_tx, transaction, mbind, t_bind, asked, kind_row. simpl.
  by destruct (tables (mg_db w) !! _).
Qed.
End Settles.

Section Asking.
Context `{L : JsonLib} {HL : JsonLaws L} {E : ManagerEnv} {config : ManagerConfig}.

Definition recorded (v : WorkerInteraction) (w : Mgr) : Prop := asked w (in_id v) = Some v.
Lemma recorded_may_ask v v' w : recorded v w -> in_id v' = in_id v -> in_state v = IPending ->
  request_of v' = request_of v -> may_ask v' w.
Proof.
  unfold recorded, may_ask. intros Hr Hi Hs Hq old Ho. rewrite Hi, Hr in Ho. injection Ho as <-. by split.
Qed.
Lemma recorded_unasked v w w' : unasked w w' -> recorded v w -> recorded v w'.
Proof. intros Hu. unfold recorded. by rewrite (unasked_asked _ _ _ Hu). Qed.
(** A document read and decoded. *)
Lemma decides_read P {A} i (f : WorkerInteraction -> MIO A) : (forall v, decides (recorded v) (f v)) ->
  decides P (j ← m_get KWorkerInteraction i; v ← io_lift (interaction_of_json j); f v).
Proof.
  intros Hf. apply (decides_bind P (fun j w => forall v, interaction_of_json j = TOk v -> recorded v w)).
  - apply decides_unasked, unasked_get.
  - intros w w' j Hw _ Hg v Hv. pose proof (get_asked _ _ _ _ _ Hg Hv) as Ha. unfold recorded.
    rewrite (Hw _ _ Ha), <- Ha. apply unasked_asked. pose proof (unasked_get KWorkerInteraction i w) as Hu.
    by rewrite Hg in Hu.
  - intros j. apply (decides_bind _ (fun v => recorded v)); [apply decides_unasked, always_lift; apply _| |exact Hf].
    intros w w' v _ Hj Hl. unfold io_lift in Hl. injection Hl as -> Hv. by apply Hj.
Qed.
(** An operation that writes no interaction, before one that settles from [P]. *)
Lemma decides_after (P : Mgr -> Prop) {A B} (m : MIO A) (f : A -> MIO B) : (forall w w', unasked w w' -> P w -> P w') ->
  Always unasked m -> (forall a, decides P (f a)) -> decides P (m ≫= f).
Proof.
  intros HP Hm Hf. apply (decides_bind P (fun _ => P)); [by apply decides_unasked| |exact Hf].
  intros w w' a _ Hp He. specialize (Hm w). rewrite He in Hm. by eapply HP.
Qed.
Lemma decides_guard P {A} b c msg (f : unit -> MIO A) : (b = false -> decides P (f tt)) ->
  decides P (io_guard b c msg ≫= f).
Proof. intros Hf w Hp. destruct b; [simpl; reflexivity|]. by apply Hf. Qed.
Lemma decides_commit v v' : in_id v' = in_id v -> in_state v = IPending -> request_of v' = request_of v ->
  decides (recorded v) (m_commit [interaction_record v']).
Proof. intros Hi Hs Hq w Hv. by eapply commit_settles, recorded_may_ask. Qed.
Lemma decides_resolve i st payload actor reason : decides always_ (resolve_interaction i st payload actor reason).
Proof.
  unfold resolve_interaction. apply decides_after; [done|apply always_lift; apply _|intros large].
  apply decides_guard. intros _. apply decides_read. intros v.
  apply decides_guard. intros Hs%negb_false_iff%bool_decide_eq_true. cbv zeta. do 2 (apply decides_guard; intros _).
  apply decides_after; [apply recorded_unasked|apply unasked_now|intros now]. by apply decides_commit.
Qed.

(** *** Opening and closing *)
Lemma unasked_known q : Always unasked (known_interaction q).
Proof. unfold known_interaction. unasked_steps. Qed.
Lemma unasked_run_of_job i : Always unasked (run_of_job i).
Proof. unfold run_of_job. unasked_steps. Qed.
Lemma decides_expire v : in_state v = IPending -> decides (recorded v) (expire v).
Proof.
  intros Hs. unfold expire. apply decides_after; [apply recorded_unasked|apply unasked_now|intros now]. cbv zeta.
  apply decides_then; [by apply decides_commit|]. intros _. apply decides_unasked, always_ret; apply _.
Qed.
Lemma decide_interaction_id now q r v : in_id (decide_interaction now q r v) = in_id v.
Proof. unfold decide_interaction. by destruct (pr_decision r). Qed.
Definition unasked_yet (q : WorkerInteractionRequest) (w : Mgr) : Prop := asked w (rq_request_id q) = None.
Lemma decides_create q : decides (unasked_yet q) (create_interaction q).
Proof.
  unfold create_interaction. assert (HP : forall w w', unasked w w' -> unasked_yet q w -> unasked_yet q w').
  { intros w w' Hu. unfold unasked_yet. by rewrite (unasked_asked _ _ _ Hu). }
  apply decides_after; [done|apply unasked_run_of_job|intros run_id].
  apply decides_after; [done|apply unasked_now|intros now].
  apply decides_after; [done|apply always_lift; apply _|intros r].
  apply decides_after; [done|apply unasked_now|intros decided_at]. cbv zeta.
  apply decides_then; [|intros _; apply decides_unasked, always_ret; apply _].
  intros w Hq. apply commit_settles. intros old Ho. rewrite decide_interaction_id in Ho. simpl in Ho.
  unfold unasked_yet in Hq. by rewrite Hq in Ho.
Qed.
Lemma create_recorded q w w' v : create_interaction q w = (w', TOk v) -> recorded v w'.
Proof.
  unfold create_interaction. intros Hc.
  do 4 (apply io_bind_ok in Hc as (? & ? & _ & Hc)). cbv zeta in Hc.
  apply io_bind_ok in Hc as (w1 & [] & Hcm & [= <- <-]). by eapply commit_asked.
Qed.
Lemma known_recorded q w w' v : asked_wf w -> known_interaction q w = (w', TOk v) -> recorded v w.
Proof.
  intros Hw. unfold known_interaction. intros Hk. apply io_bind_ok in Hk as (w1 & j & Hg & Hk).
  apply io_bind_ok in Hk as (w2 & x & Hl & Hk). unfold io_lift in Hl. injection Hl as -> Hv.
  case_match; [discriminate Hk|]. injection Hk as _ <-. pose proof (get_asked _ _ _ _ _ Hg Hv) as Ha.
  unfold recorded. by rewrite (Hw _ _ Ha).
Qed.
Lemma known_absent q w w' : or_absent (known_interaction q) w = (w', TOk None) -> unasked_yet q w.
Proof.
  unfold or_absent, io_catch. intros Ha. unfold mbind at 1, io_bind at 1 in Ha.
  destruct (known_interaction q w) as [w1 [v|x]] eqn:Hk; [discriminate Ha|].
  destruct (error_of x) as [e|] eqn:Hx; [|discriminate Ha].
  case_bool_decide as Hc; [|discriminate Ha]. clear Ha.
  unfold known_interaction, mbind, io_bind in Hk.
  destruct (m_get KWorkerInteraction (rq_request_id q) w) as [w2 [j|y]] eqn:Hg.
  - unfold unasked_yet. destruct (asked w (rq_request_id q)) as [v|] eqn:Hv; [|done]. exfalso.
    apply m_store_ok in Hg as (db & (_ & row & Hrow & ->)%get_record_ok & _).
    unfold asked, kind_row in Hv. rewrite Hrow in Hv. simpl in Hv. unfold body_interaction, io_lift in *.
    destruct (interaction_of_json (row_body row)) as [v'|]; [|discriminate Hv]. case_match; [|discriminate Hk].
    injection Hk as _ <-. injection Hx as <-. discriminate Hc.
  - injection Hk as _ ->. destruct x; simpl in Hx; try discriminate Hx; injection Hx as <-; [|discriminate Hc].
    by eapply get_absent.
Qed.
Lemma unasked_known_or_absent q : Always unasked (or_absent (known_interaction q)).
Proof. unfold or_absent. unasked_step; [|unasked_steps]. unasked_step; [apply unasked_known|unasked_steps]. Qed.
Lemma pending v : interaction_terminal (in_state v) = false -> in_state v = IPending.
Proof. by intros Ht%negb_false_iff%bool_decide_eq_true. Qed.
Lemma decides_open q : decides always_ (open_interaction q).
Proof.
  unfold open_interaction.
  apply (decides_bind _ (fun known w => match known with Some v => recorded v w | None => unasked_yet q w end)).
  - apply decides_unasked, unasked_known_or_absent.
  - intros w w' known Hw _ Hk. pose proof (unasked_known_or_absent q w) as Hu. rewrite Hk in Hu. simpl in Hu.
    destruct known as [v|].
    + eapply recorded_unasked; [exact Hu|]. unfold or_absent, io_catch in Hk.
      unfold mbind at 1, io_bind at 1 in Hk. destruct (known_interaction q w) as [w1 [x|x]] eqn:He.
      * injection Hk as _ ->. by eapply known_recorded.
      * destruct (error_of x); [|discriminate Hk]. case_bool_decide; discriminate Hk.
    + unfold unasked_yet. rewrite (unasked_asked _ _ _ Hu). by eapply known_absent.
  - intros known. apply (decides_bind _ recorded).
    + destruct known as [v|]; [apply decides_unasked, always_ret; apply _|apply decides_create].
    + intros w w' v _ Hk Hm. destruct known as [v'|]; [by injection Hm as <- <-|by eapply create_recorded].
    + intros v. destruct (interaction_terminal _) eqn:Ht; [apply decides_unasked; unasked_steps|].
      apply decides_after; [apply recorded_unasked|apply unasked_now|intros now].
      case_match; [|apply decides_unasked; unasked_steps].
      apply decides_then; [by apply decides_expire, pending|intros v'; apply decides_unasked; unasked_steps].
Qed.
Lemma decides_close q : decides always_ (close_interaction q).
Proof.
  unfold close_interaction. apply decides_read. intros v.
  destruct (interaction_terminal (in_state v)) eqn:Ht.
  - apply decides_unasked; unasked_steps.
  - apply decides_then; [by apply decides_expire, pending|intros v'; apply decides_unasked; unasked_steps].
Qed.

(** *** Cancelled interactions *)
Lemma unasked_cancelling i v : String.eqb (in_worker_job_id v) i && is_eqb (in_state v) IPending = true ->
  in_state v = IPending.
Proof. by intros [_ Hs%bool_decide_eq_true]%andb_true_iff. Qed.
(** A listed interaction is cancelled in its own row. *)
Lemma cancel_interaction_row i reason k row w : asked_wf w -> interaction_row (mg_db w) k = Some row ->
  settles w (cancel_interaction i reason (row_body row) w).1 /\
  forall k', k' <> k -> interaction_row (mg_db (cancel_interaction i reason (row_body row) w).1) k'
                        = interaction_row (mg_db w) k'.
Proof.
  intros Hw Hrow. unfold cancel_interaction, mbind, io_bind, io_lift.
  destruct (interaction_of_json (row_body row)) as [v|x] eqn:Hv; [|by split; [reflexivity|]].
  assert (Ha : asked w k = Some v) by (unfold asked; rewrite Hrow; simpl; unfold body_interaction; by rewrite Hv).
  pose proof (Hw _ _ Ha) as Hk. destruct (_ && _) eqn:Hc; [|by split; [reflexivity|]]. simpl.
  set (v' := _ <| in_response := _ |>). set (w1 := w <| mg_calls := _ |>).
  split.
  - change (settles w1 (m_commit [interaction_record v'] w1).1). eapply commit_settles, (recorded_may_ask v); [|done| |done].
    + unfold recorded. by rewrite Hk.
    + by eapply unasked_cancelling.
  - intros k' Hne. destruct (commit_interaction_rows v' w1 k') as [->|(? & ? & ? & _ & -> & _)]; [done|]. by destruct Hne.
Qed.
Lemma decides_cancel_rows i reason kvs w : NoDup kvs.*1 -> asked_wf w ->
  (forall k row, (k, row) ∈ kvs -> interaction_row (mg_db w) k = Some row) ->
  settles w (io_iter (cancel_interaction i reason) (map (fun kv => row_body kv.2) kvs) w).1.
Proof.
  revert w. induction kvs as [|[k row] kvs IH]; intros w Hnd Hw Hrows; [reflexivity|].
  inversion Hnd as [|? ? Hk Hnd']; subst. destruct (cancel_interaction_row i reason k row w Hw) as [Hs Ho];
    [by apply Hrows; left|]. simpl. unfold mbind, io_bind. destruct (cancel_interaction _ _ _ w) as [w1 [u|x]]; [|exact Hs].
  simpl in Hs, Ho. transitivity w1; [exact Hs|]. apply IH; [done|by apply Hs|].
  intros k' row' Hin. rewrite Ho; [by apply Hrows; right|]. intros ->. apply Hk, list_elem_of_fmap. by exists (k, row').
Qed.
Lemma decides_cancel_interactions i reason : decides always_ (cancel_interactions i reason).
Proof.
  intros w _ Hw. unfold cancel_interactions, mbind, io_bind.
  pose proof (unasked_list KWorkerInteraction "" 10000 0 w) as Hu.
  destruct (m_list KWorkerInteraction "" 10000 0 w) as [w1 [l|x]] eqn:Hl; [|by apply (unasked_settles _ _ Hu)].
  simpl in Hu. apply m_store_ok in Hl as (db & Hl & Hdb).
  assert (Ht : settles w (io_iter (cancel_interaction i reason) l w1).1); [|by apply Ht].
  transitivity w1; [by apply unasked_settles|]. destruct (list_records_rows _ _ _ _ _ _ _ Hl) as (kvs & Hnd & -> & Hrows).
  apply decides_cancel_rows; [done|by apply (unasked_settles _ _ Hu)|].
  intros k row Hin. rewrite Hu. by apply Hrows.
Qed.
Lemma decides_apply_cancel i st reason b failure : decides always_ (apply_cancel i st reason b failure).
Proof.
  unfold apply_cancel. apply decides_after; [done|apply unasked_job|intros v].
  case_match; [apply decides_unasked, always_ret; apply _|].
  apply decides_then; [apply decides_cancel_interactions|intros _; apply decides_unasked].
  unasked_steps; apply unasked_persist.
Qed.
End Asking.

(** ** Threads *)

Section Keeping.
Context `{L : JsonLib} {HL : JsonLaws L} {E : ManagerEnv} {config : ManagerConfig}.
Abbreviation keeps p := (respects (answer := answer) note settles p).

Lemma settles_bind {A B} (m : MTask A) (f : A -> MTask B) : keeps m -> (forall a, keeps (f a)) -> keeps (m ≫= f).
Proof. intros Hm Hf. apply respects_bind; [exact Hm|]. intros [a|x]; [apply Hf|exact I]. Qed.
Lemma keeps_handle {A} (m : MTask A) h : keeps m -> (forall x, keeps (h x)) -> keeps (task_handle m h).
Proof. intros Hm Hh. apply respects_bind; [exact Hm|]. intros [a|x]; [exact I|apply Hh]. Qed.
Lemma settles_quiet {A} (m : MTask A) : keeps m -> keeps (task_quiet m).
Proof. intros Hm. apply respects_bind; [exact Hm|]. by intros r. Qed.
Lemma settles_iter {A} (f : A -> MTask unit) l : (forall x, keeps (f x)) -> keeps (task_iter f l).
Proof. intros Hf. induction l as [|x l IH]; simpl; [exact I|]. apply settles_bind; [apply Hf|by intros _]. Qed.
Lemma keeps_when b (m : MTask unit) : keeps m -> keeps (task_when b m).
Proof. intros Hm. by destruct b. Qed.
Lemma keeps_spawn p : keeps p -> keeps (spawn p).
Proof. by intros Hp. Qed.
Lemma keeps_block {A} (m : MIO A) : decides always_ m -> keeps (atomic m).
Proof. intros Hm. split; [intros w; by apply Hm|done]. Qed.
Lemma keeps_unasked {A} (m : MIO A) : Always unasked m -> keeps (atomic m).
Proof. intros Hm. by apply keeps_block, decides_unasked. Qed.
Lemma settles_call c : keeps (call c).
Proof. split; [|done]. intros w. apply unasked_settles. intros i. by destruct c as [| | | | |? []| | | | | |]. Qed.
Lemma keeps_update {A} (f : Mgr -> Mgr) (p : Prog A) : (forall w, mg_db (f w) = mg_db w) -> keeps p ->
  keeps (Block (fun w => (f w, tt)) (fun _ => p)).
Proof. intros Hf Hp. split; [|by intros _]. intros w. apply unasked_settles. intros i. simpl. by rewrite Hf. Qed.
Lemma keeps_finally {A} (m : MTask A) f : keeps m -> (forall w, mg_db (f w) = mg_db w) -> keeps (task_finally m f).
Proof. intros Hm Hf. apply respects_bind; [exact Hm|]. intros r. by apply keeps_update. Qed.
End Keeping.
Create HintDb keeps.
Ltac keeps_step :=
  cbv zeta; first
    [ exact I
    | solve [eauto 2 with keeps]
    | lazymatch goal with
      | |- respects _ _ (call _) => apply settles_call
      | |- respects _ _ (_ ≫= _) => apply settles_bind; [|intros ?]
      | |- respects _ _ (task_handle _ _) => apply keeps_handle; [|intros ?]
      | |- respects _ _ (task_quiet _) => apply settles_quiet
      | |- respects _ _ (task_iter _ _) => apply settles_iter; intros ?
      | |- respects _ _ (task_when _ _) => apply keeps_when
      | |- respects _ _ (spawn _) => apply keeps_spawn
      | |- respects _ _ (task_finally _ _) => apply keeps_finally; [|intros ?; reflexivity]
      | |- respects _ _ (Block _ _) => apply keeps_update; [intros ?; unfold end_dispatch; repeat case_match; reflexivity|]
      | |- respects _ _ (prog_bind _ _) => apply respects_bind; [|intros ?]
      | |- respects _ _ (attempt_call _ _ _) => apply respects_bind; [|intros ?]
      | |- respects _ _ (answered _) => apply respects_bind; [|intros ?]
      | |- respects _ _ (atomic _) => first
          [ apply keeps_unasked; solve [unasked_steps]
          | apply keeps_block; first [apply decides_apply_cancel|apply decides_open|apply decides_close|apply decides_resolve] ]
      | |- respects _ _ (match ?x with _ => _ end) => destruct x eqn:?
      end ].
Ltac keeps_steps := repeat keeps_step.

Section Tasks.
Context `{L : JsonLib} {HL : JsonLaws L} {E : ManagerEnv} {config : ManagerConfig}.
Abbreviation keeps p := (respects (answer := answer) note settles p).

Lemma keeps_stopped : keeps check_stopped.
Proof. unfold check_stopped. keeps_steps. Qed.
Lemma keeps_available worker : keeps (available worker).
Proof. unfold available, restores. keeps_steps. Qed.
Lemma keeps_providers c l : forall r, keeps (providers c r l).
Proof. induction l as [|x l IH]; intros r; cbn [providers]; keeps_steps; apply IH. Qed.
Hint Resolve keeps_providers : keeps.
Lemma keeps_resolve w c : keeps (resolve_worker w c).
Proof. unfold resolve_worker. keeps_steps. Qed.
Lemma keeps_record i s worker : keeps (record_submission i s worker).
Proof. unfold record_submission. keeps_steps. Qed.
Lemma settles_reconcile v b : keeps (reconcile v b).
Proof. unfold reconcile, reconcile_status. keeps_steps. Qed.
Hint Resolve keeps_stopped keeps_available keeps_resolve keeps_record settles_reconcile : keeps.
Lemma keeps_refresh i : keeps (refresh i).
Proof. unfold refresh. keeps_steps. Qed.
Lemma keeps_hand_over b q i worker : keeps (hand_over b q i worker).
Proof. unfold hand_over. keeps_steps. Qed.
Lemma keeps_transport_error i b msg : keeps (transport_error_handler i b msg).
Proof. unfold transport_error_handler, await_cancellation. keeps_steps. Qed.
Lemma keeps_job_error i msg : keeps (job_error_handler i msg).
Proof. unfold job_error_handler. keeps_steps. Qed.
Hint Resolve keeps_hand_over keeps_transport_error keeps_job_error : keeps.
Lemma keeps_resubmit q i worker : keeps (resubmit q i worker).
Proof. unfold resubmit. keeps_steps. Qed.
Lemma settles_dispatch q i worker : keeps (Submission.dispatch q i worker).
Proof. unfold Submission.dispatch. keeps_steps. Qed.
Hint Resolve keeps_resubmit settles_dispatch : keeps.
Lemma keeps_settled b v : keeps (settled_submission b v).
Proof. unfold settled_submission, dispatching. keeps_steps. Qed.
Lemma keeps_probe b l : keeps (probe b l).
Proof. unfold probe. keeps_steps. Qed.
Hint Resolve keeps_settled keeps_probe : keeps.
Lemma keeps_submit_impl q b i : keeps (submit_impl q b i).
Proof. unfold submit_impl, submit_body, submit_new, submit_existing, probe_worker, task_guard. keeps_steps. Qed.
Lemma keeps_async q i : keeps (async_submission q i).
Proof.
  unfold async_submission, thread_failed. apply respects_bind; [apply keeps_submit_impl|intros r].
  keeps_steps.
Qed.
Hint Resolve keeps_submit_impl keeps_async : keeps.
Lemma keeps_submit_async q : keeps (submit_async q).
Proof. unfold submit_async, Submission.launch, probe_remote. keeps_steps. Qed.
Lemma keeps_cancel depth : forall i st reason, keeps (Submission.cancel depth i st reason).
Proof.
  induction depth as [|depth IH]; intros i st reason; cbn [Submission.cancel]; [exact I|]. unfold ask_worker. keeps_steps; apply IH.
Qed.
Lemma keeps_handle_interaction q : keeps (handle_interaction q).
Proof. unfold handle_interaction. keeps_steps. Qed.
Lemma settles_receive e : keeps (receive e).
Proof. unfold receive. keeps_steps. Qed.
End Tasks.

(** ** Interactions in the pool *)

Section Pool.
Context `{L : JsonLib} {HL : JsonLaws L} {E : ManagerEnv} {config : ManagerConfig}.

Lemma manager_thread_keeps p : manager_thread p -> respects (answer := answer) note settles p.
Proof.
  assert (He : forall A (m : MTask A), respects (answer := answer) note settles m -> respects (answer := answer) note settles (entry m)).
  { intros A m Hm. apply respects_bind; [exact Hm|]. by intros r. }
  intros Hp. destruct Hp; apply He.
  - apply keeps_submit_impl.
  - apply keeps_submit_async.
  - apply keeps_refresh.
  - apply keeps_cancel.
  - apply keeps_handle_interaction.
  - apply keeps_block, decides_resolve.
  - apply settles_receive.
  - apply keeps_unasked. by apply unasked_modify.
Qed.
Lemma other_settles w w' : other_components w w' -> settles w w'.
Proof. intros (db & -> & Hdb). apply unasked_settles. intros i. apply Hdb. by right. Qed.
Lemma restart_settles w : settles w (restart w).
Proof. by apply unasked_settles. Qed.
Lemma manager_pool_settles s s' : rtc manager_step s s' -> Forall (respects (answer := answer) note settles) s.2 ->
  settles s.1 s'.1 /\ Forall (respects (answer := answer) note settles) s'.2.
Proof.
  apply (pool_respects note manager_thread other_components restart settles);
    [exact manager_thread_keeps|exact other_settles|exact restart_settles].
Qed.
End Pool.

(** C8: interactions are decided once, where one manager writes them.  The service runs as a single instance:
    nothing else writes the interactions of its database.  Whatever the threads of the manager do (requests of workers,
    decisions of users, deadlines, cancellations of jobs, repeated requests under a used identifier)
    and whatever fails, a stored interaction stays stored, its request never changes, and once it is
    approved, denied, answered, cancelled or expired it never changes again. *)
Theorem decision_final `{L : JsonLib} {HL : JsonLaws L} {E : ManagerEnv} {config : ManagerConfig} db s s' i v :
  asked_wf (new_manager db) -> rtc manager_step (new_manager db, []) s -> rtc manager_step s s' ->
  asked s.1 i = Some v -> exists v', asked s'.1 i = Some v' /\ decided_from v v'.
Proof.
  intros Hw Hs Hs' Hv. destruct (manager_pool_settles _ _ Hs) as [H1 HT]; [constructor|].
  destruct (manager_pool_settles _ _ Hs' HT) as [H2 _]. apply H2; [|done]. by apply H1.
Qed.

#[local] Existing Instance strict_json.
#[local] Existing Instance sample_env.
#[local] Existing Instance sample_limits.
Definition sample_question : WorkerInteractionRequest :=
  mkInteractionRequest "ask-1" "worker-1" "w" "ext-1" "" IApproval "t" "s" "" "" "" "" (JObject []).
Definition sample_decision (st : WorkerInteractionState) : MTask unit :=
  atomic (resolve_interaction "ask-1" st (JObject []) "alice" "").
(** The request is stored and waits; [alice] approves it; a later refusal changes nothing. *)
Definition asked_end : Mgr * list (Prog unit) :=
  drive note 3 sample_answer (new_manager empty_db) (entry (handle_interaction sample_question)) [].
Definition approved_end : Mgr * list (Prog unit) :=
  drive note 3 sample_answer asked_end.1 (entry (sample_decision IApproved)) asked_end.2.
Definition refused_end : Mgr * list (Prog unit) :=
  drive note 3 sample_answer approved_end.1 (entry (sample_decision IDenied)) approved_end.2.
Lemma decision_final_witness : exists v, in_state v = IApproved /\ asked approved_end.1 "ask-1" = Some v /\
  exists v', asked refused_end.1 "ask-1" = Some v' /\ decided_from v v'.
Proof.
  assert (Hask : rtc manager_step (new_manager empty_db, []) asked_end) by apply drive_start, run_handle_interaction.
  assert (Hrun : forall w T st, rtc manager_step (w, T) (drive note 3 sample_answer w (entry (sample_decision st)) T)).
  { intros w T st. apply drive_start, run_resolve_interaction. }
  destruct (asked approved_end.1 "ask-1") as [v|] eqn:Hv; [|by vm_compute in Hv].
  exists v. split; [vm_compute in Hv; by injection Hv as <-|]. split; [done|].
  apply (decision_final empty_db approved_end refused_end "ask-1" v); [| | |exact Hv].
  - intros i x Hx. vm_compute in Hx. discriminate Hx.
  - etransitivity; [exact Hask|]. rewrite (surjective_pairing asked_end). apply Hrun.
  - rewrite (surjective_pairing approved_end). apply Hrun.
Defined.
