(* ===== verification/Reducer.v ===== *)
(** * Context reduction

    The reducer interface of [include/laso/context/reducer.hpp] and the reference reducer of
    [src/context/reducer.cpp], which keeps the newest turns of a session that fit a budget. *)

From S2P Require Import Prelude Json Types Samples Db Codec Effects.

(** [struct ContextReductionRequest]; its deadline is behind [deadline_passed]. *)
Record ContextReductionRequest := mkReductionRequest {
  cr_session_id : string;
  previous_generation : option SessionContextGeneration;
  eligible_turns : Json;
  cr_through : Z;
  target_payload_bytes : Z;
  configuration : Json }.
(** [struct ContextReductionResult] *)
Record ContextReductionResult := mkReductionResult {
  rs_kind : string;
  rs_version : string;
  rs_through : Z;
  rs_payload : Json }.

(** What the successive looks at the stop token and the clock find. *)
Class Interrupts := { stop_requested : nat -> bool; deadline_passed : nat -> bool }.

Section Reducer.
Context `{L : JsonLib} {I : Interrupts}.

Definition check_reduction (n : nat) : tres unit :=
  _ ← tguard (stop_requested n) Cancellation "Context reduction was cancelled";
  tguard (deadline_passed n) Timeout "Context reduction deadline expired".

Definition recent_turns : string := "laso.recent-turns".
(** The turns a previous generation of this reducer kept. *)
Definition previous_turns (previous : option SessionContextGeneration) : tres (list Json) :=
  match previous with
  | None => TOk []
  | Some g =>
      if negb (String.eqb (representation_kind g) recent_turns) || negb (String.eqb (representation_version g) "1")
      then tthrow Validation "Reference reducer cannot interpret the previous context representation"
      else match member (g_payload g) "turns" with
           | Some (JArray turns) => TOk turns
           | _ => tthrow Validation "Reference reducer cannot interpret the previous context representation"
           end
  end.
Definition is_unsigned (j : Json) : bool := match j with JUnsigned _ => true | _ => false end.
Definition has_sequence (turn : Json) : bool :=
  match member turn "sequence" with Some v => is_unsigned v | None => false end.
(** The loop over the eligible turns; [n] counts the checks. *)
Fixpoint append_turns (n : nat) (turns l : list Json) : tres (list Json) :=
  match l with
  | [] => TOk turns
  | turn :: l =>
      _ ← check_reduction n;
      _ ← tguard (negb (has_sequence turn)) Validation "Malformed durable turn supplied to context reducer";
      _ ← match last turns with
          | None => TOk tt
          | Some back =>
              s ← at_ dec_u64 turn "sequence"; b ← at_ dec_u64 back "sequence";
              tguard (s <=? b) Validation "Context reducer input is not ordered"
          end;
      append_turns (S n) (turns ++ [turn]) l
  end.
(** The loop that drops the oldest turns. *)
Definition turns_payload (turns : list Json) : Json :=
  mk_object [("format", JString recent_turns); ("turns", JArray turns)]%string.
Fixpoint drop_oldest (target : Z) (turns : list Json) : tres Json :=
  match turns with
  | [] => tthrow Capacity "A durable turn exceeds the context reduction budget"
  | _ :: rest =>
      large ← dump_exceeds (turns_payload turns) target;
      if (large : bool) then drop_oldest target rest else TOk (turns_payload turns)
  end.
Definition reduce (q : ContextReductionRequest) : tres ContextReductionResult :=
  _ ← check_reduction 0;
  eligible ← match eligible_turns q with
             | JArray l => if target_payload_bytes q =? 0 then tthrow Validation "Invalid context reduction request"
                           else TOk l
             | _ => tthrow Validation "Invalid context reduction request"
             end;
  turns ← previous_turns (previous_generation q);
  turns ← append_turns 1 turns eligible;
  payload ← drop_oldest (target_payload_bytes q) turns;
  TOk (mkReductionResult recent_turns "1" (cr_through q) payload).

(** ** Specification *)

Definition fits (target : Z) (turns : list Json) : Prop :=
  exists text, dump (turns_payload turns) = Some text /\ size_of text <= target.
(** [kept] is the longest non-empty end of [turns] that fits. *)
Definition longest_fit (target : Z) (turns kept : list Json) : Prop :=
  exists dropped, turns = dropped ++ kept /\ kept <> [] /\ fits target kept /\
    forall d k, turns = d ++ k -> (length kept < length k)%nat -> ~ fits target k.
(** Turns with ascending sequences, the eligible ones well formed. *)
Definition turn_sequence (turn : Json) : option Z := at_with get_u64 turn "sequence".
Definition ordered_after (turns : list Json) (turn : Json) : Prop :=
  forall back, last turns = Some back ->
    exists s b, turn_sequence turn = Some s /\ turn_sequence back = Some b /\ b < s.
Definition well_ordered (turns eligible : list Json) : Prop :=
  Forall (fun t => has_sequence t = true) eligible /\
  forall l turn r, eligible = l ++ turn :: r -> ordered_after (turns ++ l) turn.
Definition uninterrupted : Prop := forall n, stop_requested n = false /\ deadline_passed n = false.

Lemma exceeds_fits target turns : is_Some (dump (turns_payload turns)) ->
  dump_exceeds (turns_payload turns) target = TOk false /\ fits target turns \/
  dump_exceeds (turns_payload turns) target = TOk true /\ ~ fits target turns.
Proof.
  intros [text Hd]. unfold dump_exceeds, fits. rewrite Hd. destruct (Z.ltb_spec target (size_of text)).
  - right. split; [done|]. intros (t & [= <-] & ?). lia.
  - left. split; [done|]. eauto.
Qed.
Lemma drop_oldest_spec target turns : (forall l, is_Some (dump (turns_payload l))) ->
  (exists kept, longest_fit target turns kept /\ drop_oldest target turns = TOk (turns_payload kept)) \/
  (forall d k, turns = d ++ k -> k <> [] -> ~ fits target k) /\
  drop_oldest target turns = tthrow Capacity "A durable turn exceeds the context reduction budget".
Proof.
  intros Hdump. induction turns as [|t rest IH]; cbn [drop_oldest].
  - right. split; [|done]. by intros [|] [|] ?.
  - destruct (exceeds_fits target (t :: rest) (Hdump _)) as [[-> Hf]|[-> Hf]]; cbn [mbind tres_bind].
    + left. exists (t :: rest). split; [|done]. exists []. split_and!; [done..|].
      intros d k Heq Hlt. apply (f_equal length) in Heq. rewrite length_app in Heq. simpl in *. lia.
    + destruct IH as [(kept & (dropped & -> & Hne & Hk & Hlong) & ->)|[Hno ->]].
      * left. exists kept. split; [|done]. exists (t :: dropped). split_and!; [done..|].
        intros [|x d] k Heq Hlt; simpl in Heq; [by subst k|]. injection Heq as <- Heq. by eapply Hlong.
      * right. split; [|done]. intros [|x d] k Heq Hne; simpl in Heq; [by subst k|]. injection Heq as <- Heq. by eapply Hno.
Qed.

Lemma at_u64 j key z : at_with get_u64 j key = Some z -> at_ dec_u64 j key = TOk z.
Proof.
  unfold at_with, at_, dec_u64. destruct j; try done. simpl. destruct (assoc key fields) as [v|]; [|done]. simpl.
  intros Hg. by rewrite Hg.
Qed.
Lemma append_turns_ok n turns l : uninterrupted -> well_ordered turns l -> append_turns n turns l = TOk (turns ++ l).
Proof.
  intros Hu. revert n turns. induction l as [|turn l IH]; intros n turns [Hs Ho]; cbn [append_turns]; [by rewrite app_nil_r|].
  unfold check_reduction. destruct (Hu n) as [-> ->]. inversion Hs as [|? ? Ht Hl]; subst. rewrite Ht. cbn.
  assert (Hlast : forall k : unit -> tres (list Json),
    (match last turns with
     | None => TOk tt
     | Some back => s ← at_ dec_u64 turn "sequence"; b ← at_ dec_u64 back "sequence";
                    tguard (s <=? b) Validation "Context reducer input is not ordered"
     end ≫= k) = k tt).
  { intros k. specialize (Ho [] turn l eq_refl). unfold ordered_after in Ho. rewrite app_nil_r in Ho.
    destruct (last turns) as [back|]; [|done].
    destruct (Ho back eq_refl) as (s & b & Hs' & Hb & Hlt). unfold turn_sequence in *.
    rewrite (at_u64 _ _ _ Hs'), (at_u64 _ _ _ Hb). cbn. by rewrite (proj2 (Z.leb_gt s b) Hlt). }
  rewrite Hlast, IH; [by rewrite <- app_assoc|]. split; [done|]. intros l1 x r ->. rewrite <- app_assoc.
  by apply (Ho (turn :: l1) x r).
Qed.
End Reducer.

(** ** Properties *)

(** C35: the reference reducer keeps as much recent history as fits.  On turns in ascending order, when
    neither the stop token nor the deadline interferes, it returns the longest non-empty end of the
    previous turns followed by the eligible ones whose payload fits the target, for exactly the boundary
    that was asked for; and when no end fits it fails with [Capacity]. *)
Theorem reduce_keeps_longest `{L : JsonLib} {I : Interrupts} q previous eligible :
  (forall n, stop_requested n = false /\ deadline_passed n = false) ->
  (forall turns, is_Some (dump (turns_payload turns))) ->
  eligible_turns q = JArray eligible -> target_payload_bytes q <> 0 ->
  previous_turns (previous_generation q) = TOk previous -> well_ordered previous eligible ->
  (exists kept, longest_fit (target_payload_bytes q) (previous ++ eligible) kept /\
     reduce q = TOk (mkReductionResult recent_turns "1" (cr_through q) (turns_payload kept))) \/
  (forall older kept, previous ++ eligible = older ++ kept -> kept <> [] -> ~ fits (target_payload_bytes q) kept) /\
  reduce q = tthrow Capacity "A durable turn exceeds the context reduction budget".
Proof.
  intros Hu Hd He Ht Hp Ho. unfold reduce, check_reduction. destruct (Hu 0%nat) as [-> ->]. cbn [tguard mbind tres_bind].
  rewrite He, (proj2 (Z.eqb_neq _ _) Ht). cbn [mbind tres_bind]. rewrite Hp. cbn [mbind tres_bind].
  rewrite append_turns_ok by done. cbn [mbind tres_bind].
  destruct (drop_oldest_spec (target_payload_bytes q) (previous ++ eligible) Hd) as [(kept & Hk & ->)|[Hno ->]];
    [left; by exists kept|by right].
Qed.

#[local] Instance length_lib : JsonLib := {|
  get_string := @get_string strict_json; get_unsigned := @get_unsigned strict_json; get_u64 := @get_u64 strict_json;
  get_bool := @get_bool strict_json; get_double := @get_double strict_json;
  dump := fun j => Some (match member j "turns" with Some (JArray l) => String.concat "" (map (fun _ => "turn") l) | _ => "" end) |}.
#[local] Instance patient : Interrupts := {| stop_requested := fun _ => false; deadline_passed := fun _ => false |}.
Definition numbered_turn (z : Z) : Json := mk_object [("sequence", JUnsigned z)]%string.
Definition sample_reduction_request : ContextReductionRequest :=
  mkReductionRequest "s" None (JArray [numbered_turn 1; numbered_turn 2; numbered_turn 3]) 3 9 (JObject []).
Lemma reduce_keeps_longest_witness :
  reduce sample_reduction_request
    = TOk (mkReductionResult recent_turns "1" 3 (turns_payload [numbered_turn 2; numbered_turn 3])) /\
  ((exists kept, longest_fit 9 [numbered_turn 1; numbered_turn 2; numbered_turn 3] kept /\
     reduce sample_reduction_request = TOk (mkReductionResult recent_turns "1" 3 (turns_payload kept))) \/
   (forall older kept, [numbered_turn 1; numbered_turn 2; numbered_turn 3] = older ++ kept -> kept <> [] -> ~ fits 9 kept) /\
   reduce sample_reduction_request = tthrow Capacity "A durable turn exceeds the context reduction budget").
Proof.
  split; [vm_compute; reflexivity|].
  apply (reduce_keeps_longest sample_reduction_request [] [numbered_turn 1; numbered_turn 2; numbered_turn 3]);
    [done|by intros turns; eexists|done|done|done|].
  split; [by repeat constructor|]. intros l turn r Heq back Hb.
  destruct l as [|a [|b [|c [|d l]]]]; simplify_list_eq; eexists _, _; split_and!; reflexivity.
Defined.
