(* ===== verification/Reduction.v ===== *)
(** * Automatic context reduction

    [reduce_session_context_if_needed] of [src/runtime/runtime.cpp]: before a turn runs, the history of its
    session is handed to a reducer when it has grown beyond the configured size, and the result becomes a
    new context generation. *)

From S2P Require Import Prelude Json Types Samples Text Access Db Coordination Codec Store Rows Sessions SessionInv Effects Reducer.
From Stdlib Require Import Ascii.

(** [rd_log] records the transactions of this instance: the database before and after each. *)
Record Reductions := mkReductions { rd_db : DB; rd_calls : nat; rd_log : list (DB * DB) }.
#[global] Instance eta_Reductions : Eta Reductions := fun r => mkReductions (rd_db r) (rd_calls r) (rd_log r).

(** The part of [Config] it reads. *)
Class ReductionConfig := {
  reduction_enabled : bool; context_reducer : string; reducer_config : Json;
  threshold_bytes : Z; target_bytes : Z; max_input_bytes : Z }.
(** Clocks and identifiers of the instance, what other instances write between its calls of the store,
    and the registered reducers; the number a reducer gets tells its clock. *)
Class ReductionEnv := {
  rd_uuid : nat -> string;
  rd_timestamp : nat -> string;
  rd_ok : nat -> bool;
  rd_others : nat -> DB -> DB;
  context_reducers : Registry (nat -> ContextReductionRequest -> tres ContextReductionResult) }.

Section Reduction.
Context `{L : JsonLib} {I : Interrupts} {config : ReductionConfig} {E : ReductionEnv}.
Abbreviation RIO := (IO Reductions).

Definition rd_call : RIO nat := fun w => (w <| rd_calls := S (rd_calls w) |>, TOk (rd_calls w)).
Definition rd_store {A} (m : nat -> M DB A) : RIO A :=
  n ← rd_call;
  if rd_ok n then
    (fun w =>
       let before := rd_others n (rd_db w) in
       let '(db, r) := m n before in
       ((w <| rd_db := db |>) <| rd_log := (before, db) :: rd_log w |>, of_res r)) : RIO A
  else io_throw StorageError "Storage is unavailable".
(** A look at the stop token. *)
Definition stopped : RIO bool := n ← rd_call; mret (stop_requested n).
Definition guard_stop : RIO unit :=
  s ← stopped; io_guard s Cancellation "Session context reduction was cancelled".
Definition dump_size (j : Json) : tres Z :=
  match dump j with Some text => TOk (size_of text) | None => TThrow TStd end.

(** The identity of an attempt: the hash of its input. *)
Definition reduction_request_key (expected_generation through : Z) (input : Json) : tres string :=
  text ← match dump input with Some text => TOk text | None => TThrow TStd end;
  TOk ("auto-" ++ to_string expected_generation ++ "-" ++ to_string through ++ "-"
       ++ of_chars (hex_digits 16 (fnv_hash text) []))%string.

(** *** Reading the history *)
Record Gathered := mkGathered { ga_cursor : Z; ga_bytes : Z; ga_turns : list Json }.
Fixpoint take_turns (through : Z) (acc : Gathered) (batch : list Json) : tres Gathered :=
  match batch with
  | [] => TOk acc
  | turn :: batch =>
      sequence ← value_ dec_u64 turn "sequence" 0;
      _ ← tguard (negb (sequence =? ga_cursor acc + 1) || (through <? sequence)) Conflict
            "Session history order changed during context reduction";
      bytes ← dump_size turn;
      _ ← tguard (max_input_bytes - Z.min (ga_bytes acc) max_input_bytes <? bytes) Capacity
            "Session history exceeds the context reducer input limit";
      take_turns through (mkGathered sequence (ga_bytes acc + bytes) (ga_turns acc ++ [turn])) batch
  end.
(** The [while] loop: every round reads at least one turn. *)
Fixpoint gather (fuel : nat) (session_id : string) (through : Z) (acc : Gathered) : RIO Gathered :=
  if through <=? ga_cursor acc then mret acc
  else
    match fuel with
    | O => io_lift (TThrow TStd)
    | S fuel =>
        batch ← rd_store (fun _ => session_turns_between session_id (ga_cursor acc) through 128);
        _ ← io_guard (bool_decide (batch = [])) Conflict "Session history changed during context reduction";
        acc ← io_lift (take_turns through acc batch);
        gather fuel session_id through acc
    end.

(** *** One attempt *)
Definition read_previous (session_id : string) : RIO (option SessionContextGeneration) :=
  j ← rd_store (fun _ => latest_session_context_generation session_id);
  match j with
  | None => mret None
  | Some j => n ← rd_call; g ← io_lift (generation_of_json (rd_uuid n) (rd_timestamp n) j); mret (Some g)
  end.
Definition previous_boundary (previous : option SessionContextGeneration) : Z :=
  match previous with Some g => through_turn_sequence g | None => 0 end.
Definition previous_number (previous : option SessionContextGeneration) : Z :=
  match previous with Some g => generation g | None => 0 end.
Definition payload_bytes (previous : option SessionContextGeneration) : tres Z :=
  match previous with Some g => dump_size (g_payload g) | None => TOk 0 end.
Definition generation_json (previous : option SessionContextGeneration) : Json :=
  match previous with Some g => generation_to_json g | None => JNull end.

(** The call of the reducer: whatever it throws becomes an error of this function. *)
Definition run_reducer (q : ContextReductionRequest) : RIO ContextReductionResult :=
  reducer ← io_lift (of_res (reg_get context_reducers context_reducer));
  n ← rd_call;
  late ← rd_call;
  io_lift (match (r ← reducer n q; _ ← tguard (deadline_passed late) Timeout "Context reducer deadline expired"; TOk r) with
           | TOk r => TOk r
           | TThrow x => match error_of x with
                         | Some e => tthrow (code e) "Session context reduction failed"
                         | None => tthrow Execution "Session context reduction failed"
                         end
           end).
Definition valid_result (through target : Z) (r : ContextReductionResult) : tres bool :=
  if empty_str (rs_kind r) || (128 <? size_of (rs_kind r)) || empty_str (rs_version r)
     || (128 <? size_of (rs_version r)) || negb (rs_through r =? through) || negb (is_object (rs_payload r))
  then TOk false else large ← dump_exceeds (rs_payload r) target; TOk (negb large).

(** [true] when nothing is left to do, [false] when another instance won the race. *)
Definition reduce_once (retry : bool) (session_id : string) (current_input_bytes through : Z) : RIO bool :=
  let target := target_bytes - current_input_bytes in
  previous ← read_previous session_id;
  if through <=? previous_boundary previous then mret true
  else
    bytes ← io_lift (payload_bytes previous);
    let boundary := previous_boundary previous in
    history ← gather (Z.to_nat (through - boundary)) session_id through (mkGathered boundary bytes []);
    let effective_bytes := ga_bytes history + current_input_bytes in
    if (effective_bytes <=? target_bytes) && (effective_bytes <? threshold_bytes) then mret true
    else
      let eligible := JArray (ga_turns history) in
      let input := mk_object [("previous_generation", generation_json previous); ("eligible_turns", eligible);
                              ("through_turn_sequence", JUnsigned through); ("reducer", JString context_reducer);
                              ("reducer_config", reducer_config); ("target_payload_bytes", JUnsigned target)]%string in
      result ← run_reducer (mkReductionRequest session_id previous eligible through target reducer_config);
      valid ← io_lift (valid_result through target result);
      _ ← io_guard (negb valid) Validation "Context reducer returned an invalid result";
      _ ← guard_stop;
      key ← io_lift (reduction_request_key (previous_number previous) through input);
      io_catch
        (_ ← rd_store (fun n => create_session_context_generation (rd_uuid n) (rd_timestamp n) session_id
                                  (previous_number previous) through key (rs_kind result) (rs_version result)
                                  (rs_payload result));
         mret true)
        (fun e => if negb (bool_decide (code e = Conflict)) || negb retry then io_lift (TThrow (TError e)) else mret false).

Definition reduce_session_context_if_needed (session_id : string) (current_turn : Json) : RIO unit :=
  if negb reduction_enabled then mret tt
  else
    _ ← guard_stop;
    sequence ← io_lift (value_ dec_u64 current_turn "sequence" 0);
    input ← io_lift (value_ dec_json current_turn "input" JNull);
    current_input_bytes ← io_lift (dump_size input);
    _ ← io_guard (target_bytes <=? current_input_bytes) Capacity "Current turn exceeds the session context budget";
    if sequence <=? 1 then mret tt
    else
      done ← reduce_once true session_id current_input_bytes (sequence - 1);
      if (done : bool) then mret tt
      else
        done ← reduce_once false session_id current_input_bytes (sequence - 1);
        if (done : bool) then mret tt
        else io_throw Conflict "Session context reduction lost its revision race".

(** ** The history loop *)

Lemma take_turns_ok through batch : forall acc acc', take_turns through acc batch = TOk acc' ->
  ga_cursor acc' = ga_cursor acc + Z.of_nat (length batch) /\ ga_turns acc' = ga_turns acc ++ batch /\
  (batch <> [] -> ga_cursor acc' <= through) /\ (ga_bytes acc <= max_input_bytes -> ga_bytes acc' <= max_input_bytes).
Proof.
  induction batch as [|turn batch IH]; intros acc acc'; cbn [take_turns].
  - intros [= <-]. simpl. rewrite app_nil_r. split_and!; [lia|done|done|done].
  - destruct (value_ _ _ _ _) as [sequence|x]; [|done]. cbn [mbind tres_bind].
    destruct (negb _ || _) eqn:Hs; [done|]. cbn. destruct (dump_size turn) as [bytes|x]; [|done]. cbn [mbind tres_bind].
    destruct (Z.ltb_spec (max_input_bytes - Z.min (ga_bytes acc) max_input_bytes) bytes) as [|Hb]; [done|].
    cbn. intros Ht. apply orb_false_iff in Hs as [Hs Hle]. apply negb_false_iff, Z.eqb_eq in Hs. apply Z.ltb_ge in Hle.
    destruct (IH _ _ Ht) as (Hc & Hl & Hn & Hm). simpl in Hc, Hl, Hm. split_and!; [lia|by rewrite Hl, <- app_assoc| |lia].
    intros _. destruct batch; [|by apply Hn]. simpl in Ht. injection Ht as <-. simpl. lia.
Qed.
(** Enough fuel: every round moves the cursor. *)
Lemma gather_fuel session_id through fuel : forall fuel' acc w, through - ga_cursor acc <= Z.of_nat fuel ->
  (fuel <= fuel')%nat -> gather fuel' session_id through acc w = gather fuel session_id through acc w.
Proof.
  induction fuel as [|fuel IH]; intros [|fuel'] acc w Hf Hle; cbn [gather]; try lia; [done| |].
  - by rewrite (proj2 (Z.leb_le through (ga_cursor acc))) by lia.
  - destruct (through <=? ga_cursor acc); [done|]. unfold mbind, io_bind.
    destruct (rd_store _ w) as [w1 [batch|x]]; [|done].
    case_bool_decide as Hb; [done|]. cbn. destruct (take_turns through acc batch) as [acc'|x] eqn:Ht; [|done].
    apply take_turns_ok in Ht as (Hc & _). apply IH; [|lia]. destruct batch; [done|]. simpl in Hc. lia.
Qed.
(** Every turn of a batch continues the sequence, and its size is added. *)
Definition sum (l : list Z) : Z := foldr Z.add 0 l.
Definition sized (turns : list Json) (sizes : list Z) : Prop := Forall2 (fun turn size => dump_size turn = TOk size) turns sizes.
Definition numbered (from : Z) (turns : list Json) : Prop :=
  forall k turn, turns !! k = Some turn -> value_ dec_u64 turn "sequence" 0 = TOk (from + 1 + Z.of_nat k).
Lemma take_turns_all through batch : forall acc acc', take_turns through acc batch = TOk acc' ->
  exists sizes, sized batch sizes /\ ga_bytes acc' = ga_bytes acc + sum sizes /\ numbered (ga_cursor acc) batch.
Proof.
  induction batch as [|turn batch IH]; intros acc acc'; cbn [take_turns].
  - intros [= <-]. exists []. split_and!; [constructor|simpl; lia|done].
  - destruct (value_ _ _ _ _) as [sequence|x] eqn:Hv; [|done]. cbn [mbind tres_bind].
    destruct (negb _ || _) eqn:Hs; [done|]. cbn. destruct (dump_size turn) as [bytes|x] eqn:Hd; [|done]. cbn [mbind tres_bind].
    destruct (_ <? bytes); [done|]. cbn. intros Ht. apply orb_false_iff in Hs as [Hs _]. apply negb_false_iff, Z.eqb_eq in Hs.
    destruct (IH _ _ Ht) as (sizes & Hsz & Hb & Hn). simpl in Hb, Hn. exists (bytes :: sizes).
    split_and!; [by constructor|simpl; lia|]. intros [|k] t; simpl.
    + intros [= <-]. rewrite Hv. f_equal. lia.
    + intros Hk. rewrite (Hn k t Hk). f_equal. lia.
Qed.
Lemma numbered_app from a b : numbered from a -> numbered (from + Z.of_nat (length a)) b -> numbered from (a ++ b).
Proof.
  intros Ha Hb k turn. rewrite lookup_app_Some. intros [Hk|[Hle Hk]]; [by apply Ha|].
  rewrite (Hb _ _ Hk). f_equal. lia.
Qed.
Lemma sum_app a b : sum (a ++ b) = sum a + sum b.
Proof. unfold sum. induction a; simpl in *; lia. Qed.

(** *** What was read *)

(** The transactions of a stretch saw the turn in the session. *)
Definition saw_turn (l : list (DB * DB)) (session_id : string) (turn : Json) : Prop :=
  exists db i row, db ∈ l.*1 /\ tables db !! (KSessionTurn, i) = Some row /\ row_run_id row = session_id
    /\ row_body row = turn.
Lemma saw_turn_mono l l' session_id turn : l.*1 ⊆ l'.*1 -> saw_turn l session_id turn -> saw_turn l' session_id turn.
Proof. intros Hsub (db & i & row & Hin & H). exists db, i, row. split; [by apply Hsub|done]. Qed.
Lemma rd_store_ok {A} (m : nat -> M DB A) w w' a : rd_store m w = (w', TOk a) ->
  exists n db, m n db = (rd_db w', Ok a) /\ rd_log w' = (db, rd_db w') :: rd_log w.
Proof.
  unfold rd_store, rd_call, mbind, io_bind. cbn -[rd_ok]. destruct (rd_ok _); [|done]. simpl.
  destruct (m _ _) as [db r] eqn:Em. intros [= <- Hr]. apply of_res_ok in Hr as ->. simpl. eauto.
Qed.
Lemma turns_between_ok session_id after through limit db db' batch turn :
  session_turns_between session_id after through limit db = (db', Ok batch) -> turn ∈ batch ->
  exists i row, tables db !! (KSessionTurn, i) = Some row /\ row_run_id row = session_id /\ row_body row = turn.
Proof.
  intros Ht Hin. apply m_bind_ok in Ht as (d1 & [] & Hg & Ht). apply m_guard_ok in Hg as [Hg ->].
  unfold store_tx in Ht. apply transaction_ok in Ht. apply t_bind_ok in Ht as (d2 & d3 & [= <- <-] & [= _ Hb]).
  subst batch. apply list_elem_of_In, in_map_iff in Hin as ([i row] & <- & Hin%list_elem_of_In).
  apply list_elem_of_lookup in Hin as (k & [Hk _]%lookup_take_Some). apply list_elem_of_lookup_2 in Hk as Hin.
  apply list_elem_of_filter in Hin as [_ Hin]. apply elem_of_select_rows in Hin as [Hrow [->|Hrun]]; [done|]. eauto.
Qed.
Lemma gather_ok session_id through fuel : forall acc w w' acc', gather fuel session_id through acc w = (w', TOk acc') ->
  ga_cursor acc <= through -> exists l turns sizes, rd_log w' = l ++ rd_log w
    /\ Z.of_nat (length turns) = through - ga_cursor acc /\ numbered (ga_cursor acc) turns
    /\ (forall turn, turn ∈ turns -> saw_turn l session_id turn)
    /\ sized turns sizes /\ ga_bytes acc' = ga_bytes acc + sum sizes.
Proof.
  assert (Hend : forall acc w w' acc', through <= ga_cursor acc -> ga_cursor acc <= through ->
    (mret acc : RIO Gathered) w = (w', TOk acc') -> exists l turns sizes, rd_log w' = l ++ rd_log w
    /\ Z.of_nat (length turns) = through - ga_cursor acc /\ numbered (ga_cursor acc) turns
    /\ (forall turn, turn ∈ turns -> saw_turn l session_id turn)
    /\ sized turns sizes /\ ga_bytes acc' = ga_bytes acc + sum sizes).
  { intros acc w w' acc' H1 H2 [= <- <-]. exists [], [], []. split_and!; [done|simpl; lia|done| |constructor|simpl; lia].
    by intros turn ?%elem_of_nil. }
  induction fuel as [|fuel IH]; intros acc w w' acc' Hg Hle; cbn [gather] in Hg;
    (destruct (Z.leb_spec through (ga_cursor acc)); [by apply Hend|]); [done|].
  apply io_bind_ok in Hg as (w1 & batch & Hs & Hg). apply rd_store_ok in Hs as (n & db & Hs & Hlog).
  apply io_bind_ok in Hg as (w2 & [] & Hb & Hg). case_bool_decide as Hne; [discriminate Hb|]. injection Hb as <-.
  apply io_bind_ok in Hg as (w3 & acc1 & [= <- Ht] & Hg).
  pose proof (take_turns_ok _ _ _ _ Ht) as (Hc & _ & Hn & _). destruct (take_turns_all _ _ _ _ Ht) as (sz & Hsz & Hby & Hnum).
  destruct (IH _ _ _ _ Hg (Hn Hne)) as (l & turns & sizes & Hl & Hlen & Hnum' & Hsaw & Hsized & Hbytes).
  exists (l ++ [(db, rd_db w1)]), (batch ++ turns), (sz ++ sizes). split_and!.
  - by rewrite Hl, Hlog, <- app_assoc.
  - rewrite length_app. lia.
  - apply numbered_app; [done|]. by rewrite <- Hc.
  - intros turn [Hin|Hin]%elem_of_app.
    + destruct (turns_between_ok _ _ _ _ _ _ _ _ Hs Hin) as (i & row & Hrow). exists db, i, row.
      split; [rewrite fmap_app; set_solver|done].
    + eapply saw_turn_mono; [|by apply Hsaw]. rewrite fmap_app. set_solver.
  - by apply Forall2_app.
  - rewrite sum_app. lia.
Qed.
End Reduction.

(** ** What it does to the database *)

Section Writes.
Context `{L : JsonLib} {HL : JsonLaws L}.

(** A generation of the session reaches the turn. *)
Definition covered (db : DB) (session_id : string) (turn : Z) : Prop :=
  exists i row through, tables db !! (KSessionContextGeneration, i) = Some row /\ row_run_id row = session_id /\
    value_ dec_u64 (row_body row) "through_turn_sequence" 0 = TOk through /\ turn <= through.
(** The rows an attempt may write: one generation up to the turn before the current one. *)
Definition own_generation (session_id : string) (through limit : Z) (i : string) (body : Json) : Prop :=
  exists g, body = generation_to_json g /\ g_id g = i /\ g_session_id g = session_id /\
    through_turn_sequence g = through /\ is_object (g_payload g) = true /\
    exists text, dump (g_payload g) = Some text /\ size_of text <= limit.

Lemma stored_through f n j g : generation_of_json f n j = TOk g ->
  value_ dec_u64 j "through_turn_sequence" 0 = TOk (through_turn_sequence g).
Proof.
  unfold generation_of_json. intros Hg.
  do 4 (match type of Hg with (?m ≫= _) = _ => destruct m as [?|?]; [|discriminate Hg]; cbn [mbind tres_bind] in Hg end).
  destruct (value_ dec_u64 j "through_turn_sequence" 0) as [t|x]; [|discriminate Hg]. cbn [mbind tres_bind] in Hg.
  repeat (match type of Hg with (?m ≫= _) = _ => destruct m as [?|?]; [|discriminate Hg]; cbn [mbind tres_bind] in Hg end).
  by injection Hg as <-.
Qed.
Lemma latest_covered db session_id j f n g : session_id <> ""%string -> latest_generation db session_id = Some j ->
  generation_of_json f n j = TOk g -> covered db session_id (through_turn_sequence g).
Proof.
  unfold latest_generation. intros Hne Hl Hg. destruct (last _) as [[i row]|] eqn:Hlast; [|discriminate Hl].
  injection Hl as <-. apply last_Some in Hlast as [l Hlast].
  assert (Hin : (i, row) ∈ select_rows db KSessionContextGeneration session_id) by (rewrite Hlast; set_solver).
  apply elem_of_select_rows in Hin as [Hrow [->|Hrun]]; [done|]. apply stored_through in Hg.
  exists i, row, (through_turn_sequence g). split_and!; [done..|lia].
Qed.
Lemma created_through g : 0 <= through_turn_sequence g <= u64_max ->
  value_ dec_u64 (generation_to_json g) "through_turn_sequence" 0 = TOk (through_turn_sequence g).
Proof. intros Hr. unfold value_. simpl. unfold dec_u64. by rewrite get_u64_of. Qed.
Lemma create_covered fresh now session_id expected through key kind vers payload db db' j :
  0 <= through -> create_session_context_generation fresh now session_id expected through key kind vers payload db = (db', Ok j) ->
  covered db' session_id through.
Proof.
  intros Hpos Hc. unfold create_session_context_generation in Hc.
  apply m_bind_ok in Hc as (d1 & [] & Hg & Hc). apply m_guard_ok in Hg as [Hg ->].
  apply m_bind_ok in Hc as (d2 & psize & Hd & Hc). apply m_dump_size_run in Hd as ->.
  apply m_bind_ok in Hc as (d3 & [] & Hb & Hc). apply m_guard_ok in Hb as [Hb ->].
  unfold store_tx in Hc. apply transaction_ok in Hc.
  next_pure Hc found Hfound. destruct found as [row0|]; [|discriminate Hc].
  next Hc d4 d5 Hget. injection Hget as <- <-.
  assert (Hne : session_id <> ""%string). { intros ->. by simpl in Hg. }
  destruct (filter _ _) as [|[i row] l] eqn:Hf.
  - next_pure Hc t Ht. destruct t as [[current boundary] pred].
    next_pure Hc u1 H1. next_pure Hc u2 H2. next_pure Hc u3 H3. next Hc d6 seen H4. next Hc d7 u5 H5. next Hc d8 ser H6.
    next Hc d9 v Hins. injection Hc as <- _.
    apply insert_row_ok in Hins as (_ & n & Ht'). eexists _, _, through. rewrite Ht', lookup_insert_eq.
    split_and!; [done|done| |lia]. apply orb_false_iff in Hb as [_ Hb%Z.ltb_ge].
    apply (created_through (mkGeneration _ _ _ _ _ through _ _ _ _)). simpl. unfold i64_max, u64_max in *. lia.
  - assert (Hin : (i, row) ∈ filter (fun kv : string * Row => has_key key (row_body kv.2) = true)
                             (select_rows db KSessionContextGeneration session_id)) by (rewrite Hf; by left).
    apply list_elem_of_filter in Hin as [_ Hin]. apply elem_of_select_rows in Hin as [Hrow [->|Hrun]]; [done|].
    apply t_bind_ok in Hc as (d6 & prior & Hp & Hc). injection Hp as <- Hp.
    apply t_bind_ok in Hc as (d7 & u & Hu & Hc). injection Hc as <- _. unfold t_guard in Hu.
    destruct (negb _ || _ || _ || _) eqn:Hq; [discriminate Hu|]. injection Hu as <- _.
    rewrite !orb_false_iff in Hq. destruct Hq as [[[Hq _] _] _]. apply negb_false_iff, Z.eqb_eq in Hq.
    apply stored_through in Hp. exists i, row, through. rewrite <- Hq at 1. split_and!; [done..|lia].
Qed.

(** The rows of kind [K] it may change. *)
Definition may_change (session_id : string) (through limit : Z) (K : RecordKind) (i : string) (body : Json) : Prop :=
  K = KSessionContextGeneration /\ own_generation session_id through limit i body.
Definition reduction_write (session_id : string) (through limit : Z) (step : DB * DB) : Prop :=
  forall K, row_steps K (may_change session_id through limit K) step.1 step.2.
Lemma mrows_create K fresh now session_id expected through limit key kind vers payload :
  is_object payload = true -> (exists text, dump payload = Some text /\ size_of text <= limit) ->
  MRows K (may_change session_id through limit K)
    (create_session_context_generation fresh now session_id expected through key kind vers payload).
Proof.
  intros Ho Hd. unfold create_session_context_generation.
  do 2 (apply mrows_bind; [first [apply mrows_guard|intros db; unfold m_dump_size; simpl; reflexivity]|intros ?]).
  apply mrows_bind; [apply mrows_guard|intros _]. apply mrows_tx.
  apply trows_bind; [apply trows_pure; pure|intros found]. case_match; [|apply trows_pure; pure].
  apply trows_bind; [apply trows_pure; by intros ? ? ? [= -> _]|intros db]. cbv zeta.
  case_match; [|apply trows_pure; pure].
  apply trows_bind; [apply trows_pure; pure|intros [[current boundary] pred]].
  do 3 (apply trows_bind; [apply trows_pure, pure_guard|intros _]).
  apply trows_bind; [apply trows_pure, pure_check_history|intros seen].
  apply trows_bind; [apply trows_pure, pure_guard|intros _]. cbv zeta.
  apply trows_bind; [apply trows_pure, pure_serialize|intros _].
  apply trows_bind; [|intros _; apply trows_pure, pure_ret].
  apply trows_insert_new. intros <-. split; [done|]. eexists. by split_and!.
Qed.
Lemma mrows_latest K A session_id : MRows K A (latest_session_context_generation session_id).
Proof.
  apply mrows_bind; [apply mrows_guard|intros _]. apply mrows_tx, trows_pure. apply pure_bind; [by intros ? ? ? [= -> _]|].
  intros db. apply pure_ret.
Qed.
Lemma mrows_turns K A session_id after through limit : MRows K A (session_turns_between session_id after through limit).
Proof.
  apply mrows_bind; [apply mrows_guard|intros _]. apply mrows_tx, trows_pure. apply pure_bind; [by intros ? ? ? [= -> _]|].
  intros db. apply pure_ret.
Qed.
End Writes.

Section Log.
Context `{L : JsonLib} {HL : JsonLaws L} {I : Interrupts} {config : ReductionConfig} {E : ReductionEnv}.
Context (session_id : string) (through limit : Z).

(** Every transaction it adds to the log is such a write. *)
Definition logs (w w' : Reductions) : Prop :=
  exists l, rd_log w' = l ++ rd_log w /\ Forall (reduction_write session_id through limit) l.
#[export] Instance logs_preorder : PreOrder logs.
Proof.
  split; [by exists []|]. intros a b c (l & Hb & Hl) (l' & Hc & Hl'). exists (l' ++ l).
  split; [by rewrite Hc, Hb, app_assoc|by apply Forall_app].
Qed.
Lemma logs_call : Always logs rd_call.
Proof. intros w. by exists []. Qed.
Lemma logs_store {A} (m : nat -> M DB A) :
  (forall n K, MRows K (may_change session_id through limit K) (m n)) -> Always logs (rd_store m).
Proof.
  intros Hm w. unfold rd_store, mbind, io_bind. cbn -[rd_ok]. destruct (rd_ok _); [|by exists []]. cbn.
  set (before := rd_others _ _). pose proof (Hm (rd_calls w)) as Hr. destruct (m (rd_calls w) before) as [db r] eqn:Em.
  exists [(before, db)]. split; [done|]. constructor; [|done]. intros K. specialize (Hr K before). by rewrite Em in Hr.
Qed.
Lemma logs_guard b c msg : Always logs (io_guard b c msg : IO Reductions unit).
Proof. apply always_lift; apply _. Qed.
Lemma logs_stop : Always logs guard_stop.
Proof.
  unfold guard_stop, stopped. apply always_bind; [apply _| |intros ?; apply logs_guard].
  apply always_bind; [apply _|apply logs_call|intros ?; apply always_ret; apply _].
Qed.
Lemma logs_gather fuel : forall acc, Always logs (gather fuel session_id through acc).
Proof.
  induction fuel as [|fuel IH]; intros acc; cbn [gather]; (case_match; [apply always_ret; apply _|]);
    [apply always_lift; apply _|].
  apply always_bind; [apply _|apply logs_store; intros n K; apply mrows_turns|intros batch].
  apply always_bind; [apply _|apply logs_guard|intros _].
  apply always_bind; [apply _|apply always_lift; apply _|intros acc']. apply IH.
Qed.
Lemma logs_previous : Always logs (read_previous session_id).
Proof.
  unfold read_previous. apply always_bind; [apply _|apply logs_store; intros n K; apply mrows_latest|intros j].
  case_match; [|apply always_ret; apply _]. apply always_bind; [apply _|apply logs_call|intros n].
  apply always_bind; [apply _|apply always_lift; apply _|intros g]. apply always_ret; apply _.
Qed.
Lemma logs_reducer q : Always logs (run_reducer q).
Proof.
  unfold run_reducer. apply always_bind; [apply _|apply always_lift; apply _|intros r].
  do 2 (apply always_bind; [apply _|apply logs_call|intros ?]). apply always_lift; apply _.
Qed.
Lemma valid_result_ok t r : valid_result through t r = TOk true ->
  is_object (rs_payload r) = true /\ exists text, dump (rs_payload r) = Some text /\ size_of text <= t.
Proof.
  unfold valid_result, dump_exceeds. intros Hv. destruct (_ || _) eqn:Hb; [discriminate Hv|].
  rewrite !orb_false_iff in Hb. destruct Hb as [_ Hb%negb_false_iff]. split; [done|].
  destruct (dump (rs_payload r)) as [text|]; [|discriminate Hv]. cbn in Hv. injection Hv as Hv%negb_true_iff%Z.ltb_ge. eauto.
Qed.
Lemma logs_once retry input : limit = target_bytes - input -> Always logs (reduce_once retry session_id input through).
Proof.
  intros Hlim. unfold reduce_once. cbv zeta. apply always_bind; [apply _|apply logs_previous|intros previous].
  case_match; [apply always_ret; apply _|]. apply always_bind; [apply _|apply always_lift; apply _|intros bytes].
  apply always_bind; [apply _|apply logs_gather|intros history]. case_match; [apply always_ret; apply _|].
  apply always_bind; [apply _|apply logs_reducer|intros result].
  apply (always_bind_post _ (fun valid => valid = true -> is_object (rs_payload result) = true /\
    exists text, dump (rs_payload result) = Some text /\ size_of text <= target_bytes - input));
    [apply always_lift; apply _| |intros valid Hv].
  { intros w w1 valid [= _ Hv] ->. by apply valid_result_ok. }
  destruct valid; [|intros w; by exists []]. destruct (Hv eq_refl) as [Ho Hd]. rewrite <- Hlim in Hd.
  apply always_bind; [apply _|apply logs_guard|intros _]. apply always_bind; [apply _|apply logs_stop|intros _].
  apply always_bind; [apply _|apply always_lift; apply _|intros key].
  apply always_catch; [apply _| |intros e; case_match; [apply always_lift; apply _|apply always_ret; apply _]].
  apply always_bind; [apply _| |intros _; apply always_ret; apply _].
  apply logs_store. intros n K. by apply mrows_create.
Qed.
End Log.

(** ** Properties *)

Section Outcome.
Context `{L : JsonLib} {HL : JsonLaws L} {I : Interrupts} {config : ReductionConfig} {E : ReductionEnv}.

(** The newest generation of the session, as it was read. *)
Definition newest_generation (db : DB) (session_id : string) (previous : option SessionContextGeneration) : Prop :=
  match latest_generation db session_id with
  | None => previous = None
  | Some j => exists fresh now g, generation_of_json fresh now j = TOk g /\ previous = Some g
  end.
(** The newest generation and every turn after it, up to the one before the current turn, were read
    from the session, and together with the input they are small enough to be handed on as they are. *)
Definition small_history (session_id : string) (through input : Z) (l : list (DB * DB)) : Prop :=
  exists db previous bytes turns sizes,
    db ∈ l.*1 /\ newest_generation db session_id previous /\ payload_bytes previous = TOk bytes
    /\ Z.of_nat (length turns) = through - previous_boundary previous /\ numbered (previous_boundary previous) turns
    /\ (forall turn, turn ∈ turns -> saw_turn l session_id turn)
    /\ sized turns sizes
    /\ bytes + sum sizes + input <= target_bytes /\ bytes + sum sizes + input < threshold_bytes.
Definition settled_for (session_id : string) (through input : Z) (w w' : Reductions) : Prop :=
  covered (rd_db w') session_id through
  \/ exists l, rd_log w' = l ++ rd_log w /\ small_history session_id through input l.
Lemma settled_from session_id through input w w1 w' : (exists l, rd_log w1 = l ++ rd_log w) ->
  settled_for session_id through input w1 w' -> settled_for session_id through input w w'.
Proof.
  intros [l0 Hl0] [?|(l & Hl & db & previous & bytes & turns & sizes & Hin & Hg & Hb & Hlen & Hnum & Hsaw & Hsz & H1 & H2)]; [by left|].
  right. exists (l ++ l0). split; [by rewrite Hl, Hl0, app_assoc|].
  assert (Hsub : l.*1 ⊆ (l ++ l0).*1) by (rewrite fmap_app; set_solver).
  exists db, previous, bytes, turns, sizes. split_and!; try done; [by apply Hsub|].
  intros turn Ht. eapply saw_turn_mono; [exact Hsub|by apply Hsaw].
Qed.

Lemma read_previous_ok session_id w w' previous : read_previous session_id w = (w', TOk previous) ->
  match previous with Some g => covered (rd_db w') session_id (through_turn_sequence g) | None => True end
  /\ exists db db', rd_log w' = (db, db') :: rd_log w /\ newest_generation db session_id previous.
Proof.
  unfold read_previous. intros Hr. apply io_bind_ok in Hr as (w1 & j & Hs & Hr).
  apply rd_store_ok in Hs as (n & db & Hl & Hlog). unfold latest_session_context_generation in Hl.
  apply m_bind_ok in Hl as (d1 & [] & Hg & Hl). apply m_guard_ok in Hg as [Hg ->].
  unfold store_tx in Hl. apply transaction_ok in Hl. apply t_bind_ok in Hl as (d2 & d3 & [= <- <-] & [= Hd Hj]).
  unfold newest_generation. destruct j as [j|].
  - apply io_bind_ok in Hr as (w2 & k & Hk & Hr). apply io_bind_ok in Hr as (w3 & g & [= -> Hg'] & [= <- <-]).
    unfold rd_call in Hk. injection Hk as <- _. simpl. split.
    + rewrite <- Hd. eapply latest_covered; [|exact Hj|exact Hg']. intros ->. discriminate Hg.
    + exists db, (rd_db w1). split; [done|]. rewrite Hj. eauto.
  - injection Hr as <- <-. split; [done|]. exists db, (rd_db w1). split; [done|]. by rewrite Hj.
Qed.
Lemma reduce_once_ok retry session_id input through w w' : 0 < through ->
  reduce_once retry session_id input through w = (w', TOk true) -> settled_for session_id through input w w'.
Proof.
  unfold reduce_once. cbv zeta. intros Hpos Hr. apply io_bind_ok in Hr as (w1 & previous & Hp & Hr).
  apply read_previous_ok in Hp as [Hp (db & db' & Hlog & Hnew)].
  destruct (Z.leb_spec through (previous_boundary previous)) as [Hle|Hlt].
  - injection Hr as <-. destruct previous as [g|]; simpl in Hle; [|lia].
    left. destruct Hp as (i & row & t & Hrow & Hs & Ht & Hge). exists i, row, t. split_and!; [done..|lia].
  - apply io_bind_ok in Hr as (w2 & bytes & [= <- Hbytes] & Hr). apply io_bind_ok in Hr as (w3 & history & Hg & Hr).
    apply gather_ok in Hg as (l & turns & sizes & Hl & Hlen & Hnum & Hsaw & Hsz & Hby); [|simpl; lia].
    destruct (_ && _) eqn:Hsmall.
    + right. injection Hr as <-. apply andb_true_iff in Hsmall as [H1%Z.leb_le H2%Z.ltb_lt]. simpl in Hlen, Hnum, Hby.
      exists (l ++ [(db, db')]). split; [by rewrite Hl, Hlog, <- app_assoc|].
      exists db, previous, bytes, turns, sizes. rewrite fmap_app. split_and!; [set_solver|done..| |done|lia|lia].
      intros turn Ht. eapply saw_turn_mono; [|by apply Hsaw]. rewrite fmap_app. set_solver.
    + left. apply io_bind_ok in Hr as (w4 & result & _ & Hr). apply io_bind_ok in Hr as (w5 & valid & _ & Hr).
      apply io_bind_ok in Hr as (w6 & [] & _ & Hr). apply io_bind_ok in Hr as (w7 & [] & _ & Hr).
      apply io_bind_ok in Hr as (w8 & key & _ & Hr). apply io_catch_ok in Hr as [Hr|(w9 & e & _ & Hr)].
      * apply io_bind_ok in Hr as (w9 & j & Hs & [= <-]). apply rd_store_ok in Hs as (n & d & Hc & _).
        eapply create_covered; [lia|exact Hc].
      * case_match; discriminate Hr.
Qed.
End Outcome.

(** C34: when the reduction of a session returns, the turn can run within its budget.  Its input is
    below the target; and if there are earlier turns then either a stored generation of the session
    covers all of them, or the newest generation of the session and every turn after it up to the one
    before the current turn were read from the store, numbered without a gap, and their sizes add up
    with the input to at most the target and less than the threshold.  This holds
    whatever other instances write in between, with any reducer. *)
Theorem reduction_outcome `{L : JsonLib} {HL : JsonLaws L} {I : Interrupts} {config : ReductionConfig} {E : ReductionEnv}
    session_id turn w w' : reduction_enabled = true ->
  reduce_session_context_if_needed session_id turn w = (w', TOk tt) ->
  exists sequence input bytes, value_ dec_u64 turn "sequence" 0 = TOk sequence /\
    value_ dec_json turn "input" JNull = TOk input /\ dump_size input = TOk bytes /\ bytes < target_bytes /\
    (sequence <= 1 \/ settled_for session_id (sequence - 1) bytes w w').
Proof.
  unfold reduce_session_context_if_needed. intros -> Hr. cbn [negb] in Hr.
  apply io_bind_ok in Hr as (w1 & [] & Hstop & Hr). apply io_bind_ok in Hr as (w2 & sequence & [= -> Hseq] & Hr).
  apply io_bind_ok in Hr as (w3 & input & [= -> Hin] & Hr). apply io_bind_ok in Hr as (w4 & bytes & [= -> Hb] & Hr).
  apply io_bind_ok in Hr as (w5 & [] & Hg & Hr). exists sequence, input, bytes. split_and!; [done..| |].
  { destruct (Z.leb_spec target_bytes bytes); [discriminate Hg|lia]. }
  destruct (Z.leb_spec sequence 1); [by left|right]. injection Hg as <- _.
  destruct (always_run _ _ _ _ _ (logs_stop session_id (sequence - 1) 0) Hstop) as (l0 & Hl0 & _).
  apply (settled_from _ _ _ w w4); [by exists l0|].
  apply io_bind_ok in Hr as (w6 & [] & Hd & Hr); [injection Hr as <-; eapply reduce_once_ok; [|exact Hd]; lia|].
  destruct (always_run _ _ _ _ _ (logs_once session_id (sequence - 1) _ true bytes eq_refl) Hd) as (l1 & Hl1 & _).
  apply (settled_from _ _ _ w4 w6); [by exists l1|].
  apply io_bind_ok in Hr as (w7 & [] & Hd' & Hr); [injection Hr as <-; eapply reduce_once_ok; [|exact Hd']; lia|].
  discriminate Hr.
Qed.

(** All a reduction ever writes, whether it returns or throws, is at most a generation of its
    session that reaches exactly to the turn before the current one and whose payload fits beside the
    input of the current turn: each of its transactions leaves every other row of every kind alone. *)
Theorem reduction_writes `{L : JsonLib} {HL : JsonLaws L} {I : Interrupts} {config : ReductionConfig} {E : ReductionEnv}
    session_id turn w sequence input bytes :
  value_ dec_u64 turn "sequence" 0 = TOk sequence -> value_ dec_json turn "input" JNull = TOk input ->
  dump_size input = TOk bytes ->
  exists l, rd_log (reduce_session_context_if_needed session_id turn w).1 = l ++ rd_log w /\
    Forall (reduction_write session_id (sequence - 1) (target_bytes - bytes)) l.
Proof.
  intros Hs Hi Hb. revert w. change (Always (logs session_id (sequence - 1) (target_bytes - bytes))
    (reduce_session_context_if_needed session_id turn)). unfold reduce_session_context_if_needed.
  case_match; [apply always_ret; apply _|]. apply always_bind; [apply _|apply logs_stop|intros _].
  apply (always_bind_post _ (fun s => s = sequence)); [apply always_lift; apply _|intros ? ? ? [= _ ?]; congruence|intros ? ->].
  apply (always_bind_post _ (fun i => i = input)); [apply always_lift; apply _|intros ? ? ? [= _ ?]; congruence|intros ? ->].
  apply (always_bind_post _ (fun b => b = bytes)); [apply always_lift; apply _|intros ? ? ? [= _ ?]; congruence|intros ? ->].
  apply always_bind; [apply _|apply logs_guard|intros _]. case_match; [apply always_ret; apply _|].
  do 2 (apply always_bind; [apply _|by apply logs_once|intros []; [apply always_ret; apply _|]]).
  apply always_lift; apply _.
Qed.

(** *** A session at work: two finished turns, and a budget that only one of them fits. *)
#[local] Instance ten_bytes : JsonLib := {|
  get_string := @get_string strict_json; get_unsigned := @get_unsigned strict_json; get_u64 := @get_u64 strict_json;
  get_bool := @get_bool strict_json; get_double := @get_double strict_json; dump := fun _ => Some "0123456789"%string |}.
#[local] Instance ten_bytes_laws : JsonLaws ten_bytes.
Proof. destruct strict_json_laws. by split. Qed.
#[local] Instance patient : Interrupts := {| stop_requested := fun _ => false; deadline_passed := fun _ => false |}.
#[local] Instance small_budget : ReductionConfig := {|
  reduction_enabled := true; context_reducer := "recent-turns"; reducer_config := JObject [];
  threshold_bytes := 30; target_bytes := 25; max_input_bytes := 1000 |}.
#[local] Instance one_instance : ReductionEnv := {|
  rd_uuid := fun n => of_chars (to_dec (Z.of_nat n)); rd_timestamp := fun _ => "2026-01-01T00:00:00.000Z"%string;
  rd_ok := fun _ => true; rd_others := fun _ db => db;
  context_reducers := {["recent-turns"%string := (fun _ q => reduce q)]} |}.
Definition sample_turn (sequence : Z) : Json := mk_object
  [("id", JString "turn"); ("session_id", JString "s"); ("sequence", JUnsigned sequence);
   ("state", JString "succeeded"); ("input", JString "hello")]%string.
Definition sample_history : DB := empty_db <| tables :=
  <[(KSessionTurn, "t1"%string) := mkRow "s" (sample_turn 1) 1]>
  (<[(KSessionTurn, "t2"%string) := mkRow "s" (sample_turn 2) 2]>
  {[(KAgentSession, "s"%string) := mkRow "s" (session_to_json (new_session "s" "2026-01-01T00:00:00.000Z" "p")) 0]}) |>.
Definition sample_reduction : Reductions * tres unit :=
  reduce_session_context_if_needed "s" (sample_turn 3) (mkReductions sample_history 0 []).

Lemma reduction_outcome_witness : sample_reduction.2 = TOk tt /\ length (rd_log sample_reduction.1) = 3%nat /\
  exists sequence input bytes, value_ dec_u64 (sample_turn 3) "sequence" 0 = TOk sequence /\
    value_ dec_json (sample_turn 3) "input" JNull = TOk input /\ dump_size input = TOk bytes /\ bytes < target_bytes /\
    (sequence <= 1 \/ settled_for "s" (sequence - 1) bytes (mkReductions sample_history 0 []) sample_reduction.1).
Proof.
  assert (Hok : sample_reduction.2 = TOk tt) by (vm_compute; reflexivity).
  split; [exact Hok|]. split; [vm_compute; reflexivity|].
  eapply (reduction_outcome "s" (sample_turn 3) (mkReductions sample_history 0 [])); [reflexivity|].
  change (sample_reduction = (sample_reduction.1, TOk tt)). rewrite <- Hok. apply surjective_pairing.
Defined.
Lemma reduction_writes_witness : exists l, rd_log sample_reduction.1 = l ++ [] /\
  Forall (reduction_write "s" (3 - 1) (25 - 10)) l.
Proof.
  exact (reduction_writes "s" (sample_turn 3) (mkReductions sample_history 0 []) 3 (JString "hello") 10
           eq_refl eq_refl eq_refl).
Defined.
