(* ===== verification/Ingress.v ===== *)
(** * Event ingress

    [EventIngress] of [src/application/event_ingress.cpp]: events that plugins and clients submit are
    admitted up to a capacity, checked, given the identity of their source and stored; an event with an
    external identifier is accepted once.  A submission holds the mutex only for its counters, so
    submissions interleave between the operations on the store. *)

From S2P Require Import Prelude Json Types Text Db Coordination Codec Store Rows Clock Effects Threads.
From Stdlib Require Import Ascii.

Inductive IngressStatus := Accepted | Duplicate | Rejected | Backpressured | Stopped.
#[global] Instance IngressStatus_eq_dec : EqDecision IngressStatus.
Proof. solve_decision. Defined.
Record IngressResult := mkIngressResult { status : IngressStatus; event_id : string; ig_message : string }.
Record EventSubmission := mkEventSubmission {
  sm_source : string; sm_plugin : string; sm_component : string; sm_schema : string; sm_event : string }.

(** [won] and [log] record the claims won and the results returned; the code does not read them. *)
Record Ingress := mkIngressState {
  ig_db : DB; ig_calls : nat;
  accepting_ : bool; pending_ : Z; in_flight_ : gmap string Z;
  accepted_ : Z; rejected_ : Z; deduplicated_ : Z; backpressured_ : Z;
  won : list string; log : list (EventSubmission * IngressResult) }.
#[global] Instance eta_Ingress : Eta Ingress := fun r => mkIngressState
  (ig_db r) (ig_calls r) (accepting_ r) (pending_ r) (in_flight_ r) (accepted_ r) (rejected_ r) (deduplicated_ r)
  (backpressured_ r) (won r) (log r).

Class IngressConfig := { max_pending : Z; max_per_source : Z }.
Class IngressEnv := {
  ig_uuid : nat -> string;
  ig_timestamp : nat -> string;
  ig_ok : nat -> bool;
  parse_json : string -> option Json }.

(** The calls that leave the component: the schema validator and the subscribers of the bus. *)
Inductive IngressCall := Validate (schema : string) (payload : Json) (source : string) | Publish (e : Event).
Definition ingress_answer (c : IngressCall) : Type := unit.
Abbreviation GIO := (IO Ingress).
Abbreviation GTask := (Task (W := Ingress) (answer := ingress_answer)).

Definition max_event_bytes : Z := 1024 * 1024.
Definition max_metadata_bytes : Z := 64 * 1024.
Definition max_type_bytes : Z := 128.
Definition max_identifier_bytes : Z := 256.

(** [[A-Za-z0-9][A-Za-z0-9_.:-]{0,255}] *)
Definition identifier_char (c : ascii) : bool := is_alnum c || one_of ["_"; "."; ":"; "-"]%char c.
Definition identifier (value : string) (maximum : Z) : bool :=
  negb (empty_str value) && (size_of value <=? maximum) &&
  match chars_of value with c :: l => is_alnum c && forallb identifier_char l | [] => false end.
Definition rejected (message : string) : IngressResult :=
  mkIngressResult Rejected "" (if 512 <? size_of message then String.substring 0 512 message else message).

Section Ingress.
Context `{L : JsonLib} {config : IngressConfig} {E : IngressEnv}.

Definition ig_call : GIO nat := fun w => (w <| ig_calls := S (ig_calls w) |>, TOk (ig_calls w)).
Definition ig_now : GIO string := n ← ig_call; mret (ig_timestamp n).
Definition ig_store {A} (m : M DB A) : GIO A :=
  n ← ig_call;
  if ig_ok n then (fun w => let '(db, r) := m (ig_db w) in (w <| ig_db := db |>, of_res r)) : GIO A
  else io_throw StorageError "Storage is unavailable".

(** ** Admission *)

Definition flights (w : Ingress) (source : string) : Z := default 0 (in_flight_ w !! source).
Definition take_slot (source : string) : GIO (option IngressResult) := fun w =>
  if negb (accepting_ w) then (w, TOk (Some (mkIngressResult Stopped "" "Event ingress is stopped")))
  else
    let source_count := flights w source in
    if (max_pending <=? pending_ w) || (max_per_source <=? source_count) then
      ((w <| in_flight_ := <[source := source_count]> (in_flight_ w) |>)
         <| backpressured_ := u64 (backpressured_ w + 1) |>,
       TOk (Some (mkIngressResult Backpressured "" "Event ingress capacity is exhausted")))
    else
      ((w <| pending_ := u64 (pending_ w + 1) |>) <| in_flight_ := <[source := u64 (source_count + 1)]> (in_flight_ w) |>,
       TOk None).
(** The destructor of [Release]. *)
Definition release (source : string) (w : Ingress) : Ingress :=
  let w := w <| pending_ := u64 (pending_ w - 1) |> in
  match in_flight_ w !! source with
  | None => w
  | Some n =>
      let n := u64 (n - 1) in
      w <| in_flight_ := if n =? 0 then delete source (in_flight_ w) else <[source := n]> (in_flight_ w) |>
  end.
(** [stop] then waits until the state is [drained]. *)
Definition stop (w : Ingress) : Ingress := w <| accepting_ := false |>.
Definition drained (w : Ingress) : bool := pending_ w =? 0.
Definition stats (w : Ingress) : Json := mk_object
  [("accepting", JBool (accepting_ w)); ("pending", JUnsigned (pending_ w)); ("accepted", JUnsigned (accepted_ w));
   ("rejected", JUnsigned (rejected_ w)); ("deduplicated", JUnsigned (deduplicated_ w));
   ("backpressured", JUnsigned (backpressured_ w))]%string.
(** The constructor. *)
Definition check_limits (max_trigger_depth : Z) : tres unit :=
  tguard ((max_trigger_depth =? 0) || (max_pending =? 0) || (max_per_source =? 0)) Configuration
    "Invalid event ingress limits".
Definition count_accepted : GIO unit := io_modify (fun w => w <| accepted_ := u64 (accepted_ w + 1) |>).
Definition count_rejected : GIO unit := io_modify (fun w => w <| rejected_ := u64 (rejected_ w + 1) |>).
Definition count_deduplicated : GIO unit := io_modify (fun w => w <| deduplicated_ := u64 (deduplicated_ w + 1) |>).

(** ** The checks of an event *)

(** What an event carries; [inl] is an early rejection. *)
Record Incoming := mkIncoming {
  ic_type : string; ic_external_id : string; ic_occurred_at : string; ic_payload : Json; ic_metadata : Json;
  ic_causation : string; ic_root : string }.
Definition zero_depth (v : Json) : bool :=
  match v with JUnsigned z | JInt z => z =? 0 | _ => false end.
Definition bad_depth (input : Json) : bool :=
  match member input "trigger_depth" with Some v => negb (zero_depth v) | None => false end.
(** The checks stop at the first early return. *)
Definition reject_if {A} (cond : bool) (message : string) (k : tres (IngressResult + A)) : tres (IngressResult + A) :=
  if cond then TOk (inl (rejected message)) else k.
Definition check_input (now : string) (input : Json) : tres (IngressResult + Incoming) :=
  reject_if (existsb (contains input) ["source_id"; "source"; "source_plugin"; "source_component"]%string)
    "Event source identity is assigned by LASO" (
  match member input "type" with
  | Some (JString type) =>
      reject_if (empty_str type || (max_type_bytes <? size_of type) || negb (identifier type max_type_bytes))
        "Event type is invalid" (
      external_id ← value_ dec_string input "external_id" ""%string;
      reject_if (max_identifier_bytes <? size_of external_id) "External event id exceeds the size limit" (
      occurred_at ← value_ dec_string input "occurred_at" now;
      _ ← of_res (parse_utc_timestamp occurred_at);
      payload ← value_ dec_json input "payload" (JObject []);
      metadata ← value_ dec_json input "metadata" (JObject []);
      large ← (if negb (is_object metadata) then TOk true else dump_exceeds metadata max_metadata_bytes);
      reject_if large "Event metadata is invalid or too large" (
      large ← dump_exceeds payload max_event_bytes;
      reject_if large "Event payload exceeds ingress size limit" (
      causation ← value_ dec_string input "causation_id" ""%string;
      root ← value_ dec_string input "root_event_id" ""%string;
      reject_if ((max_identifier_bytes <? size_of causation) || (max_identifier_bytes <? size_of root))
        "Event causation metadata exceeds the size limit" (
      reject_if (bad_depth input) "Event trigger depth is assigned by LASO" (
      TOk (inr (mkIncoming type external_id occurred_at payload metadata causation root))))))))
  | _ => TOk (inl (rejected "Event type is required"))
  end).
Definition check_submission (now : string) (q : EventSubmission) : tres (IngressResult + Incoming) :=
  reject_if (negb (identifier (sm_source q) max_identifier_bytes) || negb (identifier (sm_plugin q) max_identifier_bytes)
             || negb (identifier (sm_component q) max_identifier_bytes)) "Event source identity is invalid" (
  reject_if (max_event_bytes <? size_of (sm_event q)) "Event payload exceeds ingress size limit" (
  match parse_json (sm_event q) with
  | Some (JObject l) => check_input now (JObject l)
  | _ => TOk (inl (rejected "Event must be a JSON object"))
  end)).

(** ** The stored event *)

Definition new_event (id now : string) (q : EventSubmission) (i : Incoming) : Event :=
  let metadata := set_member "source_component" (JString (sm_component q))
                    (set_member "source_plugin" (JString (sm_plugin q))
                       (set_member "source_id" (JString (sm_source q)) (ic_metadata i))) in
  mkEvent id "" "" "" (ic_type i) (ic_occurred_at i) (ic_causation i)
    (if empty_str (ic_root i) then id else ic_root i) 0 (sm_source q) (sm_plugin q) (sm_component q)
    (ic_external_id i) (ic_occurred_at i) now (ic_payload i) metadata.
Definition event_record (e : Event) : StoreRecord := mkRecord KEvent (ev_id e) "" (event_to_json e).
Definition external_claim_id (source external_id : string) : string :=
  ("external-event:" ++ to_string (size_of source) ++ ":" ++ source ++ ":" ++ external_id)%string.
Definition claim_record (e : Event) : StoreRecord :=
  let i := external_claim_id (source_id e) (external_event_id e) in
  mkRecord KExternalEventClaim i ""
    (mk_object [("id", JString i); ("source_id", JString (source_id e));
                ("external_event_id", JString (external_event_id e)); ("event_id", JString (ev_id e));
                ("accepted_at", JString (ingested_at e))]%string).
Definition claim_event (e : Event) : GIO bool :=
  b ← ig_store (claim (claim_record e) [event_record e]);
  _ ← (if (b : bool) then io_modify (fun w => w <| won := rc_id (claim_record e) :: won w |>) else mret tt);
  mret b.
Definition commit_event (e : Event) : GIO unit :=
  n ← ig_call; ig_store (commit (ig_uuid n) (ig_timestamp n) [event_record e]).

(** ** EventSubmission *)

Definition store_event (e : Event) : GTask (option IngressResult) :=
  if empty_str (external_event_id e) then _ ← atomic (commit_event e); mret None
  else
    claimed ← atomic (claim_event e);
    if (claimed : bool) then mret None
    else
      existing ← atomic (ig_store (get_record KExternalEventClaim (rc_id (claim_record e))));
      _ ← atomic count_deduplicated;
      id ← task_lift (value_ dec_string existing "event_id" ""%string);
      mret (Some (mkIngressResult Duplicate id "External event was already accepted")).
Definition ingest (q : EventSubmission) : GTask IngressResult :=
  now ← atomic ig_now;
  r ← task_lift (check_submission now q);
  match r with
  | inl r => mret r
  | inr i =>
      _ ← (if empty_str (sm_schema q) then mret tt else call (Validate (sm_schema q) (ic_payload i) (sm_source q)));
      n ← atomic ig_call;
      ingested ← atomic ig_now;
      let e := new_event (ig_uuid n) ingested q i in
      large ← task_lift (dump_exceeds (ev_metadata e) max_metadata_bytes);
      if (large : bool) then mret (rejected "Event metadata exceeds the size limit")
      else
        known ← store_event e;
        match known with
        | Some r => mret r
        | None =>
            _ ← atomic count_accepted;
            _ ← task_quiet (call (Publish e));
            mret (mkIngressResult Accepted (ev_id e) "Event accepted")
        end
  end.
(** [TStd] is [Json::exception] here; another exception gives the other message. *)
Definition failure_message (x : texn) : string :=
  match error_of x with
  | Some e => if bool_decide (code e = Validation) then what e else "Event ingestion failed"
  | None => match x with TStd => "Event JSON is invalid" | _ => "Event ingestion failed" end
  end.
Definition submit (q : EventSubmission) : GTask IngressResult :=
  refused ← atomic (take_slot (sm_source q));
  match refused with
  | Some r => mret r
  | None =>
      prog_bind (task_handle (ingest q) (fun x => _ ← atomic count_rejected; mret (rejected (failure_message x))))
        (fun r => Block (fun w => (release (sm_source q) w, tt)) (fun _ => Done r))
  end.
End Ingress.
