(* ===== verification/IngressClaims.v ===== *)
(** * Properties of event ingress

    Any number of submissions at once, with other instances writing beside them and restarts of the
    process in between: the capacity is respected and given back, and an external event is accepted once. *)

From S2P Require Import Prelude Json Types Samples Text Db Coordination Codec Store Rows Clock Effects Threads Ingress.
From Stdlib Require Import Ascii.

Abbreviation claim_row := (kind_row KExternalEventClaim).

Section Pool.
Context `{L : JsonLib} {config : IngressConfig} {E : IngressEnv}.
Abbreviation GProg := (Prog (W := Ingress) (answer := ingress_answer)).

(** A thread submits one event and records what it was told, or stops the component. *)
Definition record_result (q : EventSubmission) (r : tres IngressResult) (w : Ingress) : Ingress :=
  match r with TOk r => w <| log := (q, r) :: log w |> | TThrow _ => w end.
Definition submission (q : EventSubmission) : GProg unit :=
  prog_bind (submit q) (fun r => Block (fun w => (record_result q r w, tt)) (fun _ => Done tt)).
Inductive ingress_thread : GProg unit -> Prop :=
  | run_submission q : ingress_thread (submission q)
  | run_stop_ingress : ingress_thread (Block (fun w => (stop w, tt)) (fun _ => Done tt)).
(** Calls leave nothing in the state. *)
Definition unnoted (c : IngressCall) (w : Ingress) : Ingress := w.
(** Other components and instances may add claims, but no one changes or removes one. *)
Definition claims_kept (db db' : DB) : Prop := forall i row, claim_row db i = Some row -> claim_row db' i = Some row.
Definition other_instances (w w' : Ingress) : Prop := exists db, w' = w <| ig_db := db |> /\ claims_kept (ig_db w) db.
(** A new process: empty counters. *)
Definition new_process (w : Ingress) : Ingress :=
  mkIngressState (ig_db w) (ig_calls w) true 0 ∅ 0 0 0 0 (won w) (log w).
Definition ingress_step := pool_step unnoted ingress_thread other_instances new_process.
Definition new_ingress (db : DB) : Ingress := mkIngressState db 0 true 0 ∅ 0 0 0 0 [] [].

(** ** Blocks *)

(** The counters of the capacity are not touched. *)
Definition same_flights (w w' : Ingress) : Prop := pending_ w' = pending_ w /\ in_flight_ w' = in_flight_ w.
#[global] Instance same_flights_preorder : PreOrder same_flights.
Proof. split; [done|]. intros a b c [] []. split; congruence. Qed.
Lemma flights_call : Always same_flights ig_call.
Proof. by intros w. Qed.
Lemma flights_store {A} (m : M DB A) : Always same_flights (ig_store m).
Proof.
  intros w. unfold ig_store, mbind, io_bind. cbn -[ig_ok]. destruct (ig_ok _); [|done]. simpl.
  by destruct (m (ig_db w)).
Qed.
Lemma flights_now : Always same_flights ig_now.
Proof. by intros w. Qed.
Lemma flights_claim e : Always same_flights (claim_event e).
Proof.
  unfold claim_event. apply always_bind; [apply _|apply flights_store|intros b].
  apply always_bind; [apply _|destruct b; by intros w|intros _; by intros w].
Qed.
Lemma flights_commit e : Always same_flights (commit_event e).
Proof. unfold commit_event. apply always_bind; [apply _|apply flights_call|intros n]. apply flights_store. Qed.
End Pool.

(** Programs built from such blocks. *)
Section Respecting.
Context `{L : JsonLib} {config : IngressConfig} {E : IngressEnv} (R : Ingress -> Ingress -> Prop) `{!PreOrder R}.
Abbreviation keeps p := (respects (answer := ingress_answer) unnoted R p).
Context (R_call : Always R ig_call) (R_get : forall i, Always R (ig_store (get_record KExternalEventClaim i)))
  (R_claim : forall e, Always R (claim_event e)) (R_commit : forall e, Always R (commit_event e))
  (R_count : Always R count_accepted /\ Always R count_rejected /\ Always R count_deduplicated).

Lemma keeps_task_bind {A B} (m : GTask A) (f : A -> GTask B) : keeps m -> (forall a, keeps (f a)) -> keeps (m ≫= f).
Proof. intros Hm Hf. apply respects_bind; [exact Hm|]. intros [a|x]; [apply Hf|exact I]. Qed.
Lemma keeps_atomic {A} (m : GIO A) : Always R m -> keeps (atomic m).
Proof. by intros Hm. Qed.
Lemma keeps_external c : keeps (call c).
Proof. split; [|done]. intros w. unfold unnoted. reflexivity. Qed.
Lemma keeps_now : keeps (atomic ig_now).
Proof. split; [|done]. intros w. unfold ig_now, mbind, io_bind. apply R_call. Qed.
Lemma keeps_store_event e : keeps (store_event e).
Proof.
  destruct R_count as (_ & _ & Hd). unfold store_event.
  case_match; [apply keeps_task_bind; [apply keeps_atomic, R_commit|by intros _]|].
  apply keeps_task_bind; [apply keeps_atomic, R_claim|]. intros []; [exact I|].
  apply keeps_task_bind; [apply keeps_atomic, R_get|intros j]. apply keeps_task_bind; [by apply keeps_atomic|intros _].
  by apply keeps_task_bind.
Qed.
Lemma keeps_ingest q : keeps (ingest q).
Proof.
  destruct R_count as (Ha & _ & _). unfold ingest.
  apply keeps_task_bind; [apply keeps_now|intros now]. apply keeps_task_bind; [exact I|].
  intros [r|i]; [exact I|]. apply keeps_task_bind; [case_match; [exact I|apply keeps_external]|intros _].
  apply keeps_task_bind; [by apply keeps_atomic|intros n]. apply keeps_task_bind; [apply keeps_now|intros ing]. cbv zeta.
  apply keeps_task_bind; [exact I|]. intros []; [exact I|].
  apply keeps_task_bind; [apply keeps_store_event|]. intros [r|]; [exact I|].
  apply keeps_task_bind; [by apply keeps_atomic|intros _].
  apply keeps_task_bind; [|intros _; exact I]. apply respects_bind; [apply keeps_external|by intros r].
Qed.
Lemma keeps_handled q :
  keeps (task_handle (ingest q) (fun x => _ ← atomic count_rejected; mret (rejected (failure_message x)))).
Proof.
  destruct R_count as (_ & Hr & _). apply respects_bind; [apply keeps_ingest|]. intros [r|x]; [exact I|].
  apply keeps_task_bind; [by apply keeps_atomic|by intros _].
Qed.
End Respecting.

(** ** Capacity *)

Section Capacity.
Context `{L : JsonLib} {config : IngressConfig} {E : IngressEnv}.
Context (max_pending_ok : 0 <= max_pending <= u64_max) (max_per_source_ok : 0 <= max_per_source <= u64_max).

(** A ticket is a submission that was admitted and has not ended, under its source. *)
Definition Slots (w : Ingress) (T : list string) : Prop :=
  pending_ w = Z.of_nat (length T) /\ (forall s, flights w s = Z.of_nat (count (String.eqb s) T)) /\
  pending_ w <= max_pending /\ forall s, flights w s <= max_per_source.
Definition all_given_back (T : list string) : Prop := T = [].
Lemma slots_perm w T T' : T ≡ₚ T' -> Slots w T -> Slots w T'.
Proof.
  intros Hp (H1 & H2 & H3 & H4). split_and!; [by rewrite H1, Hp|intros s; by rewrite H2, (count_perm _ _ _ Hp)|done|done].
Qed.
Lemma slots_same w w' T : same_flights w w' -> Slots w T -> Slots w' T.
Proof. unfold Slots, flights. intros [-> ->]. done. Qed.
Lemma count_le s T : (count (String.eqb s) T <= length T)%nat.
Proof. unfold count. apply length_filter. Qed.

Lemma slots_equal w w' T : pending_ w' = pending_ w -> (forall s, flights w' s = flights w s) -> Slots w T -> Slots w' T.
Proof. intros Hp Hf (H1 & H2 & H3 & H4). unfold Slots. rewrite Hp. split_and!; [done| |done|]; intros s; by rewrite Hf. Qed.
Lemma slots_take s w F : Slots w F ->
  Slots (take_slot s w).1 (match (take_slot s w).2 with TOk None => s :: F | _ => F end).
Proof.
  intros Hslots. unfold take_slot. destruct (accepting_ w); [|done]. cbn [negb].
  destruct ((max_pending <=? pending_ w) || (max_per_source <=? flights w s)) eqn:Hfull.
  - eapply slots_equal; [| |exact Hslots]; [done|]. intros s'. unfold flights. simpl.
    destruct (decide (s = s')) as [<-|Hne]; [by rewrite lookup_insert_eq|by rewrite lookup_insert_ne].
  - destruct Hslots as (Hp & Hf & Hm & Hs). apply orb_false_iff in Hfull as [Hlt%Z.leb_gt Hlt'%Z.leb_gt].
    pose proof (count_le s F) as Hle. pose proof (Hf s) as Hfs.
    unfold Slots, flights in *. simpl. rewrite !u64_small by lia. split_and!; [lia| |lia|]; intros s'.
    + rewrite count_cons. destruct (decide (s = s')) as [<-|Hne].
      * rewrite lookup_insert_eq, String.eqb_refl. simpl. lia.
      * rewrite lookup_insert_ne by done. apply not_eq_sym, String.eqb_neq in Hne. rewrite Hne. apply Hf.
    + destruct (decide (s = s')) as [<-|Hne]; [rewrite lookup_insert_eq; simpl; lia|].
      rewrite lookup_insert_ne by done. apply Hs.
Qed.
Lemma slots_release s w F : Slots w (s :: F) -> Slots (release s w) F.
Proof.
  intros (Hp & Hf & Hm & Hs). simpl in Hp. pose proof (Hf s) as Hfs. rewrite count_cons, String.eqb_refl in Hfs.
  pose proof (count_le s F) as Hle. unfold release. simpl.
  destruct (in_flight_ w !! s) as [n|] eqn:Hn; [|unfold flights in Hfs; rewrite Hn in Hfs; simpl in Hfs; lia].
  assert (n = 1 + Z.of_nat (count (String.eqb s) F)) as -> by (unfold flights in Hfs; rewrite Hn in Hfs; simpl in Hfs; lia).
  unfold Slots, flights in *. simpl. rewrite !u64_small by lia.
  assert (Hother : forall s', s <> s' ->
    (if 1 + Z.of_nat (count (String.eqb s) F) - 1 =? 0 then delete s (in_flight_ w)
     else <[s:=1 + Z.of_nat (count (String.eqb s) F) - 1]> (in_flight_ w)) !! s' = in_flight_ w !! s').
  { intros s' Hne. case_match; [by rewrite lookup_delete_ne|by rewrite lookup_insert_ne]. }
  assert (Hself : default 0 ((if 1 + Z.of_nat (count (String.eqb s) F) - 1 =? 0 then delete s (in_flight_ w)
     else <[s:=1 + Z.of_nat (count (String.eqb s) F) - 1]> (in_flight_ w)) !! s) = Z.of_nat (count (String.eqb s) F)).
  { destruct (Z.eqb_spec (1 + Z.of_nat (count (String.eqb s) F) - 1) 0);
      [rewrite lookup_delete_eq|rewrite lookup_insert_eq]; simpl; lia. }
  split_and!; [lia| |lia|]; intros s'; destruct (decide (s = s')) as [<-|Hne].
  - exact Hself.
  - rewrite Hother by done. rewrite (Hf s'), count_cons. by destruct (String.eqb_spec s' s) as [->|].
  - rewrite Hself. specialize (Hs s). rewrite Hn in Hs. simpl in Hs. lia.
  - rewrite Hother by done. apply Hs.
Qed.
Lemma slots_start w : accepting_ w = true -> Slots (new_process w) [].
Proof. intros _. unfold Slots, flights. simpl. split_and!; [done|intros s; by rewrite lookup_empty|lia|intros s; rewrite lookup_empty; simpl; lia]. Qed.

Lemma keeps_flights q :
  respects unnoted same_flights (task_handle (ingest q) (fun x => _ ← atomic count_rejected; mret (rejected (failure_message x)))).
Proof.
  apply keeps_handled; [apply _|apply flights_call|intros i; apply flights_store|apply flights_claim|apply flights_commit|].
  by split_and!; intros w.
Qed.
Lemma wp_record q r t : wp (answer := ingress_answer) unnoted Slots all_given_back
  (Block (fun w => (record_result q r w, tt)) (fun _ => Done tt)) t (fun _ t' => t' = t).
Proof.
  intros w F Hi. exists t. split; [|done]. eapply slots_same; [|exact Hi]. unfold record_result. by destruct r.
Qed.
Lemma wp_submission p : ingress_thread p -> wp unnoted Slots all_given_back p [] (fun _ => all_given_back).
Proof.
  intros Hp. destruct Hp as [q|].
  - unfold submission, submit. apply wp_bind. intros w F Hi. simpl in Hi.
    exists (match (take_slot (sm_source q) w).2 with TOk None => [sm_source q] | _ => [] end). split.
    { apply (slots_take (sm_source q)) in Hi. by destruct (take_slot (sm_source q) w).2 as [[]|]. }
    destruct (take_slot (sm_source q) w).2 as [[r|]|x]; [by apply wp_record| |by apply wp_record].
    cbn [prog_bind]. apply wp_bind. eapply wp_mono; [|apply (respects_wp unnoted Slots all_given_back same_flights); [apply slots_same|done|apply keeps_flights]].
    intros r t' ->. intros w' F' Hi'. exists []. split; [by apply slots_release|]. by apply wp_record.
  - intros w F Hi. exists []. split; [|done]. eapply slots_same; [|exact Hi]. done.
Qed.
Lemma ingress_pool_ok db s : rtc ingress_step (new_ingress db, []) s -> pool_ok unnoted Slots all_given_back s.
Proof.
  intros Hs. eapply pool_sound; [apply slots_perm|apply wp_submission| | |exact Hs|].
  - intros w w' T (db' & -> & _). by apply slots_same.
  - intros w T _. apply (slots_start (new_process w)). done.
  - exists []. split; [constructor|]. by apply (slots_start (new_ingress db)).
Qed.
Lemma drained_when_ended db w T : rtc ingress_step (new_ingress db, []) (w, T) -> Forall ended T ->
  pending_ w = 0 /\ forall s, flights w s = 0.
Proof.
  intros Hr Hd. destruct (ingress_pool_ok db _ Hr) as (ts & HT & Hp & Hf & _). simpl in *.
  assert (Hnil : concat ts = []).
  { clear -HT Hd. induction HT as [|p t T ts Hp HT IH]; [done|]. inversion Hd as [|? ? [u ->] Hd']; subst.
    simpl. rewrite IH by done. simpl in Hp. unfold all_given_back in Hp. by subst t. }
  rewrite Hnil in Hp. split; [done|]. intros s. by rewrite Hf, Hnil.
Qed.
End Capacity.

(** C36: the capacity of the ingress is never exceeded and never lost.  Whatever the interleaving of
    submissions, with failing stores, validators and restarts: the pending counter and the counter of
    every source stay within their limits (the unsigned decrements never wrap around), and when all
    submissions have ended both are back at zero, so that [stop] does not wait for ever. *)
Theorem ingress_capacity `{L : JsonLib} {config : IngressConfig} {E : IngressEnv} db w T :
  0 <= max_pending <= u64_max -> 0 <= max_per_source <= u64_max ->
  rtc ingress_step (new_ingress db, []) (w, T) ->
  (0 <= pending_ w <= max_pending /\ forall s, 0 <= flights w s <= Z.min max_per_source (pending_ w)) /\
  (Forall ended T -> pending_ w = 0 /\ forall s, flights w s = 0).
Proof.
  intros Hm Hs Hr. destruct (ingress_pool_ok Hm Hs db _ Hr) as (ts & HT & Hp & Hf & Hle & Hles). simpl in *. split.
  - split; [lia|]. intros s. rewrite (Hf s). specialize (Hles s). rewrite (Hf s) in Hles.
    pose proof (count_le s (concat ts)). lia.
  - by eapply drained_when_ended.
Qed.

(** ** External identifiers *)

Section Claims.
(** Different pairs of a source and an external identifier have different claims. *)
Lemma external_claim_id_inj s1 s2 x1 x2 : size_of s1 <= u64_max -> size_of s2 <= u64_max ->
  external_claim_id s1 x1 = external_claim_id s2 x2 -> s1 = s2 /\ x1 = x2.
Proof.
  intros H1 H2 He. apply (f_equal chars_of) in He. unfold external_claim_id in He.
  rewrite !chars_of_app in He. apply app_inv_head in He. unfold to_string in He. rewrite !chars_of_of_chars in He.
  apply digits_then_colon in He as [Hn He]; [|apply to_dec_digits; unfold size_of; lia..].
  apply (f_equal digits_val) in Hn. rewrite !to_dec_val in Hn by (unfold size_of in *; lia).
  apply app_inj_1 in He as [Hs Hx]; [|rewrite !length_chars_of; unfold size_of in Hn; lia].
  injection Hx as Hx. split; by apply chars_of_inj.
Qed.
End Claims.

(** ** Deduplication *)

Lemma occurrences_nodup i l : NoDup l -> (occurrences i l <= 1)%nat.
Proof.
  induction 1 as [|x l Hx Hl IH]; [unfold occurrences; simpl; lia|]. rewrite occurrences_cons.
  destruct (String.eqb_spec x i) as [->|_]; [rewrite occurrences_none by done|]; lia.
Qed.
Section Once.
Context `{L : JsonLib} {HL : JsonLaws L} {config : IngressConfig} {E : IngressEnv}.

(** The source and the external identifier a submission carries. *)
Definition external_key (q : EventSubmission) : option (string * string) :=
  match parse_json (sm_event q) with
  | Some (JObject l) =>
      match value_ dec_string (JObject l) "external_id" ""%string with
      | TOk external => if empty_str external then None else Some (sm_source q, external)
      | TThrow _ => None
      end
  | _ => None
  end.
Definition claim_of (k : string * string) : string := external_claim_id k.1 k.2.
(** The event a stored claim names. *)
Definition claim_says (db : DB) (c e : string) : Prop :=
  exists row, claim_row db c = Some row /\ value_ dec_string (row_body row) "event_id" ""%string = TOk e.
Definition accepted_under (c : string) (entry : EventSubmission * IngressResult) : bool :=
  match external_key entry.1 with
  | Some k => String.eqb (claim_of k) c && bool_decide (status entry.2 = Accepted)
  | None => false
  end.

(** The right to report that a claim was won, and the event a claim names. *)
Inductive Right := Winner (c : string) | Told (c e : string).
Definition is_winner (c : string) (k : Right) : bool := match k with Winner d => String.eqb d c | _ => false end.
Record Once (w : Ingress) (T : list Right) : Prop := {
  on_won : NoDup (won w);
  on_rows : forall c, c ∈ won w -> is_Some (claim_row (ig_db w) c);
  on_count : forall c, (count (is_winner c) T + count (accepted_under c) (log w) <= occurrences c (won w))%nat;
  on_told : forall c e, Told c e ∈ T -> claim_says (ig_db w) c e;
  on_log : forall q r k, (q, r) ∈ log w -> external_key q = Some k -> status r = Accepted \/ status r = Duplicate ->
    claim_says (ig_db w) (claim_of k) (event_id r) }.
Lemma once_sub w T T' : T' ⊆+ T -> Once w T -> Once w T'.
Proof.
  intros Hs [Hw Hr Hc Ht Hl]. split; [done..| | |done].
  - intros c. pose proof (count_sub (is_winner c) _ _ Hs). specialize (Hc c). lia.
  - intros c e Hin. apply Ht. by eapply elem_of_submseteq.
Qed.
Lemma once_perm w T T' : T ≡ₚ T' -> Once w T -> Once w T'.
Proof. intros Hp. apply once_sub. by rewrite Hp. Qed.

(** Blocks that keep the claims. *)
Definition keeps_claims (w w' : Ingress) : Prop :=
  claims_kept (ig_db w) (ig_db w') /\ won w' = won w /\ log w' = log w.
Lemma claims_kept_refl db : claims_kept db db.
Proof. by intros i row. Qed.
Hint Resolve claims_kept_refl : core.
#[global] Instance keeps_claims_preorder : PreOrder keeps_claims.
Proof. split; [intros w; split_and!; auto|]. intros a b c (H1 & H2 & H3) (H4 & H5 & H6). split_and!; [|congruence..]. intros i row Hr. auto. Qed.
Lemma says_kept db db' c e : claims_kept db db' -> claim_says db c e -> claim_says db' c e.
Proof. intros Hk (row & Hr & He). exists row. auto. Qed.
Lemma once_keeps w w' T : keeps_claims w w' -> Once w T -> Once w' T.
Proof.
  intros (Hk & Hw & Hl) [H1 H2 H3 H4 H5]. split; rewrite ?Hw, ?Hl; [done| |done| |].
  - intros c Hc. destruct (H2 c Hc) as [row Hr]. exists row. auto.
  - intros c e Hin. eapply says_kept; eauto.
  - intros q r k Hin Hq Hs. eapply says_kept; eauto.
Qed.
Lemma row_steps_kept db db' : row_steps KExternalEventClaim (fun _ _ => False) db db' -> claims_kept db db'.
Proof. intros Hr i row Hrow. destruct (Hr i) as [->|(? & ? & ? & _ & [])]. done. Qed.
Lemma ig_store_db {A} (m : M DB A) w :
  keeps_claims w (ig_store m w).1 /\ (exists x, (ig_store m w).2 = TThrow x) \/
  exists db r, m (ig_db w) = (db, r) /\ ig_store m w = ((w <| ig_calls := S (ig_calls w) |>) <| ig_db := db |>, of_res r).
Proof.
  unfold ig_store, mbind, io_bind. cbn -[ig_ok]. destruct (ig_ok _); [right|left; split; [split_and!; auto|by eexists]]. simpl.
  destruct (m (ig_db w)) as [db r]. eauto.
Qed.
Lemma claims_store {A} (m : M DB A) : MRows KExternalEventClaim (fun _ _ => False) m -> Always keeps_claims (ig_store m).
Proof.
  intros Hm w. destruct (ig_store_db m w) as [[H _]|(db & r & Hr & ->)]; [done|]. split_and!; [|done..]. simpl.
  apply row_steps_kept. specialize (Hm (ig_db w)). by rewrite Hr in Hm.
Qed.
Lemma claims_commit e : Always keeps_claims (commit_event e).
Proof.
  unfold commit_event. apply always_bind; [apply _|intros w; split_and!; auto|intros n].
  apply claims_store, mrows_commit. by intros rc [->|[]%elem_of_nil]%elem_of_cons.
Qed.

(** *** Winning a claim *)
Lemma claim_throw rc rs db db' x : claim rc rs db = (db', Throw x) -> tables db' = tables db.
Proof.
  unfold claim, m_bind, m_guard, m_throw, m_ret. intros Hc.
  destruct (empty_str _); simpl in Hc; [by injection Hc as <- _|].
  destruct (negb _); simpl in Hc; [by injection Hc as <- _|]. by apply transaction_throw in Hc as [-> _].
Qed.
Lemma claim_kept rc rs db db' r : claim rc rs db = (db', r) -> claims_kept db db'.
Proof.
  intros Hc i row Hr. destruct r as [b|x]; [apply claim_ok in Hc as [Hg _]; by apply Hg|].
  unfold kind_row. by rewrite (claim_throw _ _ _ _ _ Hc).
Qed.
Definition claimed_rights (e : Event) (r : tres bool) : list Right :=
  match r with TOk true => [Winner (rc_id (claim_record e)); Told (rc_id (claim_record e)) (ev_id e)] | _ => [] end.
Lemma once_claim e w F : Once w F -> Once (claim_event e w).1 (claimed_rights e (claim_event e w).2 ++ F).
Proof.
  intros Ho. unfold claim_event, mbind, io_bind.
  destruct (ig_store_db (claim (claim_record e) [event_record e]) w) as [[Hk [x Hx]]|(db & r & Hr & Heq)].
  - destruct (ig_store _ w) as [w1 r]. simpl in Hk, Hx |- *. subst r. by eapply once_keeps.
  - rewrite Heq. pose proof (claim_kept _ _ _ _ _ Hr) as Hk.
    set (w1 := (w <| ig_calls := S (ig_calls w) |>) <| ig_db := db |>).
    assert (Hk1 : keeps_claims w w1) by (split_and!; [exact Hk|done..]).
    destruct r as [[|]|x]; simpl; try (by eapply once_keeps).
    apply claim_ok in Hr as (_ & Hnone & Hrows). inversion Hrows as [|? ? [n Hrow] _]; subst.
    set (c := external_claim_id _ _) in *. assert (Hnew : c ∉ won w).
    { intros Hc. apply (on_rows _ _ Ho) in Hc as [row Hc]. unfold kind_row in Hc. change (tables (ig_db w) !! (KExternalEventClaim, c) = None) in Hnone. by rewrite Hnone in Hc. }
    destruct (once_keeps _ _ _ Hk1 Ho) as [H1 H2 H3 H4 H5]. split; simpl.
    + by constructor.
    + intros d [->|Hd]%elem_of_cons; [unfold kind_row; by eexists|by apply H2].
    + intros d. rewrite !count_cons, occurrences_cons. specialize (H3 d). simpl in H3 |- *. lia.
    + intros d x [[=]|[[= -> ->]|Hin]%elem_of_cons]%elem_of_cons; [|by apply H4].
      eexists. split; [unfold kind_row; exact Hrow|]. unfold value_. simpl. by rewrite dec_string_of.
    + exact H5.
Qed.

(** *** What a submission is told *)

Lemma reject_if_inr {A} cond message (k : tres (IngressResult + A)) x :
  reject_if cond message k = TOk (inr x) -> k = TOk (inr x).
Proof. unfold reject_if. by destruct cond. Qed.
Lemma reject_if_inl {A} cond message (k : tres (IngressResult + A)) r :
  reject_if cond message k = TOk (inl r) -> status r = Rejected \/ k = TOk (inl r).
Proof. unfold reject_if. destruct cond; [intros [= <-]; by left|by right]. Qed.
Lemma check_submission_rejects now q r : check_submission now q = TOk (inl r) -> status r = Rejected.
Proof.
  unfold check_submission. intros H. do 2 (apply reject_if_inl in H as [?|H]; [done|]).
  destruct (parse_json _) as [[| | | | | | |l]|]; try (by injection H as <-). unfold check_input in H.
  apply reject_if_inl in H as [?|H]; [done|]. destruct (member _ "type") as [[]|]; try (by injection H as <-).
  repeat first [apply tres_bind_ok in H as (? & _ & H) | apply reject_if_inl in H as [?|H]; [done|]]. discriminate H.
Qed.
Lemma check_submission_key now q i : check_submission now q = TOk (inr i) ->
  external_key q = if empty_str (ic_external_id i) then None else Some (sm_source q, ic_external_id i).
Proof.
  unfold check_submission, external_key. intros H. do 2 apply reject_if_inr in H.
  destruct (parse_json _) as [[| | | | | | |l]|]; try discriminate H. unfold check_input in H. apply reject_if_inr in H.
  destruct (member _ "type") as [[]|]; try discriminate H. apply reject_if_inr in H.
  apply tres_bind_ok in H as (external & -> & H). apply reject_if_inr in H.
  repeat first [apply tres_bind_ok in H as (? & _ & H) | apply reject_if_inr in H]. by injection H as <-.
Qed.

Definition entitled (q : EventSubmission) (r : IngressResult) : list Right :=
  match external_key q with
  | Some k =>
      match status r with
      | Accepted => [Winner (claim_of k); Told (claim_of k) (event_id r)]
      | Duplicate => [Told (claim_of k) (event_id r)]
      | _ => []
      end
  | None => []
  end.
Lemma entitled_neither q r : status r <> Accepted -> status r <> Duplicate -> entitled q r = [].
Proof. intros Ha Hd. unfold entitled. by destruct (external_key q), (status r). Qed.
Lemma once_record q r w F : Once w (entitled q r ++ F) -> Once (record_result q (TOk r) w) F.
Proof.
  intros Ho. pose proof (once_sub _ _ F (submseteq_inserts_l _ _ _ (reflexivity F)) Ho) as [H1 H2 H3 H4 H5].
  split; simpl; [done..| |done|].
  - intros c. rewrite count_cons. pose proof (on_count _ _ Ho c) as Hc. rewrite count_app in Hc. specialize (H3 c).
    unfold entitled in Hc. unfold accepted_under at 1. simpl. destruct (external_key q) as [k|]; [|done].
    destruct (status r); rewrite ?count_cons in Hc; simpl in Hc |- *; rewrite ?andb_true_r, ?andb_false_r; lia.
  - intros q' r' k [[= -> ->]|Hin]%elem_of_cons Hk Hs; [|by eapply H5].
    apply (on_told _ _ Ho). apply elem_of_app. left. unfold entitled. rewrite Hk.
    destruct Hs as [-> | ->]; [by right; left|by left].
Qed.

(** A thread may end with rights it did not use. *)
Abbreviation kept p := (respects (answer := ingress_answer) unnoted keeps_claims p).
Definition any_right (T : list Right) : Prop := True.
Abbreviation gwp := (wp (answer := ingress_answer) unnoted Once any_right).
Definition told (q : EventSubmission) (r : tres IngressResult) (t : list Right) : Prop :=
  match r with TOk r => entitled q r ⊆+ t | TThrow _ => True end.
Lemma wp_kept {A B} (p : Prog A) (f : A -> Prog B) t Q : kept p ->
  (forall a, gwp (f a) t Q) -> gwp (prog_bind p f) t Q.
Proof.
  intros Hp Hf. apply wp_bind. eapply wp_mono; [|apply (respects_wp unnoted Once any_right keeps_claims); [apply once_keeps|done|exact Hp]].
  by intros a t' ->.
Qed.
Lemma claims_now : Always keeps_claims ig_now.
Proof. intros w. split_and!; [apply claims_kept_refl|done..]. Qed.
Lemma claims_call : Always keeps_claims ig_call.
Proof. intros w. split_and!; [apply claims_kept_refl|done..]. Qed.
Lemma claims_counts : Always keeps_claims count_accepted /\ Always keeps_claims count_rejected /\ Always keeps_claims count_deduplicated.
Proof. by split_and!; intros w; (split_and!; [apply claims_kept_refl|..]). Qed.
Lemma kept_call c : kept (call c).
Proof. apply keeps_external. apply _. Qed.
Lemma wp_store_event e : gwp (store_event e) [] (fun r t =>
  match r with
  | TOk None => external_event_id e = ""%string \/ t = [Winner (rc_id (claim_record e)); Told (rc_id (claim_record e)) (ev_id e)]
  | TOk (Some d) => external_event_id e <> ""%string /\ status d = Duplicate /\ t = [Told (rc_id (claim_record e)) (event_id d)]
  | TThrow _ => True
  end).
Proof.
  unfold store_event. destruct (empty_str _) eqn:He.
  { apply wp_kept; [apply keeps_atomic, claims_commit|]. intros [[]|x]; [|exact I]. left. by apply String.eqb_eq. }
  intros w F Hi. simpl in Hi. exists (claimed_rights e (claim_event e w).2). split; [by apply once_claim|].
  destruct (claim_event e w).2 as [[|]|x]; simpl; [by right| |exact I].
  intros w' F' Hi'. simpl in Hi'. set (id := external_claim_id (source_id e) (external_event_id e)).
  exists (match (ig_store (get_record KExternalEventClaim id) w').2 with
          | TOk j => match value_ dec_string j "event_id" ""%string with TOk x => [Told id x] | _ => [] end
          | _ => [] end).
  destruct (ig_store_db (get_record KExternalEventClaim id) w') as [[Hk [x Hx]]|(db & r & Hr & Heq)].
  { rewrite Hx. split; [by eapply once_keeps|exact I]. }
  assert (Hkeep : keeps_claims w' (ig_store (get_record KExternalEventClaim id) w').1).
  { apply claims_store, mrows_get. }
  split.
  - eapply once_keeps; [exact Hkeep|]. rewrite Heq. simpl. destruct r as [j|x]; [|done]. simpl.
    destruct (value_ dec_string j "event_id" ""%string) as [x|] eqn:Hv; [|done].
    apply get_record_ok in Hr as (_ & row & Hrow & ->). destruct Hi' as [H1 H2 H3 H4 H5].
    split; [done..| | |done]; simpl.
    + intros c. rewrite count_cons. apply H3.
    + intros c x' [[= -> ->]|Hin]%elem_of_cons; [|by apply H4]. exists row. by split.
  - change (rc_id (claim_record e)) with id. destruct (ig_store (get_record KExternalEventClaim id) w').2 as [j|x]; [|exact I]. simpl.
    intros w2 F2 Hi2. exists (match value_ dec_string j "event_id" ""%string with TOk x => [Told id x] | _ => [] end).
    split; [eapply once_keeps; [|exact Hi2]; by split_and!; [apply claims_kept_refl|..]|].
    simpl. destruct (value_ dec_string j "event_id" ""%string) as [x|]; [|exact I]. simpl. split_and!; [|done..].
    intros He'. by rewrite He' in He.
Qed.
Lemma wp_ingest q : gwp (ingest q) [] (told q).
Proof.
  unfold ingest. apply wp_kept; [apply keeps_atomic, claims_now|]. intros [now|x]; [|exact I]. unfold task_lift.
  apply wp_bind. simpl. destruct (check_submission now q) as [[r|i]|x] eqn:Hc; [| |exact I].
  { simpl. rewrite entitled_neither; [done|by rewrite (check_submission_rejects _ _ _ Hc)..]. }
  apply check_submission_key in Hc. apply wp_kept; [destruct (empty_str (sm_schema q)); [exact I|apply kept_call]|]. intros [[]|x]; [|exact I].
  apply wp_kept; [apply keeps_atomic, claims_call|]. intros [n|x]; [|exact I].
  apply wp_kept; [apply keeps_atomic, claims_now|]. intros [ingested|x]; [|exact I]. cbv zeta.
  apply wp_bind. simpl. destruct (dump_exceeds _ _) as [[|]|x]; [| |exact I].
  { simpl. by rewrite entitled_neither. }
  set (e := new_event _ _ _ _). apply wp_bind. eapply wp_mono; [|apply wp_store_event].
  intros [[d|]|x] t Ht; [| |exact I].
  - destruct Ht as (He & Hs & ->). simpl. unfold entitled. rewrite Hc. simpl in He.
    apply String.eqb_neq in He. unfold empty_str. rewrite He, Hs. done.
  - apply wp_kept; [apply keeps_atomic, (proj1 claims_counts)|]. intros [[]|x]; [|exact I].
    apply wp_kept; [split; [intros w; unfold unnoted; reflexivity|done]|]. intros [[]|x]; [|exact I].
    simpl. unfold entitled. rewrite Hc. simpl. destruct Ht as [He| ->].
    + simpl in He. rewrite He. simpl. apply submseteq_nil_l.
    + destruct (empty_str _); [apply submseteq_nil_l|reflexivity].
Qed.
Lemma claims_take s : Always keeps_claims (take_slot s).
Proof. intros w. unfold take_slot. repeat case_match; (split_and!; [apply claims_kept_refl|done..]). Qed.
Lemma wp_handled q : gwp (task_handle (ingest q) (fun x => _ ← atomic count_rejected; mret (rejected (failure_message x))))
  [] (told q).
Proof.
  apply wp_bind. eapply wp_mono; [|apply wp_ingest]. intros [r|x] t Ht; [exact Ht|].
  apply wp_kept; [apply keeps_atomic, claims_counts|]. intros [[]|y]; [|exact I].
  simpl. rewrite entitled_neither by done. apply submseteq_nil_l.
Qed.
(** The thread of a submission keeps what it may record. *)
Lemma wp_record_told q r t : told q r t -> gwp (Block (fun w => (record_result q r w, tt)) (fun _ => Done tt)) t
  (fun _ => any_right).
Proof.
  intros Ht w F Hi. destruct r as [r|x]; [|by exists t]. exists []. split; [|done]. apply once_record.
  eapply once_sub; [|exact Hi]. by apply submseteq_app.
Qed.
Lemma wp_submission_told p : ingress_thread p -> gwp p [] (fun _ => any_right).
Proof.
  intros [q|].
  - unfold submission. apply wp_bind. eapply wp_mono; [intros r t; apply wp_record_told|]. unfold submit.
    apply wp_bind. intros w F Hi. exists []. split; [eapply once_keeps; [apply claims_take|exact Hi]|].
    unfold take_slot. destruct (accepting_ w); [|by simpl; rewrite entitled_neither]. cbn [negb].
    destruct (_ || _); [by simpl; rewrite entitled_neither|]. apply wp_bind. eapply wp_mono; [|apply wp_handled].
    intros r t Ht w' F' Hi'. exists t. split; [|exact Ht]. eapply once_keeps; [|exact Hi'].
    unfold release. simpl. case_match; (split_and!; [apply claims_kept_refl|done..]).
  - intros w F Hi. exists []. split; [|done]. eapply once_keeps; [|exact Hi]. split_and!; [apply claims_kept_refl|done..].
Qed.
Lemma ingress_once db s : rtc ingress_step (new_ingress db, []) s -> pool_ok unnoted Once any_right s.
Proof.
  intros Hs. eapply pool_sound; [apply once_perm|apply wp_submission_told| | |exact Hs|].
  - intros w w' T (db' & -> & Hk). apply once_keeps. by split_and!.
  - intros w T Hi. eapply once_sub; [apply submseteq_nil_l|]. eapply once_keeps; [|exact Hi].
    split_and!; [apply claims_kept_refl|done..].
  - exists []. split; [constructor|]. split; simpl; [constructor|..].
    + by intros c ?%elem_of_nil.
    + intros c. unfold count, occurrences. done.
    + by intros c e ?%elem_of_nil.
    + by intros q r k ?%elem_of_nil.
Qed.
Definition accepted_for (k : string * string) (entry : EventSubmission * IngressResult) : bool :=
  bool_decide (external_key entry.1 = Some k) && bool_decide (status entry.2 = Accepted).
Lemma accepted_for_under k l : (count (accepted_for k) l <= count (accepted_under (claim_of k)) l)%nat.
Proof.
  induction l as [|[q r] l IH]; [done|]. rewrite !count_cons. unfold accepted_for at 1, accepted_under at 1. simpl.
  case_bool_decide as Hk; simpl; [|lia]. rewrite Hk, String.eqb_refl. simpl. lia.
Qed.
End Once.

(** C16: an event with an external identifier is accepted once.  Whatever the interleaving of
    submissions, with other instances that store claims of their own, failures of the store and of the
    validators, and restarts of the process: of all submissions of a source and an external identifier at
    most one was ever accepted, and the others that were told something of the event, accepted or
    duplicate, were told the same event.  The claims of two pairs of a source and an external identifier
    are different, so that no event suppresses another one. *)
Theorem ingress_deduplicates `{L : JsonLib} `{!JsonLaws L} {config : IngressConfig} {E : IngressEnv} db w T :
  rtc ingress_step (new_ingress db, []) (w, T) ->
  (forall k, (count (accepted_for k) (log w) <= 1)%nat) /\
  (forall k q1 r1 q2 r2, (q1, r1) ∈ log w -> (q2, r2) ∈ log w -> external_key q1 = Some k -> external_key q2 = Some k ->
     status r1 = Accepted \/ status r1 = Duplicate -> status r2 = Accepted \/ status r2 = Duplicate ->
     event_id r1 = event_id r2) /\
  (forall k1 k2, size_of k1.1 <= max_identifier_bytes -> size_of k2.1 <= max_identifier_bytes ->
     claim_of k1 = claim_of k2 -> k1 = k2).
Proof.
  intros Hr. destruct (ingress_once db _ Hr) as (ts & _ & Ho). simpl in Ho. split_and!.
  - intros k. pose proof (on_count _ _ Ho (claim_of k)). pose proof (accepted_for_under k (log w)).
    pose proof (occurrences_nodup (claim_of k) _ (on_won _ _ Ho)). lia.
  - intros k q1 r1 q2 r2 H1 H2 K1 K2 S1 S2. destruct (on_log _ _ Ho _ _ _ H1 K1 S1) as (row & Hrow & He).
    destruct (on_log _ _ Ho _ _ _ H2 K2 S2) as (row' & Hrow' & He'). congruence.
  - intros [s1 x1] [s2 x2] Hs1 Hs2 He. unfold max_identifier_bytes in *. simpl in *.
    destruct (external_claim_id_inj s1 s2 x1 x2) as [-> ->]; [unfold u64_max; lia..|exact He|done].
Qed.

(** *** A run of the ingress *)
#[local] Existing Instances strict_json strict_json_laws.
#[local] Instance sample_ingress_limits : IngressConfig := {| max_pending := 2; max_per_source := 1 |}.
#[local] Instance sample_ingress_env : IngressEnv := {|
  ig_uuid := fun n => ("id-" ++ to_string (Z.of_nat n))%string; ig_timestamp := fun n => "2026-01-01T00:00:00.000Z"%string;
  ig_ok := fun _ => true;
  parse_json := fun s => if empty_str s then None else Some (mk_object [("type", JString "deploy"); ("external_id", JString s)]%string) |}.
Definition sample_ingress_answer (c : IngressCall) : tres (ingress_answer c) := TOk tt.
Definition sample_submission : EventSubmission := mkEventSubmission "ci" "hooks" "github" "" "run-7".
Definition first_end : Ingress * list (Prog unit) :=
  drive unnoted 40 sample_ingress_answer (new_ingress empty_db) (submission sample_submission) [].
Definition again_end : Ingress * list (Prog unit) :=
  drive unnoted 40 sample_ingress_answer first_end.1 (submission sample_submission) first_end.2.
Lemma again_reached : rtc ingress_step (new_ingress empty_db, []) again_end.
Proof.
  assert (Hrun : forall w T, rtc ingress_step (w, T) (drive unnoted 40 sample_ingress_answer w (submission sample_submission) T))
    by (intros w T; apply drive_start, run_submission).
  transitivity first_end; [apply Hrun|]. rewrite (surjective_pairing first_end). apply Hrun.
Qed.
(** In the middle of a submission: one slot is taken. *)
Definition middle_end : Ingress * list (Prog unit) :=
  drive unnoted 3 sample_ingress_answer (new_ingress empty_db) (submission sample_submission) [].
Lemma ingress_capacity_witness : pending_ middle_end.1 = 1 /\ flights middle_end.1 "ci" = 1 /\
  (0 <= pending_ middle_end.1 <= max_pending /\
   forall s, 0 <= flights middle_end.1 s <= Z.min max_per_source (pending_ middle_end.1)) /\
  pending_ again_end.1 = 0.
Proof.
  split; [by vm_compute|]. split; [by vm_compute|]. split.
  - destruct (ingress_capacity empty_db middle_end.1 middle_end.2) as [H _]; [by vm_compute|by vm_compute| |exact H].
    rewrite <- surjective_pairing. apply drive_start, run_submission.
  - destruct (ingress_capacity empty_db again_end.1 again_end.2) as [_ H]; [by vm_compute|by vm_compute| |].
    + rewrite <- surjective_pairing. apply again_reached.
    + assert (Hd : again_end.2 = [Done tt; Done tt]) by (vm_compute; reflexivity).
      rewrite Hd in H. exact (proj1 (H (Forall_cons_2 _ _ _ (ex_intro _ tt eq_refl) (Forall_cons_2 _ _ _ (ex_intro _ tt eq_refl) (Forall_nil_2 _))))).
Defined.
Lemma ingress_deduplicates_witness :
  map (fun x => (status x.2, event_id x.2)) (log again_end.1) = [(Duplicate, "id-1"); (Accepted, "id-1")]%string /\
  external_key sample_submission = Some ("ci", "run-7")%string /\
  (count (accepted_for ("ci", "run-7")%string) (log again_end.1) <= 1)%nat.
Proof.
  split; [by vm_compute|]. split; [by vm_compute|].
  apply (ingress_deduplicates empty_db again_end.1 again_end.2). rewrite <- surjective_pairing. apply again_reached.
Defined.
