(* ===== verification/Steps.v ===== *)
(** * The thread of an execution

    What the coroutines of [src/runtime/execution.cpp] are made of.  An execution holds its run in memory
    ([Loc]) and acts on the runtime through single operations; between them other executions and the
    operations of the runtime go on.  It suspends at calls whose answer comes from outside: the clock and
    the stop token ([context.check]), the limiters, timers, nodes that call functions, models, tools and
    workers, the resolver of sub-pipelines, and the creation of a child run, which locks the runtime
    itself.  A checkpoint is one step. *)

From S2P Require Import Prelude Json Types Text Pipeline Graph Yaml Access Db Coordination Codec Worker Store Rows Sessions RunRows Effects Runtime Files Workspace Execution Lifecycle Threads.

(** [Runtime::ParallelState], shared by the branches of a group. *)
Record ParallelState := mkParallel {
  outputs : list (option Message); completed : Z; ps_steps : Z; ps_failed : bool; ps_error : string; ps_code : ErrorCode }.
#[global] Instance eta_ParallelState : Eta ParallelState := fun r => mkParallel
  (outputs r) (completed r) (ps_steps r) (ps_failed r) (ps_error r) (ps_code r).

(** The runtime with the runs in memory, the groups of local branches and the runs whose coroutine has
    not ended.  Two flags record events; the
    code does not read them: [x_exhausted] that a loop ran out of fuel, [x_derailed] that the start of an
    execution threw, or that a run in memory rests although storing it threw. *)
Record XW := mkXW {
  x_sys : Sys; x_groups : list ParallelState; x_running : gset string; x_exhausted : bool; x_derailed : bool }.
#[global] Instance eta_XW : Eta XW := fun r => mkXW (x_sys r) (x_groups r) (x_running r) (x_exhausted r) (x_derailed r).

(** The part of [ExecutionContext] a node sees. *)
Record NodeContext := mkContext {
  nc_run : string; nc_pipeline : string; nc_node : string; nc_attempt : Z; nc_visit : Z; nc_session : string;
  nc_session_context : option SessionContext; nc_work : string; nc_work_attempt : string }.

Inductive XCall :=
  | CCheck | CSlots | CDelay | CWait
  | CNode (n : NodeDefinition) (c : NodeContext) (m : Message)
  | CResolve (reference : string)
  | CRun (p : PipelineDefinition) (input : Json) (actor parent parent_node : string) (depth : Z)
      (parent_message : string) (origin : Json).
(** A node answers with the worker jobs it reports, the continuations it stages and its result. *)
Record NodeAnswer := mkNodeAnswer { na_started : list string; na_staged : list Continuation; na_result : tres NodeResult }.
Definition x_answer (c : XCall) : Type :=
  match c with
  | CNode _ _ _ => NodeAnswer
  | CResolve _ => PipelineDefinition
  | CRun _ _ _ _ _ _ _ _ => string
  | _ => unit
  end.
Abbreviation XProg := (Prog (W := XW) (answer := x_answer)).

(** The dependencies of the runtime that executions use; [se_details] is what the details of a caught
    error hold, [se_put] the upload of an artifact. *)
Class StepEnv := {
  se_tools : Registry ToolMetadata;
  se_plugin : string -> string;
  se_providers : Registry ProviderMetadata;
  se_models : gmap string string;
  se_model : string -> string;
  se_workers : option WorkerDirectory;
  se_policy : PolicyEngine;
  se_functions : Registry unit;
  se_nodes : Registry (NodeDefinition -> res unit);
  se_resolver : bool;
  se_details : nat -> Json;
  se_duration : nat -> double;
  se_put : option (nat -> string -> Json -> tres (string * string * Z)) }.

(** ** Execution in memory *)

Record Loc := mkLoc {
  l_run : Run; l_attempt : NodeExecution; l_recorded : bool; l_staged : gmap string Continuation }.
#[global] Instance eta_Loc : Eta Loc := fun r => mkLoc (l_run r) (l_attempt r) (l_recorded r) (l_staged r).

(** [Polling]: the thread still waits for others after the polls the model looks at.  [Exhausted]: a loop
    ran out of fuel, which is proved not to happen. *)
Inductive outcome (A : Type) := Value (a : A) | Thrown (x : texn) | Polling | Exhausted.
#[global] Arguments Value {A} _.
#[global] Arguments Thrown {A} _.
#[global] Arguments Polling {A}.
#[global] Arguments Exhausted {A}.
Definition to_outcome {A} (r : tres A) : outcome A := match r with TOk a => Value a | TThrow x => Thrown x end.

(** A throw keeps what was done to the run in memory, as the code works on references. *)
Definition Ex (A : Type) : Type := Loc -> XProg (Loc * outcome A).
#[global] Instance ex_ret : MRet Ex := fun A a l => Done (l, Value a).
#[global] Instance ex_bind : MBind Ex := fun A B f m l =>
  prog_bind (m l) (fun r => match r.2 with
                            | Value a => f a r.1
                            | Thrown x => Done (r.1, Thrown x)
                            | Polling => Done (r.1, Polling)
                            | Exhausted => Done (r.1, Exhausted)
                            end).
Definition ex_out {A} (o : outcome A) : Ex A := fun l => Done (l, o).
Definition ex_lift {A} (r : tres A) : Ex A := ex_out (to_outcome r).
Definition ex_throw {A} (c : ErrorCode) (msg : string) : Ex A := ex_lift (tthrow c msg).
Definition ex_guard (cond : bool) (c : ErrorCode) (msg : string) : Ex unit := ex_lift (tguard cond c msg).
Definition ex_loc : Ex Loc := fun l => Done (l, Value l).
Definition ex_run : Ex Run := l ← ex_loc; mret (l_run l).
Definition ex_modify (f : Loc -> Loc) : Ex unit := fun l => Done (f l, Value tt).
Definition ex_update (f : Run -> Run) : Ex unit := ex_modify (fun l => l <| l_run := f (l_run l) |>).
Definition ex_attempt (f : NodeExecution -> NodeExecution) : Ex unit :=
  ex_modify (fun l => l <| l_attempt := f (l_attempt l) |>).
Definition ex_block {A} (m : IO XW A) : Ex A := fun l => Block m (fun r => Done (l, to_outcome r)).
Definition ex_call (c : XCall) : Ex (x_answer c) := fun l => Call c (fun r => Done (l, to_outcome r)).
Definition ex_spawn (p : XProg unit) : Ex unit := fun l => Spawn p (Done (l, Value tt)).
(** [catch]: the handler gets the exception. *)
Definition ex_handle {A} (m : Ex A) (h : texn -> Ex A) : Ex A := fun l =>
  prog_bind (m l) (fun r => match r.2 with Thrown x => h x r.1 | o => Done (r.1, o) end).
Fixpoint ex_iter {A} (f : A -> Ex unit) (l : list A) : Ex unit :=
  match l with [] => mret tt | x :: l => f x ≫= fun _ => ex_iter f l end.
Definition ex_when (b : bool) (m : Ex unit) : Ex unit := if b then m else mret tt.

(** ** Access to the runtime *)

Section Steps.
Context `{L : JsonLib} `{Y : YamlLib} {E : RuntimeEnv} {X : ExecutionEnv} {SE : StepEnv} (config : RuntimeConfig).

Definition on_rt {A} (m : IO RT A) : IO Sys A := fun s =>
  let '(w, r) := m (sys_rt s) in (mkSys w (locals s), r).
Definition on_sys {A} (m : IO Sys A) : IO XW A := fun w =>
  let '(s, r) := m (x_sys w) in (w <| x_sys := s |>, r).
Definition ex_rt {A} (m : IO RT A) : Ex A := ex_block (on_sys (on_rt m)).

(** A write of the run in memory, in the state [to]. *)
Definition sys_write (r : Run) (to : RunState) (type : string) (rs : list StoreRecord) : IO Sys Run := fun s =>
  (exec_write config r to type rs s, (checkpoint config (r <| state := to |>) type rs (sys_rt s)).2).
Definition noted_write (r : Run) (to : RunState) (type : string) (rs : list StoreRecord) : IO XW Run := fun w =>
  let '(w, r) := on_sys (sys_write r to type rs) w in
  (if match r with TOk _ => false | TThrow _ => resting to end then w <| x_derailed := true |> else w, r).
Definition ex_write (to : RunState) (type : string) (rs : list StoreRecord) : Ex unit := fun l =>
  Block (noted_write (l_run l) to type rs) (fun r =>
    match r with
    | TOk r' => Done (l <| l_run := r' |>, Value tt)
    | TThrow x => Done (l <| l_run := (l_run l) <| state := to |> |>, Thrown x)
    end).
Definition ex_checkpoint (type : string) (rs : list StoreRecord) : Ex unit :=
  r ← ex_run; ex_write (state r) type rs.
Definition ex_transition (to : RunState) (type : string) (rs : list StoreRecord) : Ex unit :=
  r ← ex_run;
  _ ← ex_guard (negb (valid_transition (state r) to)) Execution "Invalid run state transition";
  ex_write to type rs.
Definition ex_attempt_record : Ex StoreRecord :=
  l ← ex_loc; mret (attempt_record (id (l_run l)) (l_attempt l)).

(** ** Helpers of [execution.cpp] *)

Definition bounded_text (value : option Json) (maximum : Z) : string :=
  match value with
  | Some (JString s) => if maximum <? size_of s then String.substring 0 (Z.to_nat maximum) s else s
  | _ => ""%string
  end.
Definition detail_part (name value : string) : string :=
  if empty_str value then ""%string else (", " ++ name ++ "=" ++ value)%string.
Definition validation_detail (e : Error) (details : Json) : string :=
  if negb (bool_decide (code e = Validation)) || negb (is_object details) then ""%string
  else
    let sch := bounded_text (member details "schema") 512 in
    (what e ++ " (" ++ (if empty_str sch then "" else "schema=" ++ sch)
     ++ detail_part "direction" (bounded_text (member details "direction") 32)
     ++ detail_part "instance_path" (bounded_text (member details "instance_path") 1024)
     ++ detail_part "schema_path" (bounded_text (member details "schema_path") 1024)
     ++ detail_part "message" (bounded_text (member details "message") 512) ++ ")")%string.

Definition ephemeral (key : string) : bool := existsb (String.eqb key) ["project_dir"; "workspace_path"; "cwd"]%string.
Fixpoint remove_ephemeral_workspace_paths (value : Json) : Json :=
  match value with
  | JArray l => JArray (map remove_ephemeral_workspace_paths l)
  | JObject fields =>
      JObject ((fix go (fields : list (string * Json)) : list (string * Json) :=
                  match fields with
                  | [] => []
                  | (k, v) :: fields => if ephemeral k then go fields else (k, remove_ephemeral_workspace_paths v) :: go fields
                  end) fields)
  | v => v
  end.

(** The nodes reachable from a branch before its join, in the order of the code's stack, whose top is the
    head of [pending].  [f] stops the walk with [None]; [nodes.at] throws for an unknown node. *)
Definition targets (p : PipelineDefinition) (node : string) : list string :=
  map e_to (filter (fun e => e_from e = node) (edges p)).
Fixpoint walk_branch {A} (fuel : nat) (p : PipelineDefinition) (f : A -> NodeDefinition -> option A) (acc : A)
    (pending : list string) (visited : gset string) : tres (option A) :=
  match fuel, pending with
  | _, [] => TOk (Some acc)
  | O, _ => TThrow TStd
  | S fuel, node :: pending =>
      if bool_decide (node ∈ visited) then walk_branch fuel p f acc pending visited
      else
        match nodes p !! node with
        | None => TThrow TStd
        | Some n =>
            let visited := {[node]} ∪ visited in
            if String.eqb (n_type n) "join" then walk_branch fuel p f acc pending visited
            else match f acc n with
                 | None => TOk None
                 | Some acc => walk_branch fuel p f acc (rev (targets p node) ++ pending) visited
                 end
        end
  end.
Definition walk_fuel (p : PipelineDefinition) : nat := S (length (edges p)).
Definition distributable_node (u : unit) (n : NodeDefinition) : option unit :=
  if existsb (String.eqb (n_type n)) ["function"; "validator"; "router"; "worker"]%string then Some tt else None.
Definition distributable (p : PipelineDefinition) (t : ExecutionToken) : tres bool :=
  r ← walk_branch (walk_fuel p) p distributable_node tt [t_node_id t] ∅;
  TOk (match r with Some _ => true | None => false end).
(** The worker and the capability the workers of a branch agree on. *)
Definition requirement_node (found : option (string * string)) (n : NodeDefinition) : option (option (string * string)) :=
  if String.eqb (n_type n) "worker" then
    match found with
    | Some (w, c) => if String.eqb w (binding n) && String.eqb c (capability n) then Some found else None
    | None => Some (Some (binding n, capability n))
    end
  else Some found.
Definition worker_requirement (p : PipelineDefinition) (t : ExecutionToken) : tres (option (option (string * string))) :=
  walk_branch (walk_fuel p) p requirement_node None [t_node_id t] ∅.

(** [object_workspace_manifest]: the inline files become artifacts. *)
Fixpoint upload_files (put : string -> Json -> tres (string * string * Z)) (l : list Json) : tres (list Json) :=
  match l with
  | [] => TOk []
  | entry :: l =>
      data ← at_ dec_json entry "data";
      path ← at_ dec_json entry "path";
      name ← at_ dec_string entry "path";
      saved ← put name data;
      let '(object_id, digest, size) := saved in
      rest ← upload_files put l;
      TOk (mk_object [("path", path); ("object_id", JString object_id); ("sha256", JString digest);
                      ("size", JUnsigned size)]%string :: rest)
  end.
Definition object_workspace_manifest (put : string -> Json -> tres (string * string * Z)) (manifest : Json) : tres Json :=
  version ← value_ dec_unsigned manifest "version" 1;
  if negb (version =? 1) then TOk manifest
  else
    _ ← validate_workspace_manifest manifest default_limits;
    files ← manifest_files manifest;
    uploaded ← upload_files put files;
    let result := mk_object [("version", JUnsigned 2); ("storage", JString "content-addressed"); ("files", JArray uploaded)]%string in
    _ ← validate_workspace_manifest result default_limits;
    TOk result.

(** ** Nodes *)

Definition node_permission (n : NodeDefinition) (r : Run) : tres PolicyResult :=
  of_res (permission se_tools se_providers se_models se_workers se_policy n r).
Definition structural (type : string) : bool :=
  existsb (String.eqb type) ["input"; "output"; "approval"; "parallel"; "join"; "subpipeline"; "loop"; "router"; "validator"]%string.
Definition make_node (n : NodeDefinition) : res unit :=
  if structural (n_type n) then Ok tt
  else if String.eqb (n_type n) "function" then reg_get se_functions (binding n)
  else if String.eqb (n_type n) "tool" then (_ ← reg_get se_tools (binding n); Ok tt)
  else if String.eqb (n_type n) "worker" then
    match se_workers with
    | None => Throw (err Execution "Worker manager is unavailable")
    | Some w => _ ← resolve_worker w (binding n) (capability n); Ok tt
    end
  else if String.eqb (n_type n) "agent" then
    match se_models !! binding n with
    | None => Throw (err Provider "Logical model not configured")
    | Some provider => _ ← reg_get se_providers provider; Ok tt
    end
  else factory ← reg_get se_nodes (n_type n); factory n.

(** [stage_provider_continuation] *)
Definition valid_stage (c : Continuation) : bool :=
  negb (empty_str (provider_id c)) && (size_of (provider_id c) <=? 256)
  && negb (empty_str (provider_version c)) && (size_of (provider_version c) <=? 128)
  && negb (empty_str (c_state c)) && (size_of (c_state c) <=? 64 * 1024).
Fixpoint stage_continuations (l : list Continuation) : Ex unit :=
  match l with
  | [] => mret tt
  | c :: l =>
      _ ← ex_guard (negb (valid_stage c)) Provider "Provider returned invalid continuation state";
      _ ← ex_modify (fun loc => loc <| l_staged := <[provider_id c := c]> (l_staged loc) |>);
      stage_continuations l
  end.
Definition ex_validate (sch : string) (value : Json) (name direction : string) : Ex unit :=
  ex_lift (of_res (rt_schema sch value name direction)).

(** [node->execute(context, message)]: the nodes of the runtime itself are computed, the others are
    calls.  [started] is [worker_job_started]; [staging] says whether the context has
    [stage_provider_continuation], and a node that stages an invalid continuation lets the exception through. *)
Definition execute_node (started : string -> Ex unit) (staging : bool) (n : NodeDefinition) (c : NodeContext) (m : Message) : Ex NodeResult :=
  if structural (n_type n) then
    _ ← ex_call CCheck;
    if String.eqb (n_type n) "loop" then mret (loop_execute (n_max_iterations n) (nc_visit c) m)
    else if String.eqb (n_type n) "router" then mret (router_execute n "" m)
    else if String.eqb (n_type n) "validator" then
      now ← ex_rt now_string;
      ex_lift (of_res (validator_execute (fun sch v => rt_schema sch v (n_id n) "validator") n now m))
    else mret (passthrough_execute m)
  else
    answer ← ex_call (CNode n c m);
    _ ← ex_iter started (na_started answer);
    _ ← ex_when staging (stage_continuations (na_staged answer));
    ex_lift (na_result answer).
End Steps.
