(* ===== verification/Walk.v ===== *)
(** * The nodes of a branch

    What the walks of [execute_parallel] compute: whether a branch can be given to other instances
    ([distributable]), and which worker its workers agree on ([worker_requirement]).  Both follow the
    edges from the first node of the branch up to joins with a stack and a set of visited nodes. *)

From S2P Require Import Prelude Json Types Samples Text Pipeline Graph Yaml Access Db Coordination Codec Worker Store Rows Sessions RunRows Effects Runtime Files Workspace Execution Lifecycle Threads Steps.

Definition inner (n : NodeDefinition) : bool := negb (String.eqb (n_type n) "join").
(** The nodes of the branch that starts at a node, with the joins it ends at. *)
Inductive reaches (p : PipelineDefinition) (start : string) : string -> Prop :=
  | reaches_start : reaches p start start
  | reaches_edge e n : reaches p start (e_from e) -> nodes p !! e_from e = Some n -> inner n = true -> e ∈ edges p ->
      reaches p start (e_to e).
Fixpoint fold_opt {A B} (f : A -> B -> option A) (acc : A) (l : list B) : option A :=
  match l with
  | [] => Some acc
  | x :: l => match f acc x with Some acc => fold_opt f acc l | None => None end
  end.
Lemma fold_opt_app {A B} (f : A -> B -> option A) acc l x :
  fold_opt f acc (l ++ [x]) = match fold_opt f acc l with Some a => f a x | None => None end.
Proof. revert acc. induction l as [|y l IH]; intros acc; simpl; [by destruct (f acc x)|]. by destruct (f acc y). Qed.

Lemma elem_of_rev {A} (x : A) l : x ∈ rev l <-> x ∈ l.
Proof. by rewrite !list_elem_of_In, <- in_rev. Qed.

Section Walk.
Context (p : PipelineDefinition) (start : string) {A : Type} (f : A -> NodeDefinition -> option A) (acc0 : A).

Definition open_edges (visited : gset string) : list EdgeDefinition := filter (fun e => e_from e ∉ visited) (edges p).
(** The walk has taken the inner nodes [ns] of [visited], in this order. *)
Record walking (ns : list NodeDefinition) (acc : A) (pending : list string) (visited : gset string) : Prop := {
  wk_fold : fold_opt f acc0 ns = Some acc;
  wk_taken : forall n, n ∈ ns -> exists m, reaches p start m /\ nodes p !! m = Some n /\ inner n = true;
  wk_reached : forall m, m ∈ visited \/ m ∈ pending -> reaches p start m;
  wk_start : start ∈ visited \/ start ∈ pending;
  wk_closed : forall m n, m ∈ visited -> nodes p !! m = Some n -> inner n = true -> n ∈ ns /\ forall t, t ∈ targets p m -> t ∈ visited \/ t ∈ pending;
  wk_known : forall m, m ∈ visited -> is_Some (nodes p !! m) }.

Lemma elem_of_targets m t : t ∈ targets p m <-> exists e, e ∈ edges p /\ e_from e = m /\ e_to e = t.
Proof.
  unfold targets. rewrite list_elem_of_In, in_map_iff. split.
  - intros (e & <- & [? ?]%list_elem_of_In%list_elem_of_filter). by exists e.
  - intros (e & He & Hm & <-). exists e. split; [done|]. apply list_elem_of_In, list_elem_of_filter. done.
Qed.
(** Every pop of an unvisited node pushes its edges, which then are not open any more. *)
Lemma open_edges_visit m visited : m ∉ visited ->
  (length (targets p m) + length (open_edges ({[m]} ∪ visited)) = length (open_edges visited))%nat.
Proof.
  intros Hm. unfold targets, open_edges. rewrite length_map. induction (edges p) as [|e l IH]; [done|]. rewrite !filter_cons.
  destruct (String.eqb_spec (e_from e) m) as [He|He].
  - rewrite decide_True by done. rewrite decide_False by set_solver. rewrite decide_True by (by rewrite He). simpl. lia.
  - rewrite decide_False by done. destruct (stdpp.base.decide (e_from e ∈ visited)).
    + rewrite !decide_False by set_solver. done.
    + rewrite !decide_True by set_solver. simpl. lia.
Qed.
Definition walked (res : tres (option A)) : Prop :=
  match res with
  | TOk (Some a) => exists ns, fold_opt f acc0 ns = Some a /\ (forall m, reaches p start m -> is_Some (nodes p !! m)) /\
      forall n, n ∈ ns <-> exists m, reaches p start m /\ nodes p !! m = Some n /\ inner n = true
  | TOk None => exists ns, fold_opt f acc0 ns = None /\
      forall n, n ∈ ns -> exists m, reaches p start m /\ nodes p !! m = Some n /\ inner n = true
  | TThrow _ => exists m, reaches p start m /\ nodes p !! m = None
  end.
Lemma walking_done ns acc visited : walking ns acc [] visited -> walked (TOk (Some acc)).
Proof.
  intros [W1 W2 W3 W4 W5 W6]. assert (Hall : forall m, reaches p start m -> m ∈ visited).
  { induction 1 as [|e n Hr IH Hn Hi He]; [by destruct W4 as [?|[]%elem_of_nil]|].
    destruct (W5 _ _ IH Hn Hi) as [_ Ht]. destruct (Ht (e_to e)) as [?|[]%elem_of_nil]; [|done]. apply elem_of_targets. eauto. }
  exists ns. split_and!; [done|auto|]. intros n. split; [auto|]. intros (m & Hr & Hn & Hi). by eapply W5; [apply Hall|..].
Qed.
Lemma walk_correct : forall fuel ns acc pending visited, walking ns acc pending visited ->
  (length pending + length (open_edges visited) <= fuel)%nat -> walked (walk_branch fuel p f acc pending visited).
Proof.
  induction fuel as [|fuel IH]; intros ns acc [|m pending] visited Hw Hf; simpl in *; try by eapply walking_done.
  { lia. }
  destruct Hw as [W1 W2 W3 W4 W5 W6]. assert (Hm : reaches p start m) by (apply W3; right; by left).
  case_bool_decide as Hv.
  { apply (IH ns); [|lia]. split; try done.
    - intros x [?|?]; apply W3; [by left|right; by right].
    - destruct W4 as [?|[->|?]%elem_of_cons]; auto.
    - intros x n Hx Hn Hi. destruct (W5 x n Hx Hn Hi) as [Hns Ht]. split; [done|]. intros t Hin.
      destruct (Ht t Hin) as [?|[->|?]%elem_of_cons]; auto. }
  destruct (nodes p !! m) as [n|] eqn:Hn; [|by exists m]. pose proof (open_edges_visit m visited Hv) as Hopen.
  assert (Hnew : forall pending', (forall x, x ∈ pending -> x ∈ pending') -> (forall x, x ∈ pending' -> x ∈ pending \/ (inner n = true /\ x ∈ targets p m)) ->
    (inner n = true -> forall t, t ∈ targets p m -> t ∈ pending') -> forall ns' acc', (forall x, x ∈ ns -> x ∈ ns') -> (inner n = true -> n ∈ ns') ->
    fold_opt f acc0 ns' = Some acc' -> (forall x, x ∈ ns' -> x ∈ ns \/ (x = n /\ inner n = true)) -> walking ns' acc' pending' ({[m]} ∪ visited)).
  { intros pending' P1 P2 P3 ns' acc' N1 N2 N3 N4. split; [done|..].
    - intros x [?|[-> ?]]%N4; [auto|]. exists m. done.
    - intros x [Hx|Hx]; [apply elem_of_union in Hx as [->%elem_of_singleton|Hx]; auto|].
      destruct (P2 x Hx) as [?|[Hi (e & He & <- & <-)%elem_of_targets]]; [apply W3; right; by right|]. by eapply reaches_edge.
    - destruct W4 as [?|[->|?]%elem_of_cons]; [left|left|right]; [set_solver..|auto].
    - intros x n' Hx Hn' Hi. apply elem_of_union in Hx as [->%elem_of_singleton|Hx].
      + assert (n' = n) as -> by congruence. auto.
      + destruct (W5 x n' Hx Hn' Hi) as [Hns Ht]. split; [auto|]. intros t Hin.
        destruct (Ht t Hin) as [?|[->|?]%elem_of_cons]; [left; set_solver|left; set_solver|right; auto].
    - intros x [->%elem_of_singleton|Hx]%elem_of_union; [by eexists|auto]. }
  unfold inner in Hnew. destruct (String.eqb (n_type n) "join") eqn:Hj; simpl in Hnew.
  { apply (IH ns); [|lia]. apply Hnew; try done; auto. }
  destruct (f acc n) as [acc'|] eqn:Hfa.
  - apply (IH (ns ++ [n])); [|rewrite length_app, length_rev; lia]. apply Hnew.
    + intros x Hx. apply elem_of_app. by right.
    + intros x [Hx|Hx]%elem_of_app; [rewrite elem_of_rev in Hx; right; by split|by left].
    + intros _ t Ht. apply elem_of_app. left. by apply elem_of_rev.
    + intros x Hx. apply elem_of_app. by left.
    + intros _. apply elem_of_app. right. by left.
    + by rewrite fold_opt_app, W1.
    + intros x [Hx|[->|[]%elem_of_nil]%elem_of_cons]%elem_of_app; auto.
  - exists (ns ++ [n]). split; [by rewrite fold_opt_app, W1|]. intros x [Hx|[->|[]%elem_of_nil]%elem_of_cons]%elem_of_app; [auto|].
    exists m. unfold inner. by rewrite Hj.
Qed.
Lemma walk_all : walked (walk_branch (walk_fuel p) p f acc0 [start] ∅).
Proof.
  assert (Hl : (length (open_edges ∅) <= length (edges p))%nat) by apply length_filter.
  apply (walk_correct _ []); [|unfold walk_fuel; simpl; lia].
  split; try done.
  - by intros n []%elem_of_nil.
  - intros m [[]%elem_of_empty|[->|[]%elem_of_nil]%elem_of_cons]. constructor.
  - right. by left.
Qed.
End Walk.

(** The types of nodes other instances can run. *)
Definition portable (n : NodeDefinition) : Prop :=
  n_type n = "function"%string \/ n_type n = "validator"%string \/ n_type n = "router"%string \/ n_type n = "worker"%string.
Definition branch_node (p : PipelineDefinition) (t : ExecutionToken) (n : NodeDefinition) : Prop :=
  exists m, reaches p (t_node_id t) m /\ nodes p !! m = Some n /\ inner n = true.
Lemma distributable_portable n u : distributable_node u n = Some tt <-> portable n.
Proof.
  unfold distributable_node, portable. simpl.
  destruct (String.eqb_spec (n_type n) "function"), (String.eqb_spec (n_type n) "validator"), (String.eqb_spec (n_type n) "router"),
    (String.eqb_spec (n_type n) "worker"); simpl; naive_solver.
Qed.
Lemma fold_portable ns : fold_opt distributable_node tt ns = Some tt <-> Forall portable ns.
Proof.
  induction ns as [|n ns IH]; simpl; [done|]. rewrite Forall_cons, <- (distributable_portable n tt).
  destruct (distributable_node tt n) as [[]|]; [naive_solver|]. split; [done|by intros [? _]].
Qed.
Definition needs (n : NodeDefinition) (w : string * string) : Prop := n_type n = "worker"%string /\ w = (binding n, capability n).
Lemma requirement_some found n found' : requirement_node found n = Some found' ->
  (found' = found \/ exists w, needs n w /\ found' = Some w) /\ (n_type n = "worker"%string -> found' = Some (binding n, capability n))
  /\ (forall w, found = Some w -> found' = Some w).
Proof.
  unfold requirement_node, needs. destruct (String.eqb_spec (n_type n) "worker"); [|by intros [= <-]; naive_solver].
  destruct found as [[w c]|]; [|intros [= <-]; naive_solver].
  destruct (String.eqb_spec w (binding n)), (String.eqb_spec c (capability n)); simpl; intros [= <-]; naive_solver.
Qed.
Lemma requirement_none found n : requirement_node found n = None -> exists w, found = Some w /\ n_type n = "worker"%string /\ w <> (binding n, capability n).
Proof.
  unfold requirement_node. destruct (String.eqb_spec (n_type n) "worker"); [|done]. destruct found as [[w c]|]; [|done].
  destruct (String.eqb_spec w (binding n)), (String.eqb_spec c (capability n)); simpl; [done|intros _; exists (w, c); naive_solver..].
Qed.
Lemma fold_requirement ns : forall found, match fold_opt requirement_node found ns with
  | Some found' => (forall w, found = Some w -> found' = Some w) /\ (forall n, n ∈ ns -> n_type n = "worker"%string -> found' = Some (binding n, capability n))
      /\ (found' = found \/ exists n w, n ∈ ns /\ needs n w /\ found' = Some w)
  | None => exists n w, n ∈ ns /\ n_type n = "worker"%string /\ w <> (binding n, capability n) /\ (found = Some w \/ exists n', n' ∈ ns /\ needs n' w)
  end.
Proof.
  induction ns as [|n ns IH]; intros found; simpl; [split_and!; [done|by intros n []%elem_of_nil|by left]|].
  destruct (requirement_node found n) as [f1|] eqn:Hr.
  - apply requirement_some in Hr as (H1 & H2 & H3). specialize (IH f1). destruct (fold_opt requirement_node f1 ns) as [f2|].
    + destruct IH as (I1 & I2 & I3). split_and!; [auto| |].
      * intros x [->|Hx]%elem_of_cons Hw; [|by apply I2]. by apply I1, H2.
      * destruct I3 as [->|(x & w & Hx & Hw)]; [|right; exists x, w; split; [by right|done]].
        destruct H1 as [->|(w & Hw & ->)]; [by left|]. right. exists n, w. split; [by left|done].
    + destruct IH as (x & w & Hx & Hw & Hne & Hc). exists x, w. split_and!; [by right|done..|].
      destruct Hc as [->|(y & Hy & Hn)]; [|right; exists y; split; [by right|done]].
      destruct H1 as [->|(w' & Hw' & [= <-])]; [by left|]. right. exists n. split; [by left|done].
  - apply requirement_none in Hr as (w & -> & Hw & Hne). exists n, w. split_and!; [by left|done..|by left].
Qed.

(** C26: which branches other instances can take, and with which worker.  [distributable] says whether every
    node of the branch before its joins is a function, a validator, a router or a worker;
    [worker_requirement] returns the worker and the capability that all worker nodes of the branch
    name, none when it has no worker, and refuses a branch whose workers differ.  Both throw only for an
    edge that leads to an unknown node; the stack never holds more than the edges allow. *)
Theorem branch_walks_correct p t :
  match distributable p t with
  | TOk true => forall n, branch_node p t n -> portable n
  | TOk false => exists n, branch_node p t n /\ ~ portable n
  | TThrow _ => exists m, reaches p (t_node_id t) m /\ nodes p !! m = None
  end /\
  match worker_requirement p t with
  | TOk (Some (Some w)) => (exists n, branch_node p t n /\ needs n w) /\
      forall n, branch_node p t n -> n_type n = "worker"%string -> needs n w
  | TOk (Some None) => forall n, branch_node p t n -> n_type n <> "worker"%string
  | TOk None => exists n n' w w', branch_node p t n /\ branch_node p t n' /\ needs n w /\ needs n' w' /\ w <> w'
  | TThrow _ => exists m, reaches p (t_node_id t) m /\ nodes p !! m = None
  end.
Proof.
  split.
  - unfold distributable. pose proof (walk_all p (t_node_id t) distributable_node tt) as Hw.
    destruct (walk_branch _ _ _ _ _ _) as [[[]|]|x]; simpl in *; [| |done].
    + destruct Hw as (ns & Hf & _ & Hn). apply fold_portable in Hf. rewrite Forall_forall in Hf. intros n Hb. by apply Hf, Hn.
    + destruct Hw as (ns & Hf & Hn). assert (Hx : Exists (fun n => ~ portable n) ns).
      { apply not_Forall_Exists; [intros n; unfold portable; apply _|]. intros Ha%fold_portable. congruence. }
      apply Exists_exists in Hx as (n & Hin & Hp). exists n. split; [by apply Hn|done].
  - unfold worker_requirement. pose proof (walk_all p (t_node_id t) requirement_node None) as Hw.
    destruct (walk_branch _ _ _ _ _ _) as [[[w|]|]|x]; simpl in *; [| | |done].
    + destruct Hw as (ns & Hf & _ & Hn). pose proof (fold_requirement ns None) as Hr. rewrite Hf in Hr. destruct Hr as (_ & R2 & R3). split.
      * destruct R3 as [[=]|(n & w' & Hin & Hw & [= ->])]. exists n. split; [by apply Hn|done].
      * intros n Hb Hw. split; [done|]. apply Hn in Hb. specialize (R2 n Hb Hw). congruence.
    + destruct Hw as (ns & Hf & _ & Hn). pose proof (fold_requirement ns None) as Hr. rewrite Hf in Hr. destruct Hr as (_ & R2 & _).
      intros n Hb Hw. apply Hn in Hb. by specialize (R2 n Hb Hw).
    + destruct Hw as (ns & Hf & Hn). pose proof (fold_requirement ns None) as Hr. rewrite Hf in Hr.
      destruct Hr as (n & w & Hin & Hw & Hne & [[=]|(n' & Hin' & Hn')]). exists n', n, w, (binding n, capability n).
      split_and!; [by apply Hn..|done|by split|done].
Qed.
