(* ===== verification/Branches.v ===== *)
(** * Parallel branches

    [execute_branch] and [execute_parallel] of [src/runtime/execution.cpp]: the branches of a parallel
    node run as threads that share a [ParallelState], or become work items that other instances claim. *)

From S2P Require Import Prelude Json Types Text Pipeline Graph Yaml Access Db Coordination Codec Worker Store Rows Sessions RunRows Effects Runtime Files Workspace Execution Lifecycle Threads Steps.

Section Branches.
Context `{L : JsonLib} `{Y : YamlLib} {E : RuntimeEnv} {X : ExecutionEnv} {SE : StepEnv} (config : RuntimeConfig).
(** How often a waiting thread looks at what it waits for. *)
Context (polls : nat).

(** ** The shared state of a group *)

Definition on_group {A} (g : nat) (f : ParallelState -> ParallelState * tres A) : IO XW A := fun w =>
  match x_groups w !! g with
  | Some ps => let '(ps', r) := f ps in (w <| x_groups := <[g := ps']> (x_groups w) |>, r)
  | None => (w, TThrow TStd)
  end.
Definition new_group (width : nat) (initial_steps : Z) : IO XW nat := fun w =>
  (w <| x_groups := x_groups w ++ [mkParallel (replicate width None) 0 initial_steps false "" Execution] |>,
   TOk (length (x_groups w))).
(** The branch is at the join. *)
Definition arrive (index : Z) (m : Message) (ps : ParallelState) : ParallelState * tres unit :=
  match outputs ps !! Z.to_nat index with
  | Some None =>
      ((ps <| outputs := <[Z.to_nat index := Some m]> (outputs ps) |>) <| completed := completed ps + 1 |>, TOk tt)
  | _ => (ps, tthrow Execution "Parallel branch arrived twice")
  end.
Definition take_step (maximum : Z) (ps : ParallelState) : ParallelState * tres unit :=
  if maximum <=? ps_steps ps then (ps, tthrow Execution "Pipeline step limit exceeded")
  else (ps <| ps_steps := ps_steps ps + 1 |>, TOk tt).
Definition branch_failed (x : texn) (ps : ParallelState) : ParallelState * tres unit :=
  let ps := if ps_failed ps then ps
            else match error_of x with
                 | Some e => ((ps <| ps_failed := true |>) <| ps_error := what e |>) <| ps_code := code e |>
                 | None => (ps <| ps_failed := true |>) <| ps_error := "Parallel branch failed"%string |>
                 end in
  (ps <| completed := completed ps + 1 |>, TOk tt).

(** ** One branch *)

Section Branch.
Context (p : PipelineDefinition) (depth : Z) (lease : option LeaseRecord) (work_id work_attempt : string).

Definition branch_run (t : ExecutionToken) (session : string) : Run :=
  let m := t_message t in
  ((((((((new_run (m_run_id m) "" m) <| pipeline_id := m_pipeline_id m |>) <| definition := pl_source p |>)
    <| active_node := t_node_id t |>) <| frames := t_frames t |>) <| actor := "parallel"%string |>)
    <| subpipeline_depth := depth |>) <| session_id := session |>).
Definition persist (records : list StoreRecord) : Ex unit :=
  match lease with
  | Some l => ex_rt (r_commit_owned records ("node:" ++ work_id)%string (owner_instance l) (lr_token l))
  | None => ex_rt (r_commit records)
  end.
Definition persist_attempt : Ex unit := rc ← ex_attempt_record; persist [rc].
Definition finish_attempt (st : NodeState) (message : string) : Ex unit :=
  now ← ex_rt now_string;
  n ← ex_rt r_call;
  ex_attempt (fun a => (((a <| a_state := st |>) <| a_error := message |>) <| a_finished_at := now |>)
                         <| duration_ms := se_duration n |>).

(** What the metadata of tools and providers adds to the deadline; their absence throws. *)
Definition node_deadline (n : NodeDefinition) : tres unit :=
  if String.eqb (n_type n) "tool" then (_ ← of_res (reg_get se_tools (binding n)); TOk tt)
  else if String.eqb (n_type n) "agent" then
    match se_models !! binding n with
    | None => tthrow Provider "Logical model not configured"
    | Some provider => _ ← of_res (reg_get se_providers provider); TOk tt
    end
  else TOk tt.
Definition child_reference (n : NodeDefinition) : string := default (binding n) (pl_resolved_subpipelines p !! n_id n).

(** A child run of the branch, and the wait for its end. *)
Fixpoint await_child (polls : nat) (child_id : string) : Ex Message :=
  _ ← ex_call CCheck;
  child ← ex_rt (get_run child_id);
  if terminal (state child) then
    _ ← ex_guard (negb (rs_eqb (state child) Completed)) Execution "Subpipeline did not complete successfully";
    mret (message child)
  else
    _ ← ex_call CDelay;
    match polls with O => ex_out Polling | S polls => await_child polls child_id end.
Definition branch_child (n : NodeDefinition) : Ex NodeResult :=
  branch ← ex_run;
  _ ← ex_validate (n_input_schema n) (payload (message branch)) (n_id n) "input";
  _ ← ex_guard (max_subpipeline_depth config <=? depth) Execution "Subpipeline nesting limit exceeded";
  _ ← ex_guard (negb se_resolver) Execution "Pipeline resolver is unavailable";
  child_pipeline ← ex_call (CResolve (child_reference n));
  child_id ← ex_call (CRun child_pipeline (payload (message branch)) (actor branch) (id branch) (n_id n) (depth + 1)
                        (m_id (message branch)) (JObject []));
  _ ← ex_attempt (fun a => ((a <| a_child_run_id := child_id |>) <| a_child_pipeline_id := pl_name child_pipeline |>)
                             <| a_child_pipeline_version := pl_version child_pipeline |>);
  m ← await_child polls child_id;
  mret (mkResult m "").

(** The message a node hands on. *)
Definition next_message (r : Run) (n : NodeDefinition) (m : Message) (fresh now stamp : string) : Message :=
  push_provenance
    (((((m <| m_id := fresh |>) <| m_run_id := id r |>) <| m_pipeline_id := pipeline_id r |>) <| m_node_id := n_id n |>)
      <| m_time := now |>)
    (mkProvenance (n_id n) "" "" "" "" (m_id (message r)) "" stamp "").
Definition count_visit (n : NodeDefinition) (r : Run) : Run :=
  r <| node_visits := <[n_id n := u32 (node_visit r (n_id n) + 1)]> (node_visits r) |>.
Definition message_record (r : Run) : StoreRecord := mkRecord KMessage (m_id (message r)) (id r) (message_to_json (message r)).

(** Exactly one edge leaves a node of a branch for a result. *)
Definition branch_route (n : NodeDefinition) (condition : string) : Ex unit :=
  match filter (edge_matches n condition) (edges p) with
  | [e] =>
      r ← ex_run;
      let visits := u32 (default 0 (edge_visits r !! edge_key e) + 1) in
      if e_max_iterations e =? 0 then ex_update (fun r => r <| active_node := e_to e |>)
      else
        _ ← ex_update (fun r => r <| edge_visits := <[edge_key e := visits]> (edge_visits r) |>);
        _ ← ex_guard (e_max_iterations e <? visits) Execution "Edge iteration limit exceeded";
        ex_update (fun r => r <| active_node := e_to e |>)
  | _ => ex_throw Execution "Parallel branch has ambiguous routing"
  end.
Definition job_started (job : string) : Ex unit :=
  _ ← ex_attempt (fun a => a <| a_worker_job_id := job |>); persist_attempt.
Definition branch_try (n : NodeDefinition) (c : NodeContext) : Ex unit :=
  branch ← ex_run;
  result ← (if String.eqb (n_type n) "subpipeline" then branch_child n
            else
              _ ← ex_call CSlots;
              _ ← ex_call CSlots;
              _ ← ex_validate (n_input_schema n) (payload (message branch)) (n_id n) "input";
              execute_node job_started false n c (message branch));
  _ ← ex_call CCheck;
  _ ← ex_validate (n_output_schema n) (payload (nr_message result)) (n_id n) "output";
  _ ← ex_when (String.eqb (n_type n) "output")
        (ex_validate (pl_output_schema p) (payload (nr_message result)) (pl_name p) "pipeline_output");
  a ← (l ← ex_loc; mret (l_attempt l));
  _ ← finish_attempt NCompleted (a_error a);
  fresh ← ex_rt fresh_id;
  now ← ex_rt now_string;
  stamp ← ex_rt now_string;
  _ ← ex_update (fun r => (count_visit n r) <| message := next_message r n (nr_message result) fresh now stamp |>);
  rc ← ex_attempt_record;
  r ← ex_run;
  _ ← persist [rc; message_record r];
  branch_route n (nr_condition result).
(** The state and the text of an attempt that threw. *)
Definition failed_state (c : ErrorCode) : NodeState :=
  if bool_decide (c = Timeout) then NTimedOut else if bool_decide (c = Cancellation) then NCancelled else NFailed.
Definition failed_text (c : ErrorCode) (detail : string) : string :=
  if bool_decide (c = Timeout) then "Node deadline exceeded"%string
  else if bool_decide (c = Cancellation) then "Node cancelled"%string
  else if empty_str detail then "Node execution failed"%string else detail.
Fixpoint branch_attempts (n : NodeDefinition) (c : NodeContext) (remaining : nat) (number : Z) : Ex unit :=
  match remaining with
  | O => ex_throw Execution "Parallel branch did not complete"
  | S remaining =>
      branch ← ex_run;
      _ ← ex_lift (node_deadline n);
      fresh ← ex_rt fresh_id;
      now ← ex_rt now_string;
      let i := if (number =? 1) && negb (empty_str work_attempt) then work_attempt else fresh in
      _ ← ex_attempt (fun _ => ((((new_attempt i now) <| a_run_id := id branch |>) <| a_node_id := n_id n |>) <| attempt := number |>));
      _ ← persist_attempt;
      done ← ex_handle (_ ← branch_try n (mkContext (nc_run c) (nc_pipeline c) (nc_node c) number (nc_visit c) (nc_session c)
                                            (nc_session_context c) (nc_work c) (nc_work_attempt c)); mret true)
               (fun x => match error_of x with
                         | None => ex_lift (TThrow x)
                         | Some e =>
                             d ← ex_rt r_call;
                             _ ← finish_attempt (failed_state (code e)) (failed_text (code e) (validation_detail e (se_details d)));
                             _ ← persist_attempt;
                             if bool_decide (code e = Cancellation) || (number =? max_attempts (retry n))
                             then ex_lift (TThrow x) else mret false
                         end);
      if (done : bool) then mret tt
      else _ ← ex_call CDelay; branch_attempts n c remaining (number + 1)
  end.

Definition find_node (node : string) : tres NodeDefinition :=
  match nodes p !! node with Some n => TOk n | None => TThrow TStd end.
Fixpoint branch_loop (g : nat) (fuel : nat) : Ex unit :=
  match fuel with
  | O => ex_out Exhausted
  | S fuel =>
      branch ← ex_run;
      n ← ex_lift (find_node (active_node branch));
      if String.eqb (n_type n) "join" then
        let index := if empty_str work_id then match last (frames branch) with Some f => f_index f | None => 0 end else 0 in
        ex_block (on_group g (arrive index (message branch)))
      else
        _ ← ex_block (on_group g (take_step (max_steps p)));
        _ ← ex_call CCheck;
        policy ← ex_lift (node_permission n branch);
        _ ← ex_guard (bool_decide (pr_decision policy = Deny)) PolicyError "Operation denied by policy";
        _ ← ex_guard (bool_decide (pr_decision policy = RequireApproval) || String.eqb (n_type n) "approval") PolicyError
              "Approval is not supported inside a concurrent branch";
        _ ← ex_lift (of_res (make_node n));
        let c := mkContext (id branch) (pipeline_id branch) (n_id n) 1 (node_visit branch (n_id n) + 1)
                   (session_id branch) None work_id work_attempt in
        _ ← branch_attempts n c (Z.to_nat (max_attempts (retry n))) 1;
        branch_loop g fuel
  end.
(** Every pass of the loop takes one of the steps of the pipeline that the group has left, or ends. *)
Definition branch_fuel (initial_steps : Z) : nat := S (S (Z.to_nat (max_steps p - initial_steps))).
Definition ran_out {A} (o : outcome A) : bool := match o with Exhausted => true | _ => false end.
Definition note_fuel {A} (o : outcome A) : XW -> XW * unit := fun w =>
  (if ran_out o then w <| x_exhausted := true |> else w, tt).
Definition execute_branch (g : nat) (initial_steps : Z) (t : ExecutionToken) (session : string) : XProg unit :=
  prog_bind (ex_handle (branch_loop g (branch_fuel initial_steps)) (fun x => ex_block (on_group g (branch_failed x)))
               (mkLoc (branch_run t session) (new_attempt "" "") false ∅))
    (fun r => Block (note_fuel r.2) (fun _ => Done tt)).
End Branch.

(** ** A parallel node *)

(** The work items of a distributed group; the identifiers count the branches. *)
Fixpoint make_works (p : PipelineDefinition) (r : Run) (grp join : string) (index : nat) (l : list ExecutionToken)
    : Ex (list StoreRecord) :=
  match l with
  | [] => mret []
  | t :: l =>
      fresh ← ex_rt fresh_id;
      now ← ex_rt now_string;
      let wid := (grp ++ ":" ++ to_string (Z.of_nat index))%string in
      n ← ex_rt r_call;
      m ← ex_lift (match se_put, member (metadata (t_message t)) "workspace_manifest" with
                   | Some put, Some manifest =>
                       manifest ← object_workspace_manifest (put n) manifest;
                       TOk ((t_message t) <| metadata := set_member "workspace_manifest" manifest (metadata (t_message t)) |>)
                   | _, _ => TOk (t_message t)
                   end);
      let t := t <| t_message := m |> in
      required ← ex_lift (worker_requirement p t);
      let w := ((((((((new_work fresh now t) <| w_id := wid |>) <| w_run_id := id r |>) <| group_id := grp |>)
        <| w_node_id := t_node_id t |>) <| w_join := join |>) <| w_index := Z.of_nat index |>) <| w_steps := steps r |>) in
      match required with
      | None => ex_throw Execution "Distributed branch requires incompatible worker capabilities"
      | Some found =>
          let w := match found with
                   | Some (worker_id, cap) => (w <| required_worker_id := worker_id |>) <| required_capability := cap |>
                   | None => w
                   end in
          rest ← make_works p r grp join (S index) l;
          mret (mkRecord KNodeWork (w_id w) (id r) (work_to_json w) :: rest)
      end
  end.
Fixpoint all_distributable (p : PipelineDefinition) (l : list ExecutionToken) : tres bool :=
  match l with
  | [] => TOk true
  | t :: l => b ← distributable p t; if (b : bool) then all_distributable p l else TOk false
  end.

(** The poll of the group; [None] while branches run. *)
Definition group_done (g : nat) : IO XW (option ParallelState) := fun w =>
  match x_groups w !! g with
  | Some ps => (w, TOk (if completed ps =? Z.of_nat (length (outputs ps)) then Some ps else None))
  | None => (w, TThrow TStd)
  end.
Fixpoint await_group (polls : nat) (g : nat) : Ex ParallelState :=
  found ← ex_block (group_done g);
  match found with
  | Some ps => mret ps
  | None =>
      _ ← ex_call CWait;
      match polls with O => ex_out Polling | S polls => await_group polls g end
  end.
(** The outputs in the order of the branches; the pieces already added stay when one is missing. *)
Fixpoint join_outputs (l : list (option Message)) : Ex unit :=
  match l with
  | [] => mret tt
  | None :: _ => ex_throw Execution "Parallel branch output missing"
  | Some o :: l =>
      _ ← ex_update (fun r =>
            let m := message r in
            r <| message := (m <| payload := JArray (match payload m with JArray a => a | _ => [] end ++ [payload o]) |>)
                              <| provenance := provenance m ++ provenance o |> |>);
      join_outputs l
  end.
(** [true]: the run was handed to other instances. *)
Definition execute_parallel (p : PipelineDefinition) : Ex bool :=
  r ← ex_run;
  let tokens := ready r in
  _ ← ex_update (fun r => r <| ready := [] |>);
  distributed ← (if coordinated config then ex_lift (all_distributable p tokens) else mret false);
  if (distributed : bool) then
    grp ← ex_rt fresh_id;
    n ← ex_lift (find_node p (active_node r));
    records ← make_works p r grp (n_join n) 0 tokens;
    _ ← ex_update (fun r => (r <| pending_parallel_group := grp |>) <| pending_parallel_join := n_join n |>);
    _ ← ex_write config Paused "parallel.waiting" records;
    mret true
  else
    g ← ex_block (new_group (length tokens) (steps r));
    _ ← ex_iter (fun t => ex_spawn (execute_branch p (subpipeline_depth r) None "" "" g (steps r) t (session_id r))) tokens;
    ps ← await_group polls g;
    _ ← ex_update (fun r => r <| steps := ps_steps ps |>);
    _ ← ex_guard (ps_failed ps) (ps_code ps) (ps_error ps);
    _ ← ex_update (fun r => r <| message := (message r) <| payload := JArray [] |> |>);
    _ ← join_outputs (outputs ps);
    n ← ex_lift (find_node p (active_node r));
    _ ← ex_update (fun r => ((r <| frames := [] |>) <| active_node := n_join n |>) <| prepared_join := n_join n |>);
    mret false.
End Branches.
