(* ===== verification/Stepper.v ===== *)
(** * The step loop of an execution

    [Runtime::execute] of [src/runtime/execution.cpp]: an execution starts its run under the lock, then
    runs node after node, with retries, policy decisions, approvals, sub-pipelines and parallel groups,
    until the run ends, rests or fails. *)

From S2P Require Import Prelude Json Types Text Pipeline Graph Yaml Access Db Coordination Codec Worker Store Rows Sessions RunRows Effects Runtime Files Workspace Execution Lifecycle Threads Steps Branches.

(** Whether the loop over the nodes goes on. *)
Inductive step_end := Continue | Return.

Section Stepper.
Context `{L : JsonLib} `{Y : YamlLib} {E : RuntimeEnv} {X : ExecutionEnv} {SE : StepEnv} (config : RuntimeConfig).
Context (polls : nat).

(** ** The context of a session *)

Fixpoint check_tail (session : string) (sequence bytes : Z) (l : list Json) : tres unit :=
  match l with
  | [] => TOk tt
  | turn :: l =>
      s ← value_ dec_string turn "session_id" ""%string;
      foreign ← (if negb (String.eqb s session) then TOk true
                 else n ← value_ dec_u64 turn "sequence" 0; TOk (negb (n =? sequence + 1)));
      _ ← tguard foreign StorageError "Session context history tail is invalid";
      text ← match dump turn with Some text => TOk text | None => TThrow TStd end;
      _ ← tguard (1024 * 1024 <? bytes + size_of text) Capacity "Session context history tail exceeds the size limit";
      check_tail session (sequence + 1) (bytes + size_of text) l
  end.
Definition stored_snapshot (run_id : string) : Ex (option RunContextSnapshot) :=
  ex_handle (j ← ex_rt (r_get KRunContextSnapshot run_id);
             now ← ex_rt now_string;
             s ← ex_lift (snapshot_of_json now j);
             mret (Some s))
    (fun x => match error_of x with
              | Some e => if bool_decide (code e = NotFound) then mret None else ex_lift (TThrow x)
              | None => ex_lift (TThrow x)
              end).
Definition session_context (r : Run) : Ex (option SessionContext) :=
  snapshot ← stored_snapshot (id r);
  match snapshot with
  | None => mret None
  | Some s =>
      _ ← ex_guard (negb (String.eqb (sn_run_id s) (id r)) || negb (String.eqb (sn_session_id s) (session_id r))
                    || negb (String.eqb (sn_session_turn_id s) (session_turn_id r))) StorageError
            "Stored run context snapshot is invalid";
      if empty_str (context_generation_id s) then mret None
      else
        j ← ex_rt (r_get KSessionContextGeneration (context_generation_id s));
        n ← ex_rt r_call;
        g ← ex_lift (generation_of_json (rt_uuid n) (rt_timestamp n) j);
        _ ← ex_guard (negb (String.eqb (g_session_id g) (session_id r)) || negb (generation g =? context_generation s)
                      || negb (through_turn_sequence g =? context_through_turn_sequence s)) StorageError
              "Stored context generation reference is invalid";
        let through := through_turn_sequence g in
        let previous := u64 (turn_sequence s - 1) in
        recent ← (if through <? previous then
                    _ ← ex_guard (1000 <? previous - through) Capacity "Session context has too many uncompressed turns";
                    l ← ex_rt (r_store (session_turns_between (session_id r) through previous 1000));
                    _ ← ex_guard (negb (Z.of_nat (length l) =? previous - through)) StorageError
                          "Session context history tail is incomplete";
                    _ ← ex_lift (check_tail (session_id r) through 0 l);
                    mret l
                  else mret []);
        mret (Some (mkSessionContext (g_id g) (representation_kind g) (representation_version g) (generation g) through
                      (g_payload g) (JArray recent)))
  end.

(** ** Before a node runs *)

(** What the run records about the node. *)
Definition describe_node (n : NodeDefinition) : Ex unit :=
  _ ← ex_update (fun r => (((r <| provider := ""%string |>) <| model := ""%string |>) <| tool := ""%string |>) <| plugin := ""%string |>);
  if String.eqb (n_type n) "agent" && bool_decide (is_Some (se_models !! binding n)) then
    ex_update (fun r => (r <| provider := default ""%string (se_models !! binding n) |>) <| model := se_model (binding n) |>)
  else if String.eqb (n_type n) "tool" then
    _ ← ex_update (fun r => r <| tool := binding n |>);
    _ ← ex_lift (of_res (reg_get se_tools (binding n)));
    ex_update (fun r => r <| plugin := se_plugin (binding n) |>)
  else if String.eqb (n_type n) "worker" then
    match se_workers with
    | None => mret tt
    | Some d =>
        w ← ex_lift (of_res (resolve_worker d (binding n) (capability n)));
        ex_update (fun r => r <| worker := w |>)
    end
  else mret tt.
(** [prepare_join]: its checkpoint is its last act. *)
Definition join_ready (n : NodeDefinition) : Ex bool :=
  r ← ex_run;
  let '(r', ok) := prepare_join (fun _ => m_ret tt) n r in
  _ ← ex_update (fun _ => r');
  b ← ex_lift (of_res ok);
  if (b : bool) then mret true else _ ← ex_checkpoint config "join.waiting" []; mret false.
Definition execute_deadline (n : NodeDefinition) : tres unit :=
  if String.eqb (n_type n) "tool" then (_ ← of_res (reg_get se_tools (binding n)); TOk tt)
  else if String.eqb (n_type n) "agent" then
    match se_models !! binding n with
    | None => TThrow TStd
    | Some provider => _ ← of_res (reg_get se_providers provider); TOk tt
    end
  else TOk tt.

(** ** One node *)

Section Node.
Context (p : PipelineDefinition).

(** The child of a sub-pipeline node: one that is known is taken up again, a failed one is replaced. *)
Definition attempt_child (i pipeline : string) (version : Z) : Ex unit :=
  ex_attempt (fun a => ((a <| a_child_run_id := i |>) <| a_child_pipeline_id := pipeline |>) <| a_child_pipeline_version := version |>).
Definition child_of_run (c : Run) : Ex unit := attempt_child (id c) (pipeline_id c) (pipeline_version c).
(** [inl]: the result of a child that has completed; [inr]: whether a child is active. *)
Definition known_child : Ex (Message + bool) :=
  r ← ex_run;
  if empty_str (child_id r) then mret (inr false)
  else
    existing ← ex_rt (get_run (child_id r));
    if rs_eqb (state existing) Completed then _ ← child_of_run existing; mret (inl (message existing))
    else if terminal (state existing) then _ ← ex_update (fun r => r <| child_id := ""%string |>); mret (inr false)
    else _ ← child_of_run existing; mret (inr true).
Definition child_origin (r : Run) : Json := mk_object
  [("initiation_type", JString (initiation_type r)); ("trigger_depth", JUnsigned (trigger_depth r));
   ("root_event_id", JString (root_event_id r)); ("trigger_id", JString (trigger_id r)); ("event_id", JString (event_id r))]%string.
Definition start_child (n : NodeDefinition) : Ex unit :=
  r ← ex_run;
  _ ← ex_guard (max_subpipeline_depth config <=? subpipeline_depth r) Execution "Subpipeline nesting limit exceeded";
  _ ← ex_guard (negb se_resolver) Execution "Pipeline resolver is unavailable";
  child ← ex_call (CResolve (child_reference p n));
  i ← ex_call (CRun child (payload (message r)) (actor r) (id r) (n_id n) (subpipeline_depth r + 1) (m_id (message r)) (child_origin r));
  _ ← ex_update (fun r => (((r <| child_id := i |>) <| child_pipeline_id := pl_name child |>)
                             <| child_pipeline_version := pl_version child |>) <| child_runs := child_runs r ++ [i] |>);
  _ ← attempt_child i (pl_name child) (pl_version child);
  rc ← ex_attempt_record;
  ex_checkpoint config "subpipeline.started" [rc].
(** The run rests until its child ends. *)
Definition rest_for_child : Ex unit :=
  _ ← ex_attempt (fun a => a <| a_state := NWaitingApproval |>);
  rc ← ex_attempt_record;
  _ ← ex_checkpoint config "subpipeline.waiting" [rc];
  ex_transition config Paused "subpipeline.waiting" [].
Fixpoint poll_child (polls : nat) : Ex (option Message) :=
  _ ← ex_call CCheck;
  r ← ex_run;
  child ← ex_rt (get_run (child_id r));
  if terminal (state child) then
    _ ← ex_guard (negb (rs_eqb (state child) Completed)) Execution "Subpipeline did not complete successfully";
    mret (Some (message child))
  else if rs_eqb (state child) WaitingApproval || rs_eqb (state child) Paused then
    _ ← rest_for_child; mret None
  else
    _ ← ex_call CDelay;
    match polls with O => ex_out Polling | S polls => poll_child polls end.
(** [None]: the run rests and the execution returns. *)
Definition run_child (n : NodeDefinition) : Ex (option Message) :=
  r ← ex_run;
  _ ← ex_validate (n_input_schema n) (payload (message r)) (n_id n) "input";
  known ← known_child;
  match known with
  | inl m => mret (Some m)
  | inr active =>
      _ ← (if (active : bool) then mret tt else start_child n);
      if coordinated config then _ ← rest_for_child; mret None else poll_child polls
  end.
Definition check_result (n : NodeDefinition) (m : Message) : Ex unit :=
  _ ← ex_call CCheck;
  _ ← ex_validate (n_output_schema n) (payload m) (n_id n) "output";
  _ ← ex_when (String.eqb (n_type n) "output") (ex_validate (pl_output_schema p) (payload m) (pl_name p) "pipeline_output");
  large ← ex_lift (dump_exceeds (payload m) max_document_bytes);
  ex_guard large Execution "Node result exceeds 1 MiB".
Definition run_node (n : NodeDefinition) (c : NodeContext) : Ex (option NodeResult) :=
  r ← ex_run;
  result ← (if String.eqb (n_type n) "subpipeline" then
              m ← run_child n; mret (match m with Some m => Some (mkResult m "") | None => None end)
            else
              _ ← ex_call CSlots;
              _ ← ex_call CSlots;
              _ ← ex_validate (n_input_schema n) (payload (message r)) (n_id n) "input";
              res ← execute_node (fun _ => mret tt) (negb (empty_str (session_id r))) n c (message r);
              mret (Some res));
  match result with
  | None => mret None
  | Some res => _ ← check_result n (nr_message res); mret (Some res)
  end.

(** *** When the node failed *)

(** The code and the text of a failure, and what the attempt records of it. *)
Definition describe_failure (n : NodeDefinition) (x : texn) : Ex (ErrorCode * string) :=
  match error_of x with
  | None => mret (Execution, ""%string)
  | Some e =>
      d ← ex_rt r_call;
      let details := se_details d in
      let worker := String.eqb (n_type n) "worker" in
      let child := String.eqb (n_type n) "subpipeline" in
      _ ← ex_when worker
            (job ← ex_lift (str_member details "worker_job_id");
             _ ← ex_attempt (fun a => a <| a_worker_job_id := job |>);
             w ← ex_lift (str_member details "worker_id");
             _ ← ex_attempt (fun a => a <| a_worker_id := w |>);
             external ← ex_lift (str_member details "external_job_id");
             ex_attempt (fun a => a <| a_external_job_id := external |>));
      let detail := if bool_decide (code e = Validation) || child then validation_detail e details else ""%string in
      let detail := if worker && empty_str detail then what e else detail in
      let detail := if empty_str detail && child then what e else detail in
      mret (code e, detail)
  end.
Definition waiting_state (st : RunState) : bool := rs_eqb st WaitingTool || rs_eqb st WaitingModel || rs_eqb st WaitingWorker.
Definition result_event (n : NodeDefinition) (ok : bool) : string :=
  let kind := if String.eqb (n_type n) "tool" then "tool"%string
              else if String.eqb (n_type n) "worker" then "worker"%string else "model"%string in
  (kind ++ (if ok then ".completed" else ".failed"))%string.
Definition leave_waiting (n : NodeDefinition) (ok : bool) : Ex unit :=
  r ← ex_run; if waiting_state (state r) then ex_transition config Running (result_event n ok) [] else mret tt.
Definition stamp_attempt : Ex unit :=
  now ← ex_rt now_string;
  d ← ex_rt r_call;
  ex_attempt (fun a => (a <| a_finished_at := now |>) <| duration_ms := se_duration d |>).
(** Another attempt is made, or the failure ends the execution. *)
Definition retry_node (n : NodeDefinition) (number : Z) (failure : ErrorCode * string) : Ex unit :=
  let text := failed_text failure.1 failure.2 in
  _ ← ex_attempt (fun a => (a <| a_state := failed_state failure.1 |>) <| a_error := text |>);
  rc ← ex_attempt_record;
  _ ← ex_checkpoint config "node.failed" [rc];
  _ ← ex_guard (bool_decide (failure.1 = Cancellation) || bool_decide (failure.1 = Timeout) || (number =? max_attempts (retry n)))
        failure.1 text;
  _ ← ex_transition config Retrying "node.retrying" [];
  _ ← ex_call CDelay;
  ex_transition config Running "run.running" [].

(** *** When the node completed *)

Definition record_worker (n : NodeDefinition) (m : Message) : Ex unit :=
  ex_when (String.eqb (n_type n) "worker")
    (job ← ex_lift (str_member (metadata m) "worker_job_id");
     _ ← ex_attempt (fun a => a <| a_worker_job_id := job |>);
     w ← ex_lift (str_member (metadata m) "worker_id");
     _ ← ex_attempt (fun a => a <| a_worker_id := w |>);
     external ← ex_lift (str_member (metadata m) "external_job_id");
     _ ← ex_attempt (fun a => a <| a_external_job_id := external |>);
     ex_update (fun r => r <| worker_job_id := job |>)).
Definition trim_provenance (m : Message) : Message :=
  m <| provenance := drop (length (provenance m) - 256) (provenance m) |>.
(** The step count stays below the limit of the pipeline, which is a 32-bit number. *)
Definition take_result (n : NodeDefinition) (m : Message) (fresh now stamp : string) (r : Run) : Run :=
  (count_visit n r) <| steps := steps r + 1 |> <| message := trim_provenance (next_message r n m fresh now stamp) |>.
Definition candidate_record (r : Run) (kv : string * Continuation) : StoreRecord :=
  let '(provider, c) := kv in
  mkRecord KSessionContinuation (run_continuation_candidate_id (id r) provider) (id r)
    (mk_object [("scope", JString "candidate"); ("session_id", JString (session_id r)); ("run_id", JString (id r));
                ("turn_id", JString (session_turn_id r)); ("provider_id", JString provider);
                ("provider_version", JString (provider_version c)); ("state", JString (c_state c))]%string).
Definition take_candidates (n : NodeDefinition) : Ex (list StoreRecord) :=
  l ← ex_loc;
  let r := l_run l in
  if negb (empty_str (session_id r)) && (String.eqb (n_type n) "agent" || String.eqb (n_type n) "worker") then
    _ ← ex_modify (fun l => l <| l_staged := ∅ |>);
    mret (map (candidate_record r) (map_items (l_staged l)))
  else mret [].
Definition ex_pure {A} (m : M Run A) : Ex A :=
  r ← ex_run; let '(r', res) := m r in _ ← ex_update (fun _ => r'); ex_lift (of_res res).
Fixpoint approval_branch (n : NodeDefinition) (l : list EdgeDefinition) : tres bool :=
  match l with
  | [] => TOk false
  | e :: l =>
      here ← (if String.eqb (e_from e) (n_id n) then t ← find_node p (e_to e); TOk (String.eqb (n_type t) "approval")
              else TOk false);
      rest ← approval_branch n l;
      TOk (here || rest)
  end.
Definition refresh_message (r : Run) (rc : StoreRecord) : StoreRecord :=
  if bool_decide (rc_kind rc = KMessage) && String.eqb (rc_id rc) (m_id (message r)) then message_record r else rc.
(** What routing decides: the records to store with the node, and [None] when other instances go on. *)
Definition route_result (n : NodeDefinition) (condition : string) (records : list StoreRecord)
    : Ex (option bool * list StoreRecord) :=
  grp ← ex_rt fresh_id;
  if String.eqb (n_type n) "parallel" then
    approvals ← ex_lift (approval_branch n (edges p));
    continuing ← ex_pure (advance p n condition grp);
    if (approvals : bool) then more ← ex_pure next_ready; mret (Some more, records)
    else
      handed ← execute_parallel config polls p;
      if (handed : bool) then mret (None, records)
      else r ← ex_run; mret (Some continuing, map (refresh_message r) records)
  else continuing ← ex_pure (advance p n condition grp); mret (Some continuing, records).
Definition rethrow_after {A} (m : Ex A) (h : Ex unit) : Ex A := ex_handle m (fun x => _ ← h; ex_lift (TThrow x)).
Definition complete_node (n : NodeDefinition) (result : NodeResult) : Ex step_end :=
  _ ← ex_attempt (fun a => a <| a_state := NCompleted |>);
  _ ← record_worker n (nr_message result);
  fresh ← ex_rt fresh_id;
  now ← ex_rt now_string;
  stamp ← ex_rt now_string;
  _ ← ex_update (take_result n (nr_message result) fresh now stamp);
  rc ← ex_attempt_record;
  r ← ex_run;
  candidates ← take_candidates n;
  let records := rc :: message_record r :: candidates in
  _ ← ex_when (String.eqb (n_type n) "subpipeline") (ex_update (fun r => r <| child_id := ""%string |>));
  routed ← rethrow_after (route_result n (nr_condition result) records) (ex_checkpoint config "node.completed" records);
  match routed with
  | (None, records) =>
      (* the records are moved into the first checkpoint *)
      _ ← rethrow_after (ex_checkpoint config "node.completed" records) (ex_checkpoint config "node.completed" []);
      mret Return
  | (Some false, records) => _ ← ex_transition config Completed "run.completed" records; mret Return
  | (Some true, records) => _ ← ex_checkpoint config "node.completed" records; mret Continue
  end.

(** *** Attempts *)

Definition begin_attempt (n : NodeDefinition) (number : Z) : Ex unit :=
  _ ← ex_lift (execute_deadline n);
  _ ← ex_when (String.eqb (n_type n) "worker") (ex_transition config WaitingWorker "worker.submitting" []);
  fresh ← ex_rt fresh_id;
  now ← ex_rt now_string;
  r ← ex_run;
  _ ← ex_attempt (fun _ => (((new_attempt fresh now) <| a_run_id := id r |>) <| a_node_id := n_id n |>) <| attempt := number |>);
  rc ← ex_attempt_record;
  _ ← ex_checkpoint config "node.started" [rc];
  _ ← ex_modify (fun l => l <| l_recorded := true |>);
  _ ← ex_when (String.eqb (n_type n) "tool") (ex_transition config WaitingTool "tool.called" []);
  ex_when (String.eqb (n_type n) "agent") (ex_transition config WaitingModel "model.called" []).
Fixpoint attempts (n : NodeDefinition) (c : NodeContext) (remaining : nat) (number : Z) : Ex step_end :=
  match remaining with
  | O => ex_throw Execution "Node did not complete"
  | S remaining =>
      _ ← begin_attempt n number;
      tried ← ex_handle (res ← run_node n (mkContext (nc_run c) (nc_pipeline c) (nc_node c) number (nc_visit c) (nc_session c)
                                              (nc_session_context c) "" ""); mret (inl res))
                (fun x => f ← describe_failure n x; mret (inr f));
      match tried with
      | inl None => mret Return
      | inl (Some result) =>
          _ ← stamp_attempt;
          _ ← leave_waiting n true;
          complete_node n result
      | inr failure =>
          _ ← stamp_attempt;
          _ ← leave_waiting n false;
          _ ← retry_node n number failure;
          attempts n c remaining (number + 1)
      end
  end.

(** ** The loop *)

Definition request_approval (n : NodeDefinition) (why : string) : Ex unit :=
  _ ← ex_call CCheck;
  r ← ex_run;
  request ← ex_rt (approval_request r n why);
  _ ← ex_update (fun _ => request.1);
  ex_transition config WaitingApproval "approval.requested" request.2.
Fixpoint run_loop (fuel : nat) : Ex unit :=
  match fuel with
  | O => ex_out Exhausted
  | S fuel =>
      _ ← ex_modify (fun l => l <| l_recorded := false |>);
      r ← ex_run;
      session ← (if empty_str (session_id r) then mret None else session_context r);
      _ ← ex_call CCheck;
      n ← ex_lift (find_node p (active_node r));
      _ ← describe_node n;
      here ← join_ready n;
      if negb here then run_loop fuel
      else
        r ← ex_run;
        _ ← ex_guard (max_steps p <=? steps r) Execution "Pipeline step limit exceeded";
        policy ← ex_lift (node_permission n r);
        _ ← ex_guard (bool_decide (pr_decision policy = Deny)) PolicyError "Operation denied by policy";
        pending ← (if String.eqb (n_type n) "approval" || bool_decide (pr_decision policy = RequireApproval)
                   then ok ← ex_rt (approved r); mret (negb ok) else mret false);
        if (pending : bool) then
          request_approval n (if String.eqb (n_type n) "approval" then reason n else pr_reason policy)
        else
          _ ← ex_lift (of_res (make_node n));
          let c := mkContext (id r) (pipeline_id r) (n_id n) 1 (node_visit r (n_id n) + 1) (session_id r) session "" "" in
          ended ← attempts n c (Z.to_nat (max_attempts (retry n))) 1;
          match ended with Return => mret tt | Continue => run_loop fuel end
  end.
(** Every pass takes a step or a waiting branch; a step leaves at most 256 branches waiting. *)
Definition run_fuel (r : Run) : nat := S (Z.to_nat (max_steps p - steps r) * 257 + length (ready r)).
End Node.

(** ** The thread *)

(** The handlers of [execute], which hold the lock.  [x] decides the texts and the final state. *)
Definition final_state (x : texn) : RunState :=
  match error_of x with
  | Some e => if bool_decide (code e = Timeout) then TimedOut else if bool_decide (code e = Cancellation) then Cancelled else Failed
  | None => Failed
  end.
Definition final_event (st : RunState) : string :=
  if rs_eqb st TimedOut then "run.timed_out" else if rs_eqb st Cancelled then "run.cancelled" else "run.failed".
Definition final_error (x : texn) : string :=
  match error_of x with
  | Some e => if bool_decide (code e = Timeout) then "Execution deadline exceeded"
              else if bool_decide (code e = Cancellation) then "Execution cancelled" else "Pipeline execution failed"
  | None => "Unexpected pipeline failure"
  end.
Definition failed_preparation (r : Run) (x : texn) : IO Sys StoreRecord :=
  n ← on_rt r_call;
  m ← on_rt now_string;
  let st := match error_of x with Some e => failed_state (code e) | None => NFailed end in
  mret (attempt_record (id r)
          (((((new_attempt (rt_uuid n) (rt_timestamp n)) <| a_run_id := id r |>) <| a_node_id := active_node r |>)
             <| a_state := st |>) <| a_finished_at := m |> <| a_error := "Node preparation failed"%string |>)).
Definition settle_child (r : Run) : IO Sys unit :=
  if empty_str (child_id r) then mret tt
  else
    child ← on_rt (get_run (child_id r));
    if terminal (state child) then mret tt else on_rt (cancel config (id child)).
Definition settle_run (r : Run) (x : texn) : IO Sys unit :=
  let r := r <| error := final_error x |> in
  if terminal (state r) then mret tt
  else
    _ ← io_guard (negb (valid_transition (state r) (final_state x))) Execution "Invalid run state transition";
    _ ← sys_write config r (final_state x) (final_event (final_state x)) [];
    mret tt.
Definition settle_error (r : Run) (recorded : bool) (x : texn) : IO Sys unit :=
  r ← (if recorded then mret r else rc ← failed_preparation r x; sys_write config r (state r) "node.failed" [rc]);
  _ ← settle_child r;
  settle_run r x.

(** The locked start; like [start_execution], with the run in memory when it throws. *)
Definition moved_to (r : Run) (to : RunState) : Run := if valid_transition (state r) to then r <| state := to |> else r.
Definition start_run (r : Run) : RT -> RT * (Run * tres bool) := fun w =>
  match get_run (id r) w with
  | (w, TThrow x) => (w, (r, TThrow x))
  | (w, TOk r) =>
      if terminal (state r) then (w, (r, TOk false))
      else if cancellation_requested r then
        match transition config r Cancelled "run.cancelled" [] w with
        | (w, TOk r') => (w, (r', TOk false))
        | (w, TThrow x) => (w, (moved_to r Cancelled, TThrow x))
        end
      else
        match transition config r Starting "run.starting" [] w with
        | (w, TThrow x) => (w, (moved_to r Starting, TThrow x))
        | (w, TOk r) =>
            match transition config r Running "run.started" [] w with
            | (w, TThrow x) => (w, (moved_to r Running, TThrow x))
            | (w, TOk r) =>
                match reconcile_distributed_parallel r w with
                | (w, TThrow x) => (w, (r, TThrow x))
                | (w, TOk r) => (w, (r, TOk true))
                end
            end
        end
  end.
(** A coroutine runs for a run that is registered, and once at a time: [schedule] refuses a run that is in
    [active_], and a run leaves [active_] when its coroutine ends. *)
Definition enter_run (r : Run) : XW -> XW * bool := fun w =>
  if bool_decide (id r ∈ dom (active (sys_rt (x_sys w)))) && bool_decide (id r ∉ x_running w) then
    (w <| x_running := {[id r]} ∪ x_running w |>, true)
  else (w, false).
Definition begin_run (r : Run) : XW -> XW * (Run * tres bool) := fun w =>
  let s := x_sys w in
  let '(rt, (r', started)) := start_run r (sys_rt s) in
  let l := match started with TOk true => <[id r := r']> (locals s) | _ => locals s end in
  let w := w <| x_sys := mkSys rt l |> in
  (match started with TThrow _ => w <| x_derailed := true |> | _ => w end, (r', started)).
Definition end_run (i : string) (failed : bool) : XW -> XW * unit := fun w =>
  ((w <| x_sys := mkSys (execution_ended config i failed (sys_rt (x_sys w))).1 (delete i (locals (x_sys w))) |>)
     <| x_running := x_running w ∖ {[i]} |>, tt).
Definition handle_error (l : Loc) (x : texn) : XProg (tres unit) :=
  Block (on_sys (settle_error (l_run l) (l_recorded l) x)) Done.
(** How the coroutine ends: what it returns, or that it still waits. *)
Definition after_loop (r : Loc * outcome unit) : XProg (outcome unit) :=
  match r.2 with
  | Thrown x => prog_bind (handle_error r.1 x) (fun o => Done (to_outcome o))
  | o => Done o
  end.
Definition execute (p : PipelineDefinition) (r : Run) (started : tres bool) : XProg (outcome unit) :=
  let l := mkLoc r (new_attempt "" "") false ∅ in
  match started with
  | TOk false => Done (Value tt)
  | TOk true => prog_bind (run_loop p (run_fuel p r) l) after_loop
  | TThrow x => after_loop (l, Thrown x)
  end.
(** The thread that [schedule] spawns: an exception of [parse_pipeline] or of a handler ends it. *)
Definition finish (i : string) (o : outcome unit) : XProg unit :=
  match o with
  | Polling => Done tt
  | _ => Block (note_fuel o) (fun _ => Block (end_run i (match o with Value _ => false | _ => true end)) (fun _ => Done tt))
  end.
Definition execution (r : Run) : XProg unit :=
  Block (enter_run r) (fun entered =>
    if (entered : bool) then
      match parse_pipeline (definition r) (node_types config) with
      | Throw e => finish (id r) (Thrown (TError e))
      | Ok p =>
          let p := p <| pl_resolved_subpipelines := resolved_subpipelines r |> in
          Block (begin_run r) (fun started => prog_bind (execute p started.1 started.2) (finish (id r)))
      end
    else Done tt).
End Stepper.
