(* ===== verification/Following.v ===== *)
(** * What the steps of an execution may change

    Most steps of an execution ([neutral]) leave the run rows and the runs in memory alone; writes
    ([calm]) move the stored state along the transition table.  The rules here carry both through the
    programs of [Branches] and [Stepper]. *)

From S2P Require Import Prelude Json Types Text Pipeline Graph Yaml Access Db Coordination Codec Worker Store Rows Sessions RunRows Effects Runtime Files Workspace Execution Lifecycle Threads Reduction Steps Branches Stepper.

(** A call leaves nothing in the state. *)
Definition silent (c : XCall) (w : XW) : XW := w.

Section Neutral.
Context `{L : JsonLib} {HL : JsonLaws L} `{Y : YamlLib} {E : RuntimeEnv} {HE : RuntimeEnvLaws E} {X : ExecutionEnv} {SE : StepEnv}.
Context (config : RuntimeConfig) (single : coordinated config = false).

(** The run in memory keeps its identity, its steps and its waiting branches. *)
Definition keeps (l l' : Loc) : Prop :=
  id (l_run l') = id (l_run l) /\ steps (l_run l') = steps (l_run l) /\ ready (l_run l') = ready (l_run l).
#[global] Instance keeps_preorder : PreOrder keeps.
Proof. split; [done|]. intros a b c (H1 & H2 & H3) (H4 & H5 & H6). unfold keeps. by rewrite H4, H5, H6. Qed.
Definition retains (l l' : Loc) : Prop := keeps l l' /\ state (l_run l') = state (l_run l).
#[global] Instance retains_preorder : PreOrder retains.
Proof. split; [done|]. intros a b c [H1 H2] [H3 H4]. split; [by transitivity b|congruence]. Qed.

Definition unmoved (w w' : XW) : Prop :=
  same (sys_rt (x_sys w)) (sys_rt (x_sys w')) /\ locals (x_sys w') = locals (x_sys w) /\ x_groups w' = x_groups w /\
  x_running w' = x_running w /\ x_exhausted w' = x_exhausted w /\ x_derailed w' = x_derailed w.
#[global] Instance unmoved_preorder : PreOrder unmoved.
Proof.
  split; [done|]. intros a b c (H1 & H2 & H3 & H4 & H5 & H6) (K1 & K2 & K3 & K4 & K5 & K6).
  split_and!; [by transitivity (sys_rt (x_sys b))|congruence..].
Qed.

Definition found {A} (l : Loc) (r : Loc * outcome A) : Prop := retains l r.1 /\ r.2 <> Exhausted.
Definition neutral {A} (m : Ex A) : Prop := forall l, lands silent unmoved (found l) (m l).

Lemma neutral_ret {A} (a : A) : neutral (mret a).
Proof. intros l. by split. Qed.
Lemma neutral_out {A} (o : outcome A) : o <> Exhausted -> neutral (ex_out o).
Proof. intros Ho l. by split. Qed.
Lemma neutral_lift {A} (r : tres A) : neutral (ex_lift r).
Proof. apply neutral_out. by destruct r. Qed.
Lemma neutral_modify f : (forall l, retains l (f l)) -> neutral (ex_modify f).
Proof. intros Hf l. split; [apply Hf|done]. Qed.
Lemma neutral_loc : neutral ex_loc.
Proof. intros l. by split. Qed.
Lemma neutral_call c : neutral (ex_call c).
Proof. intros l. split; [done|]. intros r. split; [done|]. by destruct r. Qed.
Lemma neutral_bind {A B} (m : Ex A) (f : A -> Ex B) : neutral m -> (forall a, neutral (f a)) -> neutral (m ≫= f).
Proof.
  intros Hm Hf l. eapply lands_bind; [apply Hm|]. intros [l1 o] [Hr Ho]. simpl in *. destruct o as [a|x| |]; [|by split..|done].
  eapply lands_mono; [|apply Hf]. intros [l2 o] [Hr' Ho']. split; [by transitivity l1|done].
Qed.
Lemma neutral_handle {A} (m : Ex A) h : neutral m -> (forall x, neutral (h x)) -> neutral (ex_handle m h).
Proof.
  intros Hm Hh l. eapply lands_bind; [apply Hm|]. intros [l1 o] [Hr Ho]. simpl in *. destruct o as [a|x| |]; [by split| |by split|done].
  eapply lands_mono; [|apply Hh]. intros [l2 o] [Hr' Ho']. split; [by transitivity l1|done].
Qed.
Lemma neutral_block {A} (m : IO XW A) : Always unmoved m -> neutral (ex_block m).
Proof. intros Hm l w. split; [apply Hm|]. split; [done|]. by destruct (m w).2. Qed.
Lemma neutral_rt {A} (m : IO RT A) : Always same m -> neutral (ex_rt m).
Proof.
  intros Hm. apply neutral_block. intros w. unfold on_sys, on_rt. specialize (Hm (sys_rt (x_sys w))).
  destruct (m (sys_rt (x_sys w))) as [w' r]. by split_and!.
Qed.
Lemma neutral_guard c code msg : neutral (ex_guard c code msg).
Proof. apply neutral_lift. Qed.
Lemma neutral_throw {A} c msg : neutral (A := A) (ex_throw c msg).
Proof. apply neutral_lift. Qed.
Lemma neutral_run : neutral ex_run.
Proof. apply neutral_bind; [apply neutral_loc|intros l; apply neutral_ret]. Qed.
Lemma neutral_update f : (forall r, id (f r) = id r /\ steps (f r) = steps r /\ ready (f r) = ready r /\ state (f r) = state r) ->
  neutral (ex_update f).
Proof. intros Hf. apply neutral_modify. intros l. destruct (Hf (l_run l)) as (H1 & H2 & H3 & H4). by split. Qed.
Lemma neutral_attempt f : neutral (ex_attempt f).
Proof. by apply neutral_modify. Qed.
Lemma neutral_record : neutral ex_attempt_record.
Proof. apply neutral_bind; [apply neutral_loc|intros l; apply neutral_ret]. Qed.
Lemma neutral_record_bind {A} (f : StoreRecord -> Ex A) :
  (forall rc, rc_kind rc <> KRun -> neutral (f rc)) -> neutral (ex_attempt_record ≫= f).
Proof. intros Hf l. by apply Hf. Qed.
Lemma neutral_persist w rs : other rs -> neutral (persist None w rs).
Proof. intros Hrs. unfold persist. apply neutral_rt. by apply same_commit. Qed.
Lemma neutral_iter {A} (f : A -> Ex unit) l : (forall a, neutral (f a)) -> neutral (ex_iter f l).
Proof. intros Hf. induction l as [|a l IH]; [apply neutral_ret|]. apply neutral_bind; [apply Hf|by intros _]. Qed.
Lemma neutral_when b m : neutral m -> neutral (ex_when b m).
Proof. destruct b; [done|intros _; apply neutral_ret]. Qed.
End Neutral.

Create HintDb neutral.
#[export] Hint Resolve neutral_ret neutral_lift neutral_loc neutral_call neutral_guard neutral_throw neutral_run neutral_attempt
  neutral_record neutral_rt same_now same_fresh same_call same_get same_get_run : neutral.
#[export] Hint Extern 1 (neutral (ex_call _)) => apply neutral_call : neutral.
#[export] Hint Extern 3 (neutral (ex_out _)) => apply neutral_out; discriminate : neutral.
#[export] Hint Extern 3 (neutral (ex_update _)) => apply neutral_update; done : neutral.
#[export] Hint Extern 3 (neutral (ex_modify _)) => apply neutral_modify; done : neutral.
#[export] Hint Extern 3 (neutral (persist None _ _)) => apply neutral_persist; by repeat constructor : neutral.
(** A program built from neutral steps. *)
Ltac reads :=
  repeat first
    [ solve [eauto 3 with neutral] | match goal with |- neutral (mbind _ ex_attempt_record) => apply neutral_record_bind; intros ? ? end | lazymatch goal with |- neutral (mbind _ _) => apply neutral_bind; [|intros ?] end
    | lazymatch goal with |- neutral (ex_handle _ _) => apply neutral_handle; [|intros ?] end
    | apply neutral_when | apply neutral_iter; intros ? | case_match ].

Section Reads.
Context `{L : JsonLib} {HL : JsonLaws L} `{Y : YamlLib} {E : RuntimeEnv} {HE : RuntimeEnvLaws E} {X : ExecutionEnv} {SE : StepEnv}.
Context (config : RuntimeConfig) (single : coordinated config = false).

Lemma neutral_validate sch v name dir : neutral (ex_validate sch v name dir).
Proof. apply neutral_lift. Qed.
Lemma neutral_stage l : neutral (stage_continuations l).
Proof. induction l as [|c l IH]; cbn [stage_continuations]; [reads|]. reads. Qed.
Lemma neutral_execute started staging n c m : (forall j, neutral (started j)) -> neutral (execute_node started staging n c m).
Proof. intros Hs. unfold execute_node. reads. apply neutral_stage. Qed.
Lemma neutral_stored_snapshot i : neutral (stored_snapshot i).
Proof. unfold stored_snapshot. reads. Qed.
Lemma same_turns session after through limit : Always same (r_store (session_turns_between session after through limit)).
Proof. apply same_store, mrows_turns. Qed.
Lemma neutral_session_context r : neutral (session_context r).
Proof.
  unfold session_context. reads; first [apply neutral_stored_snapshot|apply neutral_rt, same_turns].
Qed.
Lemma neutral_describe n : neutral (describe_node n).
Proof. unfold describe_node. reads. Qed.
Lemma neutral_failure n x : neutral (describe_failure n x).
Proof. unfold describe_failure. reads. Qed.
Lemma neutral_stamp : neutral stamp_attempt.
Proof. unfold stamp_attempt. reads. Qed.
Lemma neutral_record_worker n m : neutral (record_worker n m).
Proof. unfold record_worker. reads. Qed.
Lemma neutral_candidates n : neutral (take_candidates n).
Proof. unfold take_candidates. reads. Qed.
Lemma neutral_known_child : neutral known_child.
Proof. unfold known_child, child_of_run, attempt_child. reads. Qed.
Lemma neutral_check_result p n m : neutral (check_result p n m).
Proof. unfold check_result. reads; apply neutral_validate. Qed.

(** Branches. *)
Lemma neutral_persist_attempt w : neutral (persist_attempt None w).
Proof. unfold persist_attempt. reads. Qed.
Lemma neutral_finish st msg : neutral (finish_attempt st msg).
Proof. unfold finish_attempt. reads. Qed.
End Reads.
#[export] Hint Resolve neutral_validate neutral_stage neutral_stored_snapshot neutral_session_context neutral_describe neutral_failure
  neutral_stamp neutral_record_worker neutral_candidates neutral_known_child neutral_check_result neutral_persist_attempt
  neutral_finish : neutral.

(** ** Branches *)

Section Branch.
Context `{L : JsonLib} {HL : JsonLaws L} `{Y : YamlLib} {E : RuntimeEnv} {HE : RuntimeEnvLaws E} {X : ExecutionEnv} {SE : StepEnv}.
Context (config : RuntimeConfig) (single : coordinated config = false) (polls : nat) (p : PipelineDefinition).

Lemma neutral_job work job : neutral (job_started None work job).
Proof. unfold job_started. reads. Qed.
Lemma neutral_await n child : neutral (await_child n child).
Proof. induction n as [|n IH]; cbn [await_child]; reads. Qed.
Lemma neutral_child depth n : neutral (branch_child config polls p depth n).
Proof. unfold branch_child. reads; apply neutral_await. Qed.
Lemma neutral_route n cond : neutral (branch_route p n cond).
Proof. unfold branch_route. reads. Qed.
Lemma neutral_try depth work n c : neutral (branch_try config polls p depth None work n c).
Proof.
  unfold branch_try. reads; first [apply neutral_child|apply neutral_execute, neutral_job|apply neutral_route].
Qed.
Lemma neutral_attempts depth work attempt n c : forall remaining number,
  neutral (branch_attempts config polls p depth None work attempt n c remaining number).
Proof.
  intros remaining. induction remaining as [|remaining IH]; intros number; cbn [branch_attempts]; [reads|].
  reads; first [apply neutral_try|apply IH].
Qed.
End Branch.
