(* ===== verification/Holding.v ===== *)
(** * The runs that executions hold

    A thread of an execution owns its run: nobody else executes it, and while the run is in memory the
    runtime's view of it ([locals]) has the state of the copy of the thread.  The invariant of the pool
    says that the runtime went from the initial state by steps of [Lifecycle], unless the start of an
    execution or the write of a resting state threw ([x_derailed]); that the steps of a group only grow;
    and that no loop ran out of fuel. *)

From S2P Require Import Prelude Json Types Text Pipeline Graph Yaml Access Db Coordination Codec Worker Store Rows Sessions RunRows Effects Runtime Files Workspace Execution Lifecycle Threads Steps Branches Stepper Following.

(** [Owns i (Some st)]: the run [i] is in memory, in the state [st]; [Owns i None]: it is not. *)
Inductive Ticket := Owns (i : string) (o : option RunState) | Out | Seen (g : nat) (n : Z).
Definition owns (i : string) (k : Ticket) : bool := match k with Owns j _ => String.eqb j i | _ => false end.
Definition owned (i : string) (o : option RunState) (s : Sys) : Prop :=
  match o with
  | Some st => exists r, locals s !! i = Some r /\ state r = st
  | None => locals s !! i = None
  end.

(** The operations of the runtime, which run between the steps of executions. *)
Section Operations.
Context `{L : JsonLib} `{Y : YamlLib} {E : RuntimeEnv} {X : ExecutionEnv} (config : RuntimeConfig).
Inductive runtime_op : RT -> RT -> Prop :=
  | op_run p input actor par pn depth pm origin meta sid tid owner fence w : fresh_ids w ->
      runtime_op w (run config p input actor par pn depth pm origin meta sid tid owner fence w).1
  | op_resume i w : runtime_op w (resume config i w).1
  | op_cancel i w : runtime_op w (cancel config i w).1
  | op_decide a ok actor comment w : runtime_op w (decide config a ok actor comment w).1
  | op_shutdown w : runtime_op w (shutdown config w).1
  | op_mode m w : runtime_op w (set_maintenance_mode m w).1
  | op_other w w' : same w w' -> runtime_op w w'.
Inductive operation : XW -> XW -> Prop :=
  | operation_of w rt : runtime_op (sys_rt (x_sys w)) rt -> operation w (w <| x_sys := mkSys rt (locals (x_sys w)) |>).
End Operations.

Section Invariant.
Context `{L : JsonLib} {HL : JsonLaws L} `{Y : YamlLib} {E : RuntimeEnv} {HE : RuntimeEnvLaws E} {X : ExecutionEnv} {SE : StepEnv}.
Context (config : RuntimeConfig) (single : coordinated config = false) (s0 : Sys) (Hs0 : sys_ok s0).

Record good (w : XW) (T : list Ticket) : Prop := {
  gd_reach : rtc (sys_step config) s0 (x_sys w);
  gd_once : forall i, (count (owns i) T <= 1)%nat;
  gd_owned : forall i o, Owns i o ∈ T -> i ∈ x_running w /\ owned i o (x_sys w);
  gd_running : x_running w ⊆ dom (active (sys_rt (x_sys w)));
  gd_locals : dom (locals (x_sys w)) ⊆ x_running w }.
Record XInv (w : XW) (T : list Ticket) : Prop := {
  xi_fuel : x_exhausted w = false;
  xi_seen : forall g n, Seen g n ∈ T -> exists ps, x_groups w !! g = Some ps /\ n <= ps_steps ps;
  xi_out : Out ∈ T -> x_derailed w = true;
  xi_good : x_derailed w = false -> good w T }.

Lemma xinv_sub w T T' : T' ⊆+ T -> XInv w T -> XInv w T'.
Proof.
  intros Hs [H1 H2 H3 H4]. assert (Hin : forall k, k ∈ T' -> k ∈ T) by (intros k Hk; by eapply elem_of_submseteq).
  split; [done|by intros; apply H2, Hin|by intros; apply H3, Hin|]. intros Hd. destruct (H4 Hd) as [G1 G2 G3 G4 G5].
  split; [done| |by intros; apply G3, Hin|done..]. intros i. etransitivity; [by apply count_sub|apply G2].
Qed.
Lemma xinv_perm w T T' : T ≡ₚ T' -> XInv w T -> XInv w T'.
Proof. intros HT. apply xinv_sub. by rewrite HT. Qed.
Lemma xinv_drop w T T' : XInv w (T ++ T') -> XInv w T'.
Proof. apply xinv_sub. by apply submseteq_inserts_l. Qed.

(** What a step does to the rest of the tickets. *)
Lemma xinv_step w w' t t' F : XInv w (t ++ F) -> x_exhausted w' = false ->
  (forall g ps, x_groups w !! g = Some ps -> exists ps', x_groups w' !! g = Some ps' /\ ps_steps ps <= ps_steps ps') ->
  (forall g n, Seen g n ∈ t' -> exists ps, x_groups w' !! g = Some ps /\ n <= ps_steps ps) ->
  (x_derailed w = true -> x_derailed w' = true) -> (Out ∈ t' -> x_derailed w' = true) ->
  (x_derailed w = false -> x_derailed w' = false -> good w (t ++ F) -> good w' (t' ++ F)) -> XInv w' (t' ++ F).
Proof.
  intros [H1 H2 H3 H4] He Hg Hs Hd Ho Hgood. split; [done|..].
  - intros g n [?|Hin]%elem_of_app; [by apply Hs|]. destruct (H2 g n) as (ps & Hps & Hle); [apply elem_of_app; by right|].
    destruct (Hg _ _ Hps) as (ps' & Hps' & Hle'). exists ps'. split; [done|lia].
  - intros [?|Hin]%elem_of_app; [by apply Ho|]. apply Hd, H3, elem_of_app. by right.
  - intros Hd'. assert (Hf : x_derailed w = false) by (destruct (x_derailed w); [by rewrite Hd in Hd'|done]). auto.
Qed.
(** Other threads do not own the run, and their runs are left alone. *)
Lemma good_frame w w' i t t' F : good w (t ++ F) -> count (owns i) F = 0%nat ->
  rtc (sys_step config) s0 (x_sys w') ->
  (forall j, j <> i -> locals (x_sys w') !! j = locals (x_sys w) !! j) ->
  (forall j, j <> i -> j ∈ x_running w -> j ∈ x_running w') -> x_running w' ⊆ dom (active (sys_rt (x_sys w'))) ->
  (i ∈ dom (locals (x_sys w')) -> i ∈ x_running w') ->
  (forall j, j <> i -> count (owns j) t' = 0%nat) -> (count (owns i) t' <= 1)%nat ->
  (forall j o, Owns j o ∈ t' -> j ∈ x_running w' /\ owned j o (x_sys w')) -> good w' (t' ++ F).
Proof.
  intros [G1 G2 G3 G4 G5] HF Hr Hl Hrun Ha Hd Hc Hi Ho.
  assert (Hne : forall j o, Owns j o ∈ F -> j <> i).
  { intros j o Hj ->. assert (0 < count (owns i) F)%nat; [|lia]. apply count_pos. exists (Owns i o). split; [done|].
    simpl. by rewrite String.eqb_refl. }
  split; [done|..|done|].
  - intros j. specialize (G2 j). rewrite count_app in *. destruct (String.eqb_spec j i) as [->|Hn]; [lia|].
    rewrite Hc by done. lia.
  - intros j o [Hj|Hj]%elem_of_app; [by apply Ho|]. destruct (G3 j o) as [Hin Hown]; [apply elem_of_app; by right|].
    split; [apply Hrun; [by eapply Hne|done]|]. unfold owned in *. by rewrite Hl by (by eapply Hne).
  - intros j Hj. destruct (String.eqb_spec j i) as [->|Hn]; [auto|]. apply Hrun; [done|]. apply G5.
    apply elem_of_dom in Hj. rewrite Hl in Hj by done. by apply elem_of_dom.
Qed.
End Invariant.

(** ** Writes *)

Section Writes.
Context `{L : JsonLib} {HL : JsonLaws L} `{Y : YamlLib} {E : RuntimeEnv} {HE : RuntimeEnvLaws E} {X : ExecutionEnv} {SE : StepEnv}.
Context (config : RuntimeConfig) (single : coordinated config = false) (s0 : Sys) (Hs0 : sys_ok s0).

(** What nodes do to a run apart from its state. *)
Definition keeps_run (r r' : Run) : Prop := id r' = id r /\ steps r' = steps r /\ ready r' = ready r.
Lemma checkpoint_keeps r type rs w w' r' : checkpoint config r type rs w = (w', TOk r') -> keeps_run r r' /\ state r' = state r.
Proof.
  unfold checkpoint. intros Hc. apply io_bind_ok in Hc as (w1 & rs' & _ & Hc).
  apply io_bind_ok in Hc as (w2 & stored & _ & Hc). do 6 (apply io_bind_ok in Hc as (? & ? & _ & Hc)).
  injection Hc as _ <-. by destruct stored.
Qed.

Lemma sys_write_keeps r to type rs s : match (sys_write config r to type rs s).2 with
  | TOk r' => keeps_run r r' /\ state r' = to
  | TThrow _ => True
  end.
Proof.
  unfold sys_write. simpl. destruct (checkpoint config _ type rs (sys_rt s)) as [w [r'|x]] eqn:Hc; [|done].
  by apply checkpoint_keeps in Hc.
Qed.

(** The state of the system as far as an execution of the run [i] sees it. *)
Definition working (i : string) (s s' : Sys) : Prop :=
  rtc (sys_step config) s0 s -> rtc (sys_step config) s0 s' /\ dom (active (sys_rt s)) ⊆ dom (active (sys_rt s')) /\
    forall j, j <> i -> locals s' !! j = locals s !! j.
#[global] Instance working_preorder i : PreOrder (working i).
Proof.
  split; [done|]. intros a b c Hab Hbc Ha. destruct (Hab Ha) as (H1 & H2 & H3). destruct (Hbc H1) as (H4 & H5 & H6).
  split_and!; [done|by etransitivity|]. intros j Hj. by rewrite H6, H3.
Qed.
Lemma reached_wf s : rtc (sys_step config) s0 s -> WF (sys_rt s).
Proof. intros Hs. apply (sys_steps_ok config single) in Hs as [Hok _]; [apply Hok|done]. Qed.
Lemma op_working i w w' l : runtime_op config w w' -> working i (mkSys w l) (mkSys w' l).
Proof.
  intros Hop Hs. assert (Hstep : sys_step config (mkSys w l) (mkSys w' l)) by (destruct Hop; by constructor).
  split_and!; [by eapply rtc_r| |done]. apply (mv_active ∅); [|exact (reached_wf _ Hs)]. destruct Hop.
  - by apply run_moved.
  - by apply resume_moved.
  - by apply cancel_moved.
  - by apply decide_moved.
  - by apply shutdown_moved.
  - by apply same_moved.
  - by apply same_moved.
Qed.
Lemma rt_working i {A} (m : IO RT A) s : (forall w, runtime_op config w (m w).1) -> working i s (on_rt m s).1.
Proof.
  intros Hm. unfold on_rt. specialize (Hm (sys_rt s)). destruct s as [w l]. simpl in *. destruct (m w) as [w' r].
  by apply op_working.
Qed.
Lemma on_rt_locals {A} (m : IO RT A) s : locals (on_rt m s).1 = locals s.
Proof. unfold on_rt. by destruct (m (sys_rt s)). Qed.

Lemma sys_write_ok r to type rs s : owned (id r) (Some (state r)) s -> other rs -> resting to = false ->
  to = state r \/ valid_transition (state r) to = true ->
  working (id r) s (sys_write config r to type rs s).1 /\ owned (id r) (Some to) (sys_write config r to type rs s).1 /\
  match (sys_write config r to type rs s).2 with TOk r' => keeps_run r r' /\ state r' = to | TThrow _ => True end.
Proof.
  intros (r0 & Hl & Hst) Hrs Hto Hv. unfold sys_write. simpl.
  assert (Hstep : sys_step config s (exec_write config r to type rs s)) by (eapply step_write; [exact Hl|by rewrite Hst|done..]).
  pose proof (checkpoint_writes config single (r <| state := to |>) type rs Hrs (sys_rt s)) as Hact.
  unfold exec_write in *. destruct (checkpoint config _ type rs (sys_rt s)) as [w [r'|x]] eqn:Hc; simpl in *.
  - apply checkpoint_keeps in Hc as [Hk Hs]. rewrite Hto in *. split_and!; [|by exists r'; rewrite lookup_insert_eq|done..].
    intros Hr. split_and!; [by eapply rtc_r|by simpl; rewrite (proj1 Hact)|]. intros j Hj. simpl. by rewrite lookup_insert_ne.
  - split_and!; [|by exists (r <| state := to |>); rewrite lookup_insert_eq|done].
    intros Hr. split_and!; [by eapply rtc_r|by simpl; rewrite (proj1 Hact)|]. intros j Hj. simpl. by rewrite lookup_insert_ne.
Qed.
(** Storing a resting state takes the run out of memory. *)
Lemma sys_rest_ok r to type rs s r' : owned (id r) (Some (state r)) s -> other rs -> resting to = true ->
  to = state r \/ valid_transition (state r) to = true -> (sys_write config r to type rs s).2 = TOk r' ->
  working (id r) s (sys_write config r to type rs s).1 /\ owned (id r) None (sys_write config r to type rs s).1.
Proof.
  intros (r0 & Hl & Hst) Hrs Hto Hv. unfold sys_write. simpl.
  assert (Hstep : sys_step config s (exec_write config r to type rs s)) by (eapply step_write; [exact Hl|by rewrite Hst|done..]).
  pose proof (checkpoint_writes config single (r <| state := to |>) type rs Hrs (sys_rt s)) as Hact.
  unfold exec_write in *. destruct (checkpoint config _ type rs (sys_rt s)) as [w [r1|x]] eqn:Hc; simpl in *; [|done].
  intros _. rewrite Hto in *. split; [|apply lookup_delete_eq]. intros Hr.
  split_and!; [by eapply rtc_r|by simpl; rewrite (proj1 Hact)|]. intros j Hj. simpl. by rewrite lookup_delete_ne.
Qed.
End Writes.

(** ** The blocks of an execution *)

Section Blocks.
Context `{L : JsonLib} {HL : JsonLaws L} `{Y : YamlLib} {E : RuntimeEnv} {HE : RuntimeEnvLaws E} {X : ExecutionEnv} {SE : StepEnv}.
Context (config : RuntimeConfig) (single : coordinated config = false) (s0 : Sys) (Hs0 : sys_ok s0).
Abbreviation working := (working config s0).
Abbreviation XInv := (XInv config s0).

(** Operations of an execution that has its run in memory. *)
Definition attends (i : string) {A} (m : IO Sys A) (P : A -> Sys -> Prop) (s : Sys) : Prop :=
  working i s (m s).1 /\ (exists st, owned i (Some st) (m s).1) /\ match (m s).2 with TOk a => P a (m s).1 | TThrow _ => True end.
Lemma attends_bind i {A B} (m : IO Sys A) (f : A -> IO Sys B) P s :
  attends i m (fun a => attends i (f a) P) s -> attends i (m ≫= f) P s.
Proof.
  unfold attends, mbind, io_bind. destruct (m s) as [s1 [a|x]]; intros (Hw & Ho & Hp); simpl in *; [|done].
  destruct Hp as (Hw' & Ho' & Hp). split_and!; [by transitivity s1|done..].
Qed.
Lemma attends_rt i {A} (m : IO RT A) (P : A -> Sys -> Prop) s st : owned i (Some st) s -> (forall w, runtime_op config w (m w).1) ->
  (forall a s', owned i (Some st) s' -> P a s') -> attends i (on_rt m) P s.
Proof.
  intros Ho Hm HP. assert (Ho' : owned i (Some st) (on_rt m s).1) by (unfold owned; by rewrite on_rt_locals).
  split_and!; [by apply rt_working|by exists st|]. destruct (on_rt m s).2; [by apply HP|done].
Qed.
Lemma attends_ret i {A} (r : tres A) (P : A -> Sys -> Prop) s st : owned i (Some st) s -> (forall a, r = TOk a -> P a s) -> attends i (io_lift r) P s.
Proof. intros Ho HP. split_and!; [done|by exists st|]. destruct r; simpl; auto. Qed.
Lemma attends_write r to type rs (P : Run -> Sys -> Prop) s : owned (id r) (Some (state r)) s -> other rs -> resting to = false ->
  to = state r \/ valid_transition (state r) to = true ->
  (forall r' s', keeps_run r r' -> state r' = to -> owned (id r) (Some to) s' -> P r' s') -> attends (id r) (sys_write config r to type rs) P s.
Proof.
  intros Ho Hrs Hto Hv HP. destruct (sys_write_ok config single s0 r to type rs s Ho Hrs Hto Hv) as (Hw & Ho' & Hk).
  split_and!; [done|by exists to|]. destruct (sys_write config r to type rs s) as [s' [r'|x]]; simpl in *; [|done].
  destruct Hk. by apply HP.
Qed.
Lemma preparation_ok r x s st : owned (id r) (Some st) s ->
  attends (id r) (failed_preparation r x) (fun rc s' => rc_kind rc <> KRun /\ owned (id r) (Some st) s') s.
Proof.
  intros Ho. unfold failed_preparation. apply attends_bind. eapply attends_rt; [exact Ho|intros w; apply op_other, same_call|].
  intros n s1 H1. apply attends_bind. eapply attends_rt; [exact H1|intros w; apply op_other, same_now|].
  intros m s2 H2. by eapply (attends_ret _ (TOk _)); [|intros ? [= <-]].
Qed.
Lemma settle_run_ok r x s : owned (id r) (Some (state r)) s -> attends (id r) (settle_run config r x) (fun _ _ => True) s.
Proof.
  intros Ho. unfold settle_run. set (r1 := r <| error := final_error x |>). change (id r) with (id r1).
  change (state r) with (state r1) in Ho. change (id r) with (id r1) in Ho. clearbody r1. cbv zeta.
  case_match; [by apply (attends_ret _ (TOk tt) _ _ (state r1))|].
  apply attends_bind. eapply attends_ret; [exact Ho|]. intros [] Hg. apply tguard_ok, negb_false_iff in Hg.
  apply attends_bind. apply attends_write; [done|apply other_nil| |by right|].
  - unfold final_state. by repeat case_match.
  - intros r3 s3 _ _ H3. by apply (attends_ret _ (TOk tt) _ _ (final_state x)).
Qed.
Lemma settle_child_ok r i st (P : unit -> Sys -> Prop) s : owned i (Some st) s -> (forall s', owned i (Some st) s' -> P tt s') ->
  attends i (settle_child config r) P s.
Proof.
  intros Ho HP. assert (Hret : forall s', owned i (Some st) s' -> attends i (mret tt) P s').
  { intros s' Hs. apply (attends_ret _ (TOk tt) _ _ st); [done|]. intros [] _. by apply HP. }
  unfold settle_child. case_match; [by apply Hret|].
  apply attends_bind. eapply attends_rt; [exact Ho|intros w; apply op_other, same_get_run|]. intros c s2 H2.
  case_match; [by apply Hret|]. eapply attends_rt; [exact H2|intros w; apply op_cancel|]. intros [] s3. apply HP.
Qed.
Lemma settle_ok r recorded x s : owned (id r) (Some (state r)) s -> resting (state r) = false ->
  attends (id r) (settle_error config r recorded x) (fun _ _ => True) s.
Proof.
  intros Ho Hr. unfold settle_error. apply attends_bind.
  assert (Hrest : forall r1 s1, id r1 = id r -> state r1 = state r -> owned (id r) (Some (state r)) s1 ->
    attends (id r) (_ ← settle_child config r1; settle_run config r1 x) (fun _ _ => True) s1).
  { intros r1 s1 Hi Hst H1. apply attends_bind. eapply settle_child_ok; [exact H1|]. intros s2 H2.
    rewrite <- Hi. apply settle_run_ok. by rewrite Hi, Hst. }
  destruct recorded; [by apply (attends_ret _ (TOk r) _ _ (state r)); [|intros r1 [= <-]; apply Hrest]|].
  apply attends_bind. destruct (preparation_ok r x s (state r) Ho) as (Hw & Ho' & Hp). split_and!; [done..|].
  destruct (failed_preparation r x s) as [s1 [rc|y]]; [|done]. simpl in *. destruct Hp as [Hrc H1].
  apply attends_write; [done|by repeat constructor|done|by left|]. intros r1 s2 (Hi & _) Hs H2. by apply Hrest.
Qed.
Lemma start_run_ok r w : match (start_run config r w).2.2 with
  | TOk b => start_execution config r w = ((start_run config r w).1, TOk (if b then Some (start_run config r w).2.1 else None))
  | TThrow _ => True
  end.
Proof.
  unfold start_run, start_execution. unfold mbind, io_bind. destruct (get_run (id r) w) as [w1 [r1|x]]; [|done].
  destruct (terminal (state r1)); [done|]. destruct (cancellation_requested r1).
  - by destruct (transition config r1 Cancelled _ _ w1) as [w2 [r2|x]].
  - destruct (transition config r1 Starting _ _ w1) as [w2 [r2|x]]; [|done].
    destruct (transition config r2 Running _ _ w2) as [w3 [r3|x]]; [|done].
    by destruct (reconcile_distributed_parallel r3 w3) as [w4 [r4|x]].
Qed.

(** A block of an execution: either it derails, or the run is in memory as the new ticket says. *)
Lemma sys_block {B} (b : XW -> XW * B) i o t (Q : B -> list Ticket -> Prop) : t = [Owns i o] \/ t = [Out] ->
  (forall w, x_groups (b w).1 = x_groups w /\ x_exhausted (b w).1 = x_exhausted w /\ x_running (b w).1 = x_running w
     /\ (x_derailed w = true -> x_derailed (b w).1 = true)) ->
  (forall w, x_derailed (b w).1 = true -> Q (b w).2 [Out]) ->
  (forall w, x_derailed (b w).1 = false -> rtc (sys_step config) s0 (x_sys w) -> i ∈ dom (active (sys_rt (x_sys w))) ->
     owned i o (x_sys w) ->
     working i (x_sys w) (x_sys (b w).1) /\ exists o', owned i o' (x_sys (b w).1) /\ Q (b w).2 [Owns i o']) ->
  block_ok XInv b t Q.
Proof.
  intros Ht Hb Hout Hown w F Hi. destruct (Hb w) as (Bg & Be & Br & Bd). pose proof (xi_fuel _ _ _ _ Hi) as Hf.
  assert (Hg : forall g ps, x_groups w !! g = Some ps -> exists ps', x_groups (b w).1 !! g = Some ps' /\ ps_steps ps <= ps_steps ps').
  { rewrite Bg. intros g ps Hps. by exists ps. }
  destruct (x_derailed (b w).1) eqn:Hd.
  { exists [Out]. split; [|by apply Hout]. eapply (xinv_step _ _ w); [exact Hi|congruence|done| |done|done|by rewrite Hd].
    by intros g n [[=]|[]%elem_of_nil]%elem_of_cons. }
  assert (Hd0 : x_derailed w = false) by (destruct (x_derailed w); [by specialize (Bd eq_refl)|done]).
  destruct Ht as [->| ->]; [|exfalso; rewrite (xi_out _ _ _ _ Hi) in Hd0; [done|by left]].
  pose proof (xi_good _ _ _ _ Hi Hd0) as Hgood. destruct (gd_owned _ _ _ _ Hgood i o) as [Hrun Ho]; [by left|].
  destruct (Hown w Hd (gd_reach _ _ _ _ Hgood) (gd_running _ _ _ _ Hgood _ Hrun) Ho) as (Hw & o' & Ho' & HQ). exists [Owns i o']. split; [|done].
  destruct (Hw (gd_reach _ _ _ _ Hgood)) as (W1 & W2 & W3).
  eapply (xinv_step _ _ w); [exact Hi|congruence|done| |congruence| |].
  { by intros g n [[=]|[]%elem_of_nil]%elem_of_cons. }
  { by intros [[=]|[]%elem_of_nil]%elem_of_cons. }
  intros _ _ _. assert (Hcnt : forall j, j <> i -> count (owns j) [Owns i o'] = 0%nat).
  { intros j Hj. rewrite count_cons. simpl. destruct (String.eqb_spec i j); [congruence|done]. }
  eapply (good_frame _ _ w _ i [Owns i o]); try done.
  - pose proof (gd_once _ _ _ _ Hgood i) as H1. rewrite count_app, count_cons in H1. simpl in H1. rewrite String.eqb_refl in H1. lia.
  - intros j Hj. by rewrite Br.
  - rewrite Br. etransitivity; [by apply (gd_running _ _ _ _ Hgood)|done].
  - by rewrite Br.
  - rewrite count_cons. simpl. rewrite String.eqb_refl. done.
  - intros j o1 [[= -> ->]|[]%elem_of_nil]%elem_of_cons. by rewrite Br.
Qed.

(** The tickets of a thread that has the run [i] in memory, and those of one that ends. *)
Definition holds (i : string) (r : Run) (t : list Ticket) : Prop :=
  (t = [Owns i (Some (state r))] /\ id r = i /\ resting (state r) = false) \/ t = [Out].
Definition ending (i : string) (t : list Ticket) : Prop := exists o, t = [Owns i o] \/ t = [Out].
Lemma holds_ending i r t : holds i r t -> ending i t.
Proof. intros [[-> _]| ->]; [exists (Some (state r)); by left|exists None; by right]. Qed.
Lemma holds_same i r r' t : id r' = id r -> state r' = state r -> holds i r t -> holds i r' t.
Proof. unfold holds. by intros -> ->. Qed.
Lemma holds_owns i r t : holds i r t -> t = [Owns i (Some (state r))] \/ t = [Out].
Proof. intros [[-> _]| ->]; [by left|by right]. Qed.
Lemma out_derailed w F : XInv w ([Out] ++ F) -> x_derailed w = true.
Proof. intros Hi. apply (xi_out _ _ _ _ Hi). by left. Qed.
(** Once derailed, blocks only have to stay so. *)
Lemma out_block {B} (b : XW -> XW * B) (Q : B -> list Ticket -> Prop) :
  (forall w, x_groups (b w).1 = x_groups w /\ x_exhausted (b w).1 = x_exhausted w
     /\ (x_derailed w = true -> x_derailed (b w).1 = true)) ->
  (forall w, Q (b w).2 [Out]) -> block_ok XInv b [Out] Q.
Proof.
  intros Hb HQ w F Hi. destruct (Hb w) as (Bg & Be & Bd). exists [Out]. split; [|done].
  pose proof (out_derailed w F Hi) as Hd. eapply (xinv_step _ _ w); [exact Hi|rewrite Be; apply Hi|..]; auto.
  - rewrite Bg. intros g ps Hps. by exists ps.
  - by intros g n [[=]|[]%elem_of_nil]%elem_of_cons.
  - rewrite Hd. congruence.
Qed.

Lemma write_block i r to type rs t : holds i r t -> other rs -> to = state r \/ valid_transition (state r) to = true ->
  block_ok XInv (noted_write config r to type rs) t (fun res t' =>
    match res with
    | TOk r' => keeps_run r r' /\ state r' = to /\ (if resting to then ending i t' /\ (t = [Out] -> t' = [Out]) else holds i r' t')
    | TThrow _ => holds i (r <| state := to |>) t'
    end).
Proof.
  intros Ht Hrs Hv.
  assert (Hk : forall w, match (noted_write config r to type rs w).2 with TOk r' => keeps_run r r' /\ state r' = to | TThrow _ => True end).
  { intros w. unfold noted_write, on_sys. pose proof (sys_write_keeps config r to type rs (x_sys w)) as Hk. by destruct (sys_write _ _ _ _ _ _). }
  assert (Hout : forall w, match (noted_write config r to type rs w).2 with
    | TOk r' => keeps_run r r' /\ state r' = to /\ (if resting to then ending i [Out] /\ (t = [Out] -> [Out] = [Out]) else holds i r' [Out])
    | TThrow _ => holds i (r <| state := to |>) [Out] end).
  { intros w. specialize (Hk w). case_match; [|by right]. destruct Hk. split_and!; [done..|]. case_match; [split; [exists None; by right|done]|by right]. }
  assert (Hb : forall w, x_groups (noted_write config r to type rs w).1 = x_groups w /\ x_exhausted (noted_write config r to type rs w).1 = x_exhausted w
     /\ x_running (noted_write config r to type rs w).1 = x_running w
     /\ (x_derailed w = true -> x_derailed (noted_write config r to type rs w).1 = true)).
  { intros w. unfold noted_write, on_sys. destruct (sys_write _ _ _ _ _ _) as [s1 [r'|x]]; [done|]. simpl. by destruct (resting to). }
  destruct Ht as [(-> & <- & Hst)| ->]; [|apply out_block; [|done]; intros w; destruct (Hb w) as (? & ? & _ & ?); done].
  apply (sys_block _ (id r) (Some (state r))); [by left|done|intros w _; apply Hout|].
  intros w Hd _ _ Ho. specialize (Hk w). destruct (resting to) eqn:Hto.
  - pose proof (sys_rest_ok config single s0 r to type rs (x_sys w)) as Hw.
    unfold noted_write, on_sys in *. destruct (sys_write config r to type rs (x_sys w)) as [s1 [r'|x]]; simpl in *; rewrite ?Hto in *; [|done].
    destruct Hk. destruct (Hw r' Ho Hrs eq_refl Hv eq_refl) as [Hw' Ho']. split; [done|]. exists None. split_and!; [done..| |done].
    exists None. by left.
  - destruct (sys_write_ok config single s0 r to type rs (x_sys w) Ho Hrs Hto Hv) as (Hw & Ho' & _).
    unfold noted_write, on_sys in *. destruct (sys_write config r to type rs (x_sys w)) as [s1 [r'|x]]; simpl in *; rewrite ?Hto in *.
    + split; [done|]. exists (Some to). split; [done|]. destruct Hk as [Hk Hs]. split_and!; [done..|].
      left. rewrite Hs. split_and!; [done|apply Hk|done].
    + split; [done|]. exists (Some to). split; [done|]. by left.
Qed.
Lemma settle_block i r recorded x t : holds i r t ->
  block_ok XInv (on_sys (settle_error config r recorded x)) t (fun _ t' => ending i t').
Proof.
  assert (Hb : forall w, let w' := (on_sys (settle_error config r recorded x) w).1 in
    x_groups w' = x_groups w /\ x_exhausted w' = x_exhausted w /\ x_running w' = x_running w /\ x_derailed w' = x_derailed w).
  { intros w. unfold on_sys. by destruct (settle_error _ _ _ _ _). }
  intros [(-> & <- & Hr)| ->].
  - apply (sys_block _ (id r) (Some (state r))); [by left| |intros w _; exists None; by right|].
    { intros w. destruct (Hb w) as (? & ? & ? & Hd). by rewrite Hd. }
    intros w _ _ _ Ho. destruct (settle_ok r recorded x (x_sys w) Ho Hr) as (Hw & [st Hst] & _).
    unfold on_sys. destruct (settle_error config r recorded x (x_sys w)) as [s1 y]. simpl in *. split; [done|].
    exists (Some st). split; [done|]. exists (Some st). by left.
  - apply out_block; [|intros w; exists None; by right]. intros w. destruct (Hb w) as (? & ? & _ & Hd). by rewrite Hd.
Qed.
Lemma begin_block r t : t = [Owns (id r) None] -> block_ok XInv (begin_run config r) t (fun res t' =>
  match res.2 with
  | TOk true => holds (id r) res.1 t'
  | TOk false => ending (id r) t'
  | TThrow _ => t' = [Out]
  end).
Proof.
  intros ->. apply (sys_block _ (id r) None); [by left|..].
  - intros w. unfold begin_run. simpl. destruct (start_run config r (sys_rt (x_sys w))) as [w' [r' [[]|x]]]; done.
  - intros w _. destruct (begin_run config r w).2.2 as [[]|x]; [by right|exists None; by right|done].
  - intros w Hd Hr Ha Ho. pose proof (start_run_ok r (sys_rt (x_sys w))) as Hs. unfold begin_run in *.
    destruct (start_run config r (sys_rt (x_sys w))) as [rt [r' [b|x]]]; simpl in *; [|done].
    assert (Hstep : sys_step config (x_sys w) (mkSys rt (if b then <[id r := r']> (locals (x_sys w)) else locals (x_sys w)))).
    { destruct (x_sys w) as [rt0 l]. simpl in *. pose proof (Lifecycle.step_start config r rt0 rt l _ Ha Ho Hs) as Hst. by destruct b. }
    apply (start_execution_ok config single) in Hs as [Hm Hs]; [|exact (reached_wf config single s0 Hs0 _ Hr)]. split.
    { intros _. split_and!; [by eapply rtc_r|simpl; by rewrite (mr_active _ _ _ Hm)|]. intros j Hj. simpl.
      destruct b; [by rewrite lookup_insert_ne|done]. }
    destruct b; [|exists None; split; [done|exists None; by left]]. destruct Hs as (Hi & Hst & _).
    exists (Some Running). split; [exists r'; simpl; by rewrite lookup_insert_eq|]. left. by rewrite Hst.
Qed.

(** The end of the coroutine gives the run back. *)
Lemma end_block i failed t : ending i t -> block_ok XInv (end_run config i failed) t (fun _ t' => True).
Proof.
  intros (o & Ht) w F Hi. exists []. split; [|done]. eapply (xinv_step _ _ w); [exact Hi|apply Hi|intros g ps Hps; by exists ps| |done| |].
  { by intros g n []%elem_of_nil. }
  { by intros []%elem_of_nil. }
  intros Hd _ Hgood. destruct Ht as [->| ->]; [|by rewrite (out_derailed w F Hi) in Hd].
  destruct w as [[rt l] gs run ex de]. simpl in *. pose proof (gd_reach _ _ _ _ Hgood) as Hr. simpl in Hr.
  assert (Hwf : WF rt) by exact (reached_wf config single s0 Hs0 _ Hr).
  pose proof (mv_active _ _ _ (execution_ended_moved config single i failed rt) Hwf) as Ha. simpl in Ha.
  assert (Hrt : rtc (sys_step config) s0 (mkSys (execution_ended config i failed rt).1 (delete i l)))
    by (eapply rtc_r; [exact Hr|apply Lifecycle.step_end]).
  pose proof (gd_running _ _ _ _ Hgood) as Hrun. pose proof (gd_locals _ _ _ _ Hgood) as Hl. simpl in *.
  eapply (good_frame _ _ _ _ i [Owns i o] []); try done; simpl.
  - pose proof (gd_once _ _ _ _ Hgood i) as H1. rewrite count_cons in H1. simpl in H1. rewrite String.eqb_refl in H1. lia.
  - intros j Hj. by rewrite lookup_delete_ne.
  - set_solver.
  - rewrite dom_delete_L in Ha. set_solver.
  - rewrite dom_delete_L. set_solver.
  - unfold count. simpl. lia.
  - by intros j o1 []%elem_of_nil.
Qed.
Lemma enter_block r : block_ok XInv (enter_run r) [] (fun entered t' => t' = if (entered : bool) then [Owns (id r) None] else []).
Proof.
  intros w F Hi. unfold enter_run. case_match eqn:Hc; [|by exists []].
  apply andb_prop in Hc as [H1%bool_decide_eq_true H2%bool_decide_eq_true].
  exists [Owns (id r) None]. split; [|done]. eapply (xinv_step _ _ w _ []); [exact Hi|apply Hi|intros g ps Hps; by exists ps| |done| |].
  { by intros g n [[=]|[]%elem_of_nil]%elem_of_cons. }
  { by intros [[=]|[]%elem_of_nil]%elem_of_cons. }
  intros _ _ Hgood. eapply (good_frame _ _ _ _ (id r) []); [exact Hgood|..]; simpl.
  - destruct (count (owns (id r)) F) eqn:Hn; [done|]. exfalso. assert (Hp : (0 < count (owns (id r)) F)%nat) by lia.
    apply count_pos in Hp as ([j o| |g n'] & Hin & Hk); simpl in Hk; [|done..]. apply String.eqb_eq in Hk as ->.
    by destruct (gd_owned _ _ _ _ Hgood _ _ Hin).
  - apply Hgood.
  - done.
  - set_solver.
  - pose proof (gd_running _ _ _ _ Hgood). set_solver.
  - set_solver.
  - intros j Hj. rewrite count_cons. simpl. destruct (String.eqb_spec (id r) j); [congruence|done].
  - rewrite count_cons. unfold count. simpl. case_match; lia.
  - intros j o [[= -> ->]|[]%elem_of_nil]%elem_of_cons. split; [set_solver|]. simpl. apply not_elem_of_dom.
    intros Hin. apply (gd_locals _ _ _ _ Hgood) in Hin. done.
Qed.

(** Steps that need no ticket. *)
Lemma unmoved_inv w w' T : unmoved w w' -> XInv w T -> XInv w' T.
Proof.
  intros (Hs & Hl & Hg & Hr & He & Hd) Hi. change T with ([] ++ T). eapply (xinv_step _ _ w _ []); [exact Hi|rewrite He; apply Hi|..].
  - rewrite Hg. intros g ps Hps. by exists ps.
  - by intros g n []%elem_of_nil.
  - by rewrite Hd.
  - by intros []%elem_of_nil.
  - intros _ _ [G1 G2 G3 G4 G5]. split; [| |rewrite Hr|rewrite Hr, (proj2 Hs)|rewrite Hl, Hr]; try done.
    + eapply rtc_r; [exact G1|]. destruct (x_sys w) as [rt l], (x_sys w') as [rt' l']. simpl in *. subst. by apply Lifecycle.step_other.
    + intros i o Ho. destruct (G3 i o Ho). split; [done|]. unfold owned in *. by rewrite Hl.
Qed.
Lemma operation_inv w w' T : operation config w w' -> XInv w T -> XInv w' T.
Proof.
  intros [w1 rt Hop] Hi. change T with ([] ++ T). eapply (xinv_step _ _ w1 _ []); [exact Hi|apply Hi|..]; simpl.
  - intros g ps Hps. by exists ps.
  - by intros g n []%elem_of_nil.
  - done.
  - by intros []%elem_of_nil.
  - intros _ _ [G1 G2 G3 G4 G5]. destruct (op_working config single s0 Hs0 "" _ _ (locals (x_sys w1)) Hop) as (H1 & H2 & _).
    { by destruct (x_sys w1). }
    split; simpl in *; [done..| |done]. by etransitivity.
Qed.

(** *** Groups of branches *)

(** A step on one group whose steps do not shrink. *)
Lemma group_block {A} g n (f : ParallelState -> ParallelState * tres A) m (P : Prop) :
  (forall ps, n <= ps_steps ps -> ps_steps ps <= ps_steps (f ps).1 /\ (forall a, (f ps).2 = TOk a -> m <= ps_steps (f ps).1 /\ P)) ->
  block_ok XInv (on_group g f) [Seen g n] (fun r t' => match r with TOk _ => t' = [Seen g m] /\ P | TThrow _ => t' = [Seen g n] end).
Proof.
  intros Hf w F Hi. destruct (xi_seen _ _ _ _ Hi g n) as (ps & Hps & Hn); [by left|]. unfold on_group. rewrite Hps.
  destruct (Hf ps Hn) as [Hle Hm]. destruct (f ps) as [ps' r]. simpl in *.
  assert (Hl : (g < length (x_groups w))%nat) by (by eapply lookup_lt_Some).
  set (w' := w <| x_groups := <[g := ps']> (x_groups w) |>).
  assert (Hin : forall k, (forall a, r = TOk a -> k <= ps_steps ps') -> (forall x, r = TThrow x -> k <= ps_steps ps') -> XInv w' ([Seen g k] ++ F)).
  { intros k H1 H2. eapply (xinv_step _ _ w _ [Seen g n]); [exact Hi|apply Hi|..]; simpl.
    - intros g' ps1 Hg'. destruct (Nat.eq_dec g g') as [<-|Hne].
      + exists ps'. rewrite list_lookup_insert_eq by done. split; [done|]. by simplify_eq.
      + exists ps1. by rewrite list_lookup_insert_ne.
    - intros g' n' [[= -> ->]|[]%elem_of_nil]%elem_of_cons. exists ps'. rewrite list_lookup_insert_eq by done. split; [done|].
      destruct r; eauto.
    - done.
    - by intros [[=]|[]%elem_of_nil]%elem_of_cons.
    - intros _ _ [G1 G2 G3 G4 G5]. split; simpl in *; [done| | |done..].
      + intros i. specialize (G2 i). rewrite count_cons in *. done.
      + intros i o Ho. apply G3. apply elem_of_cons in Ho as [[=]|Ho]. by right. }
  destruct r as [a|x].
  - destruct (Hm a eq_refl). exists [Seen g m]. split; [|done]. by apply Hin.
  - exists [Seen g n]. split; [|done]. apply Hin; [done|]. intros _ _. lia.
Qed.
Lemma new_group_block width n t k : block_ok XInv (new_group width n) t (fun r t' =>
  match r with TOk g => t' = replicate k (Seen g n) ++ t | TThrow _ => False end).
Proof.
  intros w F Hi. simpl. eexists. split; [|done]. rewrite <- app_assoc.
  set (w' := w <| x_groups := x_groups w ++ [mkParallel (replicate width None) 0 n false "" Execution] |>).
  change (t ++ F) with ([] ++ (t ++ F)) in Hi. eapply (xinv_step _ _ w w' [] _ (t ++ F)); [exact Hi|apply Hi|..]; simpl.
  - intros g ps Hps. exists ps. split; [|done]. by apply lookup_app_l_Some.
  - intros g m Hin. apply elem_of_replicate_inv in Hin. injection Hin as -> ->. eexists. split; [by apply list_lookup_middle|done].
  - done.
  - intros Hin. by apply elem_of_replicate_inv in Hin.
  - intros _ _ [G1 G2 G3 G4 G5]. split; simpl in *; [done| | |done..].
    + intros i. specialize (G2 i). rewrite count_app. replace (count (owns i) (replicate k (Seen (length (x_groups w)) n))) with 0%nat; [done|].
      clear. induction k as [|k IH]; [done|]. simpl. by rewrite count_cons.
    + intros i o [Ho|Ho]%elem_of_app; [by apply elem_of_replicate_inv in Ho|by apply G3].
Qed.
End Blocks.
