(* ===== verification/Stepping.v ===== *)
(** * The steps of an execution keep the invariant

    Triples over the programs of [Stepper]: a thread that has its run in memory keeps it so, gives it
    back when the run rests or ends, and takes a step of the pipeline in every pass of its loop. *)

From S2P Require Import Prelude Json Types Text Pipeline Graph Yaml Access Db Coordination Codec Worker Store Rows Sessions RunRows Effects Runtime Files Workspace Execution Lifecycle Threads Steps Branches Stepper Following Holding.

(** ** Rules *)

Section Triples.
Context `{L : JsonLib} {HL : JsonLaws L} `{Y : YamlLib} {E : RuntimeEnv} {HE : RuntimeEnvLaws E} {X : ExecutionEnv} {SE : StepEnv}.
Context (config : RuntimeConfig) (single : coordinated config = false) (s0 : Sys) (Hs0 : sys_ok s0) (i : string).
Abbreviation XInv := (XInv config s0).
Abbreviation xwp := (wp silent XInv (fun _ => True)).

(** Further tickets do no harm. *)
Definition has (l : Loc) (t : list Ticket) : Prop := exists t0, t0 ⊆+ t /\ holds i (l_run l) t0.
Definition gives (t : list Ticket) : Prop := exists t0, t0 ⊆+ t /\ ending i t0.
Lemma has_gives l t : has l t -> gives t.
Proof. intros (t0 & Hs & Hh). exists t0. split; [done|]. by eapply holds_ending. Qed.
Lemma has_same l l' t : id (l_run l') = id (l_run l) -> state (l_run l') = state (l_run l) -> has l t -> has l' t.
Proof. intros Hi Hs (t0 & Hsub & Hh). exists t0. split; [done|]. by eapply holds_same. Qed.
Lemma has_more l t u : t ⊆+ u -> has l t -> has l u.
Proof. intros Hs (t0 & Hsub & Hh). exists t0. split; [by etransitivity|done]. Qed.
(** [Q] holds of what [m] returns; when it throws, the run is still in memory, and [Z] holds. *)
Definition after {A} (Z : Loc -> Prop) (Q : A -> Loc -> list Ticket -> Prop) (r : Loc * outcome A) (t : list Ticket) : Prop :=
  match r.2 with
  | Value a => Q a r.1 t
  | Thrown _ => Z r.1 /\ has r.1 t
  | Polling => True
  | Exhausted => False
  end.
Definition triple {A} (m : Ex A) (Z : Loc -> Prop) (Q : A -> Loc -> list Ticket -> Prop) (l : Loc) (t : list Ticket) : Prop :=
  xwp (m l) t (after Z Q).

Lemma triple_mono {A} (m : Ex A) (Z Z' : Loc -> Prop) (Q Q' : A -> Loc -> list Ticket -> Prop) l t :
  (forall l', Z l' -> Z' l') -> (forall a l' t', Q a l' t' -> Q' a l' t') -> triple m Z Q l t -> triple m Z' Q' l t.
Proof.
  intros HZ HQ. apply wp_mono. intros [l' o] t'. unfold after. simpl. destruct o; [apply HQ| |done..]. intros [? ?]. auto.
Qed.
Lemma triple_bind {A B} (m : Ex A) (f : A -> Ex B) Z Q l t :
  triple m Z (fun a => triple (f a) Z Q) l t -> triple (m ≫= f) Z Q l t.
Proof.
  intros Hm. apply wp_bind. eapply wp_mono; [|exact Hm]. intros [l' o] t'. unfold after at 1. simpl. by destruct o.
Qed.
Lemma triple_handle {A} (m : Ex A) h Z Z' Q l t : triple m Z' Q l t ->
  (forall x l' t', Z' l' -> has l' t' -> triple (h x) Z Q l' t') -> triple (ex_handle m h) Z Q l t.
Proof.
  intros Hm Hh. apply wp_bind. eapply wp_mono; [|exact Hm]. intros [l' o] t'. unfold after at 1. simpl. destruct o; [done| |done..].
  intros [? ?]. by apply Hh.
Qed.
Lemma triple_ret {A} (a : A) Z (Q : A -> Loc -> list Ticket -> Prop) l t : Q a l t -> triple (mret a) Z Q l t.
Proof. done. Qed.
Lemma triple_run {B} (f : Run -> Ex B) Z Q l t : triple (f (l_run l)) Z Q l t -> triple (ex_run ≫= f) Z Q l t.
Proof. done. Qed.
Lemma triple_loc {B} (f : Loc -> Ex B) Z Q l t : triple (f l) Z Q l t -> triple (ex_loc ≫= f) Z Q l t.
Proof. done. Qed.
Lemma triple_update {B} g (f : unit -> Ex B) Z Q l t :
  triple (f tt) Z Q (l <| l_run := g (l_run l) |>) t -> triple (ex_update g ≫= f) Z Q l t.
Proof. done. Qed.
Lemma triple_guard {B} c code msg (f : unit -> Ex B) (Z : Loc -> Prop) Q l t : has l t -> Z l -> (c = false -> triple (f tt) Z Q l t) ->
  triple (ex_guard c code msg ≫= f) Z Q l t.
Proof. intros Hl Hz Hf. destruct c; [by split|by apply Hf]. Qed.
Lemma triple_lift {A B} (r : tres A) (f : A -> Ex B) (Z : Loc -> Prop) Q l t : has l t -> Z l ->
  (forall a, r = TOk a -> triple (f a) Z Q l t) -> triple (ex_lift r ≫= f) Z Q l t.
Proof. intros Hl Hz Hf. destruct r; [by apply Hf|by split]. Qed.

(** *** Steps that leave the run alone *)

Lemma neutral_has l l' t : retains l l' -> has l t -> has l' t.
Proof. intros [(Hi & _) Hs]. by apply has_same. Qed.
Lemma triple_neutral {A} (m : Ex A) (Z : Loc -> Prop) (Q : A -> Loc -> list Ticket -> Prop) l t : neutral m -> has l t ->
  (forall l', retains l l' -> Z l') -> (forall a l', retains l l' -> has l' t -> Q a l' t) -> triple m Z Q l t.
Proof.
  intros Hm Hl Hz HQ. eapply wp_mono; [|eapply (lands_wp _ _ _ unmoved); [|apply Hm]].
  - intros [l' o] t' [-> [Hr Ho]]. unfold after. simpl in *. pose proof (neutral_has _ _ _ Hr Hl). destruct o; [by apply HQ| |done..].
    split; [by apply Hz|done].
  - intros w w' T. by apply unmoved_inv.
Qed.

(** *** Steps that keep the run in memory, and its steps and waiting branches *)

Definition calm {A} (m : Ex A) : Prop := forall l t, has l t ->
  triple m (keeps l) (fun _ l' t' => keeps l l' /\ has l' t') l t.
Lemma neutral_calm {A} (m : Ex A) : neutral m -> calm m.
Proof.
  intros Hm l t Hl. apply triple_neutral; [done..|by intros l' [Hk _]|]. intros a l' [Hk _] Hh. done.
Qed.
Lemma triple_calm {A} (m : Ex A) (Z : Loc -> Prop) (Q : A -> Loc -> list Ticket -> Prop) l t : calm m -> has l t ->
  (forall l', keeps l l' -> Z l') -> (forall a l' t', keeps l l' -> has l' t' -> Q a l' t') -> triple m Z Q l t.
Proof. intros Hm Hl Hz HQ. eapply triple_mono; [| |by apply Hm]; [done|]. intros a l' t' [? ?]. by apply HQ. Qed.
Lemma calm_bind {A B} (m : Ex A) (f : A -> Ex B) : calm m -> (forall a, calm (f a)) -> calm (m ≫= f).
Proof.
  intros Hm Hf l t Hl. apply triple_bind, triple_calm; [done..|]. intros a l' t' Hk Hl'.
  eapply triple_mono; [| |by apply Hf]; [intros l2 Hk2; by transitivity l'|]. intros b l2 t2 [Hk2 Hl2]. split; [by transitivity l'|done].
Qed.
(** A calm step before others, when exceptions matter and when they do not. *)
Lemma calm_then {A B} (m : Ex A) (f : A -> Ex B) Q l t : calm m -> has l t ->
  (forall a l' t', keeps l l' -> has l' t' -> triple (f a) (keeps l') Q l' t') -> triple (m ≫= f) (keeps l) Q l t.
Proof.
  intros Hm Hl Hf. apply triple_bind, triple_calm; [done..|]. intros a l' t' Hk Hl'.
  eapply triple_mono; [|done|by apply Hf]. intros l2 Hk2. by transitivity l'.
Qed.
Definition any (l : Loc) : Prop := True.
Lemma calm_next {A B} (m : Ex A) (f : A -> Ex B) Q l t : calm m -> has l t ->
  (forall a l' t', keeps l l' -> has l' t' -> triple (f a) any Q l' t') -> triple (m ≫= f) any Q l t.
Proof. intros Hm Hl Hf. by apply triple_bind, triple_calm. Qed.
Lemma triple_record {A} (f : StoreRecord -> Ex A) Z Q l t :
  (forall rc, rc_kind rc <> KRun -> triple (f rc) Z Q l t) -> triple (ex_attempt_record ≫= f) Z Q l t.
Proof. intros Hf. by apply Hf. Qed.
Lemma calm_record {A} (f : StoreRecord -> Ex A) : (forall rc, rc_kind rc <> KRun -> calm (f rc)) -> calm (ex_attempt_record ≫= f).
Proof. intros Hf l t Hl. by apply Hf. Qed.
Lemma calm_when b m : calm m -> calm (ex_when b m).
Proof. destruct b; [done|intros _; apply neutral_calm, neutral_ret]. Qed.
Lemma calm_write to type rs l t : has l t -> other rs -> to = state (l_run l) \/ valid_transition (state (l_run l)) to = true ->
  triple (ex_write config to type rs) (keeps l)
    (fun _ l' t' => keeps l l' /\ state (l_run l') = to /\ (if resting to && negb (resting (state (l_run l))) then gives t' else has l' t')) l t.
Proof.
  intros (t0 & Hsub & Hh) Hrs Hto. unfold triple, ex_write. simpl. eapply block_sub; [by apply xinv_perm|by apply xinv_drop|exact Hsub|].
  eapply block_ok_mono; [|exact (write_block config single s0 i (l_run l) to type rs t0 Hh Hrs Hto)].
  intros [r'|x] t'; simpl; unfold after; simpl; [|intros H; split; [done|by exists t']].
  intros ((H1 & H2 & H3) & Hs & Ht). split_and!; [done..|]. destruct (resting to); [|by exists t']. destruct Ht as [He Ho].
  destruct (resting (state (l_run l))) eqn:Hr; [|by exists t']. exists t'. split; [done|]. right. apply Ho.
  destruct Hh as [(_ & _ & ?)|?]; [congruence|done].
Qed.
Lemma calm_checkpoint type rs : other rs -> calm (ex_checkpoint config type rs).
Proof.
  intros Hrs l t Hl. apply triple_run. eapply triple_mono; [done| |apply calm_write; [done..|by left]].
  intros [] l' t' (Hk & Hs & Ht). rewrite andb_negb_r in Ht. done.
Qed.
Lemma calm_transition to type rs : other rs -> resting to = false -> calm (ex_transition config to type rs).
Proof.
  intros Hrs Hto l t Hl. apply triple_run, triple_guard; [done..|]. intros Hv%negb_false_iff.
  eapply triple_mono; [done| |apply calm_write; [done..|by right]]. intros [] l' t' (Hk & _ & Ht). by rewrite Hto in Ht.
Qed.
(** A transition to a resting state gives the run back. *)
Lemma rest_transition to type rs l t : other rs -> has l t ->
  triple (ex_transition config to type rs) (keeps l) (fun _ l' t' => keeps l l' /\ gives t') l t.
Proof.
  intros Hrs Hl. apply triple_run, triple_guard; [done..|]. intros Hv%negb_false_iff.
  eapply triple_mono; [done| |apply calm_write; [done..|by right]]. intros [] l' t' (Hk & _ & Ht). split; [done|].
  destruct (resting to && _); [done|by eapply has_gives].
Qed.
End Triples.

Create HintDb calm.
#[export] Hint Resolve neutral_calm calm_checkpoint calm_transition other_nil : calm.
#[export] Hint Extern 2 (other (_ :: _)) => by repeat constructor : calm.
#[export] Hint Extern 2 (resting _ = false) => reflexivity : calm.
(** A program of calm steps. *)
Ltac calms :=
  repeat first
    [ solve [apply neutral_calm; eauto 3 with neutral] | solve [eauto 3 with calm]
    | match goal with |- calm _ _ _ (mbind _ ex_attempt_record) => apply calm_record; intros ? ? end
    | lazymatch goal with |- calm _ _ _ (mbind _ _) => apply calm_bind; [|intros ?] end
    | apply calm_when | case_match ].

(** ** A node *)

Section Node.
Context `{L : JsonLib} {HL : JsonLaws L} `{Y : YamlLib} {E : RuntimeEnv} {HE : RuntimeEnvLaws E} {X : ExecutionEnv} {SE : StepEnv}.
Context (config : RuntimeConfig) (single : coordinated config = false) (s0 : Sys) (Hs0 : sys_ok s0) (i : string).
Context (polls : nat) (p : PipelineDefinition).
Abbreviation calm := (calm config s0 i).
Abbreviation triple := (triple config s0 i).
Abbreviation has := (has i).
Abbreviation gives := (gives i).
#[local] Hint Extern 3 (coordinated config = false) => exact single : calm.

(** A run that rests has been given back; one that does not is still in memory. *)
Definition rests {A} (l : Loc) (a : option A) (l' : Loc) (t : list Ticket) : Prop :=
  match a with Some _ => keeps l l' /\ has l' t | None => gives t end.

Lemma rests_mono {A} l l1 (a : option A) l' t : keeps l l1 -> rests l1 a l' t -> rests l a l' t.
Proof. intros Hk. destruct a; [|done]. intros [? ?]. split; [by transitivity l1|done]. Qed.
Lemma calm_start_child n : calm (start_child config p n).
Proof. unfold start_child, attempt_child. calms. Qed.
Lemma rest_child l t : has l t -> triple (rest_for_child config) (keeps l) (fun _ _ t' => gives t') l t.
Proof.
  intros Hl. unfold rest_for_child. apply calm_then; [calms|done|]. intros _ l1 t1 H1 Hl1. apply triple_record. intros rc Hrc.
  apply calm_then; [calms|done|]. intros _ l2 t2 H2 Hl2. eapply triple_mono; [done| |apply (rest_transition config single s0 i); [apply other_nil|done]].
  by intros _ l3 t3 [_ He].
Qed.
Lemma poll_child_ok n : forall l t, has l t -> triple (poll_child config n) (keeps l) (rests l) l t.
Proof.
  assert (Hrest : forall l t, has l t -> triple (_ ← rest_for_child config; mret (None (A := Message))) (keeps l) (rests l) l t).
  { intros l t Hl. apply triple_bind. eapply triple_mono; [done| |by apply rest_child]. intros a l' t' He. by apply triple_ret. }
  assert (Hdone : forall l l' t, keeps l l' -> has l' t -> forall c : Run, triple (
      _ ← ex_guard (negb (rs_eqb (state c) Completed)) Execution "Subpipeline did not complete successfully"; mret (Some (message c)))
      (keeps l') (rests l) l' t).
  { intros l l' t Hk Hl c. by apply triple_guard. }
  induction n as [|n IH]; intros l t Hl; cbn [poll_child]; (apply calm_then; [calms|done|]); intros _ l1 t1 H1 Hl1; apply triple_run;
    (apply calm_then; [calms|done|]); intros c l2 t2 H2 Hl2.
  - assert (Hk : keeps l l2) by (by transitivity l1). destruct (terminal (state c)); [by apply Hdone|]. case_match.
    + eapply triple_mono; [done| |by apply Hrest]. intros a l' t'. by apply rests_mono.
    + apply calm_then; [calms|done|]. done.
  - assert (Hk : keeps l l2) by (by transitivity l1). destruct (terminal (state c)); [by apply Hdone|]. case_match.
    + eapply triple_mono; [done| |by apply Hrest]. intros a l' t'. by apply rests_mono.
    + apply calm_then; [calms|done|]. intros _ l3 t3 H3 Hl3. eapply triple_mono; [done| |by apply IH].
      intros a l' t'. apply rests_mono. by transitivity l2.
Qed.
Lemma run_child_ok n l t : has l t -> triple (run_child config polls p n) (keeps l) (rests l) l t.
Proof.
  intros Hl. unfold run_child. apply triple_run. apply calm_then; [calms|done|]. intros _ l1 t1 H1 Hl1.
  apply calm_then; [calms|done|]. intros known l2 t2 H2 Hl2. destruct known as [m|active].
  - apply triple_ret. split; [by transitivity l1|done].
  - apply calm_then; [destruct active; [calms|apply calm_start_child]|done|]. intros _ l3 t3 H3 Hl3. rewrite single.
    eapply triple_mono; [done| |by apply poll_child_ok]. intros a l' t'. apply rests_mono. by transitivity l2; [transitivity l1|].
Qed.
Lemma calm_check n m : calm (check_result p n m).
Proof. calms. Qed.
Lemma calm_execute staging n c m : calm (execute_node (fun _ => mret tt) staging n c m).
Proof. apply neutral_calm, neutral_execute. intros j. apply neutral_ret. Qed.
Lemma run_node_ok n c l t : has l t -> triple (run_node config polls p n c) (keeps l) (rests l) l t.
Proof.
  intros Hl. unfold run_node. apply triple_run, triple_bind.
  assert (Hcheck : forall (r : option NodeResult) l1 t1, rests l r l1 t1 ->
    triple (match r with None => mret None | Some res => _ ← check_result p n (nr_message res); mret (Some res) end) (keeps l) (rests l) l1 t1).
  { intros [res|] l1 t1 H1; [|by apply triple_ret]. destruct H1 as [H1 Hl1].
    eapply triple_mono; [|done|apply calm_then; [apply calm_check|done|]]; [intros l' Hk; by transitivity l1|].
    intros _ l2 t2 H2 Hl2. apply triple_ret. split; [by transitivity l1|done]. }
  case_match.
  - apply triple_bind. eapply triple_mono; [done| |by apply run_child_ok]. intros m l1 t1 H1. apply triple_ret, Hcheck. by destruct m.
  - eapply triple_mono; [done| |].
    2: { apply calm_then; [calms|done|]. intros _ l1 t1 H1 Hl1. apply calm_then; [calms|done|]. intros _ l2 t2 H2 Hl2.
         apply calm_then; [calms|done|]. intros _ l3 t3 H3 Hl3. apply calm_then; [apply calm_execute|done|]. intros res l4 t4 H4 Hl4.
         apply triple_ret. instantiate (1 := rests l). split; [|done]. transitivity l3; [|done]. transitivity l2; [|done]. by transitivity l1. }
    intros r l1 t1. apply Hcheck.
Qed.
Lemma calm_leave n ok : calm (leave_waiting config n ok).
Proof. unfold leave_waiting. calms. Qed.
Lemma calm_retry n number failure : calm (retry_node config n number failure).
Proof. unfold retry_node. calms. Qed.
Lemma calm_begin n number : calm (begin_attempt config n number).
Proof. unfold begin_attempt. calms. Qed.

(** *** The cursor *)

Lemma next_ready_moves r : id (next_ready r).1 = id r /\ state (next_ready r).1 = state r /\ steps (next_ready r).1 = steps r /\
  (length (ready (next_ready r).1) <= length (ready r))%nat /\
  ((next_ready r).2 = Ok true -> S (length (ready (next_ready r).1)) = length (ready r)).
Proof. unfold next_ready. destruct (ready r) as [|tk rest] eqn:Hr; simpl; split_and!; rewrite ?Hr; simpl; try done; lia. Qed.
Lemma prepare_join_moves n r : let j := prepare_join (fun _ => m_ret tt) n r in
  id j.1 = id r /\ state j.1 = state r /\ steps j.1 = steps r /\
  (j.2 = Ok true -> ready j.1 = ready r) /\ (j.2 = Ok false -> S (length (ready j.1)) = length (ready r)).
Proof.
  unfold prepare_join. repeat case_match; try done. set (r1 := r <| joins := _ |>).
  change (id r) with (id r1). change (state r) with (state r1). change (steps r) with (steps r1). change (ready r) with (ready r1).
  clearbody r1. pose proof (next_ready_moves r1) as (H1' & H2' & H3' & _ & H4'). unfold m_bind.
  destruct (next_ready r1) as [r2 [[]|e]]; simpl in *; split_and!; try done. intros _. by apply H4'.
Qed.
Definition steady {A} (m : M Run A) : Prop := forall r, id (m r).1 = id r /\ state (m r).1 = state r /\ steps (m r).1 = steps r.
Lemma steady_bind {A B} (m : M Run A) (f : A -> M Run B) : steady m -> (forall a, steady (f a)) -> steady (m_bind m f).
Proof.
  intros Hm Hf r. unfold m_bind. destruct (Hm r) as (H1 & H2 & H3). destruct (m r) as [r1 [a|e]]; simpl in *; [|done].
  destruct (Hf a r1) as (K1 & K2 & K3). split_and!; congruence.
Qed.
Lemma steady_guard c code msg : steady (m_guard c code msg).
Proof. intros r. unfold m_guard. by case_match. Qed.
Lemma steady_next : steady next_ready.
Proof. intros r. pose proof (next_ready_moves r) as (? & ? & ? & _). done. Qed.
Lemma steady_edges par n grp total l : steady (m_iter (take_edge par n grp total) l).
Proof.
  induction l as [|ie l IH]; [done|]. apply steady_bind; [|by intros _]. intros r. unfold take_edge. destruct ie as [k e]. by repeat case_match.
Qed.
Lemma steady_advance n cond grp : steady (advance p n cond grp).
Proof.
  intros r. unfold advance. case_match; [by case_match|]. cbv zeta. match goal with |- context [m_bind ?m ?f r] => apply (steady_bind m f) end.
  { apply steady_guard. }
  intros _. apply steady_bind; [apply steady_guard|intros _]. apply steady_bind; [apply steady_edges|intros _].
  apply steady_bind; [done|]. intros r1. apply steady_bind; [apply steady_guard|intros _]. case_match; [done|apply steady_next].
Qed.
Lemma advance_ready n cond grp r r' b : advance p n cond grp r = (r', Ok b) -> b = true \/ n_type n <> "output"%string ->
  (length (ready r') <= 256)%nat.
Proof.
  unfold advance. destruct (String.eqb_spec (n_type n) "output"); [by case_match; intros [= <- <-] [?|?]|]. intros Ha _. cbv zeta in Ha.
  apply m_bind_ok in Ha as (r1 & _ & _ & Ha). apply m_bind_ok in Ha as (r2 & _ & _ & Ha). apply m_bind_ok in Ha as (r3 & _ & _ & Ha).
  apply m_bind_ok in Ha as (r4 & r5 & [= -> ->] & Ha). apply m_bind_ok in Ha as (r6 & ? & Hg & Ha). apply m_guard_ok in Hg as [Hg ->].
  apply Z.ltb_ge in Hg. case_match; [injection Ha as <-; lia|].
  pose proof (next_ready_moves r5) as (_ & _ & _ & Hle & _). rewrite Ha in Hle. simpl in Hle. lia.
Qed.
End Node.

(** ** Branches *)

Section BranchLoop.
Context `{L : JsonLib} {HL : JsonLaws L} `{Y : YamlLib} {E : RuntimeEnv} {HE : RuntimeEnvLaws E} {X : ExecutionEnv} {SE : StepEnv}.
Context (config : RuntimeConfig) (single : coordinated config = false) (s0 : Sys) (Hs0 : sys_ok s0).
Context (polls : nat) (p : PipelineDefinition) (g : nat).
Abbreviation XInv := (XInv config s0).
Abbreviation xwp := (wp silent XInv (fun _ => True)).

(** A branch knows how many steps its group has taken at least. *)
Definition counted {A} (Q : A -> Z -> Prop) (r : Loc * outcome A) (t : list Ticket) : Prop :=
  r.2 <> Exhausted /\ exists n, t = [Seen g n] /\ forall a, r.2 = Value a -> Q a n.
Definition counts {A} (m : Ex A) (Q : A -> Z -> Prop) (l : Loc) (n : Z) : Prop := xwp (m l) [Seen g n] (counted Q).
Lemma counts_bind {A B} (m : Ex A) (f : A -> Ex B) P Q l n :
  counts m P l n -> (forall a l' n', P a n' -> counts (f a) Q l' n') -> counts (m ≫= f) Q l n.
Proof.
  intros Hm Hf. apply wp_bind. eapply wp_mono; [|exact Hm]. intros [l' o] t' (Ho & n' & -> & HP). simpl in *.
  destruct o as [a|x| |]; [by apply Hf, HP|..|done]; by (split; [|eexists]).
Qed.
Lemma counts_neutral {A} (m : Ex A) l n : neutral m -> counts m (fun _ n' => n' = n) l n.
Proof.
  intros Hm. eapply wp_mono; [|eapply (lands_wp _ _ _ unmoved); [|apply Hm]].
  - intros [l' o] t' [-> [_ Ho]]. split; [done|]. by exists n.
  - intros w w' T. by apply unmoved_inv.
Qed.
Lemma counts_then {A B} (m : Ex A) (f : A -> Ex B) Q l n : neutral m -> (forall a l', counts (f a) Q l' n) -> counts (m ≫= f) Q l n.
Proof. intros Hm Hf. eapply counts_bind; [by apply counts_neutral|]. by intros a l' n' ->. Qed.
Lemma counts_group {A} (f : ParallelState -> ParallelState * tres A) m (P : Prop) l n :
  (forall ps, n <= ps_steps ps -> ps_steps ps <= ps_steps (f ps).1 /\ (forall a, (f ps).2 = TOk a -> m <= ps_steps (f ps).1 /\ P)) ->
  counts (ex_block (on_group g f)) (fun _ n' => n' = m /\ P) l n.
Proof.
  intros Hf. unfold counts, ex_block. simpl. eapply block_ok_mono; [|exact (group_block config s0 g n f m P Hf)].
  intros [a|x] t'; simpl.
  - intros [-> HP]. split; [done|]. by exists m.
  - intros ->. split; [done|]. by exists n.
Qed.
Lemma arrive_steps index m n ps : n <= ps_steps ps ->
  ps_steps ps <= ps_steps (arrive index m ps).1 /\ (forall a, (arrive index m ps).2 = TOk a -> n <= ps_steps (arrive index m ps).1 /\ True).
Proof. unfold arrive. repeat case_match; simpl; split; try lia; intros; split; done. Qed.
Lemma failed_steps x n ps : n <= ps_steps ps ->
  ps_steps ps <= ps_steps (branch_failed x ps).1 /\ (forall a, (branch_failed x ps).2 = TOk a -> n <= ps_steps (branch_failed x ps).1 /\ True).
Proof. unfold branch_failed. repeat case_match; simpl; split; try lia; intros; split; done. Qed.

Lemma branch_loop_ends depth work attempt : forall fuel l n, (Z.to_nat (max_steps p - n) < fuel)%nat ->
  counts (branch_loop config polls p depth None work attempt g fuel) (fun _ _ => True) l n.
Proof.
  induction fuel as [|fuel IH]; intros l n Hn; [lia|]. cbn [branch_loop]. apply counts_then; [eauto with neutral|]. intros branch l1.
  apply counts_then; [eauto with neutral|]. intros nd l2. case_match.
  { eapply wp_mono; [|apply counts_group, arrive_steps]. intros r t (Hr & n' & -> & _). split; [done|]. by exists n'. }
  eapply counts_bind.
  { apply (counts_group _ (n + 1) (n < max_steps p)). intros ps Hps. unfold take_step.
    destruct (Z.leb_spec (max_steps p) (ps_steps ps)); simpl; (split; [lia|]); [done|]. intros _ _. lia. }
  intros [] l3 n' [-> Hlt]. do 5 (apply counts_then; [eauto with neutral|]; intros ? ?).
  apply counts_then; [apply neutral_attempts|]. intros ? ?. apply IH. lia.
Qed.
Lemma branch_ends depth work attempt n tk session : xwp (execute_branch config polls p depth None work attempt g n tk session) [Seen g n] (fun _ _ => True).
Proof.
  unfold execute_branch. apply wp_bind, wp_bind.
  eapply wp_mono; [|apply (branch_loop_ends depth work attempt (branch_fuel p n) _ n)]; [|unfold branch_fuel; lia].
  assert (Hend : forall (l : Loc) (o : outcome unit) t, o <> Exhausted ->
    xwp (Block (note_fuel o) (fun _ => Done tt) : XProg unit) t (fun _ _ => True)).
  { intros l o t Ho. simpl. intros w F Hi. exists t. split; [|done]. unfold note_fuel. simpl. by destruct o. }
  intros [l o] t (Ho & n' & -> & _). simpl in *. destruct o as [a|x| |]; try by apply (Hend l).
  simpl. eapply block_ok_mono; [|exact (group_block config s0 g n' (branch_failed x) n' True (failed_steps x n'))].
  intros [a|y] t' Ht'; simpl in *; by apply (Hend l).
Qed.
End BranchLoop.

(** ** A parallel node *)

Section Parallel.
Context `{L : JsonLib} {HL : JsonLaws L} `{Y : YamlLib} {E : RuntimeEnv} {HE : RuntimeEnvLaws E} {X : ExecutionEnv} {SE : StepEnv}.
Context (config : RuntimeConfig) (single : coordinated config = false) (s0 : Sys) (Hs0 : sys_ok s0) (i : string).
Context (polls : nat) (p : PipelineDefinition).
Abbreviation XInv := (XInv config s0).
Abbreviation xwp := (wp silent XInv (fun _ => True)).
Abbreviation triple := (triple config s0 i).
Abbreviation has := (has i).

Lemma spawn_all depth g n session tokens l t :
  xwp (ex_iter (fun tk => ex_spawn (execute_branch config polls p depth None "" "" g n tk session)) tokens l)
    (replicate (length tokens) (Seen g n) ++ t) (fun r t' => r = (l, Value tt) /\ t' = t).
Proof.
  induction tokens as [|tk tokens IH]; [done|]. cbn [ex_iter length replicate]. simpl. exists [Seen g n], (replicate (length tokens) (Seen g n) ++ t).
  split_and!; [done| |exact IH]. eapply wp_mono; [|by apply branch_ends]. done.
Qed.
Lemma await_ok g n : forall k l t, xwp (await_group k g l) (Seen g n :: t) (fun r t' =>
  r.1 = l /\ t ⊆+ t' /\ match r.2 with Value ps => n <= ps_steps ps | Exhausted => False | _ => True end).
Proof.
  assert (Hsub : forall t, t ⊆+ Seen g n :: t) by (intros t; by apply submseteq_cons).
  intros k. induction k as [|k IH]; intros l t; simpl; intros w F Hi; unfold group_done;
    (destruct (xi_seen _ _ _ _ Hi g n) as (ps & Hps & Hn); [by left|]); rewrite Hps; simpl; exists (Seen g n :: t); (split; [done|]);
    (destruct (completed ps =? _); simpl; [split_and!; auto|]); exists (Seen g n :: t); (split; [done|]); intros [[]|x]; first [exact (IH l t)|simpl; split_and!; auto].
Qed.
Lemma neutral_outputs l : neutral (join_outputs l).
Proof. induction l as [|[m|] l IH]; cbn [join_outputs]; reads. Qed.
Lemma parallel_ok l t : has l t -> triple (execute_parallel config polls p) (any)
  (fun handed l' t' => handed = false /\ has l' t' /\ steps (l_run l) <= steps (l_run l') /\ ready (l_run l') = []) l t.
Proof.
  intros Hl. unfold execute_parallel. apply triple_run, triple_update. rewrite single. apply triple_bind, triple_ret.
  set (l1 := l <| l_run := (l_run l) <| ready := [] |> |>). assert (Hl1 : has l1 t) by (by apply (has_same _ l)).
  set (n := steps (l_run l)). set (tokens := ready (l_run l)). set (depth := subpipeline_depth (l_run l)). set (session := session_id (l_run l)).
  apply triple_bind.
  eapply block_ok_mono; [|exact (new_group_block config s0 (length tokens) n t (S (length tokens)))].
  intros [g|x] t1; [|done]. intros ->. unfold after. cbn [to_outcome snd fst]. apply triple_bind.
  replace (replicate (S (length tokens)) (Seen g n) ++ t) with (replicate (length tokens) (Seen g n) ++ Seen g n :: t)
    by (by rewrite replicate_S_end, <- app_assoc).
  eapply wp_mono; [|apply spawn_all]. intros r t' [-> ->]. unfold after. cbn [snd fst]. apply triple_bind.
  eapply wp_mono; [|apply await_ok]. intros [l2 o] t2 (Hl2 & Hsub & Ho). simpl in Hl2. subst l2. cbn [snd fst] in Ho |- *.
  apply (has_more _ _ _ _ Hsub) in Hl1. unfold after. cbn [snd fst]. destruct o as [ps|x| |]; [|by split|done..].
  apply triple_update, triple_guard; [by apply (has_same _ l1)|done|]. intros _. apply triple_update, triple_bind, triple_neutral;
    [apply neutral_outputs|by apply (has_same _ l1)|done|]. intros _ l3 Hr Hl3. apply triple_lift; [done..|]. intros nd _.
  destruct Hr as [(_ & Hs & Hrd) _]. simpl in Hs, Hrd.
  apply triple_update, triple_ret. split_and!; [done|by apply (has_same _ l3)|simpl; by rewrite Hs|done].
Qed.
End Parallel.

(** ** The loop *)

Section Loop.
Context `{L : JsonLib} {HL : JsonLaws L} `{Y : YamlLib} {E : RuntimeEnv} {HE : RuntimeEnvLaws E} {X : ExecutionEnv} {SE : StepEnv}.
Context (config : RuntimeConfig) (single : coordinated config = false) (s0 : Sys) (Hs0 : sys_ok s0) (i : string).
Context (polls : nat) (p : PipelineDefinition).
Abbreviation calm := (calm config s0 i).
Abbreviation triple := (triple config s0 i).
Abbreviation has := (has i).
Abbreviation gives := (gives i).
#[local] Hint Extern 3 (coordinated config = false) => exact single : calm.

Lemma join_ready_ok n l t : has l t -> triple (join_ready config n) any (fun here l' t' => has l' t' /\ steps (l_run l') = steps (l_run l) /\
  if (here : bool) then ready (l_run l') = ready (l_run l) else S (length (ready (l_run l'))) = length (ready (l_run l))) l t.
Proof.
  intros Hl. unfold join_ready. apply triple_run. pose proof (prepare_join_moves n (l_run l)) as (H1 & H2 & H3 & H4 & H5).
  destruct (prepare_join _ n (l_run l)) as [r' res]. simpl in *. apply triple_update. simpl.
  set (l1 := l <| l_run := r' |>). assert (Hl1 : has l1 t) by (by apply (has_same _ l)).
  apply triple_lift; [done..|]. intros b Hb. apply of_res_ok in Hb as ->. destruct b.
  - apply triple_ret. split_and!; [done..|]. by apply H4.
  - apply calm_next; [calms|done|]. intros _ l2 t2 (K1 & K2 & K3) Hl2. apply triple_ret. split_and!; [done|simpl in *; congruence|].
    rewrite K3. by apply H5.
Qed.

(** Routing keeps the steps and leaves few branches waiting. *)
Definition routes (l : Loc) (more : option bool) (l' : Loc) (t : list Ticket) : Prop :=
  more <> None /\ has l' t /\ steps (l_run l) <= steps (l_run l') /\ (more = Some true -> (length (ready (l_run l')) <= 256)%nat).
Lemma pure_ok {A B} (m : M Run A) (f : A -> Ex B) Q l t : steady m -> has l t ->
  (forall a r', m (l_run l) = (r', Ok a) -> has (l <| l_run := r' |>) t -> triple (f a) any Q (l <| l_run := r' |>) t) ->
  triple (ex_pure m ≫= f) any Q l t.
Proof.
  intros Hm Hl Hf. destruct (Hm (l_run l)) as (H1 & H2 & H3). apply triple_bind. unfold ex_pure. apply triple_run.
  destruct (m (l_run l)) as [r' res]. simpl in *. apply triple_update. simpl.
  assert (Hl1 : has (l <| l_run := r' |>) t) by (by apply (has_same _ l)). destruct res as [a|e]; [by apply Hf|by split].
Qed.
Lemma refresh_other r records : other records -> other (map (refresh_message r) records).
Proof.
  intros Hr. apply Forall_forall. intros rc. rewrite list_elem_of_In, in_map_iff. intros (x & <- & Hx%list_elem_of_In).
  unfold refresh_message. case_match; [done|]. by apply (proj1 (Forall_forall _ _) Hr).
Qed.
Lemma route_ok n cond records l t : has l t -> other records -> triple (route_result config polls p n cond records) any
  (fun routed l' t' => routes l routed.1 l' t' /\ other routed.2) l t.
Proof.
  intros Hl Hrs. unfold route_result. apply calm_next; [calms|done|]. intros grp l1 t1 (K1 & K2 & K3) Hl1. case_match.
  - apply triple_lift; [done..|]. intros approvals _. apply pure_ok; [apply steady_advance|done|]. intros continuing r1 Ha Hl2.
    pose proof (steady_advance p n cond grp (l_run l1)) as (_ & _ & Hst). rewrite Ha in Hst. simpl in Hst. destruct approvals.
    + apply pure_ok; [apply steady_next|done|]. intros more r2 Hn Hl3. apply triple_ret. split; [|done]. split_and!; [done..| |]; simpl.
      * pose proof (steady_next (l_run (l1 <| l_run := r1 |>))) as (_ & _ & Hst'). rewrite Hn in Hst'. simpl in Hst'. lia.
      * intros [= ->]. pose proof (next_ready_moves r1) as (_ & _ & _ & Hle & _). simpl in Hn. rewrite Hn in Hle. simpl in Hle.
        apply advance_ready in Ha; [lia|]. right. apply String.eqb_eq in H as ->. done.
    + apply triple_bind. eapply triple_mono; [done| |by apply parallel_ok]. intros handed l3 t3 (-> & Hl3 & Hs & Hrd). simpl in Hs.
      apply triple_run, triple_ret. split; [|by apply refresh_other]. split_and!; [done..|simpl; lia|]. intros _. simpl. rewrite Hrd. simpl. lia.
  - apply pure_ok; [apply steady_advance|done|]. intros continuing r1 Ha Hl2. apply triple_ret.
    pose proof (steady_advance p n cond grp (l_run l1)) as (_ & _ & Hst). rewrite Ha in Hst. simpl in Hst. split; [|done].
    split_and!; [done..|simpl; lia|]. intros [= ->]. apply advance_ready in Ha; [done|by left].
Qed.

(** The end of a step: the loop goes on with one more step taken, or the run was given back. *)
Definition stepped (l : Loc) (e : step_end) (l' : Loc) (t : list Ticket) : Prop :=
  match e with
  | Continue => has l' t /\ steps (l_run l) < steps (l_run l') /\ (length (ready (l_run l')) <= 256)%nat
  | Return => gives t
  end.
Lemma candidates_other n l t : has l t -> triple (take_candidates n) any (fun records l' t' => keeps l l' /\ has l' t' /\
   (other records)) l t.
Proof.
  intros Hl. unfold take_candidates. apply triple_loc. cbv zeta. case_match; [|apply triple_ret; split_and!; [done..|apply other_nil]].
  split_and!; [done..|]. apply Forall_forall. intros rc. rewrite list_elem_of_In, in_map_iff. by intros ([k c] & <- & _).
Qed.
Lemma rethrow_ok {A} (m : Ex A) h Q l t : triple m any Q l t -> calm h -> triple (rethrow_after m h) any Q l t.
Proof.
  intros Hm Hh. eapply triple_handle; [exact Hm|]. intros x l' t' _ Hl. apply calm_next; [done..|]. intros _ l2 t2 _ Hl2. by split.
Qed.
Lemma complete_ok n result l t : has l t -> triple (complete_node config polls p n result) any (stepped l) l t.
Proof.
  intros Hl. unfold complete_node. do 5 (apply calm_next; [calms|done|]; let K := fresh "K" in intros ? ? ? K ?).
  assert (Hs : steps (l_run l'3) = steps (l_run l)) by (unfold keeps in *; intuition congruence).
  apply triple_update, triple_record. intros rc Hrc. apply triple_run, triple_bind.
  match goal with |- triple _ _ _ ?l1 _ => set (l4 := l1); assert (H4 : has l4 t'3) by (by apply (has_same _ l'3)) end.
  assert (Hs4 : steps (l_run l4) = steps (l_run l) + 1) by (simpl; lia). clearbody l4.
  eapply triple_mono; [done| |by apply candidates_other]. intros candidates l5 t5 (K5 & H5 & Hc).
  assert (Hrs : other (rc :: message_record (l_run l4) :: candidates)) by (by repeat constructor).
  apply calm_next; [calms|done|]. intros _ l6 t6 K6 H6. apply triple_bind, rethrow_ok; [|calms].
  assert (Hs6 : steps (l_run l6) = steps (l_run l) + 1) by (unfold keeps in *; intuition congruence).
  eapply triple_mono; [done| |by apply route_ok]. intros [more records] l7 t7 [(Hm & H7 & Hs7 & Hrd) Hr]. simpl in *.
  destruct more as [[]|]; [| |done].
  - apply calm_next; [calms|done|]. intros _ l8 t8 (_ & Hs8 & Hrd8) H8. apply triple_ret. split_and!; [done|lia|]. rewrite Hrd8. by apply Hrd.
  - apply calm_next; [calms|done|]. intros _ l8 t8 _ H8. apply triple_ret. by eapply has_gives.
Qed.
Lemma attempts_ok n c : forall remaining number l t, has l t ->
  triple (attempts config polls p n c remaining number) any (stepped l) l t.
Proof.
  intros remaining. induction remaining as [|remaining IH]; intros number l t Hl; cbn [attempts]; [by split|].
  apply calm_next; [by apply calm_begin|done|]. intros _ l1 t1 K1 H1. apply triple_bind.
  eapply (triple_handle _ _ _ _ _ _ (keeps l1)).
  - apply triple_bind. eapply triple_mono; [done| |by apply run_node_ok]. intros res l2 t2 H2. apply triple_ret. destruct res as [res|].
    + destruct H2 as [K2 H2]. apply calm_next; [calms|done|]. intros _ l3 t3 K3 H3. apply calm_next; [by apply calm_leave|done|].
      intros _ l4 t4 K4 H4. eapply triple_mono; [done| |by apply complete_ok]. intros e l5 t5. unfold stepped. destruct e; [|done].
      intros (? & ? & ?). unfold keeps in *. split_and!; [done|intuition lia|done].
    + by apply triple_ret.
  - intros x l2 t2 K2 H2. apply calm_next; [calms|done|]. intros f l3 t3 K3 H3. apply triple_ret.
    apply calm_next; [calms|done|]. intros _ l4 t4 K4 H4. apply calm_next; [by apply calm_leave|done|]. intros _ l5 t5 K5 H5.
    apply calm_next; [by apply calm_retry|done|]. intros _ l6 t6 K6 H6. eapply triple_mono; [done| |by apply IH].
    intros e l7 t7. unfold stepped. destruct e; [|done]. intros (? & ? & ?). unfold keeps in *. split_and!; [done|intuition lia|done].
Qed.

Lemma triple_rt {A} (m : IO RT A) (P : A -> Prop) (Q : A -> Loc -> list Ticket -> Prop) l t : Always same m ->
  (forall w w' a, m w = (w', TOk a) -> P a) -> has l t -> (forall a, P a -> Q a l t) -> triple (ex_rt m) any Q l t.
Proof.
  intros Hm HP Hl HQ. unfold Stepping.triple, ex_rt, ex_block. simpl. intros w F Hi. exists t. unfold on_sys, on_rt.
  specialize (Hm (sys_rt (x_sys w))). destruct (m (sys_rt (x_sys w))) as [w' r] eqn:Hr. simpl in *. split.
  - apply (unmoved_inv config s0 w); [|done]. by split_and!.
  - destruct r as [a|x]; [|by split]. apply HQ. by eapply HP.
Qed.
Lemma request_same r n why : Always same (approval_request r n why).
Proof. unfold approval_request. stays. Qed.
Lemma request_ok r n why w w' q : approval_request r n why w = (w', TOk q) -> id q.1 = id r /\ state q.1 = state r /\ other q.2.
Proof.
  unfold approval_request. intros Hq. apply io_bind_ok in Hq as (w1 & k & _ & Hq). apply io_bind_ok in Hq as (w2 & m & _ & Hq).
  injection Hq as _ <-. split_and!; [done..|]. by repeat constructor.
Qed.
Lemma request_approval_ok n why l t : has l t -> triple (request_approval config n why) any (fun _ _ t' => gives t') l t.
Proof.
  intros Hl. unfold request_approval. apply calm_next; [calms|done|]. intros _ l1 t1 _ H1. apply triple_run, triple_bind.
  eapply triple_rt; [apply request_same|by apply request_ok|done|]. intros q (Hi & Hs & Hrs). apply triple_update.
  eapply triple_mono; [done| |apply (rest_transition config single s0 i); [done|by apply (has_same _ l1)]]. by intros ? ? ? [_ ?].
Qed.

(** What is left of the loop. *)
Definition left (r : Run) : nat := (Z.to_nat (max_steps p - steps r) * 257 + length (ready r))%nat.
Lemma run_loop_ok : forall fuel l t, has l t -> (left (l_run l) < fuel)%nat ->
  triple (run_loop config polls p fuel) any (fun _ _ t' => gives t') l t.
Proof.
  intros fuel. induction fuel as [|fuel IH]; intros l t Hl Hf; [lia|]. cbn [run_loop].
  apply calm_next; [calms|done|]. intros _ l1 t1 K1 H1. apply triple_run. apply calm_next; [calms|done|]. intros session l2 t2 K2 H2.
  apply calm_next; [calms|done|]. intros _ l3 t3 K3 H3. apply calm_next; [calms|done|]. intros n l4 t4 K4 H4.
  apply calm_next; [calms|done|]. intros _ l5 t5 K5 H5.
  assert (Hl5 : left (l_run l5) = left (l_run l)) by (unfold left, keeps in *; intuition congruence).
  apply triple_bind. eapply triple_mono; [done| |by apply join_ready_ok]. intros here l6 t6 (H6 & Hs6 & Hr6).
  destruct here; simpl; [|apply IH; [done|]; unfold left in *; lia].
  apply triple_run, triple_guard; [done..|]. intros Hmax%Z.leb_gt. apply triple_lift; [done..|]. intros policy _.
  apply triple_guard; [done..|]. intros _. apply calm_next; [destruct (_ || _); calms|done|].
  { apply neutral_calm, neutral_rt, same_approved. }
  intros pending l7 t7 K7 H7. destruct pending; [by apply request_approval_ok|].
  apply triple_lift; [done..|]. intros _ _. apply triple_bind. eapply triple_mono; [done| |by apply attempts_ok].
  intros e l8 t8 H8. destruct e; [|by apply triple_ret]. destruct H8 as (H8 & Hs8 & Hr8). apply IH; [done|].
  assert (Hs7 : steps (l_run l7) = steps (l_run l6)) by apply K7. unfold left in *. nia.
Qed.
Abbreviation xwp := (wp silent (XInv config s0) (fun _ => True)).
Lemma after_loop_ok l o t : match o with Value _ => gives t | Thrown _ => has l t | Polling => True | Exhausted => False end ->
  xwp (after_loop config (l, o)) t (fun o' t' => o' <> Exhausted /\ (o' = Polling \/ gives t')).
Proof.
  unfold after_loop. simpl. destruct o as [a|x| |]; [intros Hg; simpl; auto| |simpl; auto|done].
  intros (t0 & Hsub & Hh). simpl. eapply block_sub; [by apply xinv_perm|by apply xinv_drop|exact Hsub|].
  eapply block_ok_mono; [|exact (settle_block config single s0 Hs0 i (l_run l) (l_recorded l) x t0 Hh)].
  intros r t' He. split; [by destruct r|]. right. exists t'. by split.
Qed.
Lemma finish_ok o t : o <> Exhausted -> o = Polling \/ gives t -> xwp (finish config i o) t (fun _ _ => True).
Proof.
  intros Ho Hg. assert (Hend : forall failed, gives t -> xwp (Block (note_fuel o) (fun _ => Block (end_run config i failed) (fun _ => Done tt))
    : XProg unit) t (fun _ _ => True)).
  { intros failed (t0 & Hsub & He). simpl. intros w F Hi. exists t. split; [unfold note_fuel; simpl; by destruct o|].
    eapply block_sub; [by apply xinv_perm|by apply xinv_drop|exact Hsub|]. eapply block_ok_mono; [|by apply end_block]. done. }
  unfold finish. destruct Hg as [->|Hg]; [done|]. destruct o; first [by apply Hend|done].
Qed.
End Loop.

(** ** Executions *)

Section Executions.
Context `{L : JsonLib} {HL : JsonLaws L} `{Y : YamlLib} {E : RuntimeEnv} {HE : RuntimeEnvLaws E} {X : ExecutionEnv} {SE : StepEnv}.
Context (config : RuntimeConfig) (single : coordinated config = false) (s0 : Sys) (Hs0 : sys_ok s0) (polls : nat).
Abbreviation xwp := (wp silent (XInv config s0) (fun _ => True)).

Lemma execute_ok i p r started t :
  match started with TOk true => holds i r t | TOk false => ending i t | TThrow _ => t = [Out] end ->
  xwp (execute config polls p r started) t (fun o t' => o <> Exhausted /\ (o = Polling \/ gives i t')).
Proof.
  unfold execute. destruct started as [[]|x]; intros Ht.
  - apply wp_bind. eapply wp_mono; [|apply (run_loop_ok config single s0 i polls p); [by exists t|unfold left, run_fuel; simpl; lia]].
    intros [l o] t' Ha. apply after_loop_ok; [done..|]. unfold after in Ha. simpl in Ha. destruct o; try done. apply Ha.
  - simpl. split; [done|]. right. by exists t.
  - apply after_loop_ok; [done..|]. exists t. split; [done|]. by right.
Qed.
Lemma execution_ok r : xwp (execution config polls r) [] (fun _ _ => True).
Proof.
  unfold execution. simpl. eapply block_ok_mono; [|by apply enter_block]. intros entered t ->. destruct entered; [|done].
  destruct (parse_pipeline _ _) as [p|e].
  - simpl. eapply block_ok_mono; [|by apply begin_block]. intros [r' started] t' Ht. simpl in *. apply wp_bind.
    eapply wp_mono; [|by eapply (execute_ok (id r))]. intros o t2 [Ho Hg]. by apply finish_ok.
  - refine (finish_ok config single s0 Hs0 (id r) (Thrown (TError e)) [Owns (id r) None] _ _); [done|].
    right. eexists. split; [done|]. eexists. by left.
Qed.
End Executions.
