(* ===== verification/StepperClaims.v ===== *)
(** * Executions follow the life of runs

    The pool of executions and operations of a single instance: what it does to the stored runs is what
    [Lifecycle] allows, and the loops of an execution end. *)

From S2P Require Import Prelude Json Types Samples Text Pipeline Graph Yaml Access Db Coordination Codec Worker Store Rows Sessions RunRows Effects Runtime Files Workspace Execution Lifecycle Threads Steps Branches Stepper Following Holding Stepping.

Section Pool.
Context `{L : JsonLib} {HL : JsonLaws L} `{Y : YamlLib} {E : RuntimeEnv} {HE : RuntimeEnvLaws E} {X : ExecutionEnv} {SE : StepEnv}.
Context (config : RuntimeConfig) (polls : nat).

(** Executions are started for any run; the runtime operates between their steps. *)
Definition starts (p : XProg unit) : Prop := exists r, p = execution config polls r.
Definition exec_step : XW * list (XProg unit) -> XW * list (XProg unit) -> Prop :=
  pool_step silent starts (operation config) (fun w => w).
(** Nothing executes yet. *)
Definition idle (w : XW) : Prop :=
  locals (x_sys w) = ∅ /\ x_running w = ∅ /\ x_exhausted w = false /\ x_derailed w = false.

Lemma idle_inv w : idle w -> XInv config (x_sys w) w [].
Proof.
  intros (Hl & Hr & He & Hd). split; [done|by intros g n []%elem_of_nil|by intros []%elem_of_nil|]. intros _. split.
  - apply rtc_refl.
  - intros i. unfold count. simpl. lia.
  - by intros i o []%elem_of_nil.
  - rewrite Hr. set_solver.
  - rewrite Hl. set_solver.
Qed.
Lemma exec_inv w0 w T : coordinated config = false -> sys_ok (x_sys w0) -> idle w0 -> rtc exec_step (w0, []) (w, T) ->
  exists ts, XInv config (x_sys w0) w ts.
Proof.
  intros Hc Hs Hi Hr.
  destruct (pool_sound silent starts (operation config) (fun w => w) (XInv config (x_sys w0)) (xinv_perm config (x_sys w0)) (fun _ => True))
    with (s := (w0, [] : list (XProg unit))) (s' := (w, T)) as (ts & _ & Hinv); [| | |done| |by exists (concat ts)].
  - intros p [r ->]. eapply wp_mono; [|by apply execution_ok]. done.
  - intros w1 w2 l. by apply operation_inv.
  - intros w1 l Hl. eapply xinv_sub; [|exact Hl]. apply submseteq_nil_l.
  - exists []. split; [constructor|]. by apply idle_inv.
Qed.
End Pool.

(** ** Waiting for a child

    The loops that wait for the end of a child run look at the clock and at the stop token
    ([context.check]) before every look at the child.  On no path on which at most [k] of these checks succeed
    does the program still wait at its end. *)
Section Waits.
Context `{L : JsonLib} `{Y : YamlLib} {E : RuntimeEnv} {X : ExecutionEnv} {SE : StepEnv}.
Context (config : RuntimeConfig) (polls : nat).

Definition is_check (c : XCall) : bool := match c with CCheck => true | _ => false end.
Fixpoint ends_by {A : Type} (over : A -> Prop) (k : nat) (p : XProg A) : Prop :=
  match p with
  | Done r => over r
  | Block _ f => forall b, ends_by over k (f b)
  | Call c f => (forall x, ends_by over k (f (TThrow x)))
      /\ if is_check c then match k with O => True | S k => forall a, ends_by over k (f (TOk a)) end
         else forall a, ends_by over k (f (TOk a))
  | Spawn _ q => ends_by over k q
  end.
Definition over {A} (r : Loc * outcome A) : Prop := match r.2 with Polling => False | _ => True end.
Definition ends {A} (k : nat) (m : Ex A) : Prop := forall l, ends_by over k (m l).

Lemma ends_by_bind {A B : Type} (p : XProg A) (f : A -> XProg B) P Q : forall k,
  ends_by P k p -> (forall k' r, (k' <= k)%nat -> P r -> ends_by Q k' (f r)) -> ends_by Q k (prog_bind p f).
Proof.
  induction p as [A r|A B' b g IH|A c g IH|A q _ p IH]; intros k Hp Hf; simpl in *.
  - by apply Hf.
  - intros x. eapply IH; [apply Hp|exact Hf].
  - destruct Hp as [Ht Ha]. split; [intros x; eapply IH; [apply Ht|exact Hf]|].
    destruct (is_check c); [|intros a; eapply IH; [apply Ha|exact Hf]].
    destruct k as [|k]; [done|]. intros a. eapply IH; [apply Ha|]. intros k' r Hk. apply Hf. lia.
  - eapply IH; [exact Hp|exact Hf].
Qed.
Lemma ends_bind {A B} (m : Ex A) (f : A -> Ex B) k :
  ends k m -> (forall k' a, (k' <= k)%nat -> ends k' (f a)) -> ends k (m ≫= f).
Proof.
  intros Hm Hf l. eapply ends_by_bind; [apply Hm|]. intros k' [l' [a|x| |]] Hk Hr; simpl; [by apply Hf|done..].
Qed.
Lemma ends_check {B} (f : unit -> Ex B) k :
  match k with O => True | S k => ends k (f tt) end -> ends k (ex_call CCheck ≫= f).
Proof. intros Hf l. split; [done|]. simpl. destruct k as [|k]; [done|]. intros []. apply Hf. Qed.
Lemma ends_lift {A} (r : tres A) k : ends k (ex_lift r).
Proof. intros l. by destruct r. Qed.
Lemma ends_write st type rs k : ends k (ex_write config st type rs).
Proof. intros l [r|x]; done. Qed.
Lemma ends_block {A} (m : IO XW A) k : ends k (ex_block m).
Proof. intros l [r|x]; done. Qed.
Lemma ends_call c k : is_check c = false -> ends k (ex_call c).
Proof. intros Hc l. split; [done|]. by rewrite Hc. Qed.
Ltac ending :=
  repeat lazymatch goal with
  | |- ends _ (mbind _ _) => apply ends_bind; [|let H := fresh "Hk" in intros ? ? H]
  | |- ends _ (match _ with _ => _ end) => case_match
  | |- ends _ (ex_lift _) => apply ends_lift
  | |- ends _ (ex_guard _ _ _) => apply ends_lift
  | |- ends _ (ex_validate _ _ _ _) => apply ends_lift
  | |- ends _ (ex_block _) => apply ends_block
  | |- ends _ (ex_rt _) => apply ends_block
  | |- ends _ (ex_write _ _ _ _) => apply ends_write
  | |- ends _ (ex_call _) => by apply ends_call
  | |- ends _ ex_run => by intros ?
  | |- ends _ (mret _) => by intros ?
  | |- ends _ (ex_update _) => by intros ?
  | |- ends _ (ex_attempt _) => by intros ?
  | |- ends _ ex_attempt_record => by intros ?
  | |- ends _ (ex_checkpoint _ _ _) => unfold ex_checkpoint
  | |- ends _ (ex_transition _ _ _ _) => unfold ex_transition
  | |- ends _ (rest_for_child _) => unfold rest_for_child
  | |- ends _ (start_child _ _ _) => unfold start_child, attempt_child
  | |- ends _ known_child => unfold known_child, child_of_run, attempt_child
  end.
Lemma ends_await child n : forall k, (k <= n)%nat -> ends k (await_child n child).
Proof.
  induction n as [|n IH]; intros k Hk; cbn [await_child]; apply ends_check; destruct k as [|k]; try done; [lia|].
  ending. apply IH. lia.
Qed.
Lemma ends_poll n : forall k, (k <= n)%nat -> ends k (poll_child config n).
Proof.
  induction n as [|n IH]; intros k Hk; cbn [poll_child]; apply ends_check; destruct k as [|k]; try done; [lia|].
  ending. apply IH. lia.
Qed.
Lemma ends_branch_child p depth n k : (k <= polls)%nat -> ends k (branch_child config polls p depth n).
Proof. intros Hk. unfold branch_child. ending. apply ends_await. lia. Qed.
Lemma ends_run_child p n k : (k <= polls)%nat -> ends k (run_child config polls p n).
Proof. intros Hk. unfold run_child. ending. apply ends_poll. lia. Qed.
End Waits.

(** C5: executions refine the life of runs.  On a single instance, whatever executions run, with their
    retries, sub-pipelines, approvals and concurrent branches, and whatever operations run between their
    steps, the stored runs and the runs in memory go from the initial state by steps of [sys_step], as long
    as no start of an execution and no write of a resting state threw; so stored states move along the
    transition table, and a run that has ended keeps its state. *)
Theorem execution_refines `{L : JsonLib} {HL : JsonLaws L} `{Y : YamlLib} {E : RuntimeEnv} {HE : RuntimeEnvLaws E}
    {X : ExecutionEnv} {SE : StepEnv} config polls w0 w T :
  coordinated config = false -> sys_ok (x_sys w0) -> idle w0 -> rtc (exec_step config polls) (w0, []) (w, T) ->
  x_derailed w = false ->
  rtc (sys_step config) (x_sys w0) (x_sys w) /\
  forall i st, run_st (sys_rt (x_sys w0)) i = Some st ->
    exists st', run_st (sys_rt (x_sys w)) i = Some st' /\ moves st st' /\ (terminal st = true -> st' = st).
Proof.
  intros Hc Hs Hi Hr Hd. destruct (exec_inv config polls w0 w T Hc Hs Hi Hr) as (ts & Hinv).
  pose proof (gd_reach _ _ _ _ (xi_good _ _ _ _ Hinv Hd)) as Hsteps. split; [done|]. intros i st Hst.
  destruct (sys_steps_ok config Hc _ _ Hsteps Hs) as [_ Ha]. destruct (Ha i st Hst) as (st' & Hst' & Hm).
  exists st'. split_and!; [done..|]. intros Ht. by apply terminal_final.
Qed.
(** C6: the loops of an execution end.  The loop over the nodes of a run stops within the steps its
    pipeline allows, 257 passes for each (a step leaves at most 256 branches waiting at joins), and the loop of
    a branch within the steps its group has left: no loop reaches its bound, even when writes throw.  The
    wait of a run or of a branch for its child goes on only as long as [context.check] lets it: when at most
    [polls] checks succeed, because then the deadline passes or the run is stopped, the node has its result,
    rests or has thrown, whatever the store and the timers answer.  The wait of a run for its local branches
    makes no such check and is not bounded here. *)
Theorem execution_terminates `{L : JsonLib} {HL : JsonLaws L} `{Y : YamlLib} {E : RuntimeEnv} {HE : RuntimeEnvLaws E}
    {X : ExecutionEnv} {SE : StepEnv} config polls w0 w T :
  coordinated config = false -> sys_ok (x_sys w0) -> idle w0 -> rtc (exec_step config polls) (w0, []) (w, T) ->
  x_exhausted w = false
  /\ (forall p n, ends polls (run_child config polls p n))
  /\ (forall p depth n, ends polls (branch_child config polls p depth n)).
Proof.
  intros Hc Hs Hi Hr. destruct (exec_inv config polls w0 w T Hc Hs Hi Hr) as (ts & Hinv). split_and!.
  - apply Hinv.
  - intros p n. by apply ends_run_child.
  - intros p depth n. by apply ends_branch_child.
Qed.

(** ** A run with concurrent branches *)

Definition sample_fan_document : YNode :=
  sample_map [("laso", sample_scalar "1"); ("version", sample_scalar "3"); ("name", sample_scalar "fan");
    ("nodes", sample_map [("split", sample_map [("type", sample_scalar "parallel"); ("join", sample_scalar "meet")]);
                          ("a", sample_map [("type", sample_scalar "function"); ("function", sample_scalar "echo")]);
                          ("b", sample_map [("type", sample_scalar "function"); ("function", sample_scalar "echo")]);
                          ("meet", sample_map [("type", sample_scalar "join")])]);
    ("edges", YSequence "?" [sample_map [("from", sample_scalar "input"); ("to", sample_scalar "split")];
                             sample_map [("from", sample_scalar "split"); ("to", sample_scalar "a")];
                             sample_map [("from", sample_scalar "split"); ("to", sample_scalar "b")];
                             sample_map [("from", sample_scalar "a"); ("to", sample_scalar "meet")];
                             sample_map [("from", sample_scalar "b"); ("to", sample_scalar "meet")];
                             sample_map [("from", sample_scalar "meet"); ("to", sample_scalar "output")]])]%string.
Definition sample_fan_yaml : YamlLib :=
  {| LoadAll := fun _ => Some [sample_fan_document]; as_string := @as_string Yaml.sample_yaml;
     as_longlong := @as_longlong Yaml.sample_yaml; json_parse := fun _ => None |}.
Definition sample_step_env : StepEnv := {|
  se_tools := ∅; se_plugin := fun _ => ""%string; se_providers := ∅; se_models := ∅; se_model := fun _ => ""%string;
  se_workers := None; se_policy := mkEngine [] false []; se_functions := {[ "echo"%string := tt ]}; se_nodes := ∅;
  se_resolver := false; se_details := fun _ => JObject []; se_duration := fun _ => double_of_Z 0; se_put := None |}.

Section Witness.
#[local] Existing Instances strict_json strict_json_laws sample_fan_yaml sample_runtime_env sample_execution_env sample_step_env.
#[local] Instance sample_laws : RuntimeEnvLaws sample_runtime_env.
Proof. by split. Qed.
Definition sample_answers (c : XCall) : tres (x_answer c) :=
  match c with
  | CNode n ctx m => TOk (mkNodeAnswer [] [] (TOk (mkResult m "")))
  | CResolve _ => TThrow TStd
  | CRun _ _ _ _ _ _ _ _ => TOk ""%string
  | CCheck | CSlots | CDelay | CWait => TOk tt
  end.
Definition sample_idle : XW := mkXW sample_initial [] ∅ false false.
Definition sample_ready : XW := mkXW sample_resumed [] ∅ false false.
Definition sample_played : XW * list (XProg unit) :=
  play silent 1000 sample_answers sample_ready [] (execution sample_config 3 (sample_run "r1")) [].
(** Both branches ran, and the run completed. *)
Example sample_fan_completed : run_st (sys_rt (x_sys sample_played.1)) "r1" = Some Completed /\
  map ps_steps (x_groups sample_played.1) = [4] /\ length sample_played.2 = 3%nat.
Proof. vm_compute. done. Qed.

Lemma sample_idle_ok : idle sample_idle.
Proof. done. Qed.
Lemma sample_exec_steps : rtc (exec_step sample_config 3) (sample_idle, []) (sample_played.1, sample_played.2).
Proof.
  apply (rtc_l _ _ (sample_ready, [])).
  - apply step_other. exact (operation_of sample_config sample_idle _ (op_resume sample_config "r1" sample_rt)).
  - eapply rtc_l; [apply (Threads.step_start _ _ _ _ _ [] (execution sample_config 3 (sample_run "r1"))); by eexists|].
    rewrite <- surjective_pairing. exact (play_rtc silent (starts sample_config 3) (operation sample_config) (fun w => w) 1000 sample_answers
      sample_ready [] (execution sample_config 3 (sample_run "r1")) []).
Qed.
Lemma execution_refines_witness :
  rtc (sys_step sample_config) (x_sys sample_idle) (x_sys sample_played.1) /\
  forall i st, run_st (sys_rt (x_sys sample_idle)) i = Some st ->
    exists st', run_st (sys_rt (x_sys sample_played.1)) i = Some st' /\ moves st st' /\ (terminal st = true -> st' = st).
Proof.
  refine (execution_refines sample_config 3 sample_idle sample_played.1 sample_played.2 _ sample_initial_ok sample_idle_ok sample_exec_steps _).
  - reflexivity.
  - vm_compute. reflexivity.
Defined.
Lemma execution_terminates_witness :
  x_exhausted sample_played.1 = false
  /\ (forall p n, ends 3 (run_child sample_config 3 p n))
  /\ (forall p depth n, ends 3 (branch_child sample_config 3 p depth n)).
Proof.
  refine (execution_terminates sample_config 3 sample_idle sample_played.1 sample_played.2 _ sample_initial_ok sample_idle_ok sample_exec_steps).
  reflexivity.
Defined.
End Witness.
