(* ===== verification/Recovery.v ===== *)
(** * Recovery of interrupted runs

    [Service::recover_history] of [src/application/service.cpp], which a service on its own runs
    before it accepts work: the runs the last process left behind are read page by page, a run whose
    cancellation was requested is cancelled, and a run that was executing is paused, with its
    unfinished attempts marked as failed in the same commit.  The lemmas follow the pages: the
    commits of one run neither move nor change the rows of the runs still to be read. *)

From S2P Require Import Prelude Json Types Samples Text Pipeline Yaml Db Coordination Codec Worker Store Rows Sessions SessionInv RunRows Effects Runtime Lifecycle.

(** ** The code *)

Definition stopped_error : string :=
  "Process stopped during execution; explicit resume may replay the unfinished node".
Definition interrupted_error : string := "Interrupted by process termination".

Definition cancelled_run (r : Run) (now : string) : Run := (r <| state := Cancelled |>) <| updated_at := now |>.
Definition paused_run (r : Run) (now : string) : Run :=
  ((r <| state := Paused |>) <| error := stopped_error |>) <| updated_at := now |>.
Definition failed_attempt (a : NodeExecution) (now : string) : NodeExecution :=
  ((a <| a_state := NFailed |>) <| a_error := interrupted_error |>) <| a_finished_at := now |>.
Definition recovery_event (r : Run) (type fresh stamp : string) : Event :=
  ((((new_event fresh stamp) <| ev_run_id := id r |>) <| ev_pipeline_id := pipeline_id r |>)
     <| ev_node_id := active_node r |>) <| ev_type := type |>.
Definition recovery_event_record (r : Run) (type fresh stamp : string) : StoreRecord :=
  mkRecord KEvent fresh (id r) (event_to_json (recovery_event r type fresh stamp)).

Section Recovery.
Context `{JsonLib} {E : RuntimeEnv} (config : RuntimeConfig).

(** One page of attempts: the unfinished ones join the checkpoint. *)
Fixpoint interrupted (run_id : string) (l : list Json) (records : list StoreRecord) : RIO (list StoreRecord) :=
  match l with
  | [] => mret records
  | j :: l =>
      a ← io_lift (attempt_of_json j);
      if bool_decide (a_state a = NRunning) then
        now ← now_string;
        interrupted run_id l (records ++ [attempt_record run_id (failed_attempt a now)])
      else interrupted run_id l records
  end.
(** The store refuses offsets beyond 100000000, so the loops end before their fuel does. *)
Fixpoint interrupted_pages (fuel : nat) (run_id : string) (offset : Z) (records : list StoreRecord)
    : RIO (list StoreRecord) :=
  match fuel with
  | O => io_throw StorageError "Attempt history is too large to inspect"
  | S fuel =>
      attempts ← r_list KAttempt run_id page_size offset;
      records ← interrupted run_id attempts records;
      if Z.of_nat (length attempts) <? page_size then mret records
      else interrupted_pages fuel run_id (offset + page_size) records
  end.

(** The body of the loop over a page of runs. *)
Definition recover_interrupted (record : Json) : RIO unit :=
  r ← io_lift (run_of_json record);
  if terminal (state r) then mret tt
  else if cancellation_requested r then
    now ← now_string;
    fresh ← fresh_id;
    stamp ← now_string;
    r_commit [run_record (cancelled_run r now); recovery_event_record r "run.cancelled" fresh stamp]
  else if resting (state r) then mret tt
  else
    now ← now_string;
    fresh ← fresh_id;
    stamp ← now_string;
    records ← interrupted_pages (Z.to_nat max_pages) (id r) 0
      [run_record (paused_run r now); recovery_event_record r "run.recovery_required" fresh stamp];
    r_commit records.

Definition run_page : Z := 1000.
Definition max_run_pages : Z := 100002.
Fixpoint recover_pages (fuel : nat) (offset : Z) : RIO unit :=
  match fuel with
  | O => io_throw StorageError "Run history is too large to inspect"
  | S fuel =>
      records ← r_list KRun "" run_page offset;
      _ ← io_iter recover_interrupted records;
      if Z.of_nat (length records) <? run_page then mret tt else recover_pages fuel (offset + run_page)
  end.
Definition recover_history : RIO unit :=
  if coordinated config then mret tt else recover_pages (Z.to_nat max_run_pages) 0.
End Recovery.

(** ** Writing a checkpoint *)

Section Writing.
Context `{L : JsonLib}.

Definition storable (v : Json) : bool :=
  match dump v with Some text => size_of text <=? max_record_bytes | None => false end.
(** The kinds the store writes without a check of its own. *)
Definition plain_kind (k : RecordKind) : bool :=
  match k with
  | KSessionContextGeneration | KRunContextSnapshot | KPipeline | KWorkerJob | KNodeWork => false
  | _ => true
  end.
Definition writable (rc : StoreRecord) : bool :=
  plain_kind (rc_kind rc) && negb (empty_str (rc_id rc)) && storable (rc_value rc).
Definition rc_key (rc : StoreRecord) : RecordKind * string := (rc_kind rc, rc_id rc).

Lemma write_plain f n rc db : writable rc = true ->
  write_record f n rc db = upsert (rc_kind rc) (rc_id rc) (rc_run_id rc) (rc_value rc) db.
Proof.
  unfold writable. rewrite !andb_true_iff, negb_true_iff. intros [[Hk Hi] Hs].
  unfold write_record, storable, serialize in *. destruct (dump (rc_value rc)) as [text|]; [|done].
  rewrite Hi. apply Z.leb_le in Hs. rewrite (proj2 (Z.ltb_ge _ _) Hs).
  by destruct (rc_kind rc).
Qed.

(** The rows after the commit of writable records under distinct keys. *)
Lemma writes_plain f n rs : forall db, Forall (fun rc => writable rc = true) rs -> NoDup (map rc_key rs) ->
  exists db', write_records f n rs db = (db', TOk tt)
  /\ (forall key, key ∉ map rc_key rs -> tables db' !! key = tables db !! key)
  /\ (forall rc, rc ∈ rs -> exists seq, tables db' !! rc_key rc = Some (mkRow (rc_run_id rc) (rc_value rc) seq)
        /\ forall old, tables db !! rc_key rc = Some old -> seq = row_sequence old).
Proof.
  induction rs as [|rc rs IH]; intros db Hw Hn.
  { exists db. split_and!; [done..|]. by intros rc []%elem_of_nil. }
  apply Forall_cons in Hw as [Hrc Hw]. simpl in Hn. apply NoDup_cons in Hn as [Hni Hn].
  unfold write_records. cbn [t_iter]. unfold mbind at 1, t_bind at 1. rewrite (write_plain _ _ _ _ Hrc), upsert_spec.
  cbv zeta. set (db1 := (_ <| tables := _ |>)). destruct (IH db1 Hw Hn) as (db' & Hr & Ho & Hi).
  exists db'. split_and!; [exact Hr| |].
  - intros key Hk. simpl in Hk. apply not_elem_of_cons in Hk as [Hk1 Hk2]. rewrite (Ho _ Hk2). simpl.
    by rewrite lookup_insert_ne.
  - intros rc' [->|Hin]%elem_of_cons.
    + rewrite (Ho _ Hni). unfold rc_key. simpl. rewrite lookup_insert_eq. eexists. split; [done|]. intros old Hold.
      by rewrite Hold.
    + destruct (Hi _ Hin) as (seq & Hs & Hold). exists seq. split; [done|]. intros old Ho'. apply Hold.
      simpl. rewrite lookup_insert_ne; [done|]. intros Heq. apply Hni.
      change (rc_key rc = rc_key rc') in Heq. rewrite Heq.
      apply list_elem_of_In, in_map. by apply list_elem_of_In.
Qed.
End Writing.

(** ** Reading the pages *)

Section Pages.
Context `{L : JsonLib} {E : RuntimeEnv}.

(** Only the counter of calls moves. *)
Definition ticks (w w' : RT) : Prop := w' = w <| rt_calls := rt_calls w' |>.
#[global] Instance ticks_preorder : PreOrder ticks.
Proof.
  split; [by intros []|]. unfold ticks. intros a b c Hab Hbc. rewrite Hbc, Hab. by destruct a.
Qed.
Lemma ticks_db w w' : ticks w w' -> rt_db w' = rt_db w.
Proof. intros ->. by destruct w. Qed.
Lemma now_run w : exists w' n, now_string w = (w', TOk (rt_timestamp n)) /\ ticks w w'.
Proof. eexists _, _. split; [reflexivity|]. by destruct w. Qed.
Lemma fresh_run w : exists w' n, fresh_id w = (w', TOk (rt_uuid n)) /\ ticks w w'.
Proof. eexists _, _. split; [reflexivity|]. by destruct w. Qed.

Lemma with_same_db w : with_db (rt_db w) w = w.
Proof. by destruct w as [[] ? ? ? ? ? ? ? ? ? ? ?]. Qed.
Lemma list_run k run_id limit offset w : limit <= 10000 -> offset <= 100000000 ->
  r_list k run_id limit offset w =
  (w, TOk (map (fun kv => row_body kv.2)
     (take (Z.to_nat limit) (drop (Z.to_nat offset) (select_rows (rt_db w) k run_id))))).
Proof.
  intros Hl Ho. unfold r_list, r_store, list_records, m_bind, m_guard.
  rewrite (proj2 (Z.ltb_ge _ _) Hl), (proj2 (Z.ltb_ge _ _) Ho). simpl. by rewrite with_same_db.
Qed.

(** The checkpoint records of the unfinished attempts among rows. *)
Definition attempt_running (body : Json) : bool :=
  match attempt_of_json body with TOk a => bool_decide (a_state a = NRunning) | TThrow _ => false end.
Definition failed_as (run_id : string) (body : Json) (rc : StoreRecord) : Prop :=
  exists a n, attempt_of_json body = TOk a /\ a_state a = NRunning
    /\ rc = attempt_record run_id (failed_attempt a (rt_timestamp n)).
Definition failed_of (run_id : string) (rows : list (string * Row)) (rs : list StoreRecord) : Prop :=
  Forall2 (fun kv rc => failed_as run_id (row_body kv.2) rc)
    (filter (fun kv => attempt_running (row_body kv.2) = true) rows) rs.
Definition readable (rows : list (string * Row)) : Prop :=
  Forall (fun kv => exists a, attempt_of_json (row_body kv.2) = TOk a) rows.

Lemma interrupted_run run_id rows : forall records w, readable rows ->
  exists w' rs, interrupted run_id (map (fun kv => row_body kv.2) rows) records w = (w', TOk (records ++ rs))
    /\ ticks w w' /\ failed_of run_id rows rs.
Proof.
  unfold failed_of. induction rows as [|kv rows IH]; intros records w Hr.
  { exists w, []. rewrite app_nil_r. split_and!; [done..|constructor]. }
  apply Forall_cons in Hr as [(a & Ha) Hr]. cbn [map interrupted]. unfold mbind at 1, io_bind at 1, io_lift at 1.
  rewrite Ha. rewrite filter_cons. assert (Hrun : attempt_running (row_body kv.2) = bool_decide (a_state a = NRunning))
    by (unfold attempt_running; by rewrite Ha). revert Hrun. case_bool_decide as Hst; intros Hrun.
  - destruct (now_run w) as (w1 & n & Hn & Ht). rewrite (io_bind_run _ _ _ _ _ Hn).
    destruct (IH (records ++ [attempt_record run_id (failed_attempt a (rt_timestamp n))]) w1 Hr) as (w2 & rs & H2 & Ht2 & Hf).
    exists w2, (attempt_record run_id (failed_attempt a (rt_timestamp n)) :: rs). rewrite H2, <- app_assoc.
    split_and!; [done|by etransitivity|]. rewrite decide_True by done. constructor; [|done]. by exists a, n.
  - rewrite decide_False by congruence. by apply IH.
Qed.

Lemma interrupted_pages_run run_id fuel : forall (m : nat) records w,
  readable (select_rows (rt_db w) KAttempt run_id) ->
  Z.of_nat (length (select_rows (rt_db w) KAttempt run_id)) <= 100000000 ->
  Z.of_nat m * page_size <= Z.of_nat (length (select_rows (rt_db w) KAttempt run_id)) ->
  Z.of_nat (length (select_rows (rt_db w) KAttempt run_id)) < (Z.of_nat m + Z.of_nat fuel) * page_size ->
  exists w' rs, interrupted_pages fuel run_id (Z.of_nat m * page_size) records w = (w', TOk (records ++ rs))
    /\ ticks w w'
    /\ failed_of run_id (drop (Z.to_nat (Z.of_nat m * page_size)) (select_rows (rt_db w) KAttempt run_id)) rs.
Proof.
  induction fuel as [|fuel IH]; intros m records w Hr Hmax Hlo Hhi; [unfold page_size in *; lia|].
  set (rows := select_rows (rt_db w) KAttempt run_id) in *. set (o := Z.of_nat m * page_size) in *.
  assert (Hps : page_size = 10000) by done.
  cbn [interrupted_pages]. unfold mbind at 1, io_bind at 1. rewrite list_run by lia. fold rows.
  set (page := take (Z.to_nat page_size) (drop (Z.to_nat o) rows)).
  assert (Hpage : readable page).
  { unfold readable in *. unfold page. by apply Forall_take, Forall_drop. }
  destruct (interrupted_run run_id page records w Hpage) as (w1 & rs & H1 & Ht & Hf).
  rewrite (io_bind_run _ _ _ _ _ H1). rewrite length_map.
  assert (Hlen : length page = (Z.to_nat page_size `min` (length rows - Z.to_nat o))%nat)
    by (unfold page; by rewrite length_take, length_drop).
  destruct (Z.ltb_spec (Z.of_nat (length page)) page_size) as [Hsh|Hfull].
  - exists w1, rs. split_and!; [done..|]. unfold page in Hf. rewrite take_ge in Hf; [done|]. rewrite length_drop. lia.
  - assert (Hdb : rt_db w1 = rt_db w) by by apply ticks_db.
    assert (Ho' : o + page_size = Z.of_nat (S m) * page_size) by (unfold o; lia). rewrite Ho'.
    destruct (IH (S m) (records ++ rs) w1) as (w2 & rs2 & H2 & Ht2 & Hf2); rewrite ?Hdb; fold rows; [done|done|lia|lia|].
    rewrite Hdb in Hf2. fold rows in Hf2. exists w2, (rs ++ rs2). rewrite app_assoc. split_and!; [done|by etransitivity|].
    rewrite <- (take_drop (Z.to_nat page_size) (drop (Z.to_nat o) rows)). rewrite drop_drop. unfold failed_of in *.
    rewrite filter_app. apply Forall2_app; [done|]. replace (Z.to_nat o + Z.to_nat page_size)%nat with (Z.to_nat (Z.of_nat (S m) * page_size)) by lia.
    done.
Qed.
End Pages.

(** ** What recovery leaves *)

Section Outcome.
Context `{L : JsonLib} {E : RuntimeEnv}.

(** A stored run before and after: a finished run is not touched, a run whose cancellation was
    requested is cancelled, a resting run waits on, and the others are paused. *)
Definition outcome (row row' : Row) : Prop :=
  exists r, run_of_json (row_body row) = TOk r /\
    if terminal (state r) then row' = row
    else if cancellation_requested r then
      exists n, row' = row <| row_body := run_to_json (cancelled_run r (rt_timestamp n)) |>
    else if resting (state r) then row' = row
    else exists n, row' = row <| row_body := run_to_json (paused_run r (rt_timestamp n)) |>.
Definition executing (r : Run) : bool :=
  negb (terminal (state r)) && negb (cancellation_requested r) && negb (resting (state r)).
Definition was_executing (db : DB) (i : string) : bool :=
  match tables db !! (KRun, i) with
  | Some row => match run_of_json (row_body row) with TOk r => executing r | TThrow _ => false end
  | None => false
  end.
(** A stored attempt before and after: the unfinished attempts of the paused runs have failed. *)
Definition attempt_outcome (db : DB) (row row' : Row) : Prop :=
  if was_executing db (row_run_id row) && attempt_running (row_body row) then
    exists a n, attempt_of_json (row_body row) = TOk a
      /\ row' = row <| row_body := attempt_to_json (failed_attempt a (rt_timestamp n)) |>
  else row' = row.
Definition recovered (db db' : DB) : Prop :=
  (forall i, option_Forall2 outcome (tables db !! (KRun, i)) (tables db' !! (KRun, i)))
  /\ (forall i, option_Forall2 (attempt_outcome db) (tables db !! (KAttempt, i)) (tables db' !! (KAttempt, i))).

(** The history a process leaves: rows under the ids of their documents, runs in the order of
    distinct sequence numbers, documents that decode and stay within the store's limits. *)
Record recoverable (db : DB) : Prop := {
  rv_run : forall i row, tables db !! (KRun, i) = Some row ->
    i <> ""%string /\ row_run_id row = i /\ exists r, run_of_json (row_body row) = TOk r /\ id r = i
    /\ forall n, storable (run_to_json (cancelled_run r (rt_timestamp n))) = true
       /\ storable (run_to_json (paused_run r (rt_timestamp n))) = true
       /\ forall m type, storable (event_to_json (recovery_event r type (rt_uuid m) (rt_timestamp n))) = true;
  rv_attempt : forall i row, tables db !! (KAttempt, i) = Some row ->
    i <> ""%string /\ exists a, attempt_of_json (row_body row) = TOk a /\ a_id a = i
    /\ forall n, storable (attempt_to_json (failed_attempt a (rt_timestamp n))) = true;
  rv_order : forall i j row row', tables db !! (KRun, i) = Some row -> tables db !! (KRun, j) = Some row' ->
    row_sequence row = row_sequence row' -> i = j;
  rv_runs : Z.of_nat (length (select_rows db KRun "")) <= 100000000;
  rv_attempts : forall i, Z.of_nat (length (select_rows db KAttempt i)) <= 100000000;
  rv_ids : forall n, rt_uuid n <> ""%string }.

(** The runs [D] have been recovered. *)
Definition settled (D : list string) (db db' : DB) : Prop :=
  (forall i, option_Forall2 (fun row row' => if bool_decide (i ∈ D) then outcome row row' else row' = row)
      (tables db !! (KRun, i)) (tables db' !! (KRun, i)))
  /\ (forall i, option_Forall2
        (fun row row' => if bool_decide (row_run_id row ∈ D) then attempt_outcome db row row' else row' = row)
        (tables db !! (KAttempt, i)) (tables db' !! (KAttempt, i))).

Lemma option_Forall2_eq {A} (o : option A) : option_Forall2 (fun x y => y = x) o o.
Proof. destruct o; by constructor. Qed.
Lemma settled_start db : settled [] db db.
Proof. split; intros i; destruct (tables db !! _); constructor; by rewrite bool_decide_eq_false_2 by apply not_elem_of_nil. Qed.

Lemma settled_run D db db' i row : settled D db db' -> i ∉ D -> tables db !! (KRun, i) = Some row ->
  tables db' !! (KRun, i) = Some row.
Proof. intros [Hr _] Hi Hrow. specialize (Hr i). rewrite Hrow in Hr. inversion Hr as [? ? Ho Heq1 Heq2|]. rewrite bool_decide_eq_false_2 in Ho by done. by subst. Qed.

Lemma attempt_outcome_place db row row' : attempt_outcome db row row' ->
  row_run_id row' = row_run_id row /\ row_sequence row' = row_sequence row.
Proof. unfold attempt_outcome. case_match; [|by intros ->]. by intros (a & n & _ & ->). Qed.
Lemma outcome_place row row' : outcome row row' ->
  row_run_id row' = row_run_id row /\ row_sequence row' = row_sequence row.
Proof. intros (r & _ & Ho). repeat case_match; (try destruct Ho as (n & Ho)); by subst. Qed.

(** The attempts of a run that is still to be recovered. *)
Lemma settled_attempts D db db' i : settled D db db' -> i ∉ D -> i <> ""%string ->
  select_rows db' KAttempt i ≡ₚ select_rows db KAttempt i.
Proof.
  intros [_ Ha] Hi Hne. apply NoDup_Permutation; [apply (NoDup_fmap_1 fst), select_rows_nodup..|].
  intros [a row]. rewrite !elem_of_select_rows. specialize (Ha a).
  inversion Ha as [row0 row1 Ho Heq1 Heq2|Heq1 Heq2]; [|split; by intros [? _]].
  assert (Hp : row_run_id row1 = row_run_id row0).
  { case_bool_decide; [by apply attempt_outcome_place in Ho as [? _]|by subst]. }
  split; intros [[= <-] [?|Hrid]]; try done.
  - rewrite bool_decide_eq_false_2 in Ho by (by rewrite <- Hp, Hrid). subst. auto.
  - rewrite bool_decide_eq_false_2 in Ho by (by rewrite Hrid). subst. auto.
Qed.
(** The runs keep their order. *)
Lemma settled_order D db db' : settled D db db' -> recoverable db ->
  map (fun kv => (kv.1, row_sequence kv.2)) (select_rows db' KRun "")
  = map (fun kv => (kv.1, row_sequence kv.2)) (select_rows db KRun "").
Proof.
  intros [Hr _] Hok. set (f := fun kv : string * Row => (kv.1, row_sequence kv.2)).
  assert (Hsorted : forall d, StronglySorted (fun x y => x.2 <= y.2) (map f (select_rows d KRun ""))).
  { intros d. pose proof (select_rows_sorted d KRun "") as Hs. induction Hs as [|x l Hl IH Hx]; simpl; constructor; [done|].
    apply Forall_map. eapply Forall_impl; [exact Hx|]. done. }
  assert (Hnd : forall d, NoDup (map f (select_rows d KRun ""))).
  { intros d. apply (NoDup_fmap_1 fst). rewrite <- list_fmap_compose. apply select_rows_nodup. }
  assert (Hin : forall d i n, (i, n) ∈ map f (select_rows d KRun "") <->
                exists row, tables d !! (KRun, i) = Some row /\ row_sequence row = n).
  { intros d i n. rewrite list_elem_of_fmap. split.
    - intros ([j row] & [= -> ->] & [Hrow _]%elem_of_select_rows). eauto.
    - intros (row & Hrow & <-). exists (i, row). split; [done|]. apply elem_of_select_rows. auto. }
  eapply (StronglySorted_unique_strong (fun x y => x.2 <= y.2)); [| by apply Hsorted..|].
  - intros [i n] [j m] Hi Hj H1 H2. simpl in H1, H2. assert (n = m) as -> by lia. f_equal.
    apply Hin in Hi as (rowi & Hrowi & Hsi). apply Hin in Hj as (rowj & Hrowj & Hsj).
    specialize (Hr i). rewrite Hrowi in Hr. inversion Hr as [row0 ? Ho Heq1 Heq2|]; subst.
    assert (row_sequence rowi = row_sequence row0).
    { case_bool_decide; [by apply outcome_place in Ho as [_ ?]|by subst]. }
    eapply (rv_order _ Hok); [done|done|congruence].
  - apply NoDup_Permutation; [apply Hnd..|]. intros [i n]. rewrite !Hin. specialize (Hr i).
    inversion Hr as [row0 row1 Ho Heq1 Heq2|Heq1 Heq2]; [|split; by intros (? & ? & _)].
    assert (row_sequence row1 = row_sequence row0).
    { case_bool_decide; [by apply outcome_place in Ho as [_ ?]|by subst]. }
    naive_solver congruence.
Qed.

(** ** One run *)

Lemma commit_run rs w : Forall (fun rc => writable rc = true) rs -> NoDup (map rc_key rs) ->
  exists w', r_commit rs w = (w', TOk tt)
  /\ (forall key, key ∉ map rc_key rs -> tables (rt_db w') !! key = tables (rt_db w) !! key)
  /\ (forall rc, rc ∈ rs -> exists seq, tables (rt_db w') !! rc_key rc = Some (mkRow (rc_run_id rc) (rc_value rc) seq)
        /\ forall old, tables (rt_db w) !! rc_key rc = Some old -> seq = row_sequence old).
Proof.
  intros Hw Hn. destruct (writes_plain (rt_uuid (rt_calls w)) (rt_timestamp (rt_calls w)) rs (rt_db w) Hw Hn)
    as (db' & Hr & Ho & Hi).
  exists (with_db db' (w <| rt_calls := S (rt_calls w) |>)). split; [|split; [exact Ho|exact Hi]]. unfold r_commit, mbind, io_bind, r_call, r_store, commit, store_tx, transaction.
  change (rt_db (w <| rt_calls := S (rt_calls w) |>)) with (rt_db w). rewrite Hr. reflexivity.
Qed.

(** The attempts among the records of a checkpoint. *)
Definition attempt_at (run_id : string) (kv : string * Row) (rc : StoreRecord) : Prop :=
  exists a n, attempt_of_json (row_body kv.2) = TOk a /\ a_id a = kv.1
    /\ rc = attempt_record run_id (failed_attempt a (rt_timestamp n)) /\ writable rc = true.
Lemma failed_at db i rows rs : recoverable db ->
  (forall kv, kv ∈ rows -> tables db !! (KAttempt, kv.1) = Some kv.2) -> failed_of i rows rs ->
  Forall2 (attempt_at i) (filter (fun kv => attempt_running (row_body kv.2) = true) rows) rs.
Proof.
  intros Hok Hrows Hf. assert (Hin : forall kv, kv ∈ filter (fun kv => attempt_running (row_body kv.2) = true) rows ->
    tables db !! (KAttempt, kv.1) = Some kv.2) by (intros kv [_ Hkv]%list_elem_of_filter; by apply Hrows).
  unfold failed_of in Hf. clear Hrows. revert Hin.
  induction Hf as [|kv rc l rs (a & n & Ha & _ & ->) Hf IH]; intros Hin; constructor.
  2: { apply IH. intros kv' Hkv'. apply Hin. by right. }
  assert (Hkv : tables db !! (KAttempt, kv.1) = Some kv.2) by (apply Hin; by left).
  destruct (rv_attempt _ Hok _ _ Hkv) as (Hne & a' & Ha' & Hid & Hst). rewrite Ha in Ha'. injection Ha' as <-.
  exists a, n. split_and!; [done..|]. unfold writable. simpl. rewrite Hid, Hst.
  destruct (empty_str kv.1) eqn:Hemp; [|done]. unfold empty_str in Hemp. by apply String.eqb_eq in Hemp.
Qed.
Lemma attempt_keys i rows rs : Forall2 (attempt_at i) rows rs -> map rc_key rs = map (fun kv => (KAttempt, kv.1)) rows.
Proof. induction 1 as [|kv rc rows rs (a & n & _ & Hid & -> & _) Hf IH]; [done|]. simpl. rewrite IH. unfold rc_key. simpl. by rewrite Hid. Qed.


Lemma settled_step D db d d' i row row' : settled D db d -> i ∉ D -> tables db !! (KRun, i) = Some row ->
  tables d' !! (KRun, i) = Some row' -> outcome row row' ->
  (forall j, j <> i -> tables d' !! (KRun, j) = tables d !! (KRun, j)) ->
  (forall a row0, tables d !! (KAttempt, a) = Some row0 -> row_run_id row0 = i ->
     exists row1, tables d' !! (KAttempt, a) = Some row1 /\ attempt_outcome db row0 row1) ->
  (forall a, (forall row0, tables d !! (KAttempt, a) = Some row0 -> row_run_id row0 <> i) ->
     tables d' !! (KAttempt, a) = tables d !! (KAttempt, a)) ->
  settled (D ++ [i]) db d'.
Proof.
  intros [Hr Ha] Hi Hrow Hrow' Hout Hoth Hai Hao. split.
  - intros j. destruct (String.eqb_spec j i) as [->|Hne].
    + rewrite Hrow, Hrow'. constructor. rewrite bool_decide_eq_true_2; [done|]. set_solver.
    + rewrite Hoth by done. specialize (Hr j). destruct Hr as [x y Hxy|]; constructor.
      rewrite (bool_decide_ext (j ∈ D ++ [i]) (j ∈ D)) by set_solver. done.
  - intros a. specialize (Ha a). destruct (tables d !! (KAttempt, a)) as [y|] eqn:Hy.
    2: { rewrite Hao by (intros; congruence). rewrite Hy. inversion Ha. by constructor. }
    inversion Ha as [x y' Hxy Hx Hy'|]; subst.
    assert (Hp : row_run_id y = row_run_id x).
    { case_bool_decide; [by apply attempt_outcome_place in Hxy as [? _]|by subst]. }
    destruct (String.eqb_spec (row_run_id y) i) as [Heq|Hne].
    + rewrite (bool_decide_eq_false_2 (row_run_id x ∈ D)) in Hxy by (by rewrite <- Hp, Heq). subst y.
      destruct (Hai a x Hy Heq) as (row1 & -> & Ho). constructor. rewrite bool_decide_eq_true_2; [done|]. set_solver.
    + rewrite Hao by (intros row0 H0; rewrite Hy in H0; by injection H0 as <-). rewrite Hy. constructor.
      rewrite (bool_decide_ext (row_run_id x ∈ D ++ [i]) (row_run_id x ∈ D)) by set_solver. done.
Qed.
(** A run that recovery does not touch. *)
Lemma settled_keep D db d i row r : settled D db d -> i ∉ D -> tables db !! (KRun, i) = Some row ->
  run_of_json (row_body row) = TOk r -> executing r = false -> outcome row row -> settled (D ++ [i]) db d.
Proof.
  intros Hs Hi Hrow Hr Hx Hout. apply (settled_step D db d d i row row); try done.
  - by eapply settled_run.
  - intros a row0 H0 <-. exists row0. split; [done|]. unfold attempt_outcome, was_executing. by rewrite Hrow, Hr, Hx.
Qed.

Lemma nonempty_id i : i <> ""%string -> negb (empty_str i) = true.
Proof. intros Hne. unfold empty_str. destruct (String.eqb_spec i ""); done. Qed.

Lemma run_writable r : id r <> ""%string -> storable (run_to_json r) = true -> writable (run_record r) = true.
Proof. intros Hi Hs. unfold writable, run_record. cbn [rc_kind rc_id rc_value plain_kind]. by rewrite Hs, nonempty_id. Qed.
Lemma event_writable r type fresh stamp : fresh <> ""%string ->
  storable (event_to_json (recovery_event r type fresh stamp)) = true ->
  writable (recovery_event_record r type fresh stamp) = true.
Proof. intros Hi Hs. unfold writable, recovery_event_record. cbn [rc_kind rc_id rc_value plain_kind]. by rewrite Hs, nonempty_id. Qed.

(** The commit that settles one run: [rows] are its unfinished attempts. *)
Lemma recover_commit D db w i row r r1 ev rows rs : recoverable db -> settled D db (rt_db w) -> i ∉ D ->
  tables db !! (KRun, i) = Some row -> run_of_json (row_body row) = TOk r -> id r1 = i ->
  writable (run_record r1) = true -> writable ev = true -> rc_kind ev = KEvent ->
  outcome row (row <| row_body := run_to_json r1 |>) ->
  rows = (if executing r then filter (fun kv => attempt_running (row_body kv.2) = true) (select_rows (rt_db w) KAttempt i)
          else []) ->
  Forall2 (attempt_at i) rows rs ->
  exists w', r_commit (run_record r1 :: ev :: rs) w = (w', TOk tt) /\ settled (D ++ [i]) db (rt_db w').
Proof.
  intros Hok Hs Hi Hrow Hr Hid Hw1 Hw2 Hev Hout Hrows Hf. pose proof (attempt_keys _ _ _ Hf) as Hkeys.
  destruct (rv_run _ Hok _ _ Hrow) as (Hne & Hrid & _). pose proof (settled_run _ _ _ _ _ Hs Hi Hrow) as Hnow.
  assert (Hin0 : forall a row0, (a, row0) ∈ rows <-> executing r = true /\ attempt_running (row_body row0) = true
                   /\ tables (rt_db w) !! (KAttempt, a) = Some row0 /\ row_run_id row0 = i).
  { intros a row0. subst rows. destruct (executing r); [|split; [by intros []%elem_of_nil|by intros [? _]]].
    rewrite list_elem_of_filter, elem_of_select_rows. simpl. naive_solver. }
  edestruct (commit_run (run_record r1 :: ev :: rs) w) as (w' & Hc & Ho & Hin).
  { constructor; [done|]. constructor; [done|]. clear -Hf. induction Hf as [|? ? ? ? (? & ? & _ & _ & _ & ?)]; by constructor. }
  { cbn [map]. rewrite Hkeys. unfold rc_key at 1 2. rewrite Hev. apply NoDup_cons. split.
    { intros [?|(? & ? & _)%list_elem_of_fmap]%elem_of_cons; done. }
    apply NoDup_cons. split; [by intros (? & ? & _)%list_elem_of_fmap|].
    apply (NoDup_fmap_1 snd). rewrite <- list_fmap_compose. apply NoDup_fmap_fst.
    { intros a x y (_ & _ & Hx & _)%Hin0 (_ & _ & Hy & _)%Hin0. congruence. }
    subst rows. destruct (executing r); [|constructor]. apply NoDup_filter, (NoDup_fmap_1 fst), select_rows_nodup. }
  exists w'. split; [done|].
  assert (Hkey : forall k a, (k = KRun \/ k = KAttempt) -> (k, a) <> (KRun, i) -> (k, a) ∉ map (fun kv => (KAttempt, kv.1)) rows ->
                 tables (rt_db w') !! (k, a) = tables (rt_db w) !! (k, a)).
  { intros k a Hk H1 H2. apply Ho. cbn [map]. rewrite Hkeys. unfold rc_key at 1 2. rewrite Hev. cbn [rc_kind rc_id run_record].
    rewrite !not_elem_of_cons, Hid. split_and!; [done|by destruct Hk as [->| ->]|done]. }
  apply (settled_step D db (rt_db w) _ i row (row <| row_body := run_to_json r1 |>)); try done.
  - destruct (Hin (run_record r1)) as (seq & Hn & Hseq); [by left|]. unfold rc_key in Hn, Hseq.
    cbn [rc_kind rc_id rc_run_id rc_value run_record] in Hn, Hseq. rewrite Hid in *. rewrite (Hseq _ Hnow) in Hn. rewrite Hn.
    destruct row. simpl in Hrid. by subst.
  - intros j Hj. apply Hkey; [by left|congruence|]. by intros (? & ? & _)%list_elem_of_fmap.
  - intros a row0 H0 Hrun. destruct (executing r && attempt_running (row_body row0)) eqn:Hx.
    + apply andb_true_iff in Hx as [Hx1 Hx2]. assert (Hmem : (a, row0) ∈ rows) by (by apply Hin0).
      apply list_elem_of_lookup in Hmem as (p & Hp).
      destruct (Forall2_lookup_l _ _ _ _ _ Hf Hp) as (rc & Hrc%list_elem_of_lookup_2 & (x & n & Hx & Hxi & -> & _)).
      destruct (Hin (attempt_record i (failed_attempt x (rt_timestamp n)))) as (seq & Hn & Hseq); [by do 2 right|].
      unfold rc_key in Hn, Hseq. cbn [rc_kind rc_id rc_run_id rc_value attempt_record] in Hn, Hseq.
      change (a_id (failed_attempt x (rt_timestamp n))) with (a_id x) in *. simpl in Hxi, Hx. rewrite Hxi in *.
      rewrite (Hseq _ H0) in Hn. eexists. split; [exact Hn|]. unfold attempt_outcome, was_executing.
      rewrite Hrun, Hrow, Hr, Hx1, Hx2. exists x, n. split; [done|]. destruct row0. simpl in Hrun. by subst.
    + exists row0. rewrite Hkey; [|by right|done|].
      * split; [done|]. unfold attempt_outcome, was_executing. by rewrite Hrun, Hrow, Hr, Hx.
      * intros ([a' row1] & [= ->] & Hm)%list_elem_of_fmap. apply Hin0 in Hm as (Hx1 & Hx2 & H1 & _).
        rewrite H0 in H1. injection H1 as <-. by rewrite Hx1, Hx2 in Hx.
  - intros a Hno. apply Hkey; [by right|done|]. intros ([a' row1] & [= ->] & Hm)%list_elem_of_fmap.
    apply Hin0 in Hm as (_ & _ & H1 & H2). by apply (Hno row1).
Qed.

Lemma recover_run_ok D db w i row : recoverable db -> settled D db (rt_db w) -> i ∉ D ->
  tables db !! (KRun, i) = Some row ->
  exists w', recover_interrupted (row_body row) w = (w', TOk tt) /\ settled (D ++ [i]) db (rt_db w').
Proof.
  intros Hok Hs Hi Hrow. destruct (rv_run _ Hok _ _ Hrow) as (Hne & Hrid & r & Hr & Hid & Hst).
  unfold recover_interrupted, mbind at 1, io_bind at 1, io_lift at 1. rewrite Hr.
  assert (Hkeep : executing r = false -> outcome row row ->
            exists w', (mret tt : RIO unit) w = (w', TOk tt) /\ settled (D ++ [i]) db (rt_db w')).
  { intros Hx Ho. exists w. split; [done|]. by eapply settled_keep. }
  unfold executing in Hkeep. destruct (terminal (state r)) eqn:Ht.
  { apply Hkeep; [done|]. exists r. by rewrite Ht. }
  destruct (cancellation_requested r) eqn:Hc; [|destruct (resting (state r)) eqn:Hre].
  2: { apply Hkeep; [done|]. exists r. by rewrite Ht, Hc, Hre. }
  all: destruct (now_run w) as (w1 & n & H1 & T1); rewrite (io_bind_run _ _ _ _ _ H1);
    destruct (fresh_run w1) as (w2 & m & H2 & T2); rewrite (io_bind_run _ _ _ _ _ H2);
    destruct (now_run w2) as (w3 & k & H3 & T3); rewrite (io_bind_run _ _ _ _ _ H3);
    assert (Hdb : rt_db w3 = rt_db w) by (rewrite (ticks_db _ _ T3), (ticks_db _ _ T2); by apply ticks_db);
    destruct (Hst n) as (Hsc & Hsp & _); destruct (Hst k) as (_ & _ & Hse).
  - apply (recover_commit D db w3 i row r (cancelled_run r (rt_timestamp n)) _ [] []); try done.
    + by rewrite Hdb.
    + apply run_writable; [|exact Hsc]. change (id r <> ""%string). congruence.
    + apply event_writable; [apply (rv_ids _ Hok)|apply Hse].
    + exists r. rewrite Ht, Hc. eauto.
    + unfold executing. by rewrite Ht, Hc.
  - pose proof (settled_attempts D db (rt_db w3) i) as Hperm. rewrite Hdb in Hperm. specialize (Hperm Hs Hi Hne).
    assert (Hread : forall kv, kv ∈ select_rows (rt_db w3) KAttempt i -> tables db !! (KAttempt, kv.1) = Some kv.2).
    { intros [a row0] Hin. rewrite Hdb, Hperm in Hin. by apply elem_of_select_rows in Hin as [? _]. }
    assert (Hlen : length (select_rows (rt_db w3) KAttempt i) = length (select_rows db KAttempt i))
      by (rewrite Hdb; by apply Permutation_length).
    pose proof (rv_attempts _ Hok i) as Hmax.
    destruct (interrupted_pages_run (id r) (Z.to_nat max_pages) 0
      [run_record (paused_run r (rt_timestamp n)); recovery_event_record r "run.recovery_required" (rt_uuid m) (rt_timestamp k)] w3)
      as (w4 & rs & H4 & T4 & Hf); rewrite ?Hid, ?Hlen; unfold page_size, max_pages; [|lia..|].
    { apply Forall_forall. intros kv Hkv. destruct (rv_attempt _ Hok _ _ (Hread _ Hkv)) as (_ & a & Ha & _). eauto. }
    rewrite Hid in H4, Hf. change (Z.of_nat 0 * page_size) with 0 in H4, Hf.
    rewrite (io_bind_run _ _ _ _ _ H4). rewrite drop_0 in Hf.
    apply (recover_commit D db w4 i row r (paused_run r (rt_timestamp n)) _
             (filter (fun kv => attempt_running (row_body kv.2) = true) (select_rows (rt_db w3) KAttempt i)) rs); try done.
    + by rewrite (ticks_db _ _ T4), Hdb.
    + apply run_writable; [|exact Hsp]. change (id r <> ""%string). congruence.
    + apply event_writable; [apply (rv_ids _ Hok)|apply Hse].
    + exists r. rewrite Ht, Hc, Hre. eauto.
    + unfold executing. rewrite Ht, Hc, Hre. by rewrite (ticks_db _ _ T4).
    + by apply (failed_at db).
Qed.

(** ** All runs *)

Lemma recover_iter db rows : recoverable db -> (forall kv, kv ∈ rows -> tables db !! (KRun, kv.1) = Some kv.2) ->
  forall D w, NoDup (D ++ rows.*1) -> settled D db (rt_db w) ->
  exists w', io_iter recover_interrupted (map (fun kv => row_body kv.2) rows) w = (w', TOk tt) /\ settled (D ++ rows.*1) db (rt_db w').
Proof.
  intros Hok Hrows. induction rows as [|[i row] rows IH]; intros D w Hn Hs.
  { exists w. simpl. by rewrite app_nil_r. }
  simpl in Hn. assert (Hi : i ∉ D).
  { intros Hin. apply NoDup_app in Hn as (_ & Hd & _). apply (Hd i Hin). by left. }
  destruct (recover_run_ok D db w i row Hok Hs Hi) as (w1 & H1 & Hs1).
  { apply (Hrows (i, row)). by left. }
  destruct (IH) with (D := D ++ [i]) (w := w1) as (w2 & H2 & Hs2).
  - intros kv Hkv. apply Hrows. by right.
  - by rewrite <- app_assoc.
  - done.
  - exists w2. cbn [map io_iter fmap list_fmap]. rewrite (io_bind_run _ _ _ _ _ H1). split; [done|].
    by rewrite <- app_assoc in Hs2.
Qed.

(** The pages still to be read are those of the history. *)
Lemma settled_rest db d (o : nat) : recoverable db -> settled (take o (select_rows db KRun "")).*1 db d ->
  drop o (select_rows d KRun "") = drop o (select_rows db KRun "").
Proof.
  intros Hok Hs. pose proof (settled_order _ _ _ Hs Hok) as Hord. apply list_eq. intros p. rewrite !lookup_drop.
  assert (Hp : fst <$> select_rows d KRun "" !! (o + p)%nat = fst <$> select_rows db KRun "" !! (o + p)%nat).
  { apply (f_equal (fun l => l !! (o + p)%nat)) in Hord. rewrite !list_lookup_fmap in Hord.
    destruct (select_rows d KRun "" !! (o + p)%nat), (select_rows db KRun "" !! (o + p)%nat); simpl in *; congruence. }
  destruct (select_rows d KRun "" !! (o + p)%nat) as [[i row']|] eqn:H', (select_rows db KRun "" !! (o + p)%nat) as [[j row]|] eqn:H0;
    simplify_eq/=; [|done].
  assert (Hj : j ∉ (take o (select_rows db KRun "")).*1).
  { intros Hin. rewrite fmap_take in Hin. apply list_elem_of_lookup in Hin as (q & Hq).
    apply lookup_take_Some in Hq as [Hq Hlt].
    assert (Hq' : (select_rows db KRun "").*1 !! (o + p)%nat = Some j) by (by rewrite list_lookup_fmap, H0).
    pose proof (NoDup_lookup _ _ _ _ (select_rows_nodup db KRun "") Hq Hq'). lia. }
  apply list_elem_of_lookup_2, elem_of_select_rows in H0 as [H0 _]. apply list_elem_of_lookup_2, elem_of_select_rows in H' as [H' _].
  rewrite (settled_run _ _ _ _ _ Hs Hj H0) in H'. by injection H' as ->.
Qed.

Lemma recover_pages_ok db fuel : recoverable db -> forall (m : nat) w,
  Z.of_nat m * run_page <= Z.of_nat (length (select_rows db KRun "")) ->
  Z.of_nat (length (select_rows db KRun "")) < (Z.of_nat m + Z.of_nat fuel) * run_page ->
  settled (take (Z.to_nat (Z.of_nat m * run_page)) (select_rows db KRun "")).*1 db (rt_db w) ->
  exists w', recover_pages fuel (Z.of_nat m * run_page) w = (w', TOk tt)
    /\ settled (select_rows db KRun "").*1 db (rt_db w').
Proof.
  intros Hok. pose proof (rv_runs _ Hok) as Hmax. assert (Hps : run_page = 1000) by done.
  induction fuel as [|fuel IH]; intros m w Hlo Hhi Hs; [lia|].
  set (rows := select_rows db KRun "") in *. set (o := Z.of_nat m * run_page) in *.
  cbn [recover_pages]. unfold mbind at 1, io_bind at 1. rewrite list_run by lia.
  rewrite (settled_rest db (rt_db w) _ Hok Hs). fold rows. set (page := take (Z.to_nat run_page) (drop (Z.to_nat o) rows)).
  assert (Hsplit : take (Z.to_nat (o + run_page)) rows = take (Z.to_nat o) rows ++ page).
  { unfold page. rewrite Z2Nat.inj_add by lia. symmetry. apply take_take_drop. }
  destruct (recover_iter db page Hok) with (D := (take (Z.to_nat o) rows).*1) (w := w) as (w1 & H1 & Hs1); [| |done|].
  { intros [i row] Hin. assert (Hin' : (i, row) ∈ rows).
    { eapply elem_of_submseteq; [exact Hin|]. apply sublist_submseteq. unfold page. etransitivity; [apply sublist_take|apply sublist_drop]. }
    by apply elem_of_select_rows in Hin' as [? _]. }
  { rewrite <- fmap_app, <- Hsplit, fmap_take. eapply sublist_NoDup; [|apply sublist_take]. apply select_rows_nodup. }
  rewrite <- fmap_app, <- Hsplit in Hs1. rewrite (io_bind_run _ _ _ _ _ H1), length_map.
  assert (Hlen : length page = (Z.to_nat run_page `min` (length rows - Z.to_nat o))%nat)
    by (unfold page; by rewrite length_take, length_drop).
  assert (Ho' : o + run_page = Z.of_nat (S m) * run_page) by (unfold o; lia).
  destruct (Z.ltb_spec (Z.of_nat (length page)) run_page) as [Hsh|Hfull].
  - exists w1. split; [done|]. rewrite take_ge in Hs1; [done|]. lia.
  - rewrite Ho' in *. apply IH; [lia|lia|done].
Qed.

Lemma settled_all db d : settled (select_rows db KRun "").*1 db d -> recovered db d.
Proof.
  intros [Hr Ha]. split; intros i.
  - specialize (Hr i). destruct (tables db !! (KRun, i)) as [row|] eqn:Hrow; inversion Hr as [? ? Ho|]; constructor; subst.
    rewrite bool_decide_eq_true_2 in Ho; [done|]. apply list_elem_of_fmap. exists (i, row). split; [done|].
    apply elem_of_select_rows. auto.
  - specialize (Ha i). destruct (tables db !! (KAttempt, i)) as [row|] eqn:Hrow; inversion Ha as [? ? Ho|]; constructor; subst.
    case_bool_decide as Hin; [done|]. subst. unfold attempt_outcome, was_executing.
    destruct (tables db !! (KRun, row_run_id row)) as [row0|] eqn:Hrow0; [|done]. exfalso. apply Hin.
    apply list_elem_of_fmap. exists (row_run_id row, row0). split; [done|]. apply elem_of_select_rows. auto.
Qed.
End Outcome.

(** ** Whatever happens *)

Section Safety.
Context `{L : JsonLib} {HL : JsonLaws L} `{Y : YamlLib} {E : RuntimeEnv} {HE : RuntimeEnvLaws E}.

Definition attempts_only (rs : list StoreRecord) : Prop := Forall (fun rc => rc_kind rc = KAttempt) rs.
Lemma interrupted_adds run_id l : forall records w w' rs, interrupted run_id l records w = (w', TOk rs) ->
  exists tl, rs = records ++ tl /\ attempts_only tl.
Proof.
  induction l as [|j l IH]; intros records w w' rs Hi; cbn [interrupted] in Hi.
  { injection Hi as <- <-. exists []. rewrite app_nil_r. split; [done|constructor]. }
  apply io_bind_ok in Hi as (w1 & a & _ & Hi). case_bool_decide.
  - apply io_bind_ok in Hi as (w2 & now & _ & Hi). apply IH in Hi as (tl & -> & Htl). rewrite <- app_assoc.
    eexists. split; [done|]. by constructor.
  - by apply IH in Hi.
Qed.
Lemma interrupted_pages_adds run_id fuel : forall offset records w w' rs,
  interrupted_pages fuel run_id offset records w = (w', TOk rs) -> exists tl, rs = records ++ tl /\ attempts_only tl.
Proof.
  induction fuel as [|fuel IH]; intros offset records w w' rs Hi; cbn [interrupted_pages] in Hi; [done|].
  apply io_bind_ok in Hi as (w1 & page & _ & Hi). apply io_bind_ok in Hi as (w2 & rs1 & H1 & Hi).
  apply interrupted_adds in H1 as (tl & -> & Htl). case_match.
  - injection Hi as <- <-. eauto.
  - apply IH in Hi as (tl2 & -> & Htl2). rewrite <- app_assoc. eexists. split; [done|]. by apply Forall_app.
Qed.

(** The tables recovery does not write. *)
Definition kept (K : RecordKind) (w w' : RT) : Prop := forall i, kind_row K (rt_db w') i = kind_row K (rt_db w) i.
#[local] Instance kept_preorder K : PreOrder (kept K).
Proof. split; [done|]. intros a b c Hab Hbc i. by rewrite Hbc. Qed.
Lemma kept_store {X} K (m : M DB X) : MRows K (fun _ _ => False) m -> Always (kept K) (r_store m).
Proof.
  intros Hm w i. unfold r_store. specialize (Hm (rt_db w) i). destruct (m (rt_db w)) as [db r].
  by destruct Hm as [Hi|(? & ? & ? & _ & [])].
Qed.
Lemma kept_list K k run_id limit offset : Always (kept K) (r_list k run_id limit offset).
Proof. apply kept_store, mrows_list. Qed.
Lemma kept_now K : Always (kept K) now_string.
Proof. by intros w i. Qed.
Lemma kept_fresh K : Always (kept K) fresh_id.
Proof. by intros w i. Qed.
Lemma kept_commit K rs : Forall (fun rc => rc_kind rc <> K) rs -> Always (kept K) (r_commit rs).
Proof.
  intros Hrs. unfold r_commit. apply always_bind; [apply _|by intros w i|]. intros n. apply kept_store, mrows_commit.
  intros rc Hin Hk. rewrite Forall_forall in Hrs. by destruct (Hrs _ Hin).
Qed.
Lemma kept_interrupted K run_id l : forall records, Always (kept K) (interrupted run_id l records).
Proof.
  induction l as [|j l IH]; intros records; cbn [interrupted]; [by apply always_ret; apply _|].
  apply always_bind; [apply _|by apply always_lift; apply _|]. intros a. case_bool_decide; [|done].
  apply always_bind; [apply _|apply kept_now|]. intros now. apply IH.
Qed.
Lemma kept_pages K run_id fuel : forall offset records, Always (kept K) (interrupted_pages fuel run_id offset records).
Proof.
  induction fuel as [|fuel IH]; intros offset records; cbn [interrupted_pages]; [by apply always_lift; apply _|].
  apply always_bind; [apply _|apply kept_list|]. intros page.
  apply always_bind; [apply _|apply kept_interrupted|]. intros rs. case_match; [by apply always_ret; apply _|apply IH].
Qed.
Lemma recover_run_kept K j : K <> KRun -> K <> KEvent -> K <> KAttempt -> Always (kept K) (recover_interrupted j).
Proof.
  intros H1 H2 H3. unfold recover_interrupted. apply always_bind; [apply _|by apply always_lift; apply _|]. intros r.
  case_match; [by apply always_ret; apply _|]. case_match; [|case_match; [by apply always_ret; apply _|]].
  all: apply always_bind; [apply _|apply kept_now|]; intros now; apply always_bind; [apply _|apply kept_fresh|]; intros fresh;
    apply always_bind; [apply _|apply kept_now|]; intros stamp.
  - apply kept_commit. repeat constructor; simpl; congruence.
  - apply (always_bind_post _ (fun rs => Forall (fun rc => rc_kind rc <> K) rs)); [apply kept_pages| |apply kept_commit].
    intros w w1 rs (tl & -> & Htl)%interrupted_pages_adds. repeat (constructor; [simpl; congruence|]).
    eapply Forall_impl; [exact Htl|]. simpl. congruence.
Qed.
Lemma recover_pages_kept K fuel : K <> KRun -> K <> KEvent -> K <> KAttempt ->
  forall offset, Always (kept K) (recover_pages fuel offset).
Proof.
  intros H1 H2 H3. induction fuel as [|fuel IH]; intros offset; cbn [recover_pages]; [by apply always_lift; apply _|].
  apply always_bind; [apply _|apply kept_list|]. intros page. apply always_bind; [apply _| |].
  - apply always_iter; [apply _|]. intros j. by apply recover_run_kept.
  - intros _. case_match; [by apply always_ret; apply _|apply IH].
Qed.

(** One run moves along the table, and only that run. *)
Lemma same_interrupted run_id l : forall records, Always same (interrupted run_id l records).
Proof. induction l as [|j l IH]; intros records; cbn [interrupted]; stays; apply IH. Qed.
Lemma same_pages run_id fuel : forall offset records, Always same (interrupted_pages fuel run_id offset records).
Proof. induction fuel as [|fuel IH]; intros offset records; cbn [interrupted_pages]; stays; first [apply same_interrupted|apply IH]. Qed.
Lemma writes_commit r r' ev tl : id r' = id r -> state r' = state r -> rc_kind ev <> KRun -> attempts_only tl ->
  Always (writes r) (r_commit (run_record r' :: ev :: tl)).
Proof.
  intros Hi Hs Hev Htl. unfold r_commit. apply always_bind; [apply _|intros w; by apply same_writes, same_call|]. intros n.
  apply writes_store, mrows_commit. intros rc [->|[->|Hin]%elem_of_cons]%elem_of_cons Hk; [by apply wrote_run|done|].
  unfold attempts_only in Htl. rewrite Forall_forall in Htl. specialize (Htl _ Hin). congruence.
Qed.
Lemma recover_run_moved i row w : WF w -> run_row (rt_db w) i = Some row -> moved_run i w (recover_interrupted (row_body row) w).1.
Proof.
  intros Hwf Hrow. unfold recover_interrupted, mbind at 1, io_bind at 1, io_lift at 1.
  assert (Hrefl : moved_run i w w) by (apply same_moved_run; reflexivity).
  destruct (run_of_json (row_body row)) as [r|x] eqn:Hr; [|done].
  assert (Hid : id r = i). { destruct (Hwf _ _ Hrow) as [Hid _]. apply run_of_json_id in Hr. congruence. }
  assert (Hst : run_st w (id r) = Some (state r)). { unfold run_st. rewrite Hid, Hrow. by apply run_of_json_state. }
  assert (Hgo : forall to, moves (state r) to -> forall m : RIO unit, Always (writes (r <| state := to |>)) m -> moved_run i w (m w).1).
  { intros to Hto m Hm. rewrite <- Hid. change (moved_run (id (r <| state := to |>)) w (m w).1).
    apply writes_moved_run; [apply Hm|]. intros s Hs.
    change (id (r <| state := to |>)) with (id r) in Hs. rewrite Hst in Hs. by injection Hs as <-. }
  assert (Hsame : forall to {X} (m : RIO X), Always same m -> Always (writes (r <| state := to |>)) m)
    by (intros to X m Hm w0; by apply same_writes, Hm).
  destruct (terminal (state r)) eqn:Ht; [done|]. destruct (cancellation_requested r); [|destruct (resting (state r)) eqn:Hre; [done|]].
  - apply (Hgo Cancelled).
    { apply rtc_once. unfold valid_transition. rewrite Ht. by destruct (state r). }
    do 3 (apply always_bind; [apply _|apply Hsame; first [apply same_now|apply same_fresh]|]; intros ?).
    by apply writes_commit; [..|constructor].
  - apply (Hgo Paused).
    { destruct (state r); try discriminate; try (by apply rtc_once);
        (apply (rtc_l _ _ Running); [reflexivity|by apply rtc_once]). }
    do 3 (apply always_bind; [apply _|apply Hsame; first [apply same_now|apply same_fresh]|]; intros ?).
    eapply always_bind_post; [apply _|apply Hsame, same_pages|intros w1 w2 rs Hrs; exact (interrupted_pages_adds _ _ _ _ _ _ _ Hrs)|].
    intros rs (tl & -> & Htl). by apply writes_commit.
Qed.

Lemma recover_iter_moved rows : NoDup rows.*1 -> forall w, WF w ->
  (forall i row, (i, row) ∈ rows -> run_row (rt_db w) i = Some row) ->
  let w' := (io_iter recover_interrupted (map (fun kv => row_body kv.2) rows) w).1 in WF w' /\ advanced w w'.
Proof.
  induction rows as [|[i row] rows IH]; intros Hn w Hwf Hrows; cbn [map io_iter snd].
  { split; [done|]. intros i s Hs. exists s. split; [done|apply rtc_refl]. }
  simpl in Hn. apply NoDup_cons in Hn as [Hi Hn]. unfold mbind, io_bind.
  pose proof (recover_run_moved i row w Hwf (Hrows i row ltac:(by left))) as [HR HA HW HS].
  destruct (recover_interrupted (row_body row) w) as [w1 r1]. cbn [fst snd] in HR, HA, HW, HS.
  assert (Hadv : advanced w w1).
  { intros j s Hj. destruct (String.eqb_spec j i) as [->|Hne]; [by apply HS|]. exists s. unfold run_st.
    rewrite HR by done. split; [done|apply rtc_refl]. }
  destruct r1 as [u|x]; [|by split; [apply HW|]].
  destruct (IH Hn w1 (HW Hwf)) as [Hwf2 Hadv2].
  { intros j row' Hj. rewrite HR; [apply Hrows; by right|]. intros ->. apply Hi. apply list_elem_of_fmap. by exists (i, row'). }
  split; [done|]. intros j s Hj. destruct (Hadv j s Hj) as (s1 & H1 & M1). destruct (Hadv2 j s1 H1) as (s2 & H2 & M2).
  exists s2. split; [done|]. unfold moves in *. by etransitivity.
Qed.
Lemma recover_pages_moved fuel : forall offset w, WF w ->
  let w' := (recover_pages fuel offset w).1 in WF w' /\ advanced w w'.
Proof.
  assert (Hrefl : forall w, advanced w w) by (intros w i s Hs; exists s; split; [done|apply rtc_refl]).
  induction fuel as [|fuel IH]; intros offset w Hwf; cbn [recover_pages]; [by split|].
  unfold mbind, io_bind, r_list, r_store. destruct (list_records KRun "" run_page offset (rt_db w)) as [db [page|e]] eqn:Hl.
  2: { simpl. pose proof (same_list KRun "" run_page offset w) as Hs. unfold r_list, r_store in Hs. rewrite Hl in Hs. cbn [fst] in Hs.
       split; [by apply (mv_wf ∅ _ _ (same_moved _ _ _ Hs))|]. intros i s Hi. exists s.
       split; [|apply rtc_refl]. etransitivity; [apply (same_st _ _ i Hs)|done]. }
  pose proof Hl as [-> _]%list_records_ok. apply list_records_rows in Hl as (kvs & Hn & -> & Hk). rewrite with_same_db.
  destruct (recover_iter_moved kvs Hn w Hwf Hk) as [Hwf1 Hadv1]. cbn [of_res].
  destruct (io_iter recover_interrupted (map (fun kv => row_body kv.2) kvs) w) as [w1 [u|x]]; [|by split].
  cbn [fst] in *. case_match; [by split|]. destruct (IH (offset + run_page) w1 Hwf1) as [Hwf2 Hadv2]. split; [done|].
  intros j s Hj. destruct (Hadv1 j s Hj) as (s1 & H1 & M1). destruct (Hadv2 j s1 H1) as (s2 & H2 & M2).
  exists s2. split; [done|]. unfold moves in *. by etransitivity.
Qed.
End Safety.

(** A recovered run rests. *)
Lemma outcome_rests `{L : JsonLib} {HL : JsonLaws L} {E : RuntimeEnv} row row' : outcome row row' ->
  exists st, body_state (row_body row') = Some st /\ terminal st || resting st = true.
Proof.
  intros (r & Hr & Ho). destruct (terminal (state r)) eqn:Ht; [subst; exists (state r); split; [by apply run_of_json_state|by rewrite Ht]|].
  destruct (cancellation_requested r); [destruct Ho as (n & ->); exists Cancelled; split; [exact (run_body_state (cancelled_run r _))|done]|].
  destruct (resting (state r)) eqn:Hre; [subst; exists (state r); split; [by apply run_of_json_state|by rewrite Hre, orb_true_r]|].
  destruct Ho as (n & ->). exists Paused. split; [exact (run_body_state (paused_run r _))|done].
Qed.

(** C13: recovery at the start of a service.  On the history an earlier process left, however many pages
    it has, recovery returns.  Finished and resting runs are as they were; a run whose cancellation
    had been requested is cancelled; every other run is paused with the reason, and its unfinished
    attempts are marked as failed, while all other attempts are as they were.  No stored run
    is executing any more. *)
Theorem recovery_settles `{L : JsonLib} {HL : JsonLaws L} {E : RuntimeEnv} config w :
  coordinated config = false -> recoverable (rt_db w) ->
  exists w', recover_history config w = (w', TOk tt) /\ recovered (rt_db w) (rt_db w')
  /\ forall i row', tables (rt_db w') !! (KRun, i) = Some row' ->
       exists st, body_state (row_body row') = Some st /\ terminal st || resting st = true.
Proof.
  intros Hsingle Hok. unfold recover_history. rewrite Hsingle. pose proof (rv_runs _ Hok) as Hmax.
  destruct (recover_pages_ok (rt_db w) (Z.to_nat max_run_pages) Hok 0 w) as (w' & Hw' & Hs).
  - lia.
  - unfold max_run_pages, run_page. lia.
  - apply settled_start.
  - exists w'. apply settled_all in Hs. split_and!; [exact Hw'|done|]. intros i row' Hrow. destruct Hs as [Hr _]. specialize (Hr i).
    rewrite Hrow in Hr. inversion Hr as [row0 ? Ho|]; subst. by eapply outcome_rests.
Qed.

(** C29: recovery follows the life of runs.  Whatever the history holds, and also when recovery
    throws in the middle (a document that does not decode, a write the store refuses), the stored
    state of every run has moved along the transition table only, and no table besides the runs, the
    attempts and the events has changed: the sessions and their turns in particular. *)
Theorem recovery_advances `{L : JsonLib} {HL : JsonLaws L} `{Y : YamlLib} {E : RuntimeEnv} {HE : RuntimeEnvLaws E} config w w' x :
  WF w -> recover_history config w = (w', x) ->
  WF w' /\ advanced w w'
  /\ forall K i, K <> KRun -> K <> KEvent -> K <> KAttempt -> kind_row K (rt_db w') i = kind_row K (rt_db w) i.
Proof.
  intros Hwf Hr. assert (w' = (recover_history config w).1) as -> by (by rewrite Hr). clear Hr.
  unfold recover_history. case_match.
  - split_and!; [done| |done]. intros i s Hs. exists s. split; [done|apply rtc_refl].
  - destruct (recover_pages_moved (Z.to_nat max_run_pages) 0 w Hwf) as [H1 H2]. split_and!; [done..|].
    intros K i ? ? ?. by apply recover_pages_kept.
Qed.

(** ** A history *)

Lemma length_omap_le {A B} (f : A -> option B) l : (length (omap f l) <= length l)%nat.
Proof. induction l as [|x l IH]; [done|]. unfold omap in *. simpl. destruct (f x); simpl; lia. Qed.
Lemma select_rows_size db k i : (length (select_rows db k i) <= size (tables db))%nat.
Proof.
  unfold select_rows. rewrite (Permutation_length (merge_sort_Permutation _ _)). etransitivity; [apply length_filter|]. unfold rows_of.
  rewrite <- length_map_to_list. apply length_omap_le.
Qed.

Section Witness.
#[local] Existing Instances strict_json strict_json_laws sample_yaml sample_runtime_env sample_runtime_laws.

(** The process stopped while [r1] ran its second attempt and before [r2], whose cancellation had been
    requested, was cancelled; [r2] is the run of the open turn of a session. *)
Definition left_running : Run := (sample_run "r1") <| state := Running |>.
Definition left_cancelled : Run :=
  (((sample_run "r2") <| state := WaitingTool |>) <| cancellation_requested := true |>) <| session_id := "s1"%string |>.
Definition left_finished : Run := ((sample_run "r3") <| state := Completed |>) <| cancellation_requested := true |>.
Definition left_attempt (i : string) (st : NodeState) : NodeExecution :=
  ((new_attempt i "2026-01-01T00:00:00Z") <| a_run_id := "r1"%string |>) <| a_state := st |>.
Definition left_session : AgentSession := mkSession "s1" "p" "open" "" "" "t1" "r2" 1 2.
Definition left_tables : gmap (RecordKind * string) Row :=
  <[(KRun, "r1"%string) := mkRow "r1" (run_to_json left_running) 1]>
  (<[(KRun, "r2"%string) := mkRow "r2" (run_to_json left_cancelled) 2]>
  (<[(KRun, "r3"%string) := mkRow "r3" (run_to_json left_finished) 3]>
  (<[(KAttempt, "a1"%string) := mkRow "r1" (attempt_to_json (left_attempt "a1" NCompleted)) 1]>
  (<[(KAttempt, "a2"%string) := mkRow "r1" (attempt_to_json (left_attempt "a2" NRunning)) 2]>
  (<[(KAgentSession, "s1"%string) := mkRow "s1" (session_to_json left_session) 1]> ∅))))).
Definition left_rt : RT :=
  mkRT (mkCoord (empty_db <| tables := left_tables |>) 0 0 0) 0 ∅ ∅ ModeActive false false false [] [] [] [].

Lemma left_recoverable : recoverable (rt_db left_rt).
Proof.
  assert (Hruns : forall i row, tables (rt_db left_rt) !! (KRun, i) = Some row ->
    exists r, row = mkRow (id r) (run_to_json r) (row_sequence row) /\ i = id r
    /\ ((r = left_running /\ row_sequence row = 1) \/ (r = left_cancelled /\ row_sequence row = 2)
        \/ (r = left_finished /\ row_sequence row = 3))).
  { intros i row Hrow. change (left_tables !! (KRun, i) = Some row) in Hrow. unfold left_tables in Hrow.
    repeat (apply lookup_insert_Some in Hrow as [[Hk <-]|[_ Hrow]]; [solve [discriminate Hk
      |injection Hk as <-; exists left_running; refine (conj _ (conj eq_refl _)); [reflexivity|by left]
      |injection Hk as <-; exists left_cancelled; refine (conj _ (conj eq_refl _)); [reflexivity|by right; left]
      |injection Hk as <-; exists left_finished; refine (conj _ (conj eq_refl _)); [reflexivity|by right; right]]|]). by rewrite lookup_empty in Hrow. }
  split.
  - intros i row (r & -> & -> & Hr)%Hruns. destruct Hr as [[-> _]|[[-> _]|[-> _]]]; (split_and!; [done|done|]);
      eexists; (split_and!; [vm_compute; reflexivity|done|done]).
  - intros i row Hrow. change (left_tables !! (KAttempt, i) = Some row) in Hrow. unfold left_tables in Hrow.
    repeat (apply lookup_insert_Some in Hrow as [[Hk <-]|[_ Hrow]]; [solve [discriminate Hk
      |injection Hk as <-; split; [done|]; eexists; (split_and!; [vm_compute; reflexivity|done|done])]|]).
    by rewrite lookup_empty in Hrow.
  - intros i j row row' (r & _ & -> & Hr)%Hruns (r' & _ & -> & Hr')%Hruns Hseq.
    destruct Hr as [[-> ?]|[[-> ?]|[-> ?]]], Hr' as [[-> ?]|[[-> ?]|[-> ?]]]; first [done|lia].
  - transitivity (Z.of_nat (size left_tables)); [|vm_compute; discriminate]. apply inj_le. apply (select_rows_size (rt_db left_rt)).
  - intros i. transitivity (Z.of_nat (size left_tables)); [|vm_compute; discriminate]. apply inj_le. apply (select_rows_size (rt_db left_rt)).
  - by intros n.
Qed.
Lemma recovery_settles_witness :
  exists w', recover_history sample_config left_rt = (w', TOk tt) /\ recovered (rt_db left_rt) (rt_db w')
  /\ forall i row', tables (rt_db w') !! (KRun, i) = Some row' ->
       exists st, body_state (row_body row') = Some st /\ terminal st || resting st = true.
Proof. exact (recovery_settles sample_config left_rt eq_refl left_recoverable). Defined.

(** The states after recovery. *)
Definition recovered_left : RT := (recover_history sample_config left_rt).1.
Definition attempt_st (w : RT) (i : string) : option NodeState :=
  tables (rt_db w) !! (KAttempt, i) ≫= fun row =>
  match attempt_of_json (row_body row) with TOk a => Some (a_state a) | TThrow _ => None end.
Example recovered_states :
  (run_st recovered_left "r1", run_st recovered_left "r2", run_st recovered_left "r3",
   attempt_st recovered_left "a1", attempt_st recovered_left "a2")
  = (Some Paused, Some Cancelled, Some Completed, Some NCompleted, Some NFailed).
Proof. vm_compute. reflexivity. Qed.

Lemma left_wf : WF left_rt.
Proof.
  intros i row Hrow. destruct (rv_run _ left_recoverable _ _ Hrow) as (_ & _ & r & Hr & Hid & _). split.
  - rewrite <- Hid. by apply run_of_json_id.
  - exists (state r). by apply run_of_json_state.
Qed.
(** The session of the cancelled run still has it as its active run. *)
Lemma recovery_advances_witness :
  WF recovered_left /\ advanced left_rt recovered_left
  /\ kind_row KAgentSession (rt_db recovered_left) "s1" = Some (mkRow "s1" (session_to_json left_session) 1)
  /\ run_st recovered_left (active_run_id left_session) = Some Cancelled.
Proof.
  destruct (recovery_advances sample_config left_rt recovered_left (recover_history sample_config left_rt).2 left_wf)
    as (H1 & H2 & H3); [unfold recovered_left; by destruct (recover_history sample_config left_rt)|].
  split_and!; [done|done| |vm_compute; reflexivity]. rewrite H3 by done. vm_compute. reflexivity.
Defined.
End Witness.
