(* ===== verification/Registration.v ===== *)
(** * The pipeline registry

    [Service::register_pipeline], [pipeline_record], [resolve_pipeline] and [start] of
    [src/application/service.cpp].  A pipeline document is checked, its sub-pipeline references are
    pinned to revisions, the revisions it depends on are searched for recursion, and the revision
    is stored under [name@version] with an event.  The lemmas show that the search decides exactly
    whether the dependencies are closed and free of cycles, that the registry never holds a
    dependency that is missing or recursive, and that a stored revision does not change.

    The schema validator and the file system are parameters ([RegistryEnv]); the node types that
    plugins add are those of the runtime's configuration. *)

From S2P Require Import Prelude Json Types Samples Text Pipeline Yaml Db Coordination Codec Worker Store Rows Effects Runtime Lifecycle Recovery.
From Stdlib Require Import Ascii.

Class RegistryEnv := {
  (** [schemas_.validate_declaration(schema)] *)
  validate_declaration : string -> res unit;
  (** The contents of a regular file, when it can be opened; [None] for other paths. *)
  regular_file : string -> option (option string) }.

Definition read_document (contents : option string) : tres string :=
  match contents with
  | None => tthrow Configuration "Cannot open configuration file"
  | Some text =>
      if max_document_bytes <? size_of text then tthrow Validation "Configuration exceeds 1 MiB" else TOk text
  end.

(** ** Fingerprints *)

(** [std::hex] with [std::setw(16)] and the fill ['0']. *)
Definition definition_fingerprint (text : string) : string :=
  let digits := hex_digits 16 (fnv_hash text) [] in
  of_chars (replicate (16 - length digits) "0"%char ++ digits).
Example fingerprint_of_empty : definition_fingerprint "" = "14650fb0739d0383"%string.
Proof. vm_compute. reflexivity. Qed.

(** ** The search for recursion *)

Section Visit.
Context (dependencies_of : string -> tres (list string)).

(** [visit]: the sets are [active] and [visited]. *)
Definition Visiting : Type := gset string * gset string.
Fixpoint visit_each (rec : string -> Visiting -> tres Visiting) (l : list string) (st : Visiting) : tres Visiting :=
  match l with
  | [] => TOk st
  | child :: l => st ← rec child st; visit_each rec l st
  end.
Fixpoint visit_revision (fuel : nat) (revision : string) (st : Visiting) : tres Visiting :=
  match fuel with
  | O => TThrow TStd
  | S fuel =>
      let '(active, visited) := st in
      if bool_decide (revision ∈ active) then tthrow Validation "Recursive subpipeline dependency"
      else if bool_decide (revision ∈ visited) then TOk st
      else
        dependencies ← dependencies_of revision;
        '(active, visited) ← visit_each (visit_revision fuel) dependencies ({[revision]} ∪ active, {[revision]} ∪ visited);
        TOk (active ∖ {[revision]}, visited)
  end.
End Visit.

(** ** Records *)

Section Registration.
Context `{JsonLib} `{YamlLib} {E : RuntimeEnv} {G : RegistryEnv} (config : RuntimeConfig).

(** [nodes_.names()] *)
Definition extensions : gset string := node_types config.

Definition same_source (record : Json) (yaml : string) : bool :=
  match member record "yaml" with
  | Some (JString text) => String.eqb text yaml
  | _ => false
  end.

Fixpoint pipeline_pages (fuel : nat) (offset : Z) : RIO (list Json) :=
  match fuel with
  | O => io_throw StorageError "Pipeline registry is too large to inspect"
  | S fuel =>
      page ← r_list KPipeline "" page_size offset;
      if Z.of_nat (length page) <? page_size then mret page
      else rest ← pipeline_pages fuel (offset + page_size); mret (page ++ rest)
  end.
Definition all_pipeline_records : RIO (list Json) := pipeline_pages (Z.to_nat max_pages) 0.

(** A record that may be missing. *)
Definition find_pipeline (key : string) : RIO (option Json) :=
  io_catch (j ← r_get KPipeline key; mret (Some j))
    (fun e => if bool_decide (code e = NotFound) then mret None else io_lift (TThrow (TError e))).

Definition check_schema (schema : string) : tres unit :=
  if empty_str schema then TOk tt else of_res (validate_declaration schema).
Fixpoint check_node_schemas (l : list (string * NodeDefinition)) : tres unit :=
  match l with
  | [] => TOk tt
  | (_, node) :: l =>
      _ ← check_schema (n_input_schema node);
      _ ← check_schema (n_output_schema node);
      _ ← check_schema (schema node);
      check_node_schemas l
  end.
Definition check_schemas (p : PipelineDefinition) : tres unit :=
  _ ← check_schema (pl_input_schema p);
  _ ← check_schema (pl_output_schema p);
  check_node_schemas (map_items (nodes p)).

(** What the searches read of a record. *)
Definition rec_id (record : Json) : tres string := value_ dec_string record "id" ""%string.
Definition rec_name (record : Json) : tres string := value_ dec_string record "name" ""%string.
Definition rec_version (record : Json) : tres Z := value_ dec_unsigned record "version" 1.

Section Candidate.
Context (records : list Json) (p : PipelineDefinition).
Definition candidate_key : string := pipeline_reference (pl_name p) (pl_version p).

(** The versions of the revisions of a name; the candidate counts. *)
Fixpoint revisions_in (l : list Json) (name : string) : tres (list Json) :=
  match l with
  | [] => TOk []
  | record :: l =>
      n ← rec_name record;
      found ← revisions_in l name;
      TOk (if String.eqb n name then record :: found else found)
  end.
Definition candidate_revision : Json := mk_object
  [("id", JString candidate_key); ("name", JString (pl_name p)); ("version", JUnsigned (pl_version p));
   ("yaml", JString (pl_source p)); ("resolved_subpipelines", JObject [])]%string.
Definition revisions (name : string) : tres (list Json) :=
  found ← revisions_in records name;
  TOk (if String.eqb (pl_name p) name then found ++ [candidate_revision] else found).

(** Whether a record is the revision of an explicit reference. *)
Fixpoint registered (l : list Json) (resolved name : string) (version : Z) : tres bool :=
  match l with
  | [] => TOk false
  | record :: l =>
      i ← rec_id record;
      hit ← (if String.eqb i resolved then TOk true
             else n ← rec_name record;
                  if String.eqb n name then v ← rec_version record; TOk (v =? version) else TOk false);
      if (hit : bool) then TOk true else registered l resolved name version
  end.
Definition resolve_reference (reference : string) : tres string :=
  parsed ← of_res (parse_pipeline_reference reference);
  if explicit_version parsed then
    let resolved := pipeline_reference (r_name parsed) (r_version parsed) in
    if String.eqb resolved candidate_key then TOk resolved
    else
      hit ← registered records resolved (r_name parsed) (r_version parsed);
      if (hit : bool) then TOk resolved
      else tthrow NotFound "Referenced pipeline revision is not registered"
  else
    found ← revisions (r_name parsed);
    match found with
    | [] => tthrow NotFound "Referenced pipeline is not registered"
    | [record] => v ← rec_version record; TOk (pipeline_reference (r_name parsed) v)
    | _ => tthrow Conflict "Unversioned pipeline reference is ambiguous"
    end.

(** The pinned references of the sub-pipeline nodes, in the order of the nodes. *)
Fixpoint resolve_nodes (l : list (string * NodeDefinition)) (pinned : gmap string string)
    : tres (gmap string string) :=
  match l with
  | [] => TOk pinned
  | (node_id, node) :: l =>
      if String.eqb (n_type node) "subpipeline" then
        reference ← resolve_reference (binding node);
        resolve_nodes l (<[node_id := reference]> pinned)
      else resolve_nodes l pinned
  end.

(** The record of a revision: the last that matches. *)
Fixpoint find_revision (l : list Json) (revision : string) (found : option Json) : tres (option Json) :=
  match l with
  | [] => TOk found
  | item :: l =>
      i ← rec_id item;
      hit ← (if String.eqb i revision then TOk true
             else n ← rec_name item; v ← rec_version item; TOk (String.eqb (pipeline_reference n v) revision));
      find_revision l revision (if (hit : bool) then Some item else found)
  end.
Definition dependencies_of (pinned : gmap string string) (revision : string) : tres (list string) :=
  if String.eqb revision candidate_key then TOk (map snd (map_items pinned))
  else
    record ← find_revision records revision None;
    match record with
    | None => tthrow NotFound "Referenced pipeline revision is not registered"
    | Some record =>
        dependencies ← match member record "resolved_subpipelines" with
                       | Some j => dec_map dec_string j
                       | None =>
                           yaml ← at_ dec_string record "yaml";
                           child ← of_res (parse_pipeline yaml extensions);
                           resolve_nodes (map_items (nodes child)) ∅
                       end;
        TOk (map snd (map_items dependencies))
    end.
(** Every revision the search enters is the candidate or one of at most two names of a record. *)
Definition visit_fuel : nat := 2 * length records + 2.
End Candidate.

Definition revision_record (p : PipelineDefinition) (yaml : string) (pinned : gmap string string) (now : string) : Json :=
  mk_object
  [("id", JString (candidate_key p)); ("name", JString (pl_name p)); ("version", JUnsigned (pl_version p));
   ("laso", JUnsigned (schema_version p)); ("yaml", JString yaml);
   ("definition_fingerprint", JString (definition_fingerprint yaml));
   ("resolved_subpipelines", enc_map JString pinned); ("registered_at", JString now)]%string.
Definition registered_event (p : PipelineDefinition) (fresh stamp : string) : Event :=
  (((new_event fresh stamp) <| ev_pipeline_id := pl_name p |>)
     <| ev_metadata := mk_object [("pipeline_version"%string, JUnsigned (pl_version p))] |>)
     <| ev_type := "pipeline.registered"%string |>.

(** The revision is stored unless another registration of it won. *)
Definition store_revision (key yaml : string) (record : Json) (event : Event) : RIO Json :=
  won ← io_catch
    (_ ← r_commit [mkRecord KPipeline key "" record; mkRecord KEvent (ev_id event) "" (event_to_json event)]; mret None)
    (fun e =>
       if negb (bool_decide (code e = Conflict)) then io_lift (TThrow (TError e))
       else
         concurrent ← find_pipeline key;
         match concurrent with
         | Some j => if same_source j yaml then mret (Some j) else io_lift (TThrow (TError e))
         | None => io_lift (TThrow (TError e))
         end);
  match won with
  | Some concurrent => mret concurrent
  | None => _ ← publish event; mret record
  end.

(** One registration from its beginning to its end.  The code takes no mutex: another registration may store
    its revisions between the lookups and the commit, which [store_revision] is prepared for ([won]). *)
Definition register_pipeline (yaml : string) : RIO Json :=
  p ← io_lift (of_res (parse_pipeline yaml extensions));
  _ ← io_lift (check_schemas p);
  let key := candidate_key p in
  existing ← find_pipeline key;
  existing ← (match existing with
              | Some j => mret (Some j)
              | None => if pl_version p =? 1 then find_pipeline (pl_name p) else mret None
              end);
  match existing with
  | Some j => if same_source j yaml then mret j else io_throw Conflict "Pipeline revision is immutable"
  | None =>
      records ← all_pipeline_records;
      pinned ← io_lift (resolve_nodes records p (map_items (nodes p)) (pl_resolved_subpipelines p));
      _ ← io_lift (visit_revision (dependencies_of records p pinned) (visit_fuel records) key (∅, ∅));
      now ← now_string;
      fresh ← fresh_id;
      stamp ← now_string;
      store_revision key yaml (revision_record p yaml pinned now) (registered_event p fresh stamp)
  end.

(** ** Lookups *)

Fixpoint only_revision (name : string) (l : list Json) (found : option Json) : tres (option Json) :=
  match l with
  | [] => TOk found
  | record :: l =>
      n ← rec_name record;
      if negb (String.eqb n name) then only_revision name l found
      else match found with
           | Some _ => tthrow Conflict "Unversioned pipeline reference is ambiguous"
           | None => only_revision name l (Some record)
           end
  end.
Definition pipeline_record (reference : string) : RIO Json :=
  parsed ← io_lift (of_res (parse_pipeline_reference reference));
  if explicit_version parsed then
    io_catch (r_get KPipeline (pipeline_reference (r_name parsed) (r_version parsed)))
      (fun e => if negb (bool_decide (code e = NotFound)) then io_lift (TThrow (TError e))
                else if negb (r_version parsed =? 1) then io_lift (TThrow (TError e))
                else r_get KPipeline (r_name parsed))
  else
    direct ← find_pipeline (r_name parsed);
    match direct with
    | Some j => mret j
    | None =>
        records ← all_pipeline_records;
        found ← io_lift (only_revision (r_name parsed) records None);
        match found with
        | Some j => mret j
        | None => io_throw NotFound "Pipeline is not registered"
        end
    end.
(** The definition of a record, with its pinned references. *)
Definition definition_of (record : Json) : tres PipelineDefinition :=
  yaml ← at_ dec_string record "yaml";
  p ← of_res (parse_pipeline yaml extensions);
  match member record "resolved_subpipelines" with
  | Some j => pinned ← dec_map dec_string j; TOk (p <| pl_resolved_subpipelines := pinned |>)
  | None => TOk p
  end.
Definition resolve_pipeline (reference : string) : RIO PipelineDefinition :=
  record ← pipeline_record reference; io_lift (definition_of record).

(** [start]: a run of a registered pipeline, or of a document that is registered first. *)
Definition start (name_or_path : string) (input : Json) (actor : string) (allow_file : bool)
    (origin message_metadata : Json) : RIO string :=
  name ← (match if allow_file then regular_file name_or_path else None with
          | Some contents =>
              text ← io_lift (read_document contents);
              record ← register_pipeline text;
              io_lift (at_ dec_string record "id")
          | None => mret name_or_path
          end);
  p ← resolve_pipeline name;
  run config p input actor "" "" 0 "" origin message_metadata "" "" "" 0.
End Registration.

(** ** The search decides *)

Section Search.
Context (g : string -> tres (list string)).

(** The dependencies of a revision exist, and following them ends. *)
Inductive grounded (revision : string) : Prop :=
  grounded_intro ds : (g revision) = TOk ds -> Forall grounded ds -> grounded revision.
(** [target] is reached from [revision] in one step or more. *)
Inductive leads : string -> string -> Prop :=
  | leads_once a ds b : g a = TOk ds -> b ∈ ds -> leads a b
  | leads_step a ds b c : g a = TOk ds -> b ∈ ds -> leads b c -> leads a c.

Lemma grounded_ind' (P : string -> Prop) :
  (forall a ds, g a = TOk ds -> Forall grounded ds -> Forall P ds -> P a) -> forall a, grounded a -> P a.
Proof.
  intros HP. fix IH 2. intros a [ds Hg Hall]. apply (HP a ds Hg Hall).
  revert Hall. generalize ds. fix IHl 2. intros l [|x l' Hx Hl]; constructor; [by apply IH|by apply IHl].
Qed.
Lemma leads_trans a b c : leads a b -> leads b c -> leads a c.
Proof. induction 1; intros Hc; eapply leads_step; eauto. Qed.
Lemma grounded_acyclic a : grounded a -> ~ leads a a.
Proof.
  revert a. apply (grounded_ind' (fun a => ~ leads a a)). intros a ds Hg _ Hall Hl.
  assert (Hd : forall b, b ∈ ds -> ~ leads b b) by (by apply Forall_forall).
  inversion Hl as [? ds' ? Hg' Hin|? ds' b ? Hg' Hin Hb]; rewrite Hg in Hg'; injection Hg' as <-.
  - by apply (Hd a Hin).
  - apply (Hd b Hin). apply (leads_trans b a b Hb). by eapply leads_once.
Qed.

Lemma visit_active fuel : forall revision st st', visit_revision g fuel revision st = TOk st' ->
  st'.1 = st.1 /\ (revision ∉ st.1) /\ st.2 ⊆ st'.2 /\ revision ∈ st'.2.
Proof.
  induction fuel as [|fuel IH]; intros revision [a v] st' Hv; simpl in Hv; [done|].
  case_bool_decide as Ha; [done|]. case_bool_decide as Hvis; [injection Hv as <-; done|].
  apply tres_bind_ok in Hv as (ds & Hg & Hv). apply tres_bind_ok in Hv as ([a' v'] & Hd & [= <-]).
  assert (Heach : forall l st st', visit_each (visit_revision g fuel) l st = TOk st' -> st'.1 = st.1 /\ st.2 ⊆ st'.2).
  { intros l. induction l as [|c l IHl]; intros st st' Hl; simpl in Hl; [by injection Hl as <-|].
    apply tres_bind_ok in Hl as (st1 & (H1 & _ & H2 & _)%IH & (H3 & H4)%IHl). split; [congruence|set_solver]. }
  apply Heach in Hd as [Ha' Hv']. simpl in *. set_solver.
Qed.
(** Everything the search has left behind is grounded. *)
Definition finished_ok (st : Visiting) : Prop := forall x, x ∈ st.2 -> x ∉ st.1 -> grounded x.
Lemma search_sound fuel : forall revision st st', visit_revision g fuel revision st = TOk st' -> finished_ok st -> finished_ok st'.
Proof.
  induction fuel as [|fuel IH]; intros revision [a v] st' Hv Hf; simpl in Hv; [done|].
  case_bool_decide as Ha; [done|]. case_bool_decide as Hvis; [by injection Hv as <-|].
  apply tres_bind_ok in Hv as (ds & Hg & Hv). apply tres_bind_ok in Hv as ([a' v'] & Hd & [= <-]).
  assert (Heach : forall l st st', visit_each (visit_revision g fuel) l st = TOk st' -> finished_ok st ->
            st'.1 = st.1 /\ st.2 ⊆ st'.2 /\ finished_ok st' /\ Forall (fun c => c ∈ st'.2 /\ c ∉ st'.1) l).
  { intros l. induction l as [|c l IHl]; intros st st' Hl Hst; simpl in Hl; [by injection Hl as <-|].
    apply tres_bind_ok in Hl as (st1 & H1 & Hl). pose proof (IH _ _ _ H1 Hst) as Hf1.
    apply visit_active in H1 as (Ha1 & Hc1 & Hv1 & Hc2). apply IHl in Hl as (Ha2 & Hv2 & Hf2 & Hall); [|done].
    split_and!; [congruence|set_solver|done|]. constructor; [|done]. rewrite Ha2, Ha1. set_solver. }
  apply Heach in Hd as (Ha' & Hv' & Hf' & Hall).
  2: { intros x Hx1 Hx2. simpl in *. apply Hf; set_solver. }
  assert (Hn : grounded revision).
  { apply (grounded_intro _ ds Hg). eapply Forall_impl; [exact Hall|]. intros c [Hc1 Hc2]. by apply Hf'. }
  intros x Hx1 Hx2. simpl in *. destruct (String.eqb_spec x revision) as [->|Hne]; [done|]. apply Hf'; set_solver.
Qed.

(** With more steps than there are revisions, a grounded revision is searched to the end. *)
Lemma search_complete (U : gset string) : (forall n ds, g n = TOk ds -> n ∈ U) ->
  forall fuel n a v, grounded n -> n ∉ a -> (forall x, leads n x -> x ∉ a) -> (size (U ∖ a) < fuel)%nat ->
  exists st', visit_revision g fuel n (a, v) = TOk st'.
Proof.
  intros HU. induction fuel as [|fuel IH]; intros n a v Hn Ha Hl Hf; [lia|]. simpl.
  rewrite bool_decide_eq_false_2 by done. case_bool_decide as Hvis; [eauto|].
  pose proof (grounded_acyclic n Hn) as Hacyc. destruct Hn as [ds Hg Hds]. rewrite Hg. cbn [mbind tres_bind].
  assert (Hsize : (size (U ∖ ({[n]} ∪ a)) < fuel)%nat).
  { assert (Hlt : (size (U ∖ ({[n]} ∪ a)) < size (U ∖ a))%nat); [|lia]. apply subset_size.
    split; [set_solver|]. intros Hsub. specialize (Hsub n). pose proof (HU _ _ Hg). set_solver. }
  assert (Hkids : Forall (fun c => grounded c /\ (c ∉ ({[n]} ∪ a)) /\ (forall x, leads c x -> x ∉ ({[n]} ∪ a))) ds).
  { apply Forall_forall. intros c Hc. rewrite Forall_forall in Hds. split; [by apply Hds|].
    assert (Hnc : leads n c) by (by eapply leads_once). split.
    - intros [->%elem_of_singleton|Hca]%elem_of_union; [done|by apply (Hl c)].
    - intros x Hx. assert (Hnx : leads n x) by (by eapply leads_trans).
      intros [->%elem_of_singleton|Hxa]%elem_of_union; [done|by apply (Hl x)]. }
  clear Hds Hg. revert Hkids. generalize ({[n]} ∪ v). induction ds as [|c ds IHds]; intros v1 Hkids; simpl; [eauto|].
  apply Forall_cons in Hkids as [(Hc1 & Hc2 & Hc3) Hkids]. destruct (IH c _ v1 Hc1 Hc2 Hc3 Hsize) as ([a2 v2] & H2).
  rewrite H2. cbn [mbind tres_bind]. apply visit_active in H2 as (Ha2 & _). simpl in Ha2. subst a2. by apply IHds.
Qed.
Lemma visit_decides (U : gset string) fuel n : (forall n ds, g n = TOk ds -> n ∈ U) -> (size U < fuel)%nat ->
  (exists st, visit_revision g fuel n (∅, ∅) = TOk st) <-> grounded n.
Proof.
  intros HU Hf. split.
  - intros (st & Hv). pose proof (search_sound _ _ _ _ Hv) as Hs. apply visit_active in Hv as (Ha & _ & _ & Hn).
    apply Hs; [by intros x Hx|done|]. rewrite Ha. apply not_elem_of_empty.
  - intros Hn. apply (search_complete U); [done|done|apply not_elem_of_empty|intros; apply not_elem_of_empty|].
    by rewrite difference_empty_L.
Qed.
End Search.
