(* ===== verification/RegistrationClaims.v ===== *)
(** * The registry stays closed and acyclic

    What [Registration] promises to the runtime: every stored revision depends only on revisions that
    were stored before it, so the references a pipeline was pinned to exist and following them ends;
    a stored revision does not change; a document that registers is found again, with its pinned
    references. *)

From S2P Require Import Prelude Json Types Samples Text Pipeline Yaml Db Coordination Codec Worker Store Rows Effects Runtime Lifecycle Recovery Registration.

(** The subscribers of the bus do not write pipeline records. *)
Class RegistryLaws (E : RuntimeEnv) : Prop := {
  publish_pipelines : forall n e db i, tables (rt_publish n e db) !! (KPipeline, i) = tables db !! (KPipeline, i);
  publish_identity : forall n e db, identity (rt_publish n e db) !! KPipeline = identity db !! KPipeline }.

(** ** Reading *)

Section Reading.
Context `{L : JsonLib} {HL : JsonLaws L} `{Y : YamlLib} {E : RuntimeEnv} {G : RegistryEnv} (config : RuntimeConfig).

Definition pipeline_rows (db : DB) : list (string * Row) := select_rows db KPipeline "".
Definition pipeline_bodies (db : DB) : list Json := map (fun kv => row_body kv.2) (pipeline_rows db).

Lemma pipeline_pages_ok fuel : forall offset w w' rs, 0 <= offset -> pipeline_pages fuel offset w = (w', TOk rs) ->
  w' = w /\ rs = map (fun kv => row_body kv.2) (drop (Z.to_nat offset) (pipeline_rows (rt_db w))).
Proof.
  induction fuel as [|fuel IH]; intros offset w w' rs Ho Hp; cbn [pipeline_pages] in Hp; [done|].
  apply io_bind_ok in Hp as (w1 & page & H1 & Hp). unfold r_list, r_store in H1.
  destruct (list_records KPipeline "" page_size offset (rt_db w)) as [db r] eqn:Hl. injection H1 as <- Hr.
  apply of_res_ok in Hr as ->. apply list_records_ok in Hl as [-> ->]. rewrite with_same_db in Hp.
  fold (pipeline_rows (rt_db w)) in Hp. set (rows := drop (Z.to_nat offset) (pipeline_rows (rt_db w))) in *.
  rewrite length_map, length_take in Hp. assert (Hps : page_size = 10000) by reflexivity.
  destruct (Z.ltb_spec (Z.of_nat (Z.to_nat page_size `min` length rows)) page_size) as [Hs|Hs].
  - injection Hp as <- <-. split; [done|]. rewrite take_ge; [done|]. lia.
  - apply io_bind_ok in Hp as (w2 & rest & Hrest & [= <- <-]). apply IH in Hrest as [-> ->]; [|lia].
    split; [done|]. rewrite <- map_app. f_equal. unfold rows. rewrite Z2Nat.inj_add by lia.
    rewrite <- drop_drop. apply take_drop.
Qed.
Lemma all_records_ok w w' rs : all_pipeline_records w = (w', TOk rs) -> w' = w /\ rs = pipeline_bodies (rt_db w).
Proof. intros Ha. apply pipeline_pages_ok in Ha; [|done]. by rewrite drop_0 in Ha. Qed.
Lemma pipeline_pages_run fuel : forall (m : nat) w, Z.of_nat (length (pipeline_rows (rt_db w))) <= 100000000 ->
  Z.of_nat m * page_size <= Z.of_nat (length (pipeline_rows (rt_db w))) ->
  Z.of_nat (length (pipeline_rows (rt_db w))) < (Z.of_nat m + Z.of_nat fuel) * page_size ->
  exists rs, pipeline_pages fuel (Z.of_nat m * page_size) w = (w, TOk rs).
Proof.
  assert (Hps : page_size = 10000) by reflexivity.
  induction fuel as [|fuel IH]; intros m w Hmax Hlo Hhi; [lia|]. cbn [pipeline_pages]. unfold mbind at 1, io_bind at 1.
  rewrite list_run by lia. fold (pipeline_rows (rt_db w)). rewrite length_map, length_take, length_drop.
  destruct (Z.ltb_spec (Z.of_nat (Z.to_nat page_size `min` (length (pipeline_rows (rt_db w)) - Z.to_nat (Z.of_nat m * page_size)))) page_size) as [Hs|Hs];
    [by eexists|].
  replace (Z.of_nat m * page_size + page_size) with (Z.of_nat (S m) * page_size) by lia.
  destruct (IH (S m) w) as (rs & Hrs); [done|lia|lia|]. unfold mbind, io_bind. rewrite Hrs. by eexists.
Qed.
Lemma all_records_run w : Z.of_nat (length (pipeline_rows (rt_db w))) <= 100000000 ->
  all_pipeline_records w = (w, TOk (pipeline_bodies (rt_db w))).
Proof.
  intros Hmax. destruct (pipeline_pages_run (Z.to_nat max_pages) 0 w) as (rs & Hrs); [done|lia|unfold max_pages, page_size; lia|].
  assert (Ha : all_pipeline_records w = (w, TOk rs)) by exact Hrs. rewrite Ha. by apply all_records_ok in Ha as [_ ->].
Qed.

Lemma list_pure k run_id limit offset w : (r_list k run_id limit offset w).1 = w.
Proof.
  unfold r_list, r_store, list_records, m_bind, m_guard. destruct (_ || _); simpl; apply with_same_db.
Qed.
Lemma pages_pure fuel : forall offset w, (pipeline_pages fuel offset w).1 = w.
Proof.
  induction fuel as [|fuel IH]; intros offset w; [done|]. cbn [pipeline_pages]. unfold mbind, io_bind.
  pose proof (list_pure KPipeline "" page_size offset w) as Hl. destruct (r_list KPipeline "" page_size offset w) as [w1 [page|x]]; simpl in Hl; subst; [|done].
  case_match; [done|]. specialize (IH (offset + page_size) w). destruct (pipeline_pages fuel (offset + page_size) w) as [w2 [rs|x]]; done.
Qed.

(** [find_pipeline] reads a row. *)
Lemma get_run_pipeline key w : r_get KPipeline key w =
  (w, match tables (rt_db w) !! (KPipeline, key) with
      | Some row => TOk (row_body row)
      | None => TThrow (TError (err NotFound "Record not found"))
      end).
Proof.
  unfold r_get, r_store, get_record, store_tx, transaction, mbind, t_bind, select_row. cbn [fst snd].
  destruct (tables (rt_db w) !! (KPipeline, key)); cbn; rewrite ?with_same_db; [done|].
  f_equal. destruct w as [[[]]]. reflexivity.
Qed.
Lemma find_pipeline_run key w :
  find_pipeline key w = (w, TOk (row_body <$> tables (rt_db w) !! (KPipeline, key))).
Proof.
  unfold find_pipeline, io_catch, mbind, io_bind. rewrite get_run_pipeline.
  by destruct (tables (rt_db w) !! (KPipeline, key)).
Qed.
End Reading.

(** ** The invariant *)

Section Invariant.
Context `{L : JsonLib} {HL : JsonLaws L} `{Y : YamlLib} {E : RuntimeEnv} {G : RegistryEnv} (config : RuntimeConfig).

Definition row_at (db : DB) (i : string) (row : Row) : Prop := tables db !! (KPipeline, i) = Some row.
(** Every sub-pipeline node is pinned. *)
Definition pins (p : PipelineDefinition) (pinned : gmap string string) : Prop :=
  forall i node, nodes p !! i = Some node -> n_type node = "subpipeline"%string -> is_Some (pinned !! i).
(** A row written by a registration. *)
Definition revision_row (i : string) (row : Row) : Prop :=
  exists p yaml pinned now, parse_pipeline yaml (extensions config) = Ok p /\ i = candidate_key p
    /\ row_body row = revision_record p yaml pinned now /\ pins p pinned.
(** The revisions a row is pinned to. *)
Definition pinned_of (row : Row) : list string :=
  match member (row_body row) "resolved_subpipelines" with
  | Some j => match dec_map dec_string j with TOk m => map snd (map_items m) | TThrow _ => [] end
  | None => []
  end.
Record registry_ok (db : DB) : Prop := {
  ro_rows : forall i row, row_at db i row -> revision_row i row;
  ro_pinned : forall i row d, row_at db i row -> d ∈ pinned_of row ->
    exists row', row_at db d row' /\ row_sequence row' < row_sequence row;
  ro_count : forall i row, row_at db i row -> 0 < row_sequence row <= default 0 (identity db !! KPipeline);
  ro_identity : 0 <= default 0 (identity db !! KPipeline) }.

(** *** What a record says *)
Lemma parsed_facts yaml p : parse_pipeline yaml (extensions config) = Ok p ->
  identifier (pl_name p) = true /\ 1 <= pl_version p <= 1000000 /\ pl_source p = yaml.
Proof.
  intros Hp. apply parse_pipeline_ok, parse_pipeline_body_ok in Hp as (Hv & Hs & _ & _ & Hver & _).
  split_and!; [|lia..|done]. apply validate_pipeline_accepts in Hv as [Hl _]. apply Hl.
Qed.
Lemma dec_pinned (m : gmap string string) : dec_map dec_string (enc_map JString m) = TOk m.
Proof. apply dec_map_of. intros k v _. apply dec_string_of. Qed.
Section Record.
Context (p : PipelineDefinition) (yaml : string) (pinned : gmap string string) (now : string).
Let j := revision_record p yaml pinned now.
Lemma record_id : rec_id j = TOk (candidate_key p).
Proof. apply dec_string_of. Qed.
Lemma record_name : rec_name j = TOk (pl_name p).
Proof. apply dec_string_of. Qed.
Lemma record_version : 1 <= pl_version p <= 1000000 -> rec_version j = TOk (pl_version p).
Proof.
  intros Hv. change (rec_version j) with (dec_unsigned (JUnsigned (pl_version p))). apply dec_unsigned_of. unfold fits32, u32_max. lia.
Qed.
Lemma record_source : same_source j yaml = true.
Proof. apply String.eqb_refl. Qed.
Lemma record_pinned rid seq : pinned_of (mkRow rid j seq) = map snd (map_items pinned).
Proof.
  unfold pinned_of. change (member (row_body (mkRow rid j seq)) "resolved_subpipelines") with (Some (enc_map JString pinned)).
  cbv beta iota. by rewrite dec_pinned.
Qed.
Lemma record_definition : parse_pipeline yaml (extensions config) = Ok p ->
  definition_of config j = TOk (p <| pl_resolved_subpipelines := pinned |>).
Proof.
  intros Hp. unfold definition_of. change (at_ dec_string j "yaml") with (dec_string (JString yaml)). rewrite dec_string_of.
  cbn [mbind tres_bind]. rewrite Hp. cbn [of_res mbind tres_bind].
  change (member j "resolved_subpipelines") with (Some (enc_map JString pinned)). cbv beta iota. by rewrite dec_pinned.
Qed.
End Record.

(** The key of a revision determines its name and version. *)
Lemma key_inj n v n' v' : identifier n = true -> 1 <= v <= 1000000 -> identifier n' = true -> 1 <= v' <= 1000000 ->
  pipeline_reference n v = pipeline_reference n' v' -> n = n' /\ v = v'.
Proof.
  intros Hn Hv Hn' Hv' Heq. pose proof (pipeline_reference_roundtrip n v Hn Hv) as H1.
  pose proof (pipeline_reference_roundtrip n' v' Hn' Hv') as H2. rewrite Heq, H2 in H1. by simplify_eq.
Qed.

(** *** The searches over the stored records *)
Lemma elem_of_pipeline_rows db i row : (i, row) ∈ pipeline_rows db <-> row_at db i row.
Proof. unfold pipeline_rows. rewrite elem_of_select_rows. unfold row_at. naive_solver. Qed.
Definition good_rows (rows : list (string * Row)) : Prop := Forall (fun kv => revision_row kv.1 kv.2) rows.
Lemma registry_rows db : registry_ok db -> good_rows (pipeline_rows db).
Proof. intros Hok. apply Forall_forall. intros [i row] Hin%elem_of_pipeline_rows. by apply (ro_rows _ Hok). Qed.
Lemma revision_facts i row : revision_row i row -> exists n v, identifier n = true /\ 1 <= v <= 1000000
  /\ i = pipeline_reference n v /\ rec_id (row_body row) = TOk i /\ rec_name (row_body row) = TOk n
  /\ rec_version (row_body row) = TOk v.
Proof.
  intros (p & yaml & pinned & now & Hp & -> & -> & _). apply parsed_facts in Hp as (Hn & Hv & _).
  exists (pl_name p), (pl_version p). split_and!; [done|lia..|done|apply record_id|apply record_name|by apply record_version].
Qed.

Lemma find_revision_none rows rev : good_rows rows -> (rev ∉ rows.*1) -> forall found,
  find_revision (map (fun kv => row_body kv.2) rows) rev found = TOk found.
Proof.
  induction rows as [|[i row] rows IH]; intros Hr Hn found; [done|]. apply Forall_cons in Hr as [Hi Hr].
  apply not_elem_of_cons in Hn as [Hne Hn]. destruct (revision_facts _ _ Hi) as (n & v & _ & _ & Hkey & Hid & Hnm & Hv).
  cbn [map find_revision snd]. simpl in *. rewrite Hid. cbn [mbind tres_bind]. destruct (String.eqb_spec i rev) as [|_]; [congruence|].
  rewrite Hnm. cbn [mbind tres_bind]. rewrite Hv. cbn [mbind tres_bind]. rewrite <- Hkey.
  destruct (String.eqb_spec i rev) as [|_]; [congruence|]. cbn [mbind tres_bind]. by apply IH.
Qed.
Lemma find_revision_some rows rev row : good_rows rows -> NoDup rows.*1 -> (rev, row) ∈ rows -> forall found,
  find_revision (map (fun kv => row_body kv.2) rows) rev found = TOk (Some (row_body row)).
Proof.
  induction rows as [|[i row0] rows IH]; intros Hr Hn Hin found; [by apply elem_of_nil in Hin|].
  apply Forall_cons in Hr as [Hi Hr]. simpl in Hn. apply NoDup_cons in Hn as [Hni Hn].
  destruct (revision_facts _ _ Hi) as (n & v & _ & _ & Hkey & Hid & Hnm & Hv). simpl in *.
  rewrite Hid. cbn [mbind tres_bind]. apply elem_of_cons in Hin as [[= <- <-]|Hin].
  - rewrite String.eqb_refl. cbn [mbind tres_bind]. by apply find_revision_none.
  - destruct (String.eqb_spec i rev) as [->|Hne].
    + exfalso. apply Hni, list_elem_of_fmap. by exists (rev, row).
    + rewrite Hnm. cbn [mbind tres_bind]. rewrite Hv. cbn [mbind tres_bind]. rewrite <- Hkey.
      destruct (String.eqb_spec i rev) as [|_]; [congruence|]. cbn [mbind tres_bind]. by apply IH.
Qed.
Lemma registered_rows rows n v : good_rows rows -> identifier n = true -> 1 <= v <= 1000000 ->
  registered (map (fun kv => row_body kv.2) rows) (pipeline_reference n v) n v
  = TOk (bool_decide (pipeline_reference n v ∈ rows.*1)).
Proof.
  intros Hr Hn Hv. induction rows as [|[i row] rows IH]; [done|]. apply Forall_cons in Hr as [Hi Hr].
  destruct (revision_facts _ _ Hi) as (n' & v' & Hn' & Hv' & Hkey & Hid & Hnm & Hver). simpl in *.
  rewrite Hid. cbn [mbind tres_bind]. destruct (String.eqb_spec i (pipeline_reference n v)) as [->|Hne].
  { cbn [mbind tres_bind]. rewrite bool_decide_eq_true_2; [done|]. by left. }
  rewrite Hnm. cbn [mbind tres_bind]. rewrite (bool_decide_ext _ (pipeline_reference n v ∈ rows.*1)).
  2: { rewrite elem_of_cons. naive_solver. }
  destruct (String.eqb_spec n' n) as [->|Hnn]; [|by apply IH]. rewrite Hver. cbn [mbind tres_bind].
  destruct (Z.eqb_spec v' v) as [->|Hvv]; [done|by apply IH].
Qed.
Lemma revisions_rows rows n : good_rows rows ->
  exists rs, revisions_in (map (fun kv => row_body kv.2) rows) n = TOk rs
  /\ forall j, j ∈ rs -> exists i row, (i, row) ∈ rows /\ j = row_body row /\ rec_name j = TOk n.
Proof.
  induction rows as [|[i row] rows IH]; intros Hr; [exists []; split; [done|by intros j []%elem_of_nil]|].
  apply Forall_cons in Hr as [Hi Hr]. destruct (IH Hr) as (rs & Hrs & Hin).
  destruct (revision_facts _ _ Hi) as (n' & v' & _ & _ & _ & _ & Hnm & _). simpl in *. rewrite Hnm. cbn [mbind tres_bind].
  rewrite Hrs. cbn [mbind tres_bind]. eexists. split; [reflexivity|]. intros j.
  destruct (String.eqb_spec n' n) as [->|_].
  - intros [->|Hj]%elem_of_cons; [exists i, row; split_and!; [by left|done..]|]. destruct (Hin j Hj) as (a & b & ? & ?). exists a, b. split; [by right|done].
  - intros Hj. destruct (Hin j Hj) as (a & b & ? & ?). exists a, b. split; [by right|done].
Qed.

(** A reference that resolves names the candidate or a stored revision. *)
Definition known (db : DB) (p : PipelineDefinition) (x : string) : Prop := x = candidate_key p \/ exists row, row_at db x row.
Lemma resolve_reference_known db p reference x : registry_ok db -> identifier (pl_name p) = true -> 1 <= pl_version p <= 1000000 ->
  resolve_reference (pipeline_bodies db) p reference = TOk x -> known db p x.
Proof.
  intros Hok Hname Hver Hx. pose proof (registry_rows db Hok) as Hrows. unfold resolve_reference in Hx.
  apply tres_bind_ok in Hx as (parsed & Hp & Hx). apply of_res_ok, parse_reference_inv in Hp as [Hid Hcase].
  destruct (explicit_version parsed) eqn:Hex.
  - destruct Hcase as [[_ Hv]|[? _]]; [|done]. destruct (String.eqb_spec (pipeline_reference (r_name parsed) (r_version parsed)) (candidate_key p)) as [Heq|Hne].
    { injection Hx as <-. by left. }
    unfold pipeline_bodies in Hx. rewrite registered_rows in Hx by (done || lia). cbn [mbind tres_bind] in Hx.
    case_bool_decide as Hin; [|done]. injection Hx as <-. right. apply list_elem_of_fmap in Hin as ([i row] & -> & Hin).
    exists row. by apply elem_of_pipeline_rows.
  - apply tres_bind_ok in Hx as (found & Hf & Hx). unfold revisions in Hf.
    destruct (revisions_rows (pipeline_rows db) (r_name parsed) Hrows) as (rs & Hrs & Hin).
    unfold pipeline_bodies in Hf. rewrite Hrs in Hf. cbn [mbind tres_bind] in Hf. injection Hf as <-.
    assert (Hone : forall j, j ∈ (if String.eqb (pl_name p) (r_name parsed) then rs ++ [candidate_revision p] else rs) ->
              forall v, rec_version j = TOk v -> known db p (pipeline_reference (r_name parsed) v)).
    { intros j Hj v Hv. assert (Hj' : j ∈ rs \/ (pl_name p = r_name parsed /\ j = candidate_revision p)).
      { destruct (String.eqb_spec (pl_name p) (r_name parsed)); [|by left]. apply elem_of_app in Hj as [?|?%list_elem_of_singleton]; auto. }
      destruct Hj' as [Hj'|[Hn ->]].
      - destruct (Hin j Hj') as (i & row & Hrow & -> & Hnm). apply elem_of_pipeline_rows in Hrow. right. exists row.
        destruct (revision_facts _ _ (ro_rows _ Hok _ _ Hrow)) as (n & v0 & _ & _ & Hkey & _ & Hnm' & Hver').
        rewrite Hnm in Hnm'. rewrite Hv in Hver'. injection Hnm' as ->. injection Hver' as ->. by rewrite <- Hkey.
      - left. change (rec_version (candidate_revision p)) with (dec_unsigned (JUnsigned (pl_version p))) in Hv.
        rewrite dec_unsigned_of in Hv by (unfold fits32, u32_max; lia). injection Hv as <-. unfold candidate_key. congruence. }
    destruct (if String.eqb (pl_name p) (r_name parsed) then rs ++ [candidate_revision p] else rs) as [|j [|? ?]]; [done| |done].
    apply tres_bind_ok in Hx as (v & Hv & [= <-]). apply (Hone j); [by left|done].
Qed.
Lemma resolve_nodes_known db p l : registry_ok db -> identifier (pl_name p) = true -> 1 <= pl_version p <= 1000000 ->
  forall pinned pinned', resolve_nodes (pipeline_bodies db) p l pinned = TOk pinned' ->
  map_Forall (fun _ x => known db p x) pinned -> map_Forall (fun _ x => known db p x) pinned'.
Proof.
  intros Hok Hn Hv. induction l as [|[i node] l IH]; intros pinned pinned' Hr Hp; simpl in Hr; [by injection Hr as <-|].
  destruct (String.eqb (n_type node) "subpipeline"); [|by eapply IH].
  apply tres_bind_ok in Hr as (x & Hx & Hr). eapply IH; [exact Hr|]. apply map_Forall_insert_2; [|done].
  by eapply resolve_reference_known.
Qed.

End Invariant.

(** ** The search *)

Section Universe.
Context `{L : JsonLib} `{Y : YamlLib} (config : RuntimeConfig).

(** The revisions a record can be entered as. *)
Definition names_of (record : Json) : list string :=
  match rec_id record with TOk i => [i] | TThrow _ => [] end
  ++ match rec_name record, rec_version record with TOk n, TOk v => [pipeline_reference n v] | _, _ => [] end.
Definition universe (records : list Json) (p : PipelineDefinition) : gset string :=
  list_to_set (candidate_key p :: flat_map names_of records).
Lemma size_list_le (l : list string) : (size (list_to_set l : gset string) <= length l)%nat.
Proof.
  induction l as [|x l IH]; [done|]. cbn [list_to_set length]. rewrite size_union_alt, size_singleton.
  assert ((size ((list_to_set l : gset string) ∖ {[x]}) <= size (list_to_set l : gset string))%nat); [|lia].
  apply subseteq_size. set_solver.
Qed.
Lemma universe_size records p : (size (universe records p) < visit_fuel records)%nat.
Proof.
  unfold universe, visit_fuel. apply (Nat.le_lt_trans _ (S (length (flat_map names_of records)))); [apply (size_list_le (candidate_key p :: _))|].
  assert (H : (length (flat_map names_of records) <= 2 * length records)%nat); [|simpl; lia].
  induction records as [|j records IH]; [done|]. cbn [flat_map length]. rewrite length_app.
  assert ((length (names_of j) <= 2)%nat); [|lia]. unfold names_of. repeat case_match; simpl; lia.
Qed.
Lemma find_revision_in l rev : forall found record, find_revision l rev found = TOk (Some record) ->
  found = Some record \/ rev ∈ flat_map names_of l.
Proof.
  induction l as [|j l IH]; intros found record Hf; simpl in Hf; [injection Hf as ->; by left|].
  apply tres_bind_ok in Hf as (i & Hi & Hf). apply tres_bind_ok in Hf as (hit & Hh & Hf). cbn [flat_map].
  rewrite elem_of_app. destruct hit.
  - right. left. unfold names_of. rewrite Hi. destruct (String.eqb_spec i rev) as [->|_]; [by left|].
    apply tres_bind_ok in Hh as (n & Hn & Hh). apply tres_bind_ok in Hh as (v & Hv & [= Hh]). rewrite Hn, Hv.
    apply String.eqb_eq in Hh as ->. apply elem_of_app. right. by left.
  - apply IH in Hf as [?|?]; [by left|by right; right].
Qed.
Lemma dependencies_universe records p pinned n ds : dependencies_of config records p pinned n = TOk ds -> n ∈ universe records p.
Proof.
  unfold dependencies_of, universe. rewrite elem_of_list_to_set, elem_of_cons.
  destruct (String.eqb_spec n (candidate_key p)) as [->|_]; [by left|]. intros Hd.
  apply tres_bind_ok in Hd as ([record|] & Hf & Hd); [|done]. right. apply find_revision_in in Hf as [?|?]; done.
Qed.
End Universe.

Section Grounded.
Context `{L : JsonLib} {HL : JsonLaws L} `{Y : YamlLib} (config : RuntimeConfig).

(** On the records of a registry: the search returns unless the candidate is pinned to itself. *)
Lemma stored_grounded db p pinned : registry_ok config db -> (forall row, ~ row_at db (candidate_key p) row) ->
  forall i row, row_at db i row -> grounded (dependencies_of config (pipeline_bodies db) p pinned) i.
Proof.
  intros Hok Hnew. assert (Hall : forall n : nat, forall i row, row_at db i row -> row_sequence row <= Z.of_nat n ->
    grounded (dependencies_of config (pipeline_bodies db) p pinned) i).
  { induction n as [|n IH]; intros i row Hrow Hseq; [pose proof (ro_count _ _ Hok _ _ Hrow); lia|].
    apply (grounded_intro _ _ (pinned_of row)).
    - unfold dependencies_of. destruct (String.eqb_spec i (candidate_key p)) as [->|_]; [by apply Hnew in Hrow|].
      unfold pipeline_bodies. rewrite (find_revision_some config _ i row) by (by apply registry_rows || by apply elem_of_pipeline_rows || apply select_rows_nodup).
      cbn [mbind tres_bind]. destruct (ro_rows _ _ Hok _ _ Hrow) as (p' & yaml & pinned' & now & _ & _ & Hbody & _).
      unfold pinned_of. rewrite Hbody. change (member (revision_record p' yaml pinned' now) "resolved_subpipelines") with (Some (enc_map JString pinned')).
      cbv beta iota. by rewrite dec_pinned.
    - apply Forall_forall. intros d Hd. destruct (ro_pinned _ _ Hok _ _ _ Hrow Hd) as (row' & Hrow' & Hlt). apply (IH d row' Hrow'). lia. }
  intros i row Hrow. apply (Hall (Z.to_nat (row_sequence row)) i row Hrow). lia.
Qed.
Lemma candidate_grounded db p pinned : registry_ok config db -> (forall row, ~ row_at db (candidate_key p) row) ->
  map_Forall (fun _ x => known db p x) pinned ->
  grounded (dependencies_of config (pipeline_bodies db) p pinned) (candidate_key p) <-> map_Forall (fun _ x => x <> candidate_key p) pinned.
Proof.
  intros Hok Hnew Hknown. assert (Hds : dependencies_of config (pipeline_bodies db) p pinned (candidate_key p) = TOk (map snd (map_items pinned)))
    by (unfold dependencies_of; by rewrite String.eqb_refl). split.
  - intros Hg i x Hx ->. apply (grounded_acyclic _ _ Hg). eapply leads_once; [exact Hds|].
    apply list_elem_of_fmap. exists (i, candidate_key p). split; [done|]. by apply elem_of_map_items.
  - intros Hne. apply (grounded_intro _ _ _ Hds). apply Forall_forall. intros d ([i x] & -> & Hx)%list_elem_of_fmap.
    apply elem_of_map_items in Hx. destruct (Hknown i x Hx) as [->|(row & Hrow)]; [by destruct (Hne i _ Hx)|].
    by eapply stored_grounded.
Qed.
End Grounded.

(** ** Storing a revision *)

Section Storing.
Context `{L : JsonLib} {E : RuntimeEnv} {HR : RegistryLaws E}.

Definition identity_of (db : DB) : Z := default 0 (identity db !! KPipeline).
(** No pipeline record changes; the identity column may advance. *)
Definition untouched (db db' : DB) : Prop :=
  (forall i, tables db' !! (KPipeline, i) = tables db !! (KPipeline, i)) /\ identity_of db <= identity_of db'.
(** One revision is added, as the next row. *)
Definition added (key : string) (record : Json) (db db' : DB) : Prop :=
  tables db !! (KPipeline, key) = None
  /\ tables db' !! (KPipeline, key) = Some (mkRow "" record (identity_of db + 1))
  /\ (forall i, i <> key -> tables db' !! (KPipeline, i) = tables db !! (KPipeline, i))
  /\ identity_of db' = identity_of db + 1.

Lemma write_record_cases f n r db : (write_record f n r db).1 = db \/
  write_record f n r db = upsert (rc_kind r) (rc_id r) (rc_run_id r) (rc_value r) db.
Proof.
  assert (Hpure : forall A (m : T A) (k : A -> T unit), pure_t m ->
    (forall a, (k a db).1 = db \/ k a db = upsert (rc_kind r) (rc_id r) (rc_run_id r) (rc_value r) db) ->
    (@mbind T t_bind A unit k m db).1 = db \/ @mbind T t_bind A unit k m db = upsert (rc_kind r) (rc_id r) (rc_run_id r) (rc_value r) db).
  { intros A m k Hm Hk. unfold mbind, t_bind. destruct (m db) as [d [a|x]] eqn:Hmd; apply Hm in Hmd as ->; [apply Hk|by left]. }
  unfold write_record. repeat (apply Hpure; [first [apply pure_guard|apply pure_serialize
    |case_match; first [apply pure_check_pipeline|apply pure_check_job|apply pure_check_work|apply pure_ret]]|intros ?]).
  case_match; [by left|by right].
Qed.

Lemma commit_pair_cases f n key record ev db db' x : ev.(rc_kind) = KEvent -> tables db !! (KPipeline, key) = None ->
  commit f n [mkRecord KPipeline key "" record; ev] db = (db', x) ->
  match x with Ok _ => added key record db db' | Throw _ => untouched db db' end.
Proof.
  intros Hev Hnone Hc. unfold commit, store_tx, transaction in Hc.
  destruct (write_records f n [mkRecord KPipeline key "" record; ev] db) as [d r] eqn:Hw.
  assert (Hid : identity_of db <= identity_of d /\ match r with TOk _ => added key record db d | TThrow _ => True end).
  { unfold write_records in Hw. cbn [t_iter] in Hw. unfold mbind, t_bind in Hw.
    assert (Hup : forall d1 d2 y, write_record f n ev d1 = (d2, y) ->
              identity_of d2 = identity_of d1 /\ forall i, tables d2 !! (KPipeline, i) = tables d1 !! (KPipeline, i)).
    { intros d1 d2 y H2. destruct (write_record_cases f n ev d1) as [Heq|Heq]; rewrite H2 in Heq; [simpl in Heq; by subst|].
      rewrite upsert_spec, Hev in Heq. injection Heq as -> _. unfold identity_of. simpl.
      split; [by rewrite lookup_insert_ne|]. intros i. by rewrite lookup_insert_ne. }
    set (rc := mkRecord KPipeline key "" record) in *.
    destruct (write_record f n rc db) as [d1 [u|y]] eqn:H1.
    - assert (Hadd : added key record db d1).
      { apply write_record_ok in H1 as Hok. destruct Hok as (_ & _ & _ & _ & _ & _ & [(? & _)|(_ & seq & Ht & _)]); [done|].
        destruct (write_record_cases f n rc db) as [Heq|Heq]; rewrite H1 in Heq.
        { simpl in Heq. subst d1. exfalso. apply (f_equal (fun t => t !! (KPipeline, key))) in Ht. simpl in Ht.
          by rewrite lookup_insert_eq, Hnone in Ht. }
        rewrite upsert_spec in Heq. injection Heq as -> _. split_and!; [done| | |].
        - simpl. rewrite lookup_insert_eq, Hnone. done.
        - intros i Hi. simpl. rewrite lookup_insert_ne; [done|]. congruence.
        - unfold identity_of. simpl. by rewrite lookup_insert_eq. }
      destruct (write_record f n ev d1) as [d2 [u2|y2]] eqn:H2; apply Hup in H2 as [Hi2 Ht2]; injection Hw as <- <-.
      + destruct Hadd as (Ha & Hb & Hc' & Hd). split; [lia|]. split_and!; [done|by rewrite Ht2| |congruence].
        intros i Hi. rewrite Ht2. by apply Hc'.
      + split; [|done]. destruct Hadd as (_ & _ & _ & Hd). lia.
    - injection Hw as <- <-. split; [|done]. destruct (write_record_cases f n rc db) as [Heq|Heq]; rewrite H1 in Heq; [|by rewrite upsert_spec in Heq].
      simpl in Heq. by subst. }
  destruct Hid as [Hle Hr]. destruct r as [u|y]; injection Hc as <- <-; [done|]. split; [done|exact Hle].
Qed.

Lemma store_revision_cases key yaml record event w w' x : tables (rt_db w) !! (KPipeline, key) = None ->
  store_revision key yaml record event w = (w', x) ->
  match x with
  | TOk j => j = record /\ added key record (rt_db w) (rt_db w')
  | TThrow _ => untouched (rt_db w) (rt_db w')
  end.
Proof.
  intros Hnone Hs. unfold store_revision, mbind, io_bind, io_catch in Hs.
  unfold r_commit, mbind, io_bind, r_call, r_store in Hs. cbn [fst snd] in Hs.
  change (rt_db (w <| rt_calls := S (rt_calls w) |>)) with (rt_db w) in Hs.
  match type of Hs with context [commit ?f ?n ?rs (rt_db w)] => destruct (commit f n rs (rt_db w)) as [db' r] eqn:Hc end.
  apply commit_pair_cases in Hc; [|done|done]. destruct r as [u|e]; cbn [of_res mret io_ret] in Hs.
  - unfold publish in Hs. injection Hs as <- <-. split; [done|]. destruct Hc as (H1 & H2 & H3 & H4).
    match goal with |- added _ _ _ (rt_db ?v) => set (w2 := v) end.
    assert (Ht : forall i, tables (rt_db w2) !! (KPipeline, i) = tables db' !! (KPipeline, i)) by (intros i; apply publish_pipelines).
    assert (Hi : identity_of (rt_db w2) = identity_of db') by (unfold identity_of; f_equal; apply publish_identity).
    split_and!; [done|by rewrite Ht| |by rewrite Hi]. intros i Hne. rewrite Ht. by apply H3.
  - cbn [error_of] in Hs. destruct (bool_decide (code e = Conflict)); cbn [negb] in Hs.
    2: { injection Hs as <- <-. exact Hc. }
    rewrite find_pipeline_run in Hs. destruct Hc as [Ht Hi]. pose proof (Ht key) as Hk.
    change (tables (rt_db (with_db db' (w <| rt_calls := S (rt_calls w) |>))) !! (KPipeline, key)) with (tables db' !! (KPipeline, key)) in Hs.
    rewrite Hk, Hnone in Hs. injection Hs as <- <-. by split.
Qed.
End Storing.

(** ** Registration *)

Section Registering.
Context `{L : JsonLib} {HL : JsonLaws L} `{Y : YamlLib} {E : RuntimeEnv} {HR : RegistryLaws E} {G : RegistryEnv} (config : RuntimeConfig).

Lemma parsed_unpinned yaml p ext : parse_pipeline yaml ext = Ok p -> pl_resolved_subpipelines p = ∅.
Proof.
  intros Hp%parse_pipeline_ok. unfold parse_pipeline_body in Hp. e_inv.
  destruct (map_pairs _) as [ns|]; [|done]. destruct (sequence_items _) as [es|]; [|done]. e_inv.
  case_match; [|done]. by injection Hp as <-.
Qed.
Lemma plain_reference t : identifier t = true -> parse_pipeline_reference t = Ok (mkRef t 0 false).
Proof.
  intros Ht. unfold parse_pipeline_reference. rewrite break_at_none by (by apply ident_no_at). by rewrite Ht.
Qed.
(** The registry has no record under a name without a version. *)
Lemma no_plain_row db t : registry_ok config db -> identifier t = true -> tables db !! (KPipeline, t) = None.
Proof.
  intros Hok Ht. destruct (tables db !! (KPipeline, t)) as [row|] eqn:Hrow; [|done]. exfalso.
  destruct (revision_facts config _ _ (ro_rows _ _ Hok _ _ Hrow)) as (n & v & Hn & Hv & Hkey & _).
  pose proof (pipeline_reference_roundtrip n v Hn Hv) as H1. rewrite <- Hkey, (plain_reference t Ht) in H1. discriminate.
Qed.

Definition fresh_registration (yaml : string) (p : PipelineDefinition) (j : Json) (db db' : DB) : Prop :=
  exists pinned n, resolve_nodes (pipeline_bodies db) p (map_items (nodes p)) ∅ = TOk pinned
    /\ map_Forall (fun _ x => x <> candidate_key p) pinned
    /\ j = revision_record p yaml pinned (rt_timestamp n) /\ added (candidate_key p) j db db'.
Lemma register_cases yaml w w' x : registry_ok config (rt_db w) -> register_pipeline config yaml w = (w', x) ->
  match x with
  | TThrow _ => untouched (rt_db w) (rt_db w')
  | TOk j => exists p, parse_pipeline yaml (extensions config) = Ok p
      /\ ((w' = w /\ same_source j yaml = true /\ exists row, row_at (rt_db w) (candidate_key p) row /\ j = row_body row)
          \/ fresh_registration yaml p j (rt_db w) (rt_db w'))
  end.
Proof.
  intros Hok Hr. assert (Hsame : untouched (rt_db w) (rt_db w)) by (split; [done|lia]).
  unfold register_pipeline, mbind, io_bind, io_lift in Hr.
  destruct (parse_pipeline yaml (extensions config)) as [p|e] eqn:Hp; cbn [of_res] in Hr; [|injection Hr as <- <-; done].
  destruct (parsed_facts config _ _ Hp) as (Hn & Hv & Hsrc). pose proof (parsed_unpinned _ _ _ Hp) as Hun.
  destruct (check_schemas p) as [u|y]; [|injection Hr as <- <-; done].
  rewrite find_pipeline_run in Hr. destruct (tables (rt_db w) !! (KPipeline, candidate_key p)) as [row|] eqn:Hrow; cbn [fmap option_fmap option_map] in Hr.
  - cbv [mret io_ret] in Hr. destruct (same_source (row_body row) yaml) eqn:Hsrc'; [|injection Hr as <- <-; done].
    injection Hr as <- <-. exists p. split; [done|]. left. eauto.
  - assert (Hleg : (if pl_version p =? 1 then find_pipeline (pl_name p) else mret None) w = (w, TOk None)).
    { destruct (pl_version p =? 1); [|done]. rewrite find_pipeline_run. by rewrite (no_plain_row _ _ Hok Hn). }
    rewrite Hleg in Hr. pose proof (pages_pure (Z.to_nat max_pages) 0 w) as Hpure. fold all_pipeline_records in Hpure.
    destruct (all_pipeline_records w) as [w1 [rs|y]] eqn:Ha; simpl in Hpure; subst w1; [|injection Hr as <- <-; done].
    apply all_records_ok in Ha as [_ ->]. rewrite Hun in Hr.
    destruct (resolve_nodes (pipeline_bodies (rt_db w)) p (map_items (nodes p)) ∅) as [pinned|y] eqn:Hres; [|injection Hr as <- <-; done].
    destruct (visit_revision _ _ _ _) as [st|y] eqn:Hvis; [|injection Hr as <- <-; done].
    assert (Hne : map_Forall (fun _ x => x <> candidate_key p) pinned).
    { apply (candidate_grounded config (rt_db w) p pinned Hok).
      - intros row Hrow'. unfold row_at in Hrow'. congruence.
      - eapply resolve_nodes_known; [exact Hok|done|lia|exact Hres|apply map_Forall_empty].
      - apply (visit_decides _ (universe (pipeline_bodies (rt_db w)) p) (visit_fuel (pipeline_bodies (rt_db w)))).
        + intros m ds. apply dependencies_universe.
        + apply universe_size.
        + by exists st. }
    destruct (now_string w) as [w1 r1] eqn:H1. injection H1 as <- <-.
    match type of Hr with context [fresh_id ?v] => destruct (fresh_id v) as [w2 r2] eqn:H2 end. injection H2 as <- <-.
    match type of Hr with context [now_string ?v] => destruct (now_string v) as [w3 r3] eqn:H3 end. injection H3 as <- <-.
    apply store_revision_cases in Hr; [|exact Hrow]. destruct x as [j|y]; [|exact Hr].
    exists p. split; [done|]. right. destruct Hr as [-> Hadd]. eexists pinned, _. split_and!; [done|done|reflexivity|exact Hadd].
Qed.

Lemma resolve_nodes_covers records p l : forall pinned pinned', resolve_nodes records p l pinned = TOk pinned' ->
  (forall i, is_Some (pinned !! i) -> is_Some (pinned' !! i))
  /\ (forall i node, (i, node) ∈ l -> n_type node = "subpipeline"%string -> is_Some (pinned' !! i)).
Proof.
  induction l as [|[k node] l IH]; intros pinned pinned' Hr; cbn [resolve_nodes] in Hr.
  { injection Hr as <-. split; [done|]. by intros i node []%elem_of_nil. }
  destruct (String.eqb_spec (n_type node) "subpipeline") as [Hty|Hty].
  - apply tres_bind_ok in Hr as (x & _ & Hr). apply IH in Hr as [H1 H2]. split.
    + intros i Hi. apply H1. destruct (String.eqb_spec k i) as [->|Hne]; [rewrite lookup_insert_eq; eauto|by rewrite lookup_insert_ne].
    + intros i n [[= -> ->]|Hin]%elem_of_cons; [intros _; apply H1; rewrite lookup_insert_eq; eauto|by apply H2].
  - apply IH in Hr as [H1 H2]. split; [done|]. intros i n [[= -> ->]|Hin]%elem_of_cons; [done|by apply H2].
Qed.

(** *** The invariant holds on *)
Lemma untouched_ok db db' : registry_ok config db -> untouched db db' -> registry_ok config db'.
Proof.
  intros Hok [Ht Hi]. unfold identity_of in Hi.
  assert (Hr : forall i row, row_at db' i row <-> row_at db i row) by (intros i row; unfold row_at; by rewrite Ht). split.
  - intros i row Hrow%Hr. by apply (ro_rows _ _ Hok).
  - intros i row d Hrow%Hr Hd. destruct (ro_pinned _ _ Hok _ _ _ Hrow Hd) as (row' & Hrow' & Hlt). exists row'. by rewrite Hr.
  - intros i row Hrow%Hr. pose proof (ro_count _ _ Hok _ _ Hrow). lia.
  - pose proof (ro_identity _ _ Hok). lia.
Qed.
Lemma added_ok db db' yaml p j : registry_ok config db -> parse_pipeline yaml (extensions config) = Ok p ->
  fresh_registration yaml p j db db' -> registry_ok config db'.
Proof.
  intros Hok Hp (pinned & n & Hres & Hne & -> & Hnone & Hnew & Hoth & Hid).
  destruct (parsed_facts config _ _ Hp) as (Hn & Hv & _).
  assert (Hknown : map_Forall (fun _ x => known db p x) pinned).
  { eapply resolve_nodes_known; [exact Hok|done|lia|exact Hres|apply map_Forall_empty]. }
  assert (Hold : forall i row, row_at db i row -> row_at db' i row).
  { intros i row Hrow. unfold row_at. rewrite Hoth; [done|]. intros ->. unfold row_at in Hrow. congruence. }
  assert (Hcases : forall i row, row_at db' i row -> row_at db i row \/
            (i = candidate_key p /\ row = mkRow "" (revision_record p yaml pinned (rt_timestamp n)) (identity_of db + 1))).
  { intros i row Hrow. destruct (String.eqb_spec i (candidate_key p)) as [->|Hi]; [right|left].
    - unfold row_at in Hrow. rewrite Hnew in Hrow. by injection Hrow as <-.
    - unfold row_at in *. by rewrite Hoth in Hrow. }
  unfold identity_of in *. pose proof (ro_identity _ _ Hok) as Hpos. split.
  - intros i row [Hrow|[-> ->]]%Hcases; [by apply (ro_rows _ _ Hok)|]. exists p, yaml, pinned, (rt_timestamp n).
    split_and!; [done..|]. intros i node Hi. apply (proj2 (resolve_nodes_covers _ _ _ _ _ Hres)). by apply elem_of_map_items.
  - intros i row d [Hrow|[-> ->]]%Hcases Hd.
    + destruct (ro_pinned _ _ Hok _ _ _ Hrow Hd) as (row' & Hrow' & Hlt). eauto.
    + rewrite record_pinned in Hd. apply list_elem_of_fmap in Hd as ([k x] & -> & Hx). apply elem_of_map_items in Hx.
      destruct (Hknown k x Hx) as [->|(row' & Hrow')]; [by destruct (Hne k _ Hx)|]. exists row'. split; [by apply Hold|].
      pose proof (ro_count _ _ Hok _ _ Hrow'). cbn [row_sequence]. lia.
  - intros i row [Hrow|[-> ->]]%Hcases; [pose proof (ro_count _ _ Hok _ _ Hrow); lia|]. cbn [row_sequence]. lia.
  - lia.
Qed.

Lemma register_keeps yaml w w' x : registry_ok config (rt_db w) -> register_pipeline config yaml w = (w', x) ->
  registry_ok config (rt_db w') /\ forall i row, row_at (rt_db w) i row -> row_at (rt_db w') i row.
Proof.
  intros Hok Hr. apply register_cases in Hr; [|done]. destruct x as [j|y]; [destruct Hr as (p & Hp & [(-> & _)|Hf])|].
  - done.
  - split; [by eapply added_ok|]. destruct Hf as (pinned & n & _ & _ & _ & Hnone & _ & Hoth & _). intros i row Hrow.
    unfold row_at in *. rewrite Hoth; [done|]. intros ->. congruence.
  - split; [by eapply untouched_ok|]. destruct Hr as [Ht _]. intros i row. unfold row_at. by rewrite Ht.
Qed.

(** *** Lookups *)
Lemma pipeline_record_run i row w : registry_ok config (rt_db w) -> row_at (rt_db w) i row ->
  pipeline_record i w = (w, TOk (row_body row)).
Proof.
  intros Hok Hrow. destruct (revision_facts config _ _ (ro_rows _ _ Hok _ _ Hrow)) as (n & v & Hn & Hv & Hkey & _).
  unfold pipeline_record, mbind, io_bind, io_lift. rewrite Hkey, (pipeline_reference_roundtrip n v Hn Hv).
  cbn [of_res explicit_version r_name r_version]. unfold io_catch. rewrite <- Hkey, get_run_pipeline. unfold row_at in Hrow. by rewrite Hrow.
Qed.
Lemma resolve_stored i row w : registry_ok config (rt_db w) -> row_at (rt_db w) i row ->
  exists p yaml pinned now, resolve_pipeline config i w = (w, TOk (p <| pl_resolved_subpipelines := pinned |>))
    /\ parse_pipeline yaml (extensions config) = Ok p /\ row_body row = revision_record p yaml pinned now
    /\ i = candidate_key p /\ pins p pinned.
Proof.
  intros Hok Hrow. destruct (ro_rows _ _ Hok _ _ Hrow) as (p & yaml & pinned & now & Hp & Hkey & Hbody & Hpins).
  exists p, yaml, pinned, now. split_and!; [|done..]. unfold resolve_pipeline. rewrite (io_bind_run _ _ _ _ _ (pipeline_record_run _ _ _ Hok Hrow)).
  rewrite Hbody. unfold io_lift. by rewrite (record_definition config p yaml pinned now Hp).
Qed.
Lemma register_existing yaml p row w : registry_ok config (rt_db w) -> parse_pipeline yaml (extensions config) = Ok p ->
  check_schemas p = TOk tt -> row_at (rt_db w) (candidate_key p) row ->
  register_pipeline config yaml w =
    (w, if same_source (row_body row) yaml then TOk (row_body row)
        else TThrow (TError (err Conflict "Pipeline revision is immutable"))).
Proof.
  intros Hok Hp Hs Hrow. unfold register_pipeline, mbind, io_bind, io_lift. rewrite Hp. cbn [of_res]. rewrite Hs, find_pipeline_run.
  unfold row_at in Hrow. rewrite Hrow. cbn [fmap option_fmap option_map]. cbv [mret io_ret].
  by destruct (same_source (row_body row) yaml).
Qed.
Lemma register_checked yaml w w' j : register_pipeline config yaml w = (w', TOk j) ->
  exists p, parse_pipeline yaml (extensions config) = Ok p /\ check_schemas p = TOk tt.
Proof.
  unfold register_pipeline. intros Hr. apply io_bind_ok in Hr as (w1 & p & Hp & Hr). injection Hp as -> Hp. apply of_res_ok in Hp.
  apply io_bind_ok in Hr as (w2 & [] & Hs & _). injection Hs as -> Hs. eauto.
Qed.
End Registering.

(** ** Acceptance *)

Section Accepting.
Context `{L : JsonLib} {HL : JsonLaws L} `{Y : YamlLib} {E : RuntimeEnv} {G : RegistryEnv} (config : RuntimeConfig).

Lemma write_new_pipeline f n key record db : key <> ""%string -> storable record = true -> tables db !! (KPipeline, key) = None ->
  write_record f n (mkRecord KPipeline key "" record) db = upsert KPipeline key "" record db.
Proof.
  intros Hk Hs Hnone. apply nonempty_id, negb_true_iff in Hk. unfold write_record, storable, serialize in *. cbn [rc_kind rc_id rc_run_id rc_value] in *.
  destruct (dump record) as [text|]; [|done]. apply Z.leb_le, Z.ltb_ge in Hs. rewrite Hk, Hs.
  change (kind_eqb KPipeline KSessionContextGeneration || kind_eqb KPipeline KRunContextSnapshot) with false.
  change (kind_eqb KPipeline KPipeline) with true. change (kind_eqb KPipeline KWorkerJob) with false.
  change (kind_eqb KPipeline KNodeWork) with false. unfold check_pipeline, mbind, t_bind, select_row, t_guard. cbv beta iota delta [mret t_ret].
  by rewrite Hnone.
Qed.
Lemma commit_pair_run f n key record ev db : key <> ""%string -> storable record = true -> writable ev = true ->
  tables db !! (KPipeline, key) = None -> exists db', commit f n [mkRecord KPipeline key "" record; ev] db = (db', Ok tt).
Proof.
  intros Hk Hs Hev Hnone. unfold commit, store_tx, transaction, write_records. cbn [t_iter]. unfold mbind, t_bind.
  rewrite write_new_pipeline by done. rewrite upsert_spec. cbv zeta beta iota. rewrite (write_plain _ _ _ _ Hev), upsert_spec. by eexists.
Qed.
Lemma store_revision_run key yaml record event w : key <> ""%string -> storable record = true ->
  writable (mkRecord KEvent (ev_id event) "" (event_to_json event)) = true -> tables (rt_db w) !! (KPipeline, key) = None ->
  exists w', store_revision key yaml record event w = (w', TOk record).
Proof.
  intros Hk Hs Hev Hnone. unfold store_revision, mbind, io_bind, io_catch, r_commit, mbind, io_bind, r_call, r_store.
  change (rt_db (w <| rt_calls := S (rt_calls w) |>)) with (rt_db w).
  destruct (commit_pair_run (rt_uuid (rt_calls w)) (rt_timestamp (rt_calls w)) key record _ (rt_db w) Hk Hs Hev Hnone) as (db' & Hc).
  cbn [fst snd]. rewrite Hc. by eexists.
Qed.
Lemma candidate_nonempty yaml p : parse_pipeline yaml (extensions config) = Ok p -> candidate_key p <> ""%string.
Proof.
  intros Hp Heq. destruct (parsed_facts config _ _ Hp) as (Hn & Hv & _). unfold candidate_key in Heq.
  pose proof (pipeline_reference_roundtrip _ _ Hn Hv) as Hr. rewrite Heq in Hr. vm_compute in Hr. discriminate.
Qed.
End Accepting.

(** ** Properties *)

(** One revision is pinned to another. *)
Definition depends `{JsonLib} (db : DB) (i d : string) : Prop := exists row, row_at db i row /\ d ∈ pinned_of row.
Lemma registry_acyclic `{L : JsonLib} {HL : JsonLaws L} `{Y : YamlLib} config db i : registry_ok config db -> ~ tc (depends db) i i.
Proof.
  intros Hok. assert (Hlt : forall a b, tc (depends db) a b -> exists ra rb, row_at db a ra /\ row_at db b rb /\ row_sequence rb < row_sequence ra).
  { intros a b. induction 1 as [a b (row & Hrow & Hd)|a b c (row & Hrow & Hd) _ (rb & rc & Hb & Hc & Hlt)];
      destruct (ro_pinned _ _ Hok _ _ _ Hrow Hd) as (rd & Hrd & Hlt'); [eauto 10|].
    unfold row_at in *. rewrite Hrd in Hb. injection Hb as ->. exists row, rc. split_and!; [done|done|lia]. }
  intros (ra & rb & Ha & Hb & H)%Hlt. unfold row_at in *. rewrite Ha in Hb. injection Hb as ->. lia.
Qed.

(** C12: the registry stays closed and free of cycles.  Whatever document is registered, and whether
    the registration returns or throws, every stored revision is pinned only to revisions that were
    stored before it, no revision depends on itself through others, and every revision stored before
    is stored unchanged. *)
Theorem registry_invariant `{L : JsonLib} {HL : JsonLaws L} `{Y : YamlLib} {E : RuntimeEnv} {HR : RegistryLaws E} {G : RegistryEnv}
    config yaml w w' x :
  registry_ok config (rt_db w) -> register_pipeline config yaml w = (w', x) ->
  registry_ok config (rt_db w') /\ (forall i, ~ tc (depends (rt_db w')) i i)
  /\ forall i row, row_at (rt_db w) i row -> row_at (rt_db w') i row.
Proof.
  intros Hok Hr. pose proof (register_keeps config _ _ _ _ Hok Hr) as Hnew.
  destruct Hnew as [Hok' Hold]. split_and!; [done| |done]. intros i. by apply (registry_acyclic config).
Qed.

(** C15: registration and lookup agree.  A document that registers is found under its name and version,
    as it was parsed and with a pinned reference for each of its sub-pipeline nodes, every one of which
    resolves to a registered pipeline; registering the document again returns the stored
    record and changes nothing; and another document for the same name and version is refused. *)
Theorem registration_resolves `{L : JsonLib} {HL : JsonLaws L} `{Y : YamlLib} {E : RuntimeEnv} {HR : RegistryLaws E} {G : RegistryEnv}
    config yaml w w' j :
  registry_ok config (rt_db w) -> register_pipeline config yaml w = (w', TOk j) ->
  exists p pinned, parse_pipeline yaml (extensions config) = Ok p
  /\ pipeline_record (candidate_key p) w' = (w', TOk j)
  /\ resolve_pipeline config (candidate_key p) w' = (w', TOk (p <| pl_resolved_subpipelines := pinned |>))
  /\ (forall i node, nodes p !! i = Some node -> n_type node = "subpipeline"%string ->
        exists d child, pinned !! i = Some d /\ resolve_pipeline config d w' = (w', TOk child) /\ candidate_key child = d)
  /\ register_pipeline config yaml w' = (w', TOk j)
  /\ (forall other p', other <> yaml -> parse_pipeline other (extensions config) = Ok p' -> check_schemas p' = TOk tt ->
        candidate_key p' = candidate_key p ->
        register_pipeline config other w' = (w', TThrow (TError (err Conflict "Pipeline revision is immutable")))).
Proof.
  intros Hok Hr. destruct (register_checked config _ _ _ _ Hr) as (p & Hp & Hs). pose proof Hr as Hcases.
  apply register_cases in Hcases as (p0 & Hp0 & Hcases); [|done]. rewrite Hp in Hp0. injection Hp0 as <-.
  assert (Hnow : registry_ok config (rt_db w') /\ exists row, row_at (rt_db w') (candidate_key p) row /\ row_body row = j
                   /\ same_source j yaml = true).
  { destruct Hcases as [(-> & Hsrc & row & Hrow & ->)|Hf]; [split; [done|by exists row]|]. split; [by eapply added_ok|].
    destruct Hf as (pinned & n & _ & _ & -> & _ & Hnew & _). eexists. split_and!; [exact Hnew|done|apply record_source]. }
  destruct Hnow as (Hok' & row & Hrow & <- & Hsrc).
  destruct (resolve_stored config _ _ _ Hok' Hrow) as (p1 & yaml1 & pinned & now & Hres & Hp1 & Hbody & Hkey & Hpins).
  rewrite Hbody in Hsrc. assert (Hy : yaml1 = yaml) by (by apply String.eqb_eq in Hsrc). subst yaml1.
  rewrite Hp in Hp1. injection Hp1 as <-. exists p, pinned. split_and!; [done|by apply (pipeline_record_run config)|done| | |].
  - intros i node Hi Hty. destruct (Hpins i node Hi Hty) as (d & Hd).
    assert (Hin : d ∈ pinned_of row).
    { destruct row as [rid b seq]. simpl in Hbody. subst b. rewrite record_pinned. apply list_elem_of_fmap. exists (i, d).
      split; [done|]. by apply elem_of_map_items. }
    destruct (ro_pinned _ _ Hok' _ _ _ Hrow Hin) as (row' & Hrow' & _).
    destruct (resolve_stored config _ _ _ Hok' Hrow') as (p2 & yaml2 & pinned2 & now2 & Hres2 & _ & _ & Hkey2 & _).
    eexists d, _. split_and!; [done|exact Hres2|done].
  - rewrite (register_existing config yaml p row w' Hok' Hp Hs Hrow), Hbody. by rewrite record_source.
  - intros other p' Hne Hp' Hs' Hk. rewrite <- Hk in Hrow. rewrite (register_existing config other p' row w' Hok' Hp' Hs' Hrow), Hbody.
    replace (same_source (revision_record p yaml pinned now) other) with false; [done|]. symmetry. apply String.eqb_neq. congruence.
Qed.

(** C27: the search for recursion decides.  Whatever records the registry holds (records from before
    versions, without pinned references, included), the search from a candidate returns exactly
    when every revision it depends on, directly or not, can be read and following the
    dependencies ends; with the depth bound of the model it is never cut short. *)
Theorem recursion_search_correct `{L : JsonLib} `{Y : YamlLib} config records p pinned :
  (exists st, visit_revision (dependencies_of config records p pinned) (visit_fuel records) (candidate_key p) (∅, ∅) = TOk st)
  <-> grounded (dependencies_of config records p pinned) (candidate_key p).
Proof.
  apply (visit_decides _ (universe records p)); [intros n ds; apply dependencies_universe|apply universe_size].
Qed.

(** C17: A document registers when nothing stands against it.  A document that parses, whose schemas are
    declared, whose name and version are free, whose sub-pipeline references resolve in the registry
    and not to itself, and which fits the store, is registered: the search returns, the record with
    its pinned references is stored and returned.  The store answers and no other registration comes in
    between. *)
Theorem registration_accepts `{L : JsonLib} {HL : JsonLaws L} `{Y : YamlLib} {E : RuntimeEnv} {G : RegistryEnv} config yaml p pinned w :
  registry_ok config (rt_db w) -> Z.of_nat (length (pipeline_rows (rt_db w))) <= 100000000 -> (forall n, rt_uuid n <> ""%string) ->
  parse_pipeline yaml (extensions config) = Ok p -> check_schemas p = TOk tt ->
  tables (rt_db w) !! (KPipeline, candidate_key p) = None ->
  resolve_nodes (pipeline_bodies (rt_db w)) p (map_items (nodes p)) ∅ = TOk pinned ->
  map_Forall (fun _ x => x <> candidate_key p) pinned ->
  (forall n, storable (revision_record p yaml pinned (rt_timestamp n)) = true) ->
  (forall m n, storable (event_to_json (registered_event p (rt_uuid m) (rt_timestamp n))) = true) ->
  exists w' n, register_pipeline config yaml w = (w', TOk (revision_record p yaml pinned (rt_timestamp n))).
Proof.
  intros Hok Hmax Hids Hp Hs Hnone Hres Hne Hrec Hev. destruct (parsed_facts config _ _ Hp) as (Hn & Hv & _).
  assert (Hvis : exists st, visit_revision (dependencies_of config (pipeline_bodies (rt_db w)) p pinned) (visit_fuel (pipeline_bodies (rt_db w)))
                   (candidate_key p) (∅, ∅) = TOk st).
  { apply (visit_decides _ (universe (pipeline_bodies (rt_db w)) p)); [intros m ds; apply dependencies_universe|apply universe_size|].
    apply (candidate_grounded config); [done| | |done].
    - intros row Hrow. unfold row_at in Hrow. congruence.
    - eapply resolve_nodes_known; [exact Hok|done|lia|exact Hres|apply map_Forall_empty]. }
  destruct Hvis as (st & Hvis). unfold register_pipeline, mbind, io_bind, io_lift. rewrite Hp. cbn [of_res].
  rewrite Hs, find_pipeline_run, Hnone. cbn [fmap option_fmap option_map].
  assert (Hleg : (if pl_version p =? 1 then find_pipeline (pl_name p) else mret None) w = (w, TOk None)).
  { destruct (pl_version p =? 1); [|done]. rewrite find_pipeline_run. by rewrite (no_plain_row config _ _ Hok Hn). }
  rewrite Hleg, (all_records_run w Hmax), (parsed_unpinned _ _ _ Hp), Hres, Hvis.
  destruct (now_run w) as (w1 & n & H1 & T1). rewrite H1. destruct (fresh_run w1) as (w2 & m & H2 & T2). rewrite H2.
  destruct (now_run w2) as (w3 & k & H3 & T3). rewrite H3.
  destruct (store_revision_run (candidate_key p) yaml (revision_record p yaml pinned (rt_timestamp n))
    (registered_event p (rt_uuid m) (rt_timestamp k)) w3) as (w4 & H4).
  - by apply (candidate_nonempty config yaml).
  - apply Hrec.
  - unfold writable. cbn [rc_kind rc_id rc_value plain_kind]. rewrite Hev. change (ev_id (registered_event p (rt_uuid m) (rt_timestamp k))) with (rt_uuid m).
    by rewrite nonempty_id by apply Hids.
  - by rewrite (ticks_db _ _ T3), (ticks_db _ _ T2), (ticks_db _ _ T1).
  - eauto.
Qed.

(** ** A registry *)

Section Witness.
Definition registry_document (name version : string) (node : list (string * YNode)) : YNode :=
  sample_map [("laso", sample_scalar "1"); ("version", sample_scalar version); ("name", sample_scalar name);
    ("nodes", sample_map [("step", sample_map node)]);
    ("edges", YSequence "?" [sample_map [("from", sample_scalar "input"); ("to", sample_scalar "step")];
                             sample_map [("from", sample_scalar "step"); ("to", sample_scalar "output")]])]%string.
(** Two documents: [outer] runs [leaf] as a sub-pipeline. *)
Definition registry_yaml : YamlLib := {|
  LoadAll := fun text =>
    if String.eqb text "leaf text" then
      Some [registry_document "leaf" "2" [("type", sample_scalar "function"); ("function", sample_scalar "echo")]%string]
    else Some [registry_document "outer" "1" [("type", sample_scalar "subpipeline"); ("pipeline", sample_scalar "leaf")]%string];
  as_string := @as_string Yaml.sample_yaml; as_longlong := @as_longlong Yaml.sample_yaml; json_parse := fun _ => None |}.
Definition registry_env : RegistryEnv := {| validate_declaration := fun _ => Ok tt; regular_file := fun _ => None |}.
#[local] Existing Instances strict_json strict_json_laws registry_yaml sample_runtime_env registry_env.
#[local] Instance sample_registry_laws : RegistryLaws sample_runtime_env.
Proof. by split. Qed.

Definition empty_rt : RT :=
  mkRT (mkCoord empty_db 0 0 0) 0 ∅ ∅ ModeActive false false false [] [] [] [].
Lemma empty_registry : registry_ok sample_config (rt_db empty_rt).
Proof.
  assert (Hnone : forall i row, ~ row_at (rt_db empty_rt) i row).
  { intros i row Hrow. change ((∅ : gmap (RecordKind * string) Row) !! (KPipeline, i) = Some row) in Hrow. by rewrite lookup_empty in Hrow. }
  split; [by intros i row []%Hnone|by intros i row d []%Hnone|by intros i row []%Hnone|done].
Qed.
Definition with_leaf : RT := (register_pipeline sample_config "leaf text" empty_rt).1.
Definition with_outer : RT * tres Json := register_pipeline sample_config "outer text" with_leaf.
Example outer_pinned : match with_outer.2 with
  | TOk j => member j "resolved_subpipelines" | TThrow _ => None end = Some (JObject [("step", JString "leaf@2")])%string.
Proof. vm_compute. reflexivity. Qed.
Definition outer_record : Json := match with_outer.2 with TOk j => j | TThrow _ => JNull end.
Lemma outer_registers : with_outer = (with_outer.1, TOk outer_record).
Proof.
  assert (Hok : match with_outer.2 with TOk _ => true | TThrow _ => false end = true) by (vm_compute; reflexivity).
  unfold outer_record. destruct with_outer as [w [j|x]]; [reflexivity|discriminate Hok].
Qed.
Lemma leaf_registry : registry_ok sample_config (rt_db with_leaf).
Proof.
  unfold with_leaf. destruct (register_pipeline sample_config "leaf text" empty_rt) as [w x] eqn:Hr.
  by destruct (register_keeps sample_config _ _ _ _ empty_registry Hr).
Qed.
Lemma registry_invariant_witness :
  registry_ok sample_config (rt_db with_outer.1) /\ (forall i, ~ tc (depends (rt_db with_outer.1)) i i)
  /\ forall i row, row_at (rt_db with_leaf) i row -> row_at (rt_db with_outer.1) i row.
Proof. exact (registry_invariant sample_config "outer text" with_leaf with_outer.1 (TOk outer_record) leaf_registry outer_registers). Defined.
Lemma registration_resolves_witness :
  exists p pinned, parse_pipeline "outer text" ∅ = Ok p
  /\ pipeline_record (candidate_key p) with_outer.1 = (with_outer.1, TOk outer_record)
  /\ resolve_pipeline sample_config (candidate_key p) with_outer.1 = (with_outer.1, TOk (p <| pl_resolved_subpipelines := pinned |>))
  /\ (forall i node, nodes p !! i = Some node -> n_type node = "subpipeline"%string ->
        exists d child, pinned !! i = Some d /\ resolve_pipeline sample_config d with_outer.1 = (with_outer.1, TOk child) /\ candidate_key child = d)
  /\ register_pipeline sample_config "outer text" with_outer.1 = (with_outer.1, TOk outer_record)
  /\ (forall other p', other <> "outer text"%string -> parse_pipeline other ∅ = Ok p' -> check_schemas p' = TOk tt ->
        candidate_key p' = candidate_key p ->
        register_pipeline sample_config other with_outer.1
        = (with_outer.1, TThrow (TError (err Conflict "Pipeline revision is immutable")))).
Proof. exact (registration_resolves sample_config "outer text" with_leaf with_outer.1 outer_record leaf_registry outer_registers). Defined.

Definition outer_definition : PipelineDefinition :=
  match parse_pipeline "outer text" ∅ with Ok p => p | Throw _ => sample_loop end.
Definition outer_pins : gmap string string := {[ "step"%string := "leaf@2"%string ]}.
Lemma registration_accepts_witness : exists w' n,
  register_pipeline sample_config "outer text" with_leaf = (w', TOk (revision_record outer_definition "outer text" outer_pins (rt_timestamp n))).
Proof.
  apply (registration_accepts sample_config "outer text" outer_definition outer_pins with_leaf leaf_registry).
  - vm_compute. discriminate.
  - by intros n.
  - vm_compute. reflexivity.
  - vm_compute. reflexivity.
  - vm_compute. reflexivity.
  - vm_compute. reflexivity.
  - intros i x Hx. unfold outer_pins in Hx. apply lookup_singleton_Some in Hx as [_ <-]. vm_compute. discriminate.
  - done.
  - done.
Defined.
End Witness.
