(* ===== verification/Maintenance.v ===== *)
(** * Maintenance

    The operator's side of [Service] ([src/application/service.cpp]): draining an instance, taking it
    into maintenance and back, the report on it, the state kept in a file across restarts, and the
    audit journal of operator actions.  The state is the runtime ([Runtime.RT], whose [mode] decides
    what is admitted), the file system ([Files]) and the fields of the object; the mutex of the object
    makes each operation atomic.

    [SvcEnv] says which paths are symbolic links, which the tree of [Files] does not have. *)

From S2P Require Import Prelude Json Types Text Pipeline Yaml Db Coordination Codec Worker Store Effects Runtime Files Access.
From Stdlib Require Import Ascii Strings.Byte.

Record SV := mkSV {
  sv_rt : RT; sv_fs : FS; maintenance_mode : MaintenanceMode; maintenance_started_at : string;
  maintenance_actor : string; operator_events : list Json }.
#[global] Instance eta_SV : Eta SV := fun r => mkSV (sv_rt r) (sv_fs r) (maintenance_mode r)
  (maintenance_started_at r) (maintenance_actor r) (operator_events r).
Abbreviation SIO := (IO SV).

Class SvcEnv := { symlink_at : path -> bool }.

Definition maintenance_mode_name (mode : MaintenanceMode) : string :=
  match mode with ModeActive => "active" | ModeDraining => "draining" | ModeMaintenance => "maintenance" end.
Definition invalid_state : string := "Invalid maintenance state; refusing startup".
Definition parse_maintenance_mode (value : string) : tres MaintenanceMode :=
  if String.eqb value "active" then TOk ModeActive
  else if String.eqb value "draining" then TOk ModeDraining
  else if String.eqb value "maintenance" then TOk ModeMaintenance
  else tthrow Configuration invalid_state.

Definition text_bytes (s : string) : list byte := String.list_byte_of_string s.
Definition bytes_text (l : list byte) : string := String.string_of_list_byte l.

Section Maintenance.
Context `{JsonLib} `{YamlLib} {E : RuntimeEnv} {F : FileEnv} {V : SvcEnv}.
Context (config : RuntimeConfig) (stale_after_ms : Z) (data_dir : path).

Definition on_runtime {A} (m : RIO A) : SIO A := fun s => let '(w, r) := m (sv_rt s) in (s <| sv_rt := w |>, r).
Definition on_fs {A} (m : FIO A) : SIO A := fun s => let '(fs, r) := m (sv_fs s) in (s <| sv_fs := fs |>, r).

(** ** The file *)

Definition state_file : string := "operator-maintenance.json".
Definition maintenance_state_path : path := data_dir ++ [state_file].
Definition temporary_path (fresh : string) : path := data_dir ++ [(state_file ++ "." ++ fresh ++ ".tmp")%string].
Definition not_persisted : string := "Maintenance state could not be persisted".
Definition checked (ok : bool) : FIO unit := io_guard (negb ok) StorageError not_persisted.
Definition outcome_of : FIO bool := n ← io_call; mret (io_ok n).

(** From the opening of the temporary file on. *)
Definition replace_through (temporary : path) (contents : list byte) : FIO unit :=
  n ← io_call;
  fs ← io_get;
  _ ← checked (negb (bool_decide (is_Some (files fs !! temporary))) && can_create fs temporary && io_ok n);
  _ ← put_entry temporary (File []);
  io_cleanup
    (m ← io_call;
     _ ← put_entry temporary (File (if io_ok m then contents else io_partial m contents));
     _ ← checked (io_ok m);
     synced ← outcome_of;
     _ ← checked synced;
     closed ← outcome_of;
     _ ← checked closed;
     moved ← rename temporary maintenance_state_path;
     _ ← checked moved;
     _ ← outcome_of;
     mret tt)
    (remove temporary).
Definition durable_replace (contents : string) : SIO unit :=
  created ← on_fs (create_directories data_dir);
  _ ← on_fs (checked (bool_decide (is_Some created)));
  fresh ← on_runtime fresh_id;
  on_fs (replace_through (temporary_path fresh) (text_bytes contents)).

Definition maintenance_document (version : Json) (mode : MaintenanceMode) (since actor : string) (events : list Json) : Json :=
  mk_object [("version", version); ("state", JString (maintenance_mode_name mode)); ("since", JString since);
             ("actor", JString actor); ("events", JArray events)]%string.
Definition max_events : nat := 128.
Definition keep_events (events : list Json) : list Json := drop (length events - max_events) events.
Definition json_text (j : Json) : tres string := match dump j with Some text => TOk text | None => TThrow TStd end.

Definition persist_maintenance_state (mode : MaintenanceMode) (started_at actor : string) (event : Json) : SIO unit :=
  s ← io_get;
  let events := keep_events (operator_events s ++ [event]) in
  text ← io_lift (json_text (maintenance_document (JInt 1) mode started_at actor events));
  _ ← durable_replace text;
  io_modify (fun s => (((s <| operator_events := events |>) <| maintenance_mode := mode |>)
                         <| maintenance_started_at := started_at |>) <| maintenance_actor := actor |>).

Definition max_state_bytes : Z := 65536.
(** Every exception that is not one of the program's own is an invalid state. *)
Definition read_state (text : string) : tres (MaintenanceMode * string * string * list Json) :=
  let body :=
    value ← match json_parse text with Some j => TOk j | None => TThrow TStd end;
    version ← value_ dec_unsigned value "version" 0;
    _ ← tguard (negb (version =? 1)) Configuration invalid_state;
    name ← value_ dec_string value "state" ""%string;
    mode ← parse_maintenance_mode name;
    since ← value_ dec_string value "since" ""%string;
    actor ← value_ dec_string value "actor" ""%string;
    _ ← tguard ((128 <? size_of actor) || (64 <? size_of since)) Configuration invalid_state;
    match default (JArray []) (member value "events") with
    | JArray events =>
        _ ← tguard (max_events <? length events)%nat Configuration invalid_state;
        TOk (mode, since, actor, events)
    | _ => tthrow Configuration invalid_state
    end in
  match body with
  | TThrow (TError e) => TThrow (TError e)
  | TThrow _ => tthrow Configuration invalid_state
  | r => r
  end.
Definition load_maintenance_state : SIO unit :=
  status ← on_fs outcome_of;
  s ← io_get;
  if status && symlink_at maintenance_state_path then io_throw Configuration invalid_state
  else if negb status then io_throw StorageError "Maintenance state could not be read"
  else
    match files (sv_fs s) !! maintenance_state_path with
    | None => on_runtime (set_maintenance_mode ModeActive)
    | Some entry =>
        sized ← on_fs outcome_of;
        _ ← io_guard (match entry with
                      | File data => negb sized || (max_state_bytes <? Z.of_nat (length data))
                      | Dir => true
                      end) Configuration invalid_state;
        contents ← on_fs (read_regular maintenance_state_path);
        match contents with
        | None => io_throw StorageError "Maintenance state could not be read"
        | Some data =>
            '(mode, since, actor, events) ← io_lift (read_state (bytes_text data));
            _ ← io_modify (fun s => (((s <| maintenance_mode := mode |>) <| maintenance_started_at := since |>)
                                       <| maintenance_actor := actor |>) <| operator_events := events |>);
            on_runtime (set_maintenance_mode mode)
        end
    end.

(** ** Operators *)

Definition operator_actor (actor : Actor) : bool :=
  authenticated actor && negb (empty_str (act_id actor)) && (size_of (act_id actor) <=? 128)
  && (String.eqb (role actor) "operator" || String.eqb (role actor) "admin")
  && forallb actor_character (chars_of (act_id actor)) && first_is is_alnum (act_id actor).
Definition require_operator_actor (actor : Actor) : SIO unit :=
  io_guard (negb (operator_actor actor)) PolicyError "Operator access required".

(** The journal of operator actions. *)
Definition safe_target (target_id : string) : string :=
  if empty_str target_id || (valid_token target_id 128 actor_character && first_is is_alnum target_id)
  then target_id else ""%string.
Definition append_audit (e : OperatorAuditEvent) : RIO AuditRow :=
  n ← r_call; r_store (append_operator_audit_event (rt_dbclock n 0%nat) e).
Definition begin_operator_action (actor : Actor) (action target_type target_id : string) : SIO string :=
  _ ← require_operator_actor actor;
  operation_id ← on_runtime fresh_id;
  event_id ← on_runtime fresh_id;
  _ ← on_runtime (append_audit (mkAuditEvent event_id operation_id (act_id actor) (role actor) action target_type
                             (safe_target target_id) "requested" 0));
  mret operation_id.
Definition complete_operator_action (actor : Actor) (operation_id action target_type target_id outcome : string)
    (http_status : Z) : SIO unit :=
  _ ← require_operator_actor actor;
  event_id ← on_runtime fresh_id;
  _ ← on_runtime (append_audit (mkAuditEvent event_id operation_id (act_id actor) (role actor) action target_type
                             (safe_target target_id) outcome http_status));
  mret tt.

Definition maintenance_event (at_ actor action from to result : string) : Json := mk_object
  [("at", JString at_); ("actor", JString actor); ("action", JString action); ("from", JString from);
   ("to", JString to); ("instance_id", JString (instance_id config)); ("result", JString result)]%string.

Definition sync_maintenance_registry (state : string) (actor : Actor) (action from to : string) : SIO unit :=
  if negb (coordinated config) then mret tt
  else
    io_catch_all (on_runtime (r_coord (set_instance_state (instance_id config) state)))
      (now ← on_runtime now_string;
       s ← io_get;
       _ ← persist_maintenance_state (maintenance_mode s) (maintenance_started_at s) (act_id actor)
             (maintenance_event now (act_id actor) action from to "cluster_sync_failed");
       io_throw StorageError "Instance coordination state could not be updated").

Definition request_drain (actor : Actor) : SIO unit :=
  _ ← require_operator_actor actor;
  s ← io_get;
  match maintenance_mode s with
  | ModeDraining => sync_maintenance_registry "DRAINING" actor "drain" "draining" "draining"
  | ModeMaintenance => sync_maintenance_registry "MAINTENANCE" actor "drain" "maintenance" "maintenance"
  | ModeActive =>
      now ← on_runtime now_string;
      _ ← on_runtime (set_maintenance_mode ModeDraining);
      _ ← io_cleanup
            (persist_maintenance_state ModeDraining now (act_id actor)
               (maintenance_event now (act_id actor) "drain" "active" "draining" "requested"))
            (on_runtime (set_maintenance_mode ModeActive));
      sync_maintenance_registry "DRAINING" actor "drain" "active" "draining"
  end.
Definition resume_instance (actor : Actor) : SIO unit :=
  _ ← require_operator_actor actor;
  s ← io_get;
  if bool_decide (maintenance_mode s = ModeActive) then mret tt
  else
    _ ← (if coordinated config
         then sync_maintenance_registry "ACTIVE" actor "resume" (maintenance_mode_name (maintenance_mode s)) "active"
         else mret tt);
    now ← on_runtime now_string;
    s ← io_get;
    _ ← persist_maintenance_state ModeActive "" (act_id actor)
          (maintenance_event now (act_id actor) "resume" (maintenance_mode_name (maintenance_mode s)) "active" "requested");
    on_runtime (set_maintenance_mode ModeActive).
(** [runtime_.diagnostics()]: whether nothing is running. *)
Definition no_work (w : RT) : bool := Nat.eqb (size (active w)) 0 && Nat.eqb (size (active_nodes w)) 0.
Definition this_instance : SIO (option InstanceRow) :=
  on_runtime (r_coord (fun clk => current_instance (instance_id config) stale_after_ms (clk 0%nat))).
Definition enter_maintenance (actor : Actor) : SIO unit :=
  _ ← require_operator_actor actor;
  s ← io_get;
  if bool_decide (maintenance_mode s = ModeMaintenance)
  then sync_maintenance_registry "MAINTENANCE" actor "enter_maintenance" "maintenance" "maintenance"
  else
    _ ← io_guard (negb (bool_decide (maintenance_mode s = ModeDraining)) || negb (no_work (sv_rt s))) Conflict
          "Instance must be drained before maintenance";
    _ ← (if coordinated config then
           current ← this_instance;
           io_guard (match current with Some i => String.eqb (i_state i) "STALE" | None => true end) StorageError
             "Instance coordination state is unavailable"
         else mret tt);
    now ← on_runtime now_string;
    _ ← on_runtime (set_maintenance_mode ModeMaintenance);
    _ ← io_cleanup
          (persist_maintenance_state ModeMaintenance now (act_id actor)
             (maintenance_event now (act_id actor) "enter_maintenance" "draining" "maintenance" "requested"))
          (on_runtime (set_maintenance_mode ModeDraining));
    sync_maintenance_registry "MAINTENANCE" actor "enter_maintenance" "draining" "maintenance".

(** ** The report *)

Definition nullable (s : string) : Json := if empty_str s then JNull else JString s.
Definition state_name (mode : MaintenanceMode) (idle : bool) : string :=
  if bool_decide (mode = ModeDraining) && idle then "drained" else maintenance_mode_name mode.
(** One look at the service: the code gives [maintenance_mutex_] back before it reads the diagnostics, so a
    change of the mode may come in between. *)
Definition operator_maintenance : SIO Json :=
  s ← io_get;
  let mode := maintenance_mode s in
  let idle := no_work (sv_rt s) in
  let state := state_name mode idle in
  '(visible, cluster) ←
    (if coordinated config then
       io_catch
         (current ← this_instance;
          mret match current with
               | Some i => (negb (String.eqb (i_state i) "STALE"), i_state i)
               | None => (false, "missing"%string)
               end)
         (fun _ => mret (false, "unavailable"%string))
     else mret (true, "local"%string));
  let quiescent := negb (coordinated config) || str_one_of cluster ["DRAINING"; "DRAINED"; "MAINTENANCE"]%string in
  mret (mk_object
    [("instance_id", JString (instance_id config)); ("state", JString state);
     ("desired_state", JString (maintenance_mode_name mode)); ("since", nullable (maintenance_started_at s));
     ("actor", nullable (maintenance_actor s)); ("cluster_state", JString cluster); ("cluster_visible", JBool visible);
     ("owned_work", mk_object [("runs", JUnsigned (Z.of_nat (size (active (sv_rt s)))));
                               ("nodes", JUnsigned (Z.of_nat (size (active_nodes (sv_rt s)))))]);
     ("safe_to_stop", JBool (visible && quiescent && idle && str_one_of state ["drained"; "maintenance"]%string));
     ("last_event", default JNull (last (operator_events s)))]%string).
Definition maintenance_metrics : SIO Json :=
  s ← io_get;
  mret (mk_object
    [("state", JString (state_name (maintenance_mode s) (no_work (sv_rt s))));
     ("owned_runs", JUnsigned (Z.of_nat (size (active (sv_rt s)))));
     ("owned_nodes", JUnsigned (Z.of_nat (size (active_nodes (sv_rt s)))))]%string).
End Maintenance.
