(* ===== verification/MaintenanceClaims.v ===== *)
(** * What an operator can rely on

    After every operation of [Maintenance], whatever it met, the runtime, the object and the file agree
    on the mode; a restart takes up where the file left off; and an instance reported as safe to stop
    has no work and admits none. *)

From S2P Require Import Prelude Json Types Samples Text Pipeline Yaml Db Coordination Codec Worker Store Effects Runtime Lifecycle Recovery Files Access Maintenance.
From Stdlib Require Import Strings.Byte.

(** ** Replacing the file *)

Section Replacing.
Context {F : FileEnv} (data_dir : path).
Abbreviation the_path := (maintenance_state_path data_dir).

Definition elsewhere (q : path) : Prop := q <> the_path.
Lemma path_length : length the_path = S (length data_dir).
Proof. unfold maintenance_state_path. rewrite length_app. simpl. lia. Qed.
Lemma temporary_elsewhere fresh : elsewhere (temporary_path data_dir fresh).
Proof.
  unfold elsewhere, temporary_path, maintenance_state_path. intros [_ Heq]%app_inj_2; [|done]. discriminate Heq.
Qed.
Lemma create_elsewhere : Always (confined elsewhere) (create_directories data_dir).
Proof.
  intros fs q Hq. unfold elsewhere in Hq. apply dec_stable in Hq. subst q. unfold create_directories.
  destruct (mkdirs_made (filter (fun c => c <> ""%string) data_dir) [] false fs the_path) as [?|([_ Hp] & _)]; [done|].
  exfalso. apply prefix_length in Hp. rewrite path_length in Hp. simpl in Hp.
  pose proof (length_filter (fun c => c <> ""%string) data_dir). lia.
Qed.
Lemma checked_same ok fs : (checked ok fs).1 = fs.
Proof. by destruct ok. Qed.
Lemma confined_checked P ok : Always (confined P) (checked ok).
Proof. intros fs q _. by rewrite checked_same. Qed.
Lemma confined_outcome P : Always (confined P) outcome_of.
Proof. by intros fs q _. Qed.
Lemma checked_inv ok fs fs' u : checked ok fs = (fs', TOk u) -> ok = true /\ fs' = fs.
Proof. destruct ok; [by intros [= <-]|done]. Qed.
Lemma remove_returns p fs : exists fs', remove p fs = (fs', TOk tt).
Proof. unfold remove, mbind, io_bind, io_call, io_get. simpl. repeat case_match; eexists; reflexivity. Qed.

Lemma rename_cases t fs : elsewhere t -> exists fs' b, rename t the_path fs = (fs', TOk b)
  /\ (if b then exists data, files fs !! t = Some (File data) /\ files fs' !! the_path = Some (File data)
      else files fs' = files fs).
Proof.
  intros Ht. unfold rename, mbind, io_bind, io_call, io_get. simpl.
  destruct (files fs !! t) as [[data|]|]; [|by eexists _, _..]. case_match; [|by eexists _, _]. simpl. eexists _, _.
  split; [reflexivity|]. exists data. split; [done|]. apply lookup_insert_eq.
Qed.
(** A throw leaves the file as it was. *)
Definition keeps_file {A} (m : FIO A) : Prop := forall fs,
  match m fs with (fs', TThrow _) => files fs' !! the_path = files fs !! the_path | _ => True end.
Lemma confined_path m fs fs' (r : tres m) (op : FIO m) : Always (confined elsewhere) op -> op fs = (fs', r) ->
  files fs' !! the_path = files fs !! the_path.
Proof. intros Hop Hr. specialize (Hop fs the_path). rewrite Hr in Hop. apply Hop. unfold elsewhere. naive_solver. Qed.
Lemma file_keeps_bind {A B} (m : FIO A) (f : A -> FIO B) : Always (confined elsewhere) m -> (forall a, keeps_file (f a)) -> keeps_file (m ≫= f).
Proof.
  intros Hm Hf fs. unfold mbind, io_bind. destruct (m fs) as [fs1 [a|x]] eqn:Hr; pose proof (confined_path _ _ _ _ _ Hm Hr) as H1.
  - specialize (Hf a fs1). destruct (f a fs1) as [fs2 [b|x]]; [done|]. by rewrite Hf.
  - done.
Qed.
Lemma keeps_moved t : elsewhere t -> keeps_file (moved ← rename t the_path; _ ← checked moved; _ ← outcome_of; mret tt).
Proof.
  intros Ht fs. unfold mbind at 1, io_bind at 1. destruct (rename_cases t fs Ht) as (fs' & b & -> & Hb). destruct b; [done|].
  change (files fs' !! the_path = files fs !! the_path). by rewrite Hb.
Qed.
Lemma keeps_cleanup {A} (m : FIO A) h : keeps_file m -> Always (confined elsewhere) h -> keeps_file (io_cleanup m h).
Proof.
  intros Hm Hh fs. unfold io_cleanup. specialize (Hm fs). destruct (m fs) as [fs1 [a|x]]; [done|].
  destruct (h fs1) as [fs2 [u|y]] eqn:Hr; pose proof (confined_path _ _ _ _ _ Hh Hr) as H1; congruence.
Qed.
Lemma replace_keeps t contents : elsewhere t -> keeps_file (replace_through data_dir t contents).
Proof.
  intros Ht. unfold replace_through. apply file_keeps_bind; [apply confined_call|]. intros n.
  apply file_keeps_bind; [apply always_get, _|]. intros fs0. apply file_keeps_bind; [apply confined_checked|]. intros _.
  apply file_keeps_bind; [by apply confined_put|]. intros _. apply keeps_cleanup; [|by apply confined_remove].
  apply file_keeps_bind; [apply confined_call|]. intros m. apply file_keeps_bind; [by apply confined_put|]. intros _.
  do 5 (apply file_keeps_bind; [first [apply confined_checked|apply confined_outcome]|]; intros ?). by apply keeps_moved.
Qed.
Lemma replace_ok t contents fs fs' u : elsewhere t -> replace_through data_dir t contents fs = (fs', TOk u) ->
  files fs' !! the_path = Some (File contents).
Proof.
  intros Ht Hr. unfold replace_through in Hr. apply io_bind_ok in Hr as (f1 & n & _ & Hr).
  apply io_bind_ok in Hr as (f2 & f0 & _ & Hr). apply io_bind_ok in Hr as (f3 & ? & _ & Hr).
  apply io_bind_ok in Hr as (f4 & ? & _ & Hr). apply io_cleanup_ok in Hr.
  apply io_bind_ok in Hr as (f5 & m & Hm & Hr). apply io_bind_ok in Hr as (f6 & ? & Hp & Hr).
  apply io_bind_ok in Hr as (f7 & ? & [Hok ->]%checked_inv & Hr). rewrite Hok in Hp. injection Hp as Hp _.
  apply io_bind_ok in Hr as (f8 & synced & Ho1 & Hr). apply io_bind_ok in Hr as (f9 & ? & [_ ->]%checked_inv & Hr).
  apply io_bind_ok in Hr as (f10 & closed & Ho2 & Hr). apply io_bind_ok in Hr as (f11 & ? & [_ ->]%checked_inv & Hr).
  apply io_bind_ok in Hr as (f12 & moved & Hmv & Hr). apply io_bind_ok in Hr as (f13 & ? & [Hmoved ->]%checked_inv & Hr).
  apply io_bind_ok in Hr as (f14 & ? & Ho3 & Hr). injection Ho1 as <- _. injection Ho2 as <- _. injection Ho3 as <- _. injection Hr as <- _.
  destruct (rename_cases t (f6 <| io_calls := S (io_calls f6) |> <| io_calls := S (S (io_calls f6)) |>) Ht) as (f15 & b & Heq & Hb).
  rewrite Hmv in Heq. injection Heq as -> ->. subst b. destruct Hb as (data & Hd & Hpath). simpl in Hd. subst f6.
  simpl in Hd. rewrite lookup_insert_eq in Hd. by injection Hd as <-.
Qed.
End Replacing.

(** ** The object, the runtime and the file *)

Section Service.
Context `{L : JsonLib} {HL : JsonLaws L} `{Y : YamlLib} {E : RuntimeEnv} {F : FileEnv} {V : SvcEnv}.
Context (config : RuntimeConfig) (stale_after_ms : Z) (data_dir : path).
Abbreviation state_path := (maintenance_state_path data_dir).

Definition state_entry (s : SV) : option Entry := files (sv_fs s) !! state_path.
(** The file holds the state of the object; a new service has neither. *)
Definition saved (s : SV) : Prop :=
  (exists text, dump (maintenance_document (JInt 1) (maintenance_mode s) (maintenance_started_at s) (maintenance_actor s) (operator_events s))
     = Some text /\ state_entry s = Some (File (text_bytes text)))
  \/ (state_entry s = None /\ maintenance_mode s = ModeActive /\ maintenance_started_at s = ""%string
      /\ maintenance_actor s = ""%string /\ operator_events s = []).
Definition bounded (s : SV) : Prop :=
  size_of (maintenance_actor s) <= 128 /\ size_of (maintenance_started_at s) <= 64 /\ (length (operator_events s) <= max_events)%nat.
Record service_ok (s : SV) : Prop := {
  sk_mode : mode (sv_rt s) = maintenance_mode s;
  sk_saved : saved s;
  sk_bounded : bounded s }.

(** The runtime's mode and work are as they were. *)
Definition rt_same (w w' : RT) : Prop := mode w' = mode w /\ active w' = active w /\ active_nodes w' = active_nodes w.
#[local] Instance rt_same_preorder : PreOrder rt_same.
Proof. split; [done|]. intros a b c (? & ? & ?) (? & ? & ?). unfold rt_same. split_and!; congruence. Qed.
Lemma ticks_same w w' : ticks w w' -> rt_same w w'.
Proof. intros ->. by destruct w. Qed.
Lemma coord_same {A} (m : (nat -> Z) -> M Coord A) w : rt_same w (r_coord m w).1.
Proof. unfold r_coord. by destruct (m (rt_dbclock (rt_calls w)) (rt_coord w)). Qed.
Definition same_state (s s' : SV) : Prop :=
  maintenance_mode s' = maintenance_mode s /\ maintenance_started_at s' = maintenance_started_at s
  /\ maintenance_actor s' = maintenance_actor s /\ operator_events s' = operator_events s.
Lemma saved_same s s' : same_state s s' -> state_entry s' = state_entry s -> saved s -> saved s'.
Proof. intros (H1 & H2 & H3 & H4) He. unfold saved. by rewrite H1, H2, H3, H4, He. Qed.
Lemma bounded_same s s' : same_state s s' -> bounded s -> bounded s'.
Proof. intros (H1 & H2 & H3 & H4). unfold bounded. by rewrite H2, H3, H4. Qed.

Lemma durable_cases contents s s' x : durable_replace data_dir contents s = (s', x) ->
  same_state s s' /\ rt_same (sv_rt s) (sv_rt s')
  /\ match x with TOk _ => state_entry s' = Some (File (text_bytes contents)) | TThrow _ => state_entry s' = state_entry s end.
Proof.
  unfold durable_replace, mbind, io_bind, on_fs, on_runtime. intros Hd.
  pose proof (create_elsewhere data_dir (sv_fs s)) as Hc. destruct (create_directories data_dir (sv_fs s)) as [fs1 [created|x1]];
    (assert (H1 : files fs1 !! state_path = files (sv_fs s) !! state_path) by (apply Hc; unfold elsewhere; naive_solver)).
  2: { injection Hd as <- <-. split; [by repeat split|]. split; [by repeat split|exact H1]. }
  cbn [sv_fs sv_rt] in Hd. destruct (bool_decide (is_Some created)); cbn [checked io_guard io_lift tguard negb] in Hd.
  2: { injection Hd as <- <-. split; [by repeat split|]. split; [by repeat split|exact H1]. }
  unfold checked, io_guard, io_lift in Hd. cbn [tguard negb] in Hd.
  destruct (fresh_run (sv_rt s)) as (w1 & n & Hf & Ht). cbn [sv_fs sv_rt] in Hd. change (sv_rt (_ <| sv_fs := _ |>)) with (sv_rt s) in Hd.
  rewrite Hf in Hd. cbn [sv_fs sv_rt] in Hd.
  set (t := temporary_path data_dir (rt_uuid n)) in Hd. pose proof (temporary_elsewhere data_dir (rt_uuid n)) as Hel. fold t in Hel.
  match type of Hd with context [replace_through data_dir t ?c ?f] => change f with fs1 in Hd; pose proof (replace_keeps data_dir t c Hel fs1) as Hk;
    pose proof (replace_ok data_dir t c fs1) as Hr; destruct (replace_through data_dir t c fs1) as [fs2 [u|y]] end;
    injection Hd as <- <-; (split; [by repeat split|]; split; [by apply ticks_same|]).
  - by apply (Hr fs2 u Hel).
  - unfold state_entry. simpl. by rewrite Hk.
Qed.

Lemma keep_events_bound l : (length (keep_events l) <= max_events)%nat.
Proof. unfold keep_events. rewrite length_drop. unfold max_events. lia. Qed.
(** Persisting: the new state is in the file and in the object, or neither changed. *)
Lemma persist_cases m since actor event s s' x : size_of since <= 64 -> size_of actor <= 128 -> saved s -> bounded s ->
  persist_maintenance_state data_dir m since actor event s = (s', x) ->
  saved s' /\ bounded s' /\ rt_same (sv_rt s) (sv_rt s')
  /\ match x with TOk _ => maintenance_mode s' = m | TThrow _ => maintenance_mode s' = maintenance_mode s end.
Proof.
  intros Hsince Hactor Hsv Hb Hp. unfold persist_maintenance_state in Hp. unfold mbind at 1, io_bind at 1, io_get at 1 in Hp.
  set (events := keep_events (operator_events s ++ [event])) in *. unfold mbind at 1, io_bind at 1, io_lift at 1, json_text in Hp.
  destruct (dump _) as [text|] eqn:Hdump; [|injection Hp as <- <-; split; [done|]; split; [done|]; by repeat split].
  unfold mbind, io_bind in Hp. destruct (durable_replace data_dir text s) as [s1 [u|y]] eqn:Hd; apply durable_cases in Hd as (Hf & Hw & He).
  - injection Hp as <- <-. split; [left; exists text; split; [exact Hdump|exact He]|].
    split; [split; [done|split; [done|apply keep_events_bound]]|]. by split.
  - injection Hp as <- <-. split; [by eapply saved_same|]. split; [by eapply bounded_same|]. split; [done|apply Hf].
Qed.
Lemma sync_cases state actor action from to s s' x : size_of (act_id actor) <= 128 -> saved s -> bounded s ->
  sync_maintenance_registry config data_dir state actor action from to s = (s', x) ->
  saved s' /\ bounded s' /\ rt_same (sv_rt s) (sv_rt s') /\ maintenance_mode s' = maintenance_mode s.
Proof.
  intros Ha Hsv Hb Hs. unfold sync_maintenance_registry in Hs. destruct (coordinated config); cbn [negb] in Hs.
  2: { injection Hs as <- <-. split; [exact Hsv|]. split; [exact Hb|]. by split. }
  unfold io_catch_all, on_runtime in Hs. pose proof (coord_same (set_instance_state (instance_id config) state) (sv_rt s)) as Hc.
  destruct (r_coord (set_instance_state (instance_id config) state) (sv_rt s)) as [w1 [u|y]]; cbn [fst] in Hc.
  { injection Hs as <- <-. split; [exact Hsv|]. split; [exact Hb|]. by split. }
  unfold mbind at 1, io_bind at 1 in Hs. cbn [sv_rt] in Hs. change (sv_rt (s <| sv_rt := w1 |>)) with w1 in Hs.
  destruct (now_run w1) as (w2 & n & Hn & Ht). rewrite Hn in Hs.
  set (s2 := (s <| sv_rt := w1 |>) <| sv_rt := w2 |>) in Hs. unfold mbind at 1, io_bind at 1, io_get at 1 in Hs. unfold mbind, io_bind in Hs.
  match type of Hs with context [persist_maintenance_state data_dir ?a ?b ?c ?d s2] =>
    destruct (persist_maintenance_state data_dir a b c d s2) as [s3 [u|z]] eqn:Hp;
    (apply (persist_cases a b c d) in Hp as (H1 & H2 & H3 & H4); [|apply Hb|done|exact Hsv|exact Hb]) end; injection Hs as <- <-;
    (split; [done|]; split; [done|]; split; [|done]).
  all: etransitivity; [exact Hc|etransitivity; [by apply ticks_same|exact H3]].
Qed.

(** ** The operations *)

Inductive Maintaining := Drain | Resume | Enter.
Definition maintain (op : Maintaining) (actor : Actor) : SIO unit :=
  match op with
  | Drain => request_drain config data_dir actor
  | Resume => resume_instance config data_dir actor
  | Enter => enter_maintenance config stale_after_ms data_dir actor
  end.
(** Where an operation can take the mode. *)
Inductive mode_step (idle : bool) : MaintenanceMode -> MaintenanceMode -> Prop :=
  | mode_stays m : mode_step idle m m
  | mode_drains : mode_step idle ModeActive ModeDraining
  | mode_enters : idle = true -> mode_step idle ModeDraining ModeMaintenance
  | mode_resumes m : mode_step idle m ModeActive.
Definition work_same (w w' : RT) : Prop := active w' = active w /\ active_nodes w' = active_nodes w.
Record maintained (s s' : SV) : Prop := {
  md_ok : service_ok s';
  md_step : mode_step (no_work (sv_rt s)) (maintenance_mode s) (maintenance_mode s');
  md_work : work_same (sv_rt s) (sv_rt s') }.

Lemma maintained_refl s : service_ok s -> maintained s s.
Proof. intros Hok. split; [done|constructor|by split]. Qed.
Lemma actor_size actor : operator_actor actor = true -> size_of (act_id actor) <= 128.
Proof. unfold operator_actor. rewrite !andb_true_iff, Z.leb_le. tauto. Qed.
Lemma require_run actor s : operator_actor actor = true -> require_operator_actor actor s = (s, TOk tt).
Proof. intros Ha. unfold require_operator_actor, io_guard, io_lift. by rewrite Ha. Qed.
Lemma require_refuses actor s : operator_actor actor = false ->
  require_operator_actor actor s = (s, TThrow (TError (err PolicyError "Operator access required"))).
Proof. intros Ha. unfold require_operator_actor, io_guard, io_lift. by rewrite Ha. Qed.
Lemma refused op actor s : operator_actor actor = false ->
  maintain op actor s = (s, TThrow (TError (err PolicyError "Operator access required"))).
Proof.
  intros Ha. destruct op; unfold maintain, request_drain, resume_instance, enter_maintenance, mbind, io_bind; by rewrite require_refuses.
Qed.

(** The mode of the runtime is moved first, and moved back when the state cannot be persisted. *)
Definition with_mode (m : MaintenanceMode) (s : SV) : SV := s <| sv_rt := (sv_rt s) <| mode := m |> |>.
Lemma moved_and_persisted to since actor event s s' x : size_of since <= 64 -> size_of actor <= 128 -> service_ok s ->
  (_ ← on_runtime (set_maintenance_mode to);
   io_cleanup (persist_maintenance_state data_dir to since actor event) (on_runtime (set_maintenance_mode (maintenance_mode s)))) s = (s', x) ->
  service_ok s' /\ work_same (sv_rt s) (sv_rt s')
  /\ match x with TOk _ => maintenance_mode s' = to | TThrow _ => maintenance_mode s' = maintenance_mode s end.
Proof.
  intros Hs Ha [Hm Hsv Hb] Hr. unfold mbind, io_bind in Hr. change (on_runtime (set_maintenance_mode to) s) with (with_mode to s, @TOk unit tt) in Hr.
  cbv beta iota in Hr. unfold io_cleanup in Hr.
  destruct (persist_maintenance_state data_dir to since actor event (with_mode to s)) as [s1 [u|y]] eqn:Hp;
    (apply persist_cases in Hp as (H1 & H2 & (H3 & H4 & H5) & H6); [|done|done|exact Hsv|exact Hb]).
  - injection Hr as <- <-. split; [split; [by rewrite H3, H6|done|done]|]. by split.
  - injection Hr as <- <-. split; [split; [|exact H1|exact H2]|].
    + symmetry. exact H6.
    + split; [split; [exact H4|exact H5]|exact H6].
Qed.
Hypothesis stamps : forall n, size_of (rt_timestamp n) <= 64.

(** The rest of an operation after its mode has been persisted. *)
Lemma synced s s1 s' state actor action from to x : operator_actor actor = true -> maintained s s1 ->
  sync_maintenance_registry config data_dir state actor action from to s1 = (s', x) -> maintained s s'.
Proof.
  intros Ha [[Hm Hsv Hb] Hst [Hw1 Hw2]] Hs. apply sync_cases in Hs as (H1 & H2 & (H3 & H4 & H5) & H6); [|by apply actor_size|done..].
  split; [split; [congruence|done|done]|by rewrite H6|split; congruence].
Qed.
(** Only the clock was read. *)
Lemma stamped s : service_ok s -> exists s1 n, on_runtime now_string s = (s1, TOk (rt_timestamp n)) /\ maintained s s1
  /\ same_state s s1 /\ no_work (sv_rt s1) = no_work (sv_rt s).
Proof.
  intros [Hm Hsv Hb]. destruct (now_run (sv_rt s)) as (w1 & n & Hn & Ht). apply ticks_same in Ht as (H1 & H2 & H3).
  exists (s <| sv_rt := w1 |>), n. unfold on_runtime at 1. rewrite Hn. split; [done|]. split.
  - split; [split; [|exact Hsv|exact Hb]|constructor|by split]. simpl. congruence.
  - split; [by repeat split|]. unfold no_work. simpl. by rewrite H2, H3.
Qed.
(** An operation that moves the mode, persists it and tells the registry. *)
Lemma moved_maintained s s1 s' to since actor event (rest : SIO unit) x : operator_actor actor = true -> maintained s s1 -> same_state s s1 ->
  size_of since <= 64 -> mode_step (no_work (sv_rt s)) (maintenance_mode s) to ->
  (forall s2 s3 y, maintained s s2 -> rest s2 = (s3, y) -> maintained s s3) ->
  (_ ← on_runtime (set_maintenance_mode to);
   _ ← io_cleanup (persist_maintenance_state data_dir to since (act_id actor) event) (on_runtime (set_maintenance_mode (maintenance_mode s)));
   rest) s1 = (s', x) -> maintained s s'.
Proof.
  intros Ha [Hok Hst [Hw1 Hw2]] (Hf & _) Hs Hstep Hrest Hr. rewrite <- Hf in Hr.
  set (pre := _ ← on_runtime (set_maintenance_mode to); io_cleanup (persist_maintenance_state data_dir to since (act_id actor) event)
     (on_runtime (set_maintenance_mode (maintenance_mode s1)))).
  assert (Heq : (pre ≫= fun _ => rest) s1 = (s', x)).
  { rewrite <- Hr. unfold pre, mbind, io_bind. destruct (on_runtime (set_maintenance_mode to) s1) as [s2 [u|y]]; [|done].
    by destruct (io_cleanup _ _ s2) as [s3 [v|y]]. }
  unfold mbind, io_bind in Heq. destruct (pre s1) as [s2 [u|y]] eqn:Hp;
    (apply moved_and_persisted in Hp as (H1 & [H2 H3] & H4); [|done|by apply actor_size|done]).
  - eapply Hrest; [|exact Heq]. split; [done|by rewrite H4|split; congruence].
  - injection Heq as <- <-. split; [done|rewrite H4, Hf; constructor|split; congruence].
Qed.
Lemma drain_maintained actor s s' x : operator_actor actor = true -> service_ok s ->
  request_drain config data_dir actor s = (s', x) -> maintained s s'.
Proof.
  intros Ha Hok Hd. unfold request_drain in Hd. rewrite (io_bind_run _ _ _ _ _ (require_run actor s Ha)) in Hd.
  unfold mbind at 1, io_bind at 1, io_get at 1 in Hd.
  destruct (maintenance_mode s) eqn:Hmode; [|by eapply synced; [done|by apply maintained_refl|]..].
  destruct (stamped s Hok) as (s1 & n & Hn & Hmt & Hf & Hw). rewrite (io_bind_run _ _ _ _ _ Hn) in Hd. rewrite <- Hmode in Hd.
  eapply moved_maintained; [exact Ha|exact Hmt|exact Hf|apply stamps|rewrite Hmode; constructor| |exact Hd].
  intros s2 s3 y Hs2. by apply synced.
Qed.
Lemma enter_maintained actor s s' x : operator_actor actor = true -> service_ok s ->
  enter_maintenance config stale_after_ms data_dir actor s = (s', x) -> maintained s s'.
Proof.
  intros Ha Hok Hd. unfold enter_maintenance in Hd. rewrite (io_bind_run _ _ _ _ _ (require_run actor s Ha)) in Hd.
  unfold mbind at 1, io_bind at 1, io_get at 1 in Hd. case_bool_decide as Hmode; [by eapply synced; [done|by apply maintained_refl|]|].
  unfold mbind at 1, io_bind at 1, io_guard at 1, io_lift at 1 in Hd.
  destruct (negb (bool_decide (maintenance_mode s = ModeDraining)) || negb (no_work (sv_rt s))) eqn:Hg; cbn [tguard] in Hd;
    [injection Hd as <- <-; by apply maintained_refl|].
  apply orb_false_iff in Hg as [Hdr%negb_false_iff%bool_decide_eq_true Hidle%negb_false_iff].
  assert (Hcoord : forall s1 r, (if coordinated config then current ← this_instance config stale_after_ms;
       io_guard (match current with Some i => String.eqb (i_state i) "STALE" | None => true end) StorageError
         "Instance coordination state is unavailable" else mret tt) s = (s1, r) -> service_ok s1 /\ maintained s s1 /\ same_state s s1
       /\ no_work (sv_rt s1) = no_work (sv_rt s)).
  { intros s1 r Hc. destruct (coordinated config); [|injection Hc as <- <-; split; [done|]; split; [by apply maintained_refl|by repeat split]].
    unfold mbind, io_bind, this_instance, on_runtime in Hc.
    pose proof (coord_same (fun clk => current_instance (instance_id config) stale_after_ms (clk 0%nat)) (sv_rt s)) as Hcs.
    destruct (r_coord _ (sv_rt s)) as [w1 [cur|y]]; cbn [fst] in Hcs; destruct Hcs as (H1 & H2 & H3); destruct Hok as [Hm Hsv Hb].
    all: assert (Hs1 : s1 = s <| sv_rt := w1 |>) by (by injection Hc).
    all: assert (Hok1 : service_ok s1) by (subst s1; split; [simpl; congruence|exact Hsv|exact Hb]).
    all: split; [exact Hok1|]; split; [split; [exact Hok1|subst s1; constructor|subst s1; by split]|].
    all: subst s1; split; [by repeat split|]; unfold no_work; simpl; by rewrite H2, H3. }
  unfold mbind at 1, io_bind at 1 in Hd. match type of Hd with context [(if coordinated config then ?a else ?b) s] =>
    destruct ((if coordinated config then a else b) s) as [s1 [u|y]] end; destruct (Hcoord _ _ eq_refl) as (Hok1 & Hmt & Hf & Hw).
  2: { injection Hd as <- <-. exact Hmt. }
  destruct (stamped s1 Hok1) as (s2 & n & Hn & Hmt2 & Hf2 & Hw2). rewrite (io_bind_run _ _ _ _ _ Hn) in Hd.
  assert (Hf' : same_state s s2) by (destruct Hf as (? & ? & ? & ?), Hf2 as (? & ? & ? & ?); repeat split; congruence).
  rewrite <- Hdr in Hd.
  eapply (moved_maintained s s2); [exact Ha| |exact Hf'|apply stamps|rewrite Hdr; by constructor| |exact Hd].
  - destruct Hmt2 as [H1 _ [H2 H3]], Hmt as [_ _ [H4 H5]]. split; [done|destruct Hf' as (-> & _); constructor|split; congruence].
  - intros s3 s4 y Hs2. by apply synced.
Qed.
Lemma resume_maintained actor s s' x : operator_actor actor = true -> service_ok s ->
  resume_instance config data_dir actor s = (s', x) -> maintained s s'.
Proof.
  intros Ha Hok Hd. unfold resume_instance in Hd. rewrite (io_bind_run _ _ _ _ _ (require_run actor s Ha)) in Hd.
  unfold mbind at 1, io_bind at 1, io_get at 1 in Hd. case_bool_decide as Hmode; [injection Hd as <- <-; by apply maintained_refl|].
  unfold mbind at 1, io_bind at 1 in Hd. match type of Hd with context [(if coordinated config then ?a else ?b) s] =>
    destruct ((if coordinated config then a else b) s) as [s1 r1] eqn:Hc end.
  assert (Hmt : maintained s s1).
  { destruct (coordinated config); [by eapply synced; [done|by apply maintained_refl|]|]. injection Hc as <- <-. by apply maintained_refl. }
  destruct r1 as [u|y]; [|injection Hd as <- <-; exact Hmt].
  destruct (stamped s1 (md_ok _ _ Hmt)) as (s2 & n & Hn & Hmt2 & Hf2 & _). rewrite (io_bind_run _ _ _ _ _ Hn) in Hd.
  unfold mbind at 1, io_bind at 1, io_get at 1 in Hd. unfold mbind, io_bind in Hd.
  destruct Hmt2 as [[Hm2 Hsv2 Hb2] _ [Hw3 Hw4]], Hmt as [_ Hst [Hw1 Hw2]].
  match type of Hd with context [persist_maintenance_state data_dir ?a ?b ?c ?d s2] =>
    destruct (persist_maintenance_state data_dir a b c d s2) as [s3 [u3|z]] eqn:Hp;
    (apply persist_cases in Hp as (H1 & H2 & (H3 & H4 & H5) & H6); [|done|by apply actor_size|done|done]) end; injection Hd as <- <-.
  - split; [split; [symmetry; exact H6|exact H1|exact H2]|change (mode_step (no_work (sv_rt s)) (maintenance_mode s) (maintenance_mode s3)); rewrite H6; constructor|].
    split; simpl; congruence.
  - split; [split; [congruence|done|done]|rewrite H6, (proj1 Hf2); exact Hst|split; congruence].
Qed.
Lemma maintain_maintained op actor s s' x : service_ok s -> maintain op actor s = (s', x) -> maintained s s'.
Proof.
  intros Hok Hr. destruct (operator_actor actor) eqn:Ha; [|rewrite refused in Hr by done; injection Hr as <- _; by apply maintained_refl].
  destruct op; [by eapply drain_maintained|by eapply resume_maintained|by eapply enter_maintained].
Qed.
End Service.

(** ** Restart *)

Section Restart.
Context `{L : JsonLib} {HL : JsonLaws L} `{Y : YamlLib} {E : RuntimeEnv} {F : FileEnv} {V : SvcEnv}.
Context (data_dir : path).

Lemma bytes_length text : Z.of_nat (length (text_bytes text)) = size_of text.
Proof.
  unfold text_bytes, size_of. f_equal. unfold String.list_byte_of_string. rewrite length_map.
  induction text as [|c text IH]; [done|]. simpl. by rewrite IH.
Qed.
Lemma mode_name_parses m : parse_maintenance_mode (maintenance_mode_name m) = TOk m.
Proof. by destruct m. Qed.
Definition document_of (version : Json) (s : SV) : Json :=
  maintenance_document version (maintenance_mode s) (maintenance_started_at s) (maintenance_actor s) (operator_events s).
(** The text of the state fits the limit of the reader and parses to what was written. *)
Definition reads_back (s : SV) : Prop := forall text, dump (document_of (JInt 1) s) = Some text ->
  size_of text <= max_state_bytes /\ json_parse text = Some (document_of (JUnsigned 1) s).
Lemma read_state_ok text s : json_parse text = Some (document_of (JUnsigned 1) s) -> bounded s ->
  read_state text = TOk (maintenance_mode s, maintenance_started_at s, maintenance_actor s, operator_events s).
Proof.
  intros Hp (Ha & Hs & He). unfold read_state. rewrite Hp. cbn [mbind tres_bind]. set (d := document_of (JUnsigned 1) s).
  change (value_ dec_unsigned d "version" 0) with (dec_unsigned (JUnsigned 1)). rewrite dec_unsigned_of by (unfold fits32, u32_max; lia).
  cbn [mbind tres_bind tguard negb Z.eqb]. change (value_ dec_string d "state" "") with (dec_string (JString (maintenance_mode_name (maintenance_mode s)))).
  rewrite dec_string_of. cbn [mbind tres_bind]. rewrite mode_name_parses. cbn [mbind tres_bind].
  change (value_ dec_string d "since" "") with (dec_string (JString (maintenance_started_at s))). rewrite dec_string_of. cbn [mbind tres_bind].
  change (value_ dec_string d "actor" "") with (dec_string (JString (maintenance_actor s))). rewrite dec_string_of. cbn [mbind tres_bind].
  rewrite (proj2 (Z.ltb_ge _ _) Ha), (proj2 (Z.ltb_ge _ _) Hs). cbn [mbind tres_bind tguard orb].
  change (default (JArray []) (member d "events")) with (JArray (operator_events s)). cbv beta iota.
  rewrite (proj2 (Nat.ltb_ge _ _) He). done.
Qed.
Definition restarted (w : RT) (s : SV) : SV := mkSV w (sv_fs s) ModeActive "" "" [].
Lemma load_restores s w : saved data_dir s -> bounded s -> (forall n, io_ok n = true) ->
  symlink_at (maintenance_state_path data_dir) = false -> reads_back s ->
  exists s', load_maintenance_state data_dir (restarted w s) = (s', TOk tt) /\ same_state s s'
    /\ mode (sv_rt s') = maintenance_mode s /\ state_entry data_dir s' = state_entry data_dir s.
Proof.
  intros Hsv Hb Hio Hlink Hread. unfold load_maintenance_state.
  assert (Hcall : forall s0 : SV, on_fs outcome_of s0 = (s0 <| sv_fs := (sv_fs s0) <| io_calls := S (io_calls (sv_fs s0)) |> |>, TOk true)).
  { intros s0. unfold on_fs, outcome_of, mbind, io_bind, io_call. cbn [mret io_ret]. by rewrite Hio. }
  rewrite (io_bind_run _ _ _ _ _ (Hcall _)). set (s1 := (restarted w s) <| sv_fs := _ |>).
  rewrite (io_bind_run _ _ s1 s1 s1 eq_refl). rewrite Hlink. cbn [andb negb].
  assert (Hentry : files (sv_fs s1) !! maintenance_state_path data_dir = state_entry data_dir s) by done.
  rewrite Hentry. destruct Hsv as [(text & Hdump & Hfile)|(Hnone & Hm & Hst & Hac & Hev)].
  - destruct (Hread text Hdump) as [Hsize Hparse]. rewrite Hfile. rewrite (io_bind_run _ _ _ _ _ (Hcall s1)). set (s2 := s1 <| sv_fs := _ |>).
    rewrite bytes_length, (proj2 (Z.ltb_ge _ _) Hsize). rewrite (io_bind_run _ _ s2 s2 tt eq_refl).
    assert (Hreadf : on_fs (read_regular (maintenance_state_path data_dir)) s2
      = (s2 <| sv_fs := (sv_fs s2) <| io_calls := S (io_calls (sv_fs s2)) |> |>, TOk (Some (text_bytes text)))).
    { unfold on_fs, read_regular, mbind, io_bind, io_call, io_get. cbn [mret io_ret]. rewrite Hio.
      change (files _ !! maintenance_state_path data_dir) with (state_entry data_dir s). by rewrite Hfile. }
    rewrite (io_bind_run _ _ _ _ _ Hreadf). set (s3 := s2 <| sv_fs := _ |>). unfold bytes_text, text_bytes.
    rewrite String.string_of_list_byte_of_string, (read_state_ok text s Hparse Hb). rewrite (io_bind_run _ _ s3 s3 _ eq_refl).
    eexists. split; [reflexivity|]. split; [by repeat split|]. split; [done|]. exact Hfile.
  - rewrite Hnone. eexists. split; [reflexivity|]. split; [|split; [by rewrite Hm|exact Hnone]].
    unfold same_state. rewrite Hm, Hst, Hac, Hev. done.
Qed.
End Restart.

(** ** Properties *)

(** C14: the mode of an instance.  After draining, resuming or entering maintenance, by whatever actor and
    whatever fails on the way (the disk, the coordination database), the mode the runtime
    admits work by, the mode of the service and the mode in the state file are the same; the file
    can be read back; maintenance is entered only from a drained instance, with no run and no node
    active; and no operation stops or starts work. *)
Theorem maintenance_invariant `{L : JsonLib} {HL : JsonLaws L} `{Y : YamlLib} {E : RuntimeEnv} {F : FileEnv} {V : SvcEnv}
    config stale_after_ms data_dir op actor s s' x :
  (forall n, size_of (rt_timestamp n) <= 64) -> service_ok data_dir s ->
  maintain config stale_after_ms data_dir op actor s = (s', x) ->
  service_ok data_dir s' /\ work_same (sv_rt s) (sv_rt s')
  /\ mode_step (no_work (sv_rt s)) (maintenance_mode s) (maintenance_mode s').
Proof. intros Hn Hok Hr. destruct (maintain_maintained config stale_after_ms data_dir Hn op actor s s' x Hok Hr) as [H1 H2 H3]. done. Qed.

(** A restart takes up the state.  When the state file can be read and its text parses to what was
    written, a new service on the same data directory comes up with the mode, its start, its actor and
    the events of the last one, and its runtime admits work accordingly. *)
Theorem maintenance_restart `{L : JsonLib} {HL : JsonLaws L} `{Y : YamlLib} {E : RuntimeEnv} {F : FileEnv} {V : SvcEnv} data_dir s w :
  service_ok data_dir s -> (forall n, io_ok n = true) -> symlink_at (maintenance_state_path data_dir) = false -> reads_back s ->
  exists s', load_maintenance_state data_dir (restarted w s) = (s', TOk tt) /\ same_state s s' /\ service_ok data_dir s'.
Proof.
  intros [Hm Hsv Hb] Hio Hl Hr. destruct (load_restores data_dir s w Hsv Hb Hio Hl Hr) as (s' & Hload & Hf & Hmode & He).
  exists s'. split; [done|]. split; [done|]. split.
  - rewrite Hmode. by destruct Hf as (-> & _).
  - by eapply saved_same.
  - by eapply bounded_same.
Qed.

(** C28: safe to stop means idle.  When the report of an instance says that it is safe to stop, no run and no
    node is active on it, it is draining or in maintenance, and every attempt to start a run, a child
    of another run included, is refused as unavailable before anything is stored. *)
Theorem safe_to_stop_sound `{L : JsonLib} `{Y : YamlLib} {E : RuntimeEnv} config stale_after_ms data_dir s s' j :
  service_ok data_dir s -> operator_maintenance config stale_after_ms s = (s', TOk j) ->
  member j "safe_to_stop" = Some (JBool true) ->
  active (sv_rt s) = ∅ /\ active_nodes (sv_rt s) = ∅ /\ maintenance_mode s <> ModeActive
  /\ forall p input actor parent node depth message origin meta session turn owner fence,
       run config p input actor parent node depth message origin meta session turn owner fence (sv_rt s)
       = (sv_rt s, TThrow (TError (err Unavailable "Instance is not accepting new work"))).
Proof.
  intros [Hm _ _] Hr Hsafe. unfold operator_maintenance in Hr. unfold mbind at 1, io_bind at 1, io_get at 1 in Hr.
  apply io_bind_ok in Hr as (s1 & [visible cluster] & _ & Hr). injection Hr as _ <-.
  change (Some (JBool (visible && (negb (coordinated config) || str_one_of cluster ["DRAINING"; "DRAINED"; "MAINTENANCE"]%string)
    && no_work (sv_rt s) && str_one_of (state_name (maintenance_mode s) (no_work (sv_rt s))) ["drained"; "maintenance"]%string)) = Some (JBool true)) in Hsafe.
  injection Hsafe as Hsafe. rewrite !andb_true_iff in Hsafe. destruct Hsafe as [[_ Hidle] Hname].
  assert (Hmode : maintenance_mode s <> ModeActive).
  { intros Heq. unfold state_name in Hname. rewrite Heq in Hname. vm_compute in Hname. discriminate. }
  unfold no_work in Hidle. apply andb_true_iff in Hidle as [H1%Nat.eqb_eq H2%Nat.eqb_eq].
  apply map_size_empty_iff in H1, H2. split_and!; [done..|]. intros.
  unfold run, admit_run, mbind, io_bind, io_get, io_guard, io_lift. unfold accepts_new_work.
  rewrite bool_decide_eq_false_2 by congruence. rewrite H1, lookup_empty. by destruct (empty_str parent); rewrite orb_true_r.
Qed.

(** ** An instance *)

Section Witness.
Definition steady_files : FileEnv := {| io_ok := fun _ => true; io_partial := fun _ _ => []; io_flushed := fun _ => true; io_eexist := fun _ => false; io_kept := fun _ _ => false |}.
Definition plain_paths : SvcEnv := {| symlink_at := fun _ => false |}.
#[local] Existing Instances strict_json strict_json_laws sample_runtime_env steady_files plain_paths.

Definition sample_dir : path := ["var"; "laso"]%string.
Definition sample_operator : Actor := mkActor "ops@example" true "operator".
Definition idle_rt : RT := mkRT (mkCoord empty_db 0 0 0) 0 ∅ ∅ ModeActive false false false [] [] [] [].
Definition new_service : SV := mkSV idle_rt (mkFS ∅ 0) ModeActive "" "" [].
Definition drained_service : SV := (maintain sample_config 30000 sample_dir Drain sample_operator new_service).1.
Definition stopped_service : SV := (maintain sample_config 30000 sample_dir Enter sample_operator drained_service).1.
Example stopped_modes : (maintenance_mode drained_service, maintenance_mode stopped_service, mode (sv_rt stopped_service))
  = (ModeDraining, ModeMaintenance, ModeMaintenance).
Proof. vm_compute. reflexivity. Qed.
(** A parser that reads the state of the stopped instance. *)
Definition state_parser : YamlLib := {|
  LoadAll := fun _ => None; as_string := fun _ => None; as_longlong := fun _ => None;
  json_parse := fun _ => Some (document_of (JUnsigned 1) stopped_service) |}.
#[local] Existing Instance state_parser.

Lemma sample_stamps n : size_of (rt_timestamp n) <= 64.
Proof. vm_compute. discriminate. Qed.
Lemma new_service_ok : service_ok sample_dir new_service.
Proof. split; [done|right; by repeat split|]. repeat split; vm_compute; try discriminate. lia. Qed.
Lemma run_eta {A} (r : SV * tres A) : r = (r.1, r.2).
Proof. by destruct r. Qed.
Lemma drained_service_ok : service_ok sample_dir drained_service.
Proof.
  pose proof (run_eta (maintain sample_config 30000 sample_dir Drain sample_operator new_service)) as Hr. fold drained_service in Hr.
  apply maintain_maintained in Hr; [|apply sample_stamps|apply new_service_ok]. apply Hr.
Qed.
Lemma stopped_service_ok : service_ok sample_dir stopped_service.
Proof.
  pose proof (run_eta (maintain sample_config 30000 sample_dir Enter sample_operator drained_service)) as Hr. fold stopped_service in Hr.
  apply maintain_maintained in Hr; [|apply sample_stamps|apply drained_service_ok]. apply Hr.
Qed.

Lemma maintenance_invariant_witness :
  service_ok sample_dir stopped_service /\ work_same (sv_rt drained_service) (sv_rt stopped_service)
  /\ mode_step (no_work (sv_rt drained_service)) ModeDraining ModeMaintenance.
Proof.
  exact (maintenance_invariant sample_config 30000 sample_dir Enter sample_operator drained_service stopped_service
           (maintain sample_config 30000 sample_dir Enter sample_operator drained_service).2 sample_stamps drained_service_ok (run_eta _)).
Defined.
Lemma maintenance_restart_witness : exists s',
  load_maintenance_state sample_dir (restarted idle_rt stopped_service) = (s', TOk tt) /\ same_state stopped_service s' /\ service_ok sample_dir s'.
Proof.
  apply (maintenance_restart sample_dir stopped_service idle_rt stopped_service_ok); [done|done|].
  intros text [= <-]. split; [vm_compute; discriminate|reflexivity].
Defined.
Definition stopped_report : SV * tres Json := operator_maintenance sample_config 30000 stopped_service.
Lemma safe_to_stop_sound_witness :
  active (sv_rt stopped_service) = ∅ /\ active_nodes (sv_rt stopped_service) = ∅ /\ maintenance_mode stopped_service <> ModeActive
  /\ forall p input actor parent node depth message origin meta session turn owner fence,
       run sample_config p input actor parent node depth message origin meta session turn owner fence (sv_rt stopped_service)
       = (sv_rt stopped_service, TThrow (TError (err Unavailable "Instance is not accepting new work"))).
Proof.
  eapply (safe_to_stop_sound sample_config 30000 sample_dir stopped_service stopped_report.1 _ stopped_service_ok).
  - assert (Hok : stopped_report = (stopped_report.1, TOk (match stopped_report.2 with TOk j => j | TThrow _ => JNull end)));
      [|exact Hok]. vm_compute. reflexivity.
  - vm_compute. reflexivity.
Defined.
End Witness.
