(* ===== verification/Pool.v ===== *)
(** * The pool of connections

    [src/storage/postgres_pool.cpp]: connections to the database that threads take and give back.
    A lease is an object that names the slot of its connection; it can be moved and gives the slot back
    when it is destroyed or assigned to.  A thread that finds nothing to take waits on the condition
    variable until it is woken or its deadline passes.

    The state holds the pool, the live lease objects and the threads that wait.  Every operation runs
    under the mutex from its last look at the condition on, so that it is one step; lease objects and
    connections are named by the number of the call that made them.  The connection library, the
    clocks and the choice of the thread that [notify_one] wakes are parameters. *)

From S2P Require Import Prelude Json Text Db Store Effects.

Record PoolOptions := mkPoolOptions { min_connections : nat; max_connections : nat; acquisition_timeout_ms : Z }.
Record Slot := mkSlot { slot_connection : option nat; slot_in_use : bool }.
Record PoolState := mkPoolState {
  pool_options : PoolOptions; slots : list Slot; pool_shutting_down : bool;
  acquisition_timeouts : Z; replacements : Z }.
#[global] Instance eta_PoolState : Eta PoolState := fun r => mkPoolState (pool_options r) (slots r) (pool_shutting_down r)
  (acquisition_timeouts r) (replacements r).
(** [state_], [index_] (the value -1 is [None]) and [broken_] *)
Record PoolLease := mkPoolLease { lease_state : bool; lease_index : option nat; lease_broken : bool }.
Record Waiter := mkWaiter { wt_thread : nat; wt_deadline : Z; wt_woken : bool }.
(** [pw_failed] remembers that a thread which could take a connection threw instead: its connect failed, or
    its deadline had passed before it came to connect. *)
Record PW := mkPW {
  pw_state : PoolState; pw_leases : gmap nat PoolLease; pw_waiting : list Waiter; pw_calls : nat; pw_failed : bool }.
#[global] Instance eta_PW : Eta PW := fun r => mkPW (pw_state r) (pw_leases r) (pw_waiting r) (pw_calls r) (pw_failed r).
Abbreviation PIO := (IO PW).

(** How an attempt to connect can fail: with an error of the program ([connect] gives up), or with
    an exception of the library. *)
Inductive ConnectFailure := CfError (e : Error) | CfBroken | CfSql | CfOther.
Class PoolEnv := {
  pool_clock : nat -> Z;
  connects : nat -> Z -> option ConnectFailure;
  conn_open : nat -> bool;
  pick : nat -> nat }.

Section Pool.
Context {E : PoolEnv}.

Definition pool_call : PIO nat := fun w => (w <| pw_calls := S (pw_calls w) |>, TOk (pw_calls w)).
Definition steady_now : PIO Z := n ← pool_call; mret (pool_clock n).
Definition on_state (f : PoolState -> PoolState) : PIO unit := io_modify (fun w => w <| pw_state := f (pw_state w) |>).
Definition nanos (ms : Z) : Z := 1000000 * ms.
(** [std::chrono::ceil<std::chrono::milliseconds>] *)
Definition ceil_ms (ns : Z) : Z := - (- ns / 1000000).

(** A connection, named by the call that opened it. *)
Definition connect_error (sql : string) (f : ConnectFailure) : Error :=
  match f with
  | CfError e => e
  | CfBroken => err StorageError "Cannot connect to PostgreSQL"
  | CfSql | CfOther => err StorageError sql
  end.
Definition open_connection (sql : string) (max_wait : Z) : PIO nat :=
  n ← pool_call;
  match connects n max_wait with
  | None => mret n
  | Some f => io_lift (TThrow (TError (connect_error sql f)))
  end.

(** ** Construction *)

Definition check_options (o : PoolOptions) : bool :=
  Nat.eqb (min_connections o) 0 || Nat.ltb (max_connections o) (min_connections o) || Nat.ltb 64 (max_connections o)
  || (acquisition_timeout_ms o =? 0) || (60000 <? acquisition_timeout_ms o).
Definition pool_init_failed : string := "PostgreSQL connection pool initialization failed".
Fixpoint fill (n : nat) : PIO unit :=
  match n with
  | O => mret tt
  | S n =>
      w ← io_get;
      c ← open_connection pool_init_failed (acquisition_timeout_ms (pool_options (pw_state w)));
      _ ← on_state (fun st => st <| slots := slots st ++ [mkSlot (Some c) false] |>);
      fill n
  end.
Definition empty_pool (o : PoolOptions) : PW := mkPW (mkPoolState o [] false 0 0) ∅ [] 0 false.
Definition construct_pool (dsn schema : string) (o : PoolOptions) : PIO unit :=
  _ ← io_guard (empty_str dsn) Configuration "PostgreSQL DSN is required";
  _ ← io_guard (check_options o) Configuration "Invalid PostgreSQL connection pool limits";
  _ ← io_lift (of_res (validate_schema schema));
  fill (min_connections o).

(** ** Taking a connection *)

Fixpoint free_slot (l : list Slot) (i : nat) : option nat :=
  match l with
  | [] => None
  | s :: l => if slot_in_use s then free_slot l (S i) else Some i
  end.
Definition ready (st : PoolState) : bool :=
  pool_shutting_down st || existsb (fun s => negb (slot_in_use s)) (slots st)
  || Nat.ltb (length (slots st)) (max_connections (pool_options st)).
Definition count_timeout (st : PoolState) : PoolState := st <| acquisition_timeouts := u64 (acquisition_timeouts st + 1) |>.
Definition timed_out_error {A} : PIO A :=
  _ ← on_state count_timeout; io_throw Capacity "PostgreSQL connection pool acquisition timed out".
Definition open_failed : string := "PostgreSQL connection initialization failed".
(** A new connection within the time that is left. *)
Definition open_within (deadline : Z) : PIO nat :=
  now ← steady_now;
  if deadline <=? now then timed_out_error else open_connection open_failed (ceil_ms (deadline - now)).
Definition new_lease (i : nat) : PIO nat :=
  x ← pool_call;
  _ ← io_modify (fun w => w <| pw_leases := <[x := mkPoolLease true (Some i) false]> (pw_leases w) |>);
  mret x.
Definition take (deadline : Z) : PIO nat :=
  w ← io_get;
  let st := pw_state w in
  match free_slot (slots st) 0 with
  | Some i =>
      c ← (match slots st !! i ≫= slot_connection with Some c => mret c | None => open_within deadline end);
      _ ← on_state (fun st => st <| slots := <[i := mkSlot (Some c) true]> (slots st) |>);
      new_lease i
  | None =>
      c ← open_within deadline;
      _ ← on_state (fun st => st <| slots := slots st ++ [mkSlot (Some c) true] |>);
      new_lease (length (slots st))
  end.

(** One look at the condition, with the mutex held: the thread leaves with a lease or an error, or it
    sleeps ([None]). *)
Definition look (t : nat) (deadline : Z) (timed_out : bool) : PIO (option nat) :=
  w ← io_get;
  if ready (pw_state w) then
    _ ← io_guard (pool_shutting_down (pw_state w)) StorageError "PostgreSQL connection pool is shutting down";
    x ← io_cleanup (take deadline) (io_modify (fun w => w <| pw_failed := true |>));
    mret (Some x)
  else if timed_out then timed_out_error
  else
    _ ← io_modify (fun w => w <| pw_waiting := pw_waiting w ++ [mkWaiter t deadline false] |>);
    mret None.
Definition acquire_within (t : nat) (max_wait : Z) : PIO (option nat) :=
  _ ← io_guard (max_wait <=? 0) Validation "PostgreSQL pool wait must be positive";
  w ← io_get;
  now ← steady_now;
  look t (now + nanos (max_wait `min` acquisition_timeout_ms (pool_options (pw_state w)))) false.
Definition acquire_connection (t : nat) : PIO (option nat) :=
  w ← io_get;
  acquire_within t (acquisition_timeout_ms (pool_options (pw_state w))).

(** A waiting thread looks again: it was woken, woke up by itself, or its deadline has passed. *)
Fixpoint leave (t : nat) (l : list Waiter) : option (Waiter * list Waiter) :=
  match l with
  | [] => None
  | v :: l =>
      if Nat.eqb (wt_thread v) t then Some (v, l)
      else match leave t l with Some (u, l) => Some (u, v :: l) | None => None end
  end.
Definition look_again (t : nat) (timed_out : bool) : PIO (option nat) :=
  w ← io_get;
  match leave t (pw_waiting w) with
  | Some (v, rest) =>
      _ ← io_modify (fun w => w <| pw_waiting := rest |>);
      look t (wt_deadline v) timed_out
  | None => mret None
  end.

(** ** Giving a connection back *)

(** [notify_one]: one of the threads that sleep is woken. *)
Fixpoint wake_nth (n : nat) (l : list Waiter) : list Waiter :=
  match l with
  | [] => []
  | v :: l =>
      if wt_woken v then v :: wake_nth n l
      else match n with O => mkWaiter (wt_thread v) (wt_deadline v) true :: l | S n => v :: wake_nth n l end
  end.
Definition asleep (l : list Waiter) : nat := length (filter (fun v => wt_woken v = false) l).
Definition awake (l : list Waiter) : nat := length (filter (fun v => wt_woken v = true) l).
Definition notify_one : PIO unit :=
  n ← pool_call;
  io_modify (fun w => w <| pw_waiting := wake_nth (pick n mod asleep (pw_waiting w)) (pw_waiting w) |>).
Definition notify_all : PIO unit :=
  io_modify (fun w => w <| pw_waiting := map (fun v => mkWaiter (wt_thread v) (wt_deadline v) true) (pw_waiting w) |>).

(** Whether the connection of a slot is to be replaced. *)
Definition worn (l : PoolLease) (s : Slot) : PIO bool :=
  if lease_broken l then mret true
  else match slot_connection s with
       | None => mret true
       | Some _ => n ← pool_call; mret (negb (conn_open n))
       end.
Definition give_back (l : PoolLease) : PIO unit :=
  if negb (lease_state l) then mret tt
  else match lease_index l with
  | None => mret tt
  | Some i =>
      w ← io_get;
      match slots (pw_state w) !! i with
      | None => mret tt
      | Some s =>
          if negb (slot_in_use s) then mret tt
          else
            broken ← worn l s;
            _ ← on_state (fun st =>
                  if (broken : bool)
                  then (st <| slots := <[i := mkSlot None false]> (slots st) |>) <| replacements := u64 (replacements st + 1) |>
                  else st <| slots := <[i := mkSlot (slot_connection s) false]> (slots st) |>);
            notify_one
      end
  end.
Definition destroy_lease (x : nat) : PIO unit :=
  w ← io_get;
  match pw_leases w !! x with
  | None => mret tt
  | Some l => _ ← give_back l; io_modify (fun w => w <| pw_leases := delete x (pw_leases w) |>)
  end.
(** What is left of a lease that was moved from. *)
Definition moved_from : PoolLease := mkPoolLease false None false.
Definition move_lease (x : nat) : PIO nat :=
  y ← pool_call;
  _ ← io_modify (fun w =>
        match pw_leases w !! x with
        | None => w
        | Some l => w <| pw_leases := <[y := l]> (<[x := moved_from]> (pw_leases w)) |>
        end);
  mret y.
Definition assign_lease (x y : nat) : PIO unit :=
  w ← io_get;
  match pw_leases w !! x, pw_leases w !! y with
  | Some l, Some other =>
      if Nat.eqb x y then mret tt
      else
        _ ← give_back l;
        io_modify (fun w => w <| pw_leases := <[x := other]> (<[y := moved_from]> (pw_leases w)) |>)
  | _, _ => mret tt
  end.
Definition mark_broken (x : nat) : PIO unit :=
  io_modify (fun w => w <| pw_leases :=
    alter (fun l => mkPoolLease (lease_state l) (lease_index l) true) x (pw_leases w) |>).
Definition lease_connection (l : PoolLease) : PIO nat :=
  match lease_state l, lease_index l with
  | true, Some i =>
      w ← io_get;
      match slots (pw_state w) !! i ≫= slot_connection with
      | Some c => mret c
      | None => io_throw StorageError "PostgreSQL connection pool lease is broken"
      end
  | _, _ => io_throw StorageError "Invalid PostgreSQL connection pool lease"
  end.
Definition lease_usable (l : PoolLease) : bool :=
  lease_state l && bool_decide (is_Some (lease_index l)) && negb (lease_broken l).
(** The destructor of the pool; the leases keep the state alive. *)
Definition destroy_pool : PIO unit :=
  _ ← on_state (fun st => st <| pool_shutting_down := true |>);
  notify_all.
(** [size], [in_use], [acquisition_timeouts], [replacements] *)
Definition pool_diagnostics (st : PoolState) : nat * nat * Z * Z :=
  (length (slots st), length (filter (fun s => slot_in_use s = true) (slots st)), acquisition_timeouts st, replacements st).

(** ** Histories *)

Inductive action :=
  | AAcquire (t : nat) (max_wait : option Z)
  | ALook (t : nat) (timed_out : bool)
  | ADestroy (x : nat) | AMove (x : nat) | AAssign (x y : nat) | ABreak (x : nat)
  | AShutdown.
Definition ignore {A} (m : PIO A) : PIO unit := _ ← m; mret tt.
Definition perform (a : action) : PIO unit :=
  match a with
  | AAcquire t (Some max_wait) => ignore (acquire_within t max_wait)
  | AAcquire t None => ignore (acquire_connection t)
  | ALook t timed_out => ignore (look_again t timed_out)
  | ADestroy x => destroy_lease x
  | AMove x => ignore (move_lease x)
  | AAssign x y => assign_lease x y
  | ABreak x => mark_broken x
  | AShutdown => destroy_pool
  end.
Fixpoint history (l : list action) (w : PW) : PW :=
  match l with [] => w | a :: l => history l (perform a w).1 end.
End Pool.

(** ** Ownership *)

Definition holds (l : PoolLease) (i : nat) : Prop := lease_state l = true /\ lease_index l = Some i.
#[global] Instance holds_dec l i : Decision (holds l i).
Proof. unfold holds. apply _. Defined.
Lemma holds_cases l : (exists i, holds l i) \/ forall i, ~ holds l i.
Proof.
  unfold holds. destruct (lease_state l), (lease_index l) as [i|]; [left; by exists i|right; naive_solver..].
Qed.
Definition used (sl : list Slot) (i : nat) : Prop := exists s, sl !! i = Some s /\ slot_in_use s = true.
Definition conn_of (sl : list Slot) (i : nat) : option nat := sl !! i ≫= slot_connection.

(** The slots in use and the leases that hold one correspond to each other; [n] bounds the names. *)
Record owned (n m : nat) (sl : list Slot) (ls : gmap nat PoolLease) : Prop := {
  ow_bound : (length sl <= m)%nat;
  ow_open : forall i, used sl i -> is_Some (conn_of sl i);
  ow_held : forall i, used sl i <-> exists x l, ls !! x = Some l /\ holds l i;
  ow_one : forall x y l l' i, ls !! x = Some l -> ls !! y = Some l' -> holds l i -> holds l' i -> x = y;
  ow_distinct : forall i j c, conn_of sl i = Some c -> conn_of sl j = Some c -> i = j;
  ow_conn : forall i c, conn_of sl i = Some c -> (c < n)%nat;
  ow_name : forall x l, ls !! x = Some l -> (x < n)%nat }.

(** A list with one slot replaced, or one appended. *)
Definition replaced (i : nat) (s : Slot) (sl sl' : list Slot) : Prop :=
  forall j, sl' !! j = if decide (j = i) then Some s else sl !! j.
Lemma replaced_insert i s sl : (i < length sl)%nat -> replaced i s sl (<[i := s]> sl).
Proof.
  intros Hi j. destruct (decide (j = i)) as [->|Hne]; [by apply list_lookup_insert_eq|by apply list_lookup_insert_ne].
Qed.
Lemma replaced_snoc s sl : replaced (length sl) s sl (sl ++ [s]).
Proof.
  intros j. destruct (decide (j = length sl)) as [->|Hne]; [by rewrite lookup_app_r, Nat.sub_diag|].
  destruct (decide (j < length sl)%nat); [by rewrite lookup_app_l|].
  rewrite (lookup_ge_None_2 sl) by lia. apply lookup_ge_None_2. rewrite length_app. simpl. lia.
Qed.
Lemma replaced_used i s sl sl' j : replaced i s sl sl' ->
  used sl' j <-> if decide (j = i) then slot_in_use s = true else used sl j.
Proof.
  intros Hr. unfold used. rewrite (Hr j). destruct (decide (j = i)); [|done].
  split; [by intros (s' & [= <-] & ?)|eauto].
Qed.
Lemma replaced_conn i s sl sl' j : replaced i s sl sl' ->
  conn_of sl' j = if decide (j = i) then slot_connection s else conn_of sl j.
Proof. intros Hr. unfold conn_of. rewrite (Hr j). by destruct (decide (j = i)). Qed.

Lemma owned_mono n n' m sl ls : (n <= n')%nat -> owned n m sl ls -> owned n' m sl ls.
Proof.
  intros Hn [H1 H2 H3 H4 H5 H6 H7]. split; [done..| |].
  - intros i c Hc. specialize (H6 i c Hc). lia.
  - intros x l Hx. specialize (H7 x l Hx). lia.
Qed.
Lemma owned_take n m sl sl' ls i c x :
  owned n m sl ls -> ~ used sl i -> replaced i (mkSlot (Some c) true) sl sl' -> (length sl' <= m)%nat ->
  (c < n)%nat -> (forall j, conn_of sl j = Some c -> j = i) -> ls !! x = None -> (x < n)%nat ->
  owned n m sl' (<[x := mkPoolLease true (Some i) false]> ls).
Proof.
  intros [H1 H2 H3 H4 H5 H6 H7] Hi Hr Hm Hc Hcj Hx Hxn.
  assert (Hfree : forall y l, ls !! y = Some l -> ~ holds l i) by (intros y l Hy Hh; apply Hi, H3; eauto).
  split.
  - done.
  - intros j. rewrite (replaced_used _ _ _ _ _ Hr), (replaced_conn _ _ _ _ _ Hr). destruct (decide (j = i)); [by eexists|apply H2].
  - intros j. rewrite (replaced_used _ _ _ _ _ Hr). destruct (decide (j = i)) as [->|Hne].
    + split; [|done]. intros _. exists x. eexists. split; [apply lookup_insert_eq|done].
    + rewrite H3. split; intros (y & l & Hy & Hh).
      * exists y, l. split; [|done]. rewrite lookup_insert_ne; [done|congruence].
      * apply lookup_insert_Some in Hy as [[<- <-]|[_ Hy]]; [destruct Hh as [_ [= <-]]; done|eauto].
  - intros y z l l' j Hy Hz Hh Hh'.
    apply lookup_insert_Some in Hy as [[<- <-]|[? Hy]], Hz as [[<- <-]|[? Hz]]; [done| | |by eapply H4].
    + destruct Hh as [_ [= <-]]. by destruct (Hfree _ _ Hz).
    + destruct Hh' as [_ [= <-]]. by destruct (Hfree _ _ Hy).
  - intros j k d. rewrite !(replaced_conn _ _ _ _ _ Hr).
    destruct (decide (j = i)) as [->|], (decide (k = i)) as [->|]; simpl; [done| | |apply H5].
    + intros [= <-] Hk. symmetry. by apply Hcj.
    + intros Hj [= <-]. by apply Hcj.
  - intros j d. rewrite (replaced_conn _ _ _ _ _ Hr). destruct (decide (j = i)); simpl; [by intros [= <-]|apply H6].
  - intros y l [[<- _]|[_ Hy]]%lookup_insert_Some; [done|by eapply H7].
Qed.
Lemma owned_free n m sl sl' ls i o x l :
  owned n m sl ls -> ls !! x = Some l -> holds l i -> o = None \/ o = conn_of sl i ->
  replaced i (mkSlot o false) sl sl' -> (length sl' <= m)%nat -> owned n m sl' (delete x ls).
Proof.
  intros [H1 H2 H3 H4 H5 H6 H7] Hx Hl Ho Hr Hm.
  assert (Hconn : forall j c, conn_of sl' j = Some c -> conn_of sl j = Some c).
  { intros j c. rewrite (replaced_conn _ _ _ _ _ Hr). destruct (decide (j = i)) as [->|]; [|done]. by destruct Ho as [->| ->]. }
  split.
  - done.
  - intros j. rewrite (replaced_used _ _ _ _ _ Hr), (replaced_conn _ _ _ _ _ Hr). destruct (decide (j = i)); [done|apply H2].
  - intros j. rewrite (replaced_used _ _ _ _ _ Hr). destruct (decide (j = i)) as [->|Hne].
    + split; [done|]. intros (y & l' & [Hn Hy]%lookup_delete_Some & Hh). destruct Hn. by eapply H4.
    + rewrite H3. split; intros (y & l' & Hy & Hh); exists y, l'; (split; [|done]).
      * apply lookup_delete_Some. split; [|done]. intros ->. simplify_eq. destruct Hl, Hh. congruence.
      * by apply lookup_delete_Some in Hy as [_ Hy].
  - intros y z l' l'' j [_ Hy]%lookup_delete_Some [_ Hz]%lookup_delete_Some. by eapply H4.
  - intros j k c Hj Hk. eauto.
  - eauto.
  - intros y l' [_ Hy]%lookup_delete_Some. by eapply H7.
Qed.
Lemma owned_drop n m sl ls x l :
  owned n m sl ls -> ls !! x = Some l -> (forall i, ~ holds l i) -> owned n m sl (delete x ls).
Proof.
  intros [H1 H2 H3 H4 H5 H6 H7] Hx Hl. split; [done|done| | |done|done|].
  - intros j. rewrite H3. split; intros (y & l' & Hy & Hh); exists y, l'; (split; [|done]).
    + apply lookup_delete_Some. split; [|done]. intros ->. simplify_eq. by destruct (Hl j).
    + by apply lookup_delete_Some in Hy as [_ Hy].
  - intros y z l' l'' j [_ Hy]%lookup_delete_Some [_ Hz]%lookup_delete_Some. by eapply H4.
  - intros y l' [_ Hy]%lookup_delete_Some. by eapply H7.
Qed.
Lemma moved_from_holds i : ~ holds moved_from i.
Proof. by intros [? _]. Qed.
Lemma owned_move n m sl ls x y l :
  owned n m sl ls -> ls !! x = Some l -> ls !! y = None -> (y < n)%nat ->
  owned n m sl (<[y := l]> (<[x := moved_from]> ls)).
Proof.
  intros [H1 H2 H3 H4 H5 H6 H7] Hx Hy Hn. assert (Hxy : x <> y) by congruence.
  assert (Hback : forall z l' j, <[y := l]> (<[x := moved_from]> ls) !! z = Some l' -> holds l' j ->
    exists z', ls !! z' = Some l' /\ z = (if decide (z' = x) then y else z')).
  { intros z l' j [[<- <-]|[Hz Hl]]%lookup_insert_Some Hh.
    - exists x. by rewrite decide_True.
    - apply lookup_insert_Some in Hl as [[_ <-]|[Hz' Hl]]; [by destruct (moved_from_holds j)|].
      exists z. by rewrite decide_False. }
  split; [done|done| | |done|done|].
  - intros j. rewrite H3. split.
    + intros (z & l' & Hz & Hh). destruct (decide (z = x)) as [->|Hne].
      * simplify_eq. exists y, l. by rewrite lookup_insert_eq.
      * exists z, l'. rewrite !lookup_insert_ne by congruence. done.
    + intros (z & l' & Hz & Hh). destruct (Hback _ _ _ Hz Hh) as (z' & Hz' & _). eauto.
  - intros z z2 l1 l2 j Hz Hz2 Hh Hh2. destruct (Hback _ _ _ Hz Hh) as (u & Hu & ->), (Hback _ _ _ Hz2 Hh2) as (u2 & Hu2 & ->).
    by rewrite (H4 _ _ _ _ _ Hu Hu2 Hh Hh2).
  - intros z l' [[<- _]|[_ [[<- _]|[_ Hz]]%lookup_insert_Some]]%lookup_insert_Some; [done|by eapply H7|by eapply H7].
Qed.
Lemma owned_alter n m sl ls x (f : PoolLease -> PoolLease) :
  (forall l i, holds (f l) i <-> holds l i) -> owned n m sl ls -> owned n m sl (alter f x ls).
Proof.
  intros Hf [H1 H2 H3 H4 H5 H6 H7].
  assert (Hback : forall z l', alter f x ls !! z = Some l' -> exists l, ls !! z = Some l /\ forall i, holds l' i <-> holds l i).
  { intros z l' [[-> (l & Hl & ->)]|[_ Hl]]%lookup_alter_Some; eauto. }
  split; [done|done| | |done|done|].
  - intros j. rewrite H3. split; intros (z & l & Hz & Hh).
    + destruct (decide (z = x)) as [->|Hne].
      * exists x, (f l). rewrite lookup_alter_eq, Hz. split; [done|by apply Hf].
      * exists z, l. by rewrite lookup_alter_ne.
    + destruct (Hback _ _ Hz) as (l' & Hl' & He). exists z, l'. split; [done|by apply He].
  - intros z z2 l1 l2 j Hz Hz2 Hh Hh2. destruct (Hback _ _ Hz) as (u & Hu & He), (Hback _ _ Hz2) as (u2 & Hu2 & He2).
    apply (H4 _ _ _ _ j Hu Hu2); [by apply He|by apply He2].
  - intros z l Hz. destruct (Hback _ _ Hz) as (u & Hu & _). by eapply H7.
Qed.

(** ** Counting the leases *)

Lemma used_snoc sl s i : used (sl ++ [s]) i <-> used sl i \/ (i = length sl /\ slot_in_use s = true).
Proof.
  rewrite (replaced_used _ _ _ _ i (replaced_snoc s sl)). destruct (decide (i = length sl)) as [->|]; [|naive_solver].
  split; [by right|]. intros [(s' & Hs%lookup_lt_Some & _)|[_ ?]]; [lia|done].
Qed.
Lemma used_length sl : forall B, NoDup B -> (forall i, i ∈ B <-> used sl i) ->
  length (filter (fun s => slot_in_use s = true) sl) = length B.
Proof.
  induction sl as [|s sl IH] using rev_ind; intros B HB HBs.
  - destruct B as [|i B]; [done|]. destruct (proj1 (HBs i)) as (s & ? & _); [by left|done].
  - assert (Hlen : ~ used sl (length sl)) by (intros (s' & Hs%lookup_lt_Some & _); lia).
    rewrite filter_app, length_app, filter_cons, filter_nil. destruct (decide (slot_in_use s = true)) as [Hs|Hs].
    + assert (Hin : length sl ∈ B) by (apply HBs, used_snoc; by right). apply elem_of_Permutation in Hin as [B' HB'].
      rewrite HB' in HB. apply NoDup_cons in HB as [Hni HB]. rewrite HB'. simpl. rewrite (IH B'); [lia|done|].
      intros i. split.
      * intros Hi. assert (Hu : used (sl ++ [s]) i) by (apply HBs; rewrite HB'; by right).
        apply used_snoc in Hu as [?|[-> _]]; done.
      * intros Hi. assert (Hb : i ∈ B) by (apply HBs, used_snoc; by left).
        rewrite HB' in Hb. apply elem_of_cons in Hb as [->|?]; done.
    + simpl. rewrite (IH B); [lia|done|]. intros i. rewrite HBs, used_snoc. naive_solver.
Qed.
(** The leases that hold a slot. *)
Definition holding (ls : gmap nat PoolLease) : gmap nat PoolLease :=
  filter (fun p => lease_state p.2 = true /\ is_Some (lease_index p.2)) ls.
Lemma holding_Some ls x l : holding ls !! x = Some l <-> ls !! x = Some l /\ exists i, holds l i.
Proof.
  unfold holding. rewrite map_lookup_filter_Some. simpl. unfold holds. split.
  - intros (Hx & Hs & [i Hi]). eauto.
  - intros (Hx & i & Hs & Hi). split; [done|]. split; [done|by eexists].
Qed.
Lemma owned_count n m sl ls : owned n m sl ls ->
  length (filter (fun s => slot_in_use s = true) sl) = size (holding ls).
Proof.
  intros Ho. rewrite (used_length sl ((fun p => default 0%nat (lease_index p.2)) <$> map_to_list (holding ls))).
  - by rewrite length_fmap, length_map_to_list.
  - apply NoDup_fmap_2_strong; [|apply NoDup_map_to_list]. intros [x l] [y l'] Hx Hy He.
    apply elem_of_map_to_list, holding_Some in Hx as (Hx & i & Hi). apply elem_of_map_to_list, holding_Some in Hy as (Hy & j & Hj).
    simpl in He. destruct Hi as [Hi1 Hi2], Hj as [Hj1 Hj2]. rewrite Hi2, Hj2 in He. simpl in He. subst j.
    assert (x = y) as -> by by eapply (ow_one _ _ _ _ Ho). congruence.
  - intros i. rewrite list_elem_of_fmap. split.
    + intros ([x l] & -> & (Hx & j & Hj1 & Hj2)%elem_of_map_to_list%holding_Some). simpl. rewrite Hj2. simpl.
      apply (ow_held _ _ _ _ Ho). by exists x, l.
    + intros (x & l & Hx & Hh)%(ow_held _ _ _ _ Ho). exists (x, l). simpl. destruct Hh as [Hh1 Hh2]. rewrite Hh2. split; [done|].
      apply elem_of_map_to_list, holding_Some. split; [done|]. by exists i.
Qed.

(** ** Waking *)

Definition vacant (s : Slot) : nat := if slot_in_use s then 0 else 1.
(** How many connections can be taken now. *)
Definition capacity (st : PoolState) : nat :=
  (sum_list_with vacant (slots st) + (max_connections (pool_options st) - length (slots st)))%nat.

Lemma vacant_insert sl i s s' : sl !! i = Some s ->
  (sum_list_with vacant (<[i := s']> sl) + vacant s = sum_list_with vacant sl + vacant s')%nat.
Proof.
  revert i. induction sl as [|u sl IH]; intros [|i]; simpl; [done..|intros [= ->]; lia|].
  intros Hi. specialize (IH i Hi). lia.
Qed.
Lemma vacant_snoc sl s : sum_list_with vacant (sl ++ [s]) = (sum_list_with vacant sl + vacant s)%nat.
Proof. rewrite sum_list_with_app. simpl. lia. Qed.
Lemma free_slot_some sl : forall k i, free_slot sl k = Some i ->
  exists j s, i = (k + j)%nat /\ sl !! j = Some s /\ slot_in_use s = false.
Proof.
  induction sl as [|s sl IH]; intros k i; simpl; [done|]. destruct (slot_in_use s) eqn:E.
  - intros (j & s' & -> & ? & ?)%IH. exists (S j), s'. split; [lia|done].
  - intros [= <-]. exists 0%nat, s. split; [lia|done].
Qed.
Lemma free_slot_none sl : forall k, free_slot sl k = None -> sum_list_with vacant sl = 0%nat.
Proof.
  induction sl as [|s sl IH]; intros k; simpl; [done|]. unfold vacant at 1. destruct (slot_in_use s); [|done].
  intros H. by rewrite (IH _ H).
Qed.
Lemma vacant_exists sl : existsb (fun s => negb (slot_in_use s)) sl = Nat.ltb 0 (sum_list_with vacant sl).
Proof. induction sl as [|s sl IH]; simpl; [done|]. rewrite IH. unfold vacant at 2. by destruct (slot_in_use s). Qed.
Lemma ready_capacity st : ready st = pool_shutting_down st || Nat.ltb 0 (capacity st).
Proof.
  unfold ready, capacity. rewrite vacant_exists. rewrite <- orb_assoc. f_equal.
  apply eq_iff_eq_true. rewrite orb_true_iff, !Nat.ltb_lt. lia.
Qed.

Lemma asleep_app l l' : asleep (l ++ l') = (asleep l + asleep l')%nat.
Proof. unfold asleep. by rewrite filter_app, length_app. Qed.
Lemma awake_app l l' : awake (l ++ l') = (awake l + awake l')%nat.
Proof. unfold awake. by rewrite filter_app, length_app. Qed.
Lemma asleep_cons v l : asleep (v :: l) = ((if wt_woken v then 0 else 1) + asleep l)%nat.
Proof. unfold asleep. rewrite filter_cons. destruct (wt_woken v); [by rewrite decide_False|by rewrite decide_True]. Qed.
Lemma awake_cons v l : awake (v :: l) = ((if wt_woken v then 1 else 0) + awake l)%nat.
Proof. unfold awake. rewrite filter_cons. destruct (wt_woken v); [by rewrite decide_True|by rewrite decide_False]. Qed.
Lemma wake_nth_counts l : forall n, (n < asleep l)%nat ->
  asleep l = S (asleep (wake_nth n l)) /\ awake (wake_nth n l) = S (awake l).
Proof.
  induction l as [|v l IH]; intros n; [unfold asleep; simpl; lia|]. rewrite asleep_cons. simpl.
  destruct (wt_woken v) eqn:E; simpl; intros Hn.
  - rewrite asleep_cons, !awake_cons, E. destruct (IH n Hn). simpl. lia.
  - destruct n as [|n]; rewrite asleep_cons, !awake_cons; simpl; [by rewrite E|]. rewrite E. destruct (IH n); [lia|]. simpl. lia.
Qed.
Lemma wake_nth_none l : forall n, asleep l = 0%nat -> wake_nth n l = l.
Proof.
  induction l as [|v l IH]; intros n; simpl; [done|]. rewrite asleep_cons. destruct (wt_woken v); simpl; [|lia].
  intros H. by rewrite IH.
Qed.
Lemma wake_all_counts l : asleep (map (fun v => mkWaiter (wt_thread v) (wt_deadline v) true) l) = 0%nat.
Proof. induction l as [|v l IH]; simpl; [done|]. by rewrite asleep_cons. Qed.
Lemma leave_counts t l v rest : leave t l = Some (v, rest) ->
  asleep l = ((if wt_woken v then 0 else 1) + asleep rest)%nat /\ awake l = ((if wt_woken v then 1 else 0) + awake rest)%nat.
Proof.
  revert rest. induction l as [|u l IH]; intros rest; simpl; [done|]. destruct (Nat.eqb _ _).
  - intros [= -> ->]. by rewrite asleep_cons, awake_cons.
  - destruct (leave t l) as [[u' l']|]; [|done]. intros [= -> <-]. destruct (IH l' eq_refl).
    rewrite !asleep_cons, !awake_cons. lia.
Qed.

(** A thread sleeps only while as many threads are woken as connections can be taken. *)
Definition attended (w : PW) : Prop :=
  pw_failed w = false -> (0 < asleep (pw_waiting w))%nat ->
  pool_shutting_down (pw_state w) = false /\ (capacity (pw_state w) <= awake (pw_waiting w))%nat.
Definition pool_owned (w : PW) : Prop :=
  owned (pw_calls w) (max_connections (pool_options (pw_state w))) (slots (pw_state w)) (pw_leases w).
(** What operations that do not concern slots and leases keep. *)
Definition same_pool (w w' : PW) : Prop :=
  slots (pw_state w') = slots (pw_state w) /\ pool_options (pw_state w') = pool_options (pw_state w) /\
  pool_shutting_down (pw_state w') = pool_shutting_down (pw_state w) /\ pw_leases w' = pw_leases w /\
  pw_waiting w' = pw_waiting w /\ pw_failed w' = pw_failed w /\ (pw_calls w <= pw_calls w')%nat.
#[global] Instance same_pool_preorder : PreOrder same_pool.
Proof.
  split; [intros w; unfold same_pool; naive_solver lia|].
  intros w1 w2 w3 (?&?&?&?&?&?&?) (?&?&?&?&?&?&?). unfold same_pool. split_and!; try congruence. lia.
Qed.
Lemma same_owned w w' : same_pool w w' -> pool_owned w -> pool_owned w'.
Proof. intros (H1 & H2 & _ & H4 & _ & _ & H7) H. unfold pool_owned. rewrite H1, H2, H4. by eapply owned_mono. Qed.
Lemma same_capacity w w' : same_pool w w' -> capacity (pw_state w') = capacity (pw_state w).
Proof. intros (H1 & H2 & _). unfold capacity. by rewrite H1, H2. Qed.
Lemma same_attended w w' : same_pool w w' -> attended w -> attended w'.
Proof. intros Hs H. unfold attended. rewrite (same_capacity _ _ Hs). destruct Hs as (_ & _ & -> & _ & -> & -> & _). done. Qed.

Section Operations.
Context {E : PoolEnv}.

Lemma same_pool_call : Always same_pool pool_call.
Proof. intros w. unfold same_pool. simpl. naive_solver lia. Qed.
Lemma same_pool_now : Always same_pool steady_now.
Proof. apply always_bind; [apply _|apply same_pool_call|]. intros n. apply always_ret, _. Qed.
Lemma same_timeout {A} : Always same_pool (timed_out_error (A := A)).
Proof. intros w. unfold same_pool. simpl. naive_solver lia. Qed.
Lemma same_open sql max_wait : Always same_pool (open_connection sql max_wait).
Proof.
  apply always_bind; [apply _|apply same_pool_call|]. intros n. destruct (connects n max_wait); [apply always_lift, _|apply always_ret, _].
Qed.
Lemma same_open_within deadline : Always same_pool (open_within deadline).
Proof.
  apply always_bind; [apply _|apply same_pool_now|]. intros now. destruct (deadline <=? now); [apply same_timeout|apply same_open].
Qed.
(** A new connection has a name of its own. *)
Lemma open_fresh sql max_wait w w' c : open_connection sql max_wait w = (w', TOk c) -> c = pw_calls w /\ (c < pw_calls w')%nat.
Proof.
  unfold open_connection, mbind, io_bind, pool_call. simpl. destruct (connects _ _); [done|]. intros [= <- <-]. simpl. lia.
Qed.
Lemma open_within_fresh deadline w w' c : open_within deadline w = (w', TOk c) -> (pw_calls w <= c < pw_calls w')%nat.
Proof.
  unfold open_within. intros (w1 & now & H1 & H2)%io_bind_ok. pose proof (always_run _ _ _ _ _ same_pool_now H1) as (_ & _ & _ & _ & _ & _ & Hn).
  destruct (deadline <=? now); [|apply open_fresh in H2; lia]. by apply io_bind_ok in H2 as (? & ? & _ & ?).
Qed.

(** ** Taking *)

(** What a successful [take] does. *)
Definition taken (w w' : PW) (x : nat) : Prop :=
  exists i c n sl', ~ used (slots (pw_state w)) i /\ replaced i (mkSlot (Some c) true) (slots (pw_state w)) sl'
  /\ (length sl' <= max_connections (pool_options (pw_state w)))%nat
  /\ (conn_of (slots (pw_state w)) i = Some c \/ (pw_calls w <= c)%nat) /\ (c < n)%nat /\ (pw_calls w <= n)%nat /\ x = n
  /\ S (capacity (pw_state w')) = capacity (pw_state w)
  /\ slots (pw_state w') = sl' /\ pool_options (pw_state w') = pool_options (pw_state w)
  /\ pool_shutting_down (pw_state w') = pool_shutting_down (pw_state w)
  /\ pw_leases w' = <[n := mkPoolLease true (Some i) false]> (pw_leases w) /\ pw_waiting w' = pw_waiting w
  /\ pw_failed w' = pw_failed w /\ pw_calls w' = S n.
Lemma take_ok deadline w w' x : pool_owned w -> (0 < capacity (pw_state w))%nat ->
  take deadline w = (w', TOk x) -> taken w w' x.
Proof.
  intros Ho Hcap Hr. unfold take in Hr. apply io_bind_ok in Hr as (w0 & a & [= <- <-] & Hr).
  destruct (free_slot (slots (pw_state w)) 0) as [i|] eqn:Hf.
  - apply free_slot_some in Hf as (j & s & -> & Hj & Hs). simpl in Hr. rewrite Hj in Hr. simpl in Hr.
    apply io_bind_ok in Hr as (w1 & c & Hc & Hr). injection Hr as <- <-.
    assert (Hlen : (j < length (slots (pw_state w)))%nat) by by eapply lookup_lt_Some.
    assert (Hsame : same_pool w w1 /\ (conn_of (slots (pw_state w)) j = Some c \/ (pw_calls w <= c)%nat) /\ (c < pw_calls w1)%nat).
    { destruct (slot_connection s) as [d|] eqn:Hd.
      - injection Hc as <- <-. assert (Hc : conn_of (slots (pw_state w)) j = Some d) by (unfold conn_of; by rewrite Hj).
        split_and!; [done|by left|]. by eapply (ow_conn _ _ _ _ Ho).
      - pose proof (open_within_fresh _ _ _ _ Hc). split_and!; [by eapply always_run; [apply same_open_within|]|right; lia|lia]. }
    destruct Hsame as ((S1 & S2 & S3 & S4 & S5 & S6 & S7) & Hcc & Hcn).
    exists j, c, (pw_calls w1), (<[j := mkSlot (Some c) true]> (slots (pw_state w))). simpl.
    rewrite S1, S2, S3, S4, S5, S6. split_and!; try done; try lia.
    + intros (s' & Hs' & ?). congruence.
    + by apply replaced_insert.
    + rewrite length_insert. apply (ow_bound _ _ _ _ Ho).
    + unfold capacity. simpl. rewrite length_insert. pose proof (vacant_insert _ _ _ (mkSlot (Some c) true) Hj) as Hv.
      unfold vacant in Hv at 2 4. rewrite Hs in Hv. simpl in Hv. rewrite ?S1, ?S2. lia.
  - apply io_bind_ok in Hr as (w1 & c & Hc & Hr). injection Hr as <- <-.
    pose proof (open_within_fresh _ _ _ _ Hc). apply free_slot_none in Hf.
    apply (always_run _ _ _ _ _ (same_open_within deadline)) in Hc as (S1 & S2 & S3 & S4 & S5 & S6 & S7).
    unfold capacity in Hcap. rewrite Hf in Hcap.
    exists (length (slots (pw_state w))), c, (pw_calls w1), (slots (pw_state w) ++ [mkSlot (Some c) true]). simpl.
    rewrite S1, S2, S3, S4, S5, S6. split_and!; try done; try lia.
    + intros (s' & Hs' & _). apply lookup_lt_Some in Hs'. lia.
    + apply replaced_snoc.
    + rewrite length_app. simpl. lia.
    + unfold capacity. simpl. rewrite ?S1, ?S2, vacant_snoc, length_app, Hf. simpl. lia.
Qed.
Lemma take_throw deadline w w' x : take deadline w = (w', TThrow x) -> same_pool w w'.
Proof.
  intros Hr. unfold take in Hr. apply io_bind_throw in Hr as [[=]|(w0 & a & [= <- <-] & Hr)].
  destruct (free_slot (slots (pw_state w)) 0) as [i|].
  - apply io_bind_throw in Hr as [Hr|(w1 & c & _ & [=])].
    destruct (slots (pw_state w) !! i ≫= slot_connection); [done|]. by eapply always_run; [apply same_open_within|].
  - apply io_bind_throw in Hr as [Hr|(w1 & c & _ & [=])]. by eapply always_run; [apply same_open_within|].
Qed.
Lemma taken_owned w w' x : pool_owned w -> taken w w' x -> pool_owned w'.
Proof.
  intros Ho (i & c & n & sl' & Hu & Hr & Hm & Hc & Hcn & Hn & -> & _ & H1 & H2 & _ & H4 & _ & _ & H7).
  unfold pool_owned. rewrite H1, H2, H4, H7. eapply owned_take; [by eapply owned_mono; [|exact Ho]; lia|done..|lia| | |lia].
  - intros j Hj. destruct Hc as [Hc|Hc]; [by eapply (ow_distinct _ _ _ _ Ho)|].
    pose proof (ow_conn _ _ _ _ Ho _ _ Hj). lia.
  - destruct (pw_leases w !! n) as [l|] eqn:Hl; [|done]. pose proof (ow_name _ _ _ _ Ho _ _ Hl). lia.
Qed.

(** One more connection than threads woken can be taken while a woken thread looks. *)
Definition attended_but (w : PW) : Prop :=
  pw_failed w = false -> (0 < asleep (pw_waiting w))%nat ->
  pool_shutting_down (pw_state w) = false /\ (capacity (pw_state w) <= S (awake (pw_waiting w)))%nat.
Lemma look_keeps t deadline timed_out w :
  pool_owned w -> attended_but w -> pool_owned (look t deadline timed_out w).1 /\ attended (look t deadline timed_out w).1.
Proof.
  intros Ho Ha. unfold look. rewrite (io_bind_run io_get _ w w w eq_refl), ready_capacity.
  destruct (pool_shutting_down (pw_state w)) eqn:Hs; simpl.
  - split; [done|]. intros Hf Hw. destruct (Ha Hf Hw). congruence.
  - destruct (Nat.ltb_spec 0 (capacity (pw_state w))) as [Hc|Hc].
    + unfold mbind, io_bind, io_guard, io_lift, io_cleanup. simpl. destruct (take deadline w) as [w' [x|x]] eqn:Ht; simpl.
      * pose proof (take_ok _ _ _ _ Ho Hc Ht) as Htk. split; [by eapply taken_owned|].
        destruct Htk as (i & c & n & sl' & _ & _ & _ & _ & _ & _ & _ & Hcap & _ & _ & H3 & _ & H5 & H6 & _).
        intros Hf Hw. rewrite H5 in *. rewrite H3. destruct Ha; [congruence|done|]. split; [done|lia].
      * apply take_throw in Ht. split; [|done]. by apply (same_owned w w') in Ho.
    + assert (Hz : capacity (pw_state w) = 0%nat) by lia. destruct timed_out.
      * pose proof (same_timeout (A := option nat) w) as Hsame. split; [by eapply same_owned|]. eapply same_attended; [done|].
        intros _ _. split; [done|lia].
      * split; [done|]. intros _ _. simpl. split; [done|lia].
Qed.
Lemma attended_weaken w : attended w -> attended_but w.
Proof. intros Ha Hf Hw. destruct (Ha Hf Hw). split; [done|lia]. Qed.

(** ** Giving back *)

Lemma worn_same l s : Always same_pool (worn l s).
Proof.
  unfold worn. destruct (lease_broken l); [apply always_ret, _|]. destruct (slot_connection s); [|apply always_ret, _].
  apply always_bind; [apply _|apply same_pool_call|]. intros k. apply always_ret, _.
Qed.
Lemma worn_returns l s w : exists w' b, worn l s w = (w', TOk b).
Proof. unfold worn. destruct (lease_broken l); [eauto|]. destruct (slot_connection s); eauto. Qed.
Lemma notify_attended w :
  pw_failed w = false -> pool_shutting_down (pw_state w) = false ->
  (capacity (pw_state w) <= S (awake (pw_waiting w)))%nat -> attended (notify_one w).1.
Proof.
  intros Hf Hs Hc _. simpl. intros Hw. destruct (decide (asleep (pw_waiting w) = 0%nat)) as [Hz|Hz].
  - rewrite wake_nth_none in Hw by done. lia.
  - destruct (wake_nth_counts (pw_waiting w) (pick (pw_calls w) mod asleep (pw_waiting w))) as [_ ->];
      [by apply Nat.mod_upper_bound|done].
Qed.
Lemma notify_idle w : asleep (pw_waiting w) = 0%nat -> attended (notify_one w).1.
Proof. intros Hz _ Hw. simpl in Hw. rewrite wake_nth_none in Hw by done. lia. Qed.
Lemma give_back_keeps l x w : pool_owned w -> attended w -> pw_leases w !! x = Some l ->
  exists w', give_back l w = (w', TOk tt) /\ attended w' /\ pw_leases w' = pw_leases w
  /\ (pw_calls w <= pw_calls w')%nat /\ pool_options (pw_state w') = pool_options (pw_state w)
  /\ owned (pw_calls w') (max_connections (pool_options (pw_state w))) (slots (pw_state w')) (delete x (pw_leases w)).
Proof.
  intros Ho Ha Hx. destruct (holds_cases l) as [Hh|Hh].
  - destruct Hh as [i [Hst Hi]]. assert (Hu : used (slots (pw_state w)) i) by (apply (ow_held _ _ _ _ Ho); by exists x, l).
    destruct Hu as (s & Hs & Hin). unfold give_back. rewrite Hst, Hi. simpl. rewrite (io_bind_run io_get _ w w w eq_refl), Hs, Hin. simpl.
    destruct (worn_returns l s w) as (w1 & b & Hb). rewrite (io_bind_run _ _ _ _ _ Hb).
    apply (always_run _ _ _ _ _ (worn_same l s)) in Hb as (S1 & S2 & S3 & S4 & S5 & S6 & S7).
    set (o := if b then None else slot_connection s).
    assert (Hslots : exists st, (if b
        then ((pw_state w1) <| slots := <[i := mkSlot None false]> (slots (pw_state w1)) |>) <| replacements := u64 (replacements (pw_state w1) + 1) |>
        else (pw_state w1) <| slots := <[i := mkSlot (slot_connection s) false]> (slots (pw_state w1)) |>) = st
      /\ slots st = <[i := mkSlot o false]> (slots (pw_state w)) /\ pool_options st = pool_options (pw_state w)
      /\ pool_shutting_down st = pool_shutting_down (pw_state w)).
    { eexists. split; [reflexivity|]. unfold o. by destruct b; simpl; rewrite S1, S2, S3. }
    destruct Hslots as (st & Hst' & Hsl & Hopt & Hsd).
    eexists. split; [reflexivity|]. simpl. rewrite Hst'. split; [|split; [done|split; [lia|split; [done|]]]].
    + change (attended (notify_one (w1 <| pw_state := st |>)).1). destruct (pw_failed w) eqn:Hf.
      { intros Hf' _. simpl in Hf'. congruence. }
      destruct (decide (asleep (pw_waiting w) = 0%nat)) as [Hz|Hz]; [apply notify_idle; simpl; by rewrite S5|].
      destruct (Ha Hf) as [Hsd' Hcap]; [lia|].
      apply notify_attended; simpl; [congruence|congruence|]. rewrite S5. unfold capacity in *. rewrite Hsl, Hopt, length_insert.
      pose proof (vacant_insert _ _ _ (mkSlot o false) Hs) as Hv. unfold vacant in Hv at 2 4. rewrite Hin in Hv. simpl in Hv. lia.
    + rewrite Hsl. eapply (owned_free _ _ _ _ _ i o x l); [by eapply owned_mono; [|exact Ho]; lia|done|by split| | |].
      * unfold o, conn_of. rewrite Hs. simpl. destruct b; [by left|by right].
      * apply replaced_insert. by eapply lookup_lt_Some.
      * rewrite length_insert. apply (ow_bound _ _ _ _ Ho).
  - exists w. split; [|split; [done|split; [done|split; [lia|split; [done|]]]]].
    + unfold give_back. destruct (lease_state l) eqn:Hst; [|done]. simpl. destruct (lease_index l) as [i|] eqn:Hi; [|done].
      by destruct (Hh i).
    + by eapply owned_drop.
Qed.

(** ** Histories keep both *)

Definition pool_ok (w : PW) : Prop := pool_owned w /\ attended w.
Lemma same_ok w w' : same_pool w w' -> pool_ok w -> pool_ok w'.
Proof. intros Hs [Ho Ha]. split; [by eapply same_owned|by eapply same_attended]. Qed.
Lemma ignore_state {A} (m : PIO A) w : (ignore m w).1 = (m w).1.
Proof. unfold ignore, mbind, io_bind. by destruct (m w) as [w' [a|x]]. Qed.
Lemma look_ok t deadline timed_out w : pool_ok w -> pool_ok (look t deadline timed_out w).1.
Proof. intros [Ho Ha]. apply look_keeps; [done|by apply attended_weaken]. Qed.
Lemma pool_acquire_ok t max_wait w : pool_ok w -> pool_ok (acquire_within t max_wait w).1.
Proof.
  intros Hok. unfold acquire_within, io_guard, tguard. destruct (max_wait <=? 0); [done|].
  rewrite (io_bind_run (io_lift (TOk tt)) _ w w tt eq_refl), (io_bind_run io_get _ w w w eq_refl).
  erewrite (io_bind_run steady_now) by reflexivity. apply look_ok. eapply same_ok; [|done]. apply (same_pool_call w).
Qed.
Lemma look_again_ok t timed_out w : pool_ok w -> pool_ok (look_again t timed_out w).1.
Proof.
  intros [Ho Ha]. unfold look_again. rewrite (io_bind_run io_get _ w w w eq_refl).
  destruct (leave t (pw_waiting w)) as [[v rest]|] eqn:Hl; [|done]. erewrite (io_bind_run (io_modify _)) by reflexivity.
  apply leave_counts in Hl as [H1 H2]. apply look_keeps; [done|]. intros Hf Hw. simpl in *.
  destruct (Ha Hf) as [? ?]; [lia|]. split; [done|]. destruct (wt_woken v); lia.
Qed.
Lemma destroy_ok x w : pool_ok w -> pool_ok (destroy_lease x w).1.
Proof.
  intros [Ho Ha]. unfold destroy_lease. rewrite (io_bind_run io_get _ w w w eq_refl).
  destruct (pw_leases w !! x) as [l|] eqn:Hx; [|done].
  destruct (give_back_keeps l x w Ho Ha Hx) as (w' & Hr & Ha' & Hl & Hn & Hopt & Ho').
  rewrite (io_bind_run _ _ _ _ _ Hr). split; [|done]. unfold pool_owned. simpl. by rewrite Hl, Hopt.
Qed.
Lemma move_ok x w : pool_ok w -> pool_ok (move_lease x w).1.
Proof.
  intros Hok. unfold move_lease. erewrite (io_bind_run pool_call) by reflexivity. simpl.
  destruct (same_ok _ _ (same_pool_call w) Hok) as [Ho' Ha']. simpl in Ho', Ha'.
  destruct (pw_leases w !! x) as [l|] eqn:Hx; [|done]. split; [|done].
  unfold pool_owned in *. simpl in *. apply owned_move; [done|done| |lia].
  destruct (pw_leases w !! pw_calls w) as [l'|] eqn:Hl; [|done].
  pose proof (ow_name _ _ _ _ (proj1 Hok) _ _ Hl). lia.
Qed.
Lemma assign_ok x y w : pool_ok w -> pool_ok (assign_lease x y w).1.
Proof.
  intros [Ho Ha]. unfold assign_lease. rewrite (io_bind_run io_get _ w w w eq_refl).
  destruct (pw_leases w !! x) as [l|] eqn:Hx; [|done]. destruct (pw_leases w !! y) as [l'|] eqn:Hy; [|done].
  destruct (Nat.eqb_spec x y) as [->|Hxy]; [done|].
  destruct (give_back_keeps l x w Ho Ha Hx) as (w' & Hr & Ha' & Hl & Hn & Hopt & Ho').
  rewrite (io_bind_run _ _ _ _ _ Hr). split; [|done]. unfold pool_owned. simpl. rewrite Hl, Hopt.
  replace (<[x := l']> (<[y := moved_from]> (pw_leases w))) with (<[x := l']> (<[y := moved_from]> (delete x (pw_leases w)))).
  - apply owned_move; [done|by rewrite lookup_delete_ne|apply lookup_delete_eq|].
    pose proof (ow_name _ _ _ _ Ho _ _ Hx). lia.
  - rewrite <- delete_insert_ne by done. apply insert_delete_eq.
Qed.
Lemma break_ok x w : pool_ok w -> pool_ok (mark_broken x w).1.
Proof. intros [Ho Ha]. split; [|done]. by apply owned_alter. Qed.
Lemma shutdown_ok w : pool_ok w -> pool_ok (destroy_pool w).1.
Proof. intros [Ho Ha]. split; [done|]. intros _ Hw. simpl in Hw. rewrite wake_all_counts in Hw. lia. Qed.
Lemma perform_ok a w : pool_ok w -> pool_ok (perform a w).1.
Proof.
  intros Hok. destruct a as [t [max_wait|]|t timed_out|x|x|x y|x|]; simpl; rewrite ?ignore_state.
  - by apply pool_acquire_ok.
  - unfold acquire_connection. rewrite (io_bind_run io_get _ w w w eq_refl). by apply pool_acquire_ok.
  - by apply look_again_ok.
  - by apply destroy_ok.
  - by apply move_ok.
  - by apply assign_ok.
  - by apply break_ok.
  - by apply shutdown_ok.
Qed.
Lemma history_ok l : forall w, pool_ok w -> pool_ok (history l w).
Proof. induction l as [|a l IH]; intros w Hok; simpl; [done|]. by apply IH, perform_ok. Qed.

(** Options are those of the construction. *)
Definition same_options (w w' : PW) : Prop := pool_options (pw_state w') = pool_options (pw_state w).
#[local] Instance same_options_preorder : PreOrder same_options.
Proof. split; [done|]. unfold same_options. intros w1 w2 w3 H1 H2. congruence. Qed.
Lemma options_same {A} (m : PIO A) : Always same_pool m -> Always same_options m.
Proof. apply always_mono. by intros w w' (_ & H & _). Qed.
Ltac options_step :=
  first
    [ apply (always_bind same_options); [|intros] | apply (always_ret same_options) | apply (always_get same_options)
    | apply (always_lift same_options) | apply (always_cleanup same_options)
    | (apply options_same; first [apply same_pool_call | apply same_pool_now | apply same_open_within | apply same_timeout | apply worn_same])
    | (intros ?; reflexivity) | case_match | progress unfold take, look, acquire_within, acquire_connection, look_again, new_lease,
        give_back, notify_one, notify_all, destroy_lease, move_lease, assign_lease, mark_broken, destroy_pool, on_state, ignore, io_guard ].
Lemma modify_options (f : PW -> PW) : (forall w, same_options w (f w)) -> Always same_options (io_modify f).
Proof. intros Hf w. apply Hf. Qed.
Lemma perform_options a : Always same_options (perform a).
Proof.
  destruct a as [t [max_wait|]|t timed_out|x|x|x y|x|]; simpl;
    repeat first [options_step | (apply modify_options; intros ?; unfold same_options; simpl; by repeat case_match)].
Qed.
Lemma history_options l : forall w, same_options w (history l w).
Proof. induction l as [|a l IH]; intros w; simpl; [done|]. etransitivity; [apply perform_options|apply IH]. Qed.

(** ** Construction *)

(** A pool being filled: nothing is in use and no thread waits. *)
Definition filling (n : nat) (w : PW) : Prop :=
  pw_leases w = ∅ /\ pw_waiting w = [] /\ pool_owned w
  /\ (length (slots (pw_state w)) + n <= max_connections (pool_options (pw_state w)))%nat.
Lemma fill_ok n : forall w w', filling n w -> fill n w = (w', TOk tt) -> filling 0 w' /\ same_options w w'.
Proof.
  induction n as [|n IH]; intros w w' Hf Hr; simpl in Hr; [by injection Hr as <-|].
  rewrite (io_bind_run io_get _ w w w eq_refl) in Hr. apply io_bind_ok in Hr as (w1 & c & Hc & Hr).
  rewrite (io_bind_run (on_state _) _ w1 _ tt eq_refl) in Hr.
  destruct Hf as (Hl & Hw & Ho & Hm). pose proof (open_fresh _ _ _ _ _ Hc) as [Hcn Hcn'].
  apply (always_run _ _ _ _ _ (same_open _ _)) in Hc as (S1 & S2 & _ & S4 & S5 & _ & S7).
  apply IH in Hr as [Hr1 Hr2]; [split; [done|unfold same_options in *; simpl in Hr2; congruence]|].
  unfold filling. simpl. rewrite S4, S5, S1, S2, length_app. simpl. split_and!; [done|done| |lia].
  unfold pool_owned. simpl. rewrite ?S1, ?S2, ?S4, ?Hl. pose proof (replaced_snoc (mkSlot (Some c) false) (slots (pw_state w))) as Hrep.
  destruct Ho as [H1 H2 H3 H4 H5 H6 H7]. rewrite Hl in *.
  assert (Hno : forall i, ~ used (slots (pw_state w)) i) by (intros i (x & l & ?%lookup_empty_Some & _)%H3; done).
  assert (Hconn : forall i d, conn_of (slots (pw_state w) ++ [mkSlot (Some c) false]) i = Some d ->
    (i = length (slots (pw_state w)) /\ d = c) \/ conn_of (slots (pw_state w)) i = Some d).
  { intros i d. rewrite (replaced_conn _ _ _ _ _ Hrep). destruct (decide _); [intros [= ->]; by left|by right]. }
  split.
  - rewrite length_app. simpl. lia.
  - intros i. rewrite (replaced_used _ _ _ _ _ Hrep). destruct (decide _); [done|]. intros Hu. by destruct (Hno i).
  - intros i. rewrite (replaced_used _ _ _ _ _ Hrep). split; [destruct (decide _); [done|intros Hu; by destruct (Hno i)]|].
    by intros (x & l & ?%lookup_empty_Some & _).
  - done.
  - intros i j d [[-> ->]|Hi]%Hconn [[-> Hd]|Hj]%Hconn; [done| | |by eapply H5].
    + specialize (H6 _ _ Hj). lia.
    + subst d. specialize (H6 _ _ Hi). lia.
  - intros i d [[-> ->]|Hi]%Hconn; [lia|]. specialize (H6 _ _ Hi). lia.
  - done.
Qed.
Lemma construct_ok dsn schema o w : construct_pool dsn schema o (empty_pool o) = (w, TOk tt) ->
  pool_ok w /\ pool_options (pw_state w) = o.
Proof.
  unfold construct_pool. intros (w1 & u & H1 & Hr)%io_bind_ok. apply io_bind_ok in Hr as (w2 & u2 & H2 & Hr).
  apply io_bind_ok in Hr as (w3 & u3 & H3 & Hr). injection H1 as <- _. injection H2 as <- H2. injection H3 as <- _.
  apply tguard_ok in H2. unfold check_options in H2. rewrite !orb_false_iff in H2. destruct H2 as ((((_ & H2) & _) & _) & _).
  apply Nat.ltb_ge in H2. apply fill_ok in Hr as [(Hl & Hw & Ho & _) Hopt].
  - split; [|done]. split; [done|]. intros _. rewrite Hw. unfold asleep. simpl. lia.
  - unfold filling. simpl. split_and!; [done|done| |done]. split; simpl; [lia| | |done| | |done].
    + by intros i (s & ? & _).
    + intros i. split; [by intros (s & ? & _)|by intros (x & l & ? & _)].
    + done.
    + done.
Qed.
End Operations.

(** ** The properties *)

(** C10: connections are exclusive.  After any history of acquisitions, waits, moves, assignments and
    destructions of leases, and whatever the connection library does, the pool holds at most the
    configured number of connections, every lease that holds a slot has a connection, two lease
    objects never have the same connection, and the number of connections reported in use is the number of
    those leases. *)
Theorem pool_exclusive {E : PoolEnv} dsn schema o w0 l :
  construct_pool dsn schema o (empty_pool o) = (w0, TOk tt) ->
  let w := history l w0 in
  (length (slots (pw_state w)) <= max_connections o)%nat
  /\ (forall x lx, holding (pw_leases w) !! x = Some lx -> exists c, lease_connection lx w = (w, TOk c))
  /\ (forall x y lx ly c, pw_leases w !! x = Some lx -> pw_leases w !! y = Some ly ->
        lease_connection lx w = (w, TOk c) -> lease_connection ly w = (w, TOk c) -> x = y)
  /\ (pool_diagnostics (pw_state w)).1.1.2 = size (holding (pw_leases w)).
Proof.
  intros Hc w. destruct (construct_ok _ _ _ _ Hc) as [Hok Hopt]. destruct (history_ok l _ Hok) as [Ho _]. fold w in Ho.
  assert (Hw : pool_options (pw_state w) = o) by (rewrite <- Hopt; apply history_options).
  unfold pool_owned in Ho. rewrite Hw in Ho.
  assert (Hconn : forall lx c, lease_connection lx w = (w, TOk c) -> exists i, holds lx i /\ conn_of (slots (pw_state w)) i = Some c).
  { intros lx c Hx. unfold lease_connection in Hx. destruct (lease_state lx) eqn:Hs; [|done]. destruct (lease_index lx) as [i|] eqn:Hi; [|done].
    rewrite (io_bind_run io_get _ w w w eq_refl) in Hx. exists i. split; [done|]. unfold conn_of.
    destruct (slots (pw_state w) !! i ≫= slot_connection) as [d|]; [|done]. by injection Hx as ->. }
  split_and!.
  - apply (ow_bound _ _ _ _ Ho).
  - intros x lx (Hx & i & Hs & Hi)%holding_Some. destruct (ow_open _ _ _ _ Ho i) as [c Hci]; [apply (ow_held _ _ _ _ Ho); by exists x, lx|].
    exists c. unfold lease_connection. rewrite Hs, Hi, (io_bind_run io_get _ w w w eq_refl). unfold conn_of in Hci. by rewrite Hci.
  - intros x y lx ly c Hx Hy (i & Hi & Hci)%Hconn (j & Hj & Hcj)%Hconn. assert (i = j) as -> by by eapply (ow_distinct _ _ _ _ Ho).
    by eapply (ow_one _ _ _ _ Ho).
  - by eapply owned_count.
Qed.

(** C11: no wake-up is lost.  As long as no thread gave up although it could take a connection, threads sleep
    only while the pool is up and as many threads have been woken as connections can be taken: a
    connection given back is never left to a thread that sleeps on.  A thread gives up in this way when its
    attempt to connect fails, and also when its deadline has passed before it attempts to connect. *)
Theorem pool_wakes {E : PoolEnv} dsn schema o w0 l :
  construct_pool dsn schema o (empty_pool o) = (w0, TOk tt) ->
  let w := history l w0 in
  pw_failed w = false -> (0 < asleep (pw_waiting w))%nat ->
  pool_shutting_down (pw_state w) = false /\ (capacity (pw_state w) <= awake (pw_waiting w))%nat.
Proof. intros Hc w Hf Hw. destruct (construct_ok _ _ _ _ Hc) as [Hok _]. by destruct (history_ok l _ Hok) as [_ Ha]; apply Ha. Qed.

(** ** Instances *)

(** Connections open but for the call numbered [bad]; time stands still. *)
Definition sample_pool (bad : nat) : PoolEnv :=
  {| pool_clock := fun _ => 0; connects := fun n _ => if Nat.eqb n bad then Some CfBroken else None;
     conn_open := fun _ => true; pick := fun _ => 0%nat |}.
Definition sample_options : PoolOptions := mkPoolOptions 1 2 1000.
Definition started_pool (E : PoolEnv) : PW := (construct_pool "dsn" "laso" sample_options (empty_pool sample_options)).1.
(** Two threads take the connections and two wait; a lease is moved, another one is destroyed. *)
Definition busy : list action :=
  [AAcquire 1 None; AAcquire 2 None; AAcquire 3 (Some 500); AAcquire 4 None; AMove 2; ADestroy 6].
Definition held_by (w : PW) : list (nat * option nat) := map (fun p => (p.1, lease_index p.2)) (map_to_list (holding (pw_leases w))).

Lemma pool_exclusive_witness : let E := sample_pool 100 in
  construct_pool "dsn" "laso" sample_options (empty_pool sample_options) = (started_pool E, TOk tt)
  /\ (length (slots (pw_state (history (firstn 5 busy) (started_pool E)))) <= 2)%nat
  /\ (pool_diagnostics (pw_state (history (firstn 5 busy) (started_pool E)))).1.1.2 = 2%nat.
Proof.
  intros E. split; [by vm_compute|]. destruct (pool_exclusive (E := E) "dsn" "laso" sample_options (started_pool E) (firstn 5 busy)) as (H1 & _ & _ & H4);
    [by vm_compute|]. split; [exact H1|]. rewrite H4. by vm_compute.
Defined.
Lemma pool_wakes_witness : let E := sample_pool 100 in let w := history busy (started_pool E) in
  asleep (pw_waiting w) = 1%nat /\ capacity (pw_state w) = 1%nat /\ (1 <= awake (pw_waiting w))%nat.
Proof.
  intros E w. split; [by vm_compute|]. split; [by vm_compute|].
  destruct (pool_wakes (E := E) "dsn" "laso" sample_options (started_pool E) busy) as [_ H];
    [by vm_compute|by vm_compute|vm_compute; lia|]. exact H.
Defined.
(** The connection given back is broken, and the thread that was woken cannot open a new one: it throws, the
    slot stays free, and the other thread sleeps on although it could try. *)
Lemma wake_up_lost : let E := sample_pool 11 in
  let w := history [AAcquire 1 None; AAcquire 2 None; AAcquire 3 (Some 500); AAcquire 4 None; ABreak 6; ADestroy 6; ALook 3 false]
             (started_pool E) in
  pw_failed w = true /\ asleep (pw_waiting w) = 1%nat /\ awake (pw_waiting w) = 0%nat /\ capacity (pw_state w) = 1%nat.
Proof. by vm_compute. Qed.
