(* ===== verification/LeaseRows.v ===== *)
(** * The lease table under transactions of the store

    Commits, reads and session operations write records only: the table of leases stays as it is. *)

From S2P Require Import Prelude Json Types Text Db Coordination Codec Worker Store Rows Sessions SessionInv.

Definition tleases {A} (m : T A) : Prop := forall db, leases (m db).1 = leases db.
Section StoreLeases.
Context `{L : JsonLib}.

Lemma tleases_bind {A B} (m : T A) (f : A -> T B) : tleases m -> (forall a, tleases (f a)) -> tleases (m ≫= f).
Proof.
  intros Hm Hf db. unfold mbind, t_bind. specialize (Hm db). destruct (m db) as [db1 [a|x]]; [|exact Hm].
  simpl in Hm. rewrite <- Hm. apply Hf.
Qed.
Lemma tleases_pure {A} (m : T A) : pure_t m -> tleases m.
Proof. intros Hm db. destruct (m db) as [db' r] eqn:He. by rewrite (Hm _ _ _ He). Qed.
Lemma tleases_update k i body : tleases (update_body k i body).
Proof. done. Qed.
Lemma tleases_insert k i run_id body seq : tleases (insert_row k i run_id body seq).
Proof.
  intros db. unfold insert_row, next_identity, mbind, t_bind, t_get. destruct seq; simpl; by case_match.
Qed.
Lemma tleases_upsert k i run_id body : tleases (upsert k i run_id body).
Proof. done. Qed.
Lemma tleases_iter {A} (f : A -> T unit) l : (forall x, tleases (f x)) -> tleases (t_iter f l).
Proof. intros Hf. induction l as [|x l IH]; [done|]. apply tleases_bind; [apply Hf|done]. Qed.
Lemma tleases_write f n r : tleases (write_record f n r).
Proof.
  unfold write_record. do 3 (apply tleases_bind; [apply tleases_pure; first [apply pure_guard|apply pure_serialize]|intros _]).
  apply tleases_bind; [apply tleases_pure; case_match; [apply pure_check_pipeline|apply pure_ret]|intros _].
  apply tleases_bind; [apply tleases_pure; case_match; [apply pure_check_job|apply pure_ret]|intros _].
  apply tleases_bind; [apply tleases_pure; case_match; [apply pure_check_work|apply pure_ret]|intros skip].
  case_match; [apply tleases_pure, pure_ret|apply tleases_upsert].
Qed.
Lemma tleases_writes f n rs : tleases (write_records f n rs).
Proof. apply tleases_iter. intros r. apply tleases_write. Qed.

Definition mleases {A} (m : M DB A) : Prop := forall db, leases (m db).1 = leases db.
Lemma mleases_tx {A} failed (body : T A) : tleases body -> mleases (store_tx failed body).
Proof. intros Hb db. unfold store_tx, transaction. specialize (Hb db). by destruct (body db) as [db' [a|x]]. Qed.
Lemma mleases_bind {A B} (m : M DB A) (f : A -> M DB B) : mleases m -> (forall a, mleases (f a)) -> mleases (m_bind m f).
Proof.
  intros Hm Hf db. unfold m_bind. specialize (Hm db). destruct (m db) as [db1 [a|e]]; [|done]. simpl in Hm. rewrite <- Hm. apply Hf.
Qed.
Lemma mleases_guard c code msg : mleases (m_guard c code msg).
Proof. intros db. unfold m_guard. by case_match. Qed.
Lemma mleases_lift {A} (r : res A) : mleases (m_lift r).
Proof. done. Qed.
Lemma mleases_get k i : mleases (get_record k i).
Proof. apply mleases_tx, tleases_pure. pure_read. Qed.
Lemma mleases_list k run_id limit offset : mleases (list_records k run_id limit offset).
Proof. apply mleases_bind; [apply mleases_guard|]. intros _. apply mleases_tx, tleases_pure. pure_read. Qed.
Lemma mleases_commit f n rs : mleases (commit f n rs).
Proof. apply mleases_tx, tleases_writes. Qed.
Lemma mleases_owned f n clk rs resource owner fence : mleases (commit_owned f n clk rs resource owner fence).
Proof.
  apply mleases_bind; [apply mleases_guard|intros _]. apply mleases_tx.
  apply tleases_bind; [apply tleases_pure; unfold bigint_parameter; pure_read|intros _].
  apply tleases_bind; [apply tleases_pure; pure_read|intros db].
  apply tleases_bind; [apply tleases_pure, pure_guard|intros _]. apply tleases_writes.
Qed.
Lemma mleases_session_run f f' n clk rs o tok ev : mleases (commit_session_run f f' n clk rs o tok ev).
Proof.
  unfold commit_session_run. apply mleases_bind; [apply mleases_guard|intros _]. case_match; [|done].
  apply mleases_bind; [apply mleases_lift|intros r]. apply mleases_bind; [apply mleases_guard|intros _]. apply mleases_tx.
  repeat lazymatch goal with
  | |- tleases (update_body _ _ _) => apply tleases_update
  | |- tleases (insert_row _ _ _ _ _) => apply tleases_insert
  | |- tleases (write_records _ _ _) => apply tleases_writes
  | |- tleases (save_session _ _) => unfold save_session
  | |- tleases (save_turn _ _) => unfold save_turn
  | |- tleases (insert_event _ _ _) => unfold insert_event
  | |- tleases (mbind _ _) => apply tleases_bind; [|intros ?]
  | |- tleases (match _ with _ => _ end) => case_match
  | |- tleases _ => apply tleases_pure; solve [unfold lock_session; pure]
  end.
Qed.
End StoreLeases.
