(* ===== verification/Claiming.v ===== *)
(** * Claims between instances

    The loops of [src/runtime/runtime.cpp] that let several instances share runs and branches:
    [claim_loop] takes leases on stored runs and work items and starts their execution,
    [lease_loop] keeps the leases alive, and [reconcile_terminal_worker] settles work whose
    worker job has ended.

    A cluster is the shared database and the processes ([RT]), which come and go.  A pass of
    a loop is a program of atomic blocks: every access to the store or to the lease table is one, and so
    is every stretch under the mutex of the object.  Executions are calls; the handler that runs when
    one ends follows it.  The worker manager answers arbitrarily.  [placed] records, for the
    theorems, where each lease was put. *)

From S2P Require Import Prelude Json Types Text Pipeline Yaml Db Coordination Codec Worker Store Effects Runtime Execution Threads.

(** Where a process keeps a lease: with a branch it executes (the work item, a slot of the
    cluster, a slot of the run), or with a run. *)
Inductive Place :=
  | PWork (p : nat) (work : string) | PGlobal (p : nat) (work : string) | PRunSlot (p : nat) (work : string)
  | PRun (p : nat) (run : string).
#[global] Instance Place_eq_dec : EqDecision Place.
Proof. solve_decision. Defined.
Definition grant_of (l : LeaseRecord) : string * Z := (resource_key l, lr_token l).

Record Cluster := mkCluster { cl_db : DB; members : gmap nat RT; placed : gmap (string * Z) Place }.
#[global] Instance eta_Cluster : Eta Cluster := fun r => mkCluster (cl_db r) (members r) (placed r).

Inductive ClaimCall :=
  | CanExecute (worker capability : string) | JobOf (job : string)
  | ExecuteRun (r : Run) | ExecuteWork (work : NodeWork).
Definition claim_answer (c : ClaimCall) : Type :=
  match c with CanExecute _ _ => bool | JobOf _ => WorkerJob | _ => unit end.
Abbreviation CTask := (Task (W := Cluster) (answer := claim_answer)).
Abbreviation CProg := (Prog (W := Cluster) (answer := claim_answer)).

Inductive Control := Continue | Break.

Section Claiming.
Context `{JsonLib} `{YamlLib} (E : nat -> RuntimeEnv) (config : nat -> RuntimeConfig).

(** ** A process of the cluster *)

Section Process.
Context (p : nat).
#[local] Instance process_env : RuntimeEnv := E p.
Abbreviation cfg := (config p).

(** An operation of the process on the shared database; a process that has ended does nothing. *)
Definition on_process {A} (m : RIO A) (w : Cluster) : Cluster * tres A :=
  match members w !! p with
  | None => (w, TThrow TStd)
  | Some rt =>
      let '(rt', r) := m (with_db (cl_db w) rt) in
      (mkCluster (rt_db rt') (<[p := rt']> (members w)) (placed w), r)
  end.
Definition at_process {A} (m : RIO A) : CTask A := Block (on_process m) Done.

Definition acquire_lease (key : string) : RIO (option LeaseRecord) :=
  r_coord (fun clk => acquire (instance_id cfg) key (lease_ttl_ms cfg) clk).
Definition renew_lease (l : LeaseRecord) : RIO (option LeaseRecord) :=
  r_coord (fun clk => renew (instance_id cfg) l (lease_ttl_ms cfg) clk).
Definition acquire_at (key : string) : CTask (option LeaseRecord) := at_process (acquire_lease key).
(** An operation that puts leases at places when it returns [true]. *)
Fixpoint put_leases (l : list (LeaseRecord * Place)) (m : gmap (string * Z) Place) : gmap (string * Z) Place :=
  match l with [] => m | (g, pl) :: l => <[grant_of g := pl]> (put_leases l m) end.
Definition placing (l : list (LeaseRecord * Place)) (m : RIO bool) : CTask bool :=
  Block (fun w => let '(w', r) := on_process m w in
                  (match r with TOk true => w' <| placed := put_leases l (placed w') |> | _ => w' end, r)) Done.
Definition release_at (l : LeaseRecord) : CTask unit := at_process (release_lease cfg l).
(** [try { release } catch (const Error &) {}] *)
Definition release_quietly (l : LeaseRecord) : CTask unit := task_catch (release_at l) (fun _ => mret tt).
(** The body under a lease that is given back when it throws an error. *)
Definition under {A} (l : LeaseRecord) (m : CTask A) : CTask A :=
  task_catch m (fun e => _ ← release_quietly l; task_throw (TError e)).

Definition accepting : CTask bool := at_process (w ← io_get; mret (accepts_new_work w)).

(** ** Claiming a run *)

Definition run_key (i : string) : string := ("run:" ++ i)%string.
Definition unclaimable (r : Run) : bool := terminal (state r) || rs_eqb (state r) WaitingApproval.
Definition child_ended (r : Run) : CTask bool :=
  child ← at_process (get_run (child_id r)); mret (terminal (state child)).
(** Whether a paused run has what it waits for. *)
Definition wait_over (r : Run) : CTask bool :=
  if negb (rs_eqb (state r) Paused) then mret true
  else if negb (empty_str (pending_parallel_group r)) then at_process (distributed_parallel_ready r)
  else if negb (empty_str (child_id r)) then child_ended r
  else mret true.
Definition full_runs (w : RT) : bool := stopping w || (max_runs cfg <=? active_count w).
Definition claimed_run (r : Run) (l : LeaseRecord) : Run :=
  (((((r <| state := Queued |>) <| owner_instance_id := owner_instance l |>) <| fencing_token := lr_token l |>)
    <| claimed_at := rt_dbtime (lr_acquired l) |>) <| last_renewed_at := rt_dbtime (lr_heartbeat l) |>)
    <| lease_expires_at := rt_dbtime (lr_expires l) |>.
(** The execution of a run and its end. *)
Definition run_thread (r : Run) : CProg unit :=
  prog_bind (call (ExecuteRun r)) (fun x =>
  prog_bind (at_process (execution_ended cfg (id r) (match x with TOk _ => false | TThrow _ => true end))) (fun _ => Done tt)).
(** With the mutex held: the run is scheduled, unless there is no room any more; then its lease is
    given back.  The lease is moved into [schedule], so that nothing is given back when that throws. *)
Definition schedule_claimed (r : Run) (l : LeaseRecord) : RIO bool :=
  w ← io_get;
  if full_runs w then _ ← release_lease cfg l; mret false
  else io_catch (_ ← schedule cfg r (Some l); mret true) (fun _ => mret false).
Definition claim_owned (i : string) (l : LeaseRecord) : CTask unit :=
  r ← at_process (get_run i);
  if unclaimable r then release_at l
  else
    over ← wait_over r;
    if negb over then release_at l
    else
      let r := claimed_run r l in
      _ ← at_process (r_commit_owned [run_record r] (resource_key l) (owner_instance l) (lr_token l));
      started ← placing [(l, PRun p (id r))] (schedule_claimed r l);
      task_when started (spawn (run_thread r)).
(** The body of the loop over the runs. *)
Definition claim_run (value : Json) : CTask Control :=
  open ← accepting;
  if negb open then mret Break
  else
    match run_of_json value with
    | TThrow TStd => mret Continue
    | TThrow x => task_throw x
    | TOk r =>
        if unclaimable r then mret Continue
        else
          over ← task_catch (wait_over r) (fun _ => mret false);
          if negb over then mret Continue
          else
            stop ← at_process (w ← io_get; mret (full_runs w || bool_decide (is_Some (active w !! id r))));
            if (stop : bool) then mret Break
            else
              lease ← task_catch (acquire_at (run_key (id r))) (fun _ => mret None);
              match lease with
              | None => mret Continue
              | Some l =>
                  _ ← task_catch (claim_owned (id r) l) (fun _ => release_quietly l);
                  mret Continue
              end
    end.

(** ** Claiming a work item *)

Definition work_key (i : string) : string := ("node:" ++ i)%string.
Definition slot_key (slot : nat) : string := ("node-slot:" ++ to_string (Z.of_nat slot))%string.
Definition run_slot_key (run_id : string) (slot : nat) : string :=
  ("run-node-slot:" ++ run_id ++ ":" ++ to_string (Z.of_nat slot))%string.
(** The first of [n] slots that can be had. *)
Fixpoint first_slot (key : nat -> string) (n slot : nat) : CTask (option LeaseRecord) :=
  match n with
  | O => mret None
  | S n =>
      l ← acquire_at (key slot);
      match l with Some l => mret (Some l) | None => first_slot key n (S slot) end
  end.
Definition work_ended (work : NodeWork) : bool :=
  ws_eqb (w_state work) WCompleted || ws_eqb (w_state work) WFailed || ws_eqb (w_state work) WCancelled.
Definition decode_work (value : Json) : CTask NodeWork :=
  at_process (n ← r_call; io_lift (work_of_json (rt_uuid n) (rt_timestamp n) value)).
(** Whether this instance may execute the work. *)
Definition work_eligible (value : Json) : CTask (option NodeWork) :=
  work ← decode_work value;
  r ← at_process (get_run (w_run_id work));
  let cleanup := cancellation_requested r && terminal (state r) && ws_eqb (w_state work) WRunning in
  able ← (if negb cleanup && has_workers cfg
          then call (CanExecute (required_worker_id work) (required_capability work)) else mret true);
  mret (if negb able || (negb cleanup && (terminal (state r) || cancellation_requested r))
           || negb (String.eqb (pending_parallel_group r) (group_id work))
        then None else Some work).
Definition expired_attempt_error : string := "Distributed node work lease expired before attempt completed".
(** The attempt of an owner that is gone. *)
Definition expired_attempt (work : NodeWork) : CTask (list StoreRecord) :=
  if negb (ws_eqb (w_state work) WRunning) || empty_str (attempt_id work) then mret []
  else
    task_catch
      (a ← at_process (j ← r_get KAttempt (attempt_id work); io_lift (attempt_of_json j));
       if bool_decide (a_state a = NRunning) then
         now ← at_process now_string;
         let a := ((a <| a_state := NFailed |>) <| a_error := expired_attempt_error |>) <| a_finished_at := now |> in
         mret [attempt_record (a_run_id a) a]
       else mret [])
      (fun e => if bool_decide (code e = NotFound) then mret [] else task_throw (TError e)).
Definition claimed_work (work : NodeWork) (l : LeaseRecord) (fresh now : string) : NodeWork :=
  ((((((((work <| w_state := WRunning |>) <| w_attempt := u32 (w_attempt work + 1) |>) <| attempt_id := fresh |>)
    <| w_owner_instance_id := owner_instance l |>) <| w_fencing_token := lr_token l |>)
    <| w_claimed_at := rt_dbtime (lr_acquired l) |>) <| w_last_renewed_at := rt_dbtime (lr_heartbeat l) |>)
    <| w_lease_expires_at := rt_dbtime (lr_expires l) |>) <| w_updated_at := now |>.
Definition work_record (work : NodeWork) : StoreRecord := mkRecord KNodeWork (w_id work) (w_run_id work) (work_to_json work).
Definition full_nodes (w : RT) : bool := stopping w || (max_nodes cfg <=? Z.of_nat (size (active_nodes w))).
(** The handler of the end of an execution. *)
Definition node_ended (i : string) : RIO unit :=
  w ← io_get;
  match active_nodes w !! i with
  | None => mret tt
  | Some a =>
      _ ← io_modify (fun w => w <| active_nodes := delete i (active_nodes w) |>);
      _ ← io_when (bool_decide (is_Some (an_run a))) (quiet (match an_run a with Some l => release_lease cfg l | None => mret tt end));
      _ ← io_when (bool_decide (is_Some (an_global a))) (quiet (match an_global a with Some l => release_lease cfg l | None => mret tt end));
      quiet (release_lease cfg (an_work a))
  end.
Definition work_thread (work : NodeWork) : CProg unit :=
  prog_bind (call (ExecuteWork work)) (fun _ => prog_bind (at_process (node_ended (w_id work))) (fun _ => Done tt)).
(** With the mutex held. *)
Definition activate (work : NodeWork) (l g s : LeaseRecord) : RIO bool :=
  w ← io_get;
  if full_nodes w then
    _ ← release_lease cfg s; _ ← release_lease cfg g; _ ← release_lease cfg l; mret false
  else
    _ ← io_guard (bool_decide (is_Some (active_nodes w !! w_id work))) Conflict "Node work is already executing";
    _ ← io_modify (fun w => (w <| active_nodes := <[w_id work := mkActiveNode false l (Some g) (Some s) false]> (active_nodes w) |>)
                              <| spawned_work := spawned_work w ++ [work] |>);
    mret true.
Definition start_work (i : string) (l g s : LeaseRecord) : CTask unit :=
  work ← at_process (get_work i);
  if work_ended work then _ ← release_at s; _ ← release_at g; release_at l
  else
    attempts ← expired_attempt work;
    fresh ← at_process fresh_id;
    now ← at_process now_string;
    let work := claimed_work work l fresh now in
    _ ← at_process (r_commit_owned (attempts ++ [work_record work]) (work_key (w_id work)) (owner_instance l) (lr_token l));
    started ← placing [(l, PWork p (w_id work)); (g, PGlobal p (w_id work)); (s, PRunSlot p (w_id work))] (activate work l g s);
    task_when started (spawn (work_thread work)).
Definition claim_slots (work : NodeWork) (l : LeaseRecord) : CTask unit :=
  global ← first_slot slot_key (Z.to_nat (max_nodes cfg)) 0;
  match global with
  | None => release_at l
  | Some g =>
      under g (
        slot ← first_slot (run_slot_key (w_run_id work)) (Z.to_nat (max_nodes_per_run cfg)) 0;
        match slot with
        | None => _ ← release_at g; release_at l
        | Some s => under s (start_work (w_id work) l g s)
        end)
  end.
(** The body of the loop over the work items. *)
Definition claim_work (value : Json) : CTask Control :=
  open ← accepting;
  if negb open then mret Break
  else
    work ← task_catch (work_eligible value) (fun _ => mret None);
    match work with
    | None => mret Continue
    | Some work =>
        stop ← at_process (w ← io_get; mret (full_nodes w || bool_decide (is_Some (active_nodes w !! w_id work))));
        if (stop : bool) then mret Break
        else
          _ ← task_catch
                (lease ← acquire_at (work_key (w_id work));
                 match lease with
                 | None => mret tt
                 | Some l => under l (claim_slots work l)
                 end)
                (fun _ => mret tt);
          mret Continue
    end.

(** ** A pass of the claim loop *)

Fixpoint claim_each (claim : Json -> CTask Control) (l : list Json) : CTask unit :=
  match l with
  | [] => mret tt
  | value :: l => c ← claim value; match c with Continue => claim_each claim l | Break => mret tt end
  end.
Definition listed (k : RecordKind) : CTask (option (list Json)) :=
  task_catch (l ← at_process (r_list k "" (claim_batch_size cfg) 0); mret (Some l)) (fun _ => mret None).
Definition claim_pass : CTask unit :=
  full ← at_process (w ← io_get; mret (full_runs w));
  open ← accepting;
  if (full : bool) || negb open then mret tt
  else
    runs ← listed KRun;
    match runs with
    | None => mret tt
    | Some runs =>
        _ ← claim_each claim_run runs;
        works ← listed KNodeWork;
        match works with None => mret tt | Some works => claim_each claim_work works end
    end.
(** ** Settling work whose worker job has ended *)

(** The attempt the work item names, or else the last running one of its node. *)
Fixpoint worker_attempt (observed : NodeWork) (l : list Json) (found : option NodeExecution) : tres (option NodeExecution) :=
  match l with
  | [] => TOk found
  | j :: l =>
      a ← attempt_of_json j;
      if negb (String.eqb (a_node_id a) (w_node_id observed)) || empty_str (a_worker_job_id a) then worker_attempt observed l found
      else if String.eqb (a_id a) (attempt_id observed) then TOk (Some a)
      else worker_attempt observed l
             (if empty_str (attempt_id observed) && bool_decide (a_state a = NRunning) then Some a else found)
  end.
Definition ended_state (s : WorkerJobState) : NodeState :=
  if js_eqb s JCancelled then NCancelled else if js_eqb s JTimedOut then NTimedOut else NFailed.
Definition ended_error (s : NodeState) (error : string) : string :=
  if negb (empty_str error) then error
  else match s with NTimedOut => "Worker job timed out" | NCancelled => "Worker job cancelled" | _ => "Worker job failed" end.
Definition may_retry (r : Run) (current : NodeWork) (a : NodeExecution) : bool :=
  match parse_pipeline (definition r) (node_types cfg) with
  | Ok pl =>
      match nodes pl !! w_node_id current with
      | Some node => (w_attempt current <? max_attempts (retry node)) && negb (bool_decide (a_state a = NCancelled))
                     && negb (cancellation_requested r) && negb (terminal (state r))
      | None => false
      end
  | Throw _ => false
  end.
Definition settled_work (r : Run) (retry : bool) (a : NodeExecution) (current : NodeWork) (now : string) : NodeWork :=
  (if bool_decide (a_state a = NCancelled) || cancellation_requested r || terminal (state r) then
     (current <| w_state := WCancelled |>) <| w_error := "Worker cancellation reconciled"%string |>
   else if retry then
     (((((((current <| w_state := WQueued |>) <| w_error := "Worker attempt reconciled for retry"%string |>)
       <| w_owner_instance_id := ""%string |>) <| w_lease_expires_at := ""%string |>) <| w_claimed_at := ""%string |>)
       <| w_last_renewed_at := ""%string |>) <| attempt_id := ""%string |>) <| w_fencing_token := 0 |>
   else (current <| w_state := WFailed |>) <| w_error := a_error a |>) <| w_updated_at := now |>.
Definition outdated (observed current : NodeWork) : bool :=
  negb (ws_eqb (w_state current) WRunning) || negb (String.eqb (attempt_id current) (attempt_id observed)).
Definition optional {A} (m : CTask A) : CTask (option A) := task_catch (a ← m; mret (Some a)) (fun _ => mret None).
Definition settle_records (a : NodeExecution) (current : NodeWork) : list StoreRecord :=
  [attempt_record (a_run_id a) a; work_record current].
(** The entry of an execution that has not noticed yet. *)
Definition evict (i : string) : RIO (list LeaseRecord) :=
  w ← io_get;
  match active_nodes w !! i with
  | None => mret []
  | Some a =>
      _ ← io_modify (fun w => w <| active_nodes := delete i (active_nodes w) |>);
      mret (option_list (an_run a) ++ option_list (an_global a) ++ [an_work a])
  end.
(** The commit under a lease of its own, when the observed one has expired; the lease is returned with
    the work item when the records were committed. *)
Definition commit_taken_over (observed current : NodeWork) (r : Run) (retry : bool) (a : NodeExecution)
    : CTask (option (LeaseRecord * NodeWork)) :=
  open ← accepting;
  if negb open then mret None
  else
    lease ← acquire_at (work_key (w_id current));
    match lease with
    | None => mret None
    | Some l =>
        under l (
          current ← at_process (get_work (w_id current));
          if outdated observed current then _ ← release_at l; mret None
          else
            now ← at_process now_string;
            let current := settled_work r retry a current now in
            _ ← at_process (r_commit_owned (settle_records a current) (work_key (w_id current)) (owner_instance l) (lr_token l));
            mret (Some (l, current)))
    end.
Definition commit_settled (observed : NodeWork) (lease : LeaseRecord) (r : Run) (retry : bool) (a : NodeExecution)
    (current : NodeWork) : CTask (option (LeaseRecord * NodeWork)) :=
  task_catch
    (_ ← at_process (r_commit_owned (settle_records a current) (work_key (w_id current)) (owner_instance lease) (lr_token lease));
     mret (Some (lease, current)))
    (fun e => if negb (bool_decide (code e = Conflict)) then task_throw (TError e)
              else commit_taken_over observed current r retry a).
Definition settle_terminal (observed : NodeWork) (lease : LeaseRecord) (r : Run) (a : NodeExecution) (job : WorkerJob) : CTask unit :=
  current ← optional (at_process (get_work (w_id observed)));
  match current with
  | None => mret tt
  | Some current =>
      if outdated observed current then mret tt
      else
        busy ← at_process (w ← io_get; mret (bool_decide (is_Some (active_nodes w !! w_id current))));
        if (busy : bool) then mret tt
        else
          finished ← at_process now_string;
          let st := ended_state (wj_state job) in
          let a := ((a <| a_state := st |>) <| a_error := ended_error st (wj_error job) |>) <| a_finished_at := finished |> in
          let retry := may_retry r current a in
          now ← at_process now_string;
          task_catch
            (committed ← commit_settled observed lease r retry a (settled_work r retry a current now);
             match committed with
             | None => mret tt
             | Some (l, current) =>
                 old ← at_process (evict (w_id current));
                 task_iter release_quietly (old ++ [l])
             end)
            (fun _ => mret tt)
  end.
Definition reconcile_terminal_worker (observed : NodeWork) (lease : LeaseRecord) : CTask unit :=
  if negb (has_workers cfg) || negb (ws_eqb (w_state observed) WRunning) then mret tt
  else
    r ← optional (at_process (get_run (w_run_id observed)));
    match r with
    | None => mret tt
    | Some r =>
        a ← task_catch (l ← at_process (r_list KAttempt (w_run_id observed) 10000 0);
                        task_lift (worker_attempt observed l None)) (fun _ => mret None);
        match a with
        | None => mret tt
        | Some a =>
            job ← optional (call (JobOf (a_worker_job_id a)));
            match job with
            | None => mret tt
            | Some job =>
                if negb (worker_job_terminal (wj_state job)) || js_eqb (wj_state job) JCompleted then mret tt
                else settle_terminal observed lease r a job
            end
        end
    end.

(** ** A pass of the lease loop *)

Record NodeLeases := mkNodeLeases {
  nl_id : string; nl_work : LeaseRecord; nl_global : option LeaseRecord; nl_run : option LeaseRecord }.
Definition run_leases (w : RT) : list (string * LeaseRecord) :=
  omap (fun kv => (fun l => (kv.1, l)) <$> ar_lease kv.2) (map_items (active w)).
Definition node_leases (w : RT) : list NodeLeases :=
  map (fun kv => mkNodeLeases kv.1 (an_work kv.2) (an_global kv.2) (an_run kv.2)) (map_items (active_nodes w)).
Definition heartbeat_state (w : RT) (drained : bool) : string :=
  match mode w with
  | ModeActive => "ACTIVE"
  | ModeMaintenance => "MAINTENANCE"
  | ModeDraining => if drained then "DRAINED" else "DRAINING"
  end.
Inductive Renewal := Renewed (l : LeaseRecord) | Refused | Deferred.
Definition renewal (l : LeaseRecord) : CTask Renewal :=
  task_catch (o ← at_process (renew_lease l); mret (match o with Some l => Renewed l | None => Refused end))
    (fun e => mret (if bool_decide (code e = StorageError) then Deferred else Refused)).
Definition update_run (i : string) (f : ActiveRun -> ActiveRun) : CTask unit :=
  at_process (io_modify (fun w => w <| active := alter f i (active w) |>)).
Definition update_node (i : string) (f : ActiveNode -> ActiveNode) : CTask unit :=
  at_process (io_modify (fun w => w <| active_nodes := alter f i (active_nodes w) |>)).
Definition lost_run (a : ActiveRun) : ActiveRun := (a <| ar_lost := true |>) <| ar_stop := true |>.
Definition lost_node (a : ActiveNode) : ActiveNode := (a <| an_lost := true |>) <| an_stop := true |>.
Definition put_run_lease (l : LeaseRecord) (a : ActiveRun) : ActiveRun :=
  match ar_lease a with Some _ => a <| ar_lease := Some l |> | None => a end.
Definition put_node_leases (n : NodeLeases) (a : ActiveNode) : ActiveNode :=
  let a := a <| an_work := nl_work n |> in
  let a := match nl_global n with Some l => a <| an_global := Some l |> | None => a end in
  match nl_run n with Some l => a <| an_run := Some l |> | None => a end.
Definition renew_run (kv : string * LeaseRecord) : CTask unit :=
  o ← renewal kv.2;
  match o with
  | Renewed l => update_run kv.1 (put_run_lease l)
  | Refused => update_run kv.1 lost_run
  | Deferred => mret tt
  end.
(** A lease of a branch, with whether it is still held. *)
Definition renew_kept (l : LeaseRecord) : CTask (LeaseRecord * bool) :=
  o ← renewal l;
  mret (match o with Renewed l' => (l', true) | Refused => (l, false) | Deferred => (l, true) end).
Definition renew_optional (l : option LeaseRecord) : CTask (option LeaseRecord * bool) :=
  match l with
  | None => mret (None, true)
  | Some l => r ← renew_kept l; mret (Some r.1, r.2)
  end.
(** An execution is told to stop when its run has ended or is to be cancelled. *)
Definition observe_node (i : string) : CTask unit :=
  task_catch
    (work ← at_process (get_work i);
     r ← at_process (get_run (w_run_id work));
     task_when (cancellation_requested r || terminal (state r)) (update_node i (fun a => a <| an_stop := true |>)))
    (fun e => if bool_decide (code e = StorageError) then mret tt else update_node i lost_node).
Definition renew_node (n : NodeLeases) : CTask unit :=
  _ ← task_catch (observed ← at_process (get_work (nl_id n)); reconcile_terminal_worker observed (nl_work n)) (fun _ => mret tt);
  _ ← observe_node (nl_id n);
  work ← renew_kept (nl_work n);
  global ← renew_optional (nl_global n);
  slot ← renew_optional (nl_run n);
  if work.2 && global.2 && slot.2
  then update_node (nl_id n) (put_node_leases (mkNodeLeases (nl_id n) work.1 global.1 slot.1))
  else update_node (nl_id n) lost_node.
Definition lease_pass : CTask unit :=
  snapshot ← at_process (w ← io_get; mret (if stopping w then None else Some w));
  match snapshot with
  | None => mret tt
  | Some w =>
      let drained := Nat.eqb (size (active w)) 0 && Nat.eqb (size (active_nodes w)) 0 in
      _ ← task_catch
            (at_process (w ← io_get; _ ← r_coord (heartbeat_instance (instance_id cfg) (heartbeat_state w drained)); mret tt))
            (fun _ => mret tt);
      _ ← task_iter renew_run (run_leases w);
      task_iter renew_node (node_leases w)
  end.
End Process.
End Claiming.
