(* ===== verification/ClusterClaims.v ===== *)
(** * Properties of the claims

    Any number of processes claim runs and branches, renew their leases, execute, end and come back,
    while other components write to the database: a lease that is current is held at one place, and the slots
    bound how many branches are executed. *)

From S2P Require Import Prelude Json Types Text Pipeline Yaml Db Coordination Codec Worker Store Sessions LeaseRows Samples Effects Runtime Execution Threads Claiming.

(** ** Tokens grow *)

Definition leases_grow (db db' : DB) : Prop :=
  forall k row, leases db !! k = Some row -> exists row', leases db' !! k = Some row' /\ l_token row <= l_token row'.
#[global] Instance leases_grow_preorder : PreOrder leases_grow.
Proof.
  split; [intros db k row H; exists row; split; [done|lia]|]. intros a b c Hab Hbc k row H.
  destruct (Hab _ _ H) as (r1 & H1 & ?), (Hbc _ _ H1) as (r2 & H2 & ?). exists r2. split; [done|lia].
Qed.
Lemma grow_same db db' : leases db' = leases db -> leases_grow db db'.
Proof. intros He k row H. exists row. rewrite He. split; [done|lia]. Qed.
Lemma grow_insert db db' k row' : leases db' = <[k := row']> (leases db) ->
  (forall row, leases db !! k = Some row -> l_token row <= l_token row') -> leases_grow db db'.
Proof.
  intros He Hr j row H. rewrite He. destruct (base.decide (k = j)) as [->|Hne].
  - exists row'. rewrite lookup_insert_eq. auto.
  - exists row. rewrite lookup_insert_ne by done. split; [done|lia].
Qed.

(** What an operation of the coordination backend does to the tokens. *)
Definition tokens_grow {A} (m : M Coord A) : Prop := forall c, leases_grow (c_db c) (c_db (m c).1).
Lemma tokens_run {A} (m : M Coord A) : (forall c c' a, m c = (c', Ok a) -> leases_grow (c_db c) (c_db c')) ->
  (forall c c' e, m c = (c', Throw e) -> leases (c_db c') = leases (c_db c)) -> tokens_grow m.
Proof. intros Hok Ht c. destruct (m c) as [c' [a|e]] eqn:Hm; [by eapply Hok|by eapply grow_same, Ht]. Qed.
Lemma guard_throw {S} b code msg (s s' : S) e : m_guard b code msg s = (s', Throw e) -> s' = s.
Proof. unfold m_guard. destruct b; by intros [= ->]. Qed.
Ltac coord_throw H :=
  repeat (apply m_bind_throw in H as [H|(? & ? & ? & H)];
    [solve [by apply guard_throw in H as -> | by apply on_db_throw in H]|
     try match goal with Hg : _ = (_, Ok _) |- _ => apply m_guard_ok in Hg as [_ ->] end]).
Lemma acquire_tokens owner k ttl clk : tokens_grow (acquire owner k ttl clk).
Proof.
  apply tokens_run.
  - intros c c' [l|] [_ H]%acquire_ok; [|by apply grow_same]. destruct H as (_ & _ & _ & Ht & _ & _ & He).
    eapply grow_insert; [exact He|]. intros row Hrow. rewrite Hrow in Ht. simpl in *. lia.
  - intros c c' e H. unfold acquire in H. coord_throw H.
    match goal with Hd : on_db _ _ _ = (_, Ok ?o) |- _ => destruct o; [done|] end.
    apply m_bind_throw in H as [H|(? & ? & _ & H)]; done.
Qed.
Lemma renew_tokens owner rec ttl clk : tokens_grow (renew owner rec ttl clk).
Proof.
  apply tokens_run.
  - intros c c' [l|] [_ H]%renew_ok; [|by apply grow_same].
    destruct H as (row & (Hrow & _ & _ & _)%matching_lease_some & _ & _ & _ & _ & _ & He).
    eapply grow_insert; [exact He|]. intros row' Hrow'. simplify_eq. simpl. lia.
  - intros c c' e H. unfold renew in H. coord_throw H. case_match.
    + apply m_bind_throw in H as [H|(? & ? & _ & H)]; done.
    + apply m_bind_throw in H as [H|(? & o & _ & H)]; [by apply on_db_throw in H|]. destruct o; [done|].
      apply m_bind_throw in H as [H|(? & ? & _ & H)]; done.
Qed.
Lemma release_tokens owner rec clk : tokens_grow (release owner rec clk).
Proof.
  apply tokens_run.
  - intros c c' b H%release_ok. destruct b; [|by apply grow_same].
    destruct H as (row & (Hrow & _ & _ & _)%matching_lease_some & _ & He). eapply grow_insert; [exact He|].
    intros row' Hrow'. simplify_eq. simpl. lia.
  - intros c c' e H. unfold release in H. coord_throw H. case_match; [done|]. by apply on_db_throw in H.
Qed.
Lemma require_tokens owner rec clk : tokens_grow (require_current owner rec clk).
Proof. intros c. destruct (require_current owner rec clk c) as [c' r] eqn:H. apply require_current_run in H as [H _]. by apply grow_same. Qed.
Lemma heartbeat_tokens owner st clk : tokens_grow (heartbeat_instance owner st clk).
Proof.
  apply tokens_run.
  - intros c c' b H. unfold heartbeat_instance in H. apply m_bind_ok in H as (? & ? & Hg & H). apply m_guard_ok in Hg as [_ ->].
    apply on_db_ok in H as (db' & Hu & ->). apply grow_same. simpl. unfold update_instance in Hu. by case_match; simplify_eq.
  - intros c c' e H. unfold heartbeat_instance in H. coord_throw H. by apply on_db_throw in H.
Qed.

(** ** Operations that claim nothing *)

(** Subscribers of events leave the leases of others alone: they acquire, renew and release like
    everyone. *)
Class ClusterLaws (E : RuntimeEnv) : Prop := { publish_leases : forall n e db, leases_grow db (rt_publish n e db) }.

Definition same_node_leases (a a' : ActiveNode) : Prop :=
  an_work a' = an_work a /\ an_global a' = an_global a /\ an_run a' = an_run a.
Definition bounded (config : RuntimeConfig) (w : RT) : Prop :=
  (size (active_nodes w) <= Z.to_nat (max_nodes config))%nat /\ (size (active w) <= Z.to_nat (max_runs config))%nat.

Section Steady.
Context `{L : JsonLib} `{Y : YamlLib} {E : RuntimeEnv} {HE : ClusterLaws E} (config : RuntimeConfig).

(** No lease is put anywhere, and no token goes back. *)
Record steady (w w' : RT) : Prop := {
  sd_leases : leases_grow (rt_db w) (rt_db w');
  sd_nodes : forall i a', active_nodes w' !! i = Some a' -> exists a, active_nodes w !! i = Some a /\ same_node_leases a a';
  sd_runs : forall i a', active w' !! i = Some a' ->
    ar_lease a' = None \/ exists a, active w !! i = Some a /\ ar_lease a' = ar_lease a;
  sd_bounded : bounded config w -> bounded config w' }.
#[global] Instance steady_preorder : PreOrder steady.
Proof.
  split.
  - intros w. split; [reflexivity| | |done]; intros i a Ha; [exists a; split; [done|by split_and!]|right; by exists a].
  - intros w1 w2 w3 [A1 A2 A3 A4] [B1 B2 B3 B4]. split; [by etransitivity| | |auto].
    + intros i a' (a2 & Q2 & ? & ? & ?)%B2. destruct (A2 _ _ Q2) as (a1 & Q1 & ? & ? & ?).
      exists a1. split; [done|]. split_and!; congruence.
    + intros i a' [?|(a2 & Q2 & He)]%B3; [by left|]. destruct (A3 _ _ Q2) as [?|(a1 & Q1 & ?)]; [left; congruence|].
      right. exists a1. split; [done|congruence].
Qed.
(** Only the database changes. *)
Lemma steady_db w w' : leases_grow (rt_db w) (rt_db w') -> active w' = active w -> active_nodes w' = active_nodes w -> steady w w'.
Proof.
  intros Hl Ha Hn. split; [done| | |by unfold bounded; rewrite Ha, Hn]; rewrite ?Ha, ?Hn; intros i a Hi.
  - exists a. split; [done|by split_and!].
  - right. by exists a.
Qed.
Lemma steady_store {A} (m : M DB A) : mleases m -> Always steady (r_store m).
Proof.
  intros Hm w. unfold r_store. specialize (Hm (rt_db w)). destruct (m (rt_db w)) as [db r]. by apply steady_db; [apply grow_same| |].
Qed.
Lemma steady_coord {A} (m : (nat -> Z) -> M Coord A) : (forall clk, tokens_grow (m clk)) -> Always steady (r_coord m).
Proof.
  intros Hm w. unfold r_coord. specialize (Hm (rt_dbclock (rt_calls w)) (rt_coord w)).
  destruct (m (rt_dbclock (rt_calls w)) (rt_coord w)) as [c r]. by apply steady_db.
Qed.
Lemma steady_call : Always steady r_call.
Proof. intros w. by apply steady_db. Qed.
Lemma steady_fresh : Always steady fresh_id.
Proof. intros w. by apply steady_db. Qed.
Lemma steady_now : Always steady now_string.
Proof. intros w. by apply steady_db. Qed.
Lemma steady_publish e : Always steady (publish e).
Proof. intros w. apply steady_db; [apply publish_leases|done..]. Qed.
Lemma steady_get k i : Always steady (r_get k i).
Proof. apply steady_store, mleases_get. Qed.
Lemma steady_list k run_id limit offset : Always steady (r_list k run_id limit offset).
Proof. apply steady_store, mleases_list. Qed.
Lemma steady_commit rs : Always steady (r_commit rs).
Proof. apply always_bind; [apply _|apply steady_call|]. intros n. apply steady_store, mleases_commit. Qed.
Lemma steady_owned rs resource owner fence : Always steady (r_commit_owned rs resource owner fence).
Proof. apply always_bind; [apply _|apply steady_call|]. intros n. apply steady_store, mleases_owned. Qed.
Lemma steady_release l : Always steady (release_lease config l).
Proof.
  apply always_bind; [apply _|apply steady_coord; intros clk; apply release_tokens|]. intros b. by apply always_ret, _.
Qed.
(** The flags of an entry. *)
Lemma steady_alter_run f i : (forall a, ar_lease (f a) = ar_lease a) ->
  Always steady (io_modify (fun w => w <| active := alter f i (active w) |>)).
Proof.
  intros Hf w. split; [reflexivity|intros j a Ha; exists a; split; [done|by split_and!]| |].
  - simpl. intros j a' [[-> (a & Ha & ->)]|[_ Ha]]%lookup_alter_Some; right; [exists a; by rewrite Hf|by exists a'].
  - unfold bounded. simpl. rewrite <- !(size_dom (D := gset string)), dom_alter_L. done.
Qed.
Lemma steady_alter_node f i : (forall a, same_node_leases a (f a)) ->
  Always steady (io_modify (fun w => w <| active_nodes := alter f i (active_nodes w) |>)).
Proof.
  intros Hf w. split; [reflexivity| |intros j a Ha; right; by exists a|].
  - simpl. intros j a' [[-> (a & Ha & ->)]|[_ Ha]]%lookup_alter_Some; [by exists a|exists a'; split; [done|by split_and!]].
  - unfold bounded. simpl. rewrite <- !(size_dom (D := gset string)), dom_alter_L. done.
Qed.
(** Entries that are removed. *)
Lemma steady_delete_run i : Always steady (io_modify (fun w => w <| active := delete i (active w) |>)).
Proof.
  intros w. split; [reflexivity|intros j a Ha; exists a; split; [done|by split_and!]| |].
  - simpl. intros j a' [_ Ha]%lookup_delete_Some. right. by exists a'.
  - intros [Q1 Q2]. split; [done|]. simpl. etransitivity; [|exact Q2]. rewrite map_size_delete. destruct (active w !! i); [lia|reflexivity].
Qed.
Lemma steady_delete_node i : Always steady (io_modify (fun w => w <| active_nodes := delete i (active_nodes w) |>)).
Proof.
  intros w. split; [reflexivity| |intros j a Ha; right; by exists a|].
  - simpl. intros j a' [_ Ha]%lookup_delete_Some. exists a'. split; [done|by split_and!].
  - intros [Q1 Q2]. split; [|done]. simpl. etransitivity; [|exact Q1]. rewrite map_size_delete. destruct (active_nodes w !! i); [lia|reflexivity].
Qed.
(** An execution that is scheduled without a lease. *)
Lemma schedule_ok r l w w' : schedule config r l w = (w', TOk tt) ->
  active w !! id r = None /\ (size (active w) < Z.to_nat (max_runs config))%nat
  /\ w' = (w <| active := <[id r := mkActiveRun false l false]> (active w) |>) <| spawned := spawned w ++ [r] |>.
Proof.
  unfold schedule. intros Hs. apply io_bind_ok in Hs as (w1 & a & [= <- <-] & Hs).
  apply io_bind_ok in Hs as (w1 & [] & [= <- Hg] & Hs). apply tguard_ok, bool_decide_eq_false in Hg.
  apply io_bind_ok in Hs as (w1 & [] & [= <- Hf] & Hs). apply tguard_ok, orb_false_iff in Hf as [_ Hf].
  apply io_bind_ok in Hs as (w1 & [] & [= <- _] & Hs). injection Hs as <-.
  rewrite <- eq_None_not_Some in Hg. unfold active_count in Hf. split_and!; [done|lia|done].
Qed.
Lemma schedule_bounded r l w w' : schedule config r l w = (w', TOk tt) -> bounded config w -> bounded config w'.
Proof.
  intros (Hn & Hf & ->)%schedule_ok [Q1 Q2]. split; [done|]. simpl. rewrite map_size_insert_None by done. lia.
Qed.
Lemma schedule_throw r l w w' x : schedule config r l w = (w', TThrow x) -> w' = w.
Proof.
  unfold schedule. intros Hs. apply io_bind_throw in Hs as [[=]|(w1 & a & [= <- <-] & Hs)].
  do 3 (apply io_bind_throw in Hs as [[= <- _]|(w2 & u & [= <- _] & Hs)]; [done|]; clear u). done.
Qed.
Lemma steady_schedule r : Always steady (schedule config r None).
Proof.
  intros w. destruct (schedule config r None w) as [w' [[]|x]] eqn:Hs; [|by rewrite (schedule_throw _ _ _ _ _ Hs)].
  pose proof (schedule_bounded _ _ _ _ Hs) as Hb. apply schedule_ok in Hs as (_ & _ & ->). simpl.
  split; [reflexivity|intros j a Ha; exists a; split; [done|by split_and!]| |done].
  simpl. intros j a' [[<- <-]|[_ Ha]]%lookup_insert_Some; [by left|right; by exists a'].
Qed.
End Steady.
Create HintDb steady.
#[export] Hint Resolve steady_call steady_fresh steady_now steady_publish steady_get steady_list steady_commit steady_owned
  steady_release steady_schedule always_ret always_lift always_get : steady.
#[export] Hint Extern 2 (PreOrder _) => apply _ : steady.
(** An operation built from such operations. *)
Ltac steadies :=
  repeat first
    [ solve [eauto 2 with steady] | apply always_bind; [apply _| |intros ?] | case_match
    | apply always_iter; [apply _|intros ?] | apply always_catch; [apply _| |intros ?]
    | apply always_catch_all; [apply _| |] | apply always_when; [apply _|] ].

Section SteadyOperations.
Context `{L : JsonLib} `{Y : YamlLib} {E : RuntimeEnv} {HE : ClusterLaws E} (config : RuntimeConfig).
Abbreviation stable := (Always (steady config)).

Lemma steady_get_run i : stable (get_run i).
Proof. unfold get_run. steadies. Qed.
Lemma steady_get_work i : stable (get_work i).
Proof. unfold get_work. steadies. Qed.
Lemma steady_list_pages fuel k run_id : forall offset, stable (list_pages fuel k run_id offset).
Proof. induction fuel as [|fuel IH]; intros offset; cbn -[r_list]; steadies; apply IH. Qed.
Lemma steady_list_all k run_id : stable (list_all k run_id).
Proof. apply steady_list_pages. Qed.
Lemma steady_ready r : stable (distributed_parallel_ready r).
Proof. unfold distributed_parallel_ready. steadies. Qed.
Lemma steady_settle r rs : stable (settle_continuations r rs).
Proof. unfold settle_continuations. steadies. Qed.
Lemma steady_session_run f f' n clk rs o tok ev : stable (r_store (commit_session_run f f' n clk rs o tok ev)).
Proof. apply steady_store, mleases_session_run. Qed.
Lemma steady_lost i : stable (io_modify (lose_ownership i)).
Proof. by apply steady_alter_run. Qed.
Hint Resolve steady_get_run steady_get_work steady_list_all steady_ready steady_settle steady_session_run steady_lost : steady.
Lemma steady_checkpoint r type rs : stable (checkpoint config r type rs).
Proof. unfold checkpoint. steadies. Qed.
Lemma steady_transition r to event rs : stable (transition config r to event rs).
Proof. apply always_bind; [apply _|apply always_lift, _|]. intros _. apply steady_checkpoint. Qed.
Hint Resolve steady_checkpoint steady_transition : steady.
Lemma steady_approved r : stable (approved r).
Proof. unfold approved. steadies. Qed.
Hint Resolve steady_approved : steady.
Lemma steady_resume i : stable (resume config i).
Proof. unfold resume, io_guard. steadies. Qed.
Hint Resolve steady_resume : steady.
Lemma steady_finish_parent r : stable (finish_parent config r).
Proof. unfold finish_parent. steadies. Qed.
Hint Resolve steady_finish_parent : steady.
Lemma steady_ended i failed : stable (execution_ended config i failed).
Proof. unfold execution_ended. apply always_bind; [apply _|steadies|intros w]. apply always_bind; [apply _|apply steady_delete_run|intros _]. steadies. Qed.
Lemma steady_quiet {A} (m : RIO A) : stable m -> stable (quiet m).
Proof. intros Hm. unfold quiet. apply always_catch; [apply _| |intros e; by apply always_ret, _]. apply always_bind; [apply _|done|intros a; by apply always_ret, _]. Qed.
Hint Resolve steady_quiet : steady.
End SteadyOperations.
#[export] Hint Resolve steady_get_run steady_get_work steady_list_all steady_ready steady_ended steady_quiet : steady.

(** ** The invariant of the cluster *)

Definition process_of (pl : Place) : nat :=
  match pl with PWork p _ | PGlobal p _ | PRunSlot p _ | PRun p _ => p end.
Definition rt_lease (rt : RT) (pl : Place) : option LeaseRecord :=
  match pl with
  | PWork _ i => an_work <$> active_nodes rt !! i
  | PGlobal _ i => active_nodes rt !! i ≫= an_global
  | PRunSlot _ i => active_nodes rt !! i ≫= an_run
  | PRun _ i => active rt !! i ≫= ar_lease
  end.
Definition lease_at (w : Cluster) (pl : Place) : option LeaseRecord := members w !! process_of pl ≫= fun rt => rt_lease rt pl.

(** The right to put a lease somewhere, and where a lease was put. *)
Inductive Right := Fresh (g : string * Z) | Put (g : string * Z) (pl : Place).
Definition is_fresh (g : string * Z) (k : Right) : bool := match k with Fresh h => bool_decide (h = g) | Put _ _ => false end.
Lemma fresh_count g T : (0 < count (is_fresh g) T)%nat <-> Fresh g ∈ T.
Proof.
  rewrite count_pos. split.
  - intros ([h|h pl] & Hin & He); [|done]. simpl in He. apply bool_decide_eq_true in He as ->. done.
  - intros Hin. exists (Fresh g). split; [done|]. simpl. by apply bool_decide_eq_true.
Qed.

Section Invariant.
Context (config : nat -> RuntimeConfig).

(** The leases of slots are on one of the configured slots. *)
Definition shaped (pl : Place) (k : string) : Prop :=
  match pl with
  | PGlobal p _ => exists n, (n < Z.to_nat (max_nodes (config p)))%nat /\ k = slot_key n
  | PRunSlot p _ => exists run n, (n < Z.to_nat (max_nodes_per_run (config p)))%nat /\ k = run_slot_key run n
  | _ => True
  end.
Record Claims (w : Cluster) (T : list Right) : Prop := {
  cm_at : forall pl l, lease_at w pl = Some l -> placed w !! grant_of l = Some pl;
  cm_put : forall g pl, Put g pl ∈ T -> placed w !! g = Some pl;
  cm_once : forall g, (count (is_fresh g) T <= 1)%nat;
  cm_unplaced : forall g, Fresh g ∈ T -> placed w !! g = None;
  cm_rows : forall g, Fresh g ∈ T \/ is_Some (placed w !! g) ->
    exists row, leases (cl_db w) !! g.1 = Some row /\ g.2 <= l_token row;
  cm_shape : forall g pl, placed w !! g = Some pl -> shaped pl g.1;
  cm_bounded : forall p rt, members w !! p = Some rt -> bounded (config p) rt }.
Lemma claims_sub w T T' : T' ⊆+ T -> Claims w T -> Claims w T'.
Proof.
  intros Hs [C1 C2 C3 C4 C5 C6 C7].
  assert (Hin : forall k, k ∈ T' -> k ∈ T) by (intros k Hk; by eapply elem_of_submseteq).
  split; [done|auto| |auto| |done|done].
  - intros g. pose proof (count_sub (is_fresh g) _ _ Hs). specialize (C3 g). lia.
  - intros g [Hg|Hg]; apply C5; auto.
Qed.
Lemma claims_perm w T T' : T ≡ₚ T' -> Claims w T -> Claims w T'.
Proof. intros Hp. apply claims_sub. by rewrite Hp. Qed.
Lemma claims_drop w T T' : Claims w (T ++ T') -> Claims w T'.
Proof. apply claims_sub, submseteq_inserts_l. done. Qed.

(** A step that puts nothing anywhere. *)
Definition calm (w w' : Cluster) : Prop := forall T, Claims w T -> Claims w' T.
#[global] Instance calm_preorder : PreOrder calm.
Proof. split; [by intros w T|]. intros a b c Hab Hbc T Ha. auto. Qed.
Lemma claims_calm w w' T : leases_grow (cl_db w) (cl_db w') -> placed w' = placed w ->
  (forall pl l, lease_at w' pl = Some l -> lease_at w pl = Some l) ->
  (forall p rt, members w' !! p = Some rt -> bounded (config p) rt) -> Claims w T -> Claims w' T.
Proof.
  intros Hg Hp Hl Hb [C1 C2 C3 C4 C5 C6 C7]. split; rewrite ?Hp; [|done..| |done|done].
  - intros pl l Hpl. by apply C1, Hl.
  - intros g Hfg. destruct (C5 g Hfg) as (row & Hr & Ht). destruct (Hg _ _ Hr) as (row' & Hr' & ?).
    exists row'. split; [done|lia].
Qed.
Lemma steady_lease c rt rt' pl l : steady c rt rt' -> rt_lease rt' pl = Some l -> rt_lease rt pl = Some l.
Proof.
  intros [_ Hn Hr _]. destruct pl as [p i|p i|p i|p i]; simpl.
  - destruct (active_nodes rt' !! i) as [a'|] eqn:Ha; [|done]. destruct (Hn _ _ Ha) as (a & -> & He & _). simpl. by rewrite He.
  - destruct (active_nodes rt' !! i) as [a'|] eqn:Ha; [|done]. destruct (Hn _ _ Ha) as (a & -> & _ & He & _). simpl. by rewrite He.
  - destruct (active_nodes rt' !! i) as [a'|] eqn:Ha; [|done]. destruct (Hn _ _ Ha) as (a & -> & _ & _ & He). simpl. by rewrite He.
  - destruct (active rt' !! i) as [a'|] eqn:Ha; [|done]. simpl. destruct (Hr _ _ Ha) as [->|(a & -> & He)]; [done|]. simpl. by rewrite He.
Qed.
(** A process that is replaced by its next state. *)
Lemma lease_at_next w p rt' db pl : lease_at (mkCluster db (<[p := rt']> (members w)) (placed w)) pl
  = if base.decide (process_of pl = p) then rt_lease rt' pl else lease_at w pl.
Proof.
  unfold lease_at. simpl. destruct (base.decide (process_of pl = p)) as [<-|Hne]; [by rewrite lookup_insert_eq|by rewrite lookup_insert_ne].
Qed.
End Invariant.

(** *** Putting leases somewhere *)

Abbreviation puts := (list (LeaseRecord * Place)).
Definition rights (l : puts) : list Right := map (fun x => Fresh (grant_of x.1)) l.
Lemma rights_nodup (l : puts) T : (forall g, (count (is_fresh g) (rights l ++ T) <= 1)%nat) -> NoDup (map (fun x => grant_of x.1) l).
Proof.
  induction l as [|[g pl] l IH]; intros Hc; simpl; constructor.
  - intros Hin%list_elem_of_In%in_map_iff. destruct Hin as ([h pl'] & He & Hin). specialize (Hc (grant_of g)).
    simpl in Hc, He. rewrite count_cons in Hc. simpl in Hc. rewrite bool_decide_true in Hc by done.
    assert (Hp : (0 < count (is_fresh (grant_of g)) (rights l ++ T))%nat); [|lia]. apply fresh_count, elem_of_app. left.
    apply list_elem_of_In, in_map_iff. exists (h, pl'). split; [simpl; by rewrite He|done].
  - apply IH. intros h. specialize (Hc h). simpl in Hc. rewrite count_cons in Hc. lia.
Qed.
Lemma put_leases_in l pl (ls : puts) m : NoDup (map (fun x => grant_of x.1) ls) -> (l, pl) ∈ ls ->
  put_leases ls m !! grant_of l = Some pl.
Proof.
  induction ls as [|[g pl'] ls IH]; intros Hn Hin; [by apply elem_of_nil in Hin|]. simpl in *. inversion Hn as [|? ? Hni Hn']; subst.
  apply elem_of_cons in Hin as [[= -> ->]|Hin]; [apply lookup_insert_eq|].
  rewrite lookup_insert_ne; [by apply IH|]. intros He. apply Hni. rewrite He. apply list_elem_of_In, in_map_iff.
  exists (l, pl). split; [done|by apply list_elem_of_In].
Qed.
Lemma put_leases_some (ls : puts) m g pl : put_leases ls m !! g = Some pl ->
  m !! g = Some pl \/ exists l, (l, pl) ∈ ls /\ grant_of l = g.
Proof.
  induction ls as [|[h pl'] ls IH]; simpl; [by left|].
  intros [[<- <-]|[_ Hg]]%lookup_insert_Some; [right; exists h; split; [by left|done]|].
  destruct (IH Hg) as [?|(l & Hin & ?)]; [by left|right; exists l; split; [by right|done]].
Qed.
Lemma put_leases_out (ls : puts) m g : (forall l pl, (l, pl) ∈ ls -> grant_of l <> g) -> put_leases ls m !! g = m !! g.
Proof.
  induction ls as [|[h pl] ls IH]; intros Hg; simpl; [done|]. rewrite lookup_insert_ne by (apply (Hg h pl); by left).
  apply IH. intros l pl' Hin. apply (Hg l pl'). by right.
Qed.
Lemma claims_put config (ls : puts) w w' T : Claims config w (rights ls ++ T) ->
  leases_grow (cl_db w) (cl_db w') -> placed w' = put_leases ls (placed w) ->
  (forall pl l, lease_at w' pl = Some l -> (l, pl) ∈ ls \/ lease_at w pl = Some l) ->
  (forall l pl, (l, pl) ∈ ls -> shaped config pl (resource_key l)) ->
  (forall p rt, members w' !! p = Some rt -> bounded (config p) rt) -> Claims config w' T.
Proof.
  intros [C1 C2 C3 C4 C5 C6 C7] Hg Hp Hl Hs Hb. pose proof (rights_nodup ls T C3) as Hn.
  assert (Hfresh : forall l pl, (l, pl) ∈ ls -> Fresh (grant_of l) ∈ rights ls ++ T).
  { intros l pl Hin. apply elem_of_app. left. apply list_elem_of_In, in_map_iff. exists (l, pl). split; [done|by apply list_elem_of_In]. }
  assert (Hout : forall g pl, placed w !! g = Some pl -> placed w' !! g = Some pl).
  { intros g pl Hpl. rewrite Hp, put_leases_out; [done|]. intros l pl' Hin He. rewrite <- He, (C4 _ (Hfresh _ _ Hin)) in Hpl. done. }
  split.
  - intros pl l [Hin|Hat]%Hl; [rewrite Hp; by apply put_leases_in|by apply Hout, C1].
  - intros g pl Hin. apply Hout, C2, elem_of_app. by right.
  - intros g. specialize (C3 g). rewrite count_app in C3. lia.
  - intros g Hin. rewrite Hp, put_leases_out; [apply C4, elem_of_app; by right|]. intros l pl Hin' He. subst g.
    specialize (C3 (grant_of l)). rewrite count_app in C3. apply fresh_count in Hin.
    assert (Hr : (0 < count (is_fresh (grant_of l)) (rights ls))%nat); [|lia].
    apply fresh_count, list_elem_of_In, in_map_iff. exists (l, pl). split; [done|by apply list_elem_of_In].
  - intros g Hor. assert (Hrow : exists row, leases (cl_db w) !! g.1 = Some row /\ g.2 <= l_token row).
    { apply C5. destruct Hor as [Hin|[pl Hpl]]; [left; apply elem_of_app; by right|]. rewrite Hp in Hpl.
      apply put_leases_some in Hpl as [?|(l & Hin & <-)]; [right; by eexists|left; by eapply Hfresh]. }
    destruct Hrow as (row & Hrow & ?). destruct (Hg _ _ Hrow) as (row' & ? & ?). exists row'. split; [done|lia].
  - intros g pl Hpl. rewrite Hp in Hpl. apply put_leases_some in Hpl as [?|(l & Hin & <-)]; [by apply C6|]. simpl. by apply Hs.
  - done.
Qed.

Section Blocks.
Context `{L : JsonLib} `{Y : YamlLib} (E : nat -> RuntimeEnv) {HE : forall p, ClusterLaws (E p)} (config : nat -> RuntimeConfig).
Context (p : nat).
#[local] Existing Instance process_env.
#[local] Instance process_laws : ClusterLaws (process_env E p) := HE p.
Abbreviation holds_claims := (Claims config).

Lemma on_process_cases {A} (m : RIO A) w :
  (members w !! p = None /\ on_process p m w = (w, TThrow TStd)) \/
  exists rt rt' r, members w !! p = Some rt /\ m (with_db (cl_db w) rt) = (rt', r)
    /\ on_process p m w = (mkCluster (rt_db rt') (<[p := rt']> (members w)) (placed w), r).
Proof.
  unfold on_process. destruct (members w !! p) as [rt|]; [right|by left].
  destruct (m (with_db (cl_db w) rt)) as [rt' r] eqn:Hm. by exists rt, rt', r.
Qed.
Lemma next_calm rt rt' w T : members w !! p = Some rt -> steady (config p) (with_db (cl_db w) rt) rt' ->
  holds_claims w T -> holds_claims (mkCluster (rt_db rt') (<[p := rt']> (members w)) (placed w)) T.
Proof.
  intros Hp Hs HT. pose proof (cm_bounded _ _ _ HT) as Hb. eapply claims_calm; [| | | |exact HT]; [by destruct Hs|done| |].
  - intros pl l. rewrite lease_at_next. destruct (base.decide (process_of pl = p)) as [He|]; [|done]. intros Hl.
    apply (steady_lease _ _ _ _ _ Hs) in Hl. unfold lease_at. rewrite He, Hp. simpl. by destruct pl.
  - simpl. intros q rt2 [[<- <-]|[_ Hq]]%lookup_insert_Some; [|by apply Hb]. apply (sd_bounded _ _ _ Hs). by apply (Hb p rt).
Qed.
Lemma on_process_calm {A} (m : RIO A) : Always (steady (config p)) m -> forall w, calm config w (on_process p m w).1.
Proof.
  intros Hm w T HT. destruct (on_process_cases m w) as [[_ ->]|(rt & rt' & r & Hp & Hr & ->)]; [done|].
  apply (next_calm rt rt' w T Hp); [|done]. specialize (Hm (with_db (cl_db w) rt)). by rewrite Hr in Hm.
Qed.

(** *** Acquiring *)

Lemma steady_acquire key : Always (steady (config p)) (acquire_lease E config p key).
Proof. apply steady_coord. intros clk. apply acquire_tokens. Qed.
Lemma acquire_claims key w T : holds_claims w T ->
  match (on_process p (acquire_lease E config p key) w).2 with
  | TOk (Some l) => resource_key l = key /\ holds_claims (on_process p (acquire_lease E config p key) w).1 (Fresh (grant_of l) :: T)
  | _ => True
  end.
Proof.
  intros HT. pose proof (on_process_calm _ (steady_acquire key) w T HT) as HT'.
  destruct (on_process_cases (acquire_lease E config p key) w) as [[_ ->]|(rt & rt' & r & Hp & Hr & He)]; [done|].
  rewrite He in *. simpl in *. destruct r as [[l|]|x]; [|done..].
  unfold acquire_lease, r_coord in Hr. destruct (acquire _ _ _ _ _) as [c res] eqn:Ha. injection Hr as <- Hres.
  destruct res as [o|e]; [|done]. injection Hres as ->. apply acquire_ok in Ha as (_ & _ & Hk & _ & Ht & _ & _ & Hls).
  simpl in Ht, Hls. unfold rt_db in *. simpl in *. split; [done|].
  assert (Hnew : forall g, g.1 = key -> Fresh g ∈ T \/ is_Some (placed w !! g) -> g.2 < lr_token l).
  { intros g Hg Hor. destruct (cm_rows _ _ _ HT g Hor) as (row & Hrow & Hle). rewrite Hg in Hrow. rewrite Hrow in Ht. simpl in Ht. lia. }
  destruct HT' as [C1 C2 C3 C4 C5 C6 C7]. split; [done| | | | |done|done].
  - intros g pl [?|Hin]%elem_of_cons; [done|by apply C2].
  - intros g. rewrite count_cons. simpl. case_bool_decide as Hg; [|apply C3]. subst g.
    assert (Hno : ~ (0 < count (is_fresh (grant_of l)) T)%nat).
    { intros Hin%fresh_count. specialize (Hnew (grant_of l) Hk (or_introl Hin)). simpl in Hnew. lia. }
    lia.
  - intros g [[= ->]|Hin]%elem_of_cons; [|by apply C4]. simpl. destruct (placed w !! grant_of l) as [pl|] eqn:Hpl; [|done].
    specialize (Hnew (grant_of l) Hk (or_intror (ex_intro _ pl Hpl))). simpl in Hnew. lia.
  - intros g [[[= ->]|Hin]%elem_of_cons|Hg]; [|apply C5; by left|apply C5; by right].
    simpl. rewrite Hls, Hk, lookup_insert_eq. eexists. split; [done|]. simpl. lia.
Qed.

(** *** Entries of claimed work *)

(** An operation that puts the leases [ls] at their places when it returns [true]. *)
Definition puts_leases (ls : puts) (m : RIO bool) : Prop :=
  forall rt rt' r, m rt = (rt', r) ->
    (r <> TOk true -> steady (config p) rt rt') /\
    (r = TOk true -> leases_grow (rt_db rt) (rt_db rt') /\ (bounded (config p) rt -> bounded (config p) rt') /\
      forall pl l, process_of pl = p -> rt_lease rt' pl = Some l -> (l, pl) ∈ ls \/ rt_lease rt pl = Some l).
Lemma placing_claims (ls : puts) (m : RIO bool) w T : puts_leases ls m ->
  (forall l pl, (l, pl) ∈ ls -> shaped config pl (resource_key l)) -> holds_claims w (rights ls ++ T) ->
  holds_claims (let '(w', r) := on_process p m w in
                (match r with TOk true => w' <| placed := put_leases ls (placed w') |> | _ => w' end, r)).1 T.
Proof.
  intros Hm Hs HT. destruct (on_process_cases m w) as [[_ ->]|(rt & rt' & r & Hp & Hr & ->)]; [by eapply claims_drop|].
  destruct (Hm _ _ _ Hr) as [Hno Hyes]. assert (Hcase : r = TOk true \/ r <> TOk true) by (destruct r as [[]|]; [by left|by right..]).
  destruct Hcase as [->|Hne].
  - simpl. destruct (Hyes eq_refl) as (Hg & Hb & Hl). eapply claims_put; [exact HT|exact Hg|done| |exact Hs|].
    + intros pl l. change (lease_at (mkCluster (rt_db rt') (<[p := rt']> (members w)) (placed w)) pl = Some l -> (l, pl) ∈ ls \/ lease_at w pl = Some l).
      rewrite lease_at_next. destruct (base.decide (process_of pl = p)) as [He|]; [|by right]. intros Hpl.
      destruct (Hl pl l He Hpl) as [?|Hat]; [by left|right]. unfold lease_at. rewrite He, Hp. simpl. by destruct pl.
    + simpl. intros q rt2 [[<- <-]|[_ Hq]]%lookup_insert_Some; [|by apply (cm_bounded _ _ _ HT)].
      apply Hb, (cm_bounded _ _ _ HT p rt Hp).
  - assert (Hcalm : holds_claims (mkCluster (rt_db rt') (<[p := rt']> (members w)) (placed w)) T)
      by (eapply next_calm; [done|by apply Hno|by eapply claims_drop]).
    simpl. destruct r as [[]|x]; [done|exact Hcalm|exact Hcalm].
Qed.
Lemma schedule_puts r l : puts_leases [(l, PRun p (id r))] (schedule_claimed E config p r l).
Proof.
  intros rt rt' x Hr. unfold schedule_claimed in Hr. rewrite (io_bind_run io_get _ rt rt rt eq_refl) in Hr.
  destruct (full_runs config p rt).
  - apply (always_run (steady (config p))) in Hr as Hs; [|steadies]. split; [done|].
    intros ->. apply io_bind_ok in Hr as (? & ? & _ & [=]).
  - unfold io_catch, mbind, io_bind in Hr. destruct (schedule (config p) r (Some l) rt) as [rt1 [[]|y]] eqn:Hs.
    + injection Hr as <- <-. split; [done|]. intros _.
      pose proof (schedule_bounded _ _ _ _ _ Hs) as Hb. apply schedule_ok in Hs as (_ & _ & ->).
      split_and!; [reflexivity|done|]. intros pl l' Hpl. destruct pl as [q i|q i|q i|q i]; simpl in *; [by right..|]. subst q.
      destruct (base.decide (id r = i)) as [<-|Hne]; [|rewrite lookup_insert_ne by done; by right].
      rewrite lookup_insert_eq. simpl. intros [= <-]. left. by left.
    + apply schedule_throw in Hs as ->. destruct (error_of y); injection Hr as <- <-; (split; [reflexivity|done]).
Qed.
Lemma activate_puts work l g s :
  puts_leases [(l, PWork p (w_id work)); (g, PGlobal p (w_id work)); (s, PRunSlot p (w_id work))] (activate E config p work l g s).
Proof.
  intros rt rt' x Hr. unfold activate in Hr. rewrite (io_bind_run io_get _ rt rt rt eq_refl) in Hr.
  destruct (full_nodes config p rt) eqn:Hfull.
  - apply (always_run (steady (config p))) in Hr as Hs; [|steadies]. split; [done|].
    intros ->. do 3 (apply io_bind_ok in Hr as (? & ? & _ & Hr)). discriminate Hr.
  - unfold io_guard in Hr. case_bool_decide as Hin.
    + injection Hr as <- <-. split; [reflexivity|done].
    + injection Hr as <- <-. split; [done|]. intros _. rewrite <- eq_None_not_Some in Hin.
      apply orb_false_iff in Hfull as [_ Hfull]. split_and!; [reflexivity| |].
      * intros [Q1 Q2]. split; [|done]. simpl. rewrite map_size_insert_None by done. lia.
      * intros pl l' Hpl. destruct pl as [q i|q i|q i|q i]; simpl in *; [| | |by right]; subst q;
          (destruct (base.decide (w_id work = i)) as [<-|Hne]; [rewrite lookup_insert_eq|rewrite lookup_insert_ne by done; by right]);
          simpl; intros [= <-]; left; set_solver.
Qed.
(** *** Renewed leases *)

Lemma renewed_same l w w' l' : on_process p (renew_lease E config p l) w = (w', TOk (Some l')) -> grant_of l' = grant_of l.
Proof.
  intros Hr. destruct (on_process_cases (renew_lease E config p l) w) as [[_ He]|(rt & rt' & r & _ & Hm & He)]; rewrite He in Hr; [done|].
  injection Hr as <- ->. unfold renew_lease, r_coord in Hm. destruct (renew _ _ _ _ _) as [c res] eqn:Hn. injection Hm as _ Hres.
  destruct res as [o|e]; [|done]. injection Hres as ->. apply renew_ok in Hn as (_ & row & _ & _ & Hk & _ & Ht & _).
  unfold grant_of. by rewrite Hk, Ht.
Qed.
Lemma update_claims (m : RIO unit) (rt_next : RT -> RT) w T : (forall rt, m rt = (rt_next rt, TOk tt)) ->
  (forall rt, rt_db (rt_next rt) = rt_db rt /\ (bounded (config p) rt -> bounded (config p) (rt_next rt))) ->
  (forall rt pl l, process_of pl = p -> rt_lease (rt_next rt) pl = Some l -> rt_lease rt pl = Some l \/ Put (grant_of l) pl ∈ T) ->
  holds_claims w T -> holds_claims (on_process p m w).1 T.
Proof.
  intros Hm Hn Hl HT. destruct (on_process_cases m w) as [[_ ->]|(rt & rt' & r & Hp & Hr & ->)]; [done|].
  rewrite Hm in Hr. injection Hr as <- <-. destruct (Hn (with_db (cl_db w) rt)) as [Hdb Hb]. destruct HT as [C1 C2 C3 C4 C5 C6 C7].
  split; simpl; rewrite ?Hdb; try done.
  - intros pl l. rewrite lease_at_next. destruct (base.decide (process_of pl = p)) as [He|]; [|apply C1]. intros Hpl.
    destruct (Hl _ pl l He Hpl) as [Hat|Hput]; [|by apply C2]. apply C1. unfold lease_at. rewrite He, Hp. simpl. by destruct pl.
  - intros q rt2 [[<- <-]|[_ Hq]]%lookup_insert_Some; [|by apply C7]. apply Hb, (C7 p rt Hp).
Qed.
End Blocks.

(** ** Programs *)

Section Programs.
Context `{L : JsonLib} `{Y : YamlLib} (E : nat -> RuntimeEnv) {HE : forall p, ClusterLaws (E p)} (config : nat -> RuntimeConfig).

(** Calls leave nothing in the state, and a thread may end with any rights. *)
Definition unnoted (c : ClaimCall) (w : Cluster) : Cluster := w.
Definition any_rights (T : list Right) : Prop := True.
Abbreviation leaves := (respects (answer := claim_answer) unnoted (calm config)).
Abbreviation cwp := (wp (answer := claim_answer) unnoted (Claims config) any_rights).
Definition lawful {A} (m : CProg A) (t : list Right) : Prop := cwp m t (fun _ _ => True).

Lemma leaves_wp {A} (m : CProg A) t : leaves m -> cwp m t (fun _ t' => t' = t).
Proof. apply (respects_wp unnoted (Claims config) any_rights (calm config)); [|done]. auto. Qed.
Lemma leaves_lawful {A} (m : CProg A) t : leaves m -> lawful m t.
Proof. intros Hm. eapply wp_mono; [|by apply leaves_wp]. done. Qed.
Lemma lawful_sub {A} (m : CProg A) t u : t ⊆+ u -> lawful m t -> lawful m u.
Proof. intros Hs. eapply wp_sub; [apply claims_perm|apply claims_drop|by intros a t1 t2 _ _|done]. Qed.
Lemma lawful_bind_wp {A B} (m : CTask A) (f : A -> CTask B) t Q : cwp m t Q ->
  (forall a t', Q (TOk a) t' -> lawful (f a) t') -> lawful (m ≫= f) t.
Proof. intros Hm Hf. apply wp_bind. eapply wp_mono; [|exact Hm]. intros [a|x] t' HQ; [by apply Hf|done]. Qed.
Lemma lawful_bind {A B} (m : CTask A) (f : A -> CTask B) t : leaves m -> (forall a, lawful (f a) t) -> lawful (m ≫= f) t.
Proof. intros Hm Hf. eapply lawful_bind_wp; [by apply leaves_wp|]. by intros a t' ->. Qed.
Lemma lawful_catch {A} (m : CTask A) h t : lawful m t -> (forall e, lawful (h e) []) -> lawful (task_catch m h) t.
Proof.
  intros Hm Hh. apply wp_bind. eapply wp_mono; [|exact Hm]. intros [a|x] t' _; [done|]. destruct (error_of x); [|done].
  eapply lawful_sub; [|apply Hh]. apply submseteq_nil_l.
Qed.

Lemma leaves_ret {A} (a : A) : leaves (mret (M := CTask) a).
Proof. done. Qed.
Lemma leaves_throw {A} x : leaves (task_throw (A := A) x).
Proof. done. Qed.
Lemma leaves_lift {A} (r : tres A) : leaves (task_lift r).
Proof. done. Qed.
Lemma leaves_bind {A B} (m : CTask A) (f : A -> CTask B) : leaves m -> (forall a, leaves (f a)) -> leaves (m ≫= f).
Proof. intros Hm Hf. apply respects_bind; [exact Hm|]. intros [a|x]; [apply Hf|exact I]. Qed.
Lemma leaves_catch {A} (m : CTask A) h : leaves m -> (forall e, leaves (h e)) -> leaves (task_catch m h).
Proof. intros Hm Hh. apply respects_bind; [exact Hm|]. intros [a|x]; [exact I|]. destruct (error_of x); [apply Hh|exact I]. Qed.
Lemma leaves_when b (m : CTask unit) : leaves m -> leaves (task_when b m).
Proof. by destruct b. Qed.
Lemma leaves_call c : leaves (call c).
Proof. split; [|done]. intros w. unfold unnoted. reflexivity. Qed.
Lemma leaves_iter {A} (f : A -> CTask unit) l : (forall x, leaves (f x)) -> leaves (task_iter f l).
Proof. intros Hf. induction l as [|x l IH]; simpl; [done|]. by apply leaves_bind. Qed.

Section AtProcess.
Context (p : nat).
#[local] Existing Instance process_env.
#[local] Instance program_laws : ClusterLaws (process_env E p) := HE p.
Abbreviation stable := (Always (steady (config p))).

Lemma leaves_at {A} (m : RIO A) : stable m -> leaves (at_process p m).
Proof. intros Hm. split; [|done]. by apply on_process_calm. Qed.
Ltac keep :=
  repeat first
    [ apply leaves_ret | apply leaves_throw | apply leaves_lift | apply leaves_call
    | apply leaves_at; solve [steadies] | apply leaves_bind; [|intros ?] | apply leaves_catch; [|intros ?] | apply leaves_when
    | apply leaves_iter; intros ? | case_match ].

Lemma leaves_accepting : leaves (accepting p).
Proof. unfold accepting. keep. Qed.
Lemma leaves_wait_over r : leaves (wait_over E p r).
Proof. unfold wait_over, child_ended. keep. Qed.
Lemma leaves_release l : leaves (release_at E config p l).
Proof. unfold release_at. keep. Qed.
Lemma leaves_quietly l : leaves (release_quietly E config p l).
Proof. unfold release_quietly. apply leaves_catch; [apply leaves_release|]. by intros e. Qed.
Lemma leaves_under {A} l (m : CTask A) : leaves m -> leaves (under E config p l m).
Proof. intros Hm. apply leaves_catch; [done|]. intros e. apply leaves_bind; [apply leaves_quietly|]. by intros _. Qed.
Lemma lawful_under {A} l (m : CTask A) t : lawful m t -> lawful (under E config p l m) t.
Proof. intros Hm. apply lawful_catch; [done|]. intros e. apply leaves_lawful, leaves_bind; [apply leaves_quietly|]. by intros _. Qed.
Lemma leaves_eligible value : leaves (work_eligible E config p value).
Proof. unfold work_eligible, decode_work. keep. Qed.
Lemma leaves_expired work : leaves (expired_attempt E p work).
Proof. unfold expired_attempt. keep. Qed.
Lemma leaves_listed k : leaves (listed config p k).
Proof. unfold listed. keep. Qed.
Lemma steady_node_ended i : stable (node_ended E config p i).
Proof.
  unfold node_ended. apply always_bind; [apply _|steadies|intros w]. case_match; [|steadies].
  apply always_bind; [apply _|apply steady_delete_node|intros _]. steadies.
Qed.
Lemma leaves_run_thread r : leaves (run_thread E config p r).
Proof. apply respects_bind; [apply leaves_call|]. intros x. apply respects_bind; [|done]. keep. Qed.
Lemma leaves_work_thread work : leaves (work_thread E config p work).
Proof. apply respects_bind; [apply leaves_call|]. intros x. apply respects_bind; [|done]. apply leaves_at, steady_node_ended. Qed.
Lemma lawful_spawn (q : CProg unit) b t : leaves q -> lawful (task_when b (spawn q)) t.
Proof.
  intros Hq. destruct b; [|done]. exists [], t. split_and!; [done| |done]. eapply wp_mono; [|by apply leaves_lawful]. done.
Qed.

(** *** Claiming *)

Definition acquired (key : string -> Prop) (t : list Right) (r : tres (option LeaseRecord)) (t' : list Right) : Prop :=
  match r with
  | TOk (Some l) => key (resource_key l) /\ t' = Fresh (grant_of l) :: t
  | _ => t' = t
  end.
Lemma wp_acquire key t : cwp (acquire_at E config p key) t (acquired (eq key) t).
Proof.
  intros w F HT. pose proof (acquire_claims E config p key w (t ++ F) HT) as Ha.
  pose proof (on_process_calm config p _ (steady_acquire E config p key) w (t ++ F) HT) as Hc.
  destruct (on_process p (acquire_lease E config p key) w).2 as [[l|]|x] eqn:Hr; simpl.
  - destruct Ha as [Hk Hl]. exists (Fresh (grant_of l) :: t). split; [exact Hl|]. by split.
  - by exists t.
  - by exists t.
Qed.
Lemma wp_first_slot key n : forall k t,
  cwp (first_slot E config p key n k) t (acquired (fun x => exists j, (k <= j < k + n)%nat /\ x = key j) t).
Proof.
  induction n as [|n IH]; intros k t; [done|]. cbn [first_slot]. apply wp_bind. eapply wp_mono; [|apply wp_acquire].
  intros [[l|]|x] t' Ha; simpl in Ha.
  - destruct Ha as [Hk ->]. split; [|done]. exists k. split; [lia|by symmetry].
  - subst t'. eapply wp_mono; [|apply IH]. intros [[l|]|x] t' Hl; simpl in *; [|done..].
    destruct Hl as [(j & Hj & Hk) ->]. split; [|done]. exists j. split; [lia|done].
  - subst t'. done.
Qed.
Lemma wp_placing (ls : puts) m t : puts_leases config p ls m ->
  (forall l pl, (l, pl) ∈ ls -> shaped config pl (resource_key l)) ->
  cwp (placing p ls m) (rights ls ++ t) (fun _ t' => t' = t).
Proof.
  intros Hm Hs w F HT. exists t. rewrite <- app_assoc in HT. split; [|done]. by apply placing_claims.
Qed.
Lemma lawful_claim_owned i l : lawful (claim_owned E config p i l) [Fresh (grant_of l)].
Proof.
  unfold claim_owned. apply lawful_bind; [keep|]. intros r. case_match; [apply leaves_lawful, leaves_release|].
  apply lawful_bind; [apply leaves_wait_over|]. intros over. case_match; [apply leaves_lawful, leaves_release|].
  apply lawful_bind; [keep|]. intros _. eapply lawful_bind_wp; [apply (wp_placing [(l, PRun p (id (claimed_run E p r l)))] _ [])|].
  - apply schedule_puts.
  - intros l' pl [[= -> ->]|[]%elem_of_nil]%elem_of_cons. done.
  - intros b t' ->. apply lawful_spawn, leaves_run_thread.
Qed.
Lemma lawful_claim_run value : lawful (claim_run E config p value) [].
Proof.
  unfold claim_run. apply lawful_bind; [apply leaves_accepting|]. intros open. case_match; [done|].
  destruct (run_of_json value) as [r|[]]; [|done..]. case_match; [done|].
  apply lawful_bind; [apply leaves_catch; [apply leaves_wait_over|by intros e]|]. intros over. case_match; [done|].
  apply lawful_bind; [keep|]. intros stop. case_match; [done|].
  eapply lawful_bind_wp.
  { apply wp_bind. eapply wp_mono; [|apply wp_acquire]. intros x t' Ha.
    instantiate (1 := acquired (fun _ => True) []). destruct x as [[l|]|x]; simpl in *; [destruct Ha as [_ ->]; done|done|].
    subst t'. by destruct (error_of x). }
  intros [l|] t' Ha; simpl in Ha; [destruct Ha as [_ ->]|done].
  eapply lawful_bind_wp; [apply lawful_catch; [apply lawful_claim_owned|intros e; apply leaves_lawful, leaves_quietly]|]. done.
Qed.
Lemma lawful_start_work i l g s : shaped config (PGlobal p "") (resource_key g) -> shaped config (PRunSlot p "") (resource_key s) ->
  lawful (start_work E config p i l g s) [Fresh (grant_of l); Fresh (grant_of g); Fresh (grant_of s)].
Proof.
  intros Hg Hs. unfold start_work. apply lawful_bind; [keep|]. intros work. case_match.
  { apply leaves_lawful, leaves_bind; [apply leaves_release|intros _]. apply leaves_bind; [apply leaves_release|intros _]. apply leaves_release. }
  apply lawful_bind; [apply leaves_expired|]. intros attempts. apply lawful_bind; [keep|]. intros fresh.
  apply lawful_bind; [keep|]. intros now. cbv zeta. apply lawful_bind; [keep|]. intros _.
  set (work' := claimed_work E p work l fresh now).
  eapply lawful_bind_wp; [apply (wp_placing [(l, PWork p (w_id work')); (g, PGlobal p (w_id work')); (s, PRunSlot p (w_id work'))] _ [])|].
  - by apply activate_puts.
  - intros l' pl [[= -> ->]|[[= -> ->]|[[= -> ->]|[]%elem_of_nil]%elem_of_cons]%elem_of_cons]%elem_of_cons; done.
  - intros b t' ->. apply lawful_spawn, leaves_work_thread.
Qed.
Lemma lawful_claim_slots work l : lawful (claim_slots E config p work l) [Fresh (grant_of l)].
Proof.
  unfold claim_slots. eapply lawful_bind_wp; [apply wp_first_slot|]. intros [g|] t' Hg; simpl in Hg; [|apply leaves_lawful, leaves_release].
  destruct Hg as [(j & Hj & Hkg) ->]. apply lawful_under. eapply lawful_bind_wp; [apply wp_first_slot|].
  intros [s|] t' Hs; simpl in Hs.
  - destruct Hs as [(k & Hk & Hks) ->]. apply lawful_under. eapply lawful_sub; [|apply lawful_start_work].
    + apply Permutation_submseteq, (Permutation_rev [Fresh (grant_of l); Fresh (grant_of g); Fresh (grant_of s)]).
    + simpl. exists j. split; [lia|done].
    + simpl. exists (w_run_id work), k. split; [lia|done].
  - apply leaves_lawful, leaves_bind; [apply leaves_release|intros _]. apply leaves_release.
Qed.
Lemma lawful_claim_work value : lawful (claim_work E config p value) [].
Proof.
  unfold claim_work. apply lawful_bind; [apply leaves_accepting|]. intros open. case_match; [done|].
  apply lawful_bind; [apply leaves_catch; [apply leaves_eligible|by intros e]|]. intros [work|]; [|done].
  apply lawful_bind; [keep|]. intros stop. case_match; [done|].
  eapply lawful_bind_wp; [apply lawful_catch; [|by intros e]|done].
  eapply lawful_bind_wp; [apply wp_acquire|]. intros [l|] t' Ha; simpl in Ha; [|done]. destruct Ha as [_ ->].
  apply lawful_under, lawful_claim_slots.
Qed.
Lemma lawful_claim_each claim l : (forall value, lawful (claim value) []) -> lawful (claim_each claim l) [].
Proof.
  intros Hc. induction l as [|value l IH]; simpl; [done|]. eapply lawful_bind_wp; [apply Hc|].
  intros [] t' _; [|done]. eapply lawful_sub; [|exact IH]. apply submseteq_nil_l.
Qed.
Lemma lawful_claim_pass : lawful (claim_pass E config p) [].
Proof.
  unfold claim_pass. apply lawful_bind; [keep|]. intros full. apply lawful_bind; [apply leaves_accepting|]. intros open.
  case_match; [done|]. apply lawful_bind; [apply leaves_listed|]. intros [runs|]; [|done].
  eapply lawful_bind_wp; [apply lawful_claim_each, lawful_claim_run|]. intros _ t' _. eapply lawful_sub; [apply submseteq_nil_l|].
  apply lawful_bind; [apply leaves_listed|]. intros [works|]; [|done]. apply lawful_claim_each, lawful_claim_work.
Qed.

(** *** Renewing *)

Lemma steady_evict i : stable (evict i).
Proof.
  unfold evict. apply always_bind; [apply _|steadies|intros w]. case_match; [|steadies].
  apply always_bind; [apply _|apply steady_delete_node|intros _]. steadies.
Qed.
Lemma steady_renew l : stable (renew_lease E config p l).
Proof. apply steady_coord. intros clk. apply renew_tokens. Qed.
Lemma steady_heartbeat st : stable (r_coord (E := process_env E p) (heartbeat_instance (instance_id (config p)) st)).
Proof. apply steady_coord. intros clk. apply heartbeat_tokens. Qed.
Hint Resolve steady_evict steady_renew steady_heartbeat steady_acquire : steady.
Lemma leaves_acquire key : leaves (acquire_at E config p key).
Proof. unfold acquire_at. keep. Qed.
Lemma leaves_optional {A} (m : CTask A) : leaves m -> leaves (optional m).
Proof. intros Hm. unfold optional. apply leaves_catch; [apply leaves_bind; [done|by intros a]|by intros e]. Qed.
Lemma leaves_commit_settled observed lease r retry a current : leaves (commit_settled E config p observed lease r retry a current).
Proof.
  unfold commit_settled, commit_taken_over. apply leaves_catch; [keep|]. intros e. case_match; [done|].
  apply leaves_bind; [apply leaves_accepting|intros open]. case_match; [done|].
  apply leaves_bind; [apply leaves_acquire|]. intros [l|]; [|done]. apply leaves_under. apply leaves_bind; [keep|intros cur].
  case_match; [|keep]. apply leaves_bind; [apply leaves_release|by intros _].
Qed.
Lemma leaves_reconcile observed lease : leaves (reconcile_terminal_worker E config p observed lease).
Proof.
  unfold reconcile_terminal_worker. case_match; [done|]. apply leaves_bind; [apply leaves_optional; keep|]. intros [r|]; [|done].
  apply leaves_bind; [keep|]. intros [a|]; [|done]. apply leaves_bind; [apply leaves_optional; keep|]. intros [job|]; [|done].
  case_match; [done|]. unfold settle_terminal. apply leaves_bind; [apply leaves_optional; keep|]. intros [current|]; [|done].
  case_match; [done|]. apply leaves_bind; [keep|]. intros busy. case_match; [done|]. apply leaves_bind; [keep|]. intros fin. cbv zeta.
  apply leaves_bind; [keep|]. intros now. apply leaves_catch; [|by intros e]. apply leaves_bind; [apply leaves_commit_settled|].
  intros [[l cur]|]; [|done]. apply leaves_bind; [keep|]. intros old. apply leaves_iter. intros l'. apply leaves_quietly.
Qed.
Lemma leaves_update_run i f : (forall a, ar_lease (f a) = ar_lease a) -> leaves (update_run p i f).
Proof. intros Hf. apply leaves_at. by apply steady_alter_run. Qed.
Lemma leaves_update_node i f : (forall a, same_node_leases a (f a)) -> leaves (update_node p i f).
Proof. intros Hf. apply leaves_at. by apply steady_alter_node. Qed.
Lemma leaves_observe i : leaves (observe_node E p i).
Proof.
  unfold observe_node. apply leaves_catch; [|intros e; case_match; [done|by apply leaves_update_node]].
  apply leaves_bind; [keep|intros work]. apply leaves_bind; [keep|intros r]. apply leaves_when. by apply leaves_update_node.
Qed.
Definition renewed_as (l : LeaseRecord) (o : tres Renewal) : Prop :=
  match o with TOk (Renewed l') => grant_of l' = grant_of l | _ => True end.
Lemma wp_renewal l t : cwp (renewal E config p l) t (fun o t' => t' = t /\ renewed_as l o).
Proof.
  apply (lands_wp unnoted (Claims config) any_rights (calm config)); [auto|]. unfold renewal.
  apply (lands_bind unnoted (calm config) (fun o => renewed_as l o)).
  - apply (lands_bind unnoted (calm config) (fun o => match o with TOk (Some l') => grant_of l' = grant_of l | _ => True end)).
    + intros w. split; [apply on_process_calm, steady_renew|]. simpl.
      destruct (on_process p (renew_lease E config p l) w) as [w' [[l'|]|x]] eqn:Hr; simpl; [|done..]. by eapply renewed_same.
    + by intros [[l'|]|x].
  - intros [o|x] Ho; [done|]. simpl. destruct (error_of x); [|done]. simpl. unfold renewed_as. by destruct (bool_decide _).
Qed.

(** Programs that keep what their thread knows. *)
Definition stays {A} (m : CProg A) (t : list Right) : Prop := cwp m t (fun _ t' => t' = t).
Lemma stays_bind_wp {A B} (P : tres A -> Prop) (m : CTask A) (f : A -> CTask B) t : cwp m t (fun r t' => t' = t /\ P r) ->
  (forall a, P (TOk a) -> stays (f a) t) -> stays (m ≫= f) t.
Proof. intros Hm Hf. apply wp_bind. eapply wp_mono; [|exact Hm]. intros [a|x] t' [-> HP]; [by apply Hf|done]. Qed.
Lemma stays_bind {A B} (m : CTask A) (f : A -> CTask B) t : leaves m -> (forall a, stays (f a) t) -> stays (m ≫= f) t.
Proof. intros Hm Hf. apply (stays_bind_wp (fun _ => True)); [|auto]. eapply wp_mono; [|by apply leaves_wp]. done. Qed.
Lemma stays_iter {A} (f : A -> CTask unit) l t : (forall x, x ∈ l -> stays (f x) t) -> stays (task_iter f l) t.
Proof.
  induction l as [|x l IH]; intros Hf; simpl; [done|]. apply (stays_bind_wp (fun _ => True)).
  - eapply wp_mono; [|apply Hf; by left]. done.
  - intros _ _. apply IH. intros y Hy. apply Hf. by right.
Qed.
Lemma stays_update (m : RIO unit) (rt_next : RT -> RT) t : (forall rt, m rt = (rt_next rt, TOk tt)) ->
  (forall rt, rt_db (rt_next rt) = rt_db rt /\ (bounded (config p) rt -> bounded (config p) (rt_next rt))) ->
  (forall rt pl l, process_of pl = p -> rt_lease (rt_next rt) pl = Some l -> rt_lease rt pl = Some l \/ Put (grant_of l) pl ∈ t) ->
  stays (at_process p m) t.
Proof.
  intros Hm Hn Hl w F HT. exists t. split; [|done]. eapply update_claims; [exact Hm|exact Hn| |exact HT].
  intros rt pl l He Hpl. destruct (Hl rt pl l He Hpl) as [?|?]; [by left|right]. apply elem_of_app. by left.
Qed.
Lemma stays_put_run i l t : Put (grant_of l) (PRun p i) ∈ t -> stays (update_run p i (put_run_lease l)) t.
Proof.
  intros Hin. eapply (stays_update _ (fun rt => rt <| active := alter (put_run_lease l) i (active rt) |>)); [done| |].
  - intros rt. split; [done|]. unfold bounded. simpl. rewrite <- !(size_dom (D := gset string)), dom_alter_L. done.
  - intros rt pl l' Hp. destruct pl as [q j|q j|q j|q j]; simpl in *; [by left..|]. subst q.
    destruct (base.decide (i = j)) as [<-|Hne]; [|rewrite lookup_alter_ne by done; by left].
    rewrite lookup_alter_eq. destruct (active rt !! i) as [a|]; [|done]. simpl. unfold put_run_lease.
    destruct (ar_lease a) as [l0|] eqn:Ha; simpl; [intros [= <-]; by right|rewrite Ha; done].
Qed.
Definition node_puts (n : NodeLeases) : list Right :=
  [Put (grant_of (nl_work n)) (PWork p (nl_id n))]
  ++ map (fun l => Put (grant_of l) (PGlobal p (nl_id n))) (option_list (nl_global n))
  ++ map (fun l => Put (grant_of l) (PRunSlot p (nl_id n))) (option_list (nl_run n)).
Lemma same_grants (pl : Place) (a b : option LeaseRecord) : grant_of <$> a = grant_of <$> b ->
  map (fun l => Put (grant_of l) pl) (option_list a) = map (fun l => Put (grant_of l) pl) (option_list b).
Proof. destruct a as [a|], b as [b|]; simpl; [|done..]. intros He. injection He as He. unfold grant_of. congruence. Qed.
Lemma stays_put_node n t : node_puts n ⊆ t -> stays (update_node p (nl_id n) (put_node_leases n)) t.
Proof.
  intros Hin. eapply (stays_update _ (fun rt => rt <| active_nodes := alter (put_node_leases n) (nl_id n) (active_nodes rt) |>)); [done| |].
  - intros rt. split; [done|]. unfold bounded. simpl. rewrite <- !(size_dom (D := gset string)), dom_alter_L. done.
  - intros rt pl l' Hp. destruct pl as [q j|q j|q j|q j]; simpl in *; [| | |by left]; subst q;
      (destruct (base.decide (nl_id n = j)) as [<-|Hne]; [|rewrite lookup_alter_ne by done; by left]);
      rewrite lookup_alter_eq; (destruct (active_nodes rt !! nl_id n) as [a|]; [|done]); simpl; unfold put_node_leases, node_puts in *;
      destruct (nl_global n) as [g|], (nl_run n) as [s|]; simpl in *; intros Hl;
      first [by left | right; apply Hin; simplify_eq/=; set_solver].
Qed.
Lemma stays_renew_run i l t : Put (grant_of l) (PRun p i) ∈ t -> stays (renew_run E config p (i, l)) t.
Proof.
  intros Hin. unfold renew_run. apply (stays_bind_wp (renewed_as l)); [apply wp_renewal|].
  intros [l'| |] Ho; simpl in *; [|by apply leaves_wp, leaves_update_run|done]. apply stays_put_run. by rewrite Ho.
Qed.
(** The lease that is kept is the lease that was given. *)
Lemma wp_renew_kept l t : cwp (renew_kept E config p l) t
  (fun r t' => t' = t /\ match r with TOk (l', _) => grant_of l' = grant_of l | TThrow _ => True end).
Proof.
  unfold renew_kept. apply wp_bind. eapply wp_mono; [|apply wp_renewal]. intros [[l'| |]|x] t' [-> Ho]; simpl in *; done.
Qed.
Lemma wp_renew_optional l t : cwp (renew_optional E config p l) t
  (fun r t' => t' = t /\ match r with TOk (l', _) => grant_of <$> l' = grant_of <$> l | TThrow _ => True end).
Proof.
  destruct l as [l|]; [|done]. unfold renew_optional. apply wp_bind. eapply wp_mono; [|apply wp_renew_kept].
  intros [[l' b]|x] t' [-> Ho]; simpl in *; [|done]. split; [done|]. by f_equal.
Qed.
Lemma stays_renew_node n t : node_puts n ⊆ t -> stays (renew_node E config p n) t.
Proof.
  intros Hin. unfold renew_node. apply stays_bind.
  { apply leaves_catch; [|by intros e]. apply leaves_bind; [keep|intros o]. apply leaves_reconcile. }
  intros _. apply stays_bind; [apply leaves_observe|]. intros _.
  eapply stays_bind_wp; [apply wp_renew_kept|]. intros [l1 b1] H1. eapply stays_bind_wp; [apply wp_renew_optional|]. intros [l2 b2] H2.
  eapply stays_bind_wp; [apply wp_renew_optional|]. intros [l3 b3] H3. simpl in *. case_match; [|by apply leaves_wp, leaves_update_node].
  apply (stays_put_node (mkNodeLeases (nl_id n) l1 l2 l3)). etransitivity; [|exact Hin]. unfold node_puts. simpl.
  by rewrite H1, (same_grants _ _ _ H2), (same_grants _ _ _ H3).
Qed.
(** What a process knows about its entries. *)
Definition known_puts (rt : RT) : list Right :=
  map (fun kv => Put (grant_of kv.2) (PRun p kv.1)) (run_leases rt) ++ flat_map node_puts (node_leases rt).
Lemma claims_know w t T : (forall k, k ∈ t -> exists g pl, k = Put g pl /\ placed w !! g = Some pl) ->
  Claims config w T -> Claims config w (t ++ T).
Proof.
  intros Ht [C1 C2 C3 C4 C5 C6 C7].
  assert (Hf : forall g, Fresh g ∈ t ++ T -> Fresh g ∈ T).
  { intros g [Hin|?]%elem_of_app; [|done]. destruct (Ht _ Hin) as (h & pl & ? & _). done. }
  split; [done| | | | |done|done].
  - intros g pl [Hin|Hin]%elem_of_app; [|by apply C2]. destruct (Ht _ Hin) as (h & pl' & [= -> ->] & ?). done.
  - intros g. rewrite count_app. assert (Hz : ~ (0 < count (is_fresh g) t)%nat).
    { intros Hin%fresh_count. destruct (Ht _ Hin) as (h & pl & ? & _). done. }
    specialize (C3 g). lia.
  - auto.
  - intros g [Hin|Hp]; apply C5; auto.
Qed.
Lemma known_placed w T rt k : Claims config w T -> members w !! p = Some rt -> k ∈ known_puts rt ->
  exists g pl, k = Put g pl /\ placed w !! g = Some pl.
Proof.
  intros HT Hp Hk.
  assert (Hat : forall pl l, process_of pl = p -> rt_lease rt pl = Some l -> placed w !! grant_of l = Some pl).
  { intros pl l He Hl. apply (cm_at _ _ _ HT). unfold lease_at. by rewrite He, Hp. }
  unfold known_puts in Hk. apply elem_of_app in Hk as [Hk|Hk].
  - apply list_elem_of_In, in_map_iff in Hk as ([i l] & <- & Hin%list_elem_of_In). unfold run_leases in Hin.
    apply list_elem_of_omap in Hin as ([j a] & Hin & He). simpl in He. destruct (ar_lease a) as [l0|] eqn:Ha; [|done].
    injection He as -> ->. apply elem_of_map_items in Hin. do 2 eexists. split; [done|]. apply (Hat (PRun p i)); [done|].
    simpl. by rewrite Hin.
  - apply list_elem_of_In, in_flat_map in Hk as (n & Hn & Hk%list_elem_of_In). unfold node_leases in Hn.
    apply in_map_iff in Hn as ([i a] & <- & Hin%list_elem_of_In). apply elem_of_map_items in Hin. simpl in Hin.
    unfold node_puts in Hk. simpl in Hk. apply elem_of_cons in Hk as [->|Hk].
    { do 2 eexists. split; [done|]. apply (Hat (PWork p i)); [done|]. simpl. by rewrite Hin. }
    apply elem_of_app in Hk as [Hk|Hk]; apply list_elem_of_In, in_map_iff in Hk as (l & <- & Hl%list_elem_of_In);
      do 2 eexists; (split; [done|]).
    + apply (Hat (PGlobal p i)); [done|]. simpl. rewrite Hin. simpl. destruct (an_global a); [|by apply elem_of_nil in Hl].
      by apply list_elem_of_singleton in Hl as ->.
    + apply (Hat (PRunSlot p i)); [done|]. simpl. rewrite Hin. simpl. destruct (an_run a); [|by apply elem_of_nil in Hl].
      by apply list_elem_of_singleton in Hl as ->.
Qed.
Lemma lawful_lease_pass : lawful (lease_pass E config p) [].
Proof.
  unfold lease_pass. apply (lawful_bind_wp _ _ _ (fun r t' => match r with TOk (Some rt) => t' = known_puts rt | _ => t' = [] end)).
  - intros w F HT. destruct (on_process_cases p (w ← io_get; mret (if stopping w then None else Some w)) w)
      as [[_ ->]|(rt & rt' & r & Hp & Hr & ->)]; [by exists []|].
    injection Hr as <- <-. simpl. set (w' := mkCluster _ _ _).
    assert (HT' : Claims config w' F) by (apply (next_calm config p rt (with_db (cl_db w) rt) w F Hp); [reflexivity|done]).
    destruct (stopping rt); [by exists []|]. exists (known_puts rt). split; [|done].
    apply claims_know; [|done]. intros k Hk. apply (known_placed w' F (with_db (cl_db w) rt)); [exact HT'|apply lookup_insert_eq|exact Hk].
  - intros [rt|] t' Ht; [|done]. subst t'. cbv zeta. apply lawful_bind.
    { apply leaves_catch; [|by intros e]. apply leaves_at. apply always_bind; [apply _|steadies|intros w].
      apply always_bind; [apply _|apply steady_heartbeat|intros b]. by apply always_ret, _. }
    intros _. apply (lawful_bind_wp _ _ _ (fun _ t' => t' = known_puts rt)).
    + apply stays_iter. intros [i l] Hin. apply stays_renew_run. apply elem_of_app. left.
      apply list_elem_of_In, in_map_iff. exists (i, l). split; [done|by apply list_elem_of_In].
    + intros _ t' ->. eapply wp_mono; [|apply stays_iter]; [done|]. intros n Hn. apply stays_renew_node. intros k Hk.
      apply elem_of_app. right. apply list_elem_of_In, in_flat_map. exists n. split; by apply list_elem_of_In.
Qed.
End AtProcess.
End Programs.

(** ** The cluster *)

Section Cluster.
Context `{L : JsonLib} `{Y : YamlLib} (E : nat -> RuntimeEnv) {HE : forall p, ClusterLaws (E p)} (config : nat -> RuntimeConfig).

(** A pass of one of the loops of a process; what it throws is logged. *)
Inductive cluster_thread : CProg unit -> Prop :=
  | run_claims p : cluster_thread (prog_bind (claim_pass E config p) (fun _ => Done tt))
  | run_leases_of p : cluster_thread (prog_bind (lease_pass E config p) (fun _ => Done tt)).
(** Processes start and end, and everything else the processes and other components do: they put no lease
    anywhere, and take over leases as anyone may. *)
Inductive cluster_other (w : Cluster) : Cluster -> Prop :=
  | process_starts p rt : members w !! p = None -> active rt = ∅ -> active_nodes rt = ∅ ->
      cluster_other w (w <| members := <[p := rt]> (members w) |>)
  | process_ends p : cluster_other w (w <| members := delete p (members w) |>)
  | process_works p rt rt' : members w !! p = Some rt -> steady (config p) (with_db (cl_db w) rt) rt' ->
      cluster_other w (mkCluster (rt_db rt') (<[p := rt']> (members w)) (placed w))
  | others_write db : leases_grow (cl_db w) db -> cluster_other w (w <| cl_db := db |>).
(** All processes end at once. *)
Definition blackout (w : Cluster) : Cluster := w <| members := ∅ |>.
Definition cluster_step := pool_step unnoted cluster_thread cluster_other blackout.
Definition empty_cluster (db : DB) : Cluster := mkCluster db ∅ ∅.

Lemma thread_lawful q : cluster_thread q -> wp unnoted (Claims config) any_rights q [] (fun _ => any_rights).
Proof.
  intros Hq. destruct Hq as [p|p]; apply wp_bind; (eapply wp_mono; [|first [by apply lawful_claim_pass|by apply lawful_lease_pass]]); done.
Qed.
Lemma other_claims w w' T : cluster_other w w' -> Claims config w T -> Claims config w' T.
Proof.
  intros Ho HT. pose proof (cm_bounded _ _ _ HT) as Hb. destruct Ho as [p rt Hp Ha Hn|p|p rt rt' Hp Hs|db Hg].
  - apply (claims_calm config w); [reflexivity|done| | |exact HT].
    + intros pl l. unfold lease_at. simpl. destruct (base.decide (p = process_of pl)) as [->|Hne]; [|by rewrite lookup_insert_ne].
      rewrite lookup_insert_eq. simpl. destruct pl; simpl; rewrite ?Ha, ?Hn, lookup_empty; done.
    + simpl. intros q rt2 [[<- <-]|[_ Hq]]%lookup_insert_Some; [|by apply Hb]. unfold bounded. rewrite Ha, Hn, !map_size_empty. lia.
  - apply (claims_calm config w); [reflexivity|done| | |exact HT].
    + intros pl l. unfold lease_at. simpl. destruct (members w !! process_of pl) as [rt|] eqn:Hm.
      * destruct (base.decide (p = process_of pl)) as [->|Hne]; [by rewrite lookup_delete_eq|by rewrite lookup_delete_ne, Hm].
      * assert (Hd : delete p (members w) !! process_of pl = None) by (apply lookup_delete_None; by right). by rewrite Hd.
    + simpl. intros q rt [_ Hq]%lookup_delete_Some. by apply Hb.
  - by eapply next_calm.
  - by apply (claims_calm config w).
Qed.
Lemma blackout_claims w T : Claims config w T -> Claims config (blackout w) [].
Proof.
  intros HT. apply (claims_sub config _ T); [apply submseteq_nil_l|]. apply (claims_calm config w); [reflexivity|done| | |exact HT].
  - intros pl l. unfold lease_at. simpl. by rewrite lookup_empty.
  - simpl. by intros p rt ?%lookup_empty_Some.
Qed.
Lemma empty_claims db : Claims config (empty_cluster db) [].
Proof.
  split; simpl.
  - intros pl l. unfold lease_at. simpl. by rewrite lookup_empty.
  - by intros g pl ?%elem_of_nil.
  - intros g. unfold count. simpl. lia.
  - by intros g ?%elem_of_nil.
  - intros g [?%elem_of_nil|[pl ?%lookup_empty_Some]]; done.
  - by intros g pl ?%lookup_empty_Some.
  - by intros p rt ?%lookup_empty_Some.
Qed.
Lemma cluster_claims_hold db w T : rtc cluster_step (empty_cluster db, []) (w, T) -> Claims config w [].
Proof.
  intros Hs. assert (Hok : pool_ok unnoted (Claims config) any_rights (w, T)).
  { eapply (pool_sound unnoted cluster_thread cluster_other blackout); [apply claims_perm|apply thread_lawful|apply other_claims|apply blackout_claims|exact Hs|].
    exists []. split; [constructor|]. apply empty_claims. }
  destruct Hok as (ts & _ & HT). eapply claims_sub; [apply submseteq_nil_l|exact HT].
Qed.
End Cluster.

(** ** The properties *)

Lemma to_string_inj m n : 0 <= m <= u64_max -> 0 <= n <= u64_max -> to_string m = to_string n -> m = n.
Proof.
  intros Hm Hn He. apply (f_equal chars_of) in He. unfold to_string in He. rewrite !chars_of_of_chars in He.
  rewrite <- (to_dec_val m), <- (to_dec_val n) by done. by f_equal.
Qed.
(** The last colon of a key separates the slot from the run. *)
Lemma run_slot_key_inj r r' m n : Z.of_nat m <= u64_max -> Z.of_nat n <= u64_max -> run_slot_key r m = run_slot_key r' n -> r = r' /\ m = n.
Proof.
  intros Hm Hn He. apply (f_equal chars_of) in He. unfold run_slot_key in He. rewrite !chars_of_app in He.
  apply app_inv_head in He. apply (f_equal (@rev _)) in He. rewrite !rev_app_distr in He. simpl in He. rewrite <- !app_assoc in He.
  unfold to_string in He. rewrite !chars_of_of_chars in He.
  apply digits_then_colon in He as [Hd Hr]; [|apply Forall_rev, to_dec_digits; lia..].
  apply (f_equal (@rev _)) in Hd, Hr. rewrite !rev_involutive in Hd, Hr. split; [by apply chars_of_inj|].
  apply (f_equal digits_val) in Hd. rewrite !to_dec_val in Hd by lia. lia.
Qed.

(** The lease is the one the table holds for its resource. *)
Definition current (db : DB) (l : LeaseRecord) : Prop := exists now row, matching_lease db l now = Some row.

Section Counting.
Context (config : nat -> RuntimeConfig) (w : Cluster) (HT : Claims config w []).

Lemma current_one pl pl' l l' : lease_at w pl = Some l -> lease_at w pl' = Some l' -> resource_key l = resource_key l' ->
  current (cl_db w) l -> current (cl_db w) l' -> pl = pl'.
Proof.
  intros Hl Hl' Hk (n & row & (Hr & _ & Ht & _)%matching_lease_some) (n' & row' & (Hr' & _ & Ht' & _)%matching_lease_some).
  apply (cm_at _ _ _ HT) in Hl, Hl'. rewrite Hk, Hr' in Hr. injection Hr as <-.
  assert (Hg : grant_of l = grant_of l') by (unfold grant_of; congruence). rewrite Hg in Hl. congruence.
Qed.
(** Places that hold current leases on the keys of a list are not more than the keys. *)
Lemma held_bounded (ls : list Place) (keys : list string) : NoDup ls ->
  (forall pl, pl ∈ ls -> exists l, lease_at w pl = Some l /\ resource_key l ∈ keys /\ current (cl_db w) l) ->
  (length ls <= length keys)%nat.
Proof.
  intros Hn Hls. rewrite <- (length_map (fun pl => resource_key <$> lease_at w pl) ls), <- (length_map Some keys).
  apply submseteq_length, NoDup_submseteq.
  - apply (NoDup_fmap_2_strong (fun pl => resource_key <$> lease_at w pl)); [|done]. intros pl pl' Hp Hp' He.
    destruct (Hls _ Hp) as (l & Hl & _ & Hc), (Hls _ Hp') as (l' & Hl' & _ & Hc'). rewrite Hl, Hl' in He. injection He as He.
    by eapply current_one.
  - intros o Ho. apply list_elem_of_In, in_map_iff in Ho as (pl & <- & Hin%list_elem_of_In).
    destruct (Hls _ Hin) as (l & -> & Hk & _). apply list_elem_of_In, in_map_iff. exists (resource_key l). split; [done|by apply list_elem_of_In].
Qed.
End Counting.

(** C9: claims between instances are exclusive and bounded.  In every interleaving of claim and lease passes of any
    number of processes, which may end at any point and come back, with any answers of the workers and with
    everything else writing beside them: a current lease is held at one place in the whole cluster (so
    that a run or a work item is executed under a current lease by at most one process); at most
    [max_nodes] branches are executed with a current slot of the cluster, and at most [max_nodes_per_run] with a
    current slot of one run; and every process keeps within its own limits. *)
Theorem cluster_claims `{L : JsonLib} `{Y : YamlLib} (E : nat -> RuntimeEnv) {HE : forall p, ClusterLaws (E p)}
    (config : nat -> RuntimeConfig) db w T :
  rtc (cluster_step E config) (empty_cluster db, []) (w, T) ->
  (forall pl pl' l l', lease_at w pl = Some l -> lease_at w pl' = Some l' -> resource_key l = resource_key l' ->
     current (cl_db w) l -> current (cl_db w) l' -> pl = pl')
  /\ (forall M ls, (forall p, max_nodes (config p) <= M) -> NoDup ls ->
       (forall p i, (p, i) ∈ ls -> exists l, lease_at w (PGlobal p i) = Some l /\ current (cl_db w) l) ->
       (length ls <= Z.to_nat M)%nat)
  /\ (forall M run ls, (forall p, max_nodes_per_run (config p) <= M) -> M <= u64_max -> NoDup ls ->
       (forall p i, (p, i) ∈ ls -> exists l n, lease_at w (PRunSlot p i) = Some l /\ resource_key l = run_slot_key run n
          /\ Z.of_nat n <= u64_max /\ current (cl_db w) l) ->
       (length ls <= Z.to_nat M)%nat)
  /\ (forall p rt, members w !! p = Some rt -> bounded (config p) rt).
Proof.
  intros Hs. pose proof (cluster_claims_hold E config db w T Hs) as HT. split_and!.
  - intros pl pl' l l'. by apply (current_one config).
  - intros M ls HM Hn Hls. rewrite <- (length_map (fun x => PGlobal x.1 x.2) ls).
    replace (Z.to_nat M) with (length (map slot_key (seq 0 (Z.to_nat M)))) by by rewrite length_map, length_seq.
    apply (held_bounded config w HT).
    + apply (NoDup_fmap_2_strong (fun x : nat * string => PGlobal x.1 x.2)); [|done]. by intros [p i] [q j] _ _ [= -> ->].
    + intros pl Hpl. apply list_elem_of_In, in_map_iff in Hpl as ([p i] & <- & Hin%list_elem_of_In).
      destruct (Hls p i Hin) as (l & Hl & Hc). exists l. split_and!; [done| |done].
      destruct (cm_shape _ _ _ HT _ _ (cm_at _ _ _ HT _ _ Hl)) as (n & Hlt & Hk). simpl in Hk. rewrite Hk.
      apply list_elem_of_In, in_map, in_seq. specialize (HM p). lia.
  - intros M run ls HM Hu Hn Hls. rewrite <- (length_map (fun x => PRunSlot x.1 x.2) ls).
    replace (Z.to_nat M) with (length (map (run_slot_key run) (seq 0 (Z.to_nat M)))) by by rewrite length_map, length_seq.
    apply (held_bounded config w HT).
    + apply (NoDup_fmap_2_strong (fun x : nat * string => PRunSlot x.1 x.2)); [|done]. by intros [p i] [q j] _ _ [= -> ->].
    + intros pl Hpl. apply list_elem_of_In, in_map_iff in Hpl as ([p i] & <- & Hin%list_elem_of_In).
      destruct (Hls p i Hin) as (l & n & Hl & Hk & Hun & Hc). exists l. split_and!; [done| |done].
      destruct (cm_shape _ _ _ HT _ _ (cm_at _ _ _ HT _ _ Hl)) as (run' & n' & Hlt & Hk'). simpl in Hk'. specialize (HM p).
      assert (Hn' : n' = n) by (apply (run_slot_key_inj run' run); [lia|done|congruence]). subst n'.
      rewrite Hk. apply list_elem_of_In, in_map, in_seq. lia.
  - apply (cm_bounded _ _ _ HT).
Qed.

(** *** A run of a cluster: two processes share the two branches of a run *)
Section Witness.
#[local] Existing Instance strict_json.
#[local] Instance cluster_yaml : YamlLib :=
  {| LoadAll := fun _ => None; as_string := fun _ => None; as_longlong := fun _ => None; json_parse := fun _ => None |}.
Definition cluster_env (p : nat) : RuntimeEnv := {|
  rt_uuid := fun n => ("u" ++ to_string (Z.of_nat n))%string; rt_timestamp := fun _ => "2026-01-01T00:00:00Z"%string;
  rt_dbclock := fun n _ => Z.of_nat n; rt_dbtime := fun _ => ""%string;
  rt_publish := fun _ _ db => db; rt_worker_cancel := fun _ _ db => (db, TOk tt);
  rt_schema := fun _ _ _ _ => Ok tt |}.
#[local] Instance cluster_env_laws p : ClusterLaws (cluster_env p).
Proof. split. intros n e db. reflexivity. Qed.
Definition cluster_config (p : nat) : RuntimeConfig :=
  mkRuntimeConfig true false (match p with O => "a" | _ => "b" end)%string ∅ 4 2 2 100 5 10 30000.
Definition cluster_run : Run := ((sample_run "r1") <| state := Paused |>) <| pending_parallel_group := "g"%string |>.
Definition queued_work (i : string) : NodeWork := ((sample_work WQueued None) <| w_id := i |>) <| attempt_id := ""%string |>.
Definition cluster_db : DB :=
  sample_instances <| tables := {[ (KRun, "r1"%string) := mkRow "r1" (run_to_json cluster_run) 1;
    (KNodeWork, "w1"%string) := mkRow "r1" (work_to_json (queued_work "w1")) 1;
    (KNodeWork, "w2"%string) := mkRow "r1" (work_to_json (queued_work "w2")) 2 ]} |>.
Definition cluster_rt : RT := mkRT (mkCoord empty_db 0 0 0) 0 ∅ ∅ ModeActive false false false [] [] [] [].
Definition cluster_answer (c : ClaimCall) : tres (claim_answer c) := TThrow TStd.
Definition two_processes : Cluster :=
  (empty_cluster cluster_db) <| members := <[1%nat := cluster_rt]> (<[0%nat := cluster_rt]> ∅) |>.
Definition claims_at (p : nat) : CProg unit := prog_bind (claim_pass cluster_env cluster_config p) (fun _ => Done tt).
(** The first process claims a branch, and the second the other while the first one executes. *)
Definition one_claimed : Cluster * list (CProg unit) := drive unnoted 18 cluster_answer two_processes (claims_at 0) [].
Definition both_claimed : Cluster * list (CProg unit) := drive unnoted 25 cluster_answer one_claimed.1 (claims_at 1) one_claimed.2.
Lemma both_reached : rtc (cluster_step cluster_env cluster_config) (empty_cluster cluster_db, []) both_claimed.
Proof.
  assert (Hrun : forall n p w T, rtc (cluster_step cluster_env cluster_config) (w, T) (drive unnoted n cluster_answer w (claims_at p) T))
    by (intros n p w T; apply drive_start, run_claims).
  eapply rtc_l; [apply step_other, (process_starts _ _ 0 cluster_rt); done|].
  eapply rtc_l; [apply step_other, (process_starts _ _ 1 cluster_rt); done|].
  transitivity one_claimed; [apply Hrun|]. rewrite (surjective_pairing one_claimed). apply Hrun.
Qed.
Definition held_now (pl : Place) : option (string * bool) :=
  (fun l => (resource_key l, bool_decide (is_Some (matching_lease (cl_db both_claimed.1) l 0)))) <$> lease_at both_claimed.1 pl.
Lemma cluster_claims_witness :
  map held_now [PWork 0 "w1"; PGlobal 0 "w1"; PRunSlot 0 "w1"; PWork 1 "w2"; PGlobal 1 "w2"; PRunSlot 1 "w2"]%string
    = map (fun k => Some (k, true)) ["node:w1"; "node-slot:0"; "run-node-slot:r1:0"; "node:w2"; "node-slot:1"; "run-node-slot:r1:1"]%string
  /\ (forall ls, NoDup ls ->
       (forall p i, (p, i) ∈ ls -> exists l, lease_at both_claimed.1 (PGlobal p i) = Some l /\ current (cl_db both_claimed.1) l) ->
       (length ls <= 2)%nat).
Proof.
  split; [vm_compute; reflexivity|].
  intros ls. refine (proj1 (proj2 (cluster_claims cluster_env cluster_config cluster_db both_claimed.1 both_claimed.2 _)) 2 ls _).
  - rewrite <- surjective_pairing. apply both_reached.
  - intros p. apply Z.le_refl.
Defined.
End Witness.
